(* ===== verification/_CoqProject ===== *)
-Q . S2P
Prelude.v
RStr.v
BTree.v
MachInt.v
Xml.v
Daemon.v
Core.v
Util.v
Large.v
Config.v
Policy.v
Store.v
Db.v
Crypto.v
Pack.v
Restore.v
LargeStore.v
RemoteObjects.v
Trees.v
ObjectKeys.v
AtomicIo.v
LinkFs.v
FileRemote.v
Queue.v
QueueSafety.v
QueueEnqueue.v
QueueMaster.v
EventJournal.v
EventJournalSafety.v
PackStore.v
RestoreJob.v
Gc.v
Prune.v
RestoreApply.v
RestorePlanning.v
RestoreOverlay.v
RestoreSafety.v
RestoreBounds.v
RestoreFaults.v
RestoreResult.v
RestoreConflicts.v
RestoreMirror.v
RestoreExample.v
SnapshotRules.v
SnapshotReach.v
SnapshotScan.v
SnapshotComplete.v
SnapshotLive.v
SnapshotExample.v
Forget.v
ForgetExample.v
Roots.v
Tracking.v
TrackingExample.v
Pipeline.v
