(* ===== verification/Prelude.v ===== *)
(** * Majutsu: a verification development

    Majutsu ([src/src]) is a versioned backup tool.  It scans directories (roots) into
    snapshots, keeps the contents of files as content-addressed objects (loose blobs,
    packs, chunked large files), encrypts objects, uploads them through a persistent
    queue to a remote (a directory, an object store, or a cluster master), and restores
    files from any snapshot, hydrating what is only on the remote.  Retention plans,
    garbage collection and compaction reclaim space.

    This library is a shallow embedding: pure functions become functions, stateful code
    becomes [stm S A] (a state, and an outcome that is a value, an error, or a panic; the
    state reached is kept on every way out), threads become a step relation.

    ** Files and the code they model

    - [Prelude]: results, outcomes, the state monad with its triples and frame rules,
      tactics.  [RStr], [BTree], [MachInt]: Rust strings, ordered maps and sets as sorted
      lists, 64-bit arithmetic (release builds: it wraps unless the code says otherwise).
    - The crates under [src/src/internal]: [Core] (history, operation log, records,
      manifests, consistency checks), [Large] (chunking and compression), [Policy] and
      [Xml] (retention plans, lifecycle documents), [Store] (layout of the remote), [Db]
      (queue items, journal records, references), [Crypto] (key files, keyrings,
      envelopes; also [encode_object] and [decode_object] of [main.rs]), [Pack] (pack
      indexes), [Restore] (job records, times, filters), [Daemon] (service definitions and
      watch settings, with the quoting of systemd, launchd and Windows).  [Util] and
      [Config] hold the parts of [util.rs] and [config.rs] these use.
    - [LargeStore]: storing and restoring large files ([main.rs]), against the interface
      [ObjectCodec] that [Crypto] implements ([crypto_codec_laws]).
    - [RemoteObjects]: canonical encodings, availability and download of objects
      ([main.rs], [sync_runtime.rs], [hydration_error.rs]).
    - [Trees]: the trees of a snapshot ([main.rs], [snapshot_state.rs]).
    - [ObjectKeys]: the objects a snapshot depends on ([object_paths.rs]).
    - [Gc] and [Prune]: [mj gc] and [mj prune] ([prune_runtime.rs], [snapshot_state.rs],
      [cache_runtime.rs]).
    - [AtomicIo]: [atomic_io.rs] over a file system in which any call can fail.
    - [FileRemote]: directory remotes ([remote_store.rs]); it implements [RemotePut], the
      contract of a remote the queue is proved against.
    - [Queue], [QueueSafety], [QueueEnqueue], [QueueMaster]: the upload queue
      ([queue_runtime.rs]), direct drains and drains through a cluster master.
    - [EventJournal], [EventJournalSafety]: the journal of file changes
      ([queue_runtime.rs]): recording, upload, acknowledgement, compaction.
    - [PackStore]: writing, reading and compacting packs ([pack_runtime.rs], [main.rs]).
    - [RestoreJob]: preparing, hydrating and resuming restore jobs ([main.rs],
      [restore_runtime.rs]).
    - [LinkFs]: a file system with symbolic links, paths resolved through them, and calls
      that may fail.  [RestoreApply]: carrying a restore plan out over it
      ([restore_apply.rs], [restore_runtime.rs]); [RestorePlanning]: building one
      ([main.rs], [snapshot_state.rs]).  [RestoreSafety] (what each step can change),
      [RestoreBounds], [RestoreFaults] (runs without faults, and the metadata they set),
      [RestoreResult], [RestoreConflicts], [RestoreOverlay],
      [RestoreMirror] and [RestoreExample] hold their theorems.
    - [SnapshotRules]: which files of a root are in a snapshot ([snapshot_rules.rs]);
      [SnapshotScan]: scanning a root into records ([main.rs]); [SnapshotLive]: comparing a
      root with its last snapshot ([queue_runtime.rs]).  [SnapshotReach] (the directories a
      scan enters), [SnapshotComplete] and [SnapshotExample] hold their theorems.
    - [Roots]: the roots, their settings in the configuration file, the tracked paths, and
      the commands of [mj root] ([root_state.rs], [root_runtime.rs]); [Tracking]: [mj track]
      and [mj untrack]; [Forget]: taking what is no longer managed out of the stored
      snapshots ([root_runtime.rs], [main.rs]).  [ForgetExample] and [TrackingExample] hold
      their concrete runs.
    - [Pipeline]: the threads of a pipelined restore ([main.rs]) as a step relation, its
      reads and the calls of its writer failing or not.

    ** What the theorems show

    - Nothing stored is lost: storing then restoring gives the bytes back ([LargeStore],
      [Trees], [Crypto], [RemoteObjects]), for objects that do not look encrypted when they are
      not, chunks of one compression, and exports within the limit of a download; packing, compacting and garbage collection keep
      every blob and every object a snapshot needs ([PackStore], [ObjectKeys], [Gc],
      [Prune]), also when they stop half way, for snapshots whose records are in trees (the flat
      manifests of old snapshots are not followed: [gc_drops_flat_roots]); an upload queue loses no item whatever call fails and in
      whatever order the threads run, and publishes references last ([QueueSafety],
      [QueueMaster]); a recorded change of a file stays in the journal until the remote has it
      with its payload ([EventJournalSafety]); key files and remote objects are replaced atomically ([Crypto],
      [AtomicIo], [FileRemote]).
    - Restores are safe: a plan changes nothing outside the directories it restores into,
      whatever links it meets and whatever fails ([RestoreBounds]); without [--force] it
      keeps the contents of all that was there ([RestoreConflicts]); when it succeeds every
      record is in place with its metadata ([RestoreResult]), and nothing else is left below
      the restored directories ([RestoreMirror]); the records of a plan are those of the
      snapshot with the later durable changes ([RestoreOverlay]).  The paths of a plan carry no
      trailing separators, and a target reached over a [..] is covered only as far as the
      theorem says; [RestoreExample] shows what happens otherwise.
    - Snapshots are complete: a scan records every managed file it should, whatever it
      prunes ([SnapshotReach], [SnapshotComplete]), for the patterns [searchable_root]
      describes; a later comparison of the unchanged tree finds no change ([SnapshotLive]).
    - Settings are kept: whatever command of [mj root] runs, and however it ends, the roots
      can be opened again, and those it reported as saved are the ones found ([Roots]); after
      [mj track] and [mj untrack] the named paths, and only those, are in the lists and
      managed or not as asked ([Tracking]);
      rewriting the history of a root changes no other root of a snapshot ([Forget]).
    - The programs a service definition starts are the ones asked for ([Daemon]).
    - Concurrency: every interleaving of a pipelined restore ends, with the right bytes or with
      the destination as it was ([Pipeline]).
    - Decisions are exact: prune plans, reference checks, pack checks, enumeration of
      keys, chunk boundaries, retry delays, time arguments.
    - Invariants: queue, event journal, restore jobs, store, keyring cache, snapshots under [mj gc].
    - Some theorems show defects of the code; they are listed with the findings of the
      manifest.

    ** Bounds and modelling choices

    - Recursion over stored nodes takes the depth of the stack as an argument and panics
      beyond it; theorems give the depth that is enough (that of the stored tree).
    - [create_atomic_temp] tries 16 names and a lock is retried 200 times, as in the code;
      other fuel is the length of the list or text consumed, so that it never runs out.
    - Faults: [AtomicIo], [Crypto], [LinkFs] and the writes of [RestoreJob] take the list of
      system calls that fail, [Pipeline] the results of its calls; the threads
      of an upload batch run one after another in an order the environment chooses.
    - A path follows at most 40 links, as on Linux; looking at a file in [LinkFs] does not
      fail by itself, and no other process changes the tree during a restore.
    - Parameters, with the behaviour relied on as laws of a class and an instance for
      every witness: the ciphers, HMAC and BLAKE3 (injective on what is stored), zstd,
      serde formats (round trips), chrono, walkdir, globset, ignore, the object stores behind HTTP, random
      numbers and clocks.
    - SQL tables are maps or lists of rows; a statement is its effect on them.

    ** Not modelled

    The command line and its output, history views, fsck (its checks are in [Core], [Db],
    [Store], [Large] and [Pack]; the walks are I/O), cluster coordination and HTTP,
    watching of file systems, mounts, services of the operating system, the listings of roots,
    the rest of the snapshot command, and the scheduling of synchronisation. *)

From stdpp Require Export base tactics list gmap strings sorting.
From Stdlib Require Export ZArith Lia Ascii.

(** ** Results and outcomes

    [result A E] is Rust's [Result<A, E>].  [outcome A E] adds the third way a
    Rust call can end, a panic (an index out of range, a checked arithmetic
    operation that overflows, [split_at] off a character boundary). *)

Inductive result (A E : Type) : Type :=
| Ok (a : A)
| Err (e : E).
Arguments Ok {A E} a.
Arguments Err {A E} e.

Inductive outcome (A E : Type) : Type :=
| Done (a : A)
| Fails (e : E)
| Panics.
Arguments Done {A E} a.
Arguments Fails {A E} e.
Arguments Panics {A E}.

Definition result_bind {A B E} (r : result A E) (k : A → result B E) : result B E :=
  match r with Ok a => k a | Err e => Err e end.

Definition outcome_bind {A B E} (r : outcome A E) (k : A → outcome B E) : outcome B E :=
  match r with Done a => k a | Fails e => Fails e | Panics => Panics end.

Definition is_ok {A E} (r : result A E) : bool :=
  match r with Ok _ => true | Err _ => false end.

Definition result_ok {A E} (r : result A E) : option A :=
  match r with Ok a => Some a | Err _ => None end.

Definition outcome_of_result {A E} (r : result A E) : outcome A E :=
  match r with Ok a => Done a | Err e => Fails e end.

Declare Scope mj_scope.
Delimit Scope mj_scope with mj.

(** The [?] operator. *)
Notation "'let?' x ':=' e 'in' k" := (result_bind e (fun x => k))
  (at level 10, x pattern, e at level 200, k at level 200) : mj_scope.
Notation "'let!' x ':=' e 'in' k" := (outcome_bind e (fun x => k))
  (at level 10, x pattern, e at level 200, k at level 200) : mj_scope.
Open Scope mj_scope.

(** [iter().map(f).collect::<Result<Vec<_>, _>>()]: stops at the first error. *)
Fixpoint result_map {A B E} (f : A → result B E) (l : list A) : result (list B) E :=
  match l with
  | [] => Ok []
  | x :: l' => let? y := f x in let? ys := result_map f l' in Ok (y :: ys)
  end.

(** ** Stateful calls

    A call that reads and writes a state and may fail or panic: [stm S A].  The
    state reached is kept on every way out, as a Rust call that returns [Err]
    leaves the files and rows it has already written. *)

Definition stm (S A : Type) : Type := S → outcome A string * S.

Definition stm_ret {S A} (a : A) : stm S A := λ s, (Done a, s).
Definition stm_fail {S A} (e : string) : stm S A := λ s, (Fails e, s).
Definition stm_get {S A} (f : S → A) : stm S A := λ s, (Done (f s), s).
Definition stm_modify {S} (f : S → S) : stm S unit := λ s, (Done tt, f s).
Definition stm_lift {S A} (o : outcome A string) : stm S A := λ s, (o, s).
Definition stm_ok {S A} (r : result A string) : stm S A := stm_lift (outcome_of_result r).
Definition stm_some {S A} (e : string) (o : option A) : stm S A :=
  match o with Some a => stm_ret a | None => stm_fail e end.

Definition stm_bind {S A B} (m : stm S A) (k : A → stm S B) : stm S B := λ s,
  match m s with
  | (Done a, s') => k a s'
  | (Fails e, s') => (Fails e, s')
  | (Panics, s') => (Panics, s')
  end.

Notation "'let*' x ':=' e 'in' k" := (stm_bind e (fun x => k))
  (at level 10, x pattern, e at level 200, k at level 200) : mj_scope.

(** A [for] loop whose body may fail. *)
Fixpoint stm_iter {S A} (f : A → stm S unit) (l : list A) : stm S unit :=
  match l with
  | [] => stm_ret tt
  | x :: l' => let* _ := f x in stm_iter f l'
  end.

Fixpoint stm_map {S A B} (f : A → stm S B) (l : list A) : stm S (list B) :=
  match l with
  | [] => stm_ret []
  | x :: l' => let* y := f x in let* ys := stm_map f l' in stm_ret (y :: ys)
  end.

(** ** Automation *)

Create HintDb mj.
Create Rewrite HintDb mj_str.

(** Case analysis on the boolean tests and matches of a definition. *)
Ltac mj_case :=
  repeat match goal with
  | |- context [match ?x with _ => _ end] => destruct x eqn:?; simplify_eq/=
  | H : context [match ?x with _ => _ end] |- _ => destruct x eqn:?; simplify_eq/=
  end.

(** Turns boolean tests in hypotheses and goal into propositions. *)
Ltac mj_bool :=
  repeat match goal with
  | H : _ && _ = true |- _ => apply andb_true_iff in H as [? ?]
  | H : _ || _ = false |- _ => apply orb_false_iff in H as [? ?]
  | H : negb _ = true |- _ => apply negb_true_iff in H
  | H : negb _ = false |- _ => apply negb_false_iff in H
  | H : bool_decide _ = true |- _ => apply bool_decide_eq_true in H
  | H : bool_decide _ = false |- _ => apply bool_decide_eq_false in H
  | H : (_ =? _)%string = true |- _ => apply String.eqb_eq in H
  | H : (_ =? _)%string = false |- _ => apply String.eqb_neq in H
  | H : (_ =? _)%Z = true |- _ => apply Z.eqb_eq in H
  | H : (_ =? _)%Z = false |- _ => apply Z.eqb_neq in H
  | H : (_ <? _)%Z = true |- _ => apply Z.ltb_lt in H
  | H : (_ <? _)%Z = false |- _ => apply Z.ltb_ge in H
  | H : (_ <=? _)%Z = true |- _ => apply Z.leb_le in H
  | H : (_ <=? _)%Z = false |- _ => apply Z.leb_gt in H
  end.

(** Decides a closed goal by evaluation. *)
Ltac mj_compute := vm_compute; reflexivity.

(** ** Results *)

Lemma result_bind_Ok {A B E} (r : result A E) (k : A → result B E) b :
  result_bind r k = Ok b ↔ ∃ a, r = Ok a ∧ k a = Ok b.
Proof. destruct r; naive_solver. Qed.

Lemma result_map_Ok {A B E} (f : A → result B E) l ys :
  result_map f l = Ok ys ↔ Forall2 (λ x y, f x = Ok y) l ys.
Proof.
  revert ys; induction l as [|x l IH]; intros ys; simpl.
  - split; [intros [= <-]; constructor | by inversion 1].
  - rewrite result_bind_Ok. split.
    + intros (y & Hy & (ys' & Hys & [= <-])%result_bind_Ok).
      constructor; [done | by apply IH].
    + inversion 1 as [|? y ? ys' Hy Hys]; subst. exists y. split; [done|].
      rewrite result_bind_Ok. exists ys'. by rewrite IH.
Qed.

Lemma result_map_Err {A B E} (f : A → result B E) l e :
  result_map f l = Err e → ∃ x, x ∈ l ∧ f x = Err e.
Proof.
  induction l as [|x l IH]; simpl; [done|].
  destruct (f x) eqn:Hx; simpl; [|naive_solver set_solver].
  destruct (result_map f l); simpl; [done|].
  intros [= <-]. destruct IH as (y & ? & ?); [done|]. exists y; set_solver.
Qed.

(** ** Stateful calls: inversion *)

Lemma stm_bind_Done {S A B} (m : stm S A) (k : A → stm S B) s b s' :
  stm_bind m k s = (Done b, s') ↔ ∃ a s1, m s = (Done a, s1) ∧ k a s1 = (Done b, s').
Proof. unfold stm_bind. destruct (m s) as [[a|e|] s1]; naive_solver. Qed.

Lemma stm_ok_Done {S A} (r : result A string) (s : S) a s' :
  stm_ok r s = (Done a, s') → r = Ok a ∧ s' = s.
Proof. unfold stm_ok, stm_lift. destruct r; intros [= <- <-]. done. Qed.

(** [triple P m Q E]: from a state in [P], a call that returns ends in [Q], one
    that fails or panics in [E]. *)
Definition triple {S A} (P : S → Prop) (m : stm S A) (Q : A → S → Prop) (E : S → Prop) : Prop :=
  ∀ s r s', P s → m s = (r, s') → match r with Done a => Q a s' | _ => E s' end.

Lemma triple_bind {S A B} (P : S → Prop) (m : stm S A) (k : A → stm S B) Q R E :
  triple P m Q E → (∀ a, triple (Q a) (k a) R E) → triple P (stm_bind m k) R E.
Proof.
  unfold triple, stm_bind. intros Hm Hk s r s' HP Hs. specialize (Hm s).
  destruct (m s) as [[a|e|] s1] eqn:Hms; simplify_eq/=.
  - by eapply Hk; [apply (Hm _ _ HP eq_refl)|].
  - apply (Hm _ _ HP eq_refl).
  - apply (Hm _ _ HP eq_refl).
Qed.

Lemma triple_ret {S A} (P : S → Prop) (a : A) (Q : A → S → Prop) E :
  (∀ s, P s → Q a s) → triple P (stm_ret a) Q E.
Proof. intros HPQ s r s' HP [= <- <-]. by apply HPQ. Qed.

Lemma triple_mono {S A} (P P' : S → Prop) (m : stm S A) (Q Q' : A → S → Prop) (E E' : S → Prop) :
  triple P m Q E → (∀ s, P' s → P s) → (∀ a s, Q a s → Q' a s) → (∀ s, E s → E' s) →
  triple P' m Q' E'.
Proof.
  unfold triple. intros Hm HP HQ HE s r s' Hs Heq. specialize (Hm _ _ _ (HP _ Hs) Heq).
  destruct r; auto.
Qed.

Lemma triple_error {S A} (P : S → Prop) (m : stm S A) (Q : A → S → Prop) (E E' : S → Prop) :
  triple P m Q E → (∀ s, E s → E' s) → triple P m Q E'.
Proof. intros Hm HE. by eapply triple_mono. Qed.

(** [keeps f m]: the call leaves the part [f] of the state as it was, however it
    ends. *)
Definition keeps {S A B} (f : S → B) (m : stm S A) : Prop := ∀ s, f (m s).2 = f s.

Lemma keeps_bind {S A B C} (f : S → C) (m : stm S A) (k : A → stm S B) :
  keeps f m → (∀ a, keeps f (k a)) → keeps f (stm_bind m k).
Proof.
  intros Hm Hk s. unfold stm_bind. specialize (Hm s). destruct (m s) as [[a|e|] s1]; simpl in *; [|done..].
  by rewrite Hk.
Qed.
Lemma keeps_ret {S A B} (f : S → B) (a : A) : keeps f (stm_ret a).
Proof. done. Qed.
Lemma keeps_fail {S A B} (f : S → B) e : keeps f (stm_fail (A := A) e).
Proof. done. Qed.
Lemma keeps_get {S A B} (f : S → B) (g : S → A) : keeps f (stm_get g).
Proof. done. Qed.
Lemma keeps_lift {S A B} (f : S → B) (o : outcome A string) : keeps f (stm_lift o).
Proof. done. Qed.
Lemma keeps_ok {S A B} (f : S → B) (o : result A string) : keeps f (stm_ok o).
Proof. done. Qed.
Lemma keeps_some {S A B} (f : S → B) e (o : option A) : keeps f (stm_some e o).
Proof. by destruct o. Qed.
Lemma keeps_modify {S B} (f : S → B) g : (∀ s, f (g s) = f s) → keeps f (stm_modify g).
Proof. intros Hg s. apply Hg. Qed.
#[export] Hint Resolve keeps_ret keeps_fail keeps_get keeps_lift keeps_ok keeps_some : mj.

(** Follows the structure of a call to show what it keeps. *)
Ltac keeps_solve :=
  repeat lazymatch goal with
  | |- keeps _ (stm_bind _ _) => apply keeps_bind; [|intros ?]
  | |- keeps _ (stm_modify _) => apply keeps_modify; intros ?
  | |- keeps _ (match ?x with _ => _ end) => destruct x
  | |- _ => solve [auto with mj]
  end.

(** [errs Q m]: the error of a call, if it fails, satisfies [Q]. *)
Definition errs {S A} (Q : string → Prop) (m : stm S A) : Prop := ∀ s e s', m s = (Fails e, s') → Q e.

Lemma errs_bind {S A B} (Q : string → Prop) (m : stm S A) (k : A → stm S B) :
  errs Q m → (∀ a, errs Q (k a)) → errs Q (stm_bind m k).
Proof.
  intros Hm Hk s e s'. unfold stm_bind. destruct (m s) as [[a|e'|] s1] eqn:Hms.
  - apply Hk.
  - intros [= <- <-]. by apply (Hm _ _ _ Hms).
  - done.
Qed.
Lemma errs_ret {S A} (Q : string → Prop) (a : A) : errs Q (stm_ret (S := S) a).
Proof. by intros s e s'. Qed.
Lemma errs_fail {S A} (Q : string → Prop) e : Q e → errs Q (stm_fail (S := S) (A := A) e).
Proof. by intros He s e' s' [= <- <-]. Qed.
#[export] Hint Resolve errs_ret errs_fail : mj.

Ltac errs_solve :=
  repeat lazymatch goal with
  | |- errs _ (stm_bind _ _) => apply errs_bind; [|intros ?]
  | |- errs _ (match ?x with _ => _ end) => destruct x
  | |- _ => solve [auto with mj]
  end.

(** [always R m]: the state a call ends in is related to the one it started in,
    however it ends. *)
Definition always {S A} (R : S → S → Prop) (m : stm S A) : Prop := ∀ s, R s (m s).2.

Section Always.
Context {S : Type} (R : S → S → Prop) `{!PreOrder R}.

Lemma always_bind {A B} (m : stm S A) (k : A → stm S B) :
  always R m → (∀ a, always R (k a)) → always R (stm_bind m k).
Proof.
  intros Hm Hk s. unfold stm_bind. specialize (Hm s). destruct (m s) as [[a|e|] s1]; simpl in *; [|done..].
  etrans; [done|apply Hk].
Qed.
Lemma always_ret {A} (a : A) : always R (stm_ret a).
Proof. intros s. simpl. reflexivity. Qed.
Lemma always_fail {A} e : always R (stm_fail (A := A) e).
Proof. intros s. simpl. reflexivity. Qed.
Lemma always_get {A} (g : S → A) : always R (stm_get g).
Proof. intros s. simpl. reflexivity. Qed.
Lemma always_ok {A} (o : result A string) : always R (stm_ok o).
Proof. intros s. simpl. reflexivity. Qed.
Lemma always_some {A} e (o : option A) : always R (stm_some e o).
Proof. intros s. destruct o; simpl; reflexivity. Qed.
Lemma always_iter {A} (f : A → stm S unit) l : (∀ x, always R (f x)) → always R (stm_iter f l).
Proof. intros Hf. induction l as [|x l IH]; simpl; [apply always_ret|]. by apply always_bind. Qed.

(** What each step of a loop establishes, and later steps keep, holds at its end. *)
Lemma stm_iter_each {A} (f : A → stm S unit) (Q : A → S → Prop) l s s' :
  (∀ x, always R (f x)) → (∀ x s1 s2, f x s1 = (Done tt, s2) → Q x s2) →
  (∀ x s1 s2, R s1 s2 → Q x s1 → Q x s2) →
  stm_iter f l s = (Done tt, s') → ∀ x, x ∈ l → Q x s'.
Proof.
  intros Hf HQ Hmono. revert s; induction l as [|y l IH]; intros s Hrun x; [set_solver|].
  simpl in Hrun. apply stm_bind_Done in Hrun as ([] & s1 & Hy & Hrun).
  intros [->|Hx]%elem_of_cons; [|by eapply IH].
  eapply Hmono; [|by eapply HQ]. pose proof (always_iter f l Hf s1) as Hr. by rewrite Hrun in Hr.
Qed.
End Always.

Ltac always_solve :=
  repeat lazymatch goal with
  | |- always _ (stm_bind _ _) => apply always_bind; [typeclasses eauto| |intros ?]
  | |- always _ (match ?x with _ => _ end) => destruct x
  | |- always _ (stm_ret _) => apply always_ret; typeclasses eauto
  | |- always _ (stm_fail _) => apply always_fail; typeclasses eauto
  | |- always _ (stm_get _) => apply always_get; typeclasses eauto
  | |- always _ (stm_ok _) => apply always_ok; typeclasses eauto
  | |- always _ (stm_some _ _) => apply always_some; typeclasses eauto
  | |- always _ (stm_iter _ _) => apply always_iter; [typeclasses eauto|intros ?]
  | |- _ => solve [auto with mj]
  end.

(** Splits a hypothesis on a successful sequence of calls into its calls. *)
Ltac stm_inv :=
  repeat match goal with
  | H : stm_bind _ _ _ = (Done _, _) |- _ =>
      apply stm_bind_Done in H; destruct H as (? & ? & ? & H)
  | H : stm_ret _ _ = _ |- _ => unfold stm_ret in H; simplify_eq/=
  | H : stm_get _ _ = _ |- _ => unfold stm_get in H; simplify_eq/=
  | H : stm_modify _ _ = _ |- _ => unfold stm_modify in H; simplify_eq/=
  | H : stm_fail _ _ = _ |- _ => unfold stm_fail in H; simplify_eq/=
  | H : stm_some _ ?o _ = (Done _, _) |- _ =>
      unfold stm_some in H; destruct o eqn:?; unfold stm_ret, stm_fail in H; simplify_eq/=
  end.

(** ** Lists *)

Lemma existsb_elem_of {A} (f : A → bool) l :
  existsb f l = true ↔ ∃ x, x ∈ l ∧ f x = true.
Proof. rewrite existsb_exists. setoid_rewrite <-list_elem_of_In. naive_solver. Qed.

Lemma existsb_false {A} (f : A → bool) l :
  existsb f l = false ↔ ∀ x, x ∈ l → f x = false.
Proof.
  rewrite <-not_true_iff_false, existsb_elem_of. split.
  - intros H x Hx. destruct (f x) eqn:?; naive_solver.
  - intros H (x & Hx & Hf). by rewrite H in Hf.
Qed.

Lemma forallb_elem_of {A} (f : A → bool) l :
  forallb f l = true ↔ ∀ x, x ∈ l → f x = true.
Proof. rewrite forallb_forall. setoid_rewrite list_elem_of_In. done. Qed.

Lemma flat_map_nil {A B} (f : A → list B) l :
  flat_map f l = [] ↔ ∀ x, x ∈ l → f x = [].
Proof.
  induction l as [|x l IH]; simpl; [set_solver|].
  rewrite app_nil, IH. set_solver.
Qed.

Lemma elem_of_flat_map {A B} (f : A → list B) l y :
  y ∈ flat_map f l ↔ ∃ x, x ∈ l ∧ y ∈ f x.
Proof.
  rewrite list_elem_of_In, in_flat_map. setoid_rewrite list_elem_of_In. naive_solver.
Qed.

Lemma if_nil {A} (b : bool) (x : A) : (if b then [x] else []) = [] ↔ b = false.
Proof. destruct b; naive_solver. Qed.

Lemma if_nil' {A} (b : bool) (x : A) : (if b then [] else [x]) = [] ↔ b = true.
Proof. destruct b; naive_solver. Qed.

Lemma elem_of_filter_bool {A} (f : A → bool) l x : x ∈ List.filter f l ↔ x ∈ l ∧ f x = true.
Proof. by rewrite !list_elem_of_In, filter_In. Qed.

Lemma filter_filter_sub {A} (f g : A → bool) l :
  (∀ x, x ∈ l → f x = true → g x = true) → List.filter f (List.filter g l) = List.filter f l.
Proof.
  induction l as [|x l IH]; intros Hfg; [done|].
  assert (Hl : List.filter f (List.filter g l) = List.filter f l) by (apply IH; set_solver).
  assert (Hx : f x = true → g x = true) by (apply Hfg; set_solver). simpl.
  destruct (g x); simpl; rewrite Hl; [done|]. destruct (f x); [|done]. by specialize (Hx eq_refl).
Qed.

Lemma list_filter_nil {A} (f : A → bool) l : (∀ x, x ∈ l → f x = false) → List.filter f l = [].
Proof.
  induction l as [|x l IH]; intros Hf; simpl; [done|]. rewrite Hf by set_solver. apply IH. set_solver.
Qed.
