(* ===== verification/RStr.v ===== *)
(** * Rust strings

    A Rust [str] is modelled by the Standard Library's [string], each character
    of which is one byte of the UTF-8 text.  The byte-wise operations of the
    standard library (prefix and suffix tests, [contains], [split], [replace],
    the ordering) are exact on it; those that look at characters ([trim],
    [chars]) decode the UTF-8 sequences they depend on. *)

From S2P Require Import Prelude.
From Stdlib Require Import DecimalString DecimalN DecimalPos DecimalFacts.

Local Open Scope N_scope.

(** ** Bytes *)

Definition byte_val (c : ascii) : N := N_of_ascii c.

Definition is_ascii_digit (c : ascii) : bool := (48 <=? byte_val c) && (byte_val c <=? 57).
Definition is_ascii_upper (c : ascii) : bool := (65 <=? byte_val c) && (byte_val c <=? 90).
Definition is_ascii_lower (c : ascii) : bool := (97 <=? byte_val c) && (byte_val c <=? 122).
Definition is_ascii_alphanumeric (c : ascii) : bool :=
  is_ascii_digit c || is_ascii_upper c || is_ascii_lower c.

(** Second and later bytes of a multi-byte UTF-8 character. *)
Definition is_continuation (c : ascii) : bool := (128 <=? byte_val c) && (byte_val c <=? 191).

Definition ascii_lower (c : ascii) : ascii :=
  if is_ascii_upper c then ascii_of_N (byte_val c + 32) else c.

(** [char::is_whitespace]: the White_Space code points, by the length of their
    UTF-8 encoding. *)
Definition ws1 (a : ascii) : bool :=
  ((9 <=? byte_val a) && (byte_val a <=? 13)) || (byte_val a =? 32).
Definition ws2 (a b : ascii) : bool :=
  (byte_val a =? 194) && ((byte_val b =? 133) || (byte_val b =? 160)).
Definition ws3 (a b c : ascii) : bool :=
  let x := byte_val a in let y := byte_val b in let z := byte_val c in
  ((x =? 225) && (y =? 154) && (z =? 128))
  || ((x =? 226) && (y =? 128) && (((128 <=? z) && (z <=? 138)) || (z =? 168) || (z =? 169) || (z =? 175)))
  || ((x =? 226) && (y =? 129) && (z =? 159))
  || ((x =? 227) && (y =? 128) && (z =? 128)).

Local Close Scope N_scope.

(** ** Operations of [str] *)

Definition is_empty (s : string) : bool :=
  match s with EmptyString => true | _ => false end.

Fixpoint strip_prefix (p s : string) : option string :=
  match p, s with
  | EmptyString, _ => Some s
  | String a p', String b s' => if Ascii.eqb a b then strip_prefix p' s' else None
  | String _ _, EmptyString => None
  end.

Definition starts_with (s p : string) : bool :=
  match strip_prefix p s with Some _ => true | None => false end.

Definition strip_suffix (p s : string) : option string :=
  String.rev <$> strip_prefix (String.rev p) (String.rev s).

Definition ends_with (s p : string) : bool :=
  match strip_suffix p s with Some _ => true | None => false end.

Fixpoint contains (s p : string) : bool :=
  starts_with s p ||
  match s with EmptyString => false | String _ s' => contains s' p end.

(** [split_once(p)]: the text before and after the first occurrence of [p]. *)
Fixpoint split_once (s p : string) : option (string * string) :=
  match strip_prefix p s with
  | Some r => Some (EmptyString, r)
  | None =>
    match s with
    | EmptyString => None
    | String c s' =>
      match split_once s' p with
      | Some (a, b) => Some (String c a, b)
      | None => None
      end
    end
  end.

(** [split(f)] on one-byte separators: always at least one piece. *)
Fixpoint split_by (f : ascii → bool) (s : string) : list string :=
  match s with
  | EmptyString => [EmptyString]
  | String c s' =>
    if f c then EmptyString :: split_by f s'
    else match split_by f s' with
         | [] => [String c EmptyString]
         | w :: ws => String c w :: ws
         end
  end.
Definition split (c : ascii) (s : string) : list string := split_by (Ascii.eqb c) s.

Fixpoint join (sep : string) (ws : list string) : string :=
  match ws with
  | [] => EmptyString
  | [w] => w
  | w :: ws' => w +:+ sep +:+ join sep ws'
  end.

Fixpoint str_map (f : ascii → ascii) (s : string) : string :=
  match s with EmptyString => EmptyString | String c s' => String (f c) (str_map f s') end.

Fixpoint str_flat_map (f : ascii → string) (s : string) : string :=
  match s with EmptyString => EmptyString | String c s' => f c +:+ str_flat_map f s' end.

Fixpoint str_forallb (f : ascii → bool) (s : string) : bool :=
  match s with EmptyString => true | String c s' => f c && str_forallb f s' end.

Fixpoint str_existsb (f : ascii → bool) (s : string) : bool :=
  match s with EmptyString => false | String c s' => f c || str_existsb f s' end.

(** [contains(char)] for an ASCII character. *)
Definition contains_char (s : string) (c : ascii) : bool := str_existsb (Ascii.eqb c) s.

(** [replace(char, &str)] for an ASCII character. *)
Definition replace_char (c : ascii) (t s : string) : string :=
  str_flat_map (λ d, if Ascii.eqb d c then t else String d EmptyString) s.

Definition to_ascii_lowercase (s : string) : string := str_map ascii_lower s.

(** [trim_start_matches], [trim_end_matches] and [trim_matches] with a set of
    ASCII characters. *)
Fixpoint trim_start_matches (f : ascii → bool) (s : string) : string :=
  match s with
  | EmptyString => EmptyString
  | String c s' => if f c then trim_start_matches f s' else s
  end.
Definition trim_end_matches (f : ascii → bool) (s : string) : string :=
  String.rev (trim_start_matches f (String.rev s)).
Definition trim_matches (f : ascii → bool) (s : string) : string :=
  trim_end_matches f (trim_start_matches f s).

(** [trim]: drops White_Space characters at both ends.  [trim_go] reads the
    text forwards; on the reversed bytes the tests are reversed. *)
Fixpoint trim_go (w1 : ascii → bool) (w2 : ascii → ascii → bool)
    (w3 : ascii → ascii → ascii → bool) (s : string) : string :=
  match s with
  | EmptyString => EmptyString
  | String a s1 =>
    if w1 a then trim_go w1 w2 w3 s1 else
    match s1 with
    | EmptyString => s
    | String b s2 =>
      if w2 a b then trim_go w1 w2 w3 s2 else
      match s2 with
      | EmptyString => s
      | String c s3 => if w3 a b c then trim_go w1 w2 w3 s3 else s
      end
    end
  end.
Definition trim_start (s : string) : string := trim_go ws1 ws2 ws3 s.
Definition trim_end (s : string) : string :=
  String.rev (trim_go ws1 (λ b a, ws2 a b) (λ c b a, ws3 a b c) (String.rev s)).
Definition trim (s : string) : string := trim_end (trim_start s).

(** [split_whitespace]: the maximal runs without White_Space characters. *)
Definition cons_head (c : ascii) (ws : list string) : list string :=
  match ws with [] => [String c ""] | w :: ws' => String c w :: ws' end.
Fixpoint split_ws (s : string) : list string :=
  match s with
  | EmptyString => [""]
  | String a s1 =>
    if ws1 a then "" :: split_ws s1 else
    match s1 with
    | EmptyString => [String a ""]
    | String b s2 =>
      if ws2 a b then "" :: split_ws s2 else
      match s2 with
      | EmptyString => cons_head a (split_ws s1)
      | String c s3 => if ws3 a b c then "" :: split_ws s3 else cons_head a (split_ws s1)
      end
    end
  end.
Definition split_whitespace (s : string) : list string :=
  List.filter (λ w, negb (is_empty w)) (split_ws s).

(** [s.chars().map(f).collect::<String>()] for an [f] that keeps some ASCII
    characters and turns every other character into one fixed ASCII character:
    a multi-byte character becomes a single replacement. *)
Fixpoint chars_or (keep : ascii → bool) (other : ascii) (s : string) : string :=
  match s with
  | EmptyString => EmptyString
  | String c s' =>
    if is_continuation c then chars_or keep other s'
    else String (if keep c then c else other) (chars_or keep other s')
  end.

(** ** Decimal numbers *)

Definition string_of_N (n : N) : string := NilZero.string_of_uint (N.to_uint n).
Definition string_of_Z (z : Z) : string :=
  if (z <? 0)%Z then String "-" (string_of_N (Z.to_N (- z))) else string_of_N (Z.to_N z).

(** [format!("{:0w}")] of a non-negative number. *)
Definition pad0 (w : nat) (n : N) : string :=
  let s := string_of_N n in
  Nat.iter (w - String.length s) (String "0") s.

(** [{:04}] of a year. *)
Definition fmt_year (y : Z) : string :=
  if (y <? 0)%Z then "-" +:+ pad0 3 (Z.to_N (- y)%Z) else pad0 4 (Z.to_N y).

(** [str::parse] for an unsigned type with the given largest value: an
    optional plus sign, then one or more digits, then the range check. *)
Definition parse_digits (s : string) : option N :=
  match s with
  | EmptyString => None
  | _ => N.of_uint <$> NilEmpty.uint_of_string s
  end.
Definition parse_unsigned (max : N) (s : string) : option N :=
  match parse_digits (default s (strip_prefix "+" s)) with
  | Some n => if (n <=? max)%N then Some n else None
  | None => None
  end.

(** [str::parse::<i64>]. *)
Definition parse_i64 (s : string) : option Z :=
  match strip_prefix "-" s with
  | Some r =>
    match parse_digits r with
    | Some n => if (Z.of_N n <=? 2 ^ 63)%Z then Some (- Z.of_N n)%Z else None
    | None => None
    end
  | None =>
    match parse_unsigned (2 ^ 63 - 1)%N s with
    | Some n => Some (Z.of_N n)
    | None => None
    end
  end.

(** ** Concatenation and reversal *)

Lemma str_app_nil_l s : "" +:+ s = s.
Proof. done. Qed.
Lemma str_app_cons c s t : String c s +:+ t = String c (s +:+ t).
Proof. done. Qed.
Lemma str_app_nil_r s : s +:+ "" = s.
Proof. induction s as [|c s IH]; [done|]. by rewrite str_app_cons, IH. Qed.
Lemma str_app_assoc s t u : s +:+ (t +:+ u) = (s +:+ t) +:+ u.
Proof. induction s as [|c s IH]; [done|]. by rewrite !str_app_cons, IH. Qed.
Lemma str_length_app s t : String.length (s +:+ t) = String.length s + String.length t.
Proof. induction s as [|c s IH]; [done|]. rewrite str_app_cons; simpl. by rewrite IH. Qed.

Lemma rev_app_app s t : String.rev_app s t = String.rev s +:+ t.
Proof.
  unfold String.rev. revert t; induction s as [|c s IH]; intros t; simpl; [done|].
  rewrite (IH (String c t)), (IH (String c "")).
  by rewrite <-str_app_assoc, str_app_cons.
Qed.
Lemma rev_cons c s : String.rev (String c s) = String.rev s +:+ String c "".
Proof. unfold String.rev at 1; simpl. apply rev_app_app. Qed.
Lemma rev_app_distr s t : String.rev (s +:+ t) = String.rev t +:+ String.rev s.
Proof.
  induction s as [|c s IH]; [by rewrite str_app_nil_r|].
  rewrite str_app_cons, !rev_cons, IH. by rewrite str_app_assoc.
Qed.
Lemma rev_rev s : String.rev (String.rev s) = s.
Proof. induction s as [|c s IH]; [done|]. by rewrite rev_cons, rev_app_distr, IH. Qed.
Lemma rev_inj s t : String.rev s = String.rev t → s = t.
Proof. intros H. by rewrite <-(rev_rev s), H, rev_rev. Qed.
Lemma str_app_inj_l s t u : s +:+ t = s +:+ u → t = u.
Proof. induction s as [|c s IH]; [done|]. rewrite !str_app_cons. intros [= ?]. auto. Qed.
Lemma str_app_inj_r s t u : t +:+ s = u +:+ s → t = u.
Proof.
  intros H. apply (f_equal String.rev) in H. rewrite !rev_app_distr in H.
  by apply rev_inj, (str_app_inj_l (String.rev s)).
Qed.
Lemma str_app_nil s t : s +:+ t = "" ↔ s = "" ∧ t = "".
Proof. destruct s; [naive_solver|]. rewrite str_app_cons. naive_solver. Qed.

Lemma is_empty_true s : is_empty s = true ↔ s = "".
Proof. destruct s; naive_solver. Qed.
Lemma is_empty_false s : is_empty s = false ↔ s ≠ "".
Proof. destruct s; naive_solver. Qed.

(** ** Prefixes, suffixes, substrings *)

Lemma strip_prefix_Some p s r : strip_prefix p s = Some r ↔ s = p +:+ r.
Proof.
  revert s; induction p as [|a p IH]; intros s; simpl; [naive_solver|].
  destruct s as [|b s]; [naive_solver|]. rewrite str_app_cons.
  destruct (Ascii.eqb_spec a b) as [->|]; rewrite ?IH; naive_solver.
Qed.
Lemma strip_prefix_app p r : strip_prefix p (p +:+ r) = Some r.
Proof. by apply strip_prefix_Some. Qed.
Lemma starts_with_true s p : starts_with s p = true ↔ ∃ r, s = p +:+ r.
Proof.
  unfold starts_with. destruct (strip_prefix p s) as [r|] eqn:E.
  - apply strip_prefix_Some in E. naive_solver.
  - split; [done|]. intros [r Hr]. apply strip_prefix_Some in Hr. congruence.
Qed.
Lemma starts_with_app p r : starts_with (p +:+ r) p = true.
Proof. apply starts_with_true. eauto. Qed.
Lemma starts_with_strip s p : starts_with s p = false ↔ strip_prefix p s = None.
Proof. unfold starts_with. destruct (strip_prefix p s); naive_solver. Qed.

Lemma strip_suffix_Some p s r : strip_suffix p s = Some r ↔ s = r +:+ p.
Proof.
  unfold strip_suffix. rewrite fmap_Some. split.
  - intros (u & Hu%strip_prefix_Some & ->). apply (f_equal String.rev) in Hu.
    by rewrite rev_app_distr, !rev_rev in Hu.
  - intros ->. exists (String.rev r). rewrite rev_app_distr, rev_rev.
    by rewrite strip_prefix_Some.
Qed.
Lemma strip_suffix_app p r : strip_suffix p (r +:+ p) = Some r.
Proof. by apply strip_suffix_Some. Qed.
Lemma strip_suffix_None p s : strip_suffix p s = None ↔ ∀ r, s ≠ r +:+ p.
Proof.
  destruct (strip_suffix p s) as [r|] eqn:E.
  - apply strip_suffix_Some in E. naive_solver.
  - split; [|done]. intros _ r Hr. apply strip_suffix_Some in Hr. congruence.
Qed.
Lemma ends_with_true s p : ends_with s p = true ↔ ∃ r, s = r +:+ p.
Proof.
  unfold ends_with. destruct (strip_suffix p s) as [r|] eqn:E.
  - apply strip_suffix_Some in E. naive_solver.
  - split; [done|]. intros [r Hr]. apply strip_suffix_Some in Hr. congruence.
Qed.

Lemma contains_true s p : contains s p = true ↔ ∃ a b, s = a +:+ p +:+ b.
Proof.
  induction s as [|c s IH]; simpl; rewrite orb_true_iff, starts_with_true.
  - split; [intros [[r Hr]|]; [|done]; exists "", r; done|].
    intros (a & b & H). left. symmetry in H. apply str_app_nil in H as [-> H].
    exists b. by rewrite H.
  - rewrite IH. split.
    + intros [[r Hr]|(a & b & ->)]; [by exists "", r|].
      by exists (String c a), b.
    + intros ([|d a] & b & H); [left; by exists b|].
      rewrite str_app_cons in H. injection H as -> ->. right. by exists a, b.
Qed.

Lemma split_once_Some s p a b : split_once s p = Some (a, b) → s = a +:+ p +:+ b.
Proof.
  revert a b; induction s as [|c s IH]; intros a b; simpl;
    destruct (strip_prefix p _) as [r|] eqn:E; try done.
  - apply strip_prefix_Some in E. naive_solver.
  - apply strip_prefix_Some in E. naive_solver.
  - destruct (split_once s p) as [[a' b']|]; [|done]. intros [= <- <-].
    rewrite str_app_cons. f_equal. by apply IH.
Qed.

(** The text before a separator that starts with a character it does not
    contain is what [split_once] returns. *)
Lemma split_once_app c p a b :
  contains_char a c = false →
  split_once (a +:+ String c p +:+ b) (String c p) = Some (a, b).
Proof.
  induction a as [|d a IH]; intros Ha.
  - rewrite str_app_nil_l. rewrite str_app_cons. simpl.
    by rewrite Ascii.eqb_refl, strip_prefix_app.
  - unfold contains_char in Ha; simpl in Ha. apply orb_false_iff in Ha as [Hd Ha].
    rewrite str_app_cons. simpl. rewrite Hd. by rewrite IH.
Qed.

(** ** Byte-wise maps and tests *)

Lemma str_forallb_app f s t : str_forallb f (s +:+ t) = str_forallb f s && str_forallb f t.
Proof. induction s as [|c s IH]; [done|]. rewrite str_app_cons; simpl. by rewrite IH, andb_assoc. Qed.
Lemma str_existsb_app f s t : str_existsb f (s +:+ t) = str_existsb f s || str_existsb f t.
Proof. induction s as [|c s IH]; [done|]. rewrite str_app_cons; simpl. by rewrite IH, orb_assoc. Qed.
Lemma str_existsb_forallb f s : str_existsb f s = negb (str_forallb (negb ∘ f) s).
Proof. induction s as [|c s IH]; [done|]; simpl. rewrite IH. by destruct (f c). Qed.
Lemma str_forallb_impl (f g : ascii → bool) s :
  (∀ c, f c = true → g c = true) → str_forallb f s = true → str_forallb g s = true.
Proof.
  intros Hfg. induction s as [|c s IH]; [done|]; simpl.
  intros [Hc Hs]%andb_true_iff. by rewrite Hfg, IH.
Qed.
Lemma str_forallb_rev f s : str_forallb f (String.rev s) = str_forallb f s.
Proof.
  induction s as [|c s IH]; [done|].
  rewrite rev_cons, str_forallb_app, IH; simpl. rewrite andb_true_r. apply andb_comm.
Qed.
Lemma contains_char_app s t c : contains_char (s +:+ t) c = contains_char s c || contains_char t c.
Proof. apply str_existsb_app. Qed.
Lemma contains_char_forallb s c : contains_char s c = false ↔ str_forallb (λ d, negb (Ascii.eqb c d)) s = true.
Proof.
  unfold contains_char. rewrite str_existsb_forallb, negb_false_iff. done.
Qed.

Lemma str_flat_map_app f s t : str_flat_map f (s +:+ t) = str_flat_map f s +:+ str_flat_map f t.
Proof.
  induction s as [|c s IH]; [done|]. rewrite str_app_cons; simpl.
  by rewrite IH, str_app_assoc.
Qed.
Lemma str_flat_map_comp f g s : str_flat_map g (str_flat_map f s) = str_flat_map (λ c, str_flat_map g (f c)) s.
Proof. induction s as [|c s IH]; [done|]; simpl. by rewrite str_flat_map_app, IH. Qed.
Lemma str_flat_map_ext f g s : (∀ c, f c = g c) → str_flat_map f s = str_flat_map g s.
Proof. intros H. induction s as [|c s IH]; [done|]; simpl. by rewrite H, IH. Qed.

Lemma trim_start_matches_suffix f s : ∃ p, s = p +:+ trim_start_matches f s ∧ str_forallb f p = true.
Proof.
  induction s as [|c s IH]; [by exists ""|]; simpl.
  destruct (f c) eqn:Hc; [|by exists ""].
  destruct IH as (p & Hp & Hf). exists (String c p). rewrite str_app_cons, <-Hp. simpl. by rewrite Hc.
Qed.
Lemma trim_start_matches_head f s c t : trim_start_matches f s = String c t → f c = false.
Proof.
  induction s as [|d s IH]; [done|]; simpl. destruct (f d) eqn:Hd; [done|naive_solver].
Qed.
Lemma trim_matches_forallb f g s : str_forallb g s = true → str_forallb g (trim_matches f s) = true.
Proof.
  intros H. unfold trim_matches, trim_end_matches.
  rewrite str_forallb_rev.
  destruct (trim_start_matches_suffix f s) as (p & Hp & _).
  destruct (trim_start_matches_suffix f (String.rev (trim_start_matches f s))) as (q & Hq & _).
  rewrite Hp, str_forallb_app in H. apply andb_true_iff in H as [_ H].
  rewrite <-str_forallb_rev, Hq, str_forallb_app in H. by apply andb_true_iff in H as [_ H].
Qed.

(** ** Splitting and joining *)

Lemma trim_go_suffix w1 w2 w3 s : ∃ p, s = p +:+ trim_go w1 w2 w3 s ∧ 
  trim_go w1 w2 w3 (trim_go w1 w2 w3 s) = trim_go w1 w2 w3 s.
Proof.
  remember (String.length s) as n eqn:Hn. revert s Hn.
  induction n as [n IH] using lt_wf_ind; intros s ->.
  destruct s as [|a s1]; simpl; [by exists ""|].
  destruct (w1 a) eqn:H1.
  { destruct (IH (String.length s1)) with (s := s1) as (p & Hp & ?); simpl; [lia|done|].
    exists (String a p). by rewrite str_app_cons, <-Hp. }
  destruct s1 as [|b s2]; [exists ""; simpl; by rewrite H1|].
  destruct (w2 a b) eqn:H2.
  { destruct (IH (String.length s2)) with (s := s2) as (p & Hp & ?); simpl; [lia|done|].
    exists (String a (String b p)). by rewrite !str_app_cons, <-Hp. }
  destruct s2 as [|c s3]; [exists ""; simpl; by rewrite H1, H2|].
  destruct (w3 a b c) eqn:H3.
  { destruct (IH (String.length s3)) with (s := s3) as (p & Hp & ?); simpl; [lia|done|].
    exists (String a (String b (String c p))). by rewrite !str_app_cons, <-Hp. }
  exists "". simpl. by rewrite H1, H2, H3.
Qed.

Lemma trim_go_shorter w1 w2 w3 s : String.length (trim_go w1 w2 w3 s) ≤ String.length s.
Proof.
  destruct (trim_go_suffix w1 w2 w3 s) as (p & Hp & _). rewrite Hp at 2.
  rewrite str_length_app. lia.
Qed.

(** Nothing to drop at the front of a text: nothing to drop in a prefix of it. *)
Lemma trim_go_prefix w1 w2 w3 s u :
  trim_go w1 w2 w3 (s +:+ u) = s +:+ u → trim_go w1 w2 w3 s = s.
Proof.
  destruct s as [|a s1]; [done|]. rewrite str_app_cons. simpl.
  destruct (w1 a).
  { intros Heq. pose proof (trim_go_shorter w1 w2 w3 (s1 +:+ u)) as Hle.
    rewrite Heq in Hle. simpl in Hle. lia. }
  destruct s1 as [|b s2]; [done|]. rewrite str_app_cons.
  destruct (w2 a b).
  { intros Heq. pose proof (trim_go_shorter w1 w2 w3 (s2 +:+ u)) as Hle.
    rewrite Heq in Hle. simpl in Hle. lia. }
  destruct s2 as [|c s3]; [done|]. rewrite str_app_cons.
  destruct (w3 a b c); [|done].
  intros Heq. pose proof (trim_go_shorter w1 w2 w3 (s3 +:+ u)) as Hle.
  rewrite Heq in Hle. simpl in Hle. lia.
Qed.

Lemma trim_idem s : trim (trim s) = trim s.
Proof.
  unfold trim at 1 2.
  assert (Hs : trim_start (trim s) = trim s).
  { unfold trim, trim_end, trim_start.
    set (t := trim_go ws1 ws2 ws3 s).
    edestruct (trim_go_suffix ws1 (λ b a, ws2 a b) (λ c b a, ws3 a b c) (String.rev t)) as (p & Hp & _).
    apply (trim_go_prefix _ _ _ _ (String.rev p)).
    rewrite <-rev_app_distr, <-Hp, rev_rev. unfold t.
    by destruct (trim_go_suffix ws1 ws2 ws3 s) as (? & _ & ->). }
  fold (trim s). rewrite Hs. unfold trim, trim_end. rewrite rev_rev. f_equal.
  by edestruct (trim_go_suffix ws1 (λ b a, ws2 a b) (λ c b a, ws3 a b c)) as (? & _ & ->).
Qed.

Lemma split_by_not_nil f s : split_by f s ≠ [].
Proof. destruct s as [|c s]; simpl; [done|]. destruct (f c); [done|]. by destruct (split_by f s). Qed.

Lemma split_by_parts f s : Forall (λ w, str_forallb (negb ∘ f) w = true) (split_by f s).
Proof.
  induction s as [|c s IH]; simpl; [by repeat constructor|].
  destruct (f c) eqn:Hc; [by constructor|].
  destruct (split_by f s) as [|w ws]; inversion IH; subst; constructor; simpl;
    by rewrite ?Hc.
Qed.

Lemma join_split c s : join (String c "") (split c s) = s.
Proof.
  unfold split. induction s as [|d s IH]; [done|]; simpl.
  pose proof (split_by_not_nil (Ascii.eqb c) s) as Hne.
  destruct (Ascii.eqb_spec c d) as [->|Hcd];
    destruct (split_by _ s) as [|w ws] eqn:E; try done.
  - simpl in *. by rewrite IH, str_app_nil_l.
  - destruct ws; simpl in *; [by subst|]. by rewrite str_app_cons, IH.
Qed.

Lemma split_no_sep c s : contains_char s c = false → split c s = [s].
Proof.
  unfold split, contains_char. induction s as [|d s IH]; [done|]; simpl.
  intros [Hd Hs]%orb_false_iff. by rewrite Hd, IH.
Qed.

Lemma split_app c s t : contains_char s c = false → split c (s +:+ String c t) = s :: split c t.
Proof.
  unfold split, contains_char. induction s as [|d s IH]; intros Hs.
  - rewrite str_app_nil_l; simpl. by rewrite Ascii.eqb_refl.
  - simpl in Hs. apply orb_false_iff in Hs as [Hd Hs].
    rewrite str_app_cons; simpl. by rewrite Hd, IH.
Qed.

Lemma split_app_sep c s t : split c (s +:+ String c t) = split c s ++ split c t.
Proof.
  induction s as [|d s IH].
  - rewrite str_app_nil_l. unfold split. cbn [split_by]. by rewrite Ascii.eqb_refl.
  - rewrite str_app_cons. unfold split in *. cbn [split_by]. destruct (Ascii.eqb c d); [by rewrite IH|].
    rewrite IH. destruct (split_by (Ascii.eqb c) s) as [|w ws] eqn:Hs; [|done].
    by apply split_by_not_nil in Hs.
Qed.

Lemma split_elem_no_sep c s w : w ∈ split c s → contains_char w c = false.
Proof.
  intros Hw. pose proof (split_by_parts (Ascii.eqb c) s) as H.
  rewrite Forall_forall in H. specialize (H w Hw).
  unfold contains_char. by rewrite str_existsb_forallb, H.
Qed.

(** ** Printing and parsing numbers *)

Lemma string_of_N_nonempty n : string_of_N n ≠ "".
Proof. unfold string_of_N. by destruct (N.to_uint n). Qed.

Lemma N_to_uint_not_nil n : N.to_uint n ≠ Decimal.Nil.
Proof. destruct n; simpl; [done|]. apply DecimalPos.Unsigned.to_uint_nonnil. Qed.

Lemma parse_digits_of_N n : parse_digits (string_of_N n) = Some n.
Proof.
  assert (string_of_N n = NilEmpty.string_of_uint (N.to_uint n)) as H.
  { unfold string_of_N. pose proof (N_to_uint_not_nil n). by destruct (N.to_uint n). }
  pose proof (string_of_N_nonempty n) as Hne. unfold parse_digits.
  destruct (string_of_N n) as [|c s] eqn:E; [done|].
  rewrite H, NilEmpty.usu; simpl. by rewrite DecimalN.Unsigned.of_to.
Qed.

Lemma digits_forallb d : str_forallb is_ascii_digit (NilEmpty.string_of_uint d) = true.
Proof. by induction d. Qed.

Lemma string_of_N_digits n : str_forallb is_ascii_digit (string_of_N n) = true.
Proof.
  unfold string_of_N. pose proof (digits_forallb (N.to_uint n)).
  by destruct (N.to_uint n).
Qed.

(** Text that starts with a digit does not start with a sign. *)
Lemma digits_no_sign c n :
  is_ascii_digit c = false → strip_prefix (String c "") (string_of_N n) = None.
Proof.
  intros Hc. pose proof (string_of_N_digits n) as Hd.
  destruct (string_of_N n) as [|d s]; [done|]. simpl in *.
  destruct (Ascii.eqb_spec c d) as [->|]; [|done]. by rewrite Hc in Hd.
Qed.

Lemma parse_unsigned_of_N max n : (n <= max)%N → parse_unsigned max (string_of_N n) = Some n.
Proof.
  intros Hn. unfold parse_unsigned. rewrite digits_no_sign by done; simpl.
  rewrite parse_digits_of_N. by apply N.leb_le in Hn as ->.
Qed.

Lemma string_of_N_inj n m : string_of_N n = string_of_N m → n = m.
Proof.
  intros H. apply (f_equal parse_digits) in H. rewrite !parse_digits_of_N in H. congruence.
Qed.

#[export] Hint Rewrite str_app_nil_r str_length_app str_forallb_app rev_app_distr rev_rev : mj_str.
#[export] Hint Resolve starts_with_app strip_prefix_app strip_suffix_app : mj.
