(* ===== verification/BTree.v ===== *)
(** * Ordered sets and maps keyed by strings

    [BTreeSet<String>] and [BTreeMap<String, V>] are modelled by what iterating
    over them yields: a list strictly sorted by the byte-wise order of [str].
    The list is canonical: two sets with the same members are equal. *)

From S2P Require Import Prelude RStr.

(** ** The order of [str] *)

Definition slt (s t : string) : Prop := String.compare s t = Lt.

#[export] Instance slt_dec : RelDecision slt.
Proof. intros s t. unfold slt. apply _. Defined.

Lemma str_compare_refl s : String.compare s s = Eq.
Proof. induction s as [|c s IH]; [done|]; simpl. unfold Ascii.compare. by rewrite N.compare_refl. Qed.
Lemma slt_le s t : slt s t ↔ String.le s t ∧ s ≠ t.
Proof.
  unfold slt, String.le, String.leb. destruct (String.compare s t) eqn:E; simpl.
  - apply String.compare_eq_iff in E. naive_solver.
  - split; [|done]. intros _. split; [done|]. intros ->. by rewrite str_compare_refl in E.
  - naive_solver.
Qed.
#[export] Instance slt_irreflexive : Irreflexive slt.
Proof. intros s. unfold complement. rewrite slt_le. naive_solver. Qed.
#[export] Instance slt_transitive : Transitive slt.
Proof.
  intros s t u. rewrite !slt_le. intros [H1 N1] [H2 N2]. split; [by etrans|].
  intros ->. by apply N1, (anti_symm String.le).
Qed.
Lemma slt_antisym s t : slt s t → slt t s → False.
Proof. intros ??. by apply (irreflexivity slt s), (transitivity (y := t)). Qed.
Lemma compare_Gt s t : String.compare s t = Gt ↔ slt t s.
Proof. unfold slt. rewrite (String.compare_antisym s t). destruct (String.compare t s); naive_solver. Qed.

(** ** Sets *)

Abbreviation bsorted := (StronglySorted slt).

Fixpoint bset_insert (x : string) (s : list string) : list string :=
  match s with
  | [] => [x]
  | y :: s' =>
    match String.compare x y with
    | Lt => x :: y :: s'
    | Eq => y :: s'
    | Gt => y :: bset_insert x s'
    end
  end.

Definition bset_contains (s : list string) (x : string) : bool := existsb (String.eqb x) s.

(** [insert] returns whether the value was new. *)
Definition bset_add (x : string) (s : list string) : bool * list string :=
  (negb (bset_contains s x), bset_insert x s).

Definition bset_extend (s l : list string) : list string := fold_left (λ s x, bset_insert x s) l s.

(** [iter().collect::<BTreeSet<_>>()] *)
Definition bset_of_list (l : list string) : list string := bset_extend [] l.

Lemma bset_contains_true s x : bset_contains s x = true ↔ x ∈ s.
Proof.
  unfold bset_contains. rewrite existsb_elem_of. split.
  - intros (y & Hy & ->%String.eqb_eq). done.
  - intros Hx. exists x. by rewrite String.eqb_refl.
Qed.
Lemma bset_contains_false s x : bset_contains s x = false ↔ x ∉ s.
Proof. by rewrite <-bset_contains_true, not_true_iff_false. Qed.

Lemma elem_of_bset_insert x y s : y ∈ bset_insert x s ↔ y = x ∨ y ∈ s.
Proof.
  induction s as [|z s IH]; simpl; [set_solver|].
  destruct (String.compare x z) eqn:E; [|set_solver..].
  apply String.compare_eq_iff in E as ->. set_solver.
Qed.

Lemma bset_insert_sorted x s : bsorted s → bsorted (bset_insert x s).
Proof.
  induction s as [|y s IH]; simpl; intros Hs; [repeat constructor|].
  apply StronglySorted_cons in Hs as [Hy Hs].
  destruct (String.compare x y) eqn:E.
  - by apply StronglySorted_cons.
  - rewrite !StronglySorted_cons. split_and!; [|done..].
    constructor; [done|]. eapply Forall_impl; [done|]. intros z Hz. by transitivity y.
  - apply StronglySorted_cons. split; [|by apply IH].
    rewrite Forall_forall in *. intros z [->|?]%elem_of_bset_insert; [by apply compare_Gt|auto].
Qed.

Lemma elem_of_bset_extend s l x : x ∈ bset_extend s l ↔ x ∈ s ∨ x ∈ l.
Proof.
  unfold bset_extend. revert s; induction l as [|y l IH]; intros s; simpl; [set_solver|].
  rewrite IH, elem_of_bset_insert. set_solver.
Qed.
Lemma bset_extend_sorted s l : bsorted s → bsorted (bset_extend s l).
Proof.
  unfold bset_extend. revert s; induction l as [|y l IH]; intros s Hs; simpl; [done|].
  by apply IH, bset_insert_sorted.
Qed.
Lemma elem_of_bset_of_list l x : x ∈ bset_of_list l ↔ x ∈ l.
Proof. unfold bset_of_list. rewrite elem_of_bset_extend. set_solver. Qed.
Lemma bset_of_list_sorted l : bsorted (bset_of_list l).
Proof. apply bset_extend_sorted. constructor. Qed.

Lemma bsorted_NoDup s : bsorted s → NoDup s.
Proof.
  induction s as [|x s IH]; intros Hs; [constructor|].
  apply StronglySorted_cons in Hs as [Hx Hs]. constructor; [|auto].
  intros Hin. rewrite Forall_forall in Hx. by apply (irreflexivity slt x), Hx.
Qed.

(** The representation is canonical. *)
Lemma bset_ext s t : bsorted s → bsorted t → (∀ x, x ∈ s ↔ x ∈ t) → s = t.
Proof.
  intros Hs Ht Hst. apply (StronglySorted_unique_strong slt); [|done..|].
  - intros x y _ _ Hxy Hyx. exfalso. by apply (slt_antisym x y).
  - apply NoDup_Permutation; auto using bsorted_NoDup.
Qed.

(** [set.len() != vec.len()] detects repetitions. *)
Lemma bset_of_list_length l : length (bset_of_list l) ≤ length l.
Proof.
  apply submseteq_length, NoDup_submseteq.
  - apply bsorted_NoDup, bset_of_list_sorted.
  - intros x. by rewrite elem_of_bset_of_list.
Qed.
Lemma bset_of_list_length_eq l : length (bset_of_list l) = length l ↔ NoDup l.
Proof.
  split; intros H.
  - assert (bset_of_list l ≡ₚ l) as <-.
    { apply submseteq_length_Permutation; [|lia]. apply NoDup_submseteq.
      - apply bsorted_NoDup, bset_of_list_sorted.
      - intros x. by rewrite elem_of_bset_of_list. }
    apply bsorted_NoDup, bset_of_list_sorted.
  - apply Permutation_length, NoDup_Permutation; [|done|].
    + apply bsorted_NoDup, bset_of_list_sorted.
    + apply elem_of_bset_of_list.
Qed.

Lemma bset_insert_present x s : bsorted s → x ∈ s → bset_insert x s = s.
Proof.
  intros Hs Hx. apply bset_ext; [by apply bset_insert_sorted|done|].
  intros y. rewrite elem_of_bset_insert. naive_solver.
Qed.
Lemma bset_insert_fresh x s : x ∉ s → bset_insert x s ≡ₚ x :: s.
Proof.
  induction s as [|y s IH]; simpl; intros Hx; [done|].
  destruct (String.compare x y) eqn:E; [|done|].
  - apply String.compare_eq_iff in E as ->. set_solver.
  - rewrite IH by set_solver. apply Permutation_swap.
Qed.
Lemma bset_insert_length x s : bsorted s →
  length (bset_insert x s) = if bset_contains s x then length s else S (length s).
Proof.
  intros Hs. destruct (bset_contains s x) eqn:E.
  - apply bset_contains_true in E. by rewrite bset_insert_present.
  - apply bset_contains_false in E. by rewrite bset_insert_fresh.
Qed.

(** ** Binary search

    [slice::binary_search] on a sorted slice, [is_ok] of its result. *)

Fixpoint binary_search_go (fuel : nat) (l : list string) (x : string) : bool :=
  match fuel with
  | O => false
  | S fuel' =>
    let mid := length l / 2 in
    match l !! mid with
    | None => false
    | Some y =>
      match String.compare x y with
      | Eq => true
      | Lt => binary_search_go fuel' (take mid l) x
      | Gt => binary_search_go fuel' (drop (S mid) l) x
      end
    end
  end.
Definition binary_search (l : list string) (x : string) : bool := binary_search_go (length l) l x.

Lemma binary_search_go_correct fuel l x :
  length l ≤ fuel → bsorted l → binary_search_go fuel l x = bset_contains l x.
Proof.
  revert l; induction fuel as [|fuel IH]; intros l Hl Hs; cbn [binary_search_go].
  { by destruct l; simpl in *; [|lia]. }
  destruct (l !! (length l / 2)) as [y|] eqn:Hy.
  2: { apply lookup_ge_None in Hy. destruct l; [done|].
       pose proof (Nat.div_lt (length (s :: l)) 2). simpl length in *. lia. }
  assert (length l / 2 < length l) as Hmid by (by eapply lookup_lt_Some).
  pose proof (take_drop_middle l _ y Hy) as Hl'.
  set (m := length l / 2) in *.
  assert (bset_contains l x = bset_contains (take m l) x || (String.eqb x y || bset_contains (drop (S m) l) x)) as ->.
  { rewrite <-Hl' at 1. unfold bset_contains. by rewrite existsb_app. }
  rewrite <-Hl' in Hs. apply StronglySorted_app in Hs as (Hcross & Hs1 & [Hy2 Hs2]%StronglySorted_cons).
  rewrite Forall_forall in Hy2.
  destruct (String.compare x y) eqn:E.
  - apply String.compare_eq_iff in E as ->. rewrite String.eqb_refl; simpl. by rewrite orb_true_r.
  - rewrite IH; [|rewrite length_take; lia|done].
    destruct (String.eqb_spec x y) as [->|]; [by rewrite str_compare_refl in E|].
    assert (bset_contains (drop (S m) l) x = false) as ->; [|by rewrite orb_false_r].
    apply bset_contains_false. intros Hin. by apply (slt_antisym x y), Hy2.
  - rewrite IH; [|rewrite length_drop; lia|done].
    destruct (String.eqb_spec x y) as [->|]; [by rewrite str_compare_refl in E|].
    apply compare_Gt in E.
    assert (bset_contains (take m l) x = false) as ->; [|done].
    apply bset_contains_false. intros Hin. apply (slt_antisym x y); [|done].
    by apply Hcross; [|left].
Qed.

Lemma binary_search_correct l x : bsorted l → binary_search l x = bset_contains l x.
Proof. intros. by apply binary_search_go_correct. Qed.

(** ** Maps *)

Section bmap.
Context {V : Type}.

Fixpoint bmap_insert (k : string) (v : V) (m : list (string * V)) : list (string * V) :=
  match m with
  | [] => [(k, v)]
  | (k', v') :: m' =>
    match String.compare k k' with
    | Lt => (k, v) :: (k', v') :: m'
    | Eq => (k', v) :: m'
    | Gt => (k', v') :: bmap_insert k v m'
    end
  end.

Fixpoint bmap_get (m : list (string * V)) (k : string) : option V :=
  match m with
  | [] => None
  | (k', v) :: m' => if String.eqb k k' then Some v else bmap_get m' k
  end.

Definition bmap_of_list (l : list (string * V)) : list (string * V) :=
  fold_left (λ m kv, bmap_insert kv.1 kv.2 m) l [].

Lemma bmap_insert_keys k v m : (bmap_insert k v m).*1 = bset_insert k m.*1.
Proof.
  induction m as [|[k' v'] m IH]; simpl; [done|].
  destruct (String.compare k k'); simpl; [done..|]. by f_equal.
Qed.

Lemma bmap_get_insert k v m k' :
  bmap_get (bmap_insert k v m) k' = if String.eqb k' k then Some v else bmap_get m k'.
Proof.
  induction m as [|[j w] m IH]; simpl; [done|].
  destruct (String.compare k j) eqn:E; simpl.
  - apply String.compare_eq_iff in E as ->. by destruct (String.eqb k' j).
  - done.
  - rewrite IH. destruct (String.eqb_spec k' j) as [->|], (String.eqb_spec j k) as [->|]; try done.
    by rewrite str_compare_refl in E.
Qed.

Lemma bmap_of_list_keys l : (bmap_of_list l).*1 = bset_of_list l.*1.
Proof.
  unfold bmap_of_list, bset_of_list, bset_extend.
  enough (∀ m, (fold_left (λ m kv, bmap_insert kv.1 kv.2 m) l m).*1
               = fold_left (λ s x, bset_insert x s) l.*1 m.*1) as H by apply H.
  induction l as [|[k v] l IH]; intros m; simpl; [done|].
  by rewrite IH, bmap_insert_keys.
Qed.

Lemma bmap_get_elem_of m k v : bsorted m.*1 → bmap_get m k = Some v ↔ (k, v) ∈ m.
Proof.
  induction m as [|[j w] m IH]; simpl; intros Hs; [set_solver|].
  apply StronglySorted_cons in Hs as [Hj Hs]. rewrite Forall_forall in Hj.
  destruct (String.eqb_spec k j) as [->|Hne].
  - split; [set_solver|]. intros [[= ->]|Hin]%elem_of_cons; [done|].
    exfalso. apply (irreflexivity slt j), Hj, list_elem_of_fmap. by exists (j, v).
  - rewrite IH by done. set_solver.
Qed.

Lemma bmap_get_None m k : bmap_get m k = None ↔ k ∉ m.*1.
Proof.
  induction m as [|[j w] m IH]; simpl; [set_solver|].
  destruct (String.eqb_spec k j) as [->|]; set_solver.
Qed.

(** With distinct keys, collecting a list into a map keeps every pair. *)
Lemma bmap_get_of_list l k v : NoDup l.*1 → bmap_get (bmap_of_list l) k = Some v ↔ (k, v) ∈ l.
Proof.
  unfold bmap_of_list. intros Hnd.
  assert (∀ m, (∀ j, j ∈ l.*1 → bmap_get m j = None) →
    bmap_get (fold_left (λ m kv, bmap_insert kv.1 kv.2 m) l m) k = Some v
    ↔ bmap_get m k = Some v ∨ (k, v) ∈ l) as H.
  { induction l as [|[j w] l IH]; intros m Hm; simpl; [set_solver|].
    inversion Hnd as [|?? Hj Hnd']; subst. rewrite IH; [|done|].
    - rewrite bmap_get_insert. destruct (String.eqb_spec k j) as [->|Hne].
      + split; [intros [[= ->]|Hin]; set_solver|].
        intros [H|H]; [rewrite Hm in H; set_solver|].
        apply elem_of_cons in H as [[= ->]|?]; [by left|by right].
      + set_solver.
    - intros i Hi. rewrite bmap_get_insert. destruct (String.eqb_spec i j) as [->|]; [done|].
      apply Hm. set_solver. }
  rewrite H by done. simpl. naive_solver.
Qed.
End bmap.

#[export] Hint Resolve bset_insert_sorted bset_extend_sorted bset_of_list_sorted SSorted_nil : mj.

(** ** Sorting

    [sort_by] is stable; insertion sort is a stable sort, and all stable sorts by
    the same key agree. *)

Section Sort.
Context {A : Type} (key : A → string).

Fixpoint sort_insert (x : A) (l : list A) : list A :=
  match l with
  | [] => [x]
  | y :: l' =>
    match String.compare (key x) (key y) with
    | Gt => y :: sort_insert x l'
    | _ => x :: l
    end
  end.

Fixpoint sort_by (l : list A) : list A :=
  match l with [] => [] | x :: l' => sort_insert x (sort_by l') end.

Definition key_le (x y : A) : Prop := ¬ slt (key y) (key x).

Lemma sort_insert_perm x l : sort_insert x l ≡ₚ x :: l.
Proof.
  induction l as [|y l IH]; simpl; [done|].
  destruct (String.compare (key x) (key y)); [done..|]. rewrite IH. apply Permutation_swap.
Qed.

Lemma sort_by_perm l : sort_by l ≡ₚ l.
Proof. induction l as [|x l IH]; simpl; [done|]. by rewrite sort_insert_perm, IH. Qed.

Lemma key_le_trans x y z : key_le x y → key_le y z → key_le x z.
Proof.
  unfold key_le. intros Hxy Hyz Hzx.
  destruct (String.compare (key x) (key y)) eqn:E.
  - apply String.compare_eq_iff in E. congruence.
  - apply Hyz. by etrans.
  - by apply Hxy, compare_Gt.
Qed.

Lemma sort_insert_sorted x l : StronglySorted key_le l → StronglySorted key_le (sort_insert x l).
Proof.
  induction l as [|y l IH]; simpl; intros Hs; [repeat constructor|].
  apply StronglySorted_cons in Hs as [Hy Hs].
  assert (key_le x y → StronglySorted key_le (x :: y :: l)) as Hcons.
  { intros Hxy. constructor; [by constructor|]. constructor; [done|].
    eapply Forall_impl; [done|]. intros z Hz. by eapply key_le_trans. }
  destruct (String.compare (key x) (key y)) eqn:E.
  - apply Hcons. unfold key_le. apply String.compare_eq_iff in E as ->. apply irreflexivity, _.
  - apply Hcons. unfold key_le. intros Hyx. by apply (slt_antisym (key x) (key y)).
  - constructor; [by apply IH|]. apply Forall_forall. intros z. rewrite sort_insert_perm, elem_of_cons.
    intros [->|Hz]; [|by rewrite Forall_forall in Hy; apply Hy].
    unfold key_le. intros Hxy. apply compare_Gt in E. by apply (slt_antisym (key x) (key y)).
Qed.

Lemma sort_by_sorted l : StronglySorted key_le (sort_by l).
Proof. induction l as [|x l IH]; simpl; [constructor|]. by apply sort_insert_sorted. Qed.

End Sort.

(** [dedup]: drops consecutive repetitions. *)
Fixpoint dedup (l : list string) : list string :=
  match l with
  | [] => []
  | x :: l' =>
    match l' with
    | [] => [x]
    | y :: _ => if String.eqb x y then dedup l' else x :: dedup l'
    end
  end.

Definition sort_dedup (l : list string) : list string := dedup (sort_by (λ x, x) l).

Lemma elem_of_dedup l x : x ∈ dedup l ↔ x ∈ l.
Proof.
  induction l as [|y l IH]; [done|]. cbn [dedup]. destruct l as [|z l]; [done|].
  destruct (String.eqb_spec y z) as [->|]; rewrite ?elem_of_cons, IH, ?elem_of_cons; tauto.
Qed.

Lemma dedup_sorted l : StronglySorted (key_le (λ x, x)) l → bsorted (dedup l).
Proof.
  induction l as [|y l IH]; intros Hs; [constructor|].
  apply StronglySorted_cons in Hs as [Hy Hs]. specialize (IH Hs).
  cbn [dedup]. destruct l as [|z l]; [repeat constructor|].
  destruct (String.eqb_spec y z) as [->|Hne]; [done|].
  constructor; [done|]. apply Forall_forall. intros w Hw. rewrite elem_of_dedup in Hw.
  rewrite Forall_forall in Hy. apply StronglySorted_cons in Hs as [Hz _]. rewrite Forall_forall in Hz.
  assert (Hyz : slt y z).
  { destruct (String.compare y z) eqn:E; [apply String.compare_eq_iff in E; congruence|exact E|].
    destruct (Hy z); [by constructor|]. by apply compare_Gt. }
  apply elem_of_cons in Hw as [->|Hw]; [done|].
  destruct (String.compare z w) eqn:E.
  - apply String.compare_eq_iff in E as <-. done.
  - by etrans.
  - destruct (Hz w Hw). by apply compare_Gt.
Qed.

(** Sorting and dropping repetitions gives the set. *)
Lemma sort_dedup_set l : sort_dedup l = bset_of_list l.
Proof.
  apply bset_ext; [apply dedup_sorted, sort_by_sorted|apply bset_of_list_sorted|].
  intros x. unfold sort_dedup. by rewrite elem_of_dedup, sort_by_perm, elem_of_bset_of_list.
Qed.
