(* ===== verification/MachInt.v ===== *)
(** * Machine integers

    Rust's fixed-width integers as [Z].  Plain [+], [*] and friends wrap in the
    release build (and panic in a debug build), so the model writes the
    reduction out; the theorems about code that uses them state the range in
    which it has no effect.  [checked_*] and [saturating_*] are as in the
    standard library. *)

From S2P Require Import Prelude.

Local Open Scope Z_scope.

Definition u64_mod : Z := 2 ^ 64.
Definition u64_max : Z := 2 ^ 64 - 1.
Definition u32_max : Z := 2 ^ 32 - 1.
(** [usize] is 64 bits wide; a slice is at most [isize::MAX] bytes long. *)
Definition usize_max : Z := 2 ^ 64 - 1.
Definition isize_max : Z := 2 ^ 63 - 1.
Definition i64_min : Z := - 2 ^ 63.
Definition i64_max : Z := 2 ^ 63 - 1.

Definition is_u64 (x : Z) : Prop := 0 <= x <= u64_max.
Definition is_usize (x : Z) : Prop := 0 <= x <= usize_max.

Definition wrap64 (x : Z) : Z := x mod u64_mod.
Definition wadd (x y : Z) : Z := wrap64 (x + y).
Definition wmul (x y : Z) : Z := wrap64 (x * y).

(** [i64] arithmetic in the release build: two's complement. *)
Definition wrap_i64 (x : Z) : Z := (x + 2 ^ 63) mod 2 ^ 64 - 2 ^ 63.

Definition checked_add (x y : Z) : option Z := if x + y <=? u64_max then Some (x + y) else None.
Definition saturating_sub (x y : Z) : Z := Z.max 0 (x - y).
Definition saturating_add (x y : Z) : Z := Z.min u64_max (x + y).

(** [u64::rotate_left(1)] *)
Definition rotate_left1 (x : Z) : Z := wrap64 (Z.lor (Z.shiftl x 1) (Z.shiftr x 63)).

(** [usize::next_power_of_two]: the result wraps to 0 when it does not fit. *)
Definition next_power_of_two (x : Z) : Z := wrap64 (if x <=? 1 then 1 else 2 ^ Z.log2_up x).

Lemma wrap64_small x : is_u64 x → wrap64 x = x.
Proof. intros H. unfold wrap64, is_u64, u64_max, u64_mod in *. apply Z.mod_small. lia. Qed.
Lemma wrap64_range x : is_u64 (wrap64 x).
Proof.
  unfold wrap64, is_u64, u64_max, u64_mod. pose proof (Z.mod_pos_bound x (2 ^ 64)). lia.
Qed.
Lemma wrap_i64_small x : i64_min <= x <= i64_max → wrap_i64 x = x.
Proof. intros H. unfold wrap_i64, i64_min, i64_max in *. rewrite Z.mod_small; lia. Qed.

Lemma checked_add_Some x y z : checked_add x y = Some z ↔ z = x + y ∧ x + y <= u64_max.
Proof. unfold checked_add. destruct (Z.leb_spec (x + y) u64_max); naive_solver lia. Qed.

(** A 64-bit rotation splits the word into its top bit and the rest. *)
Lemma rotate_left1_spec x : is_u64 x → rotate_left1 x = 2 * (x mod 2 ^ 63) + x / 2 ^ 63.
Proof.
  intros Hx. unfold rotate_left1, wrap64, u64_mod, is_u64, u64_max in *.
  rewrite Z.shiftr_div_pow2, Z.shiftl_mul_pow2 by lia.
  assert (0 <= x / 2 ^ 63 < 2) as Hq.
  { split; [apply Z.div_pos; lia|]. apply Z.div_lt_upper_bound; lia. }
  assert (Z.lor (x * 2 ^ 1) (x / 2 ^ 63) = x * 2 ^ 1 + x / 2 ^ 63) as ->.
  { rewrite Z.add_nocarry_lxor, Z.lxor_lor; try done;
      apply Z.bits_inj'; intros n Hn; rewrite Z.land_spec, Z.bits_0;
      (destruct (decide (n = 0)) as [->|];
       [rewrite Z.mul_pow2_bits_low by lia; done|]);
      rewrite (Z.bits_above_log2 (x / 2 ^ 63)), andb_false_r; try done; try lia;
      (destruct (decide (x / 2 ^ 63 = 0)) as [->|]; [simpl; lia|]);
      replace (x / 2 ^ 63) with 1 by lia; simpl; lia. }
  pose proof (Z.div_mod x (2 ^ 63)).
  symmetry. apply Z.mod_unique with (x / 2 ^ 63); [|lia].
  left. pose proof (Z.mod_pos_bound x (2 ^ 63)). lia.
Qed.

Lemma rotate_left1_range x : is_u64 x → is_u64 (rotate_left1 x).
Proof. intros _. apply wrap64_range. Qed.

Lemma rotate_left1_inj x y : is_u64 x → is_u64 y → rotate_left1 x = rotate_left1 y → x = y.
Proof.
  intros Hx Hy. rewrite !rotate_left1_spec by done. intros H.
  unfold is_u64, u64_max in *.
  assert (0 <= x / 2 ^ 63 < 2) by (split; [apply Z.div_pos|apply Z.div_lt_upper_bound]; lia).
  assert (0 <= y / 2 ^ 63 < 2) by (split; [apply Z.div_pos|apply Z.div_lt_upper_bound]; lia).
  pose proof (Z.div_mod x (2 ^ 63)). pose proof (Z.div_mod y (2 ^ 63)). lia.
Qed.

Lemma wadd_inj x y b : is_u64 x → is_u64 y → wadd x b = wadd y b → x = y.
Proof.
  intros Hx Hy H. unfold wadd, wrap64, is_u64, u64_max, u64_mod in *.
  apply (f_equal (λ z, (z - b) mod 2 ^ 64)) in H.
  rewrite !Zminus_mod_idemp_l in H.
  replace (x + b - b) with x in H by lia. replace (y + b - b) with y in H by lia.
  rewrite !Z.mod_small in H; lia.
Qed.

(** Multiplication by an odd constant is undone by its inverse modulo 2^64. *)
Lemma wmul_inj k ki x y :
  (k * ki) mod u64_mod = 1 → is_u64 x → is_u64 y → wmul x k = wmul y k → x = y.
Proof.
  intros Hk Hx Hy H. unfold wmul, wrap64, is_u64, u64_max, u64_mod in *.
  apply (f_equal (λ z, (z * ki) mod 2 ^ 64)) in H.
  rewrite !Zmult_mod_idemp_l, <-!Z.mul_assoc in H.
  rewrite <-(Zmult_mod_idemp_r (k * ki) x), <-(Zmult_mod_idemp_r (k * ki) y), Hk, !Z.mul_1_r in H.
  rewrite !Z.mod_small in H; lia.
Qed.

Lemma next_power_of_two_spec x :
  0 <= x <= 2 ^ 62 → ∃ n, 0 <= n <= 62 ∧ next_power_of_two x = 2 ^ n ∧ x <= 2 ^ n.
Proof.
  intros Hx. unfold next_power_of_two. destruct (Z.leb_spec x 1).
  - exists 0. split_and!; [lia..| |simpl; lia]. apply wrap64_small. done.
  - exists (Z.log2_up x). assert (Z.log2_up x <= 62) as Hl.
    { replace 62 with (Z.log2_up (2 ^ 62)) by reflexivity. apply Z.log2_up_le_mono. lia. }
    pose proof (Z.log2_up_nonneg x). split_and!; [lia..| |].
    + apply wrap64_small. split; [apply Z.pow_nonneg; lia|].
      unfold u64_max. assert (2 ^ Z.log2_up x <= 2 ^ 62) by (apply Z.pow_le_mono_r; lia). lia.
    + apply Z.log2_up_spec. lia.
Qed.
