(* ===== verification/Xml.v ===== *)
(** * XML text

    The escaping routines of the code ([xml_escape] of majutsu_policy.rs,
    majutsu_store.rs and majutsu_daemon.rs) and a reader of character data to state
    that they lose nothing. *)

From S2P Require Import Prelude RStr.

(** Three replacements for text ([majutsu_policy.rs], [majutsu_store.rs]). *)
Definition xml_escape (input : string) : string :=
  replace_char ">" "&gt;" (replace_char "<" "&lt;" (replace_char "&" "&amp;" input)).

Definition dquote : ascii := "034"%char.
Definition squote : ascii := "039"%char.

(** Five replacements ([majutsu_daemon.rs]). *)
Definition xml_escape_attr (input : string) : string :=
  replace_char squote "&apos;" (replace_char dquote "&quot;" (xml_escape input)).

(** What an XML reader makes of character data: the predefined entities. *)
Fixpoint xml_unescape (s : string) : string :=
  match s with
  | String "&" (String "a" (String "m" (String "p" (String ";" r)))) => String "&" (xml_unescape r)
  | String "&" (String "l" (String "t" (String ";" r))) => String "<" (xml_unescape r)
  | String "&" (String "g" (String "t" (String ";" r))) => String ">" (xml_unescape r)
  | String "&" (String "q" (String "u" (String "o" (String "t" (String ";" r))))) =>
      String dquote (xml_unescape r)
  | String "&" (String "a" (String "p" (String "o" (String "s" (String ";" r))))) =>
      String squote (xml_unescape r)
  | String c r => String c (xml_unescape r)
  | EmptyString => EmptyString
  end.

(** What one character becomes. *)
Definition esc_text (c : ascii) : string :=
  if Ascii.eqb c "&" then "&amp;" else if Ascii.eqb c "<" then "&lt;"
  else if Ascii.eqb c ">" then "&gt;" else String c "".
Definition esc_attr (c : ascii) : string :=
  if Ascii.eqb c dquote then "&quot;" else if Ascii.eqb c squote then "&apos;" else esc_text c.

(** The sequence of replacements treats every character once. *)
Lemma xml_escape_flat s : xml_escape s = str_flat_map esc_text s.
Proof.
  unfold xml_escape, replace_char. rewrite !str_flat_map_comp. apply str_flat_map_ext. intros c.
  unfold esc_text. destruct (Ascii.eqb_spec c "&") as [->|]; [done|]. simpl.
  destruct (Ascii.eqb_spec c "<") as [->|]; [done|]. simpl. by destruct (Ascii.eqb_spec c ">") as [->|].
Qed.

Lemma xml_escape_attr_flat s : xml_escape_attr s = str_flat_map esc_attr s.
Proof.
  unfold xml_escape_attr, replace_char. rewrite xml_escape_flat, !str_flat_map_comp.
  apply str_flat_map_ext. intros c. unfold esc_attr, esc_text.
  destruct (Ascii.eqb_spec c "&") as [->|]; [done|]. destruct (Ascii.eqb_spec c "<") as [->|]; [done|].
  destruct (Ascii.eqb_spec c ">") as [->|]; [done|]. simpl.
  destruct (Ascii.eqb_spec c dquote) as [->|]; [done|]. simpl. by destruct (Ascii.eqb_spec c squote).
Qed.

Lemma xml_unescape_plain c r : c ≠ "&"%char → xml_unescape (String c r) = String c (xml_unescape r).
Proof. intros Hc. destruct c as [[] [] [] [] [] [] [] []]; simpl; try reflexivity; by destruct Hc. Qed.

Lemma xml_escape_roundtrip s : xml_unescape (xml_escape s) = s.
Proof.
  rewrite xml_escape_flat. induction s as [|c s IH]; [done|]. simpl. unfold esc_text at 1.
  destruct (Ascii.eqb_spec c "&") as [->|Ha]; [simpl; by rewrite str_app_nil_l, IH|].
  destruct (Ascii.eqb_spec c "<") as [->|]; [simpl; by rewrite str_app_nil_l, IH|].
  destruct (Ascii.eqb_spec c ">") as [->|]; [simpl; by rewrite str_app_nil_l, IH|].
  rewrite str_app_cons, str_app_nil_l, xml_unescape_plain by done. by rewrite IH.
Qed.

Lemma xml_escape_attr_roundtrip s : xml_unescape (xml_escape_attr s) = s.
Proof.
  rewrite xml_escape_attr_flat. induction s as [|c s IH]; [done|]. simpl. unfold esc_attr at 1, esc_text at 1.
  destruct (Ascii.eqb_spec c dquote) as [->|]; [simpl; by rewrite str_app_nil_l, IH|].
  destruct (Ascii.eqb_spec c squote) as [->|]; [simpl; by rewrite str_app_nil_l, IH|].
  destruct (Ascii.eqb_spec c "&") as [->|Ha]; [simpl; by rewrite str_app_nil_l, IH|].
  destruct (Ascii.eqb_spec c "<") as [->|]; [simpl; by rewrite str_app_nil_l, IH|].
  destruct (Ascii.eqb_spec c ">") as [->|]; [simpl; by rewrite str_app_nil_l, IH|].
  rewrite str_app_cons, str_app_nil_l, xml_unescape_plain by done. by rewrite IH.
Qed.

Lemma str_flat_map_forallb (f : ascii → string) g s :
  (∀ c, str_forallb g (f c) = true) → str_forallb g (str_flat_map f s) = true.
Proof. intros Hf. induction s as [|c s IH]; [done|]. simpl. by rewrite str_forallb_app, Hf, IH. Qed.

(** Escaped text opens and closes no tag. *)
Lemma xml_escape_no_markup s :
  str_forallb (λ c, negb (Ascii.eqb c "<") && negb (Ascii.eqb c ">")) (xml_escape s) = true.
Proof.
  rewrite xml_escape_flat. apply str_flat_map_forallb. intros c. unfold esc_text.
  destruct (Ascii.eqb c "&"); [done|]. destruct (Ascii.eqb c "<") eqn:Hl; [done|].
  destruct (Ascii.eqb c ">") eqn:Hg; [done|]. simpl. by rewrite Hl, Hg.
Qed.
