(* ===== verification/Daemon.v ===== *)
(** * Service definitions and watch settings

    [src/internal/majutsu_daemon.rs] renders the definition of the watch service for
    systemd, launchd and the Windows task scheduler; [src/internal/majutsu_watch.rs]
    holds the settings of the watcher.  The texts are read by other programs, so the
    theorems are about what those read: the rules of systemd and of Windows for cutting
    a command line into arguments are stated here, as their manuals give them. *)

From S2P Require Import Prelude RStr MachInt Xml.

Local Open Scope string_scope.

(** [cfg!(target_os = ...)] *)
Inductive TargetOs := Linux | Macos | Windows | OtherOs.

(** ** Watch settings *)

Inductive WatchBackend := WbNative | WbFanotify | WbInotify | WbPoll.

Definition WatchBackend_normalize (os : TargetOs) (value : string) : result WatchBackend string :=
  let linux := match os with Linux => true | _ => false end in
  if (value =? "notify") || (value =? "native") then Ok WbNative
  else if value =? "poll" then Ok WbPoll
  else if value =? "fanotify" then
    if linux then Ok WbFanotify else Err "fanotify backend is only available on Linux"
  else if value =? "inotify" then
    if linux then Ok WbInotify else Err "inotify backend is only available on Linux"
  else Err ("unsupported watch backend: " +:+ value).

Definition default_native (os : TargetOs) : WatchBackend :=
  match os with Linux => WbFanotify | _ => WbNative end.

Definition WatchBackend_as_cli (b : WatchBackend) : string :=
  match b with WbNative => "notify" | WbFanotify => "fanotify" | WbInotify => "inotify" | WbPoll => "poll" end.

Inductive WatchMode := WmDefault | WmStrict | WmTransactional.

Definition WatchMode_normalize (value : string) : result WatchMode string :=
  if value =? "default" then Ok WmDefault
  else if value =? "strict" then Ok WmStrict
  else if value =? "transactional" then Ok WmTransactional
  else Err "watch mode must be default, strict, or transactional".

Definition WatchMode_as_cli (m : WatchMode) : string :=
  match m with WmDefault => "default" | WmStrict => "strict" | WmTransactional => "transactional" end.

(** Durations in milliseconds. *)
Definition default_debounce : Z := 1500.
Definition default_settle : Z := 500.
Definition default_buffer_max : Z := 60 * 1000.
Definition default_buffer_max_events : Z := 1000.
Definition default_periodic_rescan : Z := 3600 * 1000.
Definition default_poll_interval : Z := 60 * 1000.

Record WatchPolicy := {
  wp_backend : WatchBackend; wp_debounce : Z; wp_settle : Z; wp_buffer_max : Z;
  wp_buffer_max_events : Z; wp_periodic_rescan : option Z }.

Definition native_default (os : TargetOs) : WatchPolicy := {|
  wp_backend := default_native os; wp_debounce := default_debounce; wp_settle := default_settle;
  wp_buffer_max := default_buffer_max; wp_buffer_max_events := default_buffer_max_events;
  wp_periodic_rescan := Some default_periodic_rescan |}.

Definition default_backend (os : TargetOs) : string := WatchBackend_as_cli (default_native os).
Definition default_mode : string := WatchMode_as_cli WmDefault.

(** ** Service definitions *)

Inductive DaemonState := Running (pid : Z) | Stopped.
Record DaemonStatus := { dst_state : DaemonState; dst_socket_path : string }.

Inductive DaemonServiceScope := ScopeUser | ScopeSystem.

(** Paths are given by what [display] prints. *)
Record DaemonServiceConfig := {
  ds_provider : string; ds_style : string; ds_scope : DaemonServiceScope; ds_exe : string; ds_home : string;
  ds_backend : string; ds_mode : string; ds_interval_secs : Z; ds_debounce_ms : Z; ds_settle_ms : Z;
  ds_buffer_max_ms : Z; ds_buffer_max_events : Z; ds_periodic_rescan_secs : Z; ds_max_rss_mib : Z }.

Definition nl : string := String "010"%char "".
Definition dq : string := String dquote "".
Definition sq : string := String squote "".
Definition backslash : ascii := "\"%char.

Definition daemon_watch_args (c : DaemonServiceConfig) : list string :=
  [ds_exe c; "--home"; ds_home c; "watch"; "--foreground"; "true"; "--backend"; ds_backend c; "--mode"; ds_mode c;
   "--interval-secs"; string_of_Z (ds_interval_secs c); "--debounce-ms"; string_of_Z (ds_debounce_ms c);
   "--settle-ms"; string_of_Z (ds_settle_ms c); "--buffer-max-ms"; string_of_Z (ds_buffer_max_ms c);
   "--buffer-max-events"; string_of_Z (ds_buffer_max_events c);
   "--periodic-rescan-secs"; string_of_Z (ds_periodic_rescan_secs c); "--max-rss-mib"; string_of_Z (ds_max_rss_mib c)].
Definition daemon_start_args (c : DaemonServiceConfig) : list string :=
  [ds_exe c; "--home"; ds_home c; "daemon"; "start"].
Definition daemon_stop_args (c : DaemonServiceConfig) : list string :=
  [ds_exe c; "--home"; ds_home c; "daemon"; "stop"].

(** *** systemd *)

Definition systemd_plain (ch : ascii) : bool := is_ascii_alphanumeric ch || contains_char "/._:-=+-" ch.
Definition systemd_quote (value : string) : string :=
  let escaped := replace_char "%" "%%" value in
  if str_forallb systemd_plain value then escaped
  else dq +:+ replace_char dquote ("\" +:+ dq) (replace_char backslash "\\" escaped) +:+ dq.

Definition systemd_line (args : list string) : string := join " " (map systemd_quote args).

Definition render_systemd_service (c : DaemonServiceConfig) : string :=
  let foreground := negb (ds_style c =? "forking") in
  let args := systemd_line (if foreground then daemon_watch_args c else daemon_start_args c) in
  let service_type := if foreground then "simple" else "forking" in
  let stop_and_pid := if foreground then "" else
    "ExecStop=" +:+ systemd_line (daemon_stop_args c) +:+ nl
    +:+ "PIDFile=" +:+ systemd_quote (ds_home c +:+ "/runtime/daemon.pid") +:+ nl in
  let daemon_env := "-" +:+ systemd_quote (ds_home c +:+ "/daemon.env") in
  let s3_env := "-" +:+ systemd_quote (ds_home c +:+ "/s3.env") in
  let wanted_by := match ds_scope c with ScopeUser => "default.target" | ScopeSystem => "multi-user.target" end in
  let service_scope := match ds_scope c with ScopeUser => "" | ScopeSystem => "User=root" +:+ nl +:+ "UMask=0077" +:+ nl end in
  let memory_limit := if (ds_max_rss_mib c =? 0)%Z then ""
    else "MemoryMax=" +:+ string_of_Z (ds_max_rss_mib c) +:+ "M" +:+ nl +:+ "OOMPolicy=stop" +:+ nl in
  "[Unit]" +:+ nl +:+ "Description=Majutsu watch daemon" +:+ nl +:+ "After=network-online.target" +:+ nl
  +:+ "Wants=network-online.target" +:+ nl +:+ nl +:+ "[Service]" +:+ nl +:+ "Type=" +:+ service_type +:+ nl
  +:+ "EnvironmentFile=" +:+ daemon_env +:+ nl +:+ "EnvironmentFile=" +:+ s3_env +:+ nl +:+ "ExecStart=" +:+ args +:+ nl
  +:+ stop_and_pid +:+ service_scope +:+ memory_limit +:+ "Restart=on-failure" +:+ nl +:+ "RestartSec=10s" +:+ nl +:+ nl
  +:+ "[Install]" +:+ nl +:+ "WantedBy=" +:+ wanted_by +:+ nl.

(** *** launchd *)

Definition render_launchd_plist (c : DaemonServiceConfig) (args : list string) : string :=
  let args := join nl (map (λ arg, "        <string>" +:+ xml_escape_attr arg +:+ "</string>") args) in
  "<?xml version=" +:+ dq +:+ "1.0" +:+ dq +:+ " encoding=" +:+ dq +:+ "UTF-8" +:+ dq +:+ "?>" +:+ nl
  +:+ "<!DOCTYPE plist PUBLIC " +:+ dq +:+ "-//Apple//DTD PLIST 1.0//EN" +:+ dq +:+ " "
  +:+ dq +:+ "http://www.apple.com/DTDs/PropertyList-1.0.dtd" +:+ dq +:+ ">" +:+ nl
  +:+ "<plist version=" +:+ dq +:+ "1.0" +:+ dq +:+ ">" +:+ nl +:+ "<dict>" +:+ nl +:+ "<key>Label</key>" +:+ nl
  +:+ "<string>dev.majutsu.watch</string>" +:+ nl +:+ "<key>ProgramArguments</key>" +:+ nl +:+ "<array>" +:+ nl
  +:+ args +:+ nl +:+ "</array>" +:+ nl +:+ "<key>KeepAlive</key>" +:+ nl +:+ "<true/>" +:+ nl
  +:+ "<key>RunAtLoad</key>" +:+ nl +:+ "<true/>" +:+ nl +:+ "<key>StandardOutPath</key>" +:+ nl
  +:+ "<string>" +:+ xml_escape_attr (ds_home c) +:+ "/logs/majutsu.log</string>" +:+ nl
  +:+ "<key>StandardErrorPath</key>" +:+ nl
  +:+ "<string>" +:+ xml_escape_attr (ds_home c) +:+ "/logs/majutsu.log</string>" +:+ nl
  +:+ "</dict>" +:+ nl +:+ "</plist>" +:+ nl.

(** *** Windows *)

Definition powershell_quote (value : string) : string := sq +:+ replace_char squote (sq +:+ sq) value +:+ sq.

Fixpoint repeat_backslash (n : nat) : string :=
  match n with O => "" | S n' => String backslash (repeat_backslash n') end.

(** The loop: what is pushed for the rest of the value after [slashes] backslashes. *)
Fixpoint quote_loop (slashes : nat) (value : string) : string :=
  match value with
  | EmptyString => repeat_backslash (slashes * 2) +:+ dq
  | String ch rest =>
    if Ascii.eqb ch backslash then quote_loop (S slashes) rest
    else if Ascii.eqb ch dquote then repeat_backslash (slashes * 2 + 1) +:+ dq +:+ quote_loop 0 rest
    else repeat_backslash slashes +:+ String ch (quote_loop 0 rest)
  end.

Definition has_whitespace (value : string) : bool := negb (length (split_ws value) =? 1)%nat.

Definition windows_command_line_quote (value : string) : string :=
  if negb (is_empty value) && negb (has_whitespace value) && negb (contains_char value dquote) then value
  else dq +:+ quote_loop 0 value.

Definition windows_line (args : list string) : string := join " " (map windows_command_line_quote args).

Definition render_windows_task_script (c : DaemonServiceConfig) (args : list string) : string :=
  let execute := powershell_quote (default "" (head args)) in
  let argument_line := windows_line (tail args) in
  let task_name := match ds_scope c with ScopeUser => "Majutsu Watch" | ScopeSystem => "Majutsu Watch (System)" end in
  let principal := match ds_scope c with
    | ScopeUser => "$principal = New-ScheduledTaskPrincipal -UserId $env:USERNAME -LogonType Interactive -RunLevel Limited"
    | ScopeSystem => "$principal = New-ScheduledTaskPrincipal -UserId 'SYSTEM' -LogonType ServiceAccount -RunLevel Highest"
    end in
  let trigger := match ds_scope c with
    | ScopeUser => "$trigger = New-ScheduledTaskTrigger -AtLogOn"
    | ScopeSystem => "$trigger = New-ScheduledTaskTrigger -AtStartup"
    end in
  "$ErrorActionPreference = 'Stop'" +:+ nl
  +:+ "$action = New-ScheduledTaskAction -Execute " +:+ execute +:+ " -Argument " +:+ powershell_quote argument_line +:+ nl
  +:+ trigger +:+ nl
  +:+ "$settings = New-ScheduledTaskSettingsSet -StartWhenAvailable -RestartCount 999 -RestartInterval (New-TimeSpan -Minutes 1) -ExecutionTimeLimit ([TimeSpan]::Zero)" +:+ nl
  +:+ principal +:+ nl
  +:+ "Register-ScheduledTask -TaskName " +:+ powershell_quote task_name
  +:+ " -Action $action -Trigger $trigger -Settings $settings -Principal $principal -Force" +:+ nl.

Definition render_daemon_service (os : TargetOs) (c : DaemonServiceConfig) : result string string :=
  let provider := if ds_provider c =? "auto" then
    match os with Windows => "windows-task" | Macos => "launchd" | _ => "systemd" end else ds_provider c in
  if provider =? "systemd" then Ok (render_systemd_service c)
  else if provider =? "launchd" then Ok (render_launchd_plist c (daemon_watch_args c))
  else if (provider =? "windows-task") || (provider =? "schtasks") then Ok (render_windows_task_script c (daemon_watch_args c))
  else Err ("unsupported daemon service provider: " +:+ provider).

(** ** How the texts are read *)

(** The C run time's rules for cutting a Windows command line into arguments: [n]
    backslashes are pending, [q] tells whether a quoted part is open, [cur] is the
    argument being read.  Backslashes count only before a double quote: an even number
    gives half of them and the quote opens or closes a part, an odd number gives half of
    them and a literal quote; a doubled quote inside a quoted part is a literal quote. *)
Definition push (cur : option string) (t : string) : string := default "" cur +:+ t.

Definition flush (cur : option string) (n : nat) : list string :=
  match cur, n with None, O => [] | _, _ => [push cur (repeat_backslash n)] end.

Definition is_blank (c : ascii) : bool := Ascii.eqb c " " || Ascii.eqb c "009".

Fixpoint windows_args (q : bool) (n : nat) (cur : option string) (s : string) : list string :=
  match s with
  | EmptyString => flush cur n
  | String c s' =>
    if Ascii.eqb c backslash then windows_args q (S n) cur s'
    else if Ascii.eqb c dquote then
      let half := repeat_backslash (Nat.div2 n) in
      if Nat.odd n then windows_args q 0 (Some (push cur (half +:+ dq))) s'
      else match s' with
           | String d s'' =>
             if q && Ascii.eqb d dquote then windows_args q 0 (Some (push cur (half +:+ dq))) s''
             else windows_args (negb q) 0 (Some (push cur half)) s'
           | EmptyString => windows_args (negb q) 0 (Some (push cur half)) s'
           end
    else if negb q && is_blank c then flush cur n ++ windows_args q 0 None s'
    else windows_args q 0 (Some (push cur (repeat_backslash n +:+ String c ""))) s'
  end.

(** A PowerShell single-quoted string at the start of the text: its value and what
    follows.  The four typographic single quotes (U+2018 to U+201B, in UTF-8 the bytes
    226, 128 and 152 to 155) close or escape such a string as the straight one does; a
    text with one of them is not read here.  [st] is how many bytes of one were read. *)
Definition typographic (st : nat) (c : ascii) : option nat :=
  if (byte_val c =? 226)%N then Some 1
  else match st with
       | 1 => if (byte_val c =? 128)%N then Some 2 else Some 0
       | 2 => if (152 <=? byte_val c)%N && (byte_val c <=? 155)%N then None else Some 0
       | _ => Some 0
       end.

Fixpoint powershell_body (st : nat) (s : string) : option (string * string) :=
  match s with
  | EmptyString => None
  | String a s1 =>
    if Ascii.eqb a squote then
      match s1 with
      | String b s2 =>
        if Ascii.eqb b squote then prod_map (String squote) id <$> powershell_body 0 s2 else Some ("", s1)
      | EmptyString => Some ("", s1)
      end
    else st' ← typographic st a; prod_map (String a) id <$> powershell_body st' s1
  end.

Definition powershell_string (s : string) : option (string * string) :=
  rest ← strip_prefix sq s; powershell_body 0 rest.

(** The command the scheduled task of a script runs. *)
Definition windows_task_command (script : string) : option (list string) :=
  rest ← strip_prefix ("$ErrorActionPreference = 'Stop'" +:+ nl +:+ "$action = New-ScheduledTaskAction -Execute ") script;
  '(execute, rest) ← powershell_string rest;
  rest ← strip_prefix " -Argument " rest;
  '(line, _) ← powershell_string rest;
  Some (execute :: windows_args false 0 None line).

(** systemd cuts a line into words at blanks; double quotes group, and inside them a
    backslash escapes a backslash or a quote (other escapes are not read here).  In each
    word a doubled percent sign and a doubled dollar sign are one; a single one starts a
    specifier or a variable, which is not read here. *)
Fixpoint systemd_words (q : bool) (cur : option string) (s : string) : option (list string) :=
  match s with
  | EmptyString => if q then None else Some (option_list cur)
  | String c s' =>
    if q then
      if Ascii.eqb c dquote then systemd_words false cur s'
      else if Ascii.eqb c backslash then
        match s' with
        | String d s'' =>
          if Ascii.eqb d backslash || Ascii.eqb d dquote then systemd_words q (Some (push cur (String d ""))) s'' else None
        | EmptyString => None
        end
      else systemd_words q (Some (push cur (String c ""))) s'
    else if is_blank c then app (option_list cur) <$> systemd_words q None s'
    else if Ascii.eqb c dquote then systemd_words true (Some (push cur "")) s'
    else if Ascii.eqb c backslash || Ascii.eqb c squote then None
    else systemd_words q (Some (push cur (String c ""))) s'
  end.

Definition is_sigil (c : ascii) : bool := Ascii.eqb c "%" || Ascii.eqb c "$".

Fixpoint systemd_expand (s : string) : option string :=
  match s with
  | EmptyString => Some ""
  | String c s' =>
    if is_sigil c then
      match s' with
      | String d s'' => if Ascii.eqb d c then String c <$> systemd_expand s'' else None
      | EmptyString => None
      end
    else String c <$> systemd_expand s'
  end.

Definition systemd_args (line : string) : option (list string) :=
  words ← systemd_words false None line; mapM systemd_expand words.

(** The command of the first [ExecStart=] line of a unit. *)
Definition systemd_command (unit : string) : option (list string) :=
  line ← head (omap (strip_prefix "ExecStart=") (split "010" unit)); systemd_args line.

(** ** What the readers find *)

Lemma push_push cur t u : push (Some (push cur t)) u = push cur (t +:+ u).
Proof. unfold push. simpl. by rewrite str_app_assoc. Qed.
Lemma push_Some a t : push (Some a) t = a +:+ t.
Proof. done. Qed.

Lemma repeat_backslash_add n m : repeat_backslash (n + m) = repeat_backslash n +:+ repeat_backslash m.
Proof. induction n as [|n IH]; simpl; [done|]. by rewrite str_app_cons, IH. Qed.

Lemma windows_args_slashes q n cur k s :
  windows_args q n cur (repeat_backslash k +:+ s) = windows_args q (n + k) cur s.
Proof.
  revert n. induction k as [|k IH]; intros n; simpl repeat_backslash.
  - by rewrite str_app_nil_l, Nat.add_0_r.
  - rewrite str_app_cons. simpl. rewrite IH. f_equal. lia.
Qed.

(** What may follow an argument on the line. *)
Definition ends_arg (rest : string) : Prop := rest = "" ∨ ∃ t, rest = String " " t.

(** The arguments read once the current one, [a], is complete. *)
Definition arg_then (a : string) (rest : string) : list string :=
  a :: match rest with EmptyString => [] | String _ t => windows_args false 0 None t end.

Lemma windows_args_end n cur rest :
  ends_arg rest → (cur, n) ≠ (None, 0) →
  windows_args false n cur rest = arg_then (push cur (repeat_backslash n)) rest.
Proof. intros [-> | [t ->]] H; destruct cur, n; simpl; try done. Qed.

(** A quoted value is read as itself. *)
Lemma windows_args_quoted k value rest cur :
  ends_arg rest →
  windows_args true 0 (Some cur) (quote_loop k value +:+ rest)
  = arg_then (cur +:+ repeat_backslash k +:+ value) rest.
Proof.
  intros Hr. revert k cur. induction value as [|c v IH]; intros k cur.
  - cbn [quote_loop]. rewrite <- str_app_assoc, windows_args_slashes. simpl (0 + _)%nat.
    unfold dq. rewrite str_app_cons, str_app_nil_l, str_app_nil_r. simpl.
    rewrite (Nat.mul_comm k), Nat.odd_mul, Nat.div2_double. simpl.
    replace (match rest with EmptyString => _ | String d s'' => _ end)
      with (windows_args false 0 (Some (push (Some cur) (repeat_backslash k))) rest)
      by (destruct Hr as [-> | [t ->]]; done).
    rewrite windows_args_end by done. unfold push. simpl. by rewrite str_app_nil_r.
  - cbn [quote_loop]. destruct (Ascii.eqb c backslash) eqn:Hb.
    { rewrite IH. apply Ascii.eqb_eq in Hb as ->. f_equal. rewrite <- Nat.add_1_r, repeat_backslash_add. simpl.
      by rewrite <- !str_app_assoc. }
    destruct (Ascii.eqb c dquote) eqn:Hq.
    + rewrite <- !str_app_assoc, windows_args_slashes. simpl (0 + _)%nat. unfold dq at 1.
      rewrite str_app_cons, str_app_nil_l. simpl.
      rewrite Nat.odd_add, Nat.odd_mul, Bool.andb_false_r. simpl.
      replace (Nat.div2 (k * 2 + 1)) with k by (rewrite Nat.div2_div, Nat.div_add_l by lia; simpl; lia).
      rewrite IH. apply Ascii.eqb_eq in Hq as ->. f_equal. unfold push, dq. simpl.
      by rewrite <- !str_app_assoc.
    + rewrite <- str_app_assoc, windows_args_slashes, str_app_cons. simpl. rewrite Hb, Hq.
      rewrite IH. f_equal. unfold push. simpl. by rewrite <- !str_app_assoc.
Qed.

Lemma cons_head_length a ws : ws ≠ [] → length (cons_head a ws) = length ws.
Proof. by destruct ws. Qed.

Lemma split_ws_not_nil s : split_ws s ≠ [].
Proof.
  destruct s as [|a [|b [|c s]]]; simpl; repeat case_match; try done;
    match goal with |- cons_head _ ?l ≠ [] => by destruct l end.
Qed.

Lemma is_blank_ws1 c : is_blank c = true → ws1 c = true.
Proof. unfold is_blank. intros H. apply orb_true_iff in H as [H%Ascii.eqb_eq | H%Ascii.eqb_eq]; by subst. Qed.

Lemma has_whitespace_blank s : has_whitespace s = false → str_forallb (λ c, negb (is_blank c)) s = true.
Proof.
  unfold has_whitespace. intros H%negb_false_iff%Nat.eqb_eq.
  induction s as [|a s1 IH]; [done|]. simpl in H.
  pose proof (split_ws_not_nil s1) as Hn. pose proof (is_blank_ws1 a) as Ha.
  destruct (ws1 a); [simpl in H; destruct (split_ws s1); simpl in *; lia || done|].
  simpl. destruct (is_blank a); [by discriminate Ha|]. cbn [negb andb].
  destruct s1 as [|b s2]; [done|].
  destruct (ws2 a b).
  { pose proof (split_ws_not_nil s2). destruct (split_ws s2); simpl in *; lia || done. }
  destruct s2 as [|c s3]; [by apply IH; rewrite cons_head_length in H|].
  destruct (ws3 a b c).
  { pose proof (split_ws_not_nil s3). destruct (split_ws s3); simpl in *; lia || done. }
  apply IH. by rewrite cons_head_length in H.
Qed.

Definition plain_char (c : ascii) : bool := negb (is_blank c) && negb (Ascii.eqb dquote c).

Lemma windows_args_plain value rest n cur :
  ends_arg rest → str_forallb plain_char value = true → value ≠ "" ∨ (cur, n) ≠ (None, 0) →
  windows_args false n cur (value +:+ rest) = arg_then (push cur (repeat_backslash n +:+ value)) rest.
Proof.
  intros Hr. revert n cur. induction value as [|c v IH]; intros n cur Hv Hne.
  - rewrite str_app_nil_l, str_app_nil_r. destruct Hne; [done|]. by apply windows_args_end.
  - simpl in Hv. apply andb_true_iff in Hv as [Hc Hv]. unfold plain_char in Hc.
    apply andb_true_iff in Hc as [Hb Hq]. rewrite Ascii.eqb_sym in Hq.
    apply negb_true_iff in Hb, Hq. rewrite str_app_cons. simpl.
    destruct (Ascii.eqb c backslash) eqn:Hs.
    + rewrite IH by (done || by right). f_equal. apply Ascii.eqb_eq in Hs as ->. f_equal.
      rewrite <- Nat.add_1_r, repeat_backslash_add, <- str_app_assoc. done.
    + rewrite Hq, Hb. simpl. rewrite IH by (done || by right). f_equal. rewrite push_push. simpl.
      by rewrite <- str_app_assoc.
Qed.

Lemma windows_args_open t : windows_args false 0 None (String dquote t) = windows_args true 0 (Some "") t.
Proof. by destruct t. Qed.

Lemma windows_quote_read value rest :
  ends_arg rest → windows_args false 0 None (windows_command_line_quote value +:+ rest) = arg_then value rest.
Proof.
  intros Hr. unfold windows_command_line_quote.
  destruct (negb (is_empty value) && negb (has_whitespace value) && negb (contains_char value dquote)) eqn:Hp.
  - apply andb_true_iff in Hp as [Hp Hq]. apply andb_true_iff in Hp as [He Hw].
    apply negb_true_iff in He, Hw, Hq. apply is_empty_false in He. apply has_whitespace_blank in Hw.
    apply contains_char_forallb in Hq. rewrite windows_args_plain; [done|done| |by left].
    unfold plain_char. clear -Hw Hq. induction value as [|c v IH]; [done|]. simpl in *.
    apply andb_true_iff in Hw as [-> Hw], Hq as [-> Hq]. by apply IH.
  - unfold dq. rewrite <- str_app_assoc, str_app_cons, str_app_nil_l.
    rewrite windows_args_open, windows_args_quoted by done. done.
Qed.

(** The line is cut back into the arguments it was made of. *)
Lemma windows_line_read args : windows_args false 0 None (windows_line args) = args.
Proof.
  unfold windows_line. induction args as [|a args IH]; [done|].
  destruct args as [|b args]; cbn [map join] in *.
  - rewrite <- (str_app_nil_r (windows_command_line_quote a)), windows_quote_read by (by left). done.
  - rewrite windows_quote_read by (right; eexists; reflexivity). exact (f_equal (cons a) IH).
Qed.

(** No typographic single quote, after [st] bytes of one. *)
Fixpoint straight (st : nat) (s : string) : bool :=
  match s with
  | EmptyString => true
  | String a s1 => match typographic st a with Some st' => straight st' s1 | None => false end
  end.

Lemma typographic_ascii st c : (byte_val c < 128)%N → typographic st c = Some 0.
Proof.
  intros H. unfold typographic. destruct (N.eqb_spec (byte_val c) 226); [lia|].
  destruct st as [|[|[|st]]]; try done.
  - destruct (N.eqb_spec (byte_val c) 128); [lia|done].
  - destruct (N.leb_spec 152 (byte_val c)); [lia|done].
Qed.

Lemma straight_zero st s : straight st s = true → straight 0 s = true.
Proof.
  revert st. induction s as [|c s IH]; intros st; [done|]. simpl. unfold typographic.
  destruct (_ =? 226)%N; [done|]. destruct st as [|[|[|st]]]; [done| | |done]; case_match; try done; apply IH.
Qed.

Lemma straight_app st s t : straight st s = true → (∀ st', straight st' t = true) → straight st (s +:+ t) = true.
Proof.
  intros Hs Ht. revert st Hs. induction s as [|c s IH]; intros st; [done|]. rewrite str_app_cons. simpl.
  destruct (typographic st c); [apply IH|done].
Qed.

Lemma straight_ascii_app st s t :
  str_forallb (λ c, (byte_val c <? 128)%N) s = true →
  straight (match s with EmptyString => st | _ => 0 end) t = true → straight st (s +:+ t) = true.
Proof.
  revert st. induction s as [|c s IH]; intros st Hs Ht; [done|].
  simpl in Hs. apply andb_true_iff in Hs as [Hc Hs]. apply N.ltb_lt in Hc.
  rewrite str_app_cons. simpl. rewrite (typographic_ascii _ _ Hc). apply IH; [done|]. by destruct s.
Qed.

Lemma powershell_body_read st value rest :
  straight st value = true → (match rest with String c _ => c ≠ squote | "" => True end) →
  powershell_body st (replace_char squote (sq +:+ sq) value +:+ sq +:+ rest) = Some (value, rest).
Proof.
  intros Hv Hr. revert st Hv. induction value as [|a v IH]; intros st Hv.
  - change (powershell_body st (String squote rest) = Some ("", rest)). cbn [powershell_body].
    rewrite Ascii.eqb_refl. destruct rest as [|c r]; [done|]. by rewrite (proj2 (Ascii.eqb_neq _ _) Hr).
  - change (replace_char squote (sq +:+ sq) (String a v))
      with ((if Ascii.eqb a squote then sq +:+ sq else String a "") +:+ replace_char squote (sq +:+ sq) v).
    simpl in Hv. destruct (Ascii.eqb a squote) eqn:Ha.
    + apply Ascii.eqb_eq in Ha as ->. rewrite <- !str_app_assoc. unfold sq at 1 2.
      rewrite !str_app_cons, !str_app_nil_l. cbn [powershell_body]. rewrite !Ascii.eqb_refl.
      rewrite (typographic_ascii _ squote) in Hv by done. by rewrite IH.
    + rewrite <- str_app_assoc, str_app_cons, str_app_nil_l. cbn [powershell_body]. rewrite Ha.
      destruct (typographic st a) as [st'|]; [|done]. simpl. by rewrite IH.
Qed.

Lemma repeat_backslash_ascii n : str_forallb (λ c, (byte_val c <? 128)%N) (repeat_backslash n) = true.
Proof. by induction n. Qed.

Lemma straight_quote_loop k v st :
  straight (match k with O => st | _ => 0 end) v = true → straight st (quote_loop k v) = true.
Proof.
  revert k st. induction v as [|c v IH]; intros k st Hv; cbn [quote_loop].
  - apply straight_ascii_app; [apply repeat_backslash_ascii|]. cbn. by rewrite (typographic_ascii _ dquote).
  - simpl in Hv. destruct (Ascii.eqb c backslash) eqn:Hb.
    { apply IH. apply Ascii.eqb_eq in Hb as ->. by rewrite typographic_ascii in Hv. }
    destruct (Ascii.eqb c dquote) eqn:Hq; (apply straight_ascii_app; [apply repeat_backslash_ascii|]).
    + apply Ascii.eqb_eq in Hq as ->. rewrite typographic_ascii in Hv by done.
      unfold dq. rewrite str_app_cons, str_app_nil_l. cbn [straight]. rewrite typographic_ascii by done.
      by apply (IH 0).
    + destruct k; cbn [repeat_backslash straight]; case_match; try done; by apply (IH 0).
Qed.

Lemma straight_windows_quote v : straight 0 v = true → straight 0 (windows_command_line_quote v) = true.
Proof.
  intros Hv. unfold windows_command_line_quote. case_match; [done|].
  apply straight_ascii_app; [done|]. by apply (straight_quote_loop 0).
Qed.

Lemma straight_line args : Forall (λ v, straight 0 v = true) args → straight 0 (windows_line args) = true.
Proof.
  unfold windows_line. induction 1 as [|v args Hv Hargs IH]; [done|].
  destruct args as [|w args]; [by apply straight_windows_quote|].
  change (straight 0 (windows_command_line_quote v +:+ " " +:+ join " " (map windows_command_line_quote (w :: args))) = true).
  apply straight_app; [by apply straight_windows_quote|]. intros st'. by apply straight_ascii_app.
Qed.

Lemma straight_number z : straight 0 (string_of_Z z) = true.
Proof.
  rewrite <- (str_app_nil_r (string_of_Z z)). apply straight_ascii_app; [|done].
  unfold string_of_Z. assert (H : ∀ n, str_forallb (λ c, (byte_val c <? 128)%N) (string_of_N n) = true).
  { intros n. eapply str_forallb_impl; [|apply string_of_N_digits]. intros c. unfold is_ascii_digit.
    intros [_ Hc%N.leb_le]%andb_true_iff. apply N.ltb_lt. lia. }
  case_match; [|by apply H]; by simpl; rewrite ?H.
Qed.

(** The values that come from the user: paths and settings. *)
Definition service_texts (c : DaemonServiceConfig) : list string := [ds_exe c; ds_home c; ds_backend c; ds_mode c].

Lemma watch_args_Forall (P : string → Prop) c :
  Forall P (service_texts c) → (∀ z, P (string_of_Z z)) →
  Forall P ["--home"; "watch"; "--foreground"; "true"; "--backend"; "--mode"; "--interval-secs"; "--debounce-ms";
            "--settle-ms"; "--buffer-max-ms"; "--buffer-max-events"; "--periodic-rescan-secs"; "--max-rss-mib"] →
  Forall P (daemon_watch_args c).
Proof. unfold service_texts, daemon_watch_args. rewrite !Forall_cons. naive_solver. Qed.

Lemma strip_prefix_app3 a b c r : strip_prefix (a +:+ b +:+ c) (a +:+ b +:+ c +:+ r) = Some r.
Proof. apply strip_prefix_Some. by rewrite !str_app_assoc. Qed.

Lemma powershell_quote_read v rest :
  straight 0 v = true → (match rest with String c _ => c ≠ squote | "" => True end) →
  powershell_string (powershell_quote v +:+ rest) = Some (v, rest).
Proof.
  intros Hv Hr. unfold powershell_string, powershell_quote. rewrite <- !str_app_assoc, strip_prefix_app.
  by apply powershell_body_read.
Qed.

(** The scheduled task runs what was asked: reading the script with PowerShell's
    quoting rules and the argument line with the C run time's gives back the program and
    its arguments, whatever spaces, quotes and backslashes the paths have (no typographic
    single quote, which PowerShell also takes for a quote). *)
Theorem windows_task_runs_watch c :
  Forall (λ v, straight 0 v = true) (service_texts c) →
  windows_task_command (render_windows_task_script c (daemon_watch_args c)) = Some (daemon_watch_args c).
Proof.
  intros H. unfold windows_task_command, render_windows_task_script.
  assert (Hargs : Forall (λ v, straight 0 v = true) (daemon_watch_args c)).
  { apply watch_args_Forall; [done|apply straight_number|]. by repeat constructor. }
  inversion Hargs as [|? ? Hexe Htail]; subst. cbn [head daemon_watch_args default tail].
  rewrite strip_prefix_app3. cbn [mbind option_bind].
  rewrite powershell_quote_read by done. cbn [mbind option_bind].
  rewrite strip_prefix_app. cbn [mbind option_bind].
  rewrite powershell_quote_read by (done || by apply straight_line). cbn [mbind option_bind].
  by rewrite windows_line_read.
Qed.

(** *** systemd *)

Lemma systemd_plain_safe c : systemd_plain c = true →
  is_blank c = false ∧ Ascii.eqb c dquote = false ∧ Ascii.eqb c backslash = false ∧ Ascii.eqb c squote = false
  ∧ Ascii.eqb c "%" = false.
Proof. destruct c as [[] [] [] [] [] [] [] []]; vm_compute; intros H; try discriminate H; done. Qed.

Lemma systemd_words_plain v rest cur :
  str_forallb systemd_plain v = true →
  systemd_words false cur (v +:+ rest)
  = systemd_words false (match v with EmptyString => cur | _ => Some (push cur v) end) rest.
Proof.
  revert cur. induction v as [|c v IH]; intros cur Hv; [done|]. simpl in Hv. apply andb_true_iff in Hv as [Hc Hv].
  apply systemd_plain_safe in Hc as (H1 & H2 & H3 & H4 & _).
  rewrite str_app_cons. cbn [systemd_words]. rewrite H1, H2, H3, H4. cbn [orb]. rewrite IH by done.
  destruct v; [done|]. by rewrite push_push.
Qed.

Definition systemd_escape (v : string) : string := replace_char dquote ("\" +:+ dq) (replace_char backslash "\\" v).

Definition systemd_esc (c : ascii) : string :=
  if Ascii.eqb c backslash then "\\" else if Ascii.eqb c dquote then "\" +:+ dq else String c "".

Lemma systemd_escape_cons c v : systemd_escape (String c v) = systemd_esc c +:+ systemd_escape v.
Proof.
  unfold systemd_escape, systemd_esc, replace_char. rewrite !str_flat_map_comp. cbn [str_flat_map].
  destruct (Ascii.eqb c backslash); [done|]. cbn [str_flat_map]. by rewrite str_app_nil_r.
Qed.

Lemma systemd_words_quoted v rest cur :
  systemd_words true (Some cur) (systemd_escape v +:+ dq +:+ rest) = systemd_words false (Some (cur +:+ v)) rest.
Proof.
  revert cur. induction v as [|c v IH]; intros cur; [by rewrite str_app_nil_r|].
  rewrite systemd_escape_cons, <- str_app_assoc. set (t := systemd_escape v +:+ dq +:+ rest) in *.
  assert (Hp : cur +:+ String c v = (cur +:+ String c "") +:+ v) by by rewrite <- str_app_assoc.
  rewrite Hp, <- IH. unfold systemd_esc. destruct (Ascii.eqb c backslash) eqn:Hb.
  { apply Ascii.eqb_eq in Hb as ->. done. }
  destruct (Ascii.eqb c dquote) eqn:Hq; [by apply Ascii.eqb_eq in Hq as ->|].
  rewrite str_app_cons, str_app_nil_l. cbn [systemd_words]. by rewrite Hq, Hb.
Qed.

Lemma systemd_expand_percent v :
  contains_char v "$" = false → systemd_expand (replace_char "%" "%%" v) = Some v.
Proof.
  induction v as [|c v IH]; [done|]. intros Hc.
  change (contains_char (String c v) "$") with (Ascii.eqb "$" c || contains_char v "$") in Hc.
  apply orb_false_iff in Hc as [Hd Hv]. specialize (IH Hv).
  change (replace_char "%" "%%" (String c v))
    with ((if Ascii.eqb c "%" then "%%" else String c "") +:+ replace_char "%" "%%" v).
  destruct (Ascii.eqb c "%") eqn:Hp.
  - apply Ascii.eqb_eq in Hp as ->. rewrite !str_app_cons, str_app_nil_l.
    change (String "%" <$> systemd_expand (replace_char "%" "%%" v) = Some (String "%" v)). by rewrite IH.
  - rewrite str_app_cons, str_app_nil_l. cbn [systemd_expand]. unfold is_sigil.
    rewrite Hp, (Ascii.eqb_sym c), Hd. cbn [orb]. by rewrite IH.
Qed.

Lemma replace_percent_plain v : str_forallb systemd_plain v = true → replace_char "%" "%%" v = v.
Proof.
  induction v as [|c v IH]; [done|]. simpl. intros [Hc Hv]%andb_true_iff.
  apply systemd_plain_safe in Hc as (_ & _ & _ & _ & Hc). cbn. rewrite Hc. f_equal. by apply IH.
Qed.

(** An argument systemd can be given: not empty, on one line, without a variable. *)
Definition systemd_arg_ok (v : string) : Prop :=
  v ≠ "" ∧ contains_char v "010" = false ∧ contains_char v "$" = false.

Lemma systemd_quote_words v rest :
  v ≠ "" → systemd_words false None (systemd_quote v +:+ rest) = systemd_words false (Some (replace_char "%" "%%" v)) rest.
Proof.
  intros Hv. unfold systemd_quote. destruct (str_forallb systemd_plain v) eqn:Hp.
  - rewrite replace_percent_plain, systemd_words_plain by done. by destruct v.
  - rewrite <- !str_app_assoc. fold (systemd_escape (replace_char "%" "%%" v)).
    change (systemd_words true (Some "") (systemd_escape (replace_char "%" "%%" v) +:+ dq +:+ rest)
            = systemd_words false (Some (replace_char "%" "%%" v)) rest).
    by rewrite systemd_words_quoted, str_app_nil_l.
Qed.

Lemma systemd_line_read args : Forall systemd_arg_ok args → systemd_args (systemd_line args) = Some args.
Proof.
  intros H. unfold systemd_args, systemd_line.
  assert (Hw : systemd_words false None (join " " (map systemd_quote args)) = Some (map (replace_char "%" "%%") args)).
  { induction H as [|v args [Hv _] Hargs IH]; [done|]. destruct args as [|w args].
    - cbn [map join]. by rewrite <- (str_app_nil_r (systemd_quote v)), systemd_quote_words.
    - change (join " " (map systemd_quote (v :: w :: args)))
        with (systemd_quote v +:+ " " +:+ join " " (map systemd_quote (w :: args))).
      rewrite systemd_quote_words by done. set (t := join _ _) in *.
      change (app [replace_char "%" "%%" v] <$> systemd_words false None t = Some (map (replace_char "%" "%%") (v :: w :: args))).
      by rewrite IH. }
  rewrite Hw. simpl. clear Hw. induction H as [|v args (_ & _ & Hv) Hargs IH]; [done|].
  cbn [map mapM]. rewrite systemd_expand_percent by done. simpl. by rewrite IH.
Qed.

Definition one_line (s : string) : Prop := contains_char s "010" = false.

Lemma one_line_app s t : one_line s → one_line t → one_line (s +:+ t).
Proof. unfold one_line. by rewrite contains_char_app => -> ->. Qed.

Lemma contains_char_replace x c t s :
  contains_char s x = false → contains_char t x = false → contains_char (replace_char c t s) x = false.
Proof.
  intros Hs Ht. induction s as [|d s IH]; [done|].
  change (contains_char (String d s) x) with (Ascii.eqb x d || contains_char s x) in Hs.
  apply orb_false_iff in Hs as [Hd Hs].
  change (replace_char c t (String d s)) with ((if Ascii.eqb d c then t else String d "") +:+ replace_char c t s).
  rewrite contains_char_app, IH, orb_false_r by done. destruct (Ascii.eqb d c); [done|].
  change (Ascii.eqb x d || false = false). by rewrite Hd.
Qed.

Lemma one_line_quote v : one_line v → one_line (systemd_quote v).
Proof.
  unfold one_line, systemd_quote. intros Hv. case_match; [by apply contains_char_replace|].
  rewrite !contains_char_app. rewrite contains_char_replace; [done| |done]. by repeat apply contains_char_replace.
Qed.

Lemma one_line_systemd args : Forall one_line args → one_line (systemd_line args).
Proof.
  unfold systemd_line. induction 1 as [|v args Hv Hargs IH]; [done|].
  destruct args as [|w args]; [by apply one_line_quote|].
  change (one_line (systemd_quote v +:+ " " +:+ join " " (map systemd_quote (w :: args)))).
  apply one_line_app; [by apply one_line_quote|]. by apply one_line_app.
Qed.

Lemma exec_skip a t : one_line a → strip_prefix "ExecStart=" a = None → systemd_command (a +:+ nl +:+ t) = systemd_command t.
Proof.
  intros Ha Hs. unfold systemd_command, nl. rewrite str_app_cons, str_app_nil_l, split_app by done.
  cbn [omap list_omap]. by rewrite Hs.
Qed.
Lemma exec_skip0 t : systemd_command (nl +:+ t) = systemd_command t.
Proof. by apply (exec_skip ""). Qed.
Lemma exec_skip2 a b t :
  one_line a → one_line b → strip_prefix "ExecStart=" (a +:+ b) = None →
  systemd_command (a +:+ b +:+ nl +:+ t) = systemd_command t.
Proof. intros Ha Hb Hs. rewrite str_app_assoc. apply exec_skip; [by apply one_line_app|done]. Qed.

Lemma exec_found args t : one_line args → systemd_command ("ExecStart=" +:+ args +:+ nl +:+ t) = systemd_args args.
Proof.
  intros Ha. unfold systemd_command. rewrite str_app_assoc. change (nl +:+ t) with (String "010" t).
  rewrite split_app by (by apply one_line_app). cbn [omap list_omap]. by rewrite strip_prefix_app.
Qed.

Lemma number_arg_ok z : systemd_arg_ok (string_of_Z z).
Proof.
  assert (H : ∀ n x, is_ascii_digit x = false → contains_char (string_of_N n) x = false).
  { intros n x Hx. apply contains_char_forallb. eapply str_forallb_impl; [|apply string_of_N_digits].
    intros c Hc. apply negb_true_iff. apply Ascii.eqb_neq. intros ->. congruence. }
  unfold string_of_Z. case_match; split_and!; try done; try (apply string_of_N_nonempty); try (by apply H).
Qed.

Definition service_args (c : DaemonServiceConfig) : list string :=
  if negb (ds_style c =? "forking") then daemon_watch_args c else daemon_start_args c.

Lemma service_args_ok c : Forall systemd_arg_ok (service_texts c) → Forall systemd_arg_ok (service_args c).
Proof.
  intros H. unfold service_args. case_match; [apply watch_args_Forall; [done|apply number_arg_ok|by repeat constructor]|].
  unfold service_texts, daemon_start_args in *. rewrite !Forall_cons in *.
  destruct H as (? & ? & _). split_and!; try done.
Qed.

(** The unit's [ExecStart=] line runs what was asked: cut by systemd's rules for
    words, quotes and specifiers it is the program and its arguments, in both styles of
    service, for texts that are not empty, on one line and without a dollar sign. *)
Theorem systemd_unit_runs_service c :
  Forall systemd_arg_ok (service_texts c) →
  systemd_command (render_systemd_service c) = Some (service_args c).
Proof.
  intros H. pose proof (service_args_ok _ H) as Hargs.
  assert (Hl : Forall one_line (service_args c)) by (eapply Forall_impl; [exact Hargs|]; by intros v (_ & ? & _)).
  assert (Hh : ∀ f, one_line f → one_line ("-" +:+ systemd_quote (ds_home c +:+ f))).
  { intros f Hf. unfold service_texts in H. rewrite !Forall_cons in H. destruct H as (_ & (_ & ? & _) & _).
    apply one_line_app; [done|]. apply one_line_quote. by apply one_line_app. }
  unfold render_systemd_service. fold (service_args c).
  rewrite !exec_skip, exec_skip0, exec_skip by done.
  rewrite exec_skip2 by (done || case_match; done).
  rewrite !exec_skip2 by (done || by apply Hh).
  rewrite exec_found by (by apply one_line_systemd). by apply systemd_line_read.
Qed.

(** ** Settings *)

(** A backend printed for the command line is read back as itself on Linux; elsewhere the
    two Linux backends are refused. *)
Lemma backend_as_cli_roundtrip b : WatchBackend_normalize Linux (WatchBackend_as_cli b) = Ok b.
Proof. by destruct b. Qed.
Lemma mode_as_cli_roundtrip m : WatchMode_normalize (WatchMode_as_cli m) = Ok m.
Proof. by destruct m. Qed.
Lemma default_backend_accepted os : WatchBackend_normalize os (default_backend os) = Ok (default_native os).
Proof. by destruct os. Qed.

Module DaemonExample.

Definition config : DaemonServiceConfig := {|
  ds_provider := "auto"; ds_style := "foreground"; ds_scope := ScopeUser;
  ds_exe := "C:\Majutsu Bin\mj.exe"; ds_home := "D:\back" +:+ dq +:+ "up\"; ds_backend := "notify"; ds_mode := "default";
  ds_interval_secs := 60; ds_debounce_ms := 1500; ds_settle_ms := 500; ds_buffer_max_ms := 60000;
  ds_buffer_max_events := 1000; ds_periodic_rescan_secs := 3600; ds_max_rss_mib := 2048 |}.

Lemma windows_task_runs_watch_witness :
  windows_task_command (render_windows_task_script config (daemon_watch_args config)) = Some (daemon_watch_args config).
Proof. apply windows_task_runs_watch. repeat constructor. Defined.

Definition unit_config : DaemonServiceConfig := {|
  ds_provider := "systemd"; ds_style := "forking"; ds_scope := ScopeSystem;
  ds_exe := "/opt/Majutsu Bin/mj"; ds_home := "/home/alice/.majutsu%prod"; ds_backend := "inotify"; ds_mode := "default";
  ds_interval_secs := 60; ds_debounce_ms := 1500; ds_settle_ms := 500; ds_buffer_max_ms := 60000;
  ds_buffer_max_events := 1000; ds_periodic_rescan_secs := 3600; ds_max_rss_mib := 2048 |}.

Lemma systemd_unit_runs_service_witness :
  systemd_command (render_systemd_service unit_config)
  = Some ["/opt/Majutsu Bin/mj"; "--home"; "/home/alice/.majutsu%prod"; "daemon"; "start"].
Proof. apply (systemd_unit_runs_service unit_config). repeat constructor; discriminate. Defined.

End DaemonExample.
