(* ===== verification/Core.v ===== *)
(** * majutsu-core: the data model and its validators

    [src/internal/majutsu_core.rs] (mirrored from [crates/majutsu-core]): the
    records every other part of the program exchanges (snapshots, operations,
    file records and their payloads, tree and large-object manifests) and the
    validators [fsck] runs over them.  A validator returns the list of issues
    it found, in the order the source pushes them. *)

From S2P Require Import Prelude RStr BTree MachInt.

(** [DateTime<Utc>] is an instant, counted in nanoseconds from the epoch. *)
Definition DateTime : Type := Z.

(** What the program uses of the [chrono] crate. *)
Class Chrono := {
  parse_from_rfc3339 : string → result DateTime string;
  to_rfc3339 : DateTime → string;
  dt_year : DateTime → Z;
  dt_month : DateTime → Z;
  dt_day : DateTime → Z;
}.

(** The part of its contract the theorems need: printing can be parsed back. *)
Class ChronoLaws `{!Chrono} : Prop := {
  parse_to_rfc3339 t : parse_from_rfc3339 (to_rfc3339 t) = Ok t;
}.

(** ** Enumerations and their labels *)

Inductive SnapshotMode := SmDefault | SmStrict | SmTransactional.

Definition SnapshotMode_parse (value : string) : result SnapshotMode string :=
  if (value =? "default")%string then Ok SmDefault
  else if (value =? "strict")%string then Ok SmStrict
  else if (value =? "transactional")%string then Ok SmTransactional
  else Err "snapshot mode must be default, strict, or transactional".

Definition SnapshotMode_as_str (m : SnapshotMode) : string :=
  match m with
  | SmDefault => "default"
  | SmStrict => "strict"
  | SmTransactional => "transactional"
  end.

Inductive RootStatus :=
| RsActive | RsPaused | RsMissing | RsUnmounted | RsPermissionDenied | RsDeleted.

(** The serde names: kebab-case, with the variant name as an alias. *)
Definition RootStatus_label (s : RootStatus) : string :=
  match s with
  | RsActive => "active"
  | RsPaused => "paused"
  | RsMissing => "missing"
  | RsUnmounted => "unmounted"
  | RsPermissionDenied => "permission-denied"
  | RsDeleted => "deleted"
  end.
Definition RootStatus_alias (s : RootStatus) : string :=
  match s with
  | RsActive => "Active"
  | RsPaused => "Paused"
  | RsMissing => "Missing"
  | RsUnmounted => "Unmounted"
  | RsPermissionDenied => "PermissionDenied"
  | RsDeleted => "Deleted"
  end.
Definition RootStatus_all : list RootStatus :=
  [RsActive; RsPaused; RsMissing; RsUnmounted; RsPermissionDenied; RsDeleted].
Definition RootStatus_of_label (s : string) : option RootStatus :=
  List.find (λ st, (s =? RootStatus_label st)%string || (s =? RootStatus_alias st)%string) RootStatus_all.

Inductive OperationStatus := OsDone | OsRunning | OsFailed.

Definition OperationStatus_label (s : OperationStatus) : string :=
  match s with OsDone => "done" | OsRunning => "running" | OsFailed => "failed" end.

Inductive RemoteSyncState := RssNotSynced | RssQueued | RssSynced | RssFailed.

Definition RemoteSyncState_label (s : RemoteSyncState) : string :=
  match s with
  | RssNotSynced => "not-synced"
  | RssQueued => "queued"
  | RssSynced => "synced"
  | RssFailed => "failed"
  end.

Inductive OperationKind :=
| OkInit | OkInitialScan | OkFileEventsBatch | OkManualSnapshot | OkConfigChange
| OkRootAdded | OkRootPaused | OkRootResumed | OkRootMarkedDeleted | OkRootMissing
| OkRootUnmounted | OkRootPermissionDenied | OkRootRemoved | OkPathTracked
| OkPathUntracked | OkOpRestore | OkRestore | OkRestorePrepare | OkRestoreResume
| OkMount | OkMountFuse | OkUnmount | OkUnmountFuse | OkHydrate | OkLargePin
| OkLargeUnpin | OkRemoteSync | OkRemoteRepair | OkPack | OkPackCompact | OkPrune
| OkGc | OkCachePrune | OkLifecycleApply | OkKeyRotation | OkFsck.

Definition OperationKind_label (k : OperationKind) : string :=
  match k with
  | OkInit => "init"
  | OkInitialScan => "initial-scan"
  | OkFileEventsBatch => "file-events-batch"
  | OkManualSnapshot => "manual-snapshot"
  | OkConfigChange => "config-change"
  | OkRootAdded => "root-added"
  | OkRootPaused => "root-paused"
  | OkRootResumed => "root-resumed"
  | OkRootMarkedDeleted => "root-mark-deleted"
  | OkRootMissing => "root-missing"
  | OkRootUnmounted => "root-unmounted"
  | OkRootPermissionDenied => "root-permission-denied"
  | OkRootRemoved => "root-removed"
  | OkPathTracked => "path-tracked"
  | OkPathUntracked => "path-untracked"
  | OkOpRestore => "op-restore"
  | OkRestore => "restore"
  | OkRestorePrepare => "restore-prepare"
  | OkRestoreResume => "restore-resume"
  | OkMount => "mount"
  | OkMountFuse => "mount-fuse"
  | OkUnmount => "unmount"
  | OkUnmountFuse => "unmount-fuse"
  | OkHydrate => "hydrate"
  | OkLargePin => "large-pin"
  | OkLargeUnpin => "large-unpin"
  | OkRemoteSync => "remote-sync"
  | OkRemoteRepair => "remote-repair"
  | OkPack => "pack"
  | OkPackCompact => "pack-compact"
  | OkPrune => "prune"
  | OkGc => "gc"
  | OkCachePrune => "cache-prune"
  | OkLifecycleApply => "lifecycle-apply"
  | OkKeyRotation => "key-rotation"
  | OkFsck => "fsck"
  end.

(** [matches!(kind, "init" | ...)] *)
Definition str_matches (l : list string) (s : string) : bool := existsb (String.eqb s) l.

Definition valid_operation_kind_label (kind : string) : bool :=
  str_matches
    ["init"; "root-added"; "config-change"; "root-removed"; "root-paused"; "root-resumed";
     "root-mark-deleted"; "root-missing"; "root-unmounted"; "root-permission-denied";
     "path-tracked"; "path-untracked"; "initial-scan"; "manual-snapshot"; "file-events-batch";
     "op-restore"; "restore"; "restore-prepare"; "restore-resume"; "mount"; "mount-fuse";
     "unmount"; "unmount-fuse"; "hydrate"; "large-pin"; "large-unpin"; "remote-sync";
     "remote-repair"; "key-rotation"; "pack"; "pack-compact"; "prune"; "gc"; "cache-prune";
     "lifecycle-apply"; "fsck"] kind.

Definition valid_operation_status_label (status : string) : bool :=
  str_matches ["done"; "running"; "failed"] status.

Definition valid_remote_sync_state_label (state : string) : bool :=
  str_matches ["not-synced"; "queued"; "synced"; "failed"] state.

(** ** Snapshots and operations *)

Record SnapshotExport := {
  se_id : string;
  se_parent_id : option string;
  se_op_id : string;
  se_created_at : string;
  se_manifest_key : string;
  se_manifest_json : string;
}.

#[export] Instance SnapshotExport_eq_dec : EqDecision SnapshotExport.
Proof. solve_decision. Defined.

Definition se_clear_manifest_json (e : SnapshotExport) : SnapshotExport :=
  {| se_id := se_id e; se_parent_id := se_parent_id e; se_op_id := se_op_id e;
     se_created_at := se_created_at e; se_manifest_key := se_manifest_key e;
     se_manifest_json := "" |}.

Definition snapshot_export_matches (actual expected : SnapshotExport) : bool :=
  if bool_decide (actual = expected) then true else
  if is_empty (trim (se_manifest_json actual)) || is_empty (trim (se_manifest_json expected))
  then bool_decide (se_clear_manifest_json actual = se_clear_manifest_json expected)
  else bool_decide (actual = expected).

Record OperationLogEntry := {
  ole_id : string;
  ole_parent_op : option string;
  ole_kind : string;
  ole_actor : string;
  ole_session_id : option string;
  ole_session_label : option string;
  ole_process_id : option Z;
  ole_process_path : option (list Z);
  ole_origin_label : option string;
  ole_origin_session_id : option string;
  ole_origin_process_id : option Z;
  ole_origin_process_path : option (list Z);
  ole_origin_exe : option string;
  ole_origin_confidence : option string;
  ole_status : string;
  ole_before_snapshot : option string;
  ole_after_snapshot : option string;
  ole_created_at : string;
  ole_message : option string;
  ole_error : option string;
  ole_remote_sync_state : option string;
}.

#[export] Instance OperationLogEntry_eq_dec : EqDecision OperationLogEntry.
Proof. solve_decision. Defined.

Inductive HistoryGraphIssue :=
| SnapshotSelfParent (snapshot_id : string)
| SnapshotMissingOperation (snapshot_id operation_id : string)
| OperationMissingParent (operation_id parent_id : string)
| OperationSelfParent (operation_id : string).

Definition history_graph_issues (snapshots : list SnapshotExport)
    (operations : list OperationLogEntry) : list HistoryGraphIssue :=
  let operation_ids := bset_of_list (ole_id <$> operations) in
  flat_map (λ s,
    (if bool_decide (se_parent_id s = Some (se_id s)) then [SnapshotSelfParent (se_id s)] else []) ++
    (if negb (bset_contains operation_ids (se_op_id s))
     then [SnapshotMissingOperation (se_id s) (se_op_id s)] else [])) snapshots ++
  flat_map (λ o,
    match ole_parent_op o with
    | None => []
    | Some parent =>
      (if negb (bset_contains operation_ids parent) then [OperationMissingParent (ole_id o) parent] else []) ++
      (if (parent =? ole_id o)%string then [OperationSelfParent (ole_id o)] else [])
    end) operations.

Inductive OperationLogEntryIssue :=
| InvalidId
| InvalidKind (kind : string)
| InvalidStatus (status : string)
| InvalidRemoteSyncState (state : string)
| FailedWithoutError
| RemoteSyncMissingState
| RemoteSyncStateMismatch (status remote_sync_state : string)
| EmptyActor
| InvalidCreatedAt (value error : string).

Definition OperationLogEntry_validation_issues `{!Chrono} (e : OperationLogEntry)
    : list OperationLogEntryIssue :=
  (if negb (starts_with (ole_id e) "op-") then [InvalidId] else []) ++
  (if negb (valid_operation_kind_label (ole_kind e)) then [InvalidKind (ole_kind e)] else []) ++
  (if negb (valid_operation_status_label (ole_status e)) then [InvalidStatus (ole_status e)] else []) ++
  (match ole_remote_sync_state e with
   | Some state =>
     if negb (valid_remote_sync_state_label state) then [InvalidRemoteSyncState state] else []
   | None => []
   end) ++
  (if (ole_status e =? "failed")%string && is_empty (trim (default "" (ole_error e)))
   then [FailedWithoutError] else []) ++
  (if (ole_kind e =? "remote-sync")%string then
     match ole_remote_sync_state e with
     | None => [RemoteSyncMissingState]
     | Some state =>
       if (state =? "queued")%string && (ole_status e =? "running")%string then []
       else if (state =? "synced")%string && (ole_status e =? "done")%string then []
       else if (state =? "failed")%string && (ole_status e =? "failed")%string then []
       else if valid_remote_sync_state_label state
       then [RemoteSyncStateMismatch (ole_status e) state]
       else []
     end
   else []) ++
  (if is_empty (trim (ole_actor e)) then [EmptyActor] else []) ++
  (match parse_from_rfc3339 (ole_created_at e) with
   | Err err => [InvalidCreatedAt (ole_created_at e) err]
   | Ok _ => []
   end).

Inductive OperationLogComparisonIssue :=
| CountMismatch (expected actual : nat)
| EntryMismatch (index : nat) (id : string).

Definition operation_log_entry_matches (actual expected : OperationLogEntry) : bool :=
  bool_decide (actual = expected).

(** [zip], [enumerate], [filter], [map], from a given index. *)
Fixpoint entry_mismatches (index : nat) (actual expected : list OperationLogEntry)
    : list OperationLogComparisonIssue :=
  match actual, expected with
  | a :: actual', e :: expected' =>
    (if negb (operation_log_entry_matches a e) then [EntryMismatch index (ole_id a)] else []) ++
    entry_mismatches (S index) actual' expected'
  | _, _ => []
  end.

Definition operation_log_comparison_issues (actual expected : list OperationLogEntry)
    : list OperationLogComparisonIssue :=
  if negb (length actual =? length expected)
  then [CountMismatch (length expected) (length actual)]
  else entry_mismatches 0 actual expected.

(** ** The operation log on disk

    Records are CBOR items written one after the other; the encoder and the
    streaming decoder are the [serde_cbor] crate's. *)

Class CborEntry := {
  cbor_to_vec : OperationLogEntry → result (list Z) string;
  (** [StreamDeserializer::next]: nothing left, an error after a number of
      bytes, or a record and the bytes that follow it. *)
  cbor_next : list Z → option (result (OperationLogEntry * list Z) nat);
}.

Class CborLaws `{!CborEntry} : Prop := {
  cbor_next_nil : cbor_next [] = None;
  cbor_next_encoded e bs rest :
    cbor_to_vec e = Ok bs → cbor_next (bs ++ rest) = Some (Ok (e, rest));
  cbor_to_vec_nonempty e bs : cbor_to_vec e = Ok bs → bs ≠ [];
}.

Fixpoint encode_operation_log `{!CborEntry} (operations : list OperationLogEntry)
    : result (list Z) string :=
  match operations with
  | [] => Ok []
  | o :: operations' =>
    let? bs := cbor_to_vec o in
    let? rest := encode_operation_log operations' in
    Ok (bs ++ rest)
  end.

(** Every record takes at least one byte, so the length of the input bounds
    the number of records; [None] is fuel running out.  [total] is the length
    of the whole stream, from which an error's offset is computed. *)
Fixpoint decode_operation_log_go `{!CborEntry} (fuel total : nat) (bytes : list Z)
    : option (result (list OperationLogEntry) string) :=
  match cbor_next bytes with
  | None => Some (Ok [])
  | Some (Err consumed) =>
    let offset := total - length bytes + consumed in
    Some (Err ("decode CBOR stream at byte " +:+ string_of_N (N.of_nat offset)))
  | Some (Ok (o, rest)) =>
    match fuel with
    | O => None
    | S fuel' =>
      match decode_operation_log_go fuel' total rest with
      | None => None
      | Some (Err e) => Some (Err e)
      | Some (Ok os) => Some (Ok (o :: os))
      end
    end
  end.
Definition decode_operation_log `{!CborEntry} (bytes : list Z) :=
  decode_operation_log_go (length bytes) (length bytes) bytes.

(** ** File records and manifests *)

Inductive Payload :=
| Directory
| InlineSmall (oid object_key : string)
| NormalBlob (oid object_key : string)
| ChunkedBlob (oid manifest_key : string) (chunk_count : Z)
| LargeObject (oid manifest_key : string) (chunk_count : Z) (media_type : option string)
    (binary : bool) (chunking compression encryption storage_tier_hint hydrate_policy : string)
| Blob (oid object_key : string)
| Large (oid manifest_key : string) (chunk_count : Z)
| Symlink (target : string)
| Special (special_kind : string).

#[export] Instance Payload_eq_dec : EqDecision Payload.
Proof. solve_decision. Defined.

Record FileRecord := {
  fr_root_id : string;
  fr_path : string;
  fr_kind : string;
  fr_size : Z;
  fr_mode : Z;
  fr_modified : option Z;
  fr_uid : option Z;
  fr_gid : option Z;
  fr_xattrs : list (string * string);
  fr_payload : Payload;
}.

#[export] Instance FileRecord_eq_dec : EqDecision FileRecord.
Proof. solve_decision. Defined.

Definition payload_blob_ref (p : Payload) : option (string * string) :=
  match p with
  | InlineSmall oid key | NormalBlob oid key | Blob oid key => Some (oid, key)
  | _ => None
  end.

Definition payload_large_ref (p : Payload) : option (string * string * Z) :=
  match p with
  | ChunkedBlob oid key n | LargeObject oid key n _ _ _ _ _ _ _ | Large oid key n => Some (oid, key, n)
  | _ => None
  end.

(** [*payload_blob_ref_mut(p)?.1 = key]: the payload with the object key the
    returned reference points to replaced. *)
Definition payload_blob_ref_mut (p : Payload) (key : string) : option Payload :=
  match p with
  | InlineSmall oid _ => Some (InlineSmall oid key)
  | NormalBlob oid _ => Some (NormalBlob oid key)
  | Blob oid _ => Some (Blob oid key)
  | _ => None
  end.

Definition payload_large_ref_mut (p : Payload) (key : string) : option Payload :=
  match p with
  | ChunkedBlob oid _ n => Some (ChunkedBlob oid key n)
  | LargeObject oid _ n mt b c co e st h => Some (LargeObject oid key n mt b c co e st h)
  | Large oid _ n => Some (Large oid key n)
  | _ => None
  end.

Record RootSnapshot := {
  rs_tree_id : string;
  rs_tree_key : string;
  rs_file_count : Z;
}.

Record SnapshotManifest := {
  sm_snapshot_id : string;
  sm_parent : option string;
  sm_op_id : string;
  sm_timestamp : DateTime;
  sm_root_trees : list (string * RootSnapshot);
  sm_roots : list (string * list FileRecord);
}.

Record TreeNodeRef := {
  tnr_node_id : string;
  tnr_node_key : string;
  tnr_file_count : Z;
  tnr_total_size : Z;
}.

Record TreeManifest := {
  tm_version : Z;
  tm_tree_id : string;
  tm_root_id : string;
  tm_created_at : DateTime;
  tm_root_node : option TreeNodeRef;
  tm_subtree_nodes : list (string * TreeNodeRef);
  tm_entries : list (string * FileRecord);
}.

Record TreeNodeManifest := {
  tn_version : Z;
  tn_node_id : string;
  tn_root_id : string;
  tn_path : string;
  tn_created_at : DateTime;
  tn_file_count : Z;
  tn_total_size : Z;
  tn_child_nodes : list (string * TreeNodeRef);
  tn_entries : list (string * FileRecord);
}.

Record LargeChunk := {
  lc_index : Z;
  lc_offset : Z;
  lc_len : Z;
  lc_stored_len : option Z;
  lc_compression : string;
  lc_oid : string;
  lc_object_key : string;
}.

Record LargeManifest := {
  lm_version : Z;
  lm_oid : string;
  lm_size : Z;
  lm_media_type : option string;
  lm_binary : bool;
  lm_chunking : string;
  lm_chunk_size : Z;
  lm_chunks : list LargeChunk;
}.

#[export] Instance RootSnapshot_eq_dec : EqDecision RootSnapshot.
Proof. solve_decision. Defined.
#[export] Instance TreeNodeRef_eq_dec : EqDecision TreeNodeRef.
Proof. solve_decision. Defined.
#[export] Instance LargeChunk_eq_dec : EqDecision LargeChunk.
Proof. solve_decision. Defined.

(** ** Live references *)

Record LiveMetadataReferences := {
  live_blobs : list string;
  live_large_objects : list string;
  live_chunks : list string;
}.
Definition live_default : LiveMetadataReferences :=
  {| live_blobs := []; live_large_objects := []; live_chunks := [] |}.

(** One record of [add_snapshot_manifest]: the references after it, and the
    large manifest key it pushes. *)
Definition live_add_record (refs : LiveMetadataReferences) (r : FileRecord)
    : LiveMetadataReferences * list string :=
  match payload_blob_ref (fr_payload r) with
  | Some (oid, _) =>
    ({| live_blobs := bset_insert oid (live_blobs refs);
        live_large_objects := live_large_objects refs;
        live_chunks := live_chunks refs |}, [])
  | None =>
    match payload_large_ref (fr_payload r) with
    | Some (oid, manifest_key, _) =>
      ({| live_blobs := live_blobs refs;
          live_large_objects := bset_insert oid (live_large_objects refs);
          live_chunks := live_chunks refs |}, [manifest_key])
    | None => (refs, [])
    end
  end.

Fixpoint live_add_records (refs : LiveMetadataReferences) (rs : list FileRecord)
    : LiveMetadataReferences * list string :=
  match rs with
  | [] => (refs, [])
  | r :: rs' =>
    let '(refs1, k1) := live_add_record refs r in
    let '(refs2, k2) := live_add_records refs1 rs' in
    (refs2, k1 ++ k2)
  end.

Definition add_snapshot_manifest (refs : LiveMetadataReferences) (m : SnapshotManifest)
    : LiveMetadataReferences * list string :=
  live_add_records refs (concat (sm_roots m).*2).

Definition add_large_manifest (refs : LiveMetadataReferences) (m : LargeManifest)
    : LiveMetadataReferences :=
  {| live_blobs := live_blobs refs;
     live_large_objects := live_large_objects refs;
     live_chunks := bset_extend (live_chunks refs) (lc_oid <$> lm_chunks m) |}.

Inductive MetadataReferenceIssue :=
| DanglingBlob (oid : string)
| DanglingLargeObject (oid : string)
| DanglingChunk (oid : string).

Definition metadata_reference_issues (blob_oids large_object_oids chunk_oids : list string)
    (live_blobs live_large_objects live_chunks : list string) : list MetadataReferenceIssue :=
  flat_map (λ oid, if negb (bset_contains live_blobs oid) then [DanglingBlob oid] else []) blob_oids ++
  flat_map (λ oid, if negb (bset_contains live_large_objects oid) then [DanglingLargeObject oid] else [])
    large_object_oids ++
  flat_map (λ oid, if negb (bset_contains live_chunks oid) then [DanglingChunk oid] else []) chunk_oids.

(** ** Host file, configured roots, trees *)

Inductive HostFileIssue :=
| HostIdMismatch (host_id config_host_id : string)
| HostNameMismatch (host_name config_host_name : string).

Definition host_file_issues (host_id host_name config_host_id config_host_name : string)
    : list HostFileIssue :=
  (if negb (host_id =? config_host_id)%string then [HostIdMismatch host_id config_host_id] else []) ++
  (if negb (host_name =? config_host_name)%string then [HostNameMismatch host_name config_host_name] else []).

Inductive ConfigRootIssue :=
| DuplicateRootId (id : string)
| DatabaseMissingConfig (id : string)
| ConfigMissingDatabase (id : string)
| ConfigMismatch (id : string).

(** The loop over [all_config_root_ids] with its [seen_config_ids]. *)
Fixpoint duplicate_root_ids (seen ids : list string) : list ConfigRootIssue :=
  match ids with
  | [] => []
  | id :: ids' =>
    let '(fresh, seen') := bset_add id seen in
    (if negb fresh then [DuplicateRootId id] else []) ++ duplicate_root_ids seen' ids'
  end.

Definition config_root_consistency_issues
    (all_config_root_ids valid_config_root_ids db_root_ids mismatched_root_ids : list string)
    : list ConfigRootIssue :=
  let valid := bset_of_list valid_config_root_ids in
  let db := bset_of_list db_root_ids in
  duplicate_root_ids [] all_config_root_ids ++
  flat_map (λ id, if negb (bset_contains valid id) then [DatabaseMissingConfig id] else []) db ++
  flat_map (λ id, if negb (bset_contains db id) then [ConfigMissingDatabase id] else []) valid ++
  flat_map (λ id, if bset_contains valid id && bset_contains db id then [ConfigMismatch id] else [])
    mismatched_root_ids.

Inductive TreeManifestIssue :=
| TreeRootIdMismatch (expected actual : string)
| TreeIdMismatch (expected actual : string)
| FileCountMismatch (expected actual : Z).

Definition tree_manifest_file_count (m : TreeManifest) : Z :=
  match tm_entries m with
  | [] => match tm_root_node m with Some node => tnr_file_count node | None => 0 end
  | entries => Z.of_nat (length entries)
  end.

Definition tree_manifest_issues (actual : TreeManifest) (expected_root_id : string)
    (expected : RootSnapshot) : list TreeManifestIssue :=
  (if negb (tm_root_id actual =? expected_root_id)%string
   then [TreeRootIdMismatch expected_root_id (tm_root_id actual)] else []) ++
  (if negb (tm_tree_id actual =? rs_tree_id expected)%string
   then [TreeIdMismatch (rs_tree_id expected) (tm_tree_id actual)] else []) ++
  (if negb (tree_manifest_file_count actual =? rs_file_count expected)%Z
   then [FileCountMismatch (rs_file_count expected) (tree_manifest_file_count actual)] else []).

(** ** Labels *)

Lemma SnapshotMode_roundtrip m : SnapshotMode_parse (SnapshotMode_as_str m) = Ok m.
Proof. by destruct m. Qed.
Lemma SnapshotMode_parse_Ok s m : SnapshotMode_parse s = Ok m ↔ s = SnapshotMode_as_str m.
Proof.
  split; [|intros ->; apply SnapshotMode_roundtrip].
  unfold SnapshotMode_parse. intros H. mj_case; by mj_bool.
Qed.

Lemma RootStatus_of_label_roundtrip st :
  RootStatus_of_label (RootStatus_label st) = Some st ∧
  RootStatus_of_label (RootStatus_alias st) = Some st.
Proof. by destruct st. Qed.

Lemma str_matches_elem l s : str_matches l s = true ↔ s ∈ l.
Proof. apply bset_contains_true. Qed.

Lemma OperationKind_label_inj k1 k2 : OperationKind_label k1 = OperationKind_label k2 → k1 = k2.
Proof. by destruct k1, k2. Qed.

(** The labels the log validator accepts are exactly the serialized names of
    the operation kinds, statuses and sync states. *)
Lemma valid_operation_kind_label_iff s :
  valid_operation_kind_label s = true ↔ ∃ k, OperationKind_label k = s.
Proof.
  unfold valid_operation_kind_label. rewrite str_matches_elem. split.
  - intros Hs. repeat (apply elem_of_cons in Hs as [->|Hs];
      [first [by exists OkInit | by exists OkRootAdded | by exists OkConfigChange
       | by exists OkRootRemoved | by exists OkRootPaused | by exists OkRootResumed
       | by exists OkRootMarkedDeleted | by exists OkRootMissing | by exists OkRootUnmounted
       | by exists OkRootPermissionDenied | by exists OkPathTracked | by exists OkPathUntracked
       | by exists OkInitialScan | by exists OkManualSnapshot | by exists OkFileEventsBatch
       | by exists OkOpRestore | by exists OkRestore | by exists OkRestorePrepare
       | by exists OkRestoreResume | by exists OkMount | by exists OkMountFuse
       | by exists OkUnmount | by exists OkUnmountFuse | by exists OkHydrate
       | by exists OkLargePin | by exists OkLargeUnpin | by exists OkRemoteSync
       | by exists OkRemoteRepair | by exists OkKeyRotation | by exists OkPack
       | by exists OkPackCompact | by exists OkPrune | by exists OkGc | by exists OkCachePrune
       | by exists OkLifecycleApply | by exists OkFsck]|]).
    by apply not_elem_of_nil in Hs.
  - intros [k <-]. apply str_matches_elem. by destruct k.
Qed.
Lemma valid_operation_status_label_iff s :
  valid_operation_status_label s = true ↔ ∃ st, OperationStatus_label st = s.
Proof.
  unfold valid_operation_status_label. rewrite str_matches_elem. split.
  - intros [->|[->|[->|[]%not_elem_of_nil]%elem_of_cons]%elem_of_cons]%elem_of_cons.
    + by exists OsDone.
    + by exists OsRunning.
    + by exists OsFailed.
  - intros [[] <-]; set_solver.
Qed.

(** ** History graph *)

(** What the history graph check promises. *)
Definition history_graph_wf (snapshots : list SnapshotExport)
    (operations : list OperationLogEntry) : Prop :=
  (∀ s, s ∈ snapshots → se_parent_id s ≠ Some (se_id s) ∧
        ∃ o, o ∈ operations ∧ ole_id o = se_op_id s) ∧
  (∀ o p, o ∈ operations → ole_parent_op o = Some p →
        p ≠ ole_id o ∧ ∃ o', o' ∈ operations ∧ ole_id o' = p).

Lemma op_ids_contains operations id :
  bset_contains (bset_of_list (ole_id <$> operations)) id = true
  ↔ ∃ o, o ∈ operations ∧ ole_id o = id.
Proof.
  rewrite bset_contains_true, elem_of_bset_of_list, list_elem_of_fmap. naive_solver.
Qed.

(** [history_graph_issues] is silent exactly on well-formed histories: no
    snapshot or operation is its own parent, every snapshot was made by a
    recorded operation and every operation's parent is recorded. *)
Theorem history_graph_issues_nil snapshots operations :
  history_graph_issues snapshots operations = [] ↔ history_graph_wf snapshots operations.
Proof.
  unfold history_graph_issues, history_graph_wf.
  rewrite app_nil, !flat_map_nil. f_equiv.
  - split; intros H s Hs; specialize (H s Hs);
      rewrite app_nil, !if_nil, bool_decide_eq_false, negb_false_iff, op_ids_contains in *; done.
  - split.
    + intros H o p Ho Hp. specialize (H o Ho). rewrite Hp, app_nil, !if_nil in H.
      destruct H as [H1 H2]. rewrite negb_false_iff, op_ids_contains in H1.
      split; [|done]. by apply String.eqb_neq in H2.
    + intros H o Ho. destruct (ole_parent_op o) as [p|] eqn:Hp; [|done].
      destruct (H o p Ho Hp) as [H1 H2].
      rewrite app_nil, !if_nil, negb_false_iff, op_ids_contains. split; [done|].
      by apply String.eqb_neq.
Qed.

(** ** Live references are exact *)

Definition record_blob (r : FileRecord) (oid : string) : Prop :=
  ∃ key, payload_blob_ref (fr_payload r) = Some (oid, key).
Definition record_large (r : FileRecord) (oid key : string) : Prop :=
  ∃ n, payload_large_ref (fr_payload r) = Some (oid, key, n).

Lemma payload_refs_disjoint p : payload_blob_ref p = None ∨ payload_large_ref p = None.
Proof. destruct p; naive_solver. Qed.

(** A reference is either to a blob or to a large object, and replacing the
    key through the mutable reference changes that key only. *)
Lemma payload_blob_ref_mut_spec p key p' :
  payload_blob_ref_mut p key = Some p' →
  ∃ oid old, payload_blob_ref p = Some (oid, old) ∧ payload_blob_ref p' = Some (oid, key).
Proof. destruct p; naive_solver. Qed.
Lemma payload_large_ref_mut_spec p key p' :
  payload_large_ref_mut p key = Some p' →
  ∃ oid old n, payload_large_ref p = Some (oid, old, n) ∧ payload_large_ref p' = Some (oid, key, n).
Proof. destruct p; naive_solver. Qed.

Lemma live_add_records_spec refs rs refs' keys :
  live_add_records refs rs = (refs', keys) →
  (∀ oid, oid ∈ live_blobs refs' ↔ oid ∈ live_blobs refs ∨ ∃ r, r ∈ rs ∧ record_blob r oid) ∧
  (∀ oid, oid ∈ live_large_objects refs' ↔
     oid ∈ live_large_objects refs ∨ ∃ r key, r ∈ rs ∧ record_large r oid key) ∧
  live_chunks refs' = live_chunks refs ∧
  (∀ key, key ∈ keys ↔ ∃ r oid, r ∈ rs ∧ record_large r oid key).
Proof.
  revert refs refs' keys; induction rs as [|r rs IH]; intros refs refs' keys; simpl.
  { intros [= <- <-]. set_solver. }
  destruct (live_add_record refs r) as [refs1 k1] eqn:E1.
  destruct (live_add_records refs1 rs) as [refs2 k2] eqn:E2. intros [= <- <-].
  destruct (IH _ _ _ E2) as (Hb & Hl & Hc & Hk). clear IH E2.
  pose proof (payload_refs_disjoint (fr_payload r)) as Hdisj.
  unfold live_add_record in E1. unfold record_blob, record_large in *.
  destruct (payload_blob_ref (fr_payload r)) as [[oid key]|] eqn:Eb.
  - destruct Hdisj as [|El]; [done|]. simplify_eq/=. split_and!; [..|done|].
    + intros o. rewrite Hb, elem_of_bset_insert. set_solver.
    + intros o. rewrite Hl. set_solver.
    + intros k. rewrite Hk. set_solver.
  - destruct (payload_large_ref (fr_payload r)) as [[[oid key] n]|] eqn:El;
      simplify_eq/=; split_and!; try done.
    + intros o. rewrite Hb. set_solver.
    + intros o. rewrite Hl, elem_of_bset_insert. set_solver.
    + intros k. rewrite elem_of_cons, Hk. set_solver.
    + intros o. rewrite Hb. set_solver.
    + intros o. rewrite Hl. set_solver.
    + intros k. rewrite Hk. set_solver.
Qed.

Lemma elem_of_metadata_reference_issues bs ls cs lb ll lc i :
  i ∈ metadata_reference_issues bs ls cs lb ll lc ↔
  match i with
  | DanglingBlob oid => oid ∈ bs ∧ oid ∉ lb
  | DanglingLargeObject oid => oid ∈ ls ∧ oid ∉ ll
  | DanglingChunk oid => oid ∈ cs ∧ oid ∉ lc
  end.
Proof.
  unfold metadata_reference_issues. rewrite !elem_of_app, !elem_of_flat_map.
  assert (∀ {B} (live : list string) (f : string → B) x o,
    o ∈ (if negb (bset_contains live x) then [f x] else []) ↔ o = f x ∧ x ∉ live) as H.
  { intros B live f x o. destruct (bset_contains live x) eqn:E; simpl.
    - apply bset_contains_true in E. set_solver.
    - apply bset_contains_false in E. set_solver. }
  setoid_rewrite H. destruct i; naive_solver.
Qed.

(** The references of a set of snapshots and of the large manifests they name. *)
Definition collect_live (snapshots : list SnapshotManifest) (larges : list LargeManifest)
    : LiveMetadataReferences :=
  fold_left add_large_manifest larges
    (fold_left (λ refs m, (add_snapshot_manifest refs m).1) snapshots live_default).

Definition snapshot_records (m : SnapshotManifest) : list FileRecord := concat (sm_roots m).*2.

Lemma collect_snapshots_spec snapshots refs :
  let refs' := fold_left (λ refs m, (add_snapshot_manifest refs m).1) snapshots refs in
  (∀ oid, oid ∈ live_blobs refs' ↔ oid ∈ live_blobs refs ∨
     ∃ m r, m ∈ snapshots ∧ r ∈ snapshot_records m ∧ record_blob r oid) ∧
  (∀ oid, oid ∈ live_large_objects refs' ↔ oid ∈ live_large_objects refs ∨
     ∃ m r key, m ∈ snapshots ∧ r ∈ snapshot_records m ∧ record_large r oid key) ∧
  live_chunks refs' = live_chunks refs.
Proof.
  revert refs; induction snapshots as [|m snapshots IH]; intros refs; simpl; [set_solver|].
  destruct (add_snapshot_manifest refs m) as [refs1 k1] eqn:E1; simpl.
  apply live_add_records_spec in E1 as (Hb & Hl & Hc & _).
  destruct (IH refs1) as (IHb & IHl & IHc). split_and!.
  - intros oid. rewrite IHb, Hb. setoid_rewrite elem_of_cons. fold (snapshot_records m). naive_solver.
  - intros oid. rewrite IHl, Hl. setoid_rewrite elem_of_cons. fold (snapshot_records m). naive_solver.
  - by rewrite IHc.
Qed.

Lemma collect_larges_spec larges refs :
  let refs' := fold_left add_large_manifest larges refs in
  live_blobs refs' = live_blobs refs ∧ live_large_objects refs' = live_large_objects refs ∧
  (∀ oid, oid ∈ live_chunks refs' ↔ oid ∈ live_chunks refs ∨
     ∃ m c, m ∈ larges ∧ c ∈ lm_chunks m ∧ lc_oid c = oid).
Proof.
  revert refs; induction larges as [|m larges IH]; intros refs; simpl; [set_solver|].
  destruct (IH (add_large_manifest refs m)) as (-> & -> & IHc). split_and!; [done..|].
  intros oid. rewrite IHc. simpl. rewrite elem_of_bset_extend, list_elem_of_fmap. set_solver.
Qed.

(** Reference accounting is exact: with the references collected from the
    snapshots and large manifests, a blob, large-object or chunk row is
    reported dangling if and only if no file record (or no large manifest)
    refers to it. *)
Theorem dangling_metadata_exact snapshots larges bs ls cs i :
  let live := collect_live snapshots larges in
  i ∈ metadata_reference_issues bs ls cs (live_blobs live) (live_large_objects live) (live_chunks live) ↔
  match i with
  | DanglingBlob oid =>
    oid ∈ bs ∧ ¬ ∃ m r, m ∈ snapshots ∧ r ∈ snapshot_records m ∧ record_blob r oid
  | DanglingLargeObject oid =>
    oid ∈ ls ∧ ¬ ∃ m r key, m ∈ snapshots ∧ r ∈ snapshot_records m ∧ record_large r oid key
  | DanglingChunk oid =>
    oid ∈ cs ∧ ¬ ∃ m c, m ∈ larges ∧ c ∈ lm_chunks m ∧ lc_oid c = oid
  end.
Proof.
  intros live. rewrite elem_of_metadata_reference_issues. unfold live, collect_live.
  destruct (collect_snapshots_spec snapshots live_default) as (Hb & Hl & Hc).
  destruct (collect_larges_spec larges
    (fold_left (λ refs m, (add_snapshot_manifest refs m).1) snapshots live_default)) as (-> & -> & Hcs).
  destruct i as [oid|oid|oid].
  - by rewrite Hb, (elem_of_nil oid), (left_id False or).
  - by rewrite Hl, (elem_of_nil oid), (left_id False or).
  - by rewrite Hcs, Hc, (elem_of_nil oid), (left_id False or).
Qed.

(** ** The operation log round trip *)

Lemma decode_operation_log_go_encoded `{!CborEntry, !CborLaws} operations bytes fuel total :
  encode_operation_log operations = Ok bytes → length bytes ≤ fuel →
  decode_operation_log_go fuel total bytes = Some (Ok operations).
Proof.
  revert bytes fuel; induction operations as [|o os IH]; intros bytes fuel; simpl.
  - intros [= <-] _. destruct fuel; simpl; by rewrite cbor_next_nil.
  - intros (bs & Hbs & (rest & Hrest & [= <-])%result_bind_Ok)%result_bind_Ok Hfuel.
    pose proof (cbor_to_vec_nonempty _ _ Hbs). rewrite length_app in Hfuel.
    destruct fuel as [|fuel]; [destruct bs; simpl in *; [done|lia]|].
    cbn [decode_operation_log_go]. rewrite (cbor_next_encoded _ _ _ Hbs).
    rewrite (IH rest); [done..|]. destruct bs; simpl in *; [done|lia].
Qed.

(** Decoding an encoded operation log returns the operations, for every
    log the encoder accepts (so the log file replays what was recorded). *)
Theorem operation_log_roundtrip `{!CborEntry, !CborLaws} operations bytes :
  encode_operation_log operations = Ok bytes →
  decode_operation_log bytes = Some (Ok operations).
Proof. intros Henc. by apply decode_operation_log_go_encoded. Qed.

Lemma entry_mismatches_nil i actual expected :
  length actual = length expected → entry_mismatches i actual expected = [] ↔ actual = expected.
Proof.
  revert i expected; induction actual as [|a actual IH]; intros i [|e expected] Hlen;
    simplify_eq/=; [done|].
  rewrite app_nil, if_nil, IH, negb_false_iff by done. unfold operation_log_entry_matches.
  rewrite bool_decide_eq_true. naive_solver.
Qed.

Lemma operation_log_comparison_issues_nil actual expected :
  operation_log_comparison_issues actual expected = [] ↔ actual = expected.
Proof.
  unfold operation_log_comparison_issues.
  destruct (Nat.eqb_spec (length actual) (length expected)); simpl.
  - by apply entry_mismatches_nil.
  - naive_solver.
Qed.

(** ** Configured roots *)

Lemma duplicate_root_ids_nil seen ids :
  duplicate_root_ids seen ids = [] ↔ NoDup ids ∧ ∀ id, id ∈ ids → id ∉ seen.
Proof.
  revert seen; induction ids as [|id ids IH]; intros seen; simpl.
  { split; [|done]. split; [constructor|set_solver]. }
  rewrite app_nil, if_nil, negb_involutive, bset_contains_false, IH, NoDup_cons.
  setoid_rewrite elem_of_bset_insert. set_solver.
Qed.

(** The configuration check is silent exactly when the configured root ids
    are distinct, the valid configured ids and the database ids are the same
    set, and no root known to both differs. *)
Theorem config_root_consistency_issues_nil all valid db mismatched :
  config_root_consistency_issues all valid db mismatched = [] ↔
  NoDup all ∧ (∀ id, id ∈ valid ↔ id ∈ db) ∧
  (∀ id, id ∈ mismatched → id ∈ valid → id ∈ db → False).
Proof.
  unfold config_root_consistency_issues.
  rewrite !app_nil, duplicate_root_ids_nil, !flat_map_nil.
  setoid_rewrite if_nil. setoid_rewrite negb_false_iff. setoid_rewrite andb_false_iff.
  setoid_rewrite bset_contains_true. setoid_rewrite bset_contains_false.
  setoid_rewrite elem_of_bset_of_list.
  split.
  - intros ([H1 _] & H2 & H3 & H4). split_and!; [done|naive_solver|].
    intros id Hm Hv Hd. destruct (H4 id Hm); naive_solver.
  - intros (H1 & H2 & H3). split_and!; [done|set_solver|naive_solver..|].
    intros id Hm. destruct (decide (id ∈ valid)); naive_solver.
Qed.

(** ** Concrete instances of the third-party code *)

Module CoreExample.

(** A calendar of twelve 31-day months; instants print as decimal numbers. *)
#[export] Instance ex_chrono : Chrono := {|
  parse_from_rfc3339 s :=
    match strip_prefix "-" s with
    | Some r => match parse_digits r with Some n => Ok (- Z.of_N n)%Z | None => Err "time" end
    | None => match parse_digits s with Some n => Ok (Z.of_N n) | None => Err "time" end
    end;
  to_rfc3339 t := string_of_Z t;
  dt_year t := (t / 372)%Z;
  dt_month t := (t mod 372 / 31 + 1)%Z;
  dt_day t := (t mod 31 + 1)%Z;
|}.

#[export] Instance ex_chrono_laws : ChronoLaws.
Proof.
  split. intros t. unfold parse_from_rfc3339, to_rfc3339, ex_chrono, string_of_Z.
  destruct (Z.ltb_spec t 0).
  - change (String "-" (string_of_N (Z.to_N (- t)))) with ("-" +:+ string_of_N (Z.to_N (- t))).
    rewrite strip_prefix_app, parse_digits_of_N. f_equal. lia.
  - rewrite digits_no_sign, parse_digits_of_N by done. f_equal. lia.
Qed.

Definition ex_entry : OperationLogEntry := {|
  ole_id := "op-1"; ole_parent_op := None; ole_kind := "snapshot"; ole_actor := "host";
  ole_session_id := None; ole_session_label := None; ole_process_id := None; ole_process_path := None;
  ole_origin_label := None; ole_origin_session_id := None; ole_origin_process_id := None;
  ole_origin_process_path := None; ole_origin_exe := None; ole_origin_confidence := None;
  ole_status := "done"; ole_before_snapshot := None; ole_after_snapshot := Some "s1";
  ole_created_at := "0"; ole_message := None; ole_error := None; ole_remote_sync_state := None |}.

(** A codec that knows one record. *)
#[export] Instance ex_cbor : CborEntry := {|
  cbor_to_vec e := if bool_decide (e = ex_entry) then Ok [161%Z; 7%Z] else Err "cbor";
  cbor_next b := match b with
    | [] => None
    | 161%Z :: 7%Z :: rest => Some (Ok (ex_entry, rest))
    | _ => Some (Err 0) end;
|}.
#[export] Instance ex_cbor_laws : CborLaws.
Proof.
  split; simpl.
  - done.
  - intros e bs rest. case_bool_decide; [|done]. intros [= <-]. by subst.
  - intros e bs. case_bool_decide; [|done]. by intros [= <-].
Qed.

Lemma operation_log_roundtrip_witness :
  encode_operation_log [ex_entry; ex_entry] = Ok [161; 7; 161; 7]%Z ∧
  decode_operation_log [161; 7; 161; 7]%Z = Some (Ok [ex_entry; ex_entry]).
Proof.
  split; [vm_compute; reflexivity|]. apply operation_log_roundtrip. vm_compute. reflexivity.
Defined.

End CoreExample.
