(* ===== verification/Util.v ===== *)
(** * Paths and object keys

    The part of [std::path] the code uses, on Unix, and the key validation and
    media types of [src/util.rs].  A path is a text without interior NUL; its
    components are those of [Path::components]. *)

From S2P Require Import Prelude RStr.

(** ** [std::path] *)

Inductive Component := RootDir | CurDir | ParentDir | Normal (name : string).

#[export] Instance Component_eq_dec : EqDecision Component.
Proof. solve_decision. Defined.

Definition slash : ascii := "/"%char.

(** Repeated separators and inner [.] parts are dropped; a leading [.] is kept. *)
Definition component_of (part : string) : list Component :=
  if (part =? "")%string || (part =? ".")%string then []
  else if (part =? "..")%string then [ParentDir] else [Normal part].

Definition path_is_absolute (path : string) : bool := starts_with path "/".

Definition path_components (path : string) : list Component :=
  let parts := split slash path in
  (if path_is_absolute path then [RootDir]
   else match parts with part :: _ => if (part =? ".")%string then [CurDir] else [] | [] => [] end)
  ++ flat_map component_of parts.

Definition component_str (c : Component) : string :=
  match c with RootDir => "/" | CurDir => "." | ParentDir => ".." | Normal s => s end.

(** [Path::file_name]: the last component, when it is a normal one. *)
Definition path_file_name (path : string) : option string :=
  match last (path_components path) with Some (Normal s) => Some s | _ => None end.

(** [Path::join] *)
Definition path_join (base rest : string) : string :=
  if path_is_absolute rest then rest
  else if is_empty base || ends_with base "/" then base +:+ rest else base +:+ "/" +:+ rest.

(** Splits at the last dot. *)
Definition rsplit_once_dot (s : string) : option (string * string) :=
  match rev (split "."%char s) with
  | ext :: (_ :: _) as rest => Some (join "." (rev (tail (ext :: rest))), ext)
  | _ => None
  end.

(** [Path::extension]: what follows the last dot of the file name, unless that dot
    is its first character. *)
Definition path_extension (path : string) : option string :=
  match path_file_name path with
  | None => None
  | Some name =>
    match rsplit_once_dot name with
    | Some (stem, ext) => if is_empty stem then None else Some ext
    | None => None
    end
  end.

Definition path_to_slash (path : string) : string :=
  join "/" (map component_str (path_components path)).

(** ** Validation *)

Definition validate_slash_relative_key (key : string) : result unit string :=
  if is_empty key then Err "object key must not be empty"
  else if contains_char key "\"%char then Err ("object key must use '/' separators only: " +:+ key)
  else if path_is_absolute key then Err ("object key must be relative: " +:+ key)
  else if existsb (λ part, is_empty part || (part =? ".")%string || (part =? "..")%string) (split slash key)
  then Err ("object key must not contain empty, '.', or '..' components: " +:+ key)
  else if existsb (λ c, match c with Normal _ => false | _ => true end) (path_components key)
  then Err ("object key must not contain prefixes or root separators: " +:+ key)
  else Ok tt.

Definition validate_local_object_key (key : string) : result unit string :=
  let? _ := validate_slash_relative_key key in
  if negb (starts_with key "objects/")
  then Err ("local object key must start with objects/: " +:+ key)
  else Ok tt.

Definition validate_relative_components (path : string) : result unit string :=
  if existsb (λ c, match c with Normal _ => false | _ => true end) (path_components path)
  then Err ("path must be relative and must not contain '.', '..', or prefixes: " +:+ path)
  else match path_components path with [] => Err "path must not be empty" | _ => Ok tt end.

(** ** Media types *)

Definition media_type_of_extension (ext : string) : option string :=
  let one_of l := existsb (String.eqb ext) l in
  if one_of ["blend"] then Some "application/x-blender"
  else if one_of ["db"; "sqlite"] then Some "application/vnd.sqlite3"
  else if one_of ["gz"] then Some "application/gzip"
  else if one_of ["heic"] then Some "image/heic"
  else if one_of ["iso"] then Some "application/x-iso9660-image"
  else if one_of ["jpeg"; "jpg"] then Some "image/jpeg"
  else if one_of ["json"] then Some "application/json"
  else if one_of ["log"; "txt"] then Some "text/plain"
  else if one_of ["md"] then Some "text/markdown"
  else if one_of ["mkv"] then Some "video/x-matroska"
  else if one_of ["mov"] then Some "video/quicktime"
  else if one_of ["mp4"] then Some "video/mp4"
  else if one_of ["parquet"] then Some "application/vnd.apache.parquet"
  else if one_of ["png"] then Some "image/png"
  else if one_of ["psd"] then Some "image/vnd.adobe.photoshop"
  else if one_of ["qcow2"] then Some "application/x-qcow2"
  else if one_of ["tar"] then Some "application/x-tar"
  else if one_of ["toml"] then Some "application/toml"
  else if one_of ["vmdk"] then Some "application/x-vmdk"
  else if one_of ["yaml"; "yml"] then Some "application/yaml"
  else if one_of ["zip"] then Some "application/zip"
  else if one_of ["zst"] then Some "application/zstd"
  else None.

Definition media_type_for_path (path : string) : option string :=
  match path_file_name path with
  | None => None
  | Some name =>
    if ends_with (to_ascii_lowercase name) ".tar.zst" then Some "application/zstd" else
    match path_extension path with
    | Some ext => media_type_of_extension (to_ascii_lowercase ext)
    | None => None
    end
  end.

(** ** Stable reads *)

Record FileMeta := { fm_len : Z; fm_modified : option Z; fm_ino : option Z }.

Definition stable_metadata_matches (before after : FileMeta) : bool :=
  if negb (fm_len before =? fm_len after)%Z
     || negb (bool_decide (fm_modified before = fm_modified after))
  then false
  else bool_decide (fm_ino before = fm_ino after).

(** What one attempt sees of a file others may be writing to: the metadata before,
    the bytes, the metadata after. *)
Record ReadAttempt := { ra_before : FileMeta; ra_bytes : list Z; ra_after : FileMeta }.

Definition stable_attempts (mode : string) : nat := if (mode =? "strict")%string then 8 else 3.

(** [observe i] is the [i]-th attempt; an attempt whose system calls fail ends the read. *)
Fixpoint stable_read_loop (left : nat) (attempt : nat) (observe : nat → result ReadAttempt string)
    : result (list Z) string :=
  match left with
  | O => Err "file changed while reading"
  | S left' =>
    let? a := observe attempt in
    if stable_metadata_matches (ra_before a) (ra_after a) then Ok (ra_bytes a)
    else stable_read_loop left' (S attempt) observe
  end.

Definition stable_read (mode : string) (observe : nat → result ReadAttempt string) : result (list Z) string :=
  stable_read_loop (stable_attempts mode) 0 observe.

(** ** Properties *)

Lemma component_of_plain part :
  is_empty part = false → (part =? ".")%string = false → (part =? "..")%string = false →
  component_of part = [Normal part].
Proof. unfold component_of. destruct part; [done|]. intros _ -> ->. done. Qed.

Definition plain_part (part : string) : Prop := component_of part = [Normal part].

Lemma plain_part_iff part : plain_part part ↔ part ≠ "" ∧ part ≠ "." ∧ part ≠ "..".
Proof.
  unfold plain_part. split; [by intros Hp; split_and!; intros ->|].
  intros (? & ? & ?). apply component_of_plain; [by destruct part|by apply String.eqb_neq..].
Qed.

(** The normal components of a path are plain names without a separator. *)
Lemma normal_component path n : Normal n ∈ path_components path →
  n ≠ "" ∧ n ≠ "." ∧ n ≠ ".." ∧ contains_char n slash = false.
Proof.
  unfold path_components. intros [Hn|Hn]%elem_of_app.
  - destruct (path_is_absolute path); [set_solver|]. destruct (split slash path) as [|p ps]; [set_solver|].
    destruct (p =? ".")%string; set_solver.
  - apply elem_of_flat_map in Hn as (part & Hp & Hn). unfold component_of in Hn.
    destruct (String.eqb_spec part ""); [set_solver|]. destruct (String.eqb_spec part "."); [set_solver|].
    destruct (String.eqb_spec part ".."); [set_solver|]. apply list_elem_of_singleton in Hn as [= ->].
    split_and!; [done..|by eapply split_elem_no_sep].
Qed.

Lemma all_normal cs :
  existsb (λ c, match c with Normal _ => false | _ => true end) cs = false → ∃ names, cs = map Normal names.
Proof.
  induction cs as [|c cs IH]; simpl; [by exists []|].
  destruct c as [| | |n]; [done..|]. intros (names & ->)%IH. by exists (n :: names).
Qed.

Lemma plain_components key :
  path_is_absolute key = false → Forall plain_part (split slash key) →
  path_components key = map Normal (split slash key).
Proof.
  intros Habs Hall. unfold path_components. rewrite Habs. cbv zeta.
  destruct (split slash key) as [|p ps] eqn:Hs; [by apply split_by_not_nil in Hs|].
  assert ((p =? ".")%string = false) as ->.
  { apply Forall_cons_1 in Hall as [(_ & ? & _)%plain_part_iff _]. by apply String.eqb_neq. }
  rewrite app_nil_l. revert Hall. generalize (p :: ps) as l.
  induction 1 as [|q qs Hq _ IH]; [done|]. simpl. by rewrite Hq, IH.
Qed.

Lemma bad_parts_nil parts :
  existsb (λ part, is_empty part || (part =? ".")%string || (part =? "..")%string) parts = false ↔
  Forall plain_part parts.
Proof.
  rewrite existsb_false, Forall_forall. setoid_rewrite plain_part_iff.
  split; intros Hp part Hin; specialize (Hp part Hin); cbv beta in *.
  - mj_bool. split_and!; [by intros ->|done..].
  - destruct Hp as (? & ? & ?). apply orb_false_iff. split; [apply orb_false_iff; split|];
      [by destruct part|by apply String.eqb_neq..].
Qed.

Lemma validate_slash_relative_key_Ok key :
  validate_slash_relative_key key = Ok tt ↔
  contains_char key "\"%char = false ∧ path_is_absolute key = false ∧
  Forall plain_part (split slash key).
Proof.
  unfold validate_slash_relative_key. split.
  - destruct (is_empty key); [done|]. destruct (contains_char _ _); [done|].
    destruct (path_is_absolute key); [done|]. destruct (existsb _ (split slash key)) eqn:Hp; [done|].
    by apply bad_parts_nil in Hp.
  - intros (-> & Habs & Hall). rewrite Habs, (proj2 (bad_parts_nil _) Hall), plain_components by done.
    destruct key as [|c key]; simpl is_empty; cbn match; [by apply Forall_cons_1 in Hall as [? _]|].
    assert (existsb (λ c, match c with Normal _ => false | _ => true end)
      (map Normal (split slash (String c key))) = false) as ->; [|done].
    apply existsb_false. intros x. rewrite list_elem_of_fmap. by intros (y & -> & _).
Qed.

Lemma validate_local_object_key_Ok r :
  contains_char r "\"%char = false → Forall plain_part (split slash r) →
  validate_local_object_key ("objects/" +:+ r) = Ok tt.
Proof.
  intros Hb Hall. unfold validate_local_object_key.
  rewrite (proj2 (validate_slash_relative_key_Ok ("objects/" +:+ r))).
  - unfold result_bind. by rewrite starts_with_app.
  - split_and!; [by rewrite contains_char_app|done|].
    assert (split slash ("objects/" +:+ r) = "objects" :: split slash r) as ->
      by (apply (split_app slash "objects" r); done).
    by constructor.
Qed.

(** A local object key that passes validation cannot leave the object
    directory: every component of its path is a plain name, the first one is
    [objects], the path has no backslash, and the key is its own slash form. *)
Theorem validate_local_object_key_safe key :
  validate_local_object_key key = Ok tt →
  ∃ names, path_components key = Normal "objects" :: map Normal names ∧ names ≠ [] ∧
    Forall (λ n, n ≠ "" ∧ n ≠ "." ∧ n ≠ ".." ∧ contains_char n slash = false ∧
                 contains_char n "\"%char = false) names ∧
    path_to_slash key = key.
Proof.
  unfold validate_local_object_key. intros ([] & Hv & Hs)%result_bind_Ok.
  destruct (starts_with key "objects/") eqn:Hst; [|done]. simpl in Hs.
  apply starts_with_true in Hst as [r ->].
  apply validate_slash_relative_key_Ok in Hv as (Hb & Habs & Hall).
  pose proof (plain_components _ Habs Hall) as Hcomp.
  assert (Hsplit : split slash ("objects/" +:+ r) = "objects" :: split slash r)
    by (apply (split_app slash "objects" r); done).
  exists (split slash r). rewrite Hcomp, Hsplit. split_and!; [done|apply split_by_not_nil| |].
  - rewrite Hsplit in Hall. apply Forall_cons_1 in Hall as [_ Hall].
    apply Forall_forall. intros n Hn. rewrite Forall_forall in Hall. destruct (proj1 (plain_part_iff n) (Hall n Hn)) as (? & ? & ?). split_and!; [done..|by eapply split_elem_no_sep|].
    rewrite contains_char_app in Hb. apply orb_false_iff in Hb as [_ Hb].
    rewrite <-(join_split slash r) in Hb. clear -Hb Hn.
    induction (split slash r) as [|q qs IH]; [by apply elem_of_nil in Hn|].
    destruct qs as [|q' qs]; simpl in Hb.
    + by apply list_elem_of_singleton in Hn as ->.
    + rewrite !contains_char_app in Hb. apply orb_false_iff in Hb as [Hq Hb].
      apply orb_false_iff in Hb as [_ Hb].
      apply elem_of_cons in Hn as [->|Hn]; [done|by apply IH].
  - unfold path_to_slash. rewrite Hcomp, map_map, map_id. apply join_split.
Qed.

Lemma validate_local_object_key_safe_witness :
  validate_local_object_key "objects/blobs/aa/bb" = Ok tt ∧
  ∃ names, path_components "objects/blobs/aa/bb" = Normal "objects" :: map Normal names ∧ names ≠ [] ∧
    Forall (λ n, n ≠ "" ∧ n ≠ "." ∧ n ≠ ".." ∧ contains_char n slash = false ∧
                 contains_char n "\"%char = false) names ∧
    path_to_slash "objects/blobs/aa/bb" = "objects/blobs/aa/bb".
Proof. split; [reflexivity|]. apply validate_local_object_key_safe. reflexivity. Defined.

(** ** Joined paths *)

Lemma path_components_sep b p :
  path_components (b +:+ "/" +:+ p) = (if is_empty b then [RootDir] else path_components b) ++ flat_map component_of (split slash p).
Proof.
  unfold path_components. change (b +:+ "/" +:+ p) with (b +:+ String slash p). rewrite split_app_sep.
  destruct b as [|c b]; [done|]. cbn [is_empty]. rewrite flat_map_app, app_assoc. f_equal. f_equal.
  assert (path_is_absolute (String c b +:+ String slash p) = path_is_absolute (String c b)) as ->.
  { apply Bool.eq_iff_eq_true. unfold path_is_absolute. rewrite !starts_with_true.
    split; intros [r Hr]; injection Hr as -> _; eauto. }
  destruct (path_is_absolute _); [done|].
  pose proof (split_by_not_nil (Ascii.eqb slash) (String c b)). unfold split.
  by destruct (split_by (Ascii.eqb slash) (String c b)).
Qed.

(** A relative path of plain names. *)
Definition plain_rel (p : string) (names : list string) : Prop :=
  path_components p = map Normal names ∧ names ≠ [].

Lemma plain_rel_parts p names : plain_rel p names →
  path_is_absolute p = false ∧ flat_map component_of (split slash p) = map Normal names.
Proof.
  intros [Hp Hn]. unfold path_components in Hp. destruct (path_is_absolute p).
  { by destruct names. }
  split; [done|]. destruct (split slash p) as [|part parts]; [done|].
  destruct (part =? ".")%string; [by destruct names|done].
Qed.

Lemma path_components_join b p names : plain_rel p names →
  path_components (path_join b p) = path_components b ++ map Normal names.
Proof.
  intros Hp. destruct (plain_rel_parts _ _ Hp) as [Habs Hparts]. destruct Hp as [Hp Hn].
  unfold path_join. rewrite Habs. destruct (is_empty b) eqn:Hb.
  { by destruct b. }
  simpl orb. destruct (ends_with b "/") eqn:He.
  - apply ends_with_true in He as [b' ->]. rewrite <-str_app_assoc, path_components_sep, Hparts. f_equal.
    pose proof (path_components_sep b' "") as Hb'. rewrite str_app_nil_r in Hb'.
    change (flat_map component_of (split slash "")) with (@nil Component) in Hb'. by rewrite app_nil_r in Hb'.
  - rewrite path_components_sep, Hb, Hparts. done.
Qed.

Lemma split_join_names names :
  Forall (λ n, contains_char n slash = false) names → names ≠ [] → split slash (join "/" names) = names.
Proof.
  induction names as [|n names IH]; [done|]. intros [Hn Hns]%Forall_cons _.
  destruct names as [|m names]; [by apply split_no_sep|].
  change (join "/" (n :: m :: names)) with (n +:+ String slash (join "/" (m :: names))).
  rewrite split_app by done. by rewrite IH.
Qed.

Lemma stable_read_loop_Ok left attempt observe bytes :
  stable_read_loop left attempt observe = Ok bytes →
  ∃ i a, (attempt <= i < attempt + left)%nat ∧ observe i = Ok a ∧ ra_bytes a = bytes ∧
    stable_metadata_matches (ra_before a) (ra_after a) = true.
Proof.
  revert attempt; induction left as [|left IH]; intros attempt; simpl; [done|].
  intros (a & Ha & Hm)%result_bind_Ok. destruct (stable_metadata_matches _ _) eqn:Hs.
  - injection Hm as <-. exists attempt, a. split_and!; [lia|lia|done..].
  - destruct (IH _ Hm) as (i & a' & ? & ? & ? & ?). exists i, a'. split_and!; [lia|lia|done..].
Qed.

(** A read that succeeds returns the bytes of an attempt whose metadata was the same
    before and after. *)
Lemma stable_read_stable mode observe bytes :
  stable_read mode observe = Ok bytes →
  ∃ i a, (i < stable_attempts mode)%nat ∧ observe i = Ok a ∧ ra_bytes a = bytes ∧
    fm_len (ra_before a) = fm_len (ra_after a) ∧ fm_modified (ra_before a) = fm_modified (ra_after a) ∧
    fm_ino (ra_before a) = fm_ino (ra_after a).
Proof.
  intros (i & a & Hi & Ha & Hb & Hm)%stable_read_loop_Ok. exists i, a.
  unfold stable_metadata_matches in Hm. destruct (_ || _) eqn:Ho; [done|]. mj_bool.
  split_and!; [lia|done..].
Qed.
