(* ===== verification/Large.v ===== *)
(** * majutsu-large: chunking and chunk compression

    [src/internal/majutsu_large.rs].  A large file is cut into ranges, fixed or
    content-defined, and each chunk is compressed when that pays off.  The
    loops run with fuel; the theorems show that the length of the input is
    enough fuel, that the ranges tile the input, and where the [usize]
    arithmetic cannot wrap. *)

From S2P Require Import Prelude RStr BTree MachInt Core.
From Stdlib Require Import SpecFloat.

Local Open Scope Z_scope.

(** ** Ranges *)

Fixpoint fixed_loop (fuel : nat) (start len chunk_size : Z) : option (list (Z * Z)) :=
  if start <? len then
    match fuel with
    | O => None
    | S fuel' =>
      let end_ := Z.min (wadd start chunk_size) len in
      match fixed_loop fuel' end_ len chunk_size with
      | Some ranges => Some ((start, end_) :: ranges)
      | None => None
      end
    end
  else Some [].

Definition fixed_ranges (len chunk_size : Z) : option (list (Z * Z)) :=
  fixed_loop (Z.to_nat len) 0 len (Z.max chunk_size 1).

(** One step of the rolling hash. *)
Definition ROLL_MUL : Z := 0x9E3779B185EBCA87.
Definition rolling_step (rolling byte : Z) : Z := wmul (wadd (rotate_left1 rolling) byte) ROLL_MUL.

(** The inner loop from index [i]: the end of the chunk and the hash state. *)
Fixpoint cdc_scan (fuel : nat) (bytes : list Z) (start i hard_end min mask rolling : Z)
    : option (Z * Z) :=
  if i <? hard_end then
    match fuel, bytes !! Z.to_nat i with
    | S fuel', Some byte =>
      let rolling' := rolling_step rolling byte in
      let current_len := i + 1 - start in
      if (min <=? current_len) && (Z.land rolling' mask =? 0)
      then Some (i + 1, rolling')
      else cdc_scan fuel' bytes start (i + 1) hard_end min mask rolling'
    | _, _ => None
    end
  else Some (hard_end, rolling).

Fixpoint cdc_loop (fuel : nat) (bytes : list Z) (start len min max mask rolling : Z)
    : option (list (Z * Z)) :=
  if start <? len then
    match fuel with
    | O => None
    | S fuel' =>
      let hard_end := Z.min (wadd start max) len in
      match cdc_scan (length bytes) bytes start start hard_end min mask rolling with
      | None => None
      | Some (end_, rolling') =>
        match cdc_loop fuel' bytes end_ len min max mask rolling' with
        | Some ranges => Some ((start, end_) :: ranges)
        | None => None
        end
      end
    end
  else Some [].

Definition cdc_target (target : Z) : Z := Z.max target 1024.
Definition cdc_min (target : Z) : Z := Z.min (Z.max (cdc_target target / 4) 1024) (cdc_target target).
Definition cdc_max (target : Z) : Z := Z.max (wmul (cdc_target target) 4) (cdc_min target + 1).
Definition cdc_mask (target : Z) : Z :=
  Z.max (saturating_sub (next_power_of_two (cdc_target target)) 1) 1.

Definition content_defined_ranges (bytes : list Z) (target : Z) : option (list (Z * Z)) :=
  let len := Z.of_nat (length bytes) in
  cdc_loop (length bytes) bytes 0 len (cdc_min target) (cdc_max target) (cdc_mask target) 0.

Definition chunk_ranges_for_bytes (chunking : string) (chunk_size : Z) (bytes : list Z)
    : option (list (Z * Z)) :=
  if (chunking =? "fastcdc")%string then content_defined_ranges bytes chunk_size
  else fixed_ranges (Z.of_nat (length bytes)) chunk_size.

Definition validate_chunking (chunking : string) : result unit string :=
  if str_matches ["fixed"; "fastcdc"] chunking then Ok tt
  else Err "large chunking must be fixed or fastcdc".

(** [&bytes[start..end]] *)
Definition slice (bytes : list Z) (r : Z * Z) : list Z :=
  take (Z.to_nat (r.2 - r.1)) (drop (Z.to_nat r.1) bytes).

(** Non-empty ranges that follow each other from [lo] to [hi]. *)
Fixpoint tiles (lo hi : Z) (ranges : list (Z * Z)) : Prop :=
  match ranges with
  | [] => lo = hi
  | (a, b) :: ranges' => a = lo ∧ a < b ∧ b <= hi ∧ tiles b hi ranges'
  end.

Definition range_len (r : Z * Z) : Z := r.2 - r.1.

(** All ranges but the last satisfy [P]. *)
Definition all_but_last {A} (P : A → Prop) (l : list A) : Prop := Forall P (removelast l).

(** ** Tilings *)

Lemma tiles_le lo hi rs : tiles lo hi rs → lo <= hi.
Proof.
  revert lo; induction rs as [|[a b] rs IH]; intros lo; simpl; [lia|].
  intros (-> & ? & ? & H). apply IH in H. lia.
Qed.

Lemma tiles_concat bytes lo rs :
  0 <= lo → tiles lo (Z.of_nat (length bytes)) rs →
  concat (slice bytes <$> rs) = drop (Z.to_nat lo) bytes.
Proof.
  revert lo; induction rs as [|[a b] rs IH]; intros lo Hlo; csimpl.
  - intros ->. rewrite Nat2Z.id. by rewrite drop_all.
  - intros (-> & Hab & Hb & Htl). rewrite (IH b) by (done || lia). unfold slice; simpl.
    replace (Z.to_nat b) with (Z.to_nat lo + Z.to_nat (b - lo))%nat by lia.
    rewrite <-drop_drop. apply take_drop.
Qed.

(** Cutting a byte string along a tiling and concatenating gives it back. *)
Lemma tiles_reassemble bytes rs :
  tiles 0 (Z.of_nat (length bytes)) rs → concat (slice bytes <$> rs) = bytes.
Proof. intros H. rewrite (tiles_concat bytes 0) by done. by rewrite drop_0. Qed.

Lemma all_but_last_cons {A} (P : A → Prop) x l :
  all_but_last P l → (l ≠ [] → P x) → all_but_last P (x :: l).
Proof. unfold all_but_last. destruct l; simpl; [constructor|]. intros. constructor; auto. Qed.

(** ** Fixed-size chunks *)

Lemma fixed_loop_spec fuel start len cs :
  0 <= start <= len → len <= isize_max → 1 <= cs <= usize_max →
  start = 0 ∨ cs < len ∨ start = len → len - start <= Z.of_nat fuel →
  ∃ rs, fixed_loop fuel start len cs = Some rs ∧ tiles start len rs ∧
        Forall (λ r, range_len r <= cs) rs ∧ all_but_last (λ r, range_len r = cs) rs.
Proof.
  unfold isize_max, usize_max.
  revert start; induction fuel as [|fuel IH]; intros start Hs Hl Hc Hinv Hf;
    cbn [fixed_loop]; destruct (Z.ltb_spec start len) as [Hlt|Hge].
  - lia.
  - exists []. split_and!; [done|simpl; lia|constructor..].
  - unfold wadd. rewrite wrap64_small by (unfold is_u64, u64_max; lia).
    destruct (IH (Z.min (start + cs) len)) as (rs & -> & Ht & Hle & Heq); [lia..|].
    exists ((start, Z.min (start + cs) len) :: rs). split_and!; [done|simpl; split_and!; (lia || done)|..].
    + constructor; [unfold range_len; simpl; lia|done].
    + apply all_but_last_cons; [done|]. intros Hne. unfold range_len; simpl.
      destruct rs as [|[a b] rs]; [done|]. simpl in Ht. lia.
  - exists []. split_and!; [done|simpl; lia|constructor..].
Qed.

Lemma fixed_ranges_ok len chunk_size :
  0 <= len <= isize_max → 0 <= chunk_size <= usize_max →
  ∃ rs, fixed_ranges len chunk_size = Some rs ∧ tiles 0 len rs ∧
        Forall (λ r, range_len r <= Z.max chunk_size 1) rs ∧
        all_but_last (λ r, range_len r = Z.max chunk_size 1) rs.
Proof.
  intros Hl Hc. unfold fixed_ranges, usize_max in *.
  apply fixed_loop_spec; unfold usize_max; lia.
Qed.

(** Fixed chunking, for every file length a slice can have and every
    configured chunk size (0 is taken as 1): the loop ends, no [usize]
    addition wraps, the ranges tile the file, and every chunk but the last has
    exactly the chunk size. *)
Theorem fixed_ranges_spec len chunk_size :
  0 <= len <= isize_max → 0 <= chunk_size <= usize_max →
  ∃ rs, fixed_ranges len chunk_size = Some rs ∧ tiles 0 len rs ∧
        Forall (λ r, range_len r <= Z.max chunk_size 1) rs ∧
        all_but_last (λ r, range_len r = Z.max chunk_size 1) rs.
Proof. apply fixed_ranges_ok. Qed.

(** ** Content-defined chunks *)

Lemma cdc_scan_spec fuel bytes start i hard_end min mask rolling :
  0 <= start <= i → i <= hard_end <= Z.of_nat (length bytes) → hard_end - i <= Z.of_nat fuel →
  ∃ end_ rolling', cdc_scan fuel bytes start i hard_end min mask rolling = Some (end_, rolling') ∧
    i <= end_ <= hard_end ∧ (i < hard_end → i < end_) ∧
    (end_ < hard_end → min <= end_ - start).
Proof.
  revert i rolling; induction fuel as [|fuel IH]; intros i rolling Hi Hh Hf;
    cbn [cdc_scan]; destruct (Z.ltb_spec i hard_end) as [Hlt|Hge].
  - lia.
  - exists hard_end, rolling. split_and!; (done || lia).
  - destruct (lookup_lt_is_Some_2 bytes (Z.to_nat i)) as [byte ->]; [lia|].
    destruct ((min <=? i + 1 - start) && _) eqn:Hcut.
    + apply andb_true_iff in Hcut as [Hm%Z.leb_le _].
      exists (i + 1), (rolling_step rolling byte). split_and!; (done || lia).
    + destruct (IH (i + 1) (rolling_step rolling byte)) as (e & r & He & ? & ? & ?); [lia..|].
      exists e, r. split_and!; [done|lia..|done].
  - exists hard_end, rolling. split_and!; (done || lia).
Qed.

Lemma cdc_loop_spec fuel bytes start min max mask rolling :
  let len := Z.of_nat (length bytes) in
  0 <= start <= len → len <= isize_max → 1 <= min <= max → max <= 2 ^ 63 →
  len - start <= Z.of_nat fuel →
  ∃ rs, cdc_loop fuel bytes start len min max mask rolling = Some rs ∧ tiles start len rs ∧
        Forall (λ r, range_len r <= max) rs ∧ all_but_last (λ r, min <= range_len r) rs.
Proof.
  intros len. unfold isize_max.
  revert start rolling; induction fuel as [|fuel IH]; intros start rolling Hs Hl Hmin Hmax Hf;
    cbn [cdc_loop]; destruct (Z.ltb_spec start len) as [Hlt|Hge].
  - lia.
  - exists []. split_and!; [done|simpl; lia|constructor..].
  - unfold wadd. rewrite wrap64_small by (unfold is_u64, u64_max; lia).
    destruct (cdc_scan_spec (length bytes) bytes start start (Z.min (start + max) len) min mask rolling)
      as (e & r & -> & He & Hpos & Hcut); [lia..|].
    destruct (IH e r) as (rs & -> & Ht & Hle & Hge); [lia..|].
    exists ((start, e) :: rs). split_and!; [done|simpl; split_and!; (lia || done)|..].
    + constructor; [unfold range_len; simpl; lia|done].
    + apply all_but_last_cons; [done|]. intros Hne. unfold range_len; simpl.
      destruct rs as [|[a b] rs]; [done|]. simpl in Ht.
      destruct (decide (e < Z.min (start + max) len)); lia.
  - exists []. split_and!; [done|simpl; lia|constructor..].
Qed.

Lemma cdc_params target :
  0 <= target <= 2 ^ 61 →
  cdc_max target = 4 * Z.max target 1024 ∧ 1024 <= cdc_min target ∧
  cdc_min target <= Z.max target 1024 ∧ cdc_max target <= 2 ^ 63.
Proof.
  intros Ht. unfold cdc_max, cdc_min, cdc_target, wmul.
  rewrite wrap64_small by (unfold is_u64, u64_max; lia).
  pose proof (Z.div_le_upper_bound (Z.max target 1024) 4 (Z.max target 1024)). lia.
Qed.

Lemma content_defined_ranges_ok bytes target :
  Z.of_nat (length bytes) <= isize_max → 0 <= target <= 2 ^ 61 →
  ∃ rs, content_defined_ranges bytes target = Some rs ∧
        tiles 0 (Z.of_nat (length bytes)) rs ∧
        Forall (λ r, range_len r <= 4 * Z.max target 1024) rs ∧
        all_but_last (λ r, cdc_min target <= range_len r) rs.
Proof.
  intros Hl Ht. destruct (cdc_params target Ht) as (Hmax & Hmin & Hle & Hb).
  unfold content_defined_ranges. rewrite <-Hmax.
  apply cdc_loop_spec; lia.
Qed.

(** C35. Content-defined chunking, for every file a slice can hold and targets
    up to 2^61: the loops end, no [usize] operation wraps, no byte index is out
    of range, the ranges tile the file, no chunk exceeds four times the target,
    and every chunk but the last has at least the minimum size. *)
Theorem content_defined_ranges_spec bytes target :
  Z.of_nat (length bytes) <= isize_max → 0 <= target <= 2 ^ 61 →
  ∃ rs, content_defined_ranges bytes target = Some rs ∧
        tiles 0 (Z.of_nat (length bytes)) rs ∧
        Forall (λ r, range_len r <= 4 * Z.max target 1024) rs ∧
        all_but_last (λ r, cdc_min target <= range_len r) rs.
Proof. apply content_defined_ranges_ok. Qed.

(** ** Appending to a file *)

Lemma cdc_scan_app fuel fuel' bytes more start i he he' min mask rolling e r :
  (fuel <= fuel')%nat → he <= he' → cdc_scan fuel bytes start i he min mask rolling = Some (e, r) →
  e < he ∨ he' = he → cdc_scan fuel' (bytes ++ more) start i he' min mask rolling = Some (e, r).
Proof.
  revert fuel' i rolling; induction fuel as [|fuel IH]; intros fuel' i rolling Hf Hhe Hscan Hor;
    cbn [cdc_scan] in Hscan; destruct (Z.ltb_spec i he) as [Hlt|Hge]; try done.
  - simplify_eq. destruct Hor as [|Hhe']; [lia|]. destruct fuel'; cbn [cdc_scan];
      destruct (Z.ltb_spec i he'); (lia || congruence).
  - destruct (bytes !! Z.to_nat i) as [byte|] eqn:Hb; [|done].
    destruct fuel' as [|fuel']; [lia|]. cbn [cdc_scan].
    destruct (Z.ltb_spec i he'); [|lia]. rewrite (lookup_app_l_Some _ _ _ _ Hb).
    destruct (_ && _); [done|]. apply IH; (done || lia).
  - simplify_eq. destruct Hor as [|Hhe']; [lia|]. destruct fuel'; cbn [cdc_scan];
      destruct (Z.ltb_spec i he'); (lia || congruence).
Qed.

Lemma cdc_scan_le fuel bytes start i he min mask rolling e r :
  cdc_scan fuel bytes start i he min mask rolling = Some (e, r) → e <= he.
Proof.
  revert i rolling; induction fuel as [|fuel IH]; intros i rolling; cbn [cdc_scan];
    destruct (Z.ltb_spec i he); try done; [intros [= <- <-]; lia| |intros [= <- <-]; lia].
  destruct (bytes !! _); [|done]. destruct (_ && _); [intros [= <- <-]; lia|]. apply IH.
Qed.

Lemma cdc_loop_nonempty fuel bytes start len min max mask rolling rs :
  cdc_loop fuel bytes start len min max mask rolling = Some rs → rs ≠ [] → start < len.
Proof. destruct fuel; cbn [cdc_loop]; destruct (Z.ltb_spec start len); naive_solver. Qed.

Lemma fixed_loop_nonempty fuel start len cs rs :
  fixed_loop fuel start len cs = Some rs → rs ≠ [] → start < len.
Proof. destruct fuel; cbn [fixed_loop]; destruct (Z.ltb_spec start len); naive_solver. Qed.

Lemma removelast_cons {A} (x : A) l : l ≠ [] → removelast (x :: l) = x :: removelast l.
Proof. by destruct l. Qed.

Lemma cdc_loop_app fuel fuel' bytes more start min max mask rolling rs rs' :
  let len := Z.of_nat (length bytes) in
  let len' := Z.of_nat (length (bytes ++ more)) in
  cdc_loop fuel bytes start len min max mask rolling = Some rs →
  cdc_loop fuel' (bytes ++ more) start len' min max mask rolling = Some rs' →
  ∃ rest, rs' = removelast rs ++ rest.
Proof.
  intros len len'. assert (len <= len') by (unfold len, len'; rewrite length_app; lia).
  revert fuel' start rolling rs rs'.
  induction fuel as [|fuel IH]; intros fuel' start rolling rs rs' H1 H2;
    cbn [cdc_loop] in H1; destruct (Z.ltb_spec start len); simplify_eq; [by eexists..| |by eexists].
  destruct (cdc_scan _ bytes _ _ _ _ _ _) as [[e r]|] eqn:Hscan; [|done].
  destruct (cdc_loop fuel bytes e len _ _ _ _) as [rs1|] eqn:Hrs1; simplify_eq.
  destruct (decide (rs1 = [])) as [->|Hne]; [by eexists|].
  pose proof (cdc_loop_nonempty _ _ _ _ _ _ _ _ _ Hrs1 Hne) as He.
  rewrite removelast_cons by done.
  destruct fuel' as [|fuel']; cbn [cdc_loop] in H2; destruct (Z.ltb_spec start len'); try lia; [done|].
  assert (cdc_scan (length (bytes ++ more)) (bytes ++ more) start start
            (Z.min (wadd start max) len') min mask rolling = Some (e, r)) as Hscan'.
  { apply cdc_scan_le in Hscan as Hle.
    apply (cdc_scan_app (length bytes)) with (he := Z.min (wadd start max) len);
      [rewrite length_app; lia|lia|exact Hscan|lia]. }
  rewrite Hscan' in H2.
  destruct (cdc_loop fuel' _ _ _ _ _ _ _) as [rs1'|] eqn:Hrs1'; simplify_eq.
  destruct (IH _ _ _ _ _ Hrs1 Hrs1') as [rest ->]. by exists rest.
Qed.

Lemma fixed_loop_app fuel fuel' start len len' cs rs rs' :
  len <= len' → fixed_loop fuel start len cs = Some rs → fixed_loop fuel' start len' cs = Some rs' →
  ∃ rest, rs' = removelast rs ++ rest.
Proof.
  intros Hlen. revert fuel' start rs rs'.
  induction fuel as [|fuel IH]; intros fuel' start rs rs' H1 H2;
    cbn [fixed_loop] in H1; destruct (Z.ltb_spec start len); simplify_eq; [by eexists..| |by eexists].
  destruct (fixed_loop fuel _ len cs) as [rs1|] eqn:Hrs1; simplify_eq.
  destruct (decide (rs1 = [])) as [->|Hne]; [by eexists|].
  pose proof (fixed_loop_nonempty _ _ _ _ _ Hrs1 Hne) as He.
  rewrite removelast_cons by done.
  destruct fuel' as [|fuel']; cbn [fixed_loop] in H2; destruct (Z.ltb_spec start len'); try lia; [done|].
  replace (Z.min (wadd start cs) len') with (Z.min (wadd start cs) len) in H2 by lia.
  destruct (fixed_loop fuel' _ len' cs) as [rs1'|] eqn:Hrs1'; simplify_eq.
  destruct (IH _ _ _ _ Hrs1 Hrs1') as [rest ->]. by exists rest.
Qed.

(** Chunking succeeds and tiles the file, whatever the chunking name. *)
Lemma chunk_ranges_tile chunking chunk_size bytes :
  Z.of_nat (length bytes) <= isize_max → 0 <= chunk_size <= 2 ^ 61 →
  ∃ rs, chunk_ranges_for_bytes chunking chunk_size bytes = Some rs ∧
        tiles 0 (Z.of_nat (length bytes)) rs.
Proof.
  intros Hl Hc. unfold chunk_ranges_for_bytes. destruct (_ =? _)%string.
  - destruct (content_defined_ranges_ok bytes chunk_size) as (rs & -> & ? & _); eauto.
  - destruct (fixed_ranges_ok (Z.of_nat (length bytes)) chunk_size) as (rs & -> & ? & _);
      [lia|unfold usize_max; lia|eauto].
Qed.

(** Chunks of a grown file: appending bytes keeps every chunk boundary
    except the end of the last chunk, for both chunking methods, so all stored
    chunks but the last are reused. *)
Theorem chunk_ranges_append_stable chunking chunk_size bytes more rs :
  Z.of_nat (length (bytes ++ more)) <= isize_max → 0 <= chunk_size <= 2 ^ 61 →
  chunk_ranges_for_bytes chunking chunk_size bytes = Some rs →
  ∃ rest, chunk_ranges_for_bytes chunking chunk_size (bytes ++ more) = Some (removelast rs ++ rest).
Proof.
  intros Hl Hc H1.
  destruct (chunk_ranges_tile chunking chunk_size (bytes ++ more)) as (rs' & H2 & _); [done..|].
  rewrite H2. unfold chunk_ranges_for_bytes in *. destruct (_ =? _)%string.
  - unfold content_defined_ranges in *. destruct (cdc_loop_app _ _ _ _ _ _ _ _ _ _ _ H1 H2) as [rest ->].
    by exists rest.
  - unfold fixed_ranges in *.
    assert (Z.of_nat (length bytes) <= Z.of_nat (length (bytes ++ more))) as Hle
      by (rewrite length_app; lia).
    destruct (fixed_loop_app _ _ _ _ _ _ _ _ Hle H1 H2) as [rest ->]. by exists rest.
Qed.

(** ** The rolling hash *)

Lemma rolling_step_range r b : is_u64 (rolling_step r b).
Proof. apply wrap64_range. Qed.

Lemma rolling_step_inj r1 r2 b :
  is_u64 r1 → is_u64 r2 → rolling_step r1 b = rolling_step r2 b → r1 = r2.
Proof.
  intros H1 H2 H. apply rotate_left1_inj; [done..|].
  apply (wadd_inj _ _ b); [by apply rotate_left1_range..|].
  eapply (wmul_inj ROLL_MUL 0x0887493432BADB37); [|apply wrap64_range..|done].
  vm_compute. reflexivity.
Qed.

(** The hash state after reading some bytes; it is never reset, so at every
    point of a file it is a function of the whole file up to there. *)
Definition rolling_after (rolling : Z) (bytes : list Z) : Z := fold_left rolling_step bytes rolling.

Lemma rolling_after_range r bytes : is_u64 r → is_u64 (rolling_after r bytes).
Proof.
  revert r; induction bytes as [|b bytes IH]; intros r Hr; [done|].
  apply IH, rolling_step_range.
Qed.

Lemma rolling_after_inj r1 r2 bytes :
  is_u64 r1 → is_u64 r2 → rolling_after r1 bytes = rolling_after r2 bytes → r1 = r2.
Proof.
  revert r1 r2; induction bytes as [|b bytes IH]; intros r1 r2 H1 H2 H; [done|].
  apply (rolling_step_inj _ _ b); [done..|].
  apply IH; auto using rolling_step_range.
Qed.

Lemma slice_cons bytes i e byte :
  0 <= i → i < e → bytes !! Z.to_nat i = Some byte → slice bytes (i, e) = byte :: slice bytes (i + 1, e).
Proof.
  intros Hi He Hb. unfold slice; simpl. rewrite (drop_S _ _ _ Hb).
  replace (Z.to_nat (e - i)) with (S (Z.to_nat (e - (i + 1)))) by lia.
  replace (Z.to_nat (i + 1)) with (S (Z.to_nat i)) by lia. done.
Qed.

Lemma cdc_scan_rolling fuel bytes start i he min mask rolling e r :
  0 <= i <= he → cdc_scan fuel bytes start i he min mask rolling = Some (e, r) →
  i <= e ∧ r = rolling_after rolling (slice bytes (i, e)).
Proof.
  revert i rolling; induction fuel as [|fuel IH]; intros i rolling Hi; cbn [cdc_scan];
    destruct (Z.ltb_spec i he); try done.
  - intros [= <- <-]. split; [lia|]. unfold slice; simpl. by replace (Z.to_nat (he - i)) with 0%nat by lia.
  - destruct (bytes !! Z.to_nat i) as [byte|] eqn:Hb; [|done].
    destruct (_ && _).
    + intros [= <- <-]. split; [lia|]. rewrite (slice_cons _ _ _ byte) by (done || lia).
      unfold slice; simpl. by replace (Z.to_nat (i + 1 - (i + 1))) with 0%nat by lia.
    + intros Hs. apply IH in Hs as [? ->]; [|lia]. split; [lia|].
      by rewrite (slice_cons _ i _ byte) by (done || lia).
  - intros [= <- <-]. split; [lia|]. unfold slice; simpl. by replace (Z.to_nat (he - i)) with 0%nat by lia.
Qed.

(** The rolling hash does not forget: if two files differ so that the hash
    differs after their different beginnings [p] and [q], then it differs after
    every further common byte.  The cut test reads this hash, so chunk
    boundaries after an edit are not determined by nearby content. *)
Theorem rolling_hash_never_resynchronises p q common :
  rolling_after 0 p ≠ rolling_after 0 q →
  ∀ n, rolling_after 0 (p ++ take n common) ≠ rolling_after 0 (q ++ take n common).
Proof.
  intros Hpq n Heq. apply Hpq. unfold rolling_after in Heq. rewrite !fold_left_app in Heq.
  eapply rolling_after_inj; [apply rolling_after_range..|exact Heq]; done.
Qed.

(** ** Compression of one chunk

    [f64] is IEEE binary64, as the Standard Library's [SpecFloat] computes it. *)

Definition f64 : Type := spec_float.
Definition f64_of_Z (z : Z) : f64 := binary_normalize 53 1024 z 0 false.
Definition f64_sub : f64 → f64 → f64 := SFsub 53 1024.
Definition f64_div : f64 → f64 → f64 := SFdiv 53 1024.

Definition compression_gain (original_len stored_len : Z) : f64 :=
  f64_sub (f64_of_Z 1) (f64_div (f64_of_Z stored_len) (f64_of_Z (Z.max original_len 1))).

(** The [zstd] crate: compression at a level, and decompression. *)
Class Zstd := {
  zstd_encode_all : list Z → Z → result (list Z) string;
  zstd_decode_all : list Z → result (list Z) string;
}.
Class ZstdLaws `{!Zstd} : Prop := {
  zstd_roundtrip bytes level out :
    zstd_encode_all bytes level = Ok out → zstd_decode_all out = Ok bytes;
}.

Record StoredLargeChunk := { slc_bytes : list Z; slc_compression : string }.

Record CompressionInput := {
  ci_bytes : list Z;
  ci_enabled : bool;
  ci_algorithm : string;
  ci_level : Z;
  ci_sample_bytes : Z;
  ci_min_gain_ratio : f64;
  ci_skip_extensions : list string;
  ci_file_name : string;
}.

Definition glob_match (pattern name : string) : bool :=
  if (pattern =? "*")%string then true else
  match strip_prefix "*." pattern with
  | Some suffix => ends_with name ("." +:+ suffix)
  | None =>
    match strip_suffix "*" pattern with
    | Some prefix => starts_with name prefix
    | None => (pattern =? name)%string
    end
  end.

Definition should_compress (enabled : bool) (algorithm : string) (skip_extensions : list string)
    (file_name : string) : bool :=
  enabled && (algorithm =? "zstd")%string &&
  negb (existsb (λ pattern, glob_match pattern file_name) skip_extensions).

Definition stored_raw (bytes : list Z) : StoredLargeChunk :=
  {| slc_bytes := bytes; slc_compression := "none" |}.

Definition compress_chunk_if_useful `{!Zstd} (input : CompressionInput)
    : result StoredLargeChunk string :=
  let len := Z.of_nat (length (ci_bytes input)) in
  if negb (should_compress (ci_enabled input) (ci_algorithm input)
             (ci_skip_extensions input) (ci_file_name input))
  then Ok (stored_raw (ci_bytes input))
  else
    let full :=
      let? compressed := zstd_encode_all (ci_bytes input) (ci_level input) in
      let gain := compression_gain len (Z.of_nat (length compressed)) in
      if SFleb (ci_min_gain_ratio input) gain
      then Ok {| slc_bytes := compressed; slc_compression := "zstd" |}
      else Ok (stored_raw (ci_bytes input)) in
    let sample_len := Z.min (ci_sample_bytes input) len in
    if (0 <? sample_len) && (sample_len <? len) then
      let sample := take (Z.to_nat sample_len) (ci_bytes input) in
      let? compressed_sample := zstd_encode_all sample (ci_level input) in
      let sample_gain := compression_gain sample_len (Z.of_nat (length compressed_sample)) in
      if SFltb sample_gain (ci_min_gain_ratio input)
      then Ok (stored_raw (ci_bytes input))
      else full
    else full.

(** [decode_large_chunk_payload] of [src/main.rs]. *)
Definition decode_large_chunk_payload `{!Zstd} (compression : string) (bytes : list Z)
    : result (list Z) string :=
  if (compression =? "none")%string then Ok bytes
  else if (compression =? "zstd")%string then zstd_decode_all bytes
  else Err ("unsupported large chunk compression: " +:+ compression).

Lemma compress_decode `{!Zstd, !ZstdLaws} input stored :
  compress_chunk_if_useful input = Ok stored →
  decode_large_chunk_payload (slc_compression stored) (slc_bytes stored) = Ok (ci_bytes input).
Proof.
  unfold compress_chunk_if_useful.
  assert (∀ stored, Ok (stored_raw (ci_bytes input)) = (Ok stored : result _ string) →
    decode_large_chunk_payload (slc_compression stored) (slc_bytes stored) = Ok (ci_bytes input)) as Hraw.
  { intros ? [= <-]. done. }
  assert (∀ stored, result_bind (zstd_encode_all (ci_bytes input) (ci_level input)) (λ compressed,
      let gain := compression_gain (Z.of_nat (length (ci_bytes input))) (Z.of_nat (length compressed)) in
      if SFleb (ci_min_gain_ratio input) gain
      then Ok {| slc_bytes := compressed; slc_compression := "zstd" |}
      else Ok (stored_raw (ci_bytes input))) = Ok stored →
    decode_large_chunk_payload (slc_compression stored) (slc_bytes stored) = Ok (ci_bytes input)) as Hfull.
  { intros st (c & Hc & Hst)%result_bind_Ok. simpl in Hst.
    destruct (SFleb _ _); [|by apply Hraw]. simplify_eq/=.
    unfold decode_large_chunk_payload; simpl. by eapply zstd_roundtrip. }
  destruct (negb _); [apply Hraw|].
  destruct (_ && _); [|apply Hfull].
  intros (c & Hc & Hst)%result_bind_Ok. simpl in Hst.
  destruct (SFltb _ _); [by apply Hraw|by apply Hfull].
Qed.

(** ** Exported metadata and its validators *)

Record LargeObjectExport := {
  loe_oid : string;
  loe_size : Z;
  loe_chunk_count : Z;
  loe_manifest_key : string;
}.

Inductive LargeManifestIssue :=
| LmOidMismatch (expected actual : string)
| LmSizeMismatch (expected actual : Z)
| LmChunkCountMismatch (expected actual : Z).

Definition large_manifest_issues (actual : LargeManifest) (expected : LargeObjectExport)
    : list LargeManifestIssue :=
  (if negb (lm_oid actual =? loe_oid expected)%string
   then [LmOidMismatch (loe_oid expected) (lm_oid actual)] else []) ++
  (if negb (lm_size actual =? loe_size expected)
   then [LmSizeMismatch (loe_size expected) (lm_size actual)] else []) ++
  (if negb (Z.of_nat (length (lm_chunks actual)) =? loe_chunk_count expected)
   then [LmChunkCountMismatch (loe_chunk_count expected) (Z.of_nat (length (lm_chunks actual)))]
   else []).

Record ChunkExport := { ce_oid : string; ce_size : Z; ce_object_key : string }.

Definition matches_chunk_ref (e : ChunkExport) (chunk : LargeChunk) : bool :=
  (ce_oid e =? lc_oid chunk)%string &&
  (ce_size e =? default (lc_len chunk) (lc_stored_len chunk)).

Record LargePinExport := { lp_oid : string; lp_pinned_at : string; lp_reason : option string }.

Definition LargePinExport_new `{!Chrono} (oid : string) (pinned_at : DateTime)
    (reason : option string) : LargePinExport :=
  {| lp_oid := oid; lp_pinned_at := to_rfc3339 pinned_at; lp_reason := reason |}.

Definition pinned_time `{!Chrono} (p : LargePinExport) : result DateTime string :=
  parse_from_rfc3339 (lp_pinned_at p).

Definition references_known_object (p : LargePinExport) (large_objects : list LargeObjectExport) : bool :=
  existsb (λ large, (loe_oid large =? lp_oid p)%string) large_objects.

Inductive LargePinIssue :=
| PinDangling (oid pinned_at : string)
| PinInvalidTimestamp (oid pinned_at : string).

Definition large_pin_issues `{!Chrono} (pins : list LargePinExport)
    (large_objects : list LargeObjectExport) : list LargePinIssue :=
  flat_map (λ pin,
    (if negb (references_known_object pin large_objects)
     then [PinDangling (lp_oid pin) (lp_pinned_at pin)] else []) ++
    (match pinned_time pin with
     | Err _ => [PinInvalidTimestamp (lp_oid pin) (lp_pinned_at pin)]
     | Ok _ => []
     end)) pins.

Lemma large_manifest_issues_nil actual expected :
  large_manifest_issues actual expected = [] ↔
  lm_oid actual = loe_oid expected ∧ lm_size actual = loe_size expected ∧
  Z.of_nat (length (lm_chunks actual)) = loe_chunk_count expected.
Proof.
  unfold large_manifest_issues.
  by rewrite !app_nil, !if_nil, !negb_false_iff, String.eqb_eq, !Z.eqb_eq.
Qed.

(** Pins are reported exactly when they are stale: the check is silent if
    and only if every pin names a known large object and carries a readable
    timestamp; pins made by [LargePinExport::new] always do the latter. *)
Theorem large_pin_issues_nil `{!Chrono, !ChronoLaws} pins large_objects :
  (large_pin_issues pins large_objects = [] ↔
   ∀ p, p ∈ pins → (∃ l, l ∈ large_objects ∧ loe_oid l = lp_oid p) ∧
                   ∃ t, parse_from_rfc3339 (lp_pinned_at p) = Ok t) ∧
  (∀ oid t reason, pinned_time (LargePinExport_new oid t reason) = Ok t).
Proof.
  split; [|intros; apply parse_to_rfc3339].
  unfold large_pin_issues. rewrite flat_map_nil.
  assert (∀ p, references_known_object p large_objects = true ↔
               ∃ l, l ∈ large_objects ∧ loe_oid l = lp_oid p) as Hk.
  { intros p. unfold references_known_object. rewrite existsb_elem_of.
    setoid_rewrite String.eqb_eq. done. }
  split; intros Hall p Hp; specialize (Hall p Hp).
  - apply app_nil in Hall as [H1 H2]. rewrite if_nil, negb_false_iff, Hk in H1.
    split; [done|]. unfold pinned_time in H2. destruct (parse_from_rfc3339 _); naive_solver.
  - destruct Hall as [H1%Hk [t Ht]]. unfold pinned_time. by rewrite H1, Ht.
Qed.

(** ** Defaults *)

Definition DEFAULT_LARGE_MIN_SIZE : Z := 64 * 1024 * 1024.
Definition DEFAULT_LARGE_BINARY_MIN_SIZE : Z := 16 * 1024 * 1024.
Definition DEFAULT_CHUNK_SIZE : Z := 8 * 1024 * 1024.
Definition default_chunked_min_size : Z := 512 * 1024.
Definition default_chunked_chunk_size : Z := 64 * 1024.
Definition DEFAULT_COMPRESSION_SAMPLE_BYTES : Z := 1024 * 1024.

Definition default_large_always_patterns : list string :=
  ["*.mp4"; "*.mov"; "*.mkv"; "*.zip"; "*.tar"; "*.tar.zst"; "*.parquet"; "*.sqlite"; "*.db";
   "*.vmdk"; "*.qcow2"; "*.iso"; "*.psd"; "*.blend"].
Definition default_large_never_patterns : list string :=
  ["*.rs"; "*.toml"; "*.yaml"; "*.json"; "*.md"].
Definition default_compression_skip_extensions : list string :=
  ["*.jpg"; "*.jpeg"; "*.png"; "*.heic"; "*.mp4"; "*.mov"; "*.zip"; "*.gz"; "*.zst"; "*.xz"; "*.parquet"].

(** The default chunk size is in the range of [content_defined_ranges_spec],
    and its cut mask is a full run of one bits. *)
Lemma default_cdc_params :
  cdc_min DEFAULT_CHUNK_SIZE = 2 * 1024 * 1024 ∧
  cdc_max DEFAULT_CHUNK_SIZE = 32 * 1024 * 1024 ∧
  cdc_mask DEFAULT_CHUNK_SIZE = Z.ones 23.
Proof. by vm_compute. Qed.

(** ** Concrete runs *)

Module LargeExample.
Import CoreExample.

Lemma fixed_ranges_spec_witness :
  ∃ rs, fixed_ranges 10 4 = Some rs ∧ tiles 0 10 rs ∧ Forall (λ r, range_len r <= 4) rs ∧
        all_but_last (λ r, range_len r = 4) rs.
Proof. apply (fixed_ranges_spec 10 4); vm_compute; split; discriminate. Defined.

Definition ex_bytes : list Z := repeat 5 3000.

Lemma content_defined_ranges_spec_witness :
  ∃ rs, content_defined_ranges ex_bytes 2048 = Some rs ∧
        tiles 0 (Z.of_nat (length ex_bytes)) rs ∧
        Forall (λ r, range_len r <= 4 * Z.max 2048 1024) rs ∧
        all_but_last (λ r, cdc_min 2048 <= range_len r) rs.
Proof.
  apply (content_defined_ranges_spec ex_bytes 2048); [vm_compute; discriminate|vm_compute; split; discriminate].
Defined.

Lemma chunk_ranges_append_stable_witness :
  chunk_ranges_for_bytes "fixed" 4 [1; 2; 3; 4; 5; 6] = Some [(0, 4); (4, 6)] ∧
  ∃ rest, chunk_ranges_for_bytes "fixed" 4 ([1; 2; 3; 4; 5; 6] ++ [7; 8; 9]) = Some ([(0, 4)] ++ rest).
Proof.
  split; [vm_compute; reflexivity|].
  apply (chunk_ranges_append_stable "fixed" 4 [1; 2; 3; 4; 5; 6] [7; 8; 9] [(0, 4); (4, 6)]).
  - vm_compute. discriminate.
  - vm_compute. split; discriminate.
  - vm_compute. reflexivity.
Defined.

(** One byte inserted at the front of a file. *)
Lemma rolling_hash_never_resynchronises_witness :
  rolling_after 0 ([1; 2] ++ take 900 ex_bytes) ≠ rolling_after 0 ([9; 1; 2] ++ take 900 ex_bytes).
Proof. exact (rolling_hash_never_resynchronises [1; 2] [9; 1; 2] ex_bytes ltac:(vm_compute; discriminate) 900%nat). Defined.

Lemma large_pin_issues_nil_witness :
  large_pin_issues [LargePinExport_new "o" 7 None] [] ≠ [] ∧
  pinned_time (LargePinExport_new "o" 7 None) = Ok 7.
Proof.
  split; [vm_compute; discriminate|]. apply (proj2 (large_pin_issues_nil [] [])).
Defined.

End LargeExample.
