(* ===== verification/Config.v ===== *)
(** * Configuration records

    The parts of [src/config.rs] the modelled code reads. *)

From S2P Require Import Prelude Core Large.

Record LargeCompressionConfig := {
  lcc_enabled : bool;
  lcc_algorithm : string;
  lcc_level : Z;
  lcc_sample_bytes : Z;
  lcc_min_gain_ratio : f64;
  lcc_skip_extensions : list string;
}.

Record LargeConfig := {
  lg_enabled : bool;
  lg_min_size : Z;
  lg_binary_min_size : Z;
  lg_chunked_min_size : Z;
  lg_chunked_chunk_size : Z;
  lg_default_chunking : string;
  lg_chunk_size : Z;
  lg_max_parallel_uploads : Z;
  lg_multipart : bool;
  lg_always : list string;
  lg_never : list string;
  lg_compression : LargeCompressionConfig;
}.

Record RootLargeConfig := {
  rl_min_size : option Z;
  rl_binary_min_size : option Z;
  rl_chunked_min_size : option Z;
  rl_chunked_chunk_size : option Z;
  rl_default_chunking : option string;
  rl_chunk_size : option Z;
  rl_always : list string;
  rl_never : list string;
}.

Record RootVolatileConfig := {
  rv_patterns : list string;
  rv_mode : string;
}.

Record RootDegraded := { rd_kind : string; rd_at : DateTime; rd_message : string }.

Record RootConfig := {
  rc_id : string;
  rc_name : string;
  rc_path : string;
  rc_include : list string;
  rc_exclude : list string;
  rc_explicit_track : list string;
  rc_explicit_untrack : list string;
  rc_follow_symlinks : bool;
  rc_require_mount : bool;
  rc_status : string;
  rc_degraded : option RootDegraded;
  rc_snapshot_mode : string;
  rc_pre_snapshot : option string;
  rc_post_snapshot : option string;
  rc_snapshot_source : option string;
  rc_application_plugin : option string;
  rc_large : option RootLargeConfig;
  rc_volatile : option RootVolatileConfig;
}.

Record PackConfig := { pc_small_pack_target : Z; pc_normal_pack_target : Z }.
