(* ===== verification/Policy.v ===== *)
(** * majutsu-policy: retention and tiering

    [src/internal/majutsu_policy.rs]: which snapshots a prune keeps, and the
    lifecycle policies generated for a bucket. *)

From S2P Require Import Prelude RStr BTree Core Xml.

Local Open Scope Z_scope.

(** ** Retention *)

Record SnapshotPruneInput := { spi_id : string; spi_created_at : DateTime }.
Record SnapshotPrunePlan := { spp_keep : list string; spp_delete : list string }.

Section Retention.
Context `{!Chrono}.

Definition day_key (t : DateTime) : string :=
  fmt_year (dt_year t) +:+ "-" +:+ pad0 2 (Z.to_N (dt_month t)) +:+ "-" +:+ pad0 2 (Z.to_N (dt_day t)).
Definition month_key (t : DateTime) : string :=
  fmt_year (dt_year t) +:+ "-" +:+ pad0 2 (Z.to_N (dt_month t)).

(** The three sets of the loop. *)
Record PruneSets := { ps_keep : list string; ps_daily : list string; ps_monthly : list string }.

(** [set.len() < limit && set.insert(key)]: whether the key was inserted, and the set. *)
Definition insert_limited (limit : Z) (key : string) (set : list string) : bool * list string :=
  if Z.of_nat (length set) <? limit then bset_add key set else (false, set).

Definition prune_step (keep_daily keep_monthly : Z) (s : PruneSets) (snapshot : SnapshotPruneInput)
    : PruneSets :=
  let '(d, daily) := insert_limited keep_daily (day_key (spi_created_at snapshot)) (ps_daily s) in
  let keep := if d : bool then bset_insert (spi_id snapshot) (ps_keep s) else ps_keep s in
  let '(m, monthly) := insert_limited keep_monthly (month_key (spi_created_at snapshot)) (ps_monthly s) in
  let keep' := if m : bool then bset_insert (spi_id snapshot) keep else keep in
  {| ps_keep := keep'; ps_daily := daily; ps_monthly := monthly |}.

Definition build_snapshot_prune_plan (snapshots_newest_first : list SnapshotPruneInput)
    (current : option string) (keep_daily keep_monthly : Z) : SnapshotPrunePlan :=
  let keep0 := match current with Some c => bset_insert c [] | None => [] end in
  let s := fold_left (prune_step keep_daily keep_monthly) snapshots_newest_first
             {| ps_keep := keep0; ps_daily := []; ps_monthly := [] |} in
  {| spp_keep := ps_keep s;
     spp_delete := filter (λ id, binary_search (ps_keep s) id = false) (map spi_id snapshots_newest_first) |}.

(** *** Specification: the first snapshot of each of the first [limit] periods *)

Definition distinct (keys : list string) : nat := length (bset_of_list keys).

Definition first_of_period (key : DateTime → string) (limit : Z) (before : list SnapshotPruneInput)
    (x : SnapshotPruneInput) : Prop :=
  let keys := map (λ y, key (spi_created_at y)) before in
  (key (spi_created_at x) ∉ keys) ∧ Z.of_nat (distinct keys) < limit.

Definition retained (keep_daily keep_monthly : Z) (before : list SnapshotPruneInput)
    (x : SnapshotPruneInput) : Prop :=
  first_of_period day_key keep_daily before x ∨ first_of_period month_key keep_monthly before x.

(** A limited set holds all keys seen, until it is full. *)
Definition limited_ok (limit : Z) (keys set : list string) : Prop :=
  bsorted set ∧
  ((Z.of_nat (length set) < limit ∧ set = bset_of_list keys) ∨
   (limit <= Z.of_nat (length set) ∧ Z.of_nat (length set) <= Z.max limit 0 ∧
    limit <= Z.of_nat (distinct keys))).

Lemma bset_of_list_snoc keys k : bset_of_list (keys ++ [k]) = bset_insert k (bset_of_list keys).
Proof. unfold bset_of_list, bset_extend. by rewrite fold_left_app. Qed.

Lemma distinct_snoc keys k :
  distinct (keys ++ [k]) = if bset_contains (bset_of_list keys) k then distinct keys else S (distinct keys).
Proof.
  unfold distinct. rewrite bset_of_list_snoc, bset_insert_length; [done|]. apply bset_of_list_sorted.
Qed.

Lemma insert_limited_spec limit key keys set b set' :
  limited_ok limit keys set → insert_limited limit key set = (b, set') →
  limited_ok limit (keys ++ [key]) set' ∧
  (b = true ↔ (key ∉ keys) ∧ Z.of_nat (distinct keys) < limit).
Proof.
  intros [Hs Hor]. unfold insert_limited, bset_add. destruct (Z.ltb_spec (Z.of_nat (length set)) limit) as [Hlt|Hge].
  - intros [= <- <-]. destruct Hor as [[_ ->]|[? _]]; [|lia]. fold (distinct keys) in *. split.
    + split; [by apply bset_insert_sorted|].
      rewrite <-bset_of_list_snoc. fold (distinct (keys ++ [key])).
      destruct (Z.lt_ge_cases (Z.of_nat (distinct (keys ++ [key]))) limit) as [|Hge]; [by left|].
      right. rewrite distinct_snoc in *. destruct (bset_contains _ _); lia.
    + rewrite negb_true_iff, bset_contains_false, elem_of_bset_of_list. tauto.
  - intros [= <- <-]. destruct Hor as [[? _]|(_ & Hmax & Hd)]; [lia|]. split.
    + split; [done|]. right. split_and!; [done|done|]. rewrite distinct_snoc. destruct (bset_contains _ _); lia.
    + split; [done|]. lia.
Qed.

Lemma limited_ok_nil limit : limited_ok limit [] [].
Proof.
  split; [constructor|]. simpl. destruct (Z.lt_ge_cases 0 limit); [by left|right].
  unfold distinct; simpl. lia.
Qed.

Definition prune_sets_ok (keep_daily keep_monthly : Z) (keep0 : list string)
    (seen : list SnapshotPruneInput) (s : PruneSets) : Prop :=
  limited_ok keep_daily (map (λ y, day_key (spi_created_at y)) seen) (ps_daily s) ∧
  limited_ok keep_monthly (map (λ y, month_key (spi_created_at y)) seen) (ps_monthly s) ∧
  bsorted (ps_keep s) ∧
  (∀ id, id ∈ ps_keep s ↔ id ∈ keep0 ∨
     ∃ before x after, seen = before ++ x :: after ∧ spi_id x = id ∧ retained keep_daily keep_monthly before x) ∧
  (length (ps_keep s) <= length keep0 + length (ps_daily s) + length (ps_monthly s))%nat.

Lemma seen_snoc (P : list SnapshotPruneInput → SnapshotPruneInput → Prop) seen x :
  (∃ before y after, seen ++ [x] = before ++ y :: after ∧ P before y) ↔
  (∃ before y after, seen = before ++ y :: after ∧ P before y) ∨ P seen x.
Proof.
  split.
  - intros (before & y & after & Heq & HP). destruct after as [|z after] using rev_ind.
    + apply app_inj_tail in Heq as [-> ->]. by right.
    + left. exists before, y, after. split; [|done].
      rewrite app_comm_cons, app_assoc in Heq. by apply app_inj_tail in Heq as [-> _].
  - intros [(before & y & after & -> & HP)|HP].
    + exists before, y, (after ++ [x]). split; [by rewrite <-app_assoc|done].
    + by exists seen, x, [].
Qed.

Lemma bset_insert_length_le x s : bsorted s → (length (bset_insert x s) <= S (length s))%nat.
Proof. intros Hs. rewrite bset_insert_length by done. destruct (bset_contains s x); lia. Qed.

Lemma insert_limited_length limit key set b set' :
  bsorted set → insert_limited limit key set = (b, set') →
  length set' = if b : bool then S (length set) else length set.
Proof.
  intros Hs. unfold insert_limited, bset_add. destruct (_ <? _); intros [= <- <-]; [|done].
  rewrite bset_insert_length by done. by destruct (bset_contains set key).
Qed.

Lemma prune_step_ok kd km keep0 seen s x :
  prune_sets_ok kd km keep0 seen s → prune_sets_ok kd km keep0 (seen ++ [x]) (prune_step kd km s x).
Proof.
  intros (Hd & Hm & Hk & Hkeep & Hlen). unfold prune_step.
  destruct (insert_limited kd _ _) as [d daily] eqn:Hdi.
  destruct (insert_limited km _ _) as [m monthly] eqn:Hmi.
  pose proof (insert_limited_length _ _ _ _ _ (proj1 Hd) Hdi) as Hld.
  pose proof (insert_limited_length _ _ _ _ _ (proj1 Hm) Hmi) as Hlm.
  destruct (insert_limited_spec _ _ _ _ _ _ Hd Hdi) as [Hd' Hdb].
  destruct (insert_limited_spec _ _ _ _ _ _ Hm Hmi) as [Hm' Hmb].
  set (keep1 := if d then bset_insert (spi_id x) (ps_keep s) else ps_keep s).
  assert (Hk1 : bsorted keep1) by (unfold keep1; destruct d; [by apply bset_insert_sorted|done]).
  assert (Hl1 : (length keep1 <= length (ps_keep s) + (if d then 1 else 0))%nat).
  { unfold keep1. destruct d; [|lia]. pose proof (bset_insert_length_le (spi_id x) _ Hk). lia. }
  unfold prune_sets_ok; simpl. rewrite !map_app. simpl. split_and!; [done|done| | |].
  - destruct m; [by apply bset_insert_sorted|done].
  - intros id.
    assert (Hret : d = true ∨ m = true ↔ retained kd km seen x) by (unfold retained, first_of_period; tauto).
    assert (Hin : id ∈ (if m then bset_insert (spi_id x) keep1 else keep1) ↔
                  id ∈ ps_keep s ∨ (id = spi_id x ∧ (d = true ∨ m = true))).
    { unfold keep1. destruct m, d; rewrite ?elem_of_bset_insert; naive_solver. }
    rewrite Hin, Hkeep, Hret.
    setoid_rewrite (seen_snoc (λ before y, spi_id y = id ∧ retained kd km before y)).
    clear. split; [intros [[?|?]|[-> ?]]; auto|intros [?|[?|[<- ?]]]; auto].
  - destruct m; [|destruct d; lia]. pose proof (bset_insert_length_le (spi_id x) _ Hk1). destruct d; lia.
Qed.

Lemma prune_fold_ok kd km keep0 l seen s :
  prune_sets_ok kd km keep0 seen s → prune_sets_ok kd km keep0 (seen ++ l) (fold_left (prune_step kd km) l s).
Proof.
  revert seen s; induction l as [|x l IH]; intros seen s Hs; simpl; [by rewrite app_nil_r|].
  replace (seen ++ x :: l) with ((seen ++ [x]) ++ l) by (by rewrite <-app_assoc).
  by apply IH, prune_step_ok.
Qed.

Lemma prune_plan_members l current kd km :
  0 <= kd → 0 <= km →
  let plan := build_snapshot_prune_plan l current kd km in
  (∀ id, id ∈ spp_keep plan ↔ current = Some id ∨
     ∃ before x after, l = before ++ x :: after ∧ spi_id x = id ∧ retained kd km before x) ∧
  (∀ id, id ∈ spp_delete plan ↔ id ∈ map spi_id l ∧ (id ∉ spp_keep plan)) ∧
  Z.of_nat (length (spp_keep plan)) <= 1 + kd + km.
Proof.
  intros Hkd Hkm plan.
  set (keep0 := match current with Some c => bset_insert c [] | None => [] end).
  assert (H0 : bsorted keep0 ∧ (length keep0 <= 1)%nat ∧ ∀ id, id ∈ keep0 ↔ current = Some id).
  { unfold keep0. destruct current; simpl; (split_and!; [repeat constructor|lia|set_solver]). }
  destruct H0 as (Hs0 & Hl0 & Hin0).
  destruct (prune_fold_ok kd km keep0 l [] {| ps_keep := keep0; ps_daily := []; ps_monthly := [] |})
    as (Hd & Hm & Hk & Hkeep & Hlen).
  { split_and!; [apply limited_ok_nil..|done| |simpl; lia]. intros id. simpl.
    split; [by left|]. intros [?|(b & x & a & Heq & _)]; [done|by destruct b]. }
  rewrite app_nil_l in *. split_and!.
  - intros id. unfold plan, build_snapshot_prune_plan. fold keep0. cbv zeta. cbn [spp_keep spp_delete]. by rewrite Hkeep, Hin0.
  - intros id. unfold plan, build_snapshot_prune_plan. fold keep0. cbv zeta. cbn [spp_keep spp_delete].
    rewrite list_elem_of_filter, binary_search_correct by done. rewrite bset_contains_false. tauto.
  - unfold plan, build_snapshot_prune_plan. fold keep0. cbv zeta. cbn [spp_keep spp_delete].
    destruct Hd as [_ Hd], Hm as [_ Hm]. lia.
Qed.

(** C24. The retention policy: a prune keeps the current snapshot and, reading the
    snapshots newest first, the first snapshot of each of the first [keep_daily]
    days and of each of the first [keep_monthly] months, and no other; everything
    else is deleted (the binary search in the kept list decides membership
    exactly), so a snapshot is deleted iff it is not kept, and at most
    [1 + keep_daily + keep_monthly] are kept. *)
Theorem build_snapshot_prune_plan_spec l current kd km :
  0 <= kd → 0 <= km →
  let plan := build_snapshot_prune_plan l current kd km in
  (∀ id, id ∈ spp_keep plan ↔ current = Some id ∨
     ∃ before x after, l = before ++ x :: after ∧ spi_id x = id ∧ retained kd km before x) ∧
  (∀ id, id ∈ spp_delete plan ↔ id ∈ map spi_id l ∧ (id ∉ spp_keep plan)) ∧
  Z.of_nat (length (spp_keep plan)) <= 1 + kd + km.
Proof. apply prune_plan_members. Qed.

End Retention.

(** ** Tiering *)

Definition is_hot_metadata_prefix (prefix : string) : bool :=
  starts_with prefix "metadata/" || contains prefix "/metadata/" || contains prefix "/refs/"
  || contains prefix "/journal/" || contains prefix "/ops/" || contains prefix "/snapshots/"
  || starts_with prefix "trees/" || starts_with prefix "large/manifests/" || starts_with prefix "indexes/".

Record PolicyRule := {
  pr_name : string; pr_prefix : string; pr_after : option string; pr_storage : option string }.
Record PolicyConfig := { pc_enabled : bool; pc_rules : list PolicyRule }.

Definition rule (name prefix : string) (after : option string) (storage : string) : PolicyRule :=
  {| pr_name := name; pr_prefix := prefix; pr_after := after; pr_storage := Some storage |}.

Definition default_tiering_rules : list PolicyRule := [
  rule "keep-bootstrap-metadata-hot" "metadata/" None "standard";
  rule "keep-trees-hot" "trees/" None "standard";
  rule "keep-large-manifests-hot" "large/manifests/" None "standard";
  rule "keep-indexes-hot" "indexes/" None "standard";
  rule "packs-to-ia" "packs/normal/" (Some "30d") "infrequent";
  rule "fixed-large-chunks-to-archive" "large/chunks/fixed-8m/" (Some "180d") "archive";
  rule "fastcdc-large-chunks-to-archive" "large/chunks/fastcdc/" (Some "180d") "archive"].

Record TransitionRule := {
  tr_name : string; tr_prefix : string; tr_after_days : N; tr_storage : string }.

Definition u32_max : N := 4294967295.

Definition parse_days (input : string) : result N string :=
  let trimmed := trim input in
  let days := match strip_suffix "d" trimmed with Some days => days | None => trimmed end in
  match parse_unsigned u32_max days with
  | Some n => Ok n
  | None => Err ("invalid tiering duration: " +:+ input)
  end.

Definition normalize_storage_name (storage : string) : string :=
  replace_char "_" "-" (to_ascii_lowercase (trim storage)).

Definition one_of (l : list string) (s : string) : bool := existsb (String.eqb s) l.

Definition is_hot_storage (storage : string) : bool :=
  one_of ["standard"; "hot"; "keep"; "none"] (normalize_storage_name storage).

Definition gcs_storage_class (storage : string) : string :=
  let s := normalize_storage_name storage in
  if one_of ["infrequent"; "ia"; "nearline"] s then "NEARLINE"
  else if one_of ["coldline"] s then "COLDLINE"
  else if one_of ["archive"; "archive-instant"; "deep-archive"] s then "ARCHIVE"
  else "STANDARD".

Definition s3_storage_class (storage : string) : string :=
  let s := normalize_storage_name storage in
  if one_of ["infrequent"; "ia"; "standard-ia"] s then "STANDARD_IA"
  else if one_of ["onezone-ia"] s then "ONEZONE_IA"
  else if one_of ["archive-instant"; "glacier-ir"] s then "GLACIER_IR"
  else if one_of ["archive"; "glacier"] s then "GLACIER"
  else if one_of ["deep-archive"] s then "DEEP_ARCHIVE"
  else "STANDARD".

Definition sanitize_lifecycle_rule_id (name : string) : string :=
  let sanitized := chars_or (λ c, is_ascii_alphanumeric c || Ascii.eqb c "-" || Ascii.eqb c "_") "-" name in
  if is_empty sanitized then "majutsu-tiering-rule" else sanitized.

Fixpoint transition_rules (rules : list PolicyRule) : result (list TransitionRule) string :=
  match rules with
  | [] => Ok []
  | r :: rest =>
    match pr_after r, pr_storage r with
    | Some after, Some storage =>
      if is_hot_storage storage || is_hot_metadata_prefix (pr_prefix r) then transition_rules rest else
      let? days := parse_days after in
      let? out := transition_rules rest in
      Ok ({| tr_name := pr_name r; tr_prefix := pr_prefix r; tr_after_days := days;
             tr_storage := storage |} :: out)
    | _, _ => transition_rules rest
    end
  end.
Definition transition_tiering_rules (tiering : PolicyConfig) := transition_rules (pc_rules tiering).

(** [serde_json::Value], as far as the policies use it. *)
Inductive Json :=
| JNumber (n : N)
| JString (s : string)
| JArray (l : list Json)
| JObject (fields : list (string * Json)).

Fixpoint assoc (key : string) (fields : list (string * Json)) : option Json :=
  match fields with
  | [] => None
  | (k, v) :: rest => if String.eqb key k then Some v else assoc key rest
  end.
Definition json_get (key : string) (v : Json) : option Json :=
  match v with JObject fields => assoc key fields | _ => None end.
Definition as_str (v : Json) : option string := match v with JString s => Some s | _ => None end.
Definition as_u64 (v : Json) : option N := match v with JNumber n => Some n | _ => None end.
Definition as_array (v : Json) : option (list Json) := match v with JArray l => Some l | _ => None end.

Definition gcs_rule (r : TransitionRule) : Json := JObject [
  ("action", JObject [("type", JString "SetStorageClass");
                      ("storageClass", JString (gcs_storage_class (tr_storage r)))]);
  ("condition", JObject [("age", JNumber (tr_after_days r)); ("matchesPrefix", JArray [JString (tr_prefix r)])])].

Definition gcs_lifecycle_policy (tiering : PolicyConfig) : result Json string :=
  let? rules := if pc_enabled tiering then transition_tiering_rules tiering else Ok [] in
  Ok (JObject [("rule", JArray (map gcs_rule rules))]).

Definition s3_rule (r : TransitionRule) : Json := JObject [
  ("ID", JString (sanitize_lifecycle_rule_id (tr_name r)));
  ("Status", JString "Enabled");
  ("Filter", JObject [("Prefix", JString (tr_prefix r))]);
  ("Transitions", JArray [JObject [("Days", JNumber (tr_after_days r));
                                   ("StorageClass", JString (s3_storage_class (tr_storage r)))]])].

Definition s3_lifecycle_policy (tiering : PolicyConfig) : result Json string :=
  let? rules := if pc_enabled tiering then transition_tiering_rules tiering else Ok [] in
  Ok (JObject [("Rules", JArray (map s3_rule rules))]).

Definition context {A} (e : string) (o : option A) : result A string :=
  match o with Some a => Ok a | None => Err e end.

Definition s3_rule_text (id status prefix : string) (days : N) (storage_class : string) : string :=
  "<Rule><ID>" +:+ xml_escape id +:+ "</ID><Status>" +:+ xml_escape status +:+
  "</Status><Filter><Prefix>" +:+ xml_escape prefix +:+ "</Prefix></Filter><Transition><Days>" +:+
  string_of_N days +:+ "</Days><StorageClass>" +:+ xml_escape storage_class +:+
  "</StorageClass></Transition></Rule>".

Definition s3_rule_xml (r : Json) : result string string :=
  let? id := context "S3 lifecycle rule is missing ID" (json_get "ID" r ≫= as_str) in
  let? status := context "S3 lifecycle rule is missing Status" (json_get "Status" r ≫= as_str) in
  let? prefix := context "S3 lifecycle rule is missing Filter.Prefix"
                   ((json_get "Filter" r ≫= json_get "Prefix") ≫= as_str) in
  let? transition := context "S3 lifecycle rule is missing first Transition"
                       ((json_get "Transitions" r ≫= as_array) ≫= head) in
  let? days := context "S3 lifecycle transition is missing Days" (json_get "Days" transition ≫= as_u64) in
  let? storage_class := context "S3 lifecycle transition is missing StorageClass"
                          (json_get "StorageClass" transition ≫= as_str) in
  Ok (s3_rule_text id status prefix days storage_class).

Definition s3_lifecycle_configuration_xml (policy : Json) : result string string :=
  let? rules := context "S3 lifecycle policy must contain Rules array" (json_get "Rules" policy ≫= as_array) in
  let? texts := result_map s3_rule_xml rules in
  Ok ("<LifecycleConfiguration>" +:+ join "" texts +:+ "</LifecycleConfiguration>").

(** *** Properties *)

Lemma transition_rules_spec rules out r :
  transition_rules rules = Ok out →
  r ∈ out ↔ ∃ p after storage, p ∈ rules ∧ pr_after p = Some after ∧ pr_storage p = Some storage ∧
    is_hot_storage storage = false ∧ is_hot_metadata_prefix (pr_prefix p) = false ∧
    parse_days after = Ok (tr_after_days r) ∧ tr_name r = pr_name p ∧ tr_prefix r = pr_prefix p ∧
    tr_storage r = storage.
Proof.
  revert out; induction rules as [|p rules IH]; intros out; simpl.
  { intros [= <-]. split; [by intros ?%elem_of_nil|]. by intros (p & ? & ? & ?%elem_of_nil & _). }
  assert (Hskip : ∀ out, (∀ after storage, pr_after p = Some after → pr_storage p = Some storage →
      is_hot_storage storage = true ∨ is_hot_metadata_prefix (pr_prefix p) = true) →
    transition_rules rules = Ok out →
    r ∈ out ↔ ∃ p' after storage, p' ∈ p :: rules ∧ pr_after p' = Some after ∧ pr_storage p' = Some storage ∧
      is_hot_storage storage = false ∧ is_hot_metadata_prefix (pr_prefix p') = false ∧
      parse_days after = Ok (tr_after_days r) ∧ tr_name r = pr_name p' ∧ tr_prefix r = pr_prefix p' ∧
      tr_storage r = storage).
  { intros out' Hhot Hr. rewrite (IH _ Hr). split.
    - intros (p' & after & storage & Hin & Hrest). exists p', after, storage. split; [by constructor|done].
    - intros (p' & after & storage & [->|Hin]%elem_of_cons & Ha & Hs & H1 & H2 & Hrest).
      + destruct (Hhot _ _ Ha Hs); congruence.
      + by exists p', after, storage. }
  destruct (pr_after p) as [after|] eqn:Ha; [|apply Hskip; congruence].
  destruct (pr_storage p) as [storage|] eqn:Hs; [|apply Hskip; congruence].
  destruct (is_hot_storage storage || is_hot_metadata_prefix (pr_prefix p)) eqn:Hhot.
  { apply Hskip. intros ? ? [= <-] [= <-]. by apply orb_true_iff. }
  apply orb_false_iff in Hhot as [H1 H2].
  intros (days & Hdays & (out' & Hout & [= <-])%result_bind_Ok)%result_bind_Ok.
  rewrite elem_of_cons, (IH _ Hout). split.
  - intros [->|(p' & a & st & Hin & Hrest)].
    + exists p, after, storage. split; [by constructor|]. split_and!; done.
    + exists p', a, st. split; [by constructor|done].
  - intros (p' & a & st & [->|Hin]%elem_of_cons & Ha' & Hs' & Hh1 & Hh2 & Hd & Hn & Hp & Hst).
    + left. destruct r; simpl in *. f_equal; congruence.
    + right. exists p', a, st. by split_and!.
Qed.

Lemma s3_rule_xml_total r :
  s3_rule_xml (s3_rule r) =
  Ok (s3_rule_text (sanitize_lifecycle_rule_id (tr_name r)) "Enabled" (tr_prefix r) (tr_after_days r)
        (s3_storage_class (tr_storage r))).
Proof. done. Qed.

(** The generated S3 lifecycle: a transition rule is emitted for exactly those
    tiering rules that name an age and a storage class, whose class is not a hot
    one and whose prefix is not a metadata prefix; and the XML rendering of a
    generated policy never fails. *)
Theorem s3_lifecycle_generated tiering policy :
  pc_enabled tiering = true → s3_lifecycle_policy tiering = Ok policy →
  ∃ rules, policy = JObject [("Rules", JArray (map s3_rule rules))] ∧
    (∀ r, r ∈ rules ↔ ∃ p after storage, p ∈ pc_rules tiering ∧ pr_after p = Some after ∧
       pr_storage p = Some storage ∧ is_hot_storage storage = false ∧
       is_hot_metadata_prefix (pr_prefix p) = false ∧ parse_days after = Ok (tr_after_days r) ∧
       tr_name r = pr_name p ∧ tr_prefix r = pr_prefix p ∧ tr_storage r = storage) ∧
    ∃ xml, s3_lifecycle_configuration_xml policy = Ok xml.
Proof.
  intros Hen. unfold s3_lifecycle_policy. rewrite Hen.
  intros (rules & Hrules & [= <-])%result_bind_Ok. exists rules. split; [done|]. split.
  - intros r. by apply transition_rules_spec.
  - unfold s3_lifecycle_configuration_xml. simpl.
    assert (Hmap : ∃ texts, result_map s3_rule_xml (map s3_rule rules) = Ok texts).
    { clear. induction rules as [|r rules [texts IH]]; [by eexists|].
      cbn [map result_map]. rewrite s3_rule_xml_total, IH. by eexists. }
    destruct Hmap as [texts ->]. by eexists.
Qed.

(** The metadata guard looks at the prefix of the rule only, so a rule for a
    parent of a metadata prefix passes it: a rule for [large/] to the archive class
    is emitted although the objects it matches include the manifests under
    [large/manifests/], which the guard is there to keep hot. *)
Theorem parent_prefix_archives_metadata :
  let r := rule "large-to-archive" "large/" (Some "180d") "archive" in
  transition_tiering_rules {| pc_enabled := true; pc_rules := [r] |} =
    Ok [{| tr_name := "large-to-archive"; tr_prefix := "large/"; tr_after_days := 180; tr_storage := "archive" |}] ∧
  is_hot_metadata_prefix "large/manifests/" = true ∧ starts_with "large/manifests/ab/cd" "large/" = true.
Proof. vm_compute. done. Qed.

(** ** Concrete runs *)

Module PolicyExample.
Import CoreExample.

Definition ex_snapshots : list SnapshotPruneInput :=
  map (λ '(i, t), {| spi_id := i; spi_created_at := t |})
    [("e", 64); ("d", 64); ("c", 33); ("b", 32); ("a", 1)].

Lemma build_snapshot_prune_plan_spec_witness :
  let plan := build_snapshot_prune_plan ex_snapshots (Some "a") 2 1 in
  plan = {| spp_keep := ["a"; "c"; "e"]; spp_delete := ["d"; "b"] |} ∧
  (∀ id, id ∈ spp_delete plan ↔ id ∈ map spi_id ex_snapshots ∧ (id ∉ spp_keep plan)) ∧
  Z.of_nat (length (spp_keep plan)) <= 1 + 2 + 1.
Proof.
  destruct (build_snapshot_prune_plan_spec ex_snapshots (Some "a") 2 1) as (_ & Hdelete & Hlen); [lia..|].
  intros plan. split; [vm_compute; reflexivity|]. split; [exact Hdelete|exact Hlen].
Defined.

Lemma s3_lifecycle_generated_witness :
  ∃ policy rules, s3_lifecycle_policy {| pc_enabled := true; pc_rules := default_tiering_rules |} = Ok policy ∧
    policy = JObject [("Rules", JArray (map s3_rule rules))] ∧
    ∃ xml, s3_lifecycle_configuration_xml policy = Ok xml.
Proof.
  destruct (s3_lifecycle_policy {| pc_enabled := true; pc_rules := default_tiering_rules |}) as [policy|e] eqn:Hp;
    [|exfalso; vm_compute in Hp; discriminate].
  destruct (s3_lifecycle_generated {| pc_enabled := true; pc_rules := default_tiering_rules |} policy)
    as (rules & Heq & _ & Hxml); [reflexivity|exact Hp|].
  exists policy, rules. split; [reflexivity|]. split; [exact Heq|exact Hxml].
Defined.

End PolicyExample.
