(* ===== verification/Store.v ===== *)
(** * majutsu-store: the layout of a remote

    [src/internal/majutsu_store.rs]: capabilities, the keys of a host on the
    remote, canonical aliases of object keys, the chunk index, the host index and
    the garbage-collection marks. *)

From S2P Require Import Prelude RStr BTree Core Xml.

Local Open Scope Z_scope.

(** ** Capabilities *)

Record RemoteCapabilities := {
  cap_lifecycle_rules : bool;
  cap_object_tags : bool;
  cap_storage_class_on_put : bool;
  cap_restore_archived_object : bool;
  cap_multipart_upload : bool;
  cap_range_get : bool;
  cap_conditional_put : bool;
}.

Definition capabilities_file : RemoteCapabilities := {|
  cap_lifecycle_rules := false; cap_object_tags := false; cap_storage_class_on_put := false;
  cap_restore_archived_object := true; cap_multipart_upload := false; cap_range_get := true;
  cap_conditional_put := true |}.

Definition capabilities_s3 (signature_v2 multipart_enabled : bool) : RemoteCapabilities := {|
  cap_lifecycle_rules := true; cap_object_tags := negb signature_v2;
  cap_storage_class_on_put := negb signature_v2; cap_restore_archived_object := true;
  cap_multipart_upload := multipart_enabled && negb signature_v2; cap_range_get := true;
  cap_conditional_put := negb signature_v2 |}.

(** ** Keys *)

Definition REMOTE_CHUNK_INDEX_SHARD_KEY : string := "indexes/chunk-index/shard-0000.cbor.zst.enc".
Definition DEFAULT_CHUNK_INDEX_SHARD : string := "shard-0000".

Definition remote_gc_mark_key (host_id : string) : string := host_id +:+ "/gc/mark.json".
Definition remote_gc_tombstone_prefix (host_id : string) : string := host_id +:+ "/gc/tombstones/".
Definition remote_gc_tombstone_key (host_id tombstone_id : string) : string :=
  remote_gc_tombstone_prefix host_id +:+ tombstone_id +:+ ".json".

Definition label_char (c : ascii) : bool :=
  is_ascii_alphanumeric c || Ascii.eqb c "-" || Ascii.eqb c "_" || Ascii.eqb c ".".
Definition label_edge (c : ascii) : bool := Ascii.eqb c "." || Ascii.eqb c "-" || Ascii.eqb c "_".

Definition remote_host_label (host_name : string) : string :=
  let label := trim_matches label_edge (chars_or label_char "-" (trim host_name)) in
  if is_empty label then "unknown-host" else label.

Definition host_metadata_key (host_id : string) : string := host_id +:+ "/metadata/export.json".
Definition host_legacy_current_key (host_id : string) : string := host_id +:+ "/current".
Definition host_ref_key (host_id name : string) : string := host_id +:+ "/refs/" +:+ name.
Definition host_current_ref_key (host_id : string) : string := host_ref_key host_id "current".
Definition host_last_synced_ref_key (host_id : string) : string := host_ref_key host_id "last-synced".
Definition host_root_ack_ref_key (host_id root_id : string) : string :=
  host_id +:+ "/roots/" +:+ root_id +:+ "/ack".
Definition host_root_ack_ref_prefix (host_id : string) : string := host_id +:+ "/roots/".
Definition host_snapshot_key (host_id snapshot_id : string) : string :=
  host_id +:+ "/snapshots/" +:+ snapshot_id +:+ ".json".
Definition host_snapshots_prefix (host_id : string) : string := host_id +:+ "/snapshots/".
Definition host_snapshot_canonical_key (host_id snapshot_id : string) : string :=
  host_id +:+ "/snapshots/" +:+ snapshot_id +:+ ".cbor.zst.enc".
Definition host_operation_key (host_id op_id : string) : string :=
  host_id +:+ "/ops/" +:+ op_id +:+ ".json".
Definition host_ops_prefix (host_id : string) : string := host_id +:+ "/ops/".
Definition host_operation_canonical_key (host_id op_id : string) : string :=
  host_id +:+ "/ops/" +:+ op_id +:+ ".cbor.zst.enc".
Definition host_oplog_key (host_id : string) : string := host_id +:+ "/ops/local-oplog.cborl".
Definition host_oplog_canonical_key (host_id : string) : string := host_id +:+ "/ops/local-oplog.cborl.zst.enc".

Definition host_remote_key (host_id key : string) : string :=
  if starts_with key (host_id +:+ "/") then key else host_id +:+ "/" +:+ key.

(** ** Archive restore *)

Definition archive_restore_status (key : string) (status : Z) : result bool string :=
  if existsb (Z.eqb status) [200; 202; 204; 409] then Ok true
  else if status =? 404 then Ok false
  else Err ("archive restore request failed for " +:+ key +:+ ": HTTP " +:+ string_of_Z status).

Definition s3_archive_restore_request_xml (days : N) (tier : string) : result string string :=
  if (days =? 0)%N then Err "archive restore days must be greater than zero" else
  let tier := trim tier in
  if is_empty tier then Err "archive restore tier must not be empty" else
  Ok ("<RestoreRequest><Days>" +:+ string_of_N days +:+ "</Days><GlacierJobParameters><Tier>" +:+
      xml_escape tier +:+ "</Tier></GlacierJobParameters></RestoreRequest>").

(** ** Canonical aliases *)

Definition canonical_remote_alias (key : string) : option string :=
  match strip_prefix "objects/trees/" key with
  | Some rest => Some ("trees/" +:+ rest +:+ ".cbor.zst.enc")
  | None =>
  match strip_prefix "objects/blobs/" key with
  | Some rest => Some ("blobs/loose/" +:+ rest +:+ ".blob.enc")
  | None =>
  match strip_prefix "objects/packs/small/" key with
  | Some rest => Some ("packs/small/" +:+ rest)
  | None =>
  match strip_prefix "objects/packs/normal/" key with
  | Some rest => Some ("packs/normal/" +:+ rest)
  | None =>
  match strip_prefix "objects/indexes/pack/" key with
  | Some rest =>
    let rest := default rest (strip_suffix ".json" rest) in
    Some ("indexes/pack-index/" +:+ rest +:+ ".cbor.zst.enc")
  | None =>
  match strip_prefix "objects/large/manifests/" key with
  | Some rest => Some ("large/manifests/" +:+ rest +:+ ".cbor.zst.enc")
  | None =>
  match strip_prefix "objects/large/chunks/fixed/" key with
  | Some rest => Some ("large/chunks/fixed-8m/" +:+ rest +:+ ".chunk.enc")
  | None =>
  match strip_prefix "objects/large/chunks/fastcdc/" key with
  | Some rest => Some ("large/chunks/fastcdc/" +:+ rest +:+ ".chunk.enc")
  | None => None
  end end end end end end end end.

Definition canonical_remote_aliases (key : string) : list string :=
  match canonical_remote_alias key with
  | None => []
  | Some alias => if (alias =? key)%string then [] else [alias]
  end.

Definition is_content_addressed_remote_key (key : string) : bool :=
  starts_with key "objects/" || starts_with key "trees/" || starts_with key "blobs/loose/"
  || starts_with key "packs/" || starts_with key "indexes/pack-index/" || starts_with key "large/".

Inductive RemoteObjectAvailabilityIssue := MissingObjectOrAlias | MissingCanonicalAlias.

Definition remote_object_availability_issues (legacy_exists : bool) (aliases : list string)
    (alias_exists : bool) : list RemoteObjectAvailabilityIssue :=
  (if negb legacy_exists && negb alias_exists then [MissingObjectOrAlias] else [])
  ++ (if legacy_exists && negb (match aliases with [] => true | _ => false end) && negb alias_exists
      then [MissingCanonicalAlias] else []).

(** ** Blobs *)

Record BlobExport := {
  be_oid : string; be_size : Z; be_object_key : string;
  be_pack_id : option string; be_pack_offset : option Z; be_pack_len : option Z }.

Definition BlobExport_new (oid : string) (size : Z) (object_key : string) : BlobExport :=
  {| be_oid := oid; be_size := size; be_object_key := object_key;
     be_pack_id := None; be_pack_offset := None; be_pack_len := None |}.
Definition with_pack_location (b : BlobExport) (pack_id : string) (offset len : Z) : BlobExport :=
  {| be_oid := be_oid b; be_size := be_size b; be_object_key := be_object_key b;
     be_pack_id := Some pack_id; be_pack_offset := Some offset; be_pack_len := Some len |}.
Definition is_packed (b : BlobExport) : bool := bool_decide (is_Some (be_pack_id b)).
Definition has_complete_pack_location (b : BlobExport) : bool :=
  bool_decide (is_Some (be_pack_id b)) && bool_decide (is_Some (be_pack_offset b))
  && bool_decide (is_Some (be_pack_len b)).

(** ** The chunk index *)

Record RemoteChunkIndexEntry := {
  rci_oid : string; rci_size : Z; rci_object_key : string; rci_canonical_key : string }.
#[export] Instance RemoteChunkIndexEntry_eq_dec : EqDecision RemoteChunkIndexEntry.
Proof. solve_decision. Defined.

Definition RemoteChunkIndexEntry_new (oid : string) (size : Z) (object_key : string)
    (canonical_key : option string) : RemoteChunkIndexEntry :=
  {| rci_oid := oid; rci_size := size; rci_object_key := object_key;
     rci_canonical_key := default object_key canonical_key |}.

Record RemoteChunkIndexShard := {
  rcs_version : Z; rcs_shard : string; rcs_updated_at : DateTime; rcs_chunks : list RemoteChunkIndexEntry }.

Definition RemoteChunkIndexShard_new (updated_at : DateTime) (chunks : list RemoteChunkIndexEntry)
    : RemoteChunkIndexShard :=
  {| rcs_version := 1; rcs_shard := DEFAULT_CHUNK_INDEX_SHARD; rcs_updated_at := updated_at;
     rcs_chunks := chunks |}.

Inductive RemoteChunkIndexIssue :=
| ShardMetadataMismatch
| DuplicateShardOids
| UnexpectedEntry (oid : string)
| DuplicateEntry (oid : string)
| EntryMismatch (oid : string)
| MissingEntry (oid : string).

Definition has_duplicate_oids (s : RemoteChunkIndexShard) : bool :=
  negb (length (bset_of_list (map rci_oid (rcs_chunks s))) =? length (rcs_chunks s))%nat.

(** The loop over the entries, with the set of oids seen. *)
Fixpoint check_entries (expected : list (string * RemoteChunkIndexEntry)) (seen : list string)
    (entries : list RemoteChunkIndexEntry) : list RemoteChunkIndexIssue * list string :=
  match entries with
  | [] => ([], seen)
  | entry :: rest =>
    match bmap_get expected (rci_oid entry) with
    | None =>
      let '(issues, seen') := check_entries expected seen rest in
      (UnexpectedEntry (rci_oid entry) :: issues, seen')
    | Some expected_entry =>
      let '(fresh, seen1) := bset_add (rci_oid entry) seen in
      let '(issues, seen') := check_entries expected seen1 rest in
      ((if fresh : bool then [] else [DuplicateEntry (rci_oid entry)])
       ++ (if bool_decide (entry = expected_entry) then [] else [EntryMismatch (rci_oid entry)])
       ++ issues, seen')
    end
  end.

Definition chunk_index_validation_issues (s : RemoteChunkIndexShard)
    (expected : list RemoteChunkIndexEntry) : list RemoteChunkIndexIssue :=
  if negb (rcs_version s =? 1) || negb (rcs_shard s =? DEFAULT_CHUNK_INDEX_SHARD)%string
     || negb (length (rcs_chunks s) =? length expected)%nat
  then [ShardMetadataMismatch]
  else
    let dup := if has_duplicate_oids s then [DuplicateShardOids] else [] in
    let expected := bmap_of_list (map (λ e, (rci_oid e, e)) expected) in
    let '(issues, seen) := check_entries expected [] (rcs_chunks s) in
    dup ++ issues ++ flat_map (λ oid, if bset_contains seen oid then [] else [MissingEntry oid]) expected.*1.

(** ** The host index *)

Record RemoteHostSummary := {
  rhs_id : string; rhs_name : string; rhs_last_synced_at : DateTime;
  rhs_current_snapshot : option string; rhs_metadata_key : string }.
#[export] Instance RemoteHostSummary_eq_dec : EqDecision RemoteHostSummary.
Proof. solve_decision. Defined.

Record RemoteHostIndex := {
  rhi_version : Z; rhi_updated_at : DateTime; rhi_hosts : list RemoteHostSummary }.

Definition RemoteHostIndex_empty (updated_at : DateTime) : RemoteHostIndex :=
  {| rhi_version := 1; rhi_updated_at := updated_at; rhi_hosts := [] |}.

Definition sort_hosts (i : RemoteHostIndex) : RemoteHostIndex :=
  {| rhi_version := rhi_version i; rhi_updated_at := rhi_updated_at i;
     rhi_hosts := sort_by rhs_id (rhi_hosts i) |}.

Definition upsert_host (i : RemoteHostIndex) (summary : RemoteHostSummary) (updated_at : DateTime)
    : RemoteHostIndex :=
  let hosts := filter (λ h, rhs_id h ≠ rhs_id summary) (rhi_hosts i) ++ [summary] in
  let sorted := sort_hosts {| rhi_version := rhi_version i; rhi_updated_at := rhi_updated_at i;
                              rhi_hosts := hosts |} in
  {| rhi_version := rhi_version sorted; rhi_updated_at := updated_at; rhi_hosts := rhi_hosts sorted |}.

Inductive RemoteHostIndexIssue := DuplicateHostId (id : string) | DuplicateMetadataKey (key : string).

Fixpoint duplicate_hosts (ids keys : list string) (hosts : list RemoteHostSummary)
    : list RemoteHostIndexIssue :=
  match hosts with
  | [] => []
  | h :: rest =>
    let '(fresh_id, ids') := bset_add (rhs_id h) ids in
    let '(fresh_key, keys') := bset_add (rhs_metadata_key h) keys in
    (if fresh_id : bool then [] else [DuplicateHostId (rhs_id h)])
    ++ (if fresh_key : bool then [] else [DuplicateMetadataKey (rhs_metadata_key h)])
    ++ duplicate_hosts ids' keys' rest
  end.
Definition duplicate_issues (i : RemoteHostIndex) : list RemoteHostIndexIssue :=
  duplicate_hosts [] [] (rhi_hosts i).

Definition select_remote_host (hosts : list RemoteHostSummary) (selector : string)
    : result RemoteHostSummary string :=
  match filter (λ h, rhs_id h = selector) hosts with
  | [h] => Ok h
  | _ :: _ :: _ => Err ("remote host id is duplicated in remote metadata: " +:+ selector)
  | [] =>
    match filter (λ h, rhs_name h = selector) hosts with
    | [] => Err ("remote host not found: " +:+ selector)
    | [h] => Ok h
    | _ :: _ :: _ => Err ("remote host name is ambiguous: " +:+ selector +:+ "; use the host id")
    end
  end.

(** ** Garbage collection *)

Record RemoteGcMark := {
  gm_version : Z; gm_host_id : string; gm_marked_at : DateTime;
  gm_current_snapshot : option string; gm_object_keys : list string }.

Definition RemoteGcMark_new (host_id : string) (marked_at : DateTime) (current_snapshot : option string)
    (object_keys : list string) : RemoteGcMark :=
  {| gm_version := 1; gm_host_id := host_id; gm_marked_at := marked_at;
     gm_current_snapshot := current_snapshot; gm_object_keys := sort_dedup object_keys |}.

Inductive RemoteGcMarkIssue :=
| GmUnsupportedVersion
| GmHostMismatch (actual : string)
| GmCurrentSnapshotMismatch
| GmDuplicateObjectKeys
| GmMissingLiveObject (key : string)
| GmUnexpectedObjectKey (key : string).

Definition has_duplicate_object_keys (m : RemoteGcMark) : bool :=
  negb (length (bset_of_list (gm_object_keys m)) =? length (gm_object_keys m))%nat.

(** [expected_object_keys] is a [BTreeSet]. *)
Definition gc_mark_validation_issues (m : RemoteGcMark) (host_id : string)
    (current_snapshot : option string) (expected_object_keys : list string) : list RemoteGcMarkIssue :=
  (if gm_version m =? 1 then [] else [GmUnsupportedVersion])
  ++ (if (gm_host_id m =? host_id)%string then [] else [GmHostMismatch (gm_host_id m)])
  ++ (if bool_decide (gm_current_snapshot m = current_snapshot) then [] else [GmCurrentSnapshotMismatch])
  ++ (if has_duplicate_object_keys m then [GmDuplicateObjectKeys] else [])
  ++ flat_map (λ key, if bset_contains (bset_of_list (gm_object_keys m)) key then []
                      else [GmMissingLiveObject key]) expected_object_keys
  ++ flat_map (λ key, if bset_contains expected_object_keys key then []
                      else [GmUnexpectedObjectKey key]) (bset_of_list (gm_object_keys m)).

Record RemoteGcTombstone := {
  gt_version : Z; gt_host_id : string; gt_deleted_at : DateTime; gt_key : string }.

Definition RemoteGcTombstone_new (host_id : string) (deleted_at : DateTime) (key : string) : RemoteGcTombstone :=
  {| gt_version := 1; gt_host_id := host_id; gt_deleted_at := deleted_at; gt_key := key |}.

Definition has_valid_deleted_key (t : RemoteGcTombstone) : bool :=
  negb (is_empty (gt_key t)) && negb (starts_with (gt_key t) "/") && negb (contains (gt_key t) "..").

Inductive RemoteGcTombstoneIssue :=
| GtUnsupportedVersion | GtHostMismatch (actual : string) | GtInvalidDeletedKey.

Definition tombstone_validation_issues (t : RemoteGcTombstone) (host_id : string)
    : list RemoteGcTombstoneIssue :=
  (if gt_version t =? 1 then [] else [GtUnsupportedVersion])
  ++ (if (gt_host_id t =? host_id)%string then [] else [GtHostMismatch (gt_host_id t)])
  ++ (if has_valid_deleted_key t then [] else [GtInvalidDeletedKey]).

(** ** Properties of keys *)

(** The families of object keys: prefix of the key, prefix and suffix of the alias. *)
Definition alias_families : list (string * string * string) := [
  ("objects/trees/", "trees/", ".cbor.zst.enc");
  ("objects/blobs/", "blobs/loose/", ".blob.enc");
  ("objects/packs/small/", "packs/small/", "");
  ("objects/packs/normal/", "packs/normal/", "");
  ("objects/large/manifests/", "large/manifests/", ".cbor.zst.enc");
  ("objects/large/chunks/fixed/", "large/chunks/fixed-8m/", ".chunk.enc");
  ("objects/large/chunks/fastcdc/", "large/chunks/fastcdc/", ".chunk.enc")].

Definition index_rest (rest : string) : string := default rest (strip_suffix ".json" rest).

Lemma canonical_alias_cases key alias :
  canonical_remote_alias key = Some alias →
  (∃ p a s rest, (p, a, s) ∈ alias_families ∧ key = p +:+ rest ∧ alias = a +:+ rest +:+ s) ∨
  (∃ rest, key = "objects/indexes/pack/" +:+ rest ∧
           alias = "indexes/pack-index/" +:+ index_rest rest +:+ ".cbor.zst.enc").
Proof.
  unfold canonical_remote_alias, alias_families.
  repeat match goal with
  | |- context [match strip_prefix ?p key with _ => _ end] =>
      destruct (strip_prefix p key) as [rest|] eqn:Hp;
        [apply strip_prefix_Some in Hp; intros [= <-]|clear Hp]
  end; [..|done].
  all: try (right; by exists rest).
  all: left; do 4 eexists; split; [|split; [exact Hp|]]; [repeat first [apply list_elem_of_here|apply list_elem_of_further]|by rewrite ?str_app_nil_r].
Qed.

Lemma alias_families_ok p a s rest :
  (p, a, s) ∈ alias_families →
  canonical_remote_alias (a +:+ rest +:+ s) = None ∧
  is_content_addressed_remote_key (a +:+ rest +:+ s) = true ∧
  canonical_remote_alias (p +:+ rest) = Some (a +:+ rest +:+ s).
Proof.
  intros Hin. unfold alias_families in Hin.
  repeat (apply elem_of_cons in Hin as [Hin|Hin]; [injection Hin as -> -> ->|]);
    [..|by apply elem_of_nil in Hin].
  all: split_and!; [reflexivity|reflexivity|].
  all: unfold canonical_remote_alias; repeat (rewrite strip_prefix_app || simpl strip_prefix); by rewrite ?str_app_nil_r.
Qed.

Lemma index_alias_ok rest :
  canonical_remote_alias ("indexes/pack-index/" +:+ rest) = None ∧
  is_content_addressed_remote_key ("indexes/pack-index/" +:+ rest) = true.
Proof. split; reflexivity. Qed.

Lemma alias_families_inj p a s rest p' a' s' rest' :
  (p, a, s) ∈ alias_families → (p', a', s') ∈ alias_families →
  a +:+ rest +:+ s = a' +:+ rest' +:+ s' → p = p' ∧ rest = rest'.
Proof.
  intros Hin Hin'. unfold alias_families in *.
  repeat (apply elem_of_cons in Hin as [Hin|Hin]; [injection Hin as -> -> ->|]);
    [..|by apply elem_of_nil in Hin];
  repeat (apply elem_of_cons in Hin' as [Hin'|Hin']; [injection Hin' as -> -> ->|]);
    try (by apply elem_of_nil in Hin').
  all: intros Heq; first [discriminate Heq|apply str_app_inj_l in Heq].
  all: split; [done|]; by apply str_app_inj_r in Heq.
Qed.

Lemma alias_families_not_index p a s rest rest' :
  (p, a, s) ∈ alias_families → a +:+ rest +:+ s ≠ "indexes/pack-index/" +:+ rest'.
Proof.
  intros Hin. unfold alias_families in Hin.
  repeat (apply elem_of_cons in Hin as [Hin|Hin]; [injection Hin as -> -> ->|]);
    [..|by apply elem_of_nil in Hin]; discriminate.
Qed.

(** Canonical aliases: an alias has no alias itself and is a content-addressed
    key, and two different keys share an alias only when they are a pack index with
    and without its [.json] suffix; so no two objects of other kinds are ever
    mapped to one remote key. *)
Theorem canonical_alias_sound key alias :
  canonical_remote_alias key = Some alias →
  canonical_remote_alias alias = None ∧ is_content_addressed_remote_key alias = true ∧ alias ≠ key ∧
  ∀ key', canonical_remote_alias key' = Some alias → key' = key ∨
    ∃ rest, key = "objects/indexes/pack/" +:+ rest ∧ key' = "objects/indexes/pack/" +:+ rest +:+ ".json" ∨
            key' = "objects/indexes/pack/" +:+ rest ∧ key = "objects/indexes/pack/" +:+ rest +:+ ".json".
Proof.
  intros Ha. assert (Hnot : canonical_remote_alias alias = None ∧ is_content_addressed_remote_key alias = true).
  { destruct (canonical_alias_cases _ _ Ha) as [(p & a & s & rest & Hin & _ & ->)|(rest & _ & ->)].
    - by destruct (alias_families_ok p a s rest Hin) as (? & ? & _).
    - apply index_alias_ok. }
  destruct Hnot as [Hnone Hca]. split_and!; [done|done|congruence|].
  intros key' Ha'.
  destruct (canonical_alias_cases _ _ Ha) as [(p & a & s & rest & Hin & -> & ->)|(rest & -> & ->)];
  destruct (canonical_alias_cases _ _ Ha') as [(p' & a' & s' & rest' & Hin' & -> & Heq)|(rest' & -> & Heq)].
  - destruct (alias_families_inj _ _ _ _ _ _ _ _ Hin Hin' Heq) as [-> ->]. by left.
  - by destruct (alias_families_not_index _ _ _ _ _ Hin Heq).
  - by destruct (alias_families_not_index _ _ _ _ _ Hin' (eq_sym Heq)).
  - apply str_app_inj_l, str_app_inj_r in Heq. unfold index_rest in Heq.
    destruct (strip_suffix ".json" rest) as [r|] eqn:H1, (strip_suffix ".json" rest') as [r'|] eqn:H2;
      simpl in Heq; rewrite ?strip_suffix_Some in *; subst.
    + by left.
    + right. exists rest'. by right.
    + right. exists r'. by left.
    + by left.
Qed.

Lemma canonical_alias_sound_witness :
  canonical_remote_alias "objects/blobs/ab/cd" = Some "blobs/loose/ab/cd.blob.enc" ∧
  canonical_remote_alias "blobs/loose/ab/cd.blob.enc" = None.
Proof.
  split; [reflexivity|]. apply (canonical_alias_sound "objects/blobs/ab/cd"). reflexivity.
Defined.

Lemma host_remote_key_idem host_id key :
  host_remote_key host_id (host_remote_key host_id key) = host_remote_key host_id key.
Proof.
  unfold host_remote_key at 2 3. destruct (starts_with key (host_id +:+ "/")) eqn:Hs.
  - unfold host_remote_key. by rewrite Hs.
  - unfold host_remote_key. by rewrite str_app_assoc, starts_with_app.
Qed.

(** *** Host labels *)

Lemma chars_or_forallb keep other s :
  keep other = true → str_forallb keep (chars_or keep other s) = true.
Proof.
  intros Ho. induction s as [|c s IH]; [done|]. simpl. destruct (is_continuation c); [done|]. simpl.
  rewrite IH, andb_true_r. by destruct (keep c) eqn:?.
Qed.

Lemma label_char_plain c : label_char c = true → is_continuation c = false ∧ ws1 c = false.
Proof. destruct c as [[] [] [] [] [] [] [] []]; vm_compute; done. Qed.

Lemma chars_or_label s : str_forallb label_char s = true → chars_or label_char "-" s = s.
Proof.
  induction s as [|c s IH]; [done|]. simpl. intros [Hc Hs]%andb_true_iff.
  destruct (label_char_plain c Hc) as [-> _]. by rewrite Hc, IH.
Qed.

Lemma label_first_byte c : label_char c = true → (byte_val c < 128)%N.
Proof. destruct c as [[] [] [] [] [] [] [] []]; vm_compute; done. Qed.

Lemma trim_go_label w2 w3 s :
  (∀ a b, (byte_val a < 128)%N → w2 a b = false) → (∀ a b c, (byte_val a < 128)%N → w3 a b c = false) →
  str_forallb label_char s = true → trim_go ws1 w2 w3 s = s.
Proof.
  intros H2 H3 Hs. destruct s as [|a [|b [|c s]]]; simpl in *; [done|..];
    apply andb_true_iff in Hs as [Ha _]; destruct (label_char_plain a Ha) as [_ ->];
    apply label_first_byte in Ha; rewrite ?H2, ?H3 by done; done.
Qed.

Lemma trim_label s : str_forallb label_char s = true → trim s = s.
Proof.
  intros Hs. unfold trim, trim_start, trim_end.
  rewrite (trim_go_label ws2 ws3 s); [|..|done].
  - rewrite trim_go_label; [apply rev_rev| | |by rewrite str_forallb_rev].
    + intros a b Ha. unfold ws2. destruct (N.eqb_spec (byte_val a) 133), (N.eqb_spec (byte_val a) 160);
        [lia|lia|lia|by rewrite andb_false_r].
    + intros a b c Ha. unfold ws3. cbv zeta.
      repeat match goal with |- context [(byte_val a =? ?n)%N] =>
        replace (byte_val a =? n)%N with false by (symmetry; apply N.eqb_neq; lia) end.
      replace (128 <=? byte_val a)%N with false by (symmetry; apply N.leb_gt; lia).
      by rewrite !andb_false_r.
  - intros a b Ha. unfold ws2. destruct (N.eqb_spec (byte_val a) 194); [lia|done].
  - intros a b c Ha. unfold ws3. cbv zeta.
    repeat match goal with |- context [(byte_val a =? ?n)%N] =>
      replace (byte_val a =? n)%N with false by (symmetry; apply N.eqb_neq; lia) end. done.
Qed.

Lemma trim_start_matches_fix f s c t :
  trim_start_matches f s = String c t → trim_start_matches f (String c t) = String c t.
Proof. intros Hs%trim_start_matches_head. simpl. by rewrite Hs. Qed.

Lemma trim_matches_edges f s :
  let l := trim_matches f s in
  (∀ c r, l = String c r → f c = false) ∧ (∀ c r, l = r +:+ String c "" → f c = false) ∧
  trim_matches f l = l.
Proof.
  intros l. unfold l, trim_matches, trim_end_matches. set (t := trim_start_matches f s).
  set (u := trim_start_matches f (String.rev t)).
  assert (Hu : trim_start_matches f u = u).
  { unfold u. destruct (trim_start_matches f (String.rev t)) as [|c r] eqn:E; [done|].
    by eapply trim_start_matches_fix. }
  destruct (trim_start_matches_suffix f (String.rev t)) as (p & Hp & _). fold u in Hp.
  assert (Ht : t = String.rev u +:+ String.rev p) by (by rewrite <-rev_app_distr, <-Hp, rev_rev).
  assert (Hhead : ∀ c r, String.rev u = String c r → f c = false).
  { intros c r Hr. rewrite Hr, str_app_cons in Ht. by apply trim_start_matches_head in Ht. }
  split_and!; [done| |].
  - intros c r Hr. apply (f_equal String.rev) in Hr. rewrite rev_rev, rev_app_distr in Hr. simpl in Hr.
    unfold u in Hr. by apply trim_start_matches_head in Hr.
  - assert (trim_start_matches f (String.rev u) = String.rev u) as ->.
    { destruct (String.rev u) as [|c r] eqn:Hr; [done|]. simpl. by rewrite (Hhead c r). }
    by rewrite rev_rev, Hu.
Qed.

(** A host label is safe as the name of the host's directory on the remote
    whatever the host is called: it is never empty, has only ASCII letters, digits
    and [-_.] (so no separator), starts and ends with a letter or digit (so it is
    not [.] or [..] and hides nothing), and labelling a label changes nothing. *)
Theorem remote_host_label_safe host_name :
  let l := remote_host_label host_name in
  l ≠ "" ∧ str_forallb label_char l = true ∧
  (∀ c r, l = String c r → is_ascii_alphanumeric c = true) ∧
  (∀ c r, l = r +:+ String c "" → is_ascii_alphanumeric c = true) ∧
  remote_host_label l = l.
Proof.
  intros l. unfold l, remote_host_label. set (x := chars_or label_char "-" (trim host_name)).
  destruct (trim_matches_edges label_edge x) as (Hfirst & Hlast & Hidem).
  set (m := trim_matches label_edge x) in *.
  assert (Hall : str_forallb label_char m = true) by (by apply trim_matches_forallb, chars_or_forallb).
  assert (Halnum : ∀ c, label_char c = true → label_edge c = false → is_ascii_alphanumeric c = true).
  { clear. intros c. destruct c as [[] [] [] [] [] [] [] []]; vm_compute; done. }
  destruct (is_empty m) eqn:He.
  - split_and!; [done|done| | |done].
    + by intros c r [= <- _].
    + intros c r Hr. apply (f_equal String.rev) in Hr. rewrite rev_app_distr in Hr. by injection Hr as <- _.
  - apply is_empty_false in He. split_and!; [done|done| | |].
    + intros c r Hr. apply Halnum; [|by eapply Hfirst]. rewrite Hr in Hall. simpl in Hall.
      by apply andb_true_iff in Hall as [? _].
    + intros c r Hr. apply Halnum; [|by eapply Hlast]. rewrite Hr, str_forallb_app in Hall. simpl in Hall.
      apply andb_true_iff in Hall as [_ Hall]. by apply andb_true_iff in Hall as [? _].
    + rewrite trim_label, chars_or_label, Hidem by done. by apply is_empty_false in He as ->.
Qed.

(** ** The chunk index *)

Lemma check_entries_nil expected seen entries seen' :
  check_entries expected seen entries = ([], seen') ↔
  (∀ e, e ∈ entries → bmap_get expected (rci_oid e) = Some e) ∧
  NoDup (map rci_oid entries) ∧ (∀ oid, oid ∈ seen → oid ∉ map rci_oid entries) ∧
  seen' = bset_extend seen (map rci_oid entries).
Proof.
  revert seen; induction entries as [|e es IH]; intros seen; cbn [check_entries map].
  - split; [intros [= <-]|by intros (_ & _ & _ & ->)].
    split_and!; [set_solver|constructor|set_solver|done].
  - destruct (bmap_get expected (rci_oid e)) as [e'|] eqn:Hget.
    2:{ destruct (check_entries _ _ es). split; [done|]. intros (Hall & _).
        specialize (Hall e). rewrite Hget in Hall. discriminate Hall. left. }
    unfold bset_add. specialize (IH (bset_insert (rci_oid e) seen)).
    destruct (check_entries expected (bset_insert (rci_oid e) seen) es) as [issues s1].
    assert (Hcase : ((if negb (bset_contains seen (rci_oid e)) then [] else [DuplicateEntry (rci_oid e)])
       ++ (if bool_decide (e = e') then [] else [EntryMismatch (rci_oid e)]) ++ issues, s1) = ([], seen') ↔
       (rci_oid e ∉ seen) ∧ e = e' ∧ (issues, s1) = ([], seen')).
    { destruct (bset_contains seen (rci_oid e)) eqn:Hc; simpl.
      - apply bset_contains_true in Hc. naive_solver.
      - apply bset_contains_false in Hc. case_bool_decide; naive_solver. }
    rewrite Hcase, IH. clear Hcase IH.
    rewrite NoDup_cons. setoid_rewrite elem_of_bset_insert. setoid_rewrite elem_of_cons.
    split.
    + intros (Hs & <- & Hall & Hnd & Hdis & ->). split_and!; [naive_solver|naive_solver|done| |done].
      intros oid Ho [->|Hin]; [done|]. by apply (Hdis oid); [right|].
    + intros (Hall & [Hn Hnd] & Hdis & ->). split_and!; [|naive_solver|naive_solver|done| |done].
      * intros Hin. by apply (Hdis _ Hin); left.
      * intros oid [->|Ho] Hin; [done|]. by apply (Hdis oid Ho); right.
Qed.

Definition keyed (l : list RemoteChunkIndexEntry) : list (string * RemoteChunkIndexEntry) :=
  map (λ e, (rci_oid e, e)) l.

Lemma keyed_keys l : (keyed l).*1 = map rci_oid l.
Proof. unfold keyed. induction l as [|e l IH]; [done|]. csimpl. by rewrite IH. Qed.

Lemma elem_of_keyed l e k : (k, e) ∈ keyed l ↔ e ∈ l ∧ k = rci_oid e.
Proof. unfold keyed. rewrite list_elem_of_fmap. naive_solver. Qed.

(** Entries with distinct oids that are all found in the index of [expected], and as
    many as [expected] has, are [expected] up to order. *)
Lemma entries_permutation chunks expected :
  length chunks = length expected → NoDup (map rci_oid chunks) →
  (∀ e, e ∈ chunks → bmap_get (bmap_of_list (keyed expected)) (rci_oid e) = Some e) →
  chunks ≡ₚ expected ∧ NoDup (map rci_oid expected).
Proof.
  intros Hlen Hnd Hget.
  assert (Hexp : NoDup (map rci_oid expected)).
  { apply bset_of_list_length_eq. apply Nat.le_antisymm; [apply bset_of_list_length|].
    rewrite length_map, <-Hlen, <-(length_map rci_oid chunks). apply submseteq_length, NoDup_submseteq; [done|].
    intros oid Hin. apply list_elem_of_fmap in Hin as (e & -> & He). apply Hget in He.
    rewrite elem_of_bset_of_list, <-keyed_keys, <-elem_of_bset_of_list, <-bmap_of_list_keys.
    destruct (decide (rci_oid e ∈ (bmap_of_list (keyed expected)).*1)) as [?|Hn]; [done|].
    apply bmap_get_None in Hn. congruence. }
  split; [|done]. apply submseteq_length_Permutation; [|lia]. apply NoDup_submseteq.
  - by eapply NoDup_fmap_1.
  - intros e He. apply Hget, bmap_get_of_list in He; [|by rewrite keyed_keys].
    by apply elem_of_keyed in He as [? _].
Qed.

(** A chunk index shard validates against the expected entries iff it has the
    expected version and shard name and lists exactly the expected entries, in any
    order, without repetition. *)
Theorem chunk_index_validation_nil s expected :
  chunk_index_validation_issues s expected = [] ↔
  rcs_version s = 1 ∧ rcs_shard s = DEFAULT_CHUNK_INDEX_SHARD ∧
  NoDup (map rci_oid (rcs_chunks s)) ∧ rcs_chunks s ≡ₚ expected.
Proof.
  unfold chunk_index_validation_issues. fold (keyed expected).
  destruct (negb _ || negb _ || negb _) eqn:Hhead.
  { split; [done|]. intros (Hv & Hs & _ & Hp). exfalso. rewrite Hv, Hs, Hp in Hhead.
    by rewrite Z.eqb_refl, String.eqb_refl, Nat.eqb_refl in Hhead. }
  mj_bool. apply Nat.eqb_eq in H0.
  destruct (check_entries _ _ _) as [issues seen] eqn:Hce. rewrite !app_nil, if_nil, flat_map_nil.
  unfold has_duplicate_oids. rewrite negb_false_iff, Nat.eqb_eq, <-(length_map rci_oid (rcs_chunks s)).
  rewrite bset_of_list_length_eq. split.
  - intros (Hnd & -> & Hmiss). apply check_entries_nil in Hce as (Hget & _).
    destruct (entries_permutation _ _ H0 Hnd Hget) as [Hp _]. done.
  - intros (_ & _ & Hnd & Hp).
    assert (Hexp : NoDup (map rci_oid expected)) by (by rewrite <-Hp).
    assert (Hget : ∀ e, e ∈ rcs_chunks s → bmap_get (bmap_of_list (keyed expected)) (rci_oid e) = Some e).
    { intros e He. apply bmap_get_of_list; [by rewrite keyed_keys|]. apply elem_of_keyed. by rewrite <-Hp. }
    assert (Hce' : check_entries (bmap_of_list (keyed expected)) [] (rcs_chunks s) =
                   ([], bset_extend [] (map rci_oid (rcs_chunks s)))).
    { apply check_entries_nil. split_and!; [done|done|set_solver|done]. }
    rewrite Hce in Hce'. injection Hce' as -> ->. split_and!; [done|done|].
    intros oid. rewrite bmap_of_list_keys, elem_of_bset_of_list, keyed_keys, <-Hp. intros Hin.
    assert (bset_contains (bset_extend [] (map rci_oid (rcs_chunks s))) oid = true) as ->; [|done].
    apply bset_contains_true, elem_of_bset_extend. by right.
Qed.

(** ** The host index *)

Lemma duplicate_hosts_nil ids keys hosts :
  duplicate_hosts ids keys hosts = [] ↔
  NoDup (map rhs_id hosts) ∧ NoDup (map rhs_metadata_key hosts) ∧
  (∀ h, h ∈ hosts → (rhs_id h ∉ ids) ∧ (rhs_metadata_key h ∉ keys)).
Proof.
  revert ids keys; induction hosts as [|h hs IH]; intros ids keys; cbn [duplicate_hosts map bset_add].
  - split; [|done]. intros _. split_and!; [constructor..|set_solver].
  - unfold bset_add. rewrite !app_nil, IH, !NoDup_cons.
    assert (Hif : ∀ (b : bool) (i : RemoteHostIndexIssue), (if negb b then [] else [i]) = [] ↔ b = false)
      by (intros [] i; split; done).
    rewrite !Hif, !bset_contains_false. setoid_rewrite elem_of_cons. setoid_rewrite elem_of_bset_insert.
    rewrite !list_elem_of_fmap. naive_solver.
Qed.

Lemma filter_by_id_none hosts id :
  (id ∉ map rhs_id hosts) → filter (λ x, rhs_id x = id) hosts = [].
Proof.
  induction hosts as [|x hs IH]; [done|]. cbn [map]. rewrite not_elem_of_cons. intros [Hx Hin].
  rewrite filter_cons, decide_False by congruence. by apply IH.
Qed.

Lemma filter_by_id hosts h :
  NoDup (map rhs_id hosts) → h ∈ hosts → filter (λ x, rhs_id x = rhs_id h) hosts = [h].
Proof.
  induction hosts as [|x hs IH]; [by intros _ ?%elem_of_nil|]. cbn [map]. rewrite NoDup_cons.
  intros [Hx Hnd] [->|Hin]%elem_of_cons; rewrite filter_cons.
  - rewrite decide_True by done. by rewrite filter_by_id_none.
  - rewrite decide_False; [by apply IH|]. intros Heq. apply Hx. rewrite Heq.
    apply list_elem_of_fmap. by exists h.
Qed.

Lemma select_by_id hosts h :
  NoDup (map rhs_id hosts) → h ∈ hosts → select_remote_host hosts (rhs_id h) = Ok h.
Proof. intros Hnd Hin. unfold select_remote_host. by rewrite filter_by_id. Qed.

(** Adding or replacing a host in the index keeps it well formed: the hosts stay
    sorted by id with distinct ids, the new summary is the one its id selects, every
    other host is still selected by its id as before, and no other host appears. *)
Theorem upsert_host_spec i summary t :
  NoDup (map rhs_id (rhi_hosts i)) →
  let i' := upsert_host i summary t in
  NoDup (map rhs_id (rhi_hosts i')) ∧ StronglySorted (key_le rhs_id) (rhi_hosts i') ∧
  (∀ h, h ∈ rhi_hosts i' ↔ h = summary ∨ (h ∈ rhi_hosts i ∧ rhs_id h ≠ rhs_id summary)) ∧
  select_remote_host (rhi_hosts i') (rhs_id summary) = Ok summary ∧
  (∀ h, h ∈ rhi_hosts i → rhs_id h ≠ rhs_id summary →
        select_remote_host (rhi_hosts i') (rhs_id h) = Ok h).
Proof.
  intros Hnd i'. set (rest := filter (λ h, rhs_id h ≠ rhs_id summary) (rhi_hosts i)).
  assert (Hperm : rhi_hosts i' ≡ₚ rest ++ [summary]) by apply sort_by_perm.
  assert (Hin : ∀ h, h ∈ rhi_hosts i' ↔ h = summary ∨ (h ∈ rhi_hosts i ∧ rhs_id h ≠ rhs_id summary)).
  { intros h. rewrite Hperm, elem_of_app, list_elem_of_singleton. unfold rest.
    rewrite list_elem_of_filter. tauto. }
  assert (Hnd' : NoDup (map rhs_id (rhi_hosts i'))).
  { rewrite Hperm, map_app. apply NoDup_app. split_and!; [| |apply NoDup_singleton].
    - unfold rest. clear -Hnd. induction (rhi_hosts i) as [|x l IH]; [constructor|].
      cbn [map] in Hnd. apply NoDup_cons in Hnd as [Hx Hnd]. rewrite filter_cons.
      case_decide; [|by apply IH]. cbn [map]. constructor; [|by apply IH].
      intros Hin. apply Hx. apply list_elem_of_fmap in Hin as (y & -> & Hy).
      apply list_elem_of_filter in Hy as [_ Hy]. apply list_elem_of_fmap. by exists y.
    - intros oid Ho1 Ho2. apply list_elem_of_fmap in Ho1 as (y & -> & Hy).
      apply list_elem_of_filter in Hy as [Hy _]. by apply list_elem_of_singleton in Ho2. }
  split_and!; [done|apply sort_by_sorted|done| |].
  - apply select_by_id; [done|]. apply Hin. by left.
  - intros h Hh Hne. apply select_by_id; [done|]. apply Hin. by right.
Qed.

Definition ex_host (id name : string) : RemoteHostSummary := {|
  rhs_id := id; rhs_name := name; rhs_last_synced_at := 0; rhs_current_snapshot := None;
  rhs_metadata_key := host_metadata_key id |}.

Lemma upsert_host_spec_witness :
  let i := {| rhi_version := 1; rhi_updated_at := 0; rhi_hosts := [ex_host "a" "x"; ex_host "b" "y"] |} in
  rhi_hosts (upsert_host i (ex_host "a" "z") 5) = [ex_host "a" "z"; ex_host "b" "y"] ∧
  select_remote_host (rhi_hosts (upsert_host i (ex_host "a" "z") 5)) "a" = Ok (ex_host "a" "z").
Proof.
  intros i. split; [vm_compute; reflexivity|].
  refine (proj1 (proj2 (proj2 (proj2 (upsert_host_spec i (ex_host "a" "z") 5 _))))).
  apply (bool_decide_unpack _). vm_compute. exact I.
Defined.

(** ** Garbage collection marks *)

(** The mark a host writes for a set of live objects validates against that set,
    for any list of keys with those elements; and a mark that validates names this
    host, this snapshot and exactly the live objects, once each. *)
Theorem gc_mark_exact :
  (∀ host t current keys,
     gc_mark_validation_issues (RemoteGcMark_new host t current keys) host current (bset_of_list keys) = []) ∧
  (∀ m host current expected,
     gc_mark_validation_issues m host current expected = [] →
     gm_version m = 1 ∧ gm_host_id m = host ∧ gm_current_snapshot m = current ∧
     NoDup (gm_object_keys m) ∧ ∀ key, key ∈ gm_object_keys m ↔ key ∈ expected).
Proof.
  assert (Hiff : ∀ m host current expected,
    gc_mark_validation_issues m host current expected = [] ↔
    gm_version m = 1 ∧ gm_host_id m = host ∧ gm_current_snapshot m = current ∧
    NoDup (gm_object_keys m) ∧ (∀ key, key ∈ expected → key ∈ gm_object_keys m) ∧
    (∀ key, key ∈ gm_object_keys m → key ∈ expected)).
  { intros m host current expected. unfold gc_mark_validation_issues.
    rewrite !app_nil, !flat_map_nil, !if_nil, !if_nil'. unfold has_duplicate_object_keys.
    rewrite negb_false_iff, Nat.eqb_eq, bset_of_list_length_eq, Z.eqb_eq, String.eqb_eq, bool_decide_eq_true.
    setoid_rewrite if_nil'. setoid_rewrite bset_contains_true. setoid_rewrite elem_of_bset_of_list. tauto. }
  split.
  - intros host t current keys. apply Hiff. simpl. rewrite sort_dedup_set.
    split_and!; [done..|apply bsorted_NoDup, bset_of_list_sorted|done|done].
  - intros m host current expected Hnil. apply Hiff in Hnil as (? & ? & ? & ? & ? & ?).
    split_and!; [done..|]. intros key. split; auto.
Qed.
