(* ===== verification/Db.v ===== *)
(** * majutsu-db: queue items, journal records and references

    [src/internal/majutsu_db.rs]: the upload queue items and the keys they may
    write to, the event journal, and the checks of local and remote references.
    The SQL schema is data of the database engine and is not modelled. *)

From S2P Require Import Prelude RStr BTree MachInt Core Util Store.

Local Open Scope Z_scope.

(** ** Upload queue items *)

Inductive RemoteObjectKeyIssue := NotRelativeSlashPath | UnsafeComponent.

#[export] Instance RemoteObjectKeyIssue_eq_dec : EqDecision RemoteObjectKeyIssue.
Proof. solve_decision. Defined.

Definition remote_object_key_issue (key : string) : option RemoteObjectKeyIssue :=
  if is_empty key || starts_with key "/" || ends_with key "/" || contains_char key "\"%char
  then Some NotRelativeSlashPath
  else if existsb (λ part, is_empty part || (part =? ".")%string || (part =? "..")%string) (split slash key)
  then Some UnsafeComponent
  else None.

Definition is_valid_remote_object_key (key : string) : bool :=
  match remote_object_key_issue key with None => true | Some _ => false end.

(** BLAKE3 of a text, in hexadecimal. *)
Class Blake3Text := { blake3_text_hex : string → string }.

Record UploadQueueItem := {
  uq_id : string; uq_key : string; uq_source : option string; uq_inline : option (list Z);
  uq_created_at : DateTime; uq_attempts : Z; uq_retry_after : option DateTime; uq_overwrite : bool }.

Inductive UploadQueueItemIssue :=
| IdDoesNotMatchKey (expected : string)
| InvalidKey (reason : RemoteObjectKeyIssue)
| BothSourceAndInline
| MissingPayload.

Definition UploadQueueItem_inline (id key : string) (bytes : list Z) (created_at : DateTime) : UploadQueueItem :=
  {| uq_id := id; uq_key := key; uq_source := None; uq_inline := Some bytes; uq_created_at := created_at;
     uq_attempts := 0; uq_retry_after := None; uq_overwrite := false |}.

Definition UploadQueueItem_file (id key source : string) (created_at : DateTime) : UploadQueueItem :=
  {| uq_id := id; uq_key := key; uq_source := Some source; uq_inline := None; uq_created_at := created_at;
     uq_attempts := 0; uq_retry_after := None; uq_overwrite := false |}.

Definition with_overwrite (i : UploadQueueItem) (overwrite : bool) : UploadQueueItem :=
  {| uq_id := uq_id i; uq_key := uq_key i; uq_source := uq_source i; uq_inline := uq_inline i;
     uq_created_at := uq_created_at i; uq_attempts := uq_attempts i; uq_retry_after := uq_retry_after i;
     uq_overwrite := overwrite |}.

Definition preserve_retry_state (i existing : UploadQueueItem) : UploadQueueItem :=
  {| uq_id := uq_id i; uq_key := uq_key i; uq_source := uq_source i; uq_inline := uq_inline i;
     uq_created_at := uq_created_at existing; uq_attempts := uq_attempts existing;
     uq_retry_after := uq_retry_after existing; uq_overwrite := uq_overwrite i |}.

(** [self.attempts += 1] on a [u32], which wraps in the release build. *)
Definition record_attempt (i : UploadQueueItem) (retry_after : option DateTime) : UploadQueueItem :=
  {| uq_id := uq_id i; uq_key := uq_key i; uq_source := uq_source i; uq_inline := uq_inline i;
     uq_created_at := uq_created_at i; uq_attempts := (uq_attempts i + 1) mod 2 ^ 32; uq_retry_after := retry_after;
     uq_overwrite := uq_overwrite i |}.

Definition expected_upload_queue_item_id `{!Blake3Text} (key : string) : string :=
  "upload-" +:+ blake3_text_hex key.

Definition upload_validation_issues `{!Blake3Text} (i : UploadQueueItem) : list UploadQueueItemIssue :=
  let expected_id := expected_upload_queue_item_id (uq_key i) in
  (if (uq_id i =? expected_id)%string then [] else [IdDoesNotMatchKey expected_id])
  ++ (match remote_object_key_issue (uq_key i) with Some reason => [InvalidKey reason] | None => [] end)
  ++ (match uq_source i, uq_inline i with
      | Some _, Some _ => [BothSourceAndInline]
      | None, None => [MissingPayload]
      | _, _ => []
      end).

(** ** The event journal *)

Record EventJournalRecord := {
  ej_event_id : string; ej_kind : string; ej_observed_at : DateTime; ej_detail : string;
  ej_root_id : option string; ej_path : option string; ej_event_kind : option string;
  ej_raw_backend : option string; ej_remote_journal_key : option string;
  ej_remote_journal_synced_at : option DateTime; ej_durable_tombstone : option bool;
  ej_durable_entry_kind : option string; ej_durable_payload_oid : option string;
  ej_durable_payload_key : option string; ej_durable_payload_size : option Z;
  ej_durable_large_manifest_key : option string; ej_durable_large_chunk_count : option Z;
  ej_durable_symlink_target : option string; ej_durable_special_kind : option string;
  ej_durable_mode : option Z; ej_durable_modified : option Z; ej_durable_uid : option Z;
  ej_durable_gid : option Z }.

Definition EventJournalRecord_with (event_id kind : string) (observed_at : DateTime) (detail : string)
    (root_id path event_kind raw_backend : option string) : EventJournalRecord :=
  {| ej_event_id := event_id; ej_kind := kind; ej_observed_at := observed_at; ej_detail := detail;
     ej_root_id := root_id; ej_path := path; ej_event_kind := event_kind; ej_raw_backend := raw_backend;
     ej_remote_journal_key := None; ej_remote_journal_synced_at := None; ej_durable_tombstone := None;
     ej_durable_entry_kind := None; ej_durable_payload_oid := None; ej_durable_payload_key := None;
     ej_durable_payload_size := None; ej_durable_large_manifest_key := None;
     ej_durable_large_chunk_count := None; ej_durable_symlink_target := None;
     ej_durable_special_kind := None; ej_durable_mode := None; ej_durable_modified := None;
     ej_durable_uid := None; ej_durable_gid := None |}.

Definition EventJournalRecord_new (event_id kind : string) (observed_at : DateTime) (detail : string) :=
  EventJournalRecord_with event_id kind observed_at detail None None None None.

Definition new_file_event (event_id : string) (observed_at : DateTime)
    (detail root_id path event_kind raw_backend : string) : EventJournalRecord :=
  EventJournalRecord_with event_id "fs-event" observed_at detail
    (Some root_id) (Some path) (Some event_kind) (Some raw_backend).

Definition is_snapshot_finish (e : EventJournalRecord) : bool := (ej_kind e =? "snapshot-finish")%string.
Definition is_pending_trigger (e : EventJournalRecord) : bool :=
  str_matches ["fs-event"; "periodic-rescan"] (ej_kind e).
Definition is_remote_journal_pending (e : EventJournalRecord) : bool :=
  is_pending_trigger e && bool_decide (ej_remote_journal_synced_at e = None).

Inductive EventJournalRecordIssue := EmptyEventId | EmptyKind | EmptyDetail.

Definition journal_validation_issues (e : EventJournalRecord) : list EventJournalRecordIssue :=
  (if is_empty (trim (ej_event_id e)) then [EmptyEventId] else [])
  ++ (if is_empty (trim (ej_kind e)) then [EmptyKind] else [])
  ++ (if is_empty (trim (ej_detail e)) then [EmptyDetail] else []).

(** [Iterator::max]. *)
Definition max_time (l : list DateTime) : option DateTime :=
  match l with [] => None | x :: r => Some (fold_left Z.max r x) end.

Definition has_pending_journal_events (records : list EventJournalRecord) : bool :=
  let last_snapshot_finish := max_time (map ej_observed_at (filter (λ e, is_snapshot_finish e = true) records)) in
  existsb (λ e, is_pending_trigger e &&
    match last_snapshot_finish with Some finished_at => finished_at <? ej_observed_at e | None => true end)
    records.

(** ** Local references *)

Inductive LocalRefIssue :=
| LrDuplicate (name : string)
| LrMissingSnapshot (name value : string)
| LrInvalidLastSynced (value error : string)
| LrUnknown (name : string).

Definition local_ref_value_issues `{!Chrono} (snapshot_ids : list string) (name value : string)
    : list LocalRefIssue :=
  if (name =? "current")%string then
    if bset_contains snapshot_ids value then [] else [LrMissingSnapshot name value]
  else if (name =? "last-synced")%string then
    match parse_from_rfc3339 value with Ok _ => [] | Err e => [LrInvalidLastSynced value e] end
  else if (name =? "current-branch")%string then
    if is_empty (trim value) || contains_char value slash || contains_char value "\"%char
    then [LrUnknown name] else []
  else if starts_with name "branches/" then
    if bset_contains snapshot_ids value then [] else [LrMissingSnapshot name value]
  else [LrUnknown name].

Fixpoint local_refs_from `{!Chrono} (seen : list string) (refs : list (string * string))
    (snapshot_ids : list string) : list LocalRefIssue :=
  match refs with
  | [] => []
  | (name, value) :: rest =>
    let '(fresh, seen') := bset_add name seen in
    (if fresh : bool then [] else [LrDuplicate name])
    ++ local_ref_value_issues snapshot_ids name value
    ++ local_refs_from seen' rest snapshot_ids
  end.
Definition local_ref_issues `{!Chrono} (refs : list (string * string)) (snapshot_ids : list string) :=
  local_refs_from [] refs snapshot_ids.

(** ** Remote references *)

Definition parse_canonical_host_ref_name (name : string) : option (string * string) :=
  match split_once name "/refs/" with
  | None => None
  | Some (host_id, rest) =>
    if is_empty host_id || is_empty rest || contains_char rest slash then None else Some (host_id, rest)
  end.

Definition parse_canonical_host_root_ack_ref_name (name : string) : option (string * string) :=
  match split_once name "/roots/" with
  | None => None
  | Some (host_id, rest) =>
    match strip_suffix "/ack" rest with
    | None => None
    | Some root_id =>
      if is_empty host_id || is_empty root_id || contains_char root_id slash then None
      else Some (host_id, root_id)
    end
  end.

Record RemoteRootAckCache := {
  ra_snapshot_id : string; ra_tree_id : string; ra_tree_key : string; ra_file_count : Z;
  ra_synced_at : option string }.

(** [serde_json::from_str] at [RemoteRootAckCache]. *)
Class RootAckJson := { root_ack_from_str : string → result RemoteRootAckCache string }.

Inductive RemoteRefIssue :=
| RrEmptyRemote (name : string)
| RrInvalidObservedAt (name value error : string)
| RrUnsupportedName (name : string)
| RrHostMismatch (host_id config_host_id : string)
| RrMissingSnapshot (name value : string)
| RrInvalidLastSynced (name value error : string)
| RrUnsupportedRefName (name : string)
| RrInvalidRootAck (name error : string)
| RrInvalidRootAckSnapshot (name value : string)
| RrInvalidRootAckSyncedAt (name value error : string).

Section RemoteRefs.
Context `{!Chrono, !RootAckJson}.

Definition validate_remote_root_ack_ref (name value : string) (snapshot_ids : list string)
    : list RemoteRefIssue :=
  match root_ack_from_str value with
  | Err error => [RrInvalidRootAck name error]
  | Ok ack =>
    (if bset_contains snapshot_ids (ra_snapshot_id ack) then []
     else [RrInvalidRootAckSnapshot name (ra_snapshot_id ack)])
    ++ (if is_empty (trim (ra_tree_id ack)) || is_empty (trim (ra_tree_key ack))
        then [RrInvalidRootAck name "empty tree_id or tree_key"] else [])
    ++ (match ra_synced_at ack with
        | Some synced_at =>
          match parse_from_rfc3339 synced_at with
          | Err e => [RrInvalidRootAckSyncedAt name synced_at e]
          | Ok _ => []
          end
        | None => []
        end)
  end.

Definition remote_ref_issues_of (config_host_id : string) (snapshot_ids : list string)
    (r : string * string * string * string) : list RemoteRefIssue :=
  let '(remote, name, value, observed_at) := r in
  (if is_empty (trim remote) then [RrEmptyRemote name] else [])
  ++ (match parse_from_rfc3339 observed_at with
      | Err e => [RrInvalidObservedAt name observed_at e] | Ok _ => [] end)
  ++ (let parsed_ref := parse_canonical_host_ref_name name in
      let parsed_root_ack := parse_canonical_host_root_ack_ref_name name in
      match (match parsed_ref with Some (h, _) => Some h | None => fst <$> parsed_root_ack end) with
      | None => [RrUnsupportedName name]
      | Some host_id =>
        (if (host_id =? config_host_id)%string then [] else [RrHostMismatch host_id config_host_id])
        ++ (match parsed_root_ack with
            | Some (_, root_id) => validate_remote_root_ack_ref name value snapshot_ids
            | None =>
              match parsed_ref with
              | None => [RrUnsupportedName name]
              | Some (_, ref_name) =>
                if (ref_name =? "current")%string then
                  if bset_contains snapshot_ids value then [] else [RrMissingSnapshot name value]
                else if (ref_name =? "last-synced")%string then
                  match parse_from_rfc3339 value with
                  | Err e => [RrInvalidLastSynced name value e] | Ok _ => [] end
                else [RrUnsupportedRefName name]
              end
            end)
      end).

Definition remote_ref_issues (refs : list (string * string * string * string)) (config_host_id : string)
    (snapshot_ids : list string) : list RemoteRefIssue :=
  flat_map (remote_ref_issues_of config_host_id snapshot_ids) refs.

End RemoteRefs.

(** ** Properties *)

Lemma last_part_empty r : last (split slash (r +:+ "/")) = Some "".
Proof. change "/" with (String slash ""). rewrite split_app_sep. apply last_snoc. Qed.

(** The key check of the upload queue and the key validation of the object
    store accept the same keys, and an accepted key is a plain relative path: every
    component is a normal name, so joining it to a directory stays inside. *)
Theorem remote_object_key_safe key :
  (is_valid_remote_object_key key = true ↔ validate_slash_relative_key key = Ok tt) ∧
  (is_valid_remote_object_key key = true →
   path_components key = map Normal (split slash key) ∧
   Forall (λ n, n ≠ "" ∧ n ≠ "." ∧ n ≠ "..") (split slash key) ∧ contains_char key "\"%char = false).
Proof.
  assert (Hiff : is_valid_remote_object_key key = true ↔
    contains_char key "\"%char = false ∧ path_is_absolute key = false ∧ Forall plain_part (split slash key)).
  { unfold is_valid_remote_object_key, remote_object_key_issue, path_is_absolute.
    rewrite <-bad_parts_nil. destruct (contains_char key "\"%char); [rewrite orb_true_r; naive_solver|].
    destruct (starts_with key "/"); [rewrite orb_true_r; naive_solver|]. rewrite !orb_false_r.
    destruct (existsb _ (split slash key)) eqn:Hbad.
    { destruct (is_empty key || ends_with key "/"); naive_solver. }
    apply bad_parts_nil in Hbad.
    destruct (is_empty key) eqn:He.
    { apply is_empty_true in He as ->. apply Forall_cons_1 in Hbad as [Hb _]. by apply plain_part_iff in Hb as [? _]. }
    destruct (ends_with key "/") eqn:Hend; [|naive_solver].
    apply ends_with_true in Hend as [r ->]. exfalso.
    pose proof (last_part_empty r) as Hl. apply last_Some_elem_of in Hl.
    rewrite Forall_forall in Hbad. apply Hbad, plain_part_iff in Hl as [? _]. done. }
  split; [by rewrite Hiff, validate_slash_relative_key_Ok|].
  intros (Hb & Habs & Hall)%Hiff. split_and!; [by apply plain_components| |done].
  eapply Forall_impl; [done|]. intros n. apply plain_part_iff.
Qed.

Lemma remote_object_key_safe_witness :
  is_valid_remote_object_key "host/refs/current" = true ∧
  path_components "host/refs/current" = map Normal ["host"; "refs"; "current"].
Proof. split; [reflexivity|]. apply (remote_object_key_safe "host/refs/current"). reflexivity. Defined.

(** *** Journal *)

Lemma max_time_spec l :
  match max_time l with
  | None => l = []
  | Some m => m ∈ l ∧ ∀ x, x ∈ l → x <= m
  end.
Proof.
  destruct l as [|x l]; [done|]. simpl. revert x; induction l as [|y l IH]; intros x; simpl.
  - split; [left|]. intros z Hz. apply list_elem_of_singleton in Hz. lia.
  - destruct (IH (Z.max x y)) as [Hin Hmax]. split.
    + apply elem_of_cons in Hin as [->|Hin]; [|by do 2 right].
      destruct (Z.max_spec x y) as [[_ ->]|[_ ->]]; [right; left|left].
    + intros z Hz. pose proof (Hmax (Z.max x y) (list_elem_of_here _ _)).
      apply elem_of_cons in Hz as [Hz|Hz]; [lia|]. apply elem_of_cons in Hz as [Hz|Hz]; [lia|].
      apply Hmax. by right.
Qed.

(** A host has pending journal events iff a change or rescan was observed
    strictly later than every finished snapshot. *)
Theorem has_pending_journal_events_spec records :
  has_pending_journal_events records = true ↔
  ∃ e, e ∈ records ∧ is_pending_trigger e = true ∧
    ∀ f, f ∈ records → is_snapshot_finish f = true → ej_observed_at f < ej_observed_at e.
Proof.
  unfold has_pending_journal_events. rewrite existsb_elem_of.
  pose proof (max_time_spec (map ej_observed_at (filter (λ e, is_snapshot_finish e = true) records))) as Hmax.
  assert (Hin : ∀ t, t ∈ map ej_observed_at (filter (λ e, is_snapshot_finish e = true) records) ↔
    ∃ f, f ∈ records ∧ is_snapshot_finish f = true ∧ t = ej_observed_at f).
  { intros t. rewrite list_elem_of_fmap. setoid_rewrite list_elem_of_filter. naive_solver. }
  f_equiv. intros e. rewrite andb_true_iff.
  destruct (max_time _) as [m|].
  - rewrite Z.ltb_lt. destruct Hmax as [Hm Hle]. apply Hin in Hm as (f & Hf & Hfin & ->).
    split; [|naive_solver]. intros (He & Ht & Hlt). split_and!; [done..|]. intros g Hg Hgf.
    assert (ej_observed_at g <= ej_observed_at f) by (apply Hle, Hin; eauto). lia.
  - split; [|naive_solver]. intros (He & Ht & _). split_and!; [done..|]. intros g Hg Hgf.
    exfalso. assert (Hx : ej_observed_at g ∈ (map ej_observed_at (filter (λ e, is_snapshot_finish e = true) records)))
      by (apply Hin; eauto). rewrite Hmax in Hx. by apply elem_of_nil in Hx.
Qed.

(** *** References *)

Lemma local_refs_from_nil `{!Chrono} seen refs ids :
  local_refs_from seen refs ids = [] ↔
  NoDup refs.*1 ∧ (∀ n, n ∈ seen → n ∉ refs.*1) ∧
  ∀ name value, (name, value) ∈ refs → local_ref_value_issues ids name value = [].
Proof.
  revert seen; induction refs as [|[n v] refs IH]; intros seen; cbn [local_refs_from fmap list_fmap fst].
  - split; [|done]. intros _. split_and!; [constructor|set_solver|set_solver].
  - unfold bset_add. rewrite !app_nil, IH, NoDup_cons.
    assert (Hif : ∀ b : bool, (if negb b then [] else [LrDuplicate n]) = [] ↔ b = false) by (intros []; split; done).
    rewrite Hif, bset_contains_false. setoid_rewrite elem_of_bset_insert.
    setoid_rewrite elem_of_cons. setoid_rewrite pair_equal_spec.
    split.
    + intros (Hn & Hv & Hnd & Hs & Hall). split_and!; [|done| |naive_solver].
      * intros Hin. by apply (Hs n); [left|].
      * intros m Hm [->|Hin]; [done|]. by apply (Hs m); [right|].
    + intros ([Hn Hnd] & Hs & Hall). split_and!; [|naive_solver|done| |naive_solver].
      * intros Hin. by apply (Hs n Hin); left.
      * intros m [->|Hm] Hin; [done|]. by apply (Hs m Hm); right.
Qed.

Lemma host_ref_key_roundtrip host name :
  host ≠ "" → contains_char host slash = false → name ≠ "" → contains_char name slash = false →
  parse_canonical_host_ref_name (host_ref_key host name) = Some (host, name).
Proof.
  intros Hh Hhs Hn Hns. unfold parse_canonical_host_ref_name, host_ref_key.
  change ("/refs/" +:+ name) with (String slash "refs/" +:+ name).
  change "/refs/" with (String slash "refs/"). rewrite split_once_app by done.
  apply is_empty_false in Hh as ->. apply is_empty_false in Hn as ->. by rewrite Hns.
Qed.

Lemma host_root_ack_roundtrip host root :
  host ≠ "" → contains_char host slash = false → root ≠ "" → contains_char root slash = false →
  parse_canonical_host_root_ack_ref_name (host_root_ack_ref_key host root) = Some (host, root).
Proof.
  intros Hh Hhs Hn Hns. unfold parse_canonical_host_root_ack_ref_name, host_root_ack_ref_key.
  change ("/roots/" +:+ root +:+ "/ack") with (String slash "roots/" +:+ root +:+ "/ack").
  change "/roots/" with (String slash "roots/"). rewrite split_once_app, strip_suffix_app by done.
  apply is_empty_false in Hh as ->. apply is_empty_false in Hn as ->. by rewrite Hns.
Qed.

(** A name that contains [/part/] has [part] as an inner component. *)
Lemma split_once_inner name part a b :
  contains_char part slash = false → split_once name (String slash (part +:+ "/")) = Some (a, b) →
  split slash name = split slash a ++ part :: split slash b.
Proof.
  intros Hp ->%split_once_Some. rewrite str_app_cons, <-str_app_assoc.
  change ("/" +:+ b) with (String slash b). by rewrite split_app_sep, split_app.
Qed.

Lemma split_nonempty s : ∃ w ws, split slash s = w :: ws.
Proof. destruct (split slash s) as [|w ws] eqn:Hs; [by apply split_by_not_nil in Hs|by exists w, ws]. Qed.

(** The names of references proper are not root acknowledgements. *)
Lemma host_ref_not_ack host name :
  contains_char host slash = false → contains_char name slash = false →
  parse_canonical_host_root_ack_ref_name (host_ref_key host name) = None.
Proof.
  intros Hhs Hns. unfold parse_canonical_host_root_ack_ref_name.
  destruct (split_once (host_ref_key host name) "/roots/") as [[a b]|] eqn:Hs; [|done]. exfalso.
  apply (split_once_inner _ "roots") in Hs; [|done]. unfold host_ref_key in Hs.
  change ("/refs/" +:+ name) with (String slash ("refs" +:+ String slash name)) in Hs.
  rewrite split_app, split_app, split_no_sep in Hs by done.
  destruct (split_nonempty a) as (w & ws & Ha), (split_nonempty b) as (w' & ws' & Hb).
  rewrite Ha, Hb in Hs. destruct ws as [|x [|y ws]]; simplify_eq/=.
  by destruct ws.
Qed.

(** An acknowledgement is not a reference, unless the root is called [refs]. *)
Lemma host_ack_not_ref host root :
  contains_char host slash = false → contains_char root slash = false → root ≠ "refs" →
  parse_canonical_host_ref_name (host_root_ack_ref_key host root) = None.
Proof.
  intros Hhs Hns Hne. unfold parse_canonical_host_ref_name.
  destruct (split_once (host_root_ack_ref_key host root) "/refs/") as [[a b]|] eqn:Hs; [|done]. exfalso.
  apply (split_once_inner _ "refs") in Hs; [|done]. unfold host_root_ack_ref_key in Hs.
  change ("/roots/" +:+ root +:+ "/ack") with (String slash ("roots" +:+ String slash (root +:+ String slash "ack"))) in Hs.
  rewrite split_app, split_app, split_app, split_no_sep in Hs by done.
  destruct (split_nonempty a) as (w & ws & Ha), (split_nonempty b) as (w' & ws' & Hb).
  rewrite Ha, Hb in Hs. destruct ws as [|x [|y [|z ws]]]; simplify_eq/=.
  by destruct ws.
Qed.

(** The references a host records for itself pass the check: for a host label
    without slash, its current reference to a known snapshot, a last-synced time
    that parses, and the acknowledgement of a root raise no issue; the root must not
    be called [refs]. *)
Theorem own_refs_valid `{!Chrono, !RootAckJson} remote host root snap last observed ack t t' a ids :
  trim remote ≠ "" → host ≠ "" → contains_char host slash = false →
  root ≠ "" → contains_char root slash = false → root ≠ "refs" →
  snap ∈ ids → parse_from_rfc3339 last = Ok t → parse_from_rfc3339 observed = Ok t' →
  root_ack_from_str ack = Ok a → ra_snapshot_id a ∈ ids → trim (ra_tree_id a) ≠ "" →
  trim (ra_tree_key a) ≠ "" → ra_synced_at a = None →
  remote_ref_issues
    [(remote, host_current_ref_key host, snap, observed);
     (remote, host_last_synced_ref_key host, last, observed);
     (remote, host_root_ack_ref_key host root, ack, observed)] host ids = [].
Proof.
  intros Hr Hh Hhs Hro Hros Hnr Hsnap Hlast Hobs Hack Hasnap Ht1 Ht2 Hsync.
  unfold remote_ref_issues. cbn [flat_map]. unfold remote_ref_issues_of.
  apply is_empty_false in Hr as ->. rewrite Hobs. unfold host_current_ref_key, host_last_synced_ref_key.
  rewrite !host_ref_key_roundtrip, !host_ref_not_ack by done.
  rewrite host_ack_not_ref, host_root_ack_roundtrip by done. cbn [fmap option_fmap option_map fst].
  rewrite String.eqb_refl. simpl. rewrite Hlast.
  rewrite (proj2 (bset_contains_true _ _) Hsnap). unfold validate_remote_root_ack_ref.
  rewrite Hack, (proj2 (bset_contains_true _ _) Hasnap), Hsync.
  apply is_empty_false in Ht1 as ->. apply is_empty_false in Ht2 as ->. done.
Qed.

(** A root called [refs] makes the check misfire: the name of its
    acknowledgement, [host/roots/refs/ack], is also read as the reference [ack] of a
    host [host/roots], so a host mismatch is reported whatever the reference says. *)
Theorem root_named_refs_misparsed `{!Chrono, !RootAckJson} remote host ack observed ids :
  host ≠ "" → contains_char host slash = false →
  RrHostMismatch (host +:+ "/roots") host ∈
    remote_ref_issues [(remote, host_root_ack_ref_key host "refs", ack, observed)] host ids.
Proof.
  intros Hh Hhs. unfold remote_ref_issues. cbn [flat_map]. rewrite app_nil_r.
  unfold remote_ref_issues_of.
  assert (Hp : parse_canonical_host_ref_name (host_root_ack_ref_key host "refs") = Some (host +:+ "/roots", "ack")).
  { unfold parse_canonical_host_ref_name, host_root_ack_ref_key.
    assert (Hs : split_once (host +:+ "/roots/refs/ack") "/refs/" = Some (host +:+ "/roots", "ack")).
    { clear Hh. induction host as [|c h IH]; [reflexivity|].
      unfold contains_char in *. cbn [str_existsb] in Hhs. apply orb_false_iff in Hhs as [Hc Hhs].
      rewrite !str_app_cons. cbn [split_once strip_prefix]. unfold slash in Hc. rewrite Hc.
      by rewrite IH. }
    change ("/roots/" +:+ "refs" +:+ "/ack") with "/roots/refs/ack". rewrite Hs.
    by destruct host. }
  rewrite Hp. rewrite elem_of_app, elem_of_app. right. right. apply elem_of_app. left.
  destruct (host +:+ "/roots" =? host)%string eqn:He; [|by left].
  apply String.eqb_eq in He. apply (f_equal String.length) in He. rewrite str_length_app in He. simpl in He. lia.
Qed.

(** ** Concrete runs *)

Module DbExample.
Import CoreExample.

Definition ex_ack : RemoteRootAckCache := {|
  ra_snapshot_id := "s1"; ra_tree_id := "t"; ra_tree_key := "objects/trees/t"; ra_file_count := 1;
  ra_synced_at := None |}.
#[export] Instance ex_ack_json : RootAckJson := {| root_ack_from_str _ := Ok ex_ack |}.

Lemma own_refs_valid_witness :
  remote_ref_issues
    [("s3://b", host_current_ref_key "h", "s1", "5"); ("s3://b", host_last_synced_ref_key "h", "4", "5");
     ("s3://b", host_root_ack_ref_key "h" "home", "{}", "5")] "h" ["s1"] = [].
Proof.
  apply (own_refs_valid "s3://b" "h" "home" "s1" "4" "5" "{}" 4 5 ex_ack ["s1"]);
    first [left|reflexivity|vm_compute; discriminate].
Defined.

Lemma root_named_refs_misparsed_witness :
  RrHostMismatch "h/roots" "h" ∈ remote_ref_issues [("s3://b", "h/roots/refs/ack", "{}", "5")] "h" ["s1"].
Proof. apply (root_named_refs_misparsed "s3://b" "h" "{}" "5" ["s1"]); [discriminate|reflexivity]. Defined.

End DbExample.
