(* ===== verification/Crypto.v ===== *)
(** * majutsu-crypto and the object codec

    [src/internal/majutsu_crypto.rs] and the object layer of [src/main.rs]
    ([encode_object], [decode_object], [object_storage_id]).  The key files live
    in a small file system with permissions and write faults; the age keyring is
    read through a process-wide cache.  The ciphers, the age format, the hex and
    TOML codecs, HMAC and the random generator are third-party code: type classes
    with the laws the code relies on. *)

From S2P Require Import Prelude RStr MachInt.

Local Open Scope Z_scope.

(** ** Encryption modes *)

Inductive EncryptionMode := EncNone | EncAge | EncChaCha20Poly1305.

#[export] Instance EncryptionMode_eq_dec : EqDecision EncryptionMode.
Proof. solve_decision. Defined.

Definition EncryptionMode_parse (value : string) : result EncryptionMode string :=
  if ((value =? "") || (value =? "none"))%string then Ok EncNone
  else if (value =? "age")%string then Ok EncAge
  else if (value =? "chacha20poly1305")%string then Ok EncChaCha20Poly1305
  else Err "security encryption must be none, age, or chacha20poly1305".

Definition EncryptionMode_enabled (m : EncryptionMode) : bool :=
  match m with EncNone => false | _ => true end.

Definition EncryptionMode_as_str (m : EncryptionMode) : string :=
  match m with
  | EncNone => "none"
  | EncAge => "age"
  | EncChaCha20Poly1305 => "chacha20poly1305"
  end.

Definition encryption_enabled (value : string) : result bool string :=
  let? m := EncryptionMode_parse value in Ok (EncryptionMode_enabled m).

Definition validate_security_hash (hash : string) : result unit string :=
  if ((hash =? "blake3-keyed") || (hash =? "blake3") || (hash =? "sha256"))%string
  then Ok tt else Err "security hash must be blake3-keyed, blake3, or sha256".

(** ** Magic prefixes *)

Definition bytes_of_string (s : string) : list Z :=
  map (λ c, Z.of_N (byte_val c)) (String.list_ascii_of_string s).

Definition ENC_MAGIC : list Z := bytes_of_string ("MJENC1" +:+ String "010"%char "").
Definition AGE_MAGIC : list Z := bytes_of_string "age-encryption.org/v1".

Definition bytes_starts_with (b p : list Z) : bool := bool_decide (take (length p) b = p).

(** ** Third-party code *)

Class Hex := { hex_decode : string → option (list Z); hex_encode : list Z → string }.

(** [rand]: the [n]-th draw of [len] bytes. *)
Class Rng := { rng_bytes : nat → nat → list Z }.
Class RngLaws `{!Rng} : Prop := { rng_bytes_length i n : length (rng_bytes i n) = n }.

(** ChaCha20-Poly1305 with a 32-byte key and a 12-byte nonce. *)
Class Aead := {
  aead_encrypt : list Z → list Z → list Z → option (list Z);
  aead_decrypt : list Z → list Z → list Z → option (list Z);
}.
Class AeadLaws `{!Aead} : Prop := {
  aead_decrypt_encrypt k n p c : aead_encrypt k n p = Some c → aead_decrypt k n c = Some p;
}.

(** The [age] crate: x25519 keys, encryption to recipients, decryption with identities. *)
Class Age := {
  Recipient : Type;
  Identity : Type;
  recipient_parse : string → option Recipient;
  identity_parse : string → option Identity;
  recipient_to_string : Recipient → string;
  identity_to_string : Identity → string;
  identity_generate : nat → Identity;
  to_public : Identity → Recipient;
  age_encrypt : nat → list Recipient → list Z → result (list Z) string;
  age_decrypt : list Identity → list Z → result (list Z) string;
}.
Class AgeLaws `{!Age} : Prop := {
  recipient_parse_to_string r : recipient_parse (recipient_to_string r) = Some r;
  identity_parse_to_string i : identity_parse (identity_to_string i) = Some i;
  age_encrypt_magic n rs p c : age_encrypt n rs p = Ok c → bytes_starts_with c AGE_MAGIC = true;
  age_decrypt_encrypt n rs p c i ids :
    age_encrypt n rs p = Ok c → i ∈ ids → to_public i ∈ rs → age_decrypt ids c = Ok p;
}.

Record AgeKeyring := { ak_recipients : list string; ak_identities : list string }.
Definition AgeKeyring_default : AgeKeyring := {| ak_recipients := []; ak_identities := [] |}.

(** [toml::from_str] and [toml::to_string_pretty] at [AgeKeyring]. *)
Class KeyringToml := {
  keyring_from_toml : string → option AgeKeyring;
  keyring_to_toml : AgeKeyring → option string;
}.
Class KeyringTomlLaws `{!KeyringToml} : Prop := {
  keyring_toml_roundtrip k s : keyring_to_toml k = Some s → keyring_from_toml s = Some k;
}.

(** HMAC-SHA256. *)
Class Hmac := { hmac_sha256 : list Z → list Z → list Z }.

(** ** The key directory *)

(** A path with a parent directory and a file name, as all key paths are. *)
Abbreviation KeyPath := (string * string)%type.

(** Permission bits: [0o700], [0o600], and what a new directory or file gets. *)
Definition MODE_0700 : Z := 448.
Definition MODE_0600 : Z := 384.
Definition MODE_0755 : Z := 493.
Definition MODE_0644 : Z := 420.

Record KeyFile := { kf_content : string; kf_modified : option Z; kf_mode : Z }.

Record AgeKeyringFileSignature := { sig_exists : bool; sig_length : Z; sig_modified : option Z }.

#[export] Instance AgeKeyringFileSignature_eq_dec : EqDecision AgeKeyringFileSignature.
Proof. solve_decision. Defined.

Section Crypto.
Context `{!Hex, !Rng, !Aead, !Age, !KeyringToml, !Hmac}.

Record CachedAgeKeyring := {
  cak_signature : AgeKeyringFileSignature;
  cak_keyring : AgeKeyring;
  cak_recipients : option (list Recipient);
  cak_identities : option (list Identity);
}.

(** The files, the permissions of the directories, the keyring cache, the
    environment variable [MAJUTSU_MASTER_KEY], the number of random draws so far,
    the time a file written now gets, and the faults of the next system calls:
    [None] = the call succeeds, [Some n] = it fails, a write after [n] bytes. *)
Record KeyWorld := {
  kw_files : gmap KeyPath KeyFile;
  kw_dirs : gmap string Z;
  kw_cache : gmap KeyPath CachedAgeKeyring;
  kw_env : option string;
  kw_rng : nat;
  kw_now : option Z;
  kw_faults : list (option nat);
}.

Definition kw_with_files (w : KeyWorld) (f : gmap KeyPath KeyFile) : KeyWorld :=
  {| kw_files := f; kw_dirs := kw_dirs w; kw_cache := kw_cache w; kw_env := kw_env w;
     kw_rng := kw_rng w; kw_now := kw_now w; kw_faults := kw_faults w |}.
Definition kw_with_dirs (w : KeyWorld) (d : gmap string Z) : KeyWorld :=
  {| kw_files := kw_files w; kw_dirs := d; kw_cache := kw_cache w; kw_env := kw_env w;
     kw_rng := kw_rng w; kw_now := kw_now w; kw_faults := kw_faults w |}.
Definition kw_with_cache (w : KeyWorld) (c : gmap KeyPath CachedAgeKeyring) : KeyWorld :=
  {| kw_files := kw_files w; kw_dirs := kw_dirs w; kw_cache := c; kw_env := kw_env w;
     kw_rng := kw_rng w; kw_now := kw_now w; kw_faults := kw_faults w |}.
Definition kw_tick_rng (w : KeyWorld) : KeyWorld :=
  {| kw_files := kw_files w; kw_dirs := kw_dirs w; kw_cache := kw_cache w; kw_env := kw_env w;
     kw_rng := S (kw_rng w); kw_now := kw_now w; kw_faults := kw_faults w |}.
Definition kw_with_faults (w : KeyWorld) (l : list (option nat)) : KeyWorld :=
  {| kw_files := kw_files w; kw_dirs := kw_dirs w; kw_cache := kw_cache w; kw_env := kw_env w;
     kw_rng := kw_rng w; kw_now := kw_now w; kw_faults := l |}.

Abbreviation key_m := (stm KeyWorld).

(** One system call: it fails when the next fault says so. *)
Definition sys {A} (e : string) (op : key_m A) : key_m A := λ w,
  match kw_faults w with
  | Some _ :: l => (Fails e, kw_with_faults w l)
  | None :: l => op (kw_with_faults w l)
  | [] => op w
  end.

Definition rng_draw (n : nat) : key_m (list Z) := λ w,
  (Done (rng_bytes (kw_rng w) n), kw_tick_rng w).

(** *** Master key *)

Definition random_key_hex : key_m string :=
  let* key := rng_draw 32 in stm_ret (hex_encode key).

Definition validate_key_hex (hex_key : string) : result unit string :=
  match hex_decode (trim hex_key) with
  | None => Err "invalid hex"
  | Some b =>
    if (length b =? 32)%nat then Ok tt
    else Err "master key must be 32 bytes encoded as 64 hex characters"
  end.

Definition read_master_key_file (path : KeyPath) : key_m string :=
  let* content := sys "missing master key"
    (let* f := stm_get (λ w, kw_files w !! path) in
     match f with Some f => stm_ret (kf_content f) | None => stm_fail "missing master key" end) in
  let* _ := stm_ok (validate_key_hex (trim content)) in
  stm_ret (trim content).

Definition read_master_key (path : KeyPath) : key_m string :=
  let* env := stm_get kw_env in
  match env with
  | Some key => let* _ := stm_ok (validate_key_hex key) in stm_ret key
  | None => read_master_key_file path
  end.

Definition restrict_key_parent_permissions (dir : string) : key_m unit :=
  sys "set key directory permissions" (stm_modify (λ w, kw_with_dirs w (<[dir := MODE_0700]> (kw_dirs w)))).

Definition restrict_key_file_permissions (path : KeyPath) : key_m unit :=
  sys "set master key permissions" (λ w,
    match kw_files w !! path with
    | Some f => (Done tt, kw_with_files w (<[path := {| kf_content := kf_content f;
                   kf_modified := kf_modified f; kf_mode := MODE_0600 |}]> (kw_files w)))
    | None => (Fails "set master key permissions", w)
    end).

Definition create_dir_all (dir : string) : key_m unit :=
  sys "create_dir_all" (stm_modify (λ w,
    match kw_dirs w !! dir with
    | Some _ => w
    | None => kw_with_dirs w (<[dir := MODE_0755]> (kw_dirs w))
    end)).

Definition key_tmp_path (path : KeyPath) : key_m KeyPath :=
  let* r := random_key_hex in
  stm_ret (path.1, "." +:+ path.2 +:+ ".mjtmp-" +:+ r).

Definition create_new (tmp : KeyPath) : key_m unit :=
  sys "create temporary key file" (λ w,
    match kw_files w !! tmp with
    | Some _ => (Fails "create temporary key file", w)
    | None => (Done tt, kw_with_files w (<[tmp := {| kf_content := ""; kf_modified := kw_now w;
                                               kf_mode := MODE_0644 |}]> (kw_files w)))
    end).

Definition write_all (tmp : KeyPath) (data : string) : key_m unit := λ w,
  let store d w := kw_with_files w (alter (λ f, {| kf_content := d; kf_modified := kw_now w;
                                      kf_mode := kf_mode f |}) tmp (kw_files w)) in
  match kw_faults w with
  | Some n :: l => (Fails "write", store (String.substring 0 n data) (kw_with_faults w l))
  | None :: l => (Done tt, store data (kw_with_faults w l))
  | [] => (Done tt, store data w)
  end.

Definition rename (tmp path : KeyPath) : key_m unit :=
  sys "replace key file" (λ w,
    match kw_files w !! tmp with
    | Some f => (Done tt, kw_with_files w (<[path := f]> (delete tmp (kw_files w))))
    | None => (Fails "replace key file", w)
    end).

Definition sync_parent_dir (path : KeyPath) : key_m unit := sys "sync key directory" (stm_ret tt).

Definition write_key_atomic_body (tmp path : KeyPath) (data : string) : key_m unit :=
  let* _ := create_new tmp in
  let* _ := write_all tmp data in
  let* _ := sys "sync_all" (stm_ret tt) in
  let* _ := restrict_key_file_permissions tmp in
  let* _ := rename tmp path in
  sync_parent_dir path.

(** [let _ = fs::remove_file(&tmp)]: its own failure is ignored. *)
Definition remove_file (tmp : KeyPath) : key_m unit := λ w,
  match kw_faults w with
  | Some _ :: l => (Done tt, kw_with_faults w l)
  | None :: l => (Done tt, kw_with_files (kw_with_faults w l) (delete tmp (kw_files w)))
  | [] => (Done tt, kw_with_files w (delete tmp (kw_files w)))
  end.

Definition write_key_atomic (path : KeyPath) (data : string) : key_m unit :=
  let* tmp := key_tmp_path path in
  λ w, match write_key_atomic_body tmp path data w with
       | (Fails e, w') => let '(_, w'') := remove_file tmp w' in (Fails e, w'')
       | r => r
       end.

Definition newline : string := String "010"%char "".

Definition write_master_key (path : KeyPath) (hex_key : string) : key_m unit :=
  let* _ := stm_ok (validate_key_hex hex_key) in
  let* _ := create_dir_all path.1 in
  let* _ := restrict_key_parent_permissions path.1 in
  let* _ := write_key_atomic path (trim hex_key +:+ newline) in
  restrict_key_file_permissions path.

(** *** The age keyring and its cache *)

Definition file_signature (f : option KeyFile) : AgeKeyringFileSignature :=
  match f with
  | Some f => {| sig_exists := true; sig_length := Z.of_nat (String.length (kf_content f));
                 sig_modified := kf_modified f |}
  | None => {| sig_exists := false; sig_length := 0; sig_modified := None |}
  end.

Definition age_keyring_file_signature (path : KeyPath) : key_m AgeKeyringFileSignature :=
  sys "metadata" (stm_get (λ w, file_signature (kw_files w !! path))).

Definition cache_insert (path : KeyPath) (c : CachedAgeKeyring) : key_m unit :=
  stm_modify (λ w, kw_with_cache w (<[path := c]> (kw_cache w))).

Definition load_age_keyring (path : KeyPath) (sg : AgeKeyringFileSignature) : key_m CachedAgeKeyring :=
  let* keyring :=
    (if sig_exists sg then
      let* text := sys "read keyring"
        (let* f := stm_get (λ w, kw_files w !! path) in stm_some "read keyring" (kf_content <$> f)) in
      stm_some "parse age keyring" (keyring_from_toml text)
    else stm_ret AgeKeyring_default) in
  let cached := {| cak_signature := sg; cak_keyring := keyring;
                   cak_recipients := None; cak_identities := None |} in
  let* _ := cache_insert path cached in
  stm_ret cached.

Definition cached_age_keyring (path : KeyPath) : key_m CachedAgeKeyring :=
  let* sg := age_keyring_file_signature path in
  let* hit := stm_get (λ w, kw_cache w !! path) in
  match hit with
  | Some cached =>
    if bool_decide (cak_signature cached = sg) then stm_ret cached else load_age_keyring path sg
  | None => load_age_keyring path sg
  end.

Definition invalidate_age_keyring_cache (path : KeyPath) : key_m unit :=
  stm_modify (λ w, kw_with_cache w (delete path (kw_cache w))).

Definition read_age_keyring (path : KeyPath) : key_m AgeKeyring :=
  let* c := cached_age_keyring path in stm_ret (cak_keyring c).

Definition write_age_keyring (path : KeyPath) (keyring : AgeKeyring) : key_m unit :=
  let* _ := create_dir_all path.1 in
  let* _ := restrict_key_parent_permissions path.1 in
  let* text := stm_some "serialize keyring" (keyring_to_toml keyring) in
  let* _ := write_key_atomic path text in
  let* _ := restrict_key_file_permissions path in
  invalidate_age_keyring_cache path.

Definition restrict_age_keyring_permissions (path : KeyPath) : key_m unit :=
  let* d := stm_get (λ w, kw_dirs w !! path.1) in
  let* _ := (if d is Some _ then restrict_key_parent_permissions path.1 else stm_ret tt) in
  let* f := stm_get (λ w, kw_files w !! path) in
  if f is Some _ then restrict_key_file_permissions path else stm_ret tt.

Definition list_is_empty {A} (l : list A) : bool := match l with [] => true | _ => false end.

Definition ensure_age_keyring (path : KeyPath) : key_m unit :=
  let* keyring := read_age_keyring path in
  if list_is_empty (ak_recipients keyring) && list_is_empty (ak_identities keyring) then
    let* seed := (λ w, (Done (kw_rng w), kw_tick_rng w)) in
    let identity := identity_generate seed in
    write_age_keyring path
      {| ak_recipients := ak_recipients keyring ++ [recipient_to_string (to_public identity)];
         ak_identities := ak_identities keyring ++ [identity_to_string identity] |}
  else restrict_age_keyring_permissions path.

Definition read_age_recipients (path : KeyPath) : key_m (list Recipient) :=
  let* cached := cached_age_keyring path in
  match cak_recipients cached with
  | Some rs => stm_ret rs
  | None =>
    let* rs := stm_some "invalid age recipient" (mapM recipient_parse (ak_recipients (cak_keyring cached))) in
    let* _ := stm_modify (λ w,
      match kw_cache w !! path with
      | Some entry =>
        if bool_decide (cak_signature entry = cak_signature cached)
        then kw_with_cache w (<[path := {| cak_signature := cak_signature entry;
               cak_keyring := cak_keyring entry; cak_recipients := Some rs;
               cak_identities := cak_identities entry |}]> (kw_cache w))
        else w
      | None => w
      end) in
    stm_ret rs
  end.

Definition read_age_identities (path : KeyPath) : key_m (list Identity) :=
  let* cached := cached_age_keyring path in
  match cak_identities cached with
  | Some ids => stm_ret ids
  | None =>
    let* ids := stm_some "invalid age identity" (mapM identity_parse (ak_identities (cak_keyring cached))) in
    let* _ := stm_modify (λ w,
      match kw_cache w !! path with
      | Some entry =>
        if bool_decide (cak_signature entry = cak_signature cached)
        then kw_with_cache w (<[path := {| cak_signature := cak_signature entry;
               cak_keyring := cak_keyring entry; cak_recipients := cak_recipients entry;
               cak_identities := Some ids |}]> (kw_cache w))
        else w
      | None => w
      end) in
    stm_ret ids
  end.

(** *** Envelopes *)

(** [Key::from_slice] panics unless the slice has 32 bytes. *)
Definition key_from_slice (key_bytes : list Z) : outcome (list Z) string :=
  if (length key_bytes =? 32)%nat then Done key_bytes else Panics.

Definition encode_legacy_envelope_with_key_hex (b : list Z) (key_hex : string) : key_m (list Z) :=
  let* key_bytes := stm_some "invalid hex" (hex_decode (trim key_hex)) in
  let* key := stm_lift (key_from_slice key_bytes) in
  let* nonce := rng_draw 12 in
  let* ciphertext := stm_some "object encryption failed" (aead_encrypt key nonce b) in
  stm_ret (ENC_MAGIC ++ nonce ++ ciphertext).

Definition encode_legacy_envelope (b : list Z) (master_key_path : KeyPath) : key_m (list Z) :=
  let* key_hex := read_master_key master_key_path in
  encode_legacy_envelope_with_key_hex b key_hex.

Definition decode_legacy_envelope_with_key_hex (b : list Z) (key_hex : string) : key_m (list Z) :=
  let start := length ENC_MAGIC in
  if (length b <? start + 12)%nat then stm_fail "encrypted object is truncated" else
  let nonce := take 12 (drop start b) in
  let ciphertext := drop (start + 12) b in
  let* key_bytes := stm_some "invalid hex" (hex_decode (trim key_hex)) in
  let* key := stm_lift (key_from_slice key_bytes) in
  stm_some "object decryption failed" (aead_decrypt key nonce ciphertext).

Definition decode_legacy_envelope (b : list Z) (master_key_path : KeyPath) : key_m (list Z) :=
  let* key_hex := read_master_key master_key_path in
  decode_legacy_envelope_with_key_hex b key_hex.

Definition age_encrypt_object (recipients_path : KeyPath) (b : list Z) : key_m (option (list Z)) :=
  let* recipients := read_age_recipients recipients_path in
  match recipients with
  | [] => stm_ret None
  | _ =>
    let* seed := (λ w, (Done (kw_rng w), kw_tick_rng w)) in
    let* c := stm_ok (age_encrypt seed recipients b) in
    stm_ret (Some c)
  end.

Definition age_decrypt_object (recipients_path : KeyPath) (b : list Z) : key_m (list Z) :=
  let* identities := read_age_identities recipients_path in
  match identities with
  | [] => stm_fail "age encrypted object requires an identity in keys/recipients.toml"
  | _ => stm_ok (age_decrypt identities b)
  end.

Definition crypto_encode_object (b : list Z) (encryption : EncryptionMode)
    (master_key_path recipients_path : KeyPath) : key_m (list Z) :=
  match encryption with
  | EncNone => stm_ret b
  | EncAge =>
    let* c := age_encrypt_object recipients_path b in
    match c with
    | Some ciphertext => stm_ret ciphertext
    | None => encode_legacy_envelope b master_key_path
    end
  | EncChaCha20Poly1305 => encode_legacy_envelope b master_key_path
  end.

Definition encode_object_with_master_key_hex (b : list Z) (encryption : EncryptionMode)
    (master_key_hex : string) (recipients_path : KeyPath) : key_m (list Z) :=
  let* _ := stm_ok (validate_key_hex master_key_hex) in
  match encryption with
  | EncNone => stm_ret b
  | EncAge =>
    let* c := age_encrypt_object recipients_path b in
    match c with
    | Some ciphertext => stm_ret ciphertext
    | None => encode_legacy_envelope_with_key_hex b master_key_hex
    end
  | EncChaCha20Poly1305 => encode_legacy_envelope_with_key_hex b master_key_hex
  end.

Definition crypto_decode_object (b : list Z) (master_key_path recipients_path : KeyPath)
    : key_m (list Z) :=
  if bytes_starts_with b AGE_MAGIC then age_decrypt_object recipients_path b
  else if negb (bytes_starts_with b ENC_MAGIC) then stm_ret b
  else decode_legacy_envelope b master_key_path.

Definition decode_object_with_master_key_hex (b : list Z) (master_key_hex : string)
    (recipients_path : KeyPath) : key_m (list Z) :=
  let* _ := stm_ok (validate_key_hex master_key_hex) in
  if bytes_starts_with b AGE_MAGIC then age_decrypt_object recipients_path b
  else if negb (bytes_starts_with b ENC_MAGIC) then stm_ret b
  else decode_legacy_envelope_with_key_hex b master_key_hex.

(** *** The object layer of main.rs *)

(** The parts of [Paths] and of the configuration the object layer reads:
    [security] is [None] when there is no configuration file. *)
Record ObjectEnv := {
  oe_keys_dir : string;
  oe_security : option string;
}.

Definition master_key_path (e : ObjectEnv) : KeyPath := (oe_keys_dir e, "master.key").
Definition key_rotation_pending_path (e : ObjectEnv) : KeyPath := (oe_keys_dir e, "master.key.pending").
Definition key_rotation_previous_path (e : ObjectEnv) : KeyPath := (oe_keys_dir e, "master.key.prev").
Definition recipients_path (e : ObjectEnv) : KeyPath := (oe_keys_dir e, "recipients.toml").

Definition encode_object (e : ObjectEnv) (b : list Z) : key_m (list Z) :=
  let* enabled := match oe_security e with
                  | Some s => stm_ok (encryption_enabled s)
                  | None => stm_ret false
                  end in
  if enabled : bool then
    let* mode := match oe_security e with
                 | Some s => stm_ok (EncryptionMode_parse s)
                 | None => stm_ret EncNone
                 end in
    crypto_encode_object b mode (master_key_path e) (recipients_path e)
  else stm_ret b.

(** The two fallback keys, tried in order; what fails is skipped. *)
Fixpoint try_fallbacks (b : list Z) (recipients : KeyPath) (fallbacks : list KeyPath)
    : key_m (option (list Z)) :=
  match fallbacks with
  | [] => stm_ret None
  | path :: rest => λ w,
    match kw_files w !! path with
    | None => try_fallbacks b recipients rest w
    | Some _ =>
      match read_master_key_file path w with
      | (Done key_hex, w1) =>
        match decode_object_with_master_key_hex b key_hex recipients w1 with
        | (Done decoded, w2) => (Done (Some decoded), w2)
        | (Fails _, w2) => try_fallbacks b recipients rest w2
        | (Panics, w2) => (Panics, w2)
        end
      | (Fails _, w1) => try_fallbacks b recipients rest w1
      | (Panics, w1) => (Panics, w1)
      end
    end
  end.

Definition decode_object (e : ObjectEnv) (b : list Z) : key_m (list Z) := λ w,
  match crypto_decode_object b (master_key_path e) (recipients_path e) w with
  | (Done decoded, w1) => (Done decoded, w1)
  | (Panics, w1) => (Panics, w1)
  | (Fails first, w1) =>
    match try_fallbacks b (recipients_path e)
            [key_rotation_pending_path e; key_rotation_previous_path e] w1 with
    | (Done (Some decoded), w2) => (Done decoded, w2)
    | (Done None, w2) => (Fails first, w2)
    | (Fails x, w2) => (Fails x, w2)
    | (Panics, w2) => (Panics, w2)
    end
  end.

Definition object_keys_are_hmac (e : ObjectEnv) : result bool string :=
  match oe_security e with None => Ok false | Some s => encryption_enabled s end.

Definition object_storage_id_with_key_hex (e : ObjectEnv) (oid key_hex : string) : result string string :=
  let? hmac := object_keys_are_hmac e in
  if negb hmac then Ok oid else
  match hex_decode (trim key_hex) with
  | None => Err "invalid hex"
  | Some key => Ok (hex_encode (hmac_sha256 key
      (bytes_of_string ("majutsu-object-key-v1" +:+ String "000"%char "") ++ bytes_of_string oid)))
  end.

Definition object_storage_id (e : ObjectEnv) (oid : string) : key_m string :=
  let* hmac := stm_ok (object_keys_are_hmac e) in
  if negb hmac then stm_ret oid else
  let* key_hex := read_master_key (master_key_path e) in
  stm_ok (object_storage_id_with_key_hex e oid key_hex).

(** ** Properties *)

(** No system call is about to fail. *)
Definition quiet (w : KeyWorld) : Prop := kw_faults w = [].

(** The worlds agree on everything a key lookup reads. *)
Definition same_keys (w w' : KeyWorld) : Prop :=
  kw_files w' = kw_files w ∧ kw_env w' = kw_env w ∧ kw_faults w' = kw_faults w.

(** What the keyring file says. *)
Definition keyring_of_file (f : option KeyFile) : option AgeKeyring :=
  match f with Some f => keyring_from_toml (kf_content f) | None => Some AgeKeyring_default end.

Definition cached_keys_ok (c : CachedAgeKeyring) : Prop :=
  (∀ rs, cak_recipients c = Some rs → mapM recipient_parse (ak_recipients (cak_keyring c)) = Some rs) ∧
  (∀ ids, cak_identities c = Some ids → mapM identity_parse (ak_identities (cak_keyring c)) = Some ids).

(** An entry whose signature is the file's says what the file says. *)
Definition cache_coherent (w : KeyWorld) : Prop :=
  ∀ path c, kw_cache w !! path = Some c →
    cached_keys_ok c ∧
    (cak_signature c = file_signature (kw_files w !! path) →
     keyring_of_file (kw_files w !! path) = Some (cak_keyring c)).

#[local] Instance same_keys_refl : Reflexive same_keys.
Proof. by intros w. Qed.
#[local] Instance same_keys_trans : Transitive same_keys.
Proof. intros x y z (?&?&?) (?&?&?). by split_and!; etrans. Qed.

Lemma sys_quiet {A} e (op : key_m A) w : quiet w → sys e op w = op w.
Proof. unfold sys, quiet. by intros ->. Qed.

Lemma same_keys_quiet w w' : same_keys w w' → quiet w → quiet w'.
Proof. unfold quiet. intros (_ & _ & ->). done. Qed.

Lemma bytes_starts_with_app p b : bytes_starts_with (p ++ b) p = true.
Proof. unfold bytes_starts_with. apply bool_decide_eq_true. by rewrite take_app_length. Qed.

(** *** Validation and panics *)

Lemma validate_key_hex_Ok k :
  validate_key_hex k = Ok tt ↔ ∃ b, hex_decode (trim k) = Some b ∧ length b = 32%nat.
Proof.
  unfold validate_key_hex. destruct (hex_decode (trim k)) as [b|]; [|naive_solver].
  destruct (length b =? 32)%nat eqn:Hb.
  - apply Nat.eqb_eq in Hb. naive_solver.
  - apply Nat.eqb_neq in Hb. naive_solver.
Qed.

Lemma key_from_slice_ok b : length b = 32%nat → key_from_slice b = Done b.
Proof. intros Hb. unfold key_from_slice. by rewrite (proj2 (Nat.eqb_eq _ _) Hb). Qed.

Definition no_panic {A} (m : key_m A) : Prop := ∀ w, (m w).1 ≠ Panics.

Lemma no_panic_bind {A B} (m : key_m A) (k : A → key_m B) :
  no_panic m → (∀ a, no_panic (k a)) → no_panic (stm_bind m k).
Proof.
  intros Hm Hk w. unfold stm_bind. specialize (Hm w).
  destruct (m w) as [[a|e|] w1]; simpl in *; [apply Hk|done|done].
Qed.

Lemma no_panic_bind_post {A B} (m : key_m A) (k : A → key_m B) :
  no_panic m → (∀ w a w1, m w = (Done a, w1) → no_panic (k a)) → no_panic (stm_bind m k).
Proof.
  intros Hm Hk w. unfold stm_bind. specialize (Hm w).
  destruct (m w) as [[a|e|] w1] eqn:?; simpl in *; [by eapply Hk|done|done].
Qed.

Lemma no_panic_sys {A} e (m : key_m A) : no_panic m → no_panic (sys e m).
Proof. intros Hm w. unfold sys. destruct (kw_faults w) as [|[]]; simpl; [apply Hm|done|apply Hm]. Qed.

Lemma no_panic_ok {A} (r : result A string) : no_panic (stm_ok r).
Proof. intros w. by destruct r. Qed.

Lemma no_panic_some {A} e (o : option A) : no_panic (stm_some e o).
Proof. intros w. by destruct o. Qed.

Lemma no_panic_ret {A} (a : A) : no_panic (stm_ret a).
Proof. done. Qed.

Lemma no_panic_fail {A} e : no_panic (stm_fail (A := A) e).
Proof. done. Qed.

Lemma no_panic_get {A} (f : KeyWorld → A) : no_panic (stm_get f).
Proof. done. Qed.

Lemma no_panic_modify f : no_panic (stm_modify f).
Proof. done. Qed.

Lemma no_panic_draw n : no_panic (rng_draw n).
Proof. done. Qed.

#[local] Hint Resolve no_panic_sys no_panic_ok no_panic_some no_panic_ret no_panic_fail
  no_panic_get no_panic_modify no_panic_draw : mj.

Ltac np :=
  repeat first
    [ progress intros
    | solve [auto with mj]
    | match goal with |- no_panic (stm_bind _ _) => apply no_panic_bind end
    | match goal with |- no_panic (if ?b then _ else _) => destruct b end
    | match goal with |- no_panic (match ?x with _ => _ end) => destruct x end
    | (apply no_panic_sys)
    | done ].

Lemma read_master_key_file_no_panic p : no_panic (read_master_key_file p).
Proof. unfold read_master_key_file. np. Qed.

Lemma read_master_key_no_panic p : no_panic (read_master_key p).
Proof. unfold read_master_key. np. apply read_master_key_file_no_panic. Qed.

Lemma cached_age_keyring_no_panic p : no_panic (cached_age_keyring p).
Proof.
  unfold cached_age_keyring, load_age_keyring, age_keyring_file_signature, cache_insert. np.
Qed.
#[local] Hint Resolve read_master_key_file_no_panic read_master_key_no_panic
  cached_age_keyring_no_panic : mj.

Lemma read_age_recipients_no_panic p : no_panic (read_age_recipients p).
Proof. unfold read_age_recipients. np. Qed.

Lemma read_age_identities_no_panic p : no_panic (read_age_identities p).
Proof. unfold read_age_identities. np. Qed.
#[local] Hint Resolve read_age_recipients_no_panic read_age_identities_no_panic : mj.

Lemma age_encrypt_object_no_panic p b : no_panic (age_encrypt_object p b).
Proof. unfold age_encrypt_object. np. Qed.

Lemma age_decrypt_object_no_panic p b : no_panic (age_decrypt_object p b).
Proof. unfold age_decrypt_object. np. Qed.
#[local] Hint Resolve age_encrypt_object_no_panic age_decrypt_object_no_panic : mj.

Lemma envelope_no_panic b key_hex :
  validate_key_hex key_hex = Ok tt →
  no_panic (encode_legacy_envelope_with_key_hex b key_hex) ∧
  no_panic (decode_legacy_envelope_with_key_hex b key_hex).
Proof.
  intros (kb & Hkb & Hlen)%validate_key_hex_Ok.
  unfold encode_legacy_envelope_with_key_hex, decode_legacy_envelope_with_key_hex.
  rewrite Hkb. split.
  - apply (no_panic_bind_post (stm_some _ _)); [auto with mj|].
    intros w a w1 [= <- <-]. unfold stm_lift. rewrite (key_from_slice_ok _ Hlen).
    change (λ s, (Done kb, s)) with (stm_ret (S := KeyWorld) kb). np.
  - destruct (_ <? _)%nat; [done|].
    apply (no_panic_bind_post (stm_some _ _)); [auto with mj|].
    intros w a w1 [= <- <-]. unfold stm_lift. rewrite (key_from_slice_ok _ Hlen).
    change (λ s, (Done kb, s)) with (stm_ret (S := KeyWorld) kb). np.
Qed.

Lemma read_master_key_file_valid p w k w1 :
  read_master_key_file p w = (Done k, w1) → validate_key_hex k = Ok tt.
Proof.
  unfold read_master_key_file. intros. stm_inv.
  match goal with H : stm_ok _ _ = _ |- _ => apply stm_ok_Done in H as [Hv _] end.
  by match goal with u : unit |- _ => destruct u end.
Qed.

Lemma read_master_key_valid p w k w1 :
  read_master_key p w = (Done k, w1) → validate_key_hex k = Ok tt.
Proof.
  unfold read_master_key. intros. stm_inv. destruct (kw_env _) eqn:?.
  - stm_inv.
    match goal with H : stm_ok _ _ = _ |- _ => apply stm_ok_Done in H as [Hv _] end.
    by match goal with u : unit |- _ => destruct u end.
  - by eapply read_master_key_file_valid.
Qed.

Lemma legacy_no_panic b p :
  no_panic (encode_legacy_envelope b p) ∧ no_panic (decode_legacy_envelope b p).
Proof.
  split; (apply no_panic_bind_post; [auto with mj|]);
    intros w k w1 Hk%read_master_key_valid; by apply envelope_no_panic.
Qed.

Lemma crypto_encode_no_panic b m mk rp : no_panic (crypto_encode_object b m mk rp).
Proof. pose proof (legacy_no_panic b mk) as [? ?]. destruct m; simpl; np. Qed.

Lemma crypto_decode_no_panic b mk rp : no_panic (crypto_decode_object b mk rp).
Proof. pose proof (legacy_no_panic b mk) as [? ?]. unfold crypto_decode_object. np. Qed.

Lemma decode_with_hex_no_panic b k rp : no_panic (decode_object_with_master_key_hex b k rp).
Proof.
  apply no_panic_bind_post; [auto with mj|]. intros w [] w1 [Hk _]%stm_ok_Done.
  pose proof (envelope_no_panic b k Hk) as [? ?]. np.
Qed.

Lemma try_fallbacks_no_panic b rp fs : no_panic (try_fallbacks b rp fs).
Proof.
  induction fs as [|p fs IH]; intros w; simpl; [done|].
  destruct (kw_files w !! p); [|apply IH].
  pose proof (read_master_key_file_no_panic p w) as Hr.
  destruct (read_master_key_file p w) as [[key|err|] w1]; simpl in *; [|apply IH|done].
  pose proof (decode_with_hex_no_panic b key rp w1) as Hd.
  destruct (decode_object_with_master_key_hex b key rp w1) as [[]]; simpl in *; [done|apply IH|done].
Qed.

(** Reading or writing an object never panics, whatever the key files, the
    environment, the cache and the system calls do: [Key::from_slice] is only
    reached with a key that [validate_key_hex] has accepted. *)
Theorem object_codec_never_panics e b w :
  (encode_object e b w).1 ≠ Panics ∧ (decode_object e b w).1 ≠ Panics.
Proof.
  split.
  - assert (no_panic (encode_object e b)) as Hn; [|apply Hn].
    unfold encode_object. np; apply crypto_encode_no_panic.
  - unfold decode_object.
    pose proof (crypto_decode_no_panic b (master_key_path e) (recipients_path e) w) as Hd.
    destruct (crypto_decode_object _ _ _ w) as [[d|x|] w1]; [done| |done].
    pose proof (try_fallbacks_no_panic b (recipients_path e)
      [key_rotation_pending_path e; key_rotation_previous_path e] w1) as Ht.
    by destruct (try_fallbacks _ _ _ w1) as [[[]|?|] w2].
Qed.

(** *** Atomic replacement of a key file *)

(** The file at [path] is the old one, or the new data with mode 0600. *)
Definition replaced_or_kept (path : KeyPath) (data : string) (w w' : KeyWorld) : Prop :=
  kw_files w' !! path = kw_files w !! path ∨
  ∃ m, kw_files w' !! path = Some {| kf_content := data; kf_modified := m; kf_mode := MODE_0600 |}.

Lemma tmp_name_fresh (name r : string) : "." +:+ name +:+ ".mjtmp-" +:+ r ≠ name.
Proof.
  intros Heq%(f_equal String.length). rewrite !str_length_app in Heq. simpl in Heq. lia.
Qed.

Lemma triple_sys {A} e (op : key_m A) (P : KeyWorld → Prop) Q E :
  (∀ w l, P w → P (kw_with_faults w l)) → (∀ w, P w → E w) →
  triple P op Q E → triple P (sys e op) Q E.
Proof.
  intros HP HE Hop w r w' Hw. unfold sys.
  destruct (kw_faults w) as [|[n|] l]; [by apply Hop| |by apply Hop; auto].
  intros [= <- <-]. auto.
Qed.

(** Up to the rename only the temporary file has changed; its content is [c] and its
    mode [m] where they are known. *)
Definition staged (files : gmap KeyPath KeyFile) (tmp : KeyPath) (c : option string) (m : Z)
    (w : KeyWorld) : Prop :=
  (∀ q, q ≠ tmp → kw_files w !! q = files !! q) ∧
  ∃ f, kw_files w !! tmp = Some f ∧ kf_mode f = m ∧ (∀ d, c = Some d → kf_content f = d).

Definition kept (files : gmap KeyPath KeyFile) (tmp : KeyPath) (w : KeyWorld) : Prop :=
  ∀ q, q ≠ tmp → kw_files w !! q = files !! q.

Lemma create_new_spec files tmp :
  triple (λ w, kw_files w = files) (create_new tmp)
    (λ _, staged files tmp (Some "") MODE_0644) (kept files tmp).
Proof.
  apply triple_sys; [done|by intros w <- q|].
  intros w r w' <-. destruct (kw_files w !! tmp) eqn:?; intros [= <- <-]; [by intros q|].
  split; simpl; [by intros; simplify_map_eq|]. eexists; split; [by simplify_map_eq|naive_solver].
Qed.

Lemma write_all_spec files tmp data :
  triple (staged files tmp (Some "") MODE_0644) (write_all tmp data)
    (λ _, staged files tmp (Some data) MODE_0644) (kept files tmp).
Proof.
  intros w r w' [Hq (f & Hf & Hm & _)]. unfold write_all.
  destruct (kw_faults w) as [|[n|] l]; intros [= <- <-];
    try (split; simpl); try (intros q Hne; simpl);
    try (rewrite lookup_alter_ne by done; by apply Hq).
  all: eexists; split; [rewrite lookup_alter_eq, Hf; reflexivity|naive_solver].
Qed.

Lemma sync_all_spec files tmp c m :
  triple (staged files tmp c m) (sys "sync_all" (stm_ret tt))
    (λ _, staged files tmp c m) (kept files tmp).
Proof. apply triple_sys; [done|by intros w [? _]|]. by apply triple_ret. Qed.

Lemma restrict_spec files tmp c m :
  triple (staged files tmp c m) (restrict_key_file_permissions tmp)
    (λ _, staged files tmp c MODE_0600) (kept files tmp).
Proof.
  apply triple_sys; [done|by intros w [? _]|].
  intros w r w' [Hq (f & Hf & Hm & Hc)]. rewrite Hf. intros [= <- <-].
  split; simpl; [intros; simplify_map_eq; auto|]. eexists; split; [by simplify_map_eq|auto].
Qed.

(** After the rename: the temporary name is free and the new file is in place. *)
Definition placed (files : gmap KeyPath KeyFile) (tmp path : KeyPath) (data : string)
    (w : KeyWorld) : Prop :=
  (∀ q, q ≠ tmp → q ≠ path → kw_files w !! q = files !! q) ∧ kw_files w !! tmp = None ∧
  ∃ m, kw_files w !! path = Some {| kf_content := data; kf_modified := m; kf_mode := MODE_0600 |}.

Lemma rename_spec files tmp path data :
  tmp ≠ path →
  triple (staged files tmp (Some data) MODE_0600) (rename tmp path)
    (λ _, placed files tmp path data) (kept files tmp).
Proof.
  intros Hne. apply triple_sys; [done|by intros w [? _]|].
  intros w r w' [Hq (f & Hf & Hm & Hc)]. rewrite Hf. intros [= <- <-].
  split_and!; simpl.
  - intros. simplify_map_eq. auto.
  - by simplify_map_eq.
  - exists (kf_modified f). simplify_map_eq. destruct f; simpl in *. by rewrite (Hc data), Hm.
Qed.

Lemma write_key_atomic_body_spec files tmp path data :
  tmp ≠ path →
  triple (λ w, kw_files w = files) (write_key_atomic_body tmp path data)
    (λ _, placed files tmp path data)
    (λ w, kept files tmp w ∨ placed files tmp path data w).
Proof.
  intros Hne. unfold write_key_atomic_body.
  assert (Hl : ∀ w, kept files tmp w → kept files tmp w ∨ placed files tmp path data w) by tauto.
  eapply triple_bind; [eapply triple_error; [apply create_new_spec|done]|intros [] ].
  eapply triple_bind; [eapply triple_error; [apply write_all_spec|done]|intros [] ].
  eapply triple_bind; [eapply triple_error; [apply sync_all_spec|done]|intros [] ].
  eapply triple_bind; [eapply triple_error; [apply restrict_spec|done]|intros [] ].
  eapply triple_bind; [eapply triple_error; [by apply rename_spec|done]|intros [] ].
  apply triple_sys; [done|by auto|]. by apply triple_ret.
Qed.

Lemma key_tmp_path_name path w tmp w1 :
  key_tmp_path path w = (Done tmp, w1) → tmp ≠ path ∧ kw_files w1 = kw_files w ∧ kw_faults w1 = kw_faults w.
Proof.
  unfold key_tmp_path, random_key_hex, rng_draw. intros. stm_inv. split; [|done].
  intros Heq%(f_equal snd). simpl in Heq. by apply tmp_name_fresh in Heq.
Qed.

Lemma write_key_atomic_Done path data w w' :
  write_key_atomic path data w = (Done tt, w') →
  ∃ m, kw_files w' !! path = Some {| kf_content := data; kf_modified := m; kf_mode := MODE_0600 |}.
Proof.
  unfold write_key_atomic, stm_bind. intros Hw.
  destruct (key_tmp_path path w) as [[tmp|e|] w1] eqn:Ht; [|by exfalso; revert Ht..].
  apply key_tmp_path_name in Ht as (Hne & Hfiles & _).
  destruct (write_key_atomic_body tmp path data w1) as [[[]|e|] w2] eqn:Hb;
    [|by destruct (remove_file tmp w2)|done].
  injection Hw as <-.
  by destruct (write_key_atomic_body_spec _ tmp path data Hne _ _ _ Hfiles Hb) as (_ & _ & ?).
Qed.

(** C23. Replacing a key file is atomic whatever system call fails (a write may
    stop after any prefix): afterwards the file is the old one, or has exactly the
    new data and mode 0600; on success it is the new one, and every file but the
    temporary one is as before. *)
Theorem write_key_atomic_atomic path data w r w' :
  write_key_atomic path data w = (r, w') →
  replaced_or_kept path data w w' ∧
  (r = Done tt → ∃ m, kw_files w' !! path =
     Some {| kf_content := data; kf_modified := m; kf_mode := MODE_0600 |}) ∧
  ∃ tmp, tmp ≠ path ∧ ∀ q, q ≠ tmp → q ≠ path → kw_files w' !! q = kw_files w !! q.
Proof.
  unfold write_key_atomic, stm_bind. intros Hw.
  destruct (key_tmp_path path w) as [[tmp|e|] w1] eqn:Ht; [|by exfalso; revert Ht..].
  apply key_tmp_path_name in Ht as (Hne & Hfiles & _).
  destruct (write_key_atomic_body tmp path data w1) as [r2 w2] eqn:Hb.
  pose proof (write_key_atomic_body_spec (kw_files w) tmp path data Hne _ _ _ Hfiles Hb) as Hspec.
  unfold replaced_or_kept. destruct r2 as [[]|e|].
  - injection Hw as <- <-. destruct Hspec as (Hq & _ & Hp). eauto 10.
  - destruct (remove_file tmp w2) as [r3 w3] eqn:Hr. injection Hw as <- <-.
    assert (∀ q, q ≠ tmp → kw_files w3 !! q = kw_files w2 !! q) as Hkeep.
    { intros q Hq. unfold remove_file in Hr. destruct (kw_faults w2) as [|[]]; injection Hr as <- <-;
        simpl; by simplify_map_eq. }
    rewrite Hkeep by done. split_and!; [|done|exists tmp; split; [done|]; intros; rewrite Hkeep by done];
      destruct Hspec as [Hk|(Hq & _ & Hp)]; [left; by apply Hk|by right|by apply Hk|by apply Hq].
  - injection Hw as <- <-.
    destruct Hspec as [Hk|(Hq & _ & Hp)]; (split_and!; [by auto|done|exists tmp; by auto]).
Qed.

(** *** The keyring cache *)

Lemma age_keyring_file_signature_quiet path w :
  quiet w → age_keyring_file_signature path w = (Done (file_signature (kw_files w !! path)), w).
Proof. intros Hq. unfold age_keyring_file_signature. by rewrite sys_quiet. Qed.

Lemma load_age_keyring_quiet path w k :
  quiet w → keyring_of_file (kw_files w !! path) = Some k →
  let c := {| cak_signature := file_signature (kw_files w !! path); cak_keyring := k;
              cak_recipients := None; cak_identities := None |} in
  load_age_keyring path (file_signature (kw_files w !! path)) w =
    (Done c, kw_with_cache w (<[path := c]> (kw_cache w))).
Proof.
  intros Hq Hk c. unfold load_age_keyring, stm_bind, cache_insert.
  destruct (kw_files w !! path) as [f|] eqn:Hf; simpl in *; simplify_eq/=; [|done].
  rewrite sys_quiet by done. unfold stm_get. rewrite Hf. simpl. unfold stm_ret, stm_some.
  by rewrite Hk.
Qed.

(** With a coherent cache a lookup returns the keyring of the file and leaves a
    coherent cache. *)
Lemma cached_age_keyring_spec path w k :
  quiet w → cache_coherent w → keyring_of_file (kw_files w !! path) = Some k →
  ∃ c w', cached_age_keyring path w = (Done c, w') ∧ same_keys w w' ∧ cache_coherent w' ∧
    kw_cache w' !! path = Some c ∧ cak_keyring c = k ∧ cached_keys_ok c ∧
    cak_signature c = file_signature (kw_files w !! path).
Proof.
  intros Hq Hc Hk. unfold cached_age_keyring, stm_bind.
  rewrite age_keyring_file_signature_quiet by done. unfold stm_get.
  assert (Hload : ∃ c w', load_age_keyring path (file_signature (kw_files w !! path)) w = (Done c, w') ∧
    same_keys w w' ∧ cache_coherent w' ∧ kw_cache w' !! path = Some c ∧ cak_keyring c = k ∧
    cached_keys_ok c ∧ cak_signature c = file_signature (kw_files w !! path)).
  { rewrite (load_age_keyring_quiet path w k) by done.
    do 2 eexists. split_and!; [done..| |simpl; by rewrite lookup_insert_eq|done|by split|done].
    intros q c' Hc'. simpl in *. destruct (decide (q = path)) as [->|Hne]; simplify_map_eq.
    - by repeat split.
    - by apply Hc. }
  destruct (kw_cache w !! path) as [c|] eqn:Hhit; [|done].
  case_bool_decide as Hsig; [|done].
  destruct (Hc _ _ Hhit) as [Hok Hkey]. specialize (Hkey Hsig).
  exists c, w. split_and!; try done. congruence.
Qed.

Lemma sys_cases {A} e (op : key_m A) w r w' :
  sys e op w = (r, w') →
  (r = Fails e ∧ kw_files w' = kw_files w) ∨ (∃ l, op (kw_with_faults w l) = (r, w')).
Proof.
  unfold sys. destruct (kw_faults w) as [|[n|] l] eqn:Hf.
  - right. exists []. by destruct w; simpl in *; subst.
  - intros [= <- <-]. by left.
  - right. by exists l.
Qed.

Lemma restrict_Done path w w' :
  restrict_key_file_permissions path w = (Done tt, w') →
  ∃ f, kw_files w' !! path = Some f ∧ kf_content <$> kw_files w !! path = Some (kf_content f).
Proof.
  intros [[? _]|[l Hl]]%sys_cases; [done|]. simpl in Hl.
  destruct (kw_files w !! path) as [f|]; [|done]. injection Hl as <-.
  eexists. by split; [simpl; by simplify_map_eq|].
Qed.

(** A keyring that was written is the keyring read next, whatever the cache
    held and even when the new file has the length and the time stamp of the old
    one: [write_age_keyring] drops the cache entry. *)
Theorem keyring_read_after_write `{!KeyringTomlLaws} path k w w' :
  write_age_keyring path k w = (Done tt, w') → quiet w' →
  ∃ w'', read_age_keyring path w' = (Done k, w'').
Proof.
  unfold write_age_keyring. intros Hw Hq. stm_inv.
  repeat match goal with u : unit |- _ => destruct u end.
  match goal with H : write_key_atomic _ _ _ = _ |- _ => apply write_key_atomic_Done in H as (m & Hf) end.
  match goal with H : restrict_key_file_permissions _ _ = _ |- _ =>
    apply restrict_Done in H as (f & Hf1 & Hc); rewrite Hf in Hc; simpl in Hc; injection Hc as Hc end.
  assert (kw_cache w' !! path = None ∧ kw_files w' !! path = Some f) as [Hcache Hfile].
  { unfold invalidate_age_keyring_cache, stm_modify in Hw. injection Hw as <-. simpl.
    by rewrite lookup_delete_eq. }
  unfold read_age_keyring, cached_age_keyring, stm_bind.
  rewrite age_keyring_file_signature_quiet by done. unfold stm_get. rewrite Hcache.
  rewrite (load_age_keyring_quiet path w' k); [by eexists|done|].
  rewrite Hfile. simpl. rewrite <-Hc. by apply keyring_toml_roundtrip.
Qed.

(** *** Round trips *)

Lemma read_master_key_quiet p w k w1 :
  quiet w → read_master_key p w = (Done k, w1) →
  w1 = w ∧ ∀ w', same_keys w w' → read_master_key p w' = (Done k, w').
Proof.
  intros Hq Hr. unfold read_master_key, stm_bind, stm_get in *.
  assert (Hgen : ∀ w', same_keys w w' →
    kw_env w' = kw_env w ∧ quiet w' ∧ kw_files w' = kw_files w)
    by (intros w' (? & ? & ?); unfold quiet in *; by split_and!; congruence).
  destruct (kw_env w) as [key|] eqn:Henv.
  - unfold stm_ok, stm_lift in *. destruct (validate_key_hex key) eqn:Hv; [|done].
    injection Hr as <- <-. split; [done|]. intros w' (He & _)%Hgen. rewrite He, Hv. done.
  - unfold read_master_key_file, stm_bind in *. rewrite sys_quiet in Hr by done. unfold stm_get in Hr.
    destruct (kw_files w !! p) as [f|] eqn:Hf; [|done]. unfold stm_ret in Hr.
    unfold stm_ok, stm_lift in *. destruct (validate_key_hex (trim (kf_content f))) eqn:Hv; [|done].
    injection Hr as <- <-. split; [done|].
    intros w' (He & Hq' & Hfs)%Hgen. rewrite He, sys_quiet by done. unfold stm_get.
    rewrite Hfs, Hf. unfold stm_ret. by rewrite Hv.
Qed.

Lemma envelope_not_age nonce c : bytes_starts_with (ENC_MAGIC ++ nonce ++ c) AGE_MAGIC = false.
Proof. by apply bool_decide_eq_false; intros [=]. Qed.

Lemma envelope_roundtrip `{!AeadLaws, !RngLaws} b key_hex w c w1 w2 :
  encode_legacy_envelope_with_key_hex b key_hex w = (Done c, w1) →
  (∃ nonce ct, c = ENC_MAGIC ++ nonce ++ ct) ∧ same_keys w w1 ∧ kw_cache w1 = kw_cache w ∧
  decode_legacy_envelope_with_key_hex c key_hex w2 = (Done b, w2).
Proof.
  unfold encode_legacy_envelope_with_key_hex, rng_draw, stm_bind, stm_some, stm_lift, key_from_slice, stm_ret.
  destruct (hex_decode (trim key_hex)) as [kb|] eqn:Hkb; [|done].
  destruct (length kb =? 32)%nat eqn:Hlen; [|done].
  destruct (aead_encrypt kb _ b) as [ct|] eqn:Hct; [|done].
  intros [Hc <-]%pair_equal_spec.
  assert (c = ENC_MAGIC ++ rng_bytes (kw_rng w) 12 ++ ct) as -> by (by injection Hc). clear Hc.
  split; [by do 2 eexists|]. split; [by repeat split|]. split; [done|].
  unfold decode_legacy_envelope_with_key_hex.
  pose proof (rng_bytes_length (kw_rng w) 12) as Hn.
  replace (length (ENC_MAGIC ++ rng_bytes (kw_rng w) 12 ++ ct) <? length ENC_MAGIC + 12)%nat with false
    by (symmetry; apply Nat.ltb_ge; rewrite !length_app, Hn; simpl; lia).
  cbv zeta. rewrite drop_app_length, take_app_length' by done.
  rewrite <-drop_drop, drop_app_length, drop_app_length' by done.
  unfold stm_bind, stm_some, stm_lift, key_from_slice, stm_ret. rewrite Hkb, Hlen.
  by apply aead_decrypt_encrypt in Hct as ->.
Qed.

Lemma legacy_roundtrip `{!AeadLaws, !RngLaws} b p w c w1 :
  quiet w → encode_legacy_envelope b p w = (Done c, w1) →
  (∃ nonce ct, c = ENC_MAGIC ++ nonce ++ ct) ∧ same_keys w w1 ∧ kw_cache w1 = kw_cache w ∧
  ∀ w2, same_keys w w2 → decode_legacy_envelope c p w2 = (Done b, w2).
Proof.
  intros Hq Henc. unfold encode_legacy_envelope in Henc. stm_inv.
  match goal with Hr : read_master_key _ _ = _ |- _ =>
    apply read_master_key_quiet in Hr as [-> Hread]; [|done] end.
  pose proof (λ w2, envelope_roundtrip _ _ _ _ _ w2 Henc) as Hrt.
  destruct (Hrt w) as (Hc & Hs & Hca & _). split_and!; [done..|].
  intros w2 Hw2. unfold decode_legacy_envelope, stm_bind. rewrite (Hread _ Hw2). apply Hrt.
Qed.

(** The age recipients read are those of the keyring file. *)
Lemma read_age_recipients_spec p w rs w1 :
  quiet w → cache_coherent w → read_age_recipients p w = (Done rs, w1) →
  same_keys w w1 ∧ cache_coherent w1 ∧
  ∃ k, keyring_of_file (kw_files w !! p) = Some k ∧ mapM recipient_parse (ak_recipients k) = Some rs.
Proof.
  intros Hq Hc Hr. destruct (keyring_of_file (kw_files w !! p)) as [k|] eqn:Hk.
  2:{ exfalso. unfold read_age_recipients, stm_bind, cached_age_keyring in Hr.
      unfold stm_bind in Hr. rewrite age_keyring_file_signature_quiet in Hr by done.
      unfold stm_get in Hr.
      assert (Hl : ∀ c, (load_age_keyring p (file_signature (kw_files w !! p)) w).1 ≠ Done c).
      { intros c. unfold load_age_keyring, stm_bind.
        destruct (kw_files w !! p) as [f|] eqn:Hf; [|done]. simpl in *. rewrite sys_quiet by done.
        unfold stm_get. rewrite Hf. simpl. unfold stm_ret, stm_some. by rewrite Hk. }
      destruct (kw_cache w !! p) as [c|] eqn:Hhit.
      - case_bool_decide as Hsig; [destruct (Hc _ _ Hhit) as [_ Hx]; naive_solver|].
        destruct (load_age_keyring _ _ w) as [[c'|?|] ?]; simpl in *; naive_solver.
      - destruct (load_age_keyring _ _ w) as [[c'|?|] ?]; simpl in *; naive_solver. }
  destruct (cached_age_keyring_spec p w k Hq Hc Hk) as (c & w' & Heq & Hs & Hc' & Hhit & <- & Hok & Hsig).
  unfold read_age_recipients, stm_bind in Hr. rewrite Heq in Hr.
  destruct (cak_recipients c) as [rs'|] eqn:Hcr.
  { injection Hr as <- <-. split_and!; [done..|]. eexists. split; [done|]. by apply Hok. }
  unfold stm_some in Hr. destruct (mapM recipient_parse _) as [rs'|] eqn:Hp; [|done].
  unfold stm_ret, stm_modify in Hr. rewrite Hhit, bool_decide_eq_true_2 in Hr by done.
  injection Hr as <- <-. split_and!; [by destruct Hs as (?&?&?)| |by exists (cak_keyring c)].
  intros q c1. simpl. destruct (decide (q = p)) as [->|Hne]; intros Hc1; simplify_map_eq; [|by apply Hc'].
  destruct Hs as (-> & _ & _). split; [split; simpl; [naive_solver|apply Hok]|by rewrite Hk].
Qed.

Lemma read_age_identities_spec p w k ids :
  quiet w → cache_coherent w → keyring_of_file (kw_files w !! p) = Some k →
  mapM identity_parse (ak_identities k) = Some ids →
  ∃ w1, read_age_identities p w = (Done ids, w1) ∧ same_keys w w1 ∧ cache_coherent w1.
Proof.
  intros Hq Hc Hk Hids.
  destruct (cached_age_keyring_spec p w k Hq Hc Hk) as (c & w' & Heq & Hs & Hc' & Hhit & <- & Hok & Hsig).
  unfold read_age_identities, stm_bind. rewrite Heq.
  destruct (cak_identities c) as [ids'|] eqn:Hci.
  { apply Hok in Hci as Hci'. simplify_eq. by eexists. }
  rewrite Hids. unfold stm_some, stm_ret, stm_modify. rewrite Hhit, bool_decide_eq_true_2 by done.
  eexists. split_and!; [done|by destruct Hs as (?&?&?)|].
  intros q c1. simpl. destruct (decide (q = p)) as [->|Hne]; intros Hc1; simplify_map_eq; [|by apply Hc'].
  destruct Hs as (-> & _ & _). split; [split; simpl; [apply Hok|naive_solver]|by rewrite Hk].
Qed.

(** When an object written now can be read back: plaintext must not carry one of
    the two magic prefixes, and an object encrypted to age recipients needs one of
    their identities in the keyring. *)
Definition has_magic (b : list Z) : bool := bytes_starts_with b AGE_MAGIC || bytes_starts_with b ENC_MAGIC.

Definition age_readable (f : option KeyFile) : Prop :=
  ∀ k rs, keyring_of_file f = Some k → mapM recipient_parse (ak_recipients k) = Some rs → rs ≠ [] →
  ∃ i ids, mapM identity_parse (ak_identities k) = Some ids ∧ i ∈ ids ∧ to_public i ∈ rs.

Definition codec_ready (e : ObjectEnv) (w : KeyWorld) (b : list Z) : Prop :=
  match oe_security e with
  | None => has_magic b = false
  | Some s =>
    match EncryptionMode_parse s with
    | Ok EncNone => has_magic b = false
    | Ok EncAge => age_readable (kw_files w !! recipients_path e)
    | _ => True
    end
  end.

Lemma decode_plain e b w : has_magic b = false → decode_object e b w = (Done b, w).
Proof.
  unfold has_magic. intros [Ha He]%orb_false_iff.
  unfold decode_object, crypto_decode_object. by rewrite Ha, He.
Qed.

Lemma decode_enveloped e b c w w2 :
  (∃ nonce ct, c = ENC_MAGIC ++ nonce ++ ct) →
  decode_legacy_envelope c (master_key_path e) w = (Done b, w2) → decode_object e c w = (Done b, w2).
Proof.
  intros (nonce & ct & ->) Hd. unfold decode_object, crypto_decode_object.
  rewrite envelope_not_age, bytes_starts_with_app. cbn [negb]. by rewrite Hd.
Qed.

(** The states of a process whose key files are those of [w0]: calls succeed, the
    cache is coherent. *)
Definition key_inv (w0 w : KeyWorld) : Prop := quiet w ∧ cache_coherent w ∧ same_keys w0 w.

(** [c] reads as [b] in every such state, and reading stays in them. *)
Definition reads_as (e : ObjectEnv) (w0 : KeyWorld) (c b : list Z) : Prop :=
  ∀ w, key_inv w0 w → ∃ w', decode_object e c w = (Done b, w') ∧ key_inv w0 w'.

Lemma key_inv_step w0 w w' : key_inv w0 w → same_keys w w' → cache_coherent w' → key_inv w0 w'.
Proof.
  intros (Hq & Hc & Hs) Hs' Hc'. split_and!; [by eapply same_keys_quiet|done|by etrans].
Qed.

Lemma cache_coherent_ext w w' :
  same_keys w w' → kw_cache w' = kw_cache w → cache_coherent w → cache_coherent w'.
Proof. unfold cache_coherent. intros (-> & _) ->. done. Qed.

Lemma legacy_stable `{!AeadLaws, !RngLaws} e b w0 w c w1 :
  key_inv w0 w → encode_legacy_envelope b (master_key_path e) w = (Done c, w1) →
  key_inv w0 w1 ∧ reads_as e w0 c b.
Proof.
  intros Hinv Henc. pose proof Hinv as (Hq & Hc & Hs).
  destruct (legacy_roundtrip _ _ _ _ _ Hq Henc) as (Hm & Hs1 & Hca & Hd). split.
  - eapply key_inv_step; [done..|]. by eapply cache_coherent_ext.
  - intros w2 Hw2. exists w2. split; [|done]. apply decode_enveloped; [done|]. apply Hd.
    destruct Hs as (?&?&?), Hw2 as (_ & _ & (?&?&?)). split_and!; congruence.
Qed.

Lemma age_stable `{!AgeLaws, !AeadLaws, !RngLaws} e b w0 w c w1 :
  key_inv w0 w → age_readable (kw_files w0 !! recipients_path e) →
  crypto_encode_object b EncAge (master_key_path e) (recipients_path e) w = (Done c, w1) →
  key_inv w0 w1 ∧ reads_as e w0 c b.
Proof.
  intros Hinv Hready. pose proof Hinv as (Hq & Hc & Hs0). simpl. unfold age_encrypt_object.
  intros Henc. stm_inv.
  match goal with Hr : read_age_recipients _ _ = (Done ?rs, ?wr) |- _ =>
    apply read_age_recipients_spec in Hr as (Hs & Hc1 & k & Hk & Hrs); [|done..];
    assert (key_inv w0 wr) as Hinv1 by (by eapply key_inv_step);
    destruct rs as [|r0 rs] end; stm_inv; [by eapply legacy_stable|].
  match goal with Hx : stm_ok (age_encrypt _ _ _) _ = _ |- _ => apply stm_ok_Done in Hx as [Hx ->] end.
  stm_inv. split; [eapply key_inv_step; [exact Hinv1|by repeat split|done]|].
  destruct Hs0 as (Hf0 & _). rewrite Hf0 in Hk.
  destruct (Hready _ _ Hk Hrs) as (i & ids & Hids & Hi & Hpub); [done|].
  match goal with Hx : age_encrypt _ _ _ = Ok _ |- _ =>
    pose proof (age_encrypt_magic _ _ _ _ Hx) as Hmagic;
    pose proof (age_decrypt_encrypt _ _ _ _ _ _ Hx Hi Hpub) as Hdec end.
  intros w2 Hw2. pose proof Hw2 as (Hq2 & Hc2 & (Hf2 & _)).
  destruct (read_age_identities_spec (recipients_path e) w2 k ids) as (w3 & Hread & Hs3 & Hc3);
    [done|done|by rewrite Hf2|done|].
  exists w3. split; [|by eapply key_inv_step].
  unfold decode_object, crypto_decode_object. rewrite Hmagic.
  unfold age_decrypt_object, stm_bind. rewrite Hread.
  destruct ids as [|i0 ids]; [by apply not_elem_of_nil in Hi|].
  unfold stm_ok, stm_lift. by rewrite Hdec.
Qed.

Lemma encode_object_stable `{!AgeLaws, !AeadLaws, !RngLaws} e b w0 w c w1 :
  key_inv w0 w → codec_ready e w0 b → encode_object e b w = (Done c, w1) →
  key_inv w0 w1 ∧ reads_as e w0 c b.
Proof.
  intros Hinv Hready. unfold codec_ready in Hready. unfold encode_object, encryption_enabled, stm_bind.
  assert (Hplain : has_magic b = false → reads_as e w0 b b)
    by (intros Hm w2 Hw2; exists w2; by rewrite decode_plain).
  destruct (oe_security e) as [sec|]; [|intros [= <- <-]; by auto].
  destruct (EncryptionMode_parse sec) as [[]|]; simpl; [| | |done].
  - intros [= <- <-]. by auto.
  - intros Henc. by eapply age_stable.
  - intros Henc. by eapply legacy_stable.
Qed.

(** C31. What [encode_object] writes [decode_object] reads back with the keys unchanged, when
    no system call fails and the cached keyring says what its file says: for ChaCha20-Poly1305
    every object, for age (which falls back to the master key when the keyring has no
    recipient) every object when the keyring can decrypt what it encrypts to, and without
    encryption the objects that do not start with a magic prefix of a cipher
    ([plaintext_age_file_unreadable] shows what becomes of the others). *)
Theorem decode_encode_object `{!AgeLaws, !AeadLaws, !RngLaws} e b w c w1 :
  quiet w → cache_coherent w → codec_ready e w b →
  encode_object e b w = (Done c, w1) →
  ∃ w2, decode_object e c w1 = (Done b, w2).
Proof.
  intros Hq Hc Hready Henc.
  destruct (encode_object_stable e b w w c w1) as [Hinv Hreads]; [by split_and!; [..|split_and!]|done..|].
  destruct (Hreads w1 Hinv) as (w2 & ? & _). by exists w2.
Qed.

(** During a key rotation an object written under the previous master key
    stays readable: [decode_object] falls back to the [master.key.prev] file when
    the current key does not decrypt it and there is no pending key. *)
Theorem decode_with_previous_key `{!AeadLaws, !RngLaws} e b w0 old c w1 w f :
  encode_legacy_envelope_with_key_hex b old w0 = (Done c, w1) → validate_key_hex old = Ok tt →
  quiet w → (∃ x, crypto_decode_object c (master_key_path e) (recipients_path e) w = (Fails x, w)) →
  kw_files w !! key_rotation_pending_path e = None →
  kw_files w !! key_rotation_previous_path e = Some f → trim (kf_content f) = old →
  decode_object e c w = (Done b, w).
Proof.
  intros Henc Hold Hq (x & Hx) Hpend Hprev Hcont.
  destruct (envelope_roundtrip _ _ _ _ _ w Henc) as ((nonce & ct & ->) & _ & _ & Hd).
  unfold decode_object. rewrite Hx. cbn [try_fallbacks]. rewrite Hpend, Hprev.
  assert (read_master_key_file (key_rotation_previous_path e) w = (Done old, w)) as ->.
  { unfold read_master_key_file, stm_bind. rewrite sys_quiet by done. unfold stm_get.
    rewrite Hprev. unfold stm_ret. by rewrite Hcont, Hold. }
  unfold decode_object_with_master_key_hex, stm_bind. rewrite Hold. unfold stm_ok, stm_lift. simpl outcome_of_result.
  rewrite envelope_not_age, bytes_starts_with_app. cbn [negb]. by rewrite Hd.
Qed.

(** Reading an age object with an empty keyring fails and leaves the keys alone. *)
Lemma age_decrypt_no_keyring p b w :
  quiet w → cache_coherent w → kw_files w !! p = None →
  ∃ x w1, age_decrypt_object p b w = (Fails x, w1) ∧ same_keys w w1 ∧ cache_coherent w1.
Proof.
  intros Hq Hc Hn.
  destruct (read_age_identities_spec p w AgeKeyring_default [] Hq Hc) as (w3 & Hr & Hs & Hc3);
    [by rewrite Hn|done|].
  unfold age_decrypt_object, stm_bind. rewrite Hr. by do 2 eexists.
Qed.

Lemma read_master_key_file_quiet p w r w1 :
  quiet w → read_master_key_file p w = (r, w1) → w1 = w.
Proof.
  intros Hq. unfold read_master_key_file, stm_bind. rewrite sys_quiet by done. unfold stm_get.
  destruct (kw_files w !! p) as [f|]; [|by intros [= _ <-]]. unfold stm_ret, stm_ok, stm_lift.
  destruct (validate_key_hex _); by intros [= _ <-].
Qed.

Lemma try_fallbacks_no_keyring b rp fs w :
  quiet w → cache_coherent w → kw_files w !! rp = None → bytes_starts_with b AGE_MAGIC = true →
  ∃ w1, try_fallbacks b rp fs w = (Done None, w1).
Proof.
  intros Hq Hc Hn Hmagic. revert w Hq Hc Hn.
  induction fs as [|p fs IH]; intros w Hq Hc Hn; simpl; [by eexists|].
  destruct (kw_files w !! p) as [f|] eqn:Hf; [|by apply IH].
  pose proof (read_master_key_file_no_panic p w) as Hnp.
  destruct (read_master_key_file p w) as [[key|err|] w1] eqn:Hr; [| |done];
    apply read_master_key_file_quiet in Hr as Hw1; [|done| |done]; subst w1; [|by apply IH].
  apply read_master_key_file_valid in Hr.
  unfold decode_object_with_master_key_hex, stm_bind. rewrite Hr. unfold stm_ok, stm_lift. simpl outcome_of_result.
  rewrite Hmagic. destruct (age_decrypt_no_keyring rp b w Hq Hc Hn) as (x & w2 & -> & Hs & Hc2).
  apply IH; [by eapply same_keys_quiet|done|]. by destruct Hs as (-> & _).
Qed.

(** Without encryption a file that itself starts with the age header (any
    [.age] file) is stored as it is and cannot be read back: [decode_object] takes
    the header for its own and asks for an identity of a keyring there is not. *)
Theorem plaintext_age_file_unreadable e b w :
  oe_security e = Some "none" → bytes_starts_with b AGE_MAGIC = true →
  quiet w → kw_files w !! recipients_path e = None → cache_coherent w →
  encode_object e b w = (Done b, w) ∧ ∃ x w1, decode_object e b w = (Fails x, w1).
Proof.
  intros Hsec Hmagic Hq Hnone Hc. split; [unfold encode_object; by rewrite Hsec|].
  unfold decode_object, crypto_decode_object. rewrite Hmagic.
  destruct (age_decrypt_no_keyring _ b w Hq Hc Hnone) as (x & w1 & -> & Hs & Hc1).
  destruct (try_fallbacks_no_keyring b (recipients_path e)
    [key_rotation_pending_path e; key_rotation_previous_path e] w1) as (w2 & ->).
  - by eapply same_keys_quiet.
  - done.
  - by destruct Hs as (-> & _).
  - done.
  - by do 2 eexists.
Qed.

End Crypto.

(** ** A concrete instance of the third-party code *)

Module CryptoExample.

Definition hex_digit (n : Z) : ascii :=
  ascii_of_N (if n <? 10 then Z.to_N (48 + n) else Z.to_N (87 + n)).
Definition hex_value (c : ascii) : option Z :=
  let n := Z.of_N (byte_val c) in
  if (48 <=? n) && (n <=? 57) then Some (n - 48)
  else if (97 <=? n) && (n <=? 102) then Some (n - 87) else None.

Fixpoint ex_hex_decode (s : string) : option (list Z) :=
  match s with
  | EmptyString => Some []
  | String a (String b s') =>
    match hex_value a, hex_value b, ex_hex_decode s' with
    | Some x, Some y, Some l => Some (16 * x + y :: l)
    | _, _, _ => None
    end
  | _ => None
  end.
Fixpoint ex_hex_encode (l : list Z) : string :=
  match l with
  | [] => ""
  | b :: l' => String (hex_digit (b / 16)) (String (hex_digit (b mod 16)) (ex_hex_encode l'))
  end.

#[export] Instance ex_hex : Hex := {| hex_decode := ex_hex_decode; hex_encode := ex_hex_encode |}.
#[export] Instance ex_rng : Rng := {| rng_bytes i n := repeat (Z.of_nat i mod 256) n |}.
#[export] Instance ex_rng_laws : RngLaws.
Proof. split. intros. apply repeat_length. Qed.

(** A cipher that prepends its key, and refuses another one. *)
#[export] Instance ex_aead : Aead := {|
  aead_encrypt k _ p := Some (k ++ p);
  aead_decrypt k _ c := if bytes_starts_with c k then Some (drop (length k) c) else None;
|}.
#[export] Instance ex_aead_laws : AeadLaws.
Proof. split. intros k n p c [= <-]. simpl. by rewrite bytes_starts_with_app, drop_app_length. Qed.

#[export] Instance ex_age : Age := {|
  Recipient := N; Identity := N;
  recipient_parse := parse_digits; identity_parse := parse_digits;
  recipient_to_string := string_of_N; identity_to_string := string_of_N;
  identity_generate := N.of_nat; to_public i := i;
  age_encrypt _ rs p := Ok (AGE_MAGIC ++ p);
  age_decrypt _ c := Ok (drop (length AGE_MAGIC) c);
|}.
#[export] Instance ex_age_laws : AgeLaws.
Proof.
  split.
  - apply parse_digits_of_N.
  - apply parse_digits_of_N.
  - intros n rs p c [= <-]. apply (bytes_starts_with_app AGE_MAGIC).
  - intros n rs p c i ids [= <-] _ _. done.
Qed.

Definition ex_print (k : AgeKeyring) : string :=
  join "," (ak_recipients k) +:+ ";" +:+ join "," (ak_identities k).
Definition ex_parse (s : string) : option AgeKeyring :=
  '(r, i) ← split_once s ";";
  Some {| ak_recipients := split ","%char r; ak_identities := split ","%char i |}.
#[export] Instance AgeKeyring_eq_dec : EqDecision AgeKeyring.
Proof. solve_decision. Defined.
#[export] Instance ex_toml : KeyringToml := {|
  keyring_from_toml := ex_parse;
  keyring_to_toml k := if bool_decide (ex_parse (ex_print k) = Some k) then Some (ex_print k) else None;
|}.
#[export] Instance ex_toml_laws : KeyringTomlLaws.
Proof. split. simpl. intros k s. case_bool_decide; naive_solver. Qed.
#[export] Instance ex_hmac : Hmac := {| hmac_sha256 k m := k ++ m |}.

Definition ex_key : string := "000102030405060708090a0b0c0d0e0f101112131415161718191a1b1c1d1e1f".
Definition ex_old_key : string := "ff0102030405060708090a0b0c0d0e0f101112131415161718191a1b1c1d1e1f".
Definition ex_file (c : string) : KeyFile :=
  {| kf_content := c; kf_modified := Some 7; kf_mode := MODE_0600 |}.
Definition ex_world (files : gmap KeyPath KeyFile) (faults : list (option nat)) : KeyWorld :=
  {| kw_files := files; kw_dirs := ∅; kw_cache := ∅; kw_env := None; kw_rng := 0;
     kw_now := Some 7; kw_faults := faults |}.
Definition ex_env (s : string) : ObjectEnv := {| oe_keys_dir := "keys"; oe_security := Some s |}.

Lemma ex_coherent files faults : cache_coherent (ex_world files faults).
Proof. intros p c Hc. simpl in Hc. by rewrite lookup_empty in Hc. Qed.

(** The write of the new key stops after three bytes: the old key stays. *)
Definition ex_torn : KeyWorld := ex_world {[("keys", "master.key") := ex_file ex_old_key]} [None; Some 3%nat].

Lemma write_key_atomic_atomic_witness :
  let path := ("keys", "master.key") in
  let out := write_key_atomic path ex_key ex_torn in
  out.1 = Fails "write" ∧ replaced_or_kept path ex_key ex_torn out.2.
Proof.
  split; [vm_compute; reflexivity|].
  destruct (write_key_atomic ("keys", "master.key") ex_key ex_torn) as [r w'] eqn:Hw.
  exact (proj1 (write_key_atomic_atomic _ _ _ _ _ Hw)).
Defined.

Definition ex_ring : AgeKeyring := {| ak_recipients := ["5"]; ak_identities := ["5"] |}.
Definition ex_ring_out := write_age_keyring ("keys", "recipients.toml") ex_ring (ex_world ∅ []).

Lemma keyring_read_after_write_witness :
  ex_ring_out.1 = Done tt ∧
  ∃ w'', read_age_keyring ("keys", "recipients.toml") ex_ring_out.2 = (Done ex_ring, w'').
Proof.
  split; [vm_compute; reflexivity|].
  apply (keyring_read_after_write _ _ (ex_world ∅ [])); vm_compute; reflexivity.
Defined.

Definition ex_chacha_world : KeyWorld := ex_world {[("keys", "master.key") := ex_file ex_key]} [].

Lemma decode_encode_object_witness :
  let out := encode_object (ex_env "chacha20poly1305") [1; 2; 3] ex_chacha_world in
  ∃ c w2, out.1 = Done c ∧ decode_object (ex_env "chacha20poly1305") c out.2 = (Done [1; 2; 3], w2).
Proof.
  destruct (encode_object (ex_env "chacha20poly1305") [1; 2; 3] ex_chacha_world) as [r w1] eqn:Henc.
  destruct r as [c|x|]; [|exfalso; revert Henc; vm_compute; discriminate..].
  destruct (decode_encode_object (ex_env "chacha20poly1305") [1; 2; 3] ex_chacha_world c w1) as (w2 & Hw2).
  - reflexivity.
  - apply ex_coherent.
  - exact I.
  - exact Henc.
  - exists c, w2. split; [reflexivity|exact Hw2].
Defined.

(** The keys after a rotation, and an object written before it. *)
Definition ex_rotated : KeyWorld := ex_world
  {[("keys", "master.key") := ex_file ex_key; ("keys", "master.key.prev") := ex_file ex_old_key]} [].
Definition ex_old_object : list Z :=
  match (encode_legacy_envelope_with_key_hex [1; 2; 3] ex_old_key (ex_world ∅ [])).1 with
  | Done c => c | _ => [] end.

Lemma decode_with_previous_key_witness :
  decode_object (ex_env "chacha20poly1305") ex_old_object ex_rotated = (Done [1; 2; 3], ex_rotated).
Proof.
  eapply (decode_with_previous_key _ _ (ex_world ∅ []) ex_old_key); try (vm_compute; reflexivity).
  eexists. vm_compute. reflexivity.
Defined.

Lemma plaintext_age_file_unreadable_witness :
  let b := AGE_MAGIC ++ [1; 2; 3] in
  encode_object (ex_env "none") b (ex_world ∅ []) = (Done b, ex_world ∅ []) ∧
  ∃ x w1, decode_object (ex_env "none") b (ex_world ∅ []) = (Fails x, w1).
Proof.
  apply plaintext_age_file_unreadable; try reflexivity. apply ex_coherent.
Defined.

End CryptoExample.
