(* ===== verification/Pack.v ===== *)
(** * majutsu-pack: pack files and their checks

    [src/internal/majutsu_pack.rs]: the index of a pack file, the checks the
    integrity scan runs on the index and on the pack object, the tiers of packs
    and their keys. *)

From S2P Require Import Prelude RStr BTree MachInt Core.

Local Open Scope Z_scope.

Definition SMALL_BLOB_MAX_SIZE : Z := 128 * 1024.
Definition DEFAULT_SMALL_PACK_TARGET : Z := 64 * 1024 * 1024.
Definition DEFAULT_NORMAL_PACK_TARGET : Z := 256 * 1024 * 1024.

Record PackEntry := { pe_oid : string; pe_offset : Z; pe_len : Z }.
Record PackIndex := {
  px_version : Z; px_pack_id : string; px_pack_key : string; px_entries : list PackEntry }.
Record PackExport := {
  pk_pack_id : string; pk_pack_key : string; pk_index_key : string;
  pk_object_count : Z; pk_size : Z }.

Definition matches_index (pack : PackExport) (index : PackIndex) : bool :=
  (pk_pack_id pack =? px_pack_id index)%string && (pk_pack_key pack =? px_pack_key index)%string
  && (pk_object_count pack =? Z.of_nat (length (px_entries index))).

Record PackedBlobMetadata := {
  pb_oid : string; pb_pack_offset : option Z; pb_pack_len : option Z }.

(** ** The index against the rows of the blobs it packs *)

Inductive PackIndexIssue :=
| PackMetadataMismatch
| EntryWithoutBlobMetadata (oid : string)
| EntryOffsetMismatch (oid : string)
| MissingBlobEntry (oid : string).

Definition blob_of (oid : string) (blobs : list PackedBlobMetadata) : option PackedBlobMetadata :=
  List.find (λ b, (pb_oid b =? oid)%string) blobs.

(** The loop over the entries: the issues it pushes and the set [seen] it fills. *)
Fixpoint index_entries_issues (expected_blobs : list PackedBlobMetadata) (seen : list string)
    (entries : list PackEntry) : list PackIndexIssue * list string :=
  match entries with
  | [] => ([], seen)
  | entry :: rest =>
    match blob_of (pe_oid entry) expected_blobs with
    | None =>
      let '(issues, seen') := index_entries_issues expected_blobs seen rest in
      (EntryWithoutBlobMetadata (pe_oid entry) :: issues, seen')
    | Some blob =>
      let '(issues, seen') := index_entries_issues expected_blobs (bset_insert (pe_oid entry) seen) rest in
      if negb (bool_decide (pb_pack_offset blob = Some (pe_offset entry)))
         || negb (bool_decide (pb_pack_len blob = Some (pe_len entry)))
      then (EntryOffsetMismatch (pe_oid entry) :: issues, seen')
      else (issues, seen')
    end
  end.

Definition pack_index_issues (pack : PackExport) (index : PackIndex)
    (expected_blobs : list PackedBlobMetadata) : list PackIndexIssue :=
  if negb (matches_index pack index)
     || negb (Nat.eqb (length (px_entries index)) (length expected_blobs))
  then [PackMetadataMismatch]
  else
    let '(issues, seen) := index_entries_issues expected_blobs [] (px_entries index) in
    issues ++ flat_map (λ blob,
      if bset_contains seen (pb_oid blob) then [] else [MissingBlobEntry (pb_oid blob)]) expected_blobs.

(** ** The pack object against the rows *)

Inductive PackObjectIssue :=
| SizeMismatch
| MissingBlobOffset (oid : string)
| MissingBlobLength (oid : string)
| BlobRangeOutOfBounds (oid : string).

(** [checked_add(len).is_none_or(|end| end > size)] *)
Definition range_exceeds (offset len size : Z) : bool :=
  match checked_add offset len with None => true | Some stop => size <? stop end.

Definition blob_object_issues (pack_size actual_size : Z) (blob : PackedBlobMetadata)
    : list PackObjectIssue :=
  match pb_pack_offset blob with
  | None => [MissingBlobOffset (pb_oid blob)]
  | Some offset =>
    match pb_pack_len blob with
    | None => [MissingBlobLength (pb_oid blob)]
    | Some len =>
      if range_exceeds offset len pack_size || range_exceeds offset len actual_size
      then [BlobRangeOutOfBounds (pb_oid blob)] else []
    end
  end.

Definition pack_object_issues (pack : PackExport) (actual_size : Z)
    (expected_blobs : list PackedBlobMetadata) : list PackObjectIssue :=
  (if negb (actual_size =? pk_size pack) then [SizeMismatch] else [])
  ++ flat_map (blob_object_issues (pk_size pack) actual_size) expected_blobs.

(** The identifiers of packs that blobs name and the pack table lacks, each once. *)
Definition missing_pack_metadata_ids (blob_pack_ids metadata_pack_ids : list string) : list string :=
  fold_left (λ missing pack_id,
    if negb (bset_contains (bset_of_list metadata_pack_ids) pack_id)
       && negb (existsb (String.eqb pack_id) missing)
    then missing ++ [pack_id] else missing) blob_pack_ids [].

(** ** Tiers and keys *)

Inductive PackTier := TierSmall | TierNormal.
#[export] Instance PackTier_eq_dec : EqDecision PackTier.
Proof. solve_decision. Defined.

Definition PackTier_as_str (t : PackTier) : string :=
  match t with TierSmall => "small" | TierNormal => "normal" end.

Definition tier_for_blob (size : Z) : PackTier :=
  if size <=? SMALL_BLOB_MAX_SIZE then TierSmall else TierNormal.

Record PackDatePrefixes := { pdp_pack_prefix : string; pdp_index_prefix : string }.

Definition date_prefixes `{!Chrono} (tier : PackTier) (now : DateTime) : PackDatePrefixes := {|
  pdp_pack_prefix := "objects/packs/" +:+ PackTier_as_str tier +:+ "/" +:+ fmt_year (dt_year now) +:+ "/"
    +:+ pad0 2 (Z.to_N (dt_month now)) +:+ "/" +:+ pad0 2 (Z.to_N (dt_day now));
  pdp_index_prefix := "objects/indexes/pack/" +:+ fmt_year (dt_year now) +:+ "/"
    +:+ pad0 2 (Z.to_N (dt_month now)) |}.

Definition pack_key (prefix pack_id : string) : string := prefix +:+ "/" +:+ pack_id +:+ ".mpack".
Definition index_key (prefix pack_id : string) : string := prefix +:+ "/" +:+ pack_id +:+ ".json".

(** ** Properties of the checks *)

Definition entry_row (e : PackEntry) : string * option Z * option Z :=
  (pe_oid e, Some (pe_offset e), Some (pe_len e)).
Definition blob_row (b : PackedBlobMetadata) : string * option Z * option Z :=
  (pb_oid b, pb_pack_offset b, pb_pack_len b).

Lemma blob_of_Some oid blobs b : blob_of oid blobs = Some b → b ∈ blobs ∧ pb_oid b = oid.
Proof.
  unfold blob_of. intros [Hin Heq]%find_some. by apply list_elem_of_In in Hin; mj_bool.
Qed.

Lemma blob_of_NoDup blobs b :
  NoDup (map pb_oid blobs) → b ∈ blobs → blob_of (pb_oid b) blobs = Some b.
Proof.
  unfold blob_of. induction blobs as [|x blobs IH]; simpl; [set_solver|].
  intros [Hx Hnd]%NoDup_cons [->|Hb]%elem_of_cons; [by rewrite String.eqb_refl|].
  destruct (String.eqb_spec (pb_oid x) (pb_oid b)) as [He|]; [|auto].
  destruct Hx. rewrite He. by apply list_elem_of_fmap_2.
Qed.

(** What the loop leaves: no issue exactly when every entry agrees with a row. *)
Lemma index_entries_issues_spec blobs seen entries issues seen' :
  index_entries_issues blobs seen entries = (issues, seen') →
  (issues = [] ↔ ∀ e, e ∈ entries → ∃ b, blob_of (pe_oid e) blobs = Some b ∧ blob_row b = entry_row e) ∧
  (issues = [] → ∀ oid, oid ∈ seen' ↔ oid ∈ seen ∨ oid ∈ map pe_oid entries).
Proof.
  revert seen issues seen'; induction entries as [|e entries IH]; intros seen issues seen'; simpl.
  - intros [= <- <-]. split; set_solver.
  - destruct (blob_of (pe_oid e) blobs) as [b|] eqn:Hb.
    + destruct (index_entries_issues _ _ entries) as [i s] eqn:Hrec. apply IH in Hrec as [IH1 IH2].
      apply blob_of_Some in Hb as Hb'. destruct Hb' as [_ Hoid].
      assert (negb (bool_decide (pb_pack_offset b = Some (pe_offset e)))
              || negb (bool_decide (pb_pack_len b = Some (pe_len e))) = false ↔ blob_row b = entry_row e) as Hrow.
      { unfold blob_row, entry_row. rewrite orb_false_iff, !negb_false_iff, !bool_decide_eq_true, Hoid.
        split; [by intros [-> ->]|by intros [= -> ->]]. }
      destruct (_ || _) eqn:Hc; intros [= <- <-].
      * split; [|done]. split; [done|]. intros Hall.
        destruct (Hall e) as (b' & Hb' & Hr); [set_solver|]. rewrite Hb in Hb'. simplify_eq.
        by apply Hrow in Hr.
      * apply proj1 in Hrow. specialize (Hrow eq_refl). split.
        -- rewrite IH1. setoid_rewrite elem_of_cons. naive_solver.
        -- intros Hi oid. rewrite (IH2 Hi), elem_of_bset_insert. set_solver.
    + destruct (index_entries_issues _ _ entries) as [i s] eqn:Hrec. intros [= <- <-].
      split; [|done]. split; [done|]. intros Hall. destruct (Hall e) as (b & ? & ?); set_solver.
Qed.

(** Rows with distinct identifiers that are all listed, as many as the entries,
    are the entries up to order. *)
Lemma rows_permutation blobs entries :
  NoDup (map pb_oid blobs) → length entries = length blobs →
  (∀ e, e ∈ entries → ∃ b, blob_of (pe_oid e) blobs = Some b ∧ blob_row b = entry_row e) →
  (∀ b, b ∈ blobs → pb_oid b ∈ map pe_oid entries) →
  map blob_row blobs ≡ₚ map entry_row entries.
Proof.
  intros Hnd Hlen Hent Hcov. apply submseteq_length_Permutation; [|by rewrite !length_map, Hlen].
  apply NoDup_submseteq.
  - apply (NoDup_fmap_1 (λ r : string * option Z * option Z, r.1.1)).
    by rewrite <-list_fmap_compose.
  - intros r (b & -> & Hb)%list_elem_of_fmap.
    apply Hcov in Hb as Hin. apply list_elem_of_fmap in Hin as (e & Heq & He).
    destruct (Hent e He) as (b' & Hfind & Hrow).
    rewrite <-Heq, (blob_of_NoDup _ _ Hnd Hb) in Hfind. simplify_eq.
    rewrite Hrow. by apply list_elem_of_fmap_2.
Qed.

(** With the primary key of the blob table giving distinct identifiers, the
    index check of a pack reports nothing exactly when the pack row describes the
    index and the entries of the index are, up to order, the rows of the blobs
    stored in the pack with their offsets and lengths. *)
Theorem pack_index_issues_nil pack index blobs :
  NoDup (map pb_oid blobs) →
  pack_index_issues pack index blobs = [] ↔
    matches_index pack index = true ∧ map blob_row blobs ≡ₚ map entry_row (px_entries index).
Proof.
  intros Hnd. unfold pack_index_issues.
  destruct (matches_index pack index) eqn:Hm; simpl; [|naive_solver].
  destruct (Nat.eqb_spec (length (px_entries index)) (length blobs)) as [Hlen|Hlen]; simpl.
  2:{ split; [done|]. intros [_ Hp%Permutation_length]. by rewrite !length_map in Hp. }
  destruct (index_entries_issues blobs [] (px_entries index)) as [issues seen] eqn:Hi.
  apply index_entries_issues_spec in Hi as [Hissues Hseen].
  rewrite app_nil, flat_map_nil. setoid_rewrite if_nil'. setoid_rewrite bset_contains_true.
  split.
  - intros [Hnil Hcov]. split; [done|]. apply rows_permutation; [done..|by apply Hissues|].
    intros b Hb. apply Hcov in Hb. rewrite (Hseen Hnil) in Hb. set_solver.
  - intros [_ Hp]. assert (issues = []) as Hnil.
    { apply Hissues. intros e He. assert (entry_row e ∈ map blob_row blobs) as Hr.
      { rewrite Hp. by apply list_elem_of_fmap_2. }
      apply list_elem_of_fmap in Hr as (b & Hr & Hb). exists b. split; [|done].
      replace (pe_oid e) with (pb_oid b) by (unfold entry_row, blob_row in Hr; congruence).
      by apply blob_of_NoDup. }
    split; [done|]. intros b Hb. rewrite (Hseen Hnil). right.
    assert (blob_row b ∈ map entry_row (px_entries index)) as Hr.
    { rewrite <-Hp. by apply list_elem_of_fmap_2. }
    apply list_elem_of_fmap in Hr as (e & Hr & He). apply list_elem_of_fmap. exists e.
    unfold entry_row, blob_row in Hr. split; [congruence|done].
Qed.

Lemma pack_index_issues_nil_witness :
  let blob := {| pb_oid := "a"; pb_pack_offset := Some 0; pb_pack_len := Some 9 |} in
  let index := {| px_version := 1; px_pack_id := "p"; px_pack_key := "k";
                  px_entries := [{| pe_oid := "a"; pe_offset := 0; pe_len := 9 |}] |} in
  let pack := {| pk_pack_id := "p"; pk_pack_key := "k"; pk_index_key := "i";
                 pk_object_count := 1; pk_size := 9 |} in
  pack_index_issues pack index [blob] = [].
Proof.
  simpl. apply pack_index_issues_nil; [|split; reflexivity].
  apply NoDup_singleton.
Defined.

Lemma range_exceeds_false offset len size :
  size <= u64_max → range_exceeds offset len size = false ↔ offset + len <= size.
Proof.
  intros Hs. unfold range_exceeds. destruct (checked_add offset len) as [stop|] eqn:Hc.
  - apply checked_add_Some in Hc as [-> _]. by rewrite Z.ltb_ge.
  - split; [done|]. intros Hle. unfold checked_add in Hc.
    destruct (Z.leb_spec (offset + len) u64_max); [done|lia].
Qed.

Lemma object_blob_ok size b :
  size <= u64_max →
  blob_object_issues size size b = [] ↔
    ∃ offset len, pb_pack_offset b = Some offset ∧ pb_pack_len b = Some len ∧ offset + len <= size.
Proof.
  intros Hu. unfold blob_object_issues. destruct (pb_pack_offset b) as [o|]; [|naive_solver].
  destruct (pb_pack_len b) as [l|]; [|naive_solver].
  rewrite orb_diag, if_nil, range_exceeds_false by done. naive_solver.
Qed.

(** The object check reports nothing exactly when the object has the recorded size
    and every blob has a range that lies inside it; the sum of offset and length
    cannot wrap around. *)
Lemma pack_object_issues_nil pack actual_size blobs :
  is_u64 actual_size →
  pack_object_issues pack actual_size blobs = [] ↔
    actual_size = pk_size pack ∧
    ∀ b, b ∈ blobs → ∃ offset len, pb_pack_offset b = Some offset ∧ pb_pack_len b = Some len ∧
      offset + len <= actual_size.
Proof.
  intros [_ Hu]. unfold pack_object_issues. rewrite app_nil, if_nil, negb_false_iff, Z.eqb_eq, flat_map_nil.
  split; (intros [<- Hall]; split; [done|]; intros b Hb; specialize (Hall b Hb); revert Hall);
    apply object_blob_ok; done.
Qed.

(** *** Keys of packs *)

Lemma last_part_inj p p' a a' :
  contains_char a "/" = false → contains_char a' "/" = false →
  p +:+ "/" +:+ a = p' +:+ "/" +:+ a' → a = a'.
Proof.
  intros Ha Ha' Heq. apply (f_equal (split "/")) in Heq.
  change ("/" +:+ a) with (String "/" a) in Heq. change ("/" +:+ a') with (String "/" a') in Heq.
  rewrite !split_app_sep, (split_no_sep _ a), (split_no_sep _ a') in Heq by done.
  apply (f_equal last) in Heq. rewrite !last_snoc in Heq. congruence.
Qed.

Lemma pack_key_inj p p' a a' :
  contains_char a "/" = false → contains_char a' "/" = false →
  pack_key p a = pack_key p' a' → a = a'.
Proof.
  unfold pack_key. rewrite !str_app_assoc. intros Ha Ha' Heq%str_app_inj_r.
  rewrite <-!str_app_assoc in Heq. by eapply last_part_inj.
Qed.

Lemma index_key_inj p p' a a' :
  contains_char a "/" = false → contains_char a' "/" = false →
  index_key p a = index_key p' a' → a = a'.
Proof.
  unfold index_key. rewrite !str_app_assoc. intros Ha Ha' Heq%str_app_inj_r.
  rewrite <-!str_app_assoc in Heq. by eapply last_part_inj.
Qed.

Lemma pack_index_key_ne p p' a a' : pack_key p a ≠ index_key p' a'.
Proof.
  unfold pack_key, index_key. rewrite !str_app_assoc. intros Heq%(f_equal String.rev).
  by rewrite !rev_app_distr in Heq.
Qed.
