(* ===== verification/Restore.v ===== *)
(** * majutsu-restore: restore jobs and restore times

    [src/internal/majutsu_restore.rs]: what a restore needs and where it is, the
    job record, the counts of a plan, path filters, and the parsing of times. *)

From S2P Require Import Prelude RStr BTree MachInt Core Util.

Local Open Scope Z_scope.

(** ** Availability of objects *)

Record RestoreObjectAvailability := {
  roa_required_objects : list string;
  roa_archived_objects : list string;
  roa_missing_objects : list string }.

Fixpoint classify_loop {E} (local_exists remote_available : string → result bool E)
    (archived missing keys : list string) : result (list string * list string) E :=
  match keys with
  | [] => Ok (archived, missing)
  | key :: rest =>
    let? here := local_exists key in
    if here : bool then classify_loop local_exists remote_available archived missing rest else
    let? there := remote_available key in
    if there : bool then classify_loop local_exists remote_available (archived ++ [key]) missing rest
    else classify_loop local_exists remote_available archived (missing ++ [key]) rest
  end.

Definition classify_restore_object_availability {E} (required_objects : list string)
    (local_exists remote_available : string → result bool E) : result RestoreObjectAvailability E :=
  let? found := classify_loop local_exists remote_available [] [] required_objects in
  Ok {| roa_required_objects := required_objects; roa_archived_objects := found.1;
        roa_missing_objects := found.2 |}.

(** ** The job record *)

Record RestoreQueueItem := {
  rq_id : string;
  rq_snapshot_id : string;
  rq_root : option string;
  rq_path : option string;
  rq_target : string;
  rq_required_objects : list string;
  rq_archived_objects : list string;
  rq_missing_objects : list string;
  rq_archive_requested_objects : list string;
  rq_force : bool;
  rq_check_conflicts : bool;
  rq_created_at : DateTime;
  rq_status : string;
}.

Definition rq_with_status (j : RestoreQueueItem) (status : string) : RestoreQueueItem := {|
  rq_id := rq_id j; rq_snapshot_id := rq_snapshot_id j; rq_root := rq_root j; rq_path := rq_path j;
  rq_target := rq_target j; rq_required_objects := rq_required_objects j;
  rq_archived_objects := rq_archived_objects j; rq_missing_objects := rq_missing_objects j;
  rq_archive_requested_objects := rq_archive_requested_objects j; rq_force := rq_force j;
  rq_check_conflicts := rq_check_conflicts j; rq_created_at := rq_created_at j; rq_status := status |}.
Definition rq_with_archived (j : RestoreQueueItem) (archived requested : list string) : RestoreQueueItem := {|
  rq_id := rq_id j; rq_snapshot_id := rq_snapshot_id j; rq_root := rq_root j; rq_path := rq_path j;
  rq_target := rq_target j; rq_required_objects := rq_required_objects j;
  rq_archived_objects := archived; rq_missing_objects := rq_missing_objects j;
  rq_archive_requested_objects := requested; rq_force := rq_force j;
  rq_check_conflicts := rq_check_conflicts j; rq_created_at := rq_created_at j; rq_status := rq_status j |}.

Definition has_valid_status (j : RestoreQueueItem) : bool :=
  existsb (String.eqb (rq_status j)) ["prepared"; "ready"; "archive-requested"; "done"].
Definition is_resumable (j : RestoreQueueItem) : bool :=
  existsb (String.eqb (rq_status j)) ["prepared"; "ready"; "archive-requested"].

Definition mark_archive_requested (j : RestoreQueueItem) (requested : list string) : RestoreQueueItem :=
  match requested with
  | [] => j
  | _ => rq_with_status (rq_with_archived j (rq_archived_objects j) requested) "archive-requested"
  end.

Definition mark_ready_if_archives_hydrated (j : RestoreQueueItem) : RestoreQueueItem :=
  let j' := rq_with_archived j (rq_archived_objects j)
    (List.filter (λ key, existsb (String.eqb key) (rq_archived_objects j)) (rq_archive_requested_objects j)) in
  match rq_archived_objects j with [] => rq_with_status j' "ready" | _ => j' end.

Definition mark_done (j : RestoreQueueItem) : RestoreQueueItem := rq_with_status j "done".

Definition has_duplicate_required_objects (j : RestoreQueueItem) : bool :=
  negb (Nat.eqb (length (bset_of_list (rq_required_objects j))) (length (rq_required_objects j))).

Definition pending_objects_outside_required (j : RestoreQueueItem) : list string :=
  List.filter (λ key, negb (bset_contains (bset_of_list (rq_required_objects j)) key))
    (rq_archived_objects j ++ rq_missing_objects j ++ rq_archive_requested_objects j).

Definition done_with_pending_objects (j : RestoreQueueItem) : bool :=
  (rq_status j =? "done")%string
  && (bool_decide (rq_archived_objects j ≠ []) || bool_decide (rq_missing_objects j ≠ [])).

Definition count_str (l : list string) : string := string_of_N (N.of_nat (length l)).

Definition non_resumable_message (j : RestoreQueueItem) : option string :=
  if is_resumable j then None
  else Some ("restore job " +:+ rq_id j +:+ " is not resumable: status " +:+ rq_status j).

Definition missing_objects_message (j : RestoreQueueItem) : option string :=
  match rq_missing_objects j with
  | [] => None
  | l => Some ("restore job " +:+ rq_id j +:+ " has missing objects: " +:+ count_str l)
  end.

Definition blocking_resume_message (j : RestoreQueueItem) : option string :=
  match missing_objects_message j with
  | Some message => Some message
  | None =>
    match rq_archived_objects j with
    | [] => None
    | l => Some ("restore job " +:+ rq_id j +:+ " still has archived objects pending: " +:+ count_str l)
    end
  end.

(** ** Counts of a plan *)

Inductive RestorePathState := PathMissing | PathMatches | PathDiffers.

Record RestoreChangeStats := {
  rcs_restore_files : Z; rcs_modify_files : Z; rcs_keep_files : Z; rcs_delete_files : Z }.

Fixpoint count_loop {T E} (classify : T → result RestorePathState E) (stats : RestoreChangeStats)
    (files : list T) : result RestoreChangeStats E :=
  match files with
  | [] => Ok stats
  | file :: rest =>
    let? state := classify file in
    let 'Build_RestoreChangeStats r m k d := stats in
    count_loop classify
      match state with
      | PathMissing => Build_RestoreChangeStats (wadd r 1) m k d
      | PathMatches => Build_RestoreChangeStats r m (wadd k 1) d
      | PathDiffers => Build_RestoreChangeStats r (wadd m 1) k d
      end rest
  end.

Definition count_restore_changes {T E} (files : list T) (delete_count : Z)
    (classify : T → result RestorePathState E) : result RestoreChangeStats E :=
  count_loop classify (Build_RestoreChangeStats 0 0 0 delete_count) files.

(** ** Path filters *)

Definition validate_relative_filter_path (path label : string) : result unit string :=
  if is_empty path || path_is_absolute path
  then Err (label +:+ " must be a relative path inside the selected root")
  else if existsb (λ c, match c with Normal _ => false | _ => true end) (path_components path)
  then Err (label +:+ " must not contain '.', '..', prefixes, or root separators")
  else if bool_decide (path_components path = []) then Err (label +:+ " must not be empty")
  else Ok tt.

(** ** Times *)

Inductive LocalResult := Single (t : DateTime) | Ambiguous (earliest latest : DateTime) | LocalNone.

(** What the code uses of [chrono] for times of the user: the two local formats,
    the local time zone, and [now - Duration::seconds(n)], which panics when the
    duration or the result cannot be represented. *)
Class ChronoLocal := {
  parse_naive_datetime : string → option Z;
  parse_naive_date : string → option Z;
  midnight : Z → option Z;
  from_local_datetime : Z → LocalResult;
  sub_seconds : DateTime → Z → option DateTime;
}.
Definition nanos : Z := 1000000000.
(** Durations of up to a thousand years before a time after the year zero. *)
Class ChronoLocalLaws `{!ChronoLocal} : Prop := {
  sub_seconds_ok now n :
    0 <= now <= 253402300799 * nanos → 0 <= n <= 1000 * 366 * 86400 → sub_seconds now n = Some (now - n * nanos);
}.

Section Times.
Context `{!Chrono, !ChronoLocal}.

Definition parse_duration_ago (input : string) (now : DateTime) : outcome DateTime string :=
  let n := (String.length input - 1)%nat in
  let number := String.substring 0 n input in
  let unit_ := String.substring n (String.length input - n) input in
  match unit_ with
  | String c _ => if is_continuation c then Panics else
    match parse_i64 number with
    | None => Fails "invalid digit found in string"
    | Some value =>
      let! seconds :=
        (if (unit_ =? "d")%string then Done (wrap_i64 (wrap_i64 (wrap_i64 (value * 24) * 60) * 60))
         else if (unit_ =? "h")%string then Done (wrap_i64 (wrap_i64 (value * 60) * 60))
         else if (unit_ =? "m")%string then Done (wrap_i64 (value * 60))
         else if (unit_ =? "s")%string then Done value
         else Fails ("duration must use s, m, h, or d suffix: " +:+ input)) in
      match sub_seconds now seconds with Some t => Done t | None => Panics end
    end
  | EmptyString => Fails "cannot parse integer from empty string"
  end.

Definition ago_unit (word : string) (number : Z) : option Z :=
  let one_of l := existsb (String.eqb word) l in
  if one_of ["second"; "seconds"; "sec"; "secs"] then Some number
  else if one_of ["minute"; "minutes"; "min"; "mins"] then Some (wrap_i64 (number * 60))
  else if one_of ["hour"; "hours"] then Some (wrap_i64 (wrap_i64 (number * 60) * 60))
  else if one_of ["day"; "days"] then Some (wrap_i64 (wrap_i64 (wrap_i64 (number * 24) * 60) * 60))
  else None.

Definition parse_relative_ago (input : string) (now : DateTime) : outcome (option DateTime) string :=
  match strip_suffix " ago" (to_ascii_lowercase (trim input)) with
  | None => Done None
  | Some value =>
    let compact := trim value in
    match parse_duration_ago compact now with
    | Panics => Panics
    | Done t => Done (Some t)
    | Fails _ =>
      match split_whitespace compact with
      | [n; word] =>
        match parse_i64 n with
        | None => Fails "invalid digit found in string"
        | Some number =>
          match ago_unit word number with
          | None => Done None
          | Some seconds =>
            match sub_seconds now seconds with Some t => Done (Some t) | None => Panics end
          end
        end
      | _ => Done None
      end
    end
  end.

Definition local_datetime (naive : Z) (input : string) : outcome DateTime string :=
  match from_local_datetime naive with
  | Single value => Done value
  | Ambiguous earliest _ => Done earliest
  | LocalNone => Fails ("invalid local time: " +:+ input)
  end.

Definition parse_restore_time (input : string) (now : DateTime) : outcome DateTime string :=
  match parse_from_rfc3339 input with
  | Ok dt => Done dt
  | Err _ =>
    match parse_naive_datetime input with
    | Some dt => local_datetime dt input
    | None =>
      match parse_naive_date input with
      | Some date =>
        match midnight date with
        | Some dt => local_datetime dt input
        | None => Fails ("invalid date: " +:+ input)
        end
      | None =>
        if (input =? "now")%string then Done now else
        let! ago := parse_relative_ago input now in
        match ago with
        | Some dt => Done dt
        | None => Fails ("time must be RFC3339, YYYY-MM-DD HH:MM:SS, YYYY-MM-DD, relative ago, or now, got: " +:+ input)
        end
      end
    end
  end.

Definition parse_restore_time_rfc3339 (input : string) (now : DateTime) : outcome string string :=
  let! t := parse_restore_time input now in Done (to_rfc3339 t).

Definition parse_db_time (input : string) : result DateTime string := parse_from_rfc3339 input.
End Times.

(** ** Properties of the classification *)

(** The two lists and the errors of the loop. *)
Lemma classify_loop_spec {E} (local_exists remote_available : string → result bool E) keys archived missing :
  match classify_loop local_exists remote_available archived missing keys with
  | Ok (a, m) =>
    (∀ key, key ∈ keys → local_exists key = Ok true ∨
       local_exists key = Ok false ∧ is_ok (remote_available key) = true) ∧
    a = archived ++ List.filter (λ key,
      match local_exists key, remote_available key with Ok false, Ok true => true | _, _ => false end) keys ∧
    m = missing ++ List.filter (λ key,
      match local_exists key, remote_available key with Ok false, Ok false => true | _, _ => false end) keys
  | Err e => ∃ key, key ∈ keys ∧
      (local_exists key = Err e ∨ local_exists key = Ok false ∧ remote_available key = Err e)
  end.
Proof.
  revert archived missing; induction keys as [|key keys IH]; intros archived missing; simpl.
  { rewrite !app_nil_r. set_solver. }
  destruct (local_exists key) as [[]|e] eqn:Hl; simpl; [| |exists key; set_solver].
  - specialize (IH archived missing). destruct (classify_loop _ _ _ _ _) as [[a m]|e].
    + destruct IH as (IH & -> & ->). split; [|done]. intros k [->|Hk]%elem_of_cons; auto.
    + destruct IH as (k & Hk & IH). exists k. set_solver.
  - destruct (remote_available key) as [[]|e] eqn:Hr; simpl; [| |exists key; set_solver].
    + specialize (IH (archived ++ [key]) missing). destruct (classify_loop _ _ _ _ _) as [[a m]|e].
      * destruct IH as (IH & -> & ->). rewrite <-app_assoc. split; [|done].
        intros k [->|Hk]%elem_of_cons; [right; by rewrite Hr|auto].
      * destruct IH as (k & Hk & IH). exists k. set_solver.
    + specialize (IH archived (missing ++ [key])). destruct (classify_loop _ _ _ _ _) as [[a m]|e].
      * destruct IH as (IH & -> & ->). rewrite <-app_assoc. split; [|done].
        intros k [->|Hk]%elem_of_cons; [right; by rewrite Hr|auto].
      * destruct IH as (k & Hk & IH). exists k. set_solver.
Qed.

(** Every required object that is not local is listed as archived when the remote has
    it and as missing otherwise, in the order of the requirements; when both lists are
    empty everything is local. *)
Lemma classify_restore_object_availability_Ok {E} required
    (local_exists remote_available : string → result bool E) a :
  classify_restore_object_availability required local_exists remote_available = Ok a →
  roa_required_objects a = required ∧
  (∀ key, key ∈ required → local_exists key = Ok true ∨
     key ∈ roa_archived_objects a ∧ remote_available key = Ok true ∨
     key ∈ roa_missing_objects a ∧ remote_available key = Ok false) ∧
  (∀ key, key ∈ roa_archived_objects a ++ roa_missing_objects a → key ∈ required ∧ local_exists key = Ok false).
Proof.
  unfold classify_restore_object_availability. pose proof (classify_loop_spec local_exists remote_available required [] []) as Hs.
  destruct (classify_loop _ _ _ _ _) as [[ar mi]|e]; [|done]. simpl. intros [= <-]. simpl.
  destruct Hs as (Hall & -> & ->). split; [done|]. simpl.
  setoid_rewrite elem_of_app. setoid_rewrite list_elem_of_In. setoid_rewrite filter_In.
  split.
  - intros key Hk. apply list_elem_of_In in Hk as Hk'. destruct (Hall key Hk') as [?|[Hl Hr]]; [by left|].
    right. rewrite Hl. destruct (remote_available key) as [[]|]; [left|right|done]; done.
  - intros key [[Hk Hm]|[Hk Hm]]; (split; [done|]); destruct (local_exists key) as [[]|]; done.
Qed.

(** ** Counts *)

(** The counts of a plan add up: every file is counted once. *)
Lemma count_loop_total {T E} (classify : T → result RestorePathState E) files stats out :
  count_loop classify stats files = Ok out →
  0 <= rcs_restore_files stats → 0 <= rcs_modify_files stats → 0 <= rcs_keep_files stats →
  rcs_restore_files stats + rcs_modify_files stats + rcs_keep_files stats + Z.of_nat (length files) <= usize_max →
  rcs_restore_files out + rcs_modify_files out + rcs_keep_files out =
    rcs_restore_files stats + rcs_modify_files stats + rcs_keep_files stats + Z.of_nat (length files) ∧
  rcs_delete_files out = rcs_delete_files stats.
Proof.
  revert stats; induction files as [|f files IH]; intros [r m k d] Hrun Hr Hm Hk Hb; simpl in *.
  { injection Hrun as <-. simpl. split; [lia|done]. }
  destruct (classify f) as [state|e]; [|done]. simpl in Hrun.
  assert (∀ x, 0 <= x < usize_max → wadd x 1 = x + 1) as Hadd.
  { intros x Hx. unfold wadd. rewrite wrap64_small; [done|]. unfold is_u64, usize_max, u64_max in *. lia. }
  destruct state; apply IH in Hrun; simpl in *; rewrite ?Hadd in * by lia; (lia || (split; [lia|tauto])).
Qed.

(** ** Path filters *)

(** A path filter that is accepted names something inside the root: the path is
    relative and every component is a plain name. *)
Theorem validate_relative_filter_path_safe path label :
  validate_relative_filter_path path label = Ok tt →
  path_is_absolute path = false ∧
  ∃ names, names ≠ [] ∧ path_components path = map Normal names ∧
    Forall (λ n, n ≠ "" ∧ n ≠ "." ∧ n ≠ ".." ∧ contains_char n slash = false) names.
Proof.
  unfold validate_relative_filter_path. destruct (is_empty path); [done|]. simpl.
  destruct (path_is_absolute path); [done|].
  destruct (existsb _ (path_components path)) eqn:Hex; [done|].
  destruct (bool_decide_reflect (path_components path = [])) as [|Hne]; [done|]. intros _. split; [done|].
  apply all_normal in Hex as (names & Heq). exists names. split; [by intros ->; rewrite Heq in Hne|]. split; [done|].
  apply Forall_forall. intros n Hn. apply (normal_component path). rewrite Heq. by apply list_elem_of_fmap_2.
Qed.

Lemma validate_relative_filter_path_safe_witness :
  validate_relative_filter_path "a/./b" "x" = Ok tt ∧ path_is_absolute "a/./b" = false.
Proof.
  split; [reflexivity|]. exact (proj1 (validate_relative_filter_path_safe "a/./b" "x" eq_refl)).
Defined.

(** ** Times *)

Lemma substring_app_l s t : String.substring 0 (String.length s) (s +:+ t) = s.
Proof. induction s as [|c s IH]; simpl; [by destruct t|by rewrite IH]. Qed.
Lemma substring_app_r s t : String.substring (String.length s) (String.length t) (s +:+ t) = t.
Proof.
  induction s as [|c s IH]; simpl; [|done]. rewrite str_app_nil_l.
  rewrite <-(str_app_nil_r t) at 2. apply substring_app_l.
Qed.

(** The argument cut before its last byte. *)
Lemma parse_duration_ago_last `{!ChronoLocal} number c now :
  parse_duration_ago (number +:+ String c "") now =
    if is_continuation c then Panics else
    match parse_i64 number with
    | None => Fails "invalid digit found in string"
    | Some value =>
      let! seconds :=
        (if (String c "" =? "d")%string then Done (wrap_i64 (wrap_i64 (wrap_i64 (value * 24) * 60) * 60))
         else if (String c "" =? "h")%string then Done (wrap_i64 (wrap_i64 (value * 60) * 60))
         else if (String c "" =? "m")%string then Done (wrap_i64 (value * 60))
         else if (String c "" =? "s")%string then Done value
         else Fails ("duration must use s, m, h, or d suffix: " +:+ number +:+ String c "")) in
      match sub_seconds now seconds with Some t => Done t | None => Panics end
    end.
Proof.
  unfold parse_duration_ago. rewrite str_length_app. simpl String.length.
  replace (String.length number + 1 - 1)%nat with (String.length number) by lia.
  replace (String.length number + 1 - String.length number)%nat with (String.length (String c "")) by (simpl; lia).
  rewrite substring_app_r, substring_app_l. done.
Qed.

Lemma parse_i64_of_N n : (Z.of_N n <= i64_max) → parse_i64 (string_of_N n) = Some (Z.of_N n).
Proof.
  intros Hn. unfold parse_i64.
  assert (strip_prefix "-" (string_of_N n) = None) as ->.
  { by apply digits_no_sign. }
  rewrite parse_unsigned_of_N; [done|]. unfold i64_max in Hn. lia.
Qed.

Definition unit_seconds (c : ascii) : option Z :=
  if Ascii.eqb c "d" then Some 86400 else if Ascii.eqb c "h" then Some 3600
  else if Ascii.eqb c "m" then Some 60 else if Ascii.eqb c "s" then Some 1 else None.

(** A duration of a number and one of the units [s], [m], [h] and [d] that is at
    most a thousand years is that many seconds before now, exactly: the machine
    arithmetic does not wrap. *)
Theorem parse_duration_ago_exact `{!ChronoLocal, !ChronoLocalLaws} n c k now :
  unit_seconds c = Some k → 0 <= now <= 253402300799 * nanos →
  Z.of_N n * k <= 1000 * 366 * 86400 →
  parse_duration_ago (string_of_N n +:+ String c "") now = Done (now - Z.of_N n * k * nanos).
Proof.
  intros Hk Hnow Hn. rewrite parse_duration_ago_last.
  assert (1 <= k <= 86400) as Hk1 by (unfold unit_seconds in Hk; repeat (destruct (Ascii.eqb _ _) in Hk; simplify_eq/=; try lia)).
  assert (0 <= Z.of_N n <= 1000 * 366 * 86400) as Hn1 by nia.
  rewrite parse_i64_of_N by (unfold i64_max; lia).
  assert (∀ x, 0 <= x <= 86400 * (1000 * 366 * 86400) → wrap_i64 x = x) as Hw.
  { intros x Hx. apply wrap_i64_small. unfold i64_min, i64_max. lia. }
  unfold unit_seconds in Hk.
  destruct (Ascii.eqb_spec c "d") as [->|_]; [|destruct (Ascii.eqb_spec c "h") as [->|_];
    [|destruct (Ascii.eqb_spec c "m") as [->|_]; [|destruct (Ascii.eqb_spec c "s") as [->|_]; [|done]]]];
    injection Hk as <-; cbn -[wrap_i64 sub_seconds Z.mul];
    rewrite ?(Hw (Z.of_N n * 24)), ?(Hw (Z.of_N n * 24 * 60)), ?(Hw (Z.of_N n * 24 * 60 * 60)),
      ?(Hw (Z.of_N n * 60)), ?(Hw (Z.of_N n * 60 * 60)) by lia;
    cbn -[sub_seconds Z.mul];
    rewrite sub_seconds_ok by lia; f_equal; unfold nanos; lia.
Qed.

(** A time argument that ends in a character outside ASCII, such as a unit written
    in another script, aborts the program: the text is cut one byte before its end,
    inside the character. *)
Theorem parse_duration_ago_non_ascii_panics `{!ChronoLocal} s c now :
  is_continuation c = true → parse_duration_ago (s +:+ String c "") now = Panics.
Proof. intros Hc. by rewrite parse_duration_ago_last, Hc. Qed.

(** The number of seconds is computed modulo 2^64: a number of days far out of range
    is taken for no time at all instead of being rejected. *)
Lemma parse_duration_ago_wraps `{!ChronoLocal} now t :
  sub_seconds now 0 = Some t → parse_duration_ago "144115188075855872d" now = Done t.
Proof.
  intros Hs. change "144115188075855872d" with ("144115188075855872" +:+ String "d" "").
  rewrite parse_duration_ago_last.
  assert (parse_i64 "144115188075855872" = Some 144115188075855872) as -> by mj_compute.
  assert (wrap_i64 (wrap_i64 (wrap_i64 (144115188075855872 * 24) * 60) * 60) = 0) as -> by mj_compute.
  simpl. by rewrite Hs.
Qed.

Module RestoreExample.
#[export] Instance ex_local : ChronoLocal := {|
  parse_naive_datetime _ := None; parse_naive_date _ := None; midnight := Some;
  from_local_datetime := Single; sub_seconds now n := Some (now - n * nanos) |}.
#[export] Instance ex_local_laws : ChronoLocalLaws.
Proof. by split. Qed.

Lemma parse_duration_ago_exact_witness :
  parse_duration_ago "90m" (6000 * nanos) = Done (600 * nanos).
Proof. apply (parse_duration_ago_exact 90 "m" 60); vm_compute; first [reflexivity | discriminate | split; discriminate]. Defined.

(** ["5日"], the unit being the bytes E6 97 A5. *)
Lemma parse_duration_ago_non_ascii_panics_witness :
  parse_duration_ago (String "5" (String "230" (String "151" (String "165" "")))) 0 = Panics.
Proof. apply (parse_duration_ago_non_ascii_panics (String "5" (String "230" (String "151" ""))) "165"). reflexivity. Defined.
End RestoreExample.
