(* ===== verification/LargeStore.v ===== *)
(** * Storing and restoring large files

    The large-object pipeline of [src/main.rs]: cutting a file into chunks, storing
    each chunk once under its content hash, recording the manifest, and reading the
    file back.  The encryption of objects is reached through the interface
    [ObjectCodec], which [Crypto] implements. *)

From S2P Require Import Prelude RStr MachInt Core Util Large Config Crypto.

Local Open Scope Z_scope.

(** ** Interfaces *)

(** What the object layer offers: encoding, decoding and naming of objects. *)
Class ObjectCodec := {
  codec_state : Type;
  oc_encode : list Z → stm codec_state (list Z);
  oc_decode : list Z → stm codec_state (list Z);
  oc_storage_id : string → stm codec_state string;
}.

(** A name that can be a component of an object key and be cut after two bytes. *)
Definition good_name (s : string) : Prop :=
  str_forallb is_ascii_alphanumeric s = true ∧ (3 <= String.length s)%nat.

(** What it promises while its keys stay the same: objects that are safe to encode
    are encoded and read back, names are a fixed injective function of the hash. *)
Class ObjectCodecLaws `{!ObjectCodec} := {
  oc_inv : codec_state → Prop;
  oc_safe : list Z → Prop;
  oc_sid : string → string;
  oc_storage_id_spec s oid : oc_inv s → oc_storage_id oid s = (Done (oc_sid oid), s);
  oc_sid_good oid : good_name oid → good_name (oc_sid oid);
  oc_sid_inj oid oid' : oc_sid oid = oc_sid oid' → oid = oid';
  oc_encode_spec s b : oc_inv s → oc_safe b →
    ∃ c s', oc_encode b s = (Done c, s') ∧ oc_inv s' ∧
      ∀ s1, oc_inv s1 → ∃ s2, oc_decode c s1 = (Done b, s2) ∧ oc_inv s2;
}.

(** BLAKE3, and [serde_json] at [LargeManifest]. *)
Class Blake3 := { blake3_hex : list Z → string }.
Class Blake3Laws `{!Blake3} : Prop := {
  blake3_good b : good_name (blake3_hex b);
  blake3_inj b b' : blake3_hex b = blake3_hex b' → b = b';
}.
Class ManifestJson := {
  manifest_to_vec : LargeManifest → list Z;
  manifest_from_slice : list Z → option LargeManifest;
}.
Class ManifestJsonLaws `{!ManifestJson} : Prop := {
  manifest_roundtrip m : manifest_from_slice (manifest_to_vec m) = Some m;
}.

Section LargeStore.
Context `{!ObjectCodec, !Blake3, !ManifestJson, !Zstd}.

(** ** State *)

(** The state of the codec, the object files by key relative to the home
    directory, and the tables [chunks], [large_objects] and [large_object_chunks]. *)
Record StoreWorld := {
  sw_codec : codec_state;
  sw_objects : gmap string (list Z);
  sw_chunks : gmap string (Z * string);
  sw_large_objects : gmap string (Z * Z * string);
  sw_links : gset (string * string);
}.

Definition sw_with_codec (w : StoreWorld) c : StoreWorld :=
  {| sw_codec := c; sw_objects := sw_objects w; sw_chunks := sw_chunks w;
     sw_large_objects := sw_large_objects w; sw_links := sw_links w |}.
Definition sw_with_objects (w : StoreWorld) o : StoreWorld :=
  {| sw_codec := sw_codec w; sw_objects := o; sw_chunks := sw_chunks w;
     sw_large_objects := sw_large_objects w; sw_links := sw_links w |}.
Definition sw_with_chunks (w : StoreWorld) c : StoreWorld :=
  {| sw_codec := sw_codec w; sw_objects := sw_objects w; sw_chunks := c;
     sw_large_objects := sw_large_objects w; sw_links := sw_links w |}.
Definition sw_with_large_objects (w : StoreWorld) l : StoreWorld :=
  {| sw_codec := sw_codec w; sw_objects := sw_objects w; sw_chunks := sw_chunks w;
     sw_large_objects := l; sw_links := sw_links w |}.
Definition sw_with_links (w : StoreWorld) l : StoreWorld :=
  {| sw_codec := sw_codec w; sw_objects := sw_objects w; sw_chunks := sw_chunks w;
     sw_large_objects := sw_large_objects w; sw_links := l |}.

(** What the pipeline reads of its surroundings: the remote to hydrate missing
    objects from ([None] without a remote, else its download), whether
    [MAJUTSU_REBUILD_MISSING_LARGE_CHUNKS] is set, and for keys under
    [objects/blobs/] which are snapshot manifests and how those are hydrated. *)
Record StoreEnv := {
  se_download : option (string → result (list Z) string);
  se_rebuild_missing_large_chunks : bool;
  se_is_snapshot_manifest_object_key : string → bool;
  se_hydrate_manifest : list Z → result (list Z) string;
}.

Context (env : StoreEnv).

Abbreviation store_m := (stm StoreWorld).

Definition codec {A} (m : stm codec_state A) : store_m A := λ w,
  let '(r, c) := m (sw_codec w) in (r, sw_with_codec w c).

(** ** Object files *)

(** [storage_id.split_at(2)]: the text is cut after two bytes. *)
Definition split_at2 (s : string) : outcome (string * string) string :=
  match s with
  | String a (String b rest) => Done (String a (String b ""), rest)
  | _ => Panics
  end.

Definition store_encoded_object_bytes_with_storage_id (base storage_id : string) (bytes : list Z)
    : store_m string :=
  let* parts := stm_lift (split_at2 storage_id) in
  let '(a, b) := parts in
  let key := base +:+ "/" +:+ a +:+ "/" +:+ b in
  let* _ := stm_modify (λ w,
    match sw_objects w !! key with
    | Some _ => w
    | None => sw_with_objects w (<[key := bytes]> (sw_objects w))
    end) in
  stm_ret key.

Definition store_encoded_object_bytes (base oid : string) (bytes : list Z) : store_m string :=
  let* storage_id := codec (oc_storage_id oid) in
  store_encoded_object_bytes_with_storage_id base storage_id bytes.

Definition store_bytes (base oid : string) (bytes : list Z) : store_m string :=
  let* encoded := codec (oc_encode bytes) in
  store_encoded_object_bytes base oid encoded.

Definition hydrate_local_object_from_remote (key : string) : store_m bool :=
  let* _ := stm_ok (validate_local_object_key key) in
  let* present := stm_get (λ w, sw_objects w !! key) in
  match present with
  | Some _ => stm_ret true
  | None =>
    match se_download env with
    | None => stm_ret false
    | Some download =>
      let* bytes := stm_ok (download key) in
      let* _ := stm_modify (λ w, sw_with_objects w (<[key := bytes]> (sw_objects w))) in
      stm_ret true
    end
  end.

Definition missing_failure (key : string) : string := "[mj-object-fetch:missing] key=" +:+ key.

Definition read_object_raw (key : string) : store_m (list Z) :=
  let* _ := stm_ok (validate_local_object_key key) in
  let* present := stm_get (λ w, sw_objects w !! key) in
  let* found := match present with
                | Some _ => stm_ret true
                | None => hydrate_local_object_from_remote key
                end in
  if negb found then stm_fail (missing_failure key) else
  let* file := stm_get (λ w, sw_objects w !! key) in
  let* bytes := stm_some "read" file in
  codec (oc_decode bytes).

Definition read_object (key : string) : store_m (list Z) :=
  let* decoded := read_object_raw key in
  if starts_with key "objects/blobs/" && se_is_snapshot_manifest_object_key env key
  then stm_ok (se_hydrate_manifest env decoded)
  else stm_ret decoded.

(** ** Chunks *)

Definition large_chunk_base (chunking : string) : string :=
  if (chunking =? "fastcdc")%string then "objects/large/chunks/fastcdc"
  else "objects/large/chunks/fixed".
Definition large_manifests_base : string := "objects/large/manifests".

Definition existing_chunk_object_key (oid : string) (reuse_remote_chunks : bool)
    : store_m (option string) :=
  let* row := stm_get (λ w, sw_chunks w !! oid) in
  match row with
  | None => stm_ret None
  | Some (_, object_key) =>
    let* file := stm_get (λ w, sw_objects w !! object_key) in
    if bool_decide (is_Some file) || reuse_remote_chunks && negb (se_rebuild_missing_large_chunks env)
    then stm_ret (Some object_key)
    else stm_ret None
  end.

Definition store_large_chunk_bytes (config : LargeConfig) (chunk_oid : string) (bytes : list Z)
    (reuse_remote_chunks : bool) : store_m string :=
  let* existing := existing_chunk_object_key chunk_oid reuse_remote_chunks in
  match existing with
  | Some object_key => stm_ret object_key
  | None => store_bytes (large_chunk_base (lg_default_chunking config)) chunk_oid bytes
  end.

Definition compress_large_chunk (config : LargeConfig) (rel : string) (bytes : list Z)
    : result StoredLargeChunk string :=
  let c := lg_compression config in
  compress_chunk_if_useful {|
    ci_bytes := bytes;
    ci_enabled := lcc_enabled c;
    ci_algorithm := lcc_algorithm c;
    ci_level := lcc_level c;
    ci_sample_bytes := lcc_sample_bytes c;
    ci_min_gain_ratio := lcc_min_gain_ratio c;
    ci_skip_extensions := lcc_skip_extensions c;
    ci_file_name := default "" (path_file_name rel) |}.

Definition insert_large_object_chunk_index (manifest : LargeManifest) : store_m unit :=
  stm_iter (λ chunk, stm_modify (λ w,
    sw_with_links w ({[(lm_oid manifest, lc_oid chunk)]} ∪ sw_links w))) (lm_chunks manifest).

Definition existing_large_object_manifest (oid : string) (config : LargeConfig)
    : store_m (option (string * Z)) :=
  let* row := stm_get (λ w, sw_large_objects w !! oid) in
  match row with
  | None => stm_ret None
  | Some (_, chunk_count, manifest_key) =>
    let* file := stm_get (λ w, sw_objects w !! manifest_key) in
    match file with
    | None => stm_ret None
    | Some _ =>
      let* bytes := read_object manifest_key in
      let* manifest := stm_some "invalid manifest" (manifest_from_slice bytes) in
      if (lm_chunking manifest =? lg_default_chunking config)%string
         && (lm_chunk_size manifest =? lg_chunk_size config)
      then let* _ := insert_large_object_chunk_index manifest in
           stm_ret (Some (manifest_key, chunk_count))
      else stm_ret None
    end
  end.

(** The part both loops share: compress one chunk, store it, describe it. *)
Definition store_piece (config : LargeConfig) (rel : string) (reuse : bool)
    (index : nat) (offset : Z) (chunk : list Z) : store_m LargeChunk :=
  let chunk_oid := blake3_hex chunk in
  let* stored := stm_ok (compress_large_chunk config rel chunk) in
  let* object_key := store_large_chunk_bytes config chunk_oid (slc_bytes stored) reuse in
  stm_ret {|
    lc_index := Z.of_nat index;
    lc_offset := offset;
    lc_len := Z.of_nat (length chunk);
    lc_stored_len := Some (Z.of_nat (length (slc_bytes stored)));
    lc_compression := slc_compression stored;
    lc_oid := chunk_oid;
    lc_object_key := object_key |}.

Definition insert_chunk_row (chunk : LargeChunk) : store_m unit :=
  stm_modify (λ w, sw_with_chunks w
    (<[lc_oid chunk := (lc_len chunk, lc_object_key chunk)]> (sw_chunks w))).

(** The loop over the ranges of a buffered file. *)
Fixpoint store_chunks (config : LargeConfig) (rel : string) (bytes : list Z) (reuse : bool)
    (index : nat) (ranges : list (Z * Z)) : store_m (list LargeChunk) :=
  match ranges with
  | [] => stm_ret []
  | range :: rest =>
    let* chunk := store_piece config rel reuse index range.1 (slice bytes range) in
    let* _ := insert_chunk_row chunk in
    let* chunks := store_chunks config rel bytes reuse (S index) rest in
    stm_ret (chunk :: chunks)
  end.

Definition large_manifest_of (rel : string) (config : LargeConfig) (binary : bool) (oid : string)
    (size : Z) (chunks : list LargeChunk) : LargeManifest := {|
  lm_version := 1;
  lm_oid := oid;
  lm_size := size;
  lm_media_type := media_type_for_path rel;
  lm_binary := binary;
  lm_chunking := lg_default_chunking config;
  lm_chunk_size := lg_chunk_size config;
  lm_chunks := chunks |}.

Definition insert_large_object_row (manifest : LargeManifest) (manifest_key : string) : store_m unit :=
  stm_modify (λ w, sw_with_large_objects w
    (<[lm_oid manifest := (lm_size manifest, Z.of_nat (length (lm_chunks manifest)), manifest_key)]>
       (sw_large_objects w))).

Definition store_large_bytes_buffered (rel : string) (config : LargeConfig) (binary : bool)
    (bytes : list Z) (reuse_remote_chunks : bool) : store_m (string * string * Z) :=
  let oid := blake3_hex bytes in
  let* existing := existing_large_object_manifest oid config in
  match existing with
  | Some (manifest_key, chunk_count) => stm_ret (oid, manifest_key, chunk_count)
  | None =>
    let* ranges := stm_some "chunk_ranges_for_bytes"
      (chunk_ranges_for_bytes (lg_default_chunking config) (lg_chunk_size config) bytes) in
    let* chunks := store_chunks config rel bytes reuse_remote_chunks 0 ranges in
    let manifest := large_manifest_of rel config binary oid (Z.of_nat (length bytes)) chunks in
    let manifest_json := manifest_to_vec manifest in
    let* manifest_key := store_bytes large_manifests_base (blake3_hex manifest_json) manifest_json in
    let* _ := insert_large_object_row manifest manifest_key in
    let* _ := insert_large_object_chunk_index manifest in
    stm_ret (oid, manifest_key, Z.of_nat (length chunks))
  end.

(** The read loop of a streamed file: [reads] are the non-empty results of
    [file.read], each at most the buffer long, until it returns 0. *)
Fixpoint stream_chunks (config : LargeConfig) (rel : string) (reuse : bool)
    (index : nat) (offset : Z) (reads : list (list Z)) : store_m (list LargeChunk) :=
  match reads with
  | [] => stm_ret []
  | chunk :: rest =>
    let* c := store_piece config rel reuse index offset chunk in
    let* chunks := stream_chunks config rel reuse (S index) (offset + Z.of_nat (length chunk)) rest in
    stm_ret (c :: chunks)
  end.

Definition store_large_file_fixed_streaming_from_file (rel : string) (config : LargeConfig)
    (binary : bool) (before after : FileMeta) (reads : list (list Z)) (reuse_remote_chunks : bool)
    : store_m (string * string * Z) :=
  let* chunks := stream_chunks config rel reuse_remote_chunks 0 0 reads in
  if negb (stable_metadata_matches before after)
  then stm_fail ("file changed while reading: " +:+ rel) else
  let oid := blake3_hex (concat reads) in
  let* existing := existing_large_object_manifest oid config in
  match existing with
  | Some (manifest_key, chunk_count) => stm_ret (oid, manifest_key, chunk_count)
  | None =>
    let manifest := large_manifest_of rel config binary oid (Z.of_nat (length (concat reads))) chunks in
    let manifest_json := manifest_to_vec manifest in
    let* manifest_key := store_bytes large_manifests_base (blake3_hex manifest_json) manifest_json in
    let* _ := stm_iter insert_chunk_row (lm_chunks manifest) in
    let* _ := insert_large_object_row manifest manifest_key in
    let* _ := insert_large_object_chunk_index manifest in
    stm_ret (oid, manifest_key, Z.of_nat (length (lm_chunks manifest)))
  end.

(** ** Reading back *)

Definition read_large_chunk_payload (object_key compression : string) : store_m (list Z) :=
  let* bytes := read_object object_key in
  stm_ok (decode_large_chunk_payload compression bytes).

Definition read_large_chunk (chunk : LargeChunk) : store_m (list Z) :=
  read_large_chunk_payload (lc_object_key chunk) (lc_compression chunk).

(** The bytes [write_large_chunks_atomic] writes on its sequential path. *)
Definition write_large_chunks (manifest : LargeManifest) : store_m (list Z) :=
  let* parts := stm_map read_large_chunk (lm_chunks manifest) in
  stm_ret (concat parts).

(** A restore reads the manifest and then its chunks. *)
Definition restore_large (manifest_key : string) : store_m (list Z) :=
  let* json := read_object manifest_key in
  let* manifest := stm_some "invalid manifest" (manifest_from_slice json) in
  write_large_chunks manifest.

(** ** Properties *)

Section Roundtrip.
Context `{!ObjectCodecLaws, !Blake3Laws, !ManifestJsonLaws, !ZstdLaws}.

(** The key an object with a content hash gets. *)
Definition object_key_of (base oid : string) : string :=
  match split_at2 (oc_sid oid) with
  | Done (a, b) => base +:+ "/" +:+ a +:+ "/" +:+ b
  | _ => ""
  end.

(** The directories of large objects. *)
Definition large_bases : list string :=
  ["objects/large/chunks/fixed"; "objects/large/chunks/fastcdc"; "objects/large/manifests"].

Lemma large_bases_cases base : base ∈ large_bases →
  base = "objects/large/chunks/fixed" ∨ base = "objects/large/chunks/fastcdc" ∨ base = "objects/large/manifests".
Proof. unfold large_bases. set_solver. Qed.

(** [enc] decodes to [b] in every state of the codec. *)
Definition decodes_to (enc b : list Z) : Prop :=
  ∀ s1, oc_inv s1 → ∃ s2, oc_decode enc s1 = (Done b, s2) ∧ oc_inv s2.

Lemma good_name_split oid :
  good_name oid → ∃ x y r, oid = String x (String y r) ∧ r ≠ "" ∧
    str_forallb is_ascii_alphanumeric (String x (String y "")) = true ∧
    str_forallb is_ascii_alphanumeric r = true.
Proof.
  intros [Ha Hl]. destruct oid as [|x [|y r]]; simpl in *; [lia..|].
  exists x, y, r. apply andb_true_iff in Ha as [Hx Ha]. apply andb_true_iff in Ha as [Hy Hr].
  split_and!; [done|intros ->; simpl in *; lia|by rewrite Hx, Hy|done].
Qed.

Lemma alnum_no_char c s :
  is_ascii_alphanumeric c = false → str_forallb is_ascii_alphanumeric s = true → contains_char s c = false.
Proof.
  intros Hc Hs. apply contains_char_forallb. revert Hs. apply str_forallb_impl. intros d Hd.
  apply negb_true_iff, Ascii.eqb_neq. intros ->. congruence.
Qed.

Lemma alnum_plain s : s ≠ "" → str_forallb is_ascii_alphanumeric s = true → plain_part s.
Proof. intros Hne Hs. apply plain_part_iff. split_and!; [done|by intros ->..]. Qed.

Lemma object_key_of_form base oid :
  good_name oid → ∃ a b, object_key_of base oid = base +:+ "/" +:+ a +:+ "/" +:+ b ∧
    oc_sid oid = a +:+ b ∧ String.length a = 2%nat ∧ a ≠ "" ∧ b ≠ "" ∧
    str_forallb is_ascii_alphanumeric a = true ∧ str_forallb is_ascii_alphanumeric b = true.
Proof.
  intros Hg%oc_sid_good. destruct (good_name_split _ Hg) as (x & y & r & Heq & Hr & Ha & Hb).
  exists (String x (String y "")), r. unfold object_key_of. by rewrite Heq.
Qed.

(** A directory of objects: relative, below [objects], of plain components. *)
Definition object_dir (base : string) : Prop :=
  ∃ dirs, base = "objects/" +:+ join "/" dirs ∧ Forall plain_part dirs ∧
    Forall (λ d, contains_char d slash = false ∧ contains_char d "\"%char = false) dirs ∧ dirs ≠ [].

Lemma large_bases_dir base : base ∈ large_bases → object_dir base.
Proof.
  intros Hbase. destruct (large_bases_cases _ Hbase) as [->|[->| ->]].
  - exists ["large"; "chunks"; "fixed"]. split_and!; [done|repeat constructor..|done].
  - exists ["large"; "chunks"; "fastcdc"]. split_and!; [done|repeat constructor..|done].
  - exists ["large"; "manifests"]. split_and!; [done|repeat constructor..|done].
Qed.

Lemma split_joined_dirs dirs r :
  Forall (λ d, contains_char d slash = false ∧ contains_char d "\"%char = false) dirs → dirs ≠ [] →
  contains_char r "\"%char = false →
  split slash (join "/" dirs +:+ "/" +:+ r) = dirs ++ split slash r ∧
  contains_char (join "/" dirs +:+ "/" +:+ r) "\"%char = false.
Proof.
  intros Hchars Hne Hr. induction Hchars as [|d ds [Hd1 Hd2] _ IH]; [done|].
  destruct ds as [|d' ds].
  - simpl join. change ("/" +:+ r) with (String slash r). rewrite split_app by done.
    split; [done|]. rewrite contains_char_app, Hd2. done.
  - change (join "/" (d :: d' :: ds)) with (d +:+ "/" +:+ join "/" (d' :: ds)).
    rewrite <-!str_app_assoc. destruct IH as [IH1 IH2]; [done|].
    change ("/" +:+ (join "/" (d' :: ds) +:+ ("/" +:+ r))) with (String slash (join "/" (d' :: ds) +:+ ("/" +:+ r))).
    rewrite split_app, IH1 by done. split; [done|]. rewrite contains_char_app, Hd2. done.
Qed.

Lemma object_dir_key_valid base oid :
  object_dir base → good_name oid → validate_local_object_key (object_key_of base oid) = Ok tt.
Proof.
  intros Hdir Hg. destruct (object_key_of_form base oid Hg) as (a & b & -> & _ & _ & Hna & Hnb & Ha & Hb).
  assert (Hrest : Forall plain_part (split slash (a +:+ "/" +:+ b)) ∧ contains_char (a +:+ "/" +:+ b) "\"%char = false).
  { split; [|rewrite !contains_char_app, (alnum_no_char _ a), (alnum_no_char _ b) by done; done].
    change ("/" +:+ b) with (String slash b). rewrite split_app by (by apply alnum_no_char).
    rewrite split_no_sep by (by apply alnum_no_char). repeat constructor; by apply alnum_plain. }
  destruct Hrest as [Hrest Hbs], Hdir as (dirs & -> & Hplain & Hchars & Hne).
  rewrite <-str_app_assoc. destruct (split_joined_dirs dirs (a +:+ "/" +:+ b) Hchars Hne Hbs) as [Hj1 Hj2].
  apply validate_local_object_key_Ok; [done|]. rewrite Hj1. by apply Forall_app.
Qed.

Lemma object_key_valid base oid :
  base ∈ large_bases → good_name oid → validate_local_object_key (object_key_of base oid) = Ok tt.
Proof. intros Hb. by apply object_dir_key_valid, large_bases_dir. Qed.

Lemma object_key_oid_inj base oid oid' :
  good_name oid → good_name oid' → object_key_of base oid = object_key_of base oid' → oid = oid'.
Proof.
  intros Hg Hg'.
  destruct (object_key_of_form base oid Hg) as (a & b & -> & Hs & Hl & _ & _ & _ & _).
  destruct (object_key_of_form base oid' Hg') as (a' & b' & -> & Hs' & Hl' & _ & _ & _ & _).
  intros Heq. apply oc_sid_inj. rewrite Hs, Hs'. do 2 apply str_app_inj_l in Heq.
  destruct a as [|x [|y []]], a' as [|x' [|y' []]]; try discriminate.
  rewrite !str_app_cons, !str_app_nil_l in Heq. by injection Heq as -> -> ->.
Qed.

Lemma object_key_inj base base' oid oid' :
  base ∈ large_bases → base' ∈ large_bases → good_name oid → good_name oid' →
  object_key_of base oid = object_key_of base' oid' → base = base' ∧ oid = oid'.
Proof.
  intros Hb Hb' Hg Hg' Heq. assert (base = base') as <-; [|by eauto using object_key_oid_inj].
  destruct (object_key_of_form base oid Hg) as (a & b & Hk & _), (object_key_of_form base' oid' Hg') as (a' & b' & Hk' & _).
  rewrite Hk, Hk' in Heq. clear Hk Hk'.
  destruct (large_bases_cases _ Hb) as [->|[->| ->]], (large_bases_cases _ Hb') as [->|[->| ->]];
    done || discriminate Heq.
Qed.

Lemma object_key_not_blob base oid :
  base ∈ large_bases → good_name oid → starts_with (object_key_of base oid) "objects/blobs/" = false.
Proof.
  intros Hb Hg. destruct (object_key_of_form base oid Hg) as (a & b & -> & _).
  by destruct (large_bases_cases _ Hb) as [->|[->| ->]].
Qed.

(** *** The invariant of the store *)

Definition chunk_bases : list string := ["objects/large/chunks/fixed"; "objects/large/chunks/fastcdc"].

Lemma chunk_bases_large base : base ∈ chunk_bases → base ∈ large_bases.
Proof. unfold chunk_bases, large_bases. set_solver. Qed.

Lemma large_chunk_base_in chunking : large_chunk_base chunking ∈ chunk_bases.
Proof. unfold large_chunk_base, chunk_bases. destruct (_ =? _)%string; set_solver. Qed.

Lemma manifests_base_in : large_manifests_base ∈ large_bases.
Proof. unfold large_manifests_base, large_bases. set_solver. Qed.

Lemma manifests_not_chunk base : base ∈ chunk_bases → base ≠ large_manifests_base.
Proof. unfold large_manifests_base, chunk_bases. intros Hb ->. set_solver. Qed.

(** How every chunk of the store was compressed: a function of its bytes. *)
Context (comp : list Z → StoredLargeChunk).

Definition has_object (w : StoreWorld) (key : string) : Prop := is_Some (sw_objects w !! key).

(** The entry [c] of a manifest describes the piece [p] of the file. *)
Definition chunk_of (w : StoreWorld) (c : LargeChunk) (p : list Z) : Prop :=
  ∃ base, base ∈ chunk_bases ∧ lc_object_key c = object_key_of base (blake3_hex p) ∧
    has_object w (lc_object_key c) ∧ lc_oid c = blake3_hex p ∧
    lc_compression c = slc_compression (comp p) ∧
    decode_large_chunk_payload (slc_compression (comp p)) (slc_bytes (comp p)) = Ok p.

Definition manifest_of (w : StoreWorld) (m : LargeManifest) (bytes : list Z) : Prop :=
  ∃ pieces, Forall2 (chunk_of w) (lm_chunks m) pieces ∧ concat pieces = bytes.

Definition manifest_key_of (m : LargeManifest) : string :=
  object_key_of large_manifests_base (blake3_hex (manifest_to_vec m)).

Record store_inv (w : StoreWorld) : Prop := {
  si_codec : oc_inv (sw_codec w);
  si_chunks base b enc : base ∈ chunk_bases →
    sw_objects w !! object_key_of base (blake3_hex b) = Some enc → decodes_to enc (slc_bytes (comp b));
  si_manifests m enc : sw_objects w !! manifest_key_of m = Some enc → decodes_to enc (manifest_to_vec m);
  si_rows oid size key : sw_chunks w !! oid = Some (size, key) →
    ∃ base, base ∈ chunk_bases ∧ key = object_key_of base oid;
  si_large oid size n key : sw_large_objects w !! oid = Some (size, n, key) →
    ∃ m bytes, key = manifest_key_of m ∧ oid = blake3_hex bytes ∧ manifest_of w m bytes;
}.

Definition grows (w w' : StoreWorld) : Prop := ∀ key, has_object w key → has_object w' key.

#[local] Instance grows_refl : Reflexive grows.
Proof. by intros w key. Qed.
#[local] Instance grows_trans : Transitive grows.
Proof. intros x y z Hxy Hyz key Hk. auto. Qed.

Lemma chunk_of_grows w w' c p : grows w w' → chunk_of w c p → chunk_of w' c p.
Proof. intros Hg (base & ? & ? & Ho & ?). exists base. auto. Qed.

Lemma manifest_of_grows w w' m bytes : grows w w' → manifest_of w m bytes → manifest_of w' m bytes.
Proof.
  intros Hg (ps & Hf & ?). exists ps. split; [|done].
  eapply Forall2_impl; [done|]. intros. by eapply chunk_of_grows.
Qed.

(** *** Object files *)

Lemma store_bytes_run base oid b w :
  good_name oid → oc_inv (sw_codec w) → oc_safe b →
  ∃ enc c', decodes_to enc b ∧ oc_inv c' ∧
    store_bytes base oid b w = (Done (object_key_of base oid),
      let w1 := sw_with_codec w c' in
      match sw_objects w !! object_key_of base oid with
      | Some _ => w1
      | None => sw_with_objects w1 (<[object_key_of base oid := enc]> (sw_objects w))
      end).
Proof.
  intros Hg Hinv Hsafe. destruct (oc_encode_spec _ _ Hinv Hsafe) as (enc & c' & Henc & Hinv' & Hdec).
  exists enc, c'. split; [done|]. split; [done|].
  unfold store_bytes, store_encoded_object_bytes, store_encoded_object_bytes_with_storage_id, codec, stm_bind.
  rewrite Henc. simpl sw_codec. rewrite oc_storage_id_spec by done.
  unfold object_key_of. apply oc_sid_good in Hg. destruct (good_name_split _ Hg) as (x & y & r & -> & _).
  unfold stm_lift, split_at2, stm_modify, stm_ret. simpl sw_objects. by destruct (sw_objects w !! _).
Qed.

Lemma read_object_run base oid b enc w :
  base ∈ large_bases → good_name oid → oc_inv (sw_codec w) →
  sw_objects w !! object_key_of base oid = Some enc → decodes_to enc b →
  ∃ c', oc_inv c' ∧ read_object (object_key_of base oid) w = (Done b, sw_with_codec w c').
Proof.
  intros Hb Hg Hinv Hobj Hdec. destruct (Hdec _ Hinv) as (c' & Hd & Hc').
  exists c'. split; [done|]. unfold read_object, read_object_raw, stm_bind.
  rewrite object_key_valid by done. unfold stm_ok, stm_lift, stm_get, outcome_of_result. rewrite Hobj.
  unfold stm_ret. cbn [negb]. rewrite Hobj. unfold stm_some, stm_ret, codec. rewrite Hd.
  by rewrite object_key_not_blob.
Qed.

Lemma store_inv_codec w c' : store_inv w → oc_inv c' → store_inv (sw_with_codec w c').
Proof. intros [] Hc'. by split. Qed.

Lemma store_inv_insert w key enc :
  store_inv w → sw_objects w !! key = None →
  (∀ base b, base ∈ chunk_bases → key = object_key_of base (blake3_hex b) → decodes_to enc (slc_bytes (comp b))) →
  (∀ m, key = manifest_key_of m → decodes_to enc (manifest_to_vec m)) →
  store_inv (sw_with_objects w (<[key := enc]> (sw_objects w))) ∧
  grows w (sw_with_objects w (<[key := enc]> (sw_objects w))).
Proof.
  intros Hinv Hnone Hch Hman.
  assert (Hgrow : grows w (sw_with_objects w (<[key := enc]> (sw_objects w)))).
  { intros k [v Hv]. unfold has_object. simpl. destruct (decide (k = key)) as [->|]; simplify_map_eq; eauto. }
  split; [|done]. split; simpl; try apply Hinv.
  - intros base b e Hb. destruct (decide (object_key_of base (blake3_hex b) = key)) as [<-|Hne].
    + rewrite lookup_insert_eq. intros [= <-]. by eapply Hch.
    + rewrite lookup_insert_ne by done. by apply Hinv.
  - intros m e. destruct (decide (manifest_key_of m = key)) as [<-|Hne].
    + rewrite lookup_insert_eq. intros [= <-]. by apply Hman.
    + rewrite lookup_insert_ne by done. by apply Hinv.
  - intros oid size n k Hrow. destruct (si_large _ Hinv _ _ _ _ Hrow) as (m & bytes & ? & ? & ?).
    exists m, bytes. split_and!; [done..|]. by eapply manifest_of_grows.
Qed.

(** Storing an object that fits the invariant keeps it; afterwards the file is there
    and reads as its bytes. *)
Lemma store_bytes_inv base oid b w :
  store_inv w → good_name oid → oc_safe b →
  (∀ enc base' b', decodes_to enc b → base' ∈ chunk_bases →
     object_key_of base oid = object_key_of base' (blake3_hex b') → decodes_to enc (slc_bytes (comp b'))) →
  (∀ enc m, decodes_to enc b → object_key_of base oid = manifest_key_of m → decodes_to enc (manifest_to_vec m)) →
  ∃ w', store_bytes base oid b w = (Done (object_key_of base oid), w') ∧ store_inv w' ∧ grows w w' ∧
    has_object w' (object_key_of base oid) ∧ sw_chunks w' = sw_chunks w ∧
    sw_large_objects w' = sw_large_objects w.
Proof.
  intros Hinv Hg Hsafe Hch Hman.
  destruct (store_bytes_run base oid b w Hg (si_codec _ Hinv) Hsafe) as (enc & c' & Hdec & Hc' & ->).
  eexists. split; [reflexivity|]. pose proof (store_inv_codec _ _ Hinv Hc') as Hinv'. cbv zeta.
  destruct (sw_objects w !! object_key_of base oid) as [old|] eqn:Hold.
  - split_and!; [done|by intros k|by exists old|done|done].
  - destruct (store_inv_insert (sw_with_codec w c') (object_key_of base oid) enc Hinv' Hold) as [Hi Hgr].
    + intros base' b' Hb' Heq. by eapply Hch.
    + intros m Heq. by eapply Hman.
    + split_and!; [done|exact Hgr|exists enc; simpl; by rewrite lookup_insert_eq|done|done].
Qed.

Lemma chunk_manifest_keys base b m :
  base ∈ chunk_bases → object_key_of base (blake3_hex b) ≠ manifest_key_of m.
Proof.
  intros Hb Heq. apply object_key_inj in Heq as [-> _];
    [by apply manifests_not_chunk in Hb|by apply chunk_bases_large|apply manifests_base_in
    |apply blake3_good|apply blake3_good].
Qed.

Lemma manifest_key_inj m m' : manifest_key_of m = manifest_key_of m' → m = m'.
Proof.
  intros Heq. apply object_key_inj in Heq as [_ Heq];
    [|apply manifests_base_in|apply manifests_base_in|apply blake3_good|apply blake3_good].
  apply blake3_inj in Heq. apply (f_equal manifest_from_slice) in Heq.
  rewrite !manifest_roundtrip in Heq. by injection Heq.
Qed.

(** *** One chunk *)

Section Store.
Context (rel : string) (config : LargeConfig) (reuse : bool).
Hypothesis no_remote_reuse : reuse && negb (se_rebuild_missing_large_chunks env) = false.

(** The chunk compresses as all chunks of this store do, and can be encoded. *)
Definition piece_ok (p : list Z) : Prop :=
  compress_large_chunk config rel p = Ok (comp p) ∧ oc_safe (slc_bytes (comp p)).

Lemma piece_ok_decode p :
  piece_ok p → decode_large_chunk_payload (slc_compression (comp p)) (slc_bytes (comp p)) = Ok p.
Proof. intros [Hc _]. unfold compress_large_chunk in Hc. by apply compress_decode in Hc. Qed.

Lemma store_large_chunk_inv p w :
  store_inv w → piece_ok p →
  ∃ base w', base ∈ chunk_bases ∧
    store_large_chunk_bytes config (blake3_hex p) (slc_bytes (comp p)) reuse w =
      (Done (object_key_of base (blake3_hex p)), w') ∧
    store_inv w' ∧ grows w w' ∧ has_object w' (object_key_of base (blake3_hex p)) ∧
    sw_large_objects w' = sw_large_objects w.
Proof.
  intros Hinv [_ Hsafe]. set (base := large_chunk_base (lg_default_chunking config)).
  assert (Hbase : base ∈ chunk_bases) by apply large_chunk_base_in.
  destruct (store_bytes_inv base (blake3_hex p) (slc_bytes (comp p)) w Hinv (blake3_good p) Hsafe)
    as (w' & Hrun & Hinv' & Hg & Ho & _ & Hl).
  { intros enc base' b' Hdec Hb' Heq. apply object_key_inj in Heq as [_ Heq];
      [|by apply chunk_bases_large|by apply chunk_bases_large|apply blake3_good|apply blake3_good]. by apply blake3_inj in Heq as ->. }
  { intros enc m _ Heq. by apply chunk_manifest_keys in Heq. }
  unfold store_large_chunk_bytes, existing_chunk_object_key, stm_bind, stm_get.
  destruct (sw_chunks w !! blake3_hex p) as [[size key]|] eqn:Hrow; [|by exists base, w'].
  destruct (si_rows _ Hinv _ _ _ Hrow) as (base' & Hb' & ->). rewrite no_remote_reuse, orb_false_r.
  case_bool_decide as Hobj; [|by exists base, w'].
  exists base', w. by split_and!.
Qed.

Lemma store_piece_inv index offset p w :
  store_inv w → piece_ok p →
  ∃ c w', store_piece config rel reuse index offset p w = (Done c, w') ∧ store_inv w' ∧ grows w w' ∧
    chunk_of w' c p ∧ sw_large_objects w' = sw_large_objects w.
Proof.
  intros Hinv Hp. destruct (store_large_chunk_inv p w Hinv Hp) as (base & w' & Hb & Hrun & Hinv' & Hg & Ho & Hl).
  pose proof (piece_ok_decode p Hp) as Hdec. destruct Hp as [Hc _].
  unfold store_piece, stm_bind. rewrite Hc. unfold stm_ok, stm_lift, outcome_of_result. rewrite Hrun.
  do 2 eexists. split_and!; [reflexivity|done..| |done]. exists base. by split_and!.
Qed.

Lemma insert_chunk_row_inv c p w :
  store_inv w → chunk_of w c p →
  ∃ w', insert_chunk_row c w = (Done tt, w') ∧ store_inv w' ∧ grows w w' ∧
    sw_large_objects w' = sw_large_objects w.
Proof.
  intros Hinv (base & Hb & Hk & _ & Hoid & _). eexists. split; [reflexivity|].
  split_and!; [|by intros k|done]. split; try apply Hinv. intros oid size key. simpl.
  destruct (decide (oid = lc_oid c)) as [->|Hne].
  - rewrite lookup_insert_eq. intros [= _ <-]. exists base. by rewrite Hoid.
  - rewrite lookup_insert_ne by done. apply Hinv.
Qed.

Lemma store_chunks_inv bytes index ranges w :
  store_inv w → Forall (λ r, piece_ok (slice bytes r)) ranges →
  ∃ cs w', store_chunks config rel bytes reuse index ranges w = (Done cs, w') ∧ store_inv w' ∧
    grows w w' ∧ Forall2 (chunk_of w') cs (slice bytes <$> ranges).
Proof.
  revert index w; induction ranges as [|r rs IH]; intros index w Hinv Hok; csimpl.
  - exists [], w. split_and!; [done|done|done|constructor].
  - apply Forall_cons_1 in Hok as [Hr Hok]. unfold stm_bind.
    destruct (store_piece_inv index r.1 _ w Hinv Hr) as (c & w1 & -> & Hinv1 & Hg1 & Hc & _).
    destruct (insert_chunk_row_inv c _ w1 Hinv1 Hc) as (w2 & -> & Hinv2 & Hg2 & _).
    destruct (IH (S index) w2 Hinv2 Hok) as (cs & w3 & -> & Hinv3 & Hg3 & Hcs).
    exists (c :: cs), w3. split_and!; [done|done|by do 2 (etrans; [done|])|].
    constructor; [|done]. eapply chunk_of_grows; [|done]. by etrans.
Qed.

Lemma stream_chunks_inv index offset reads w :
  store_inv w → Forall piece_ok reads →
  ∃ cs w', stream_chunks config rel reuse index offset reads w = (Done cs, w') ∧ store_inv w' ∧
    grows w w' ∧ Forall2 (chunk_of w') cs reads.
Proof.
  revert index offset w; induction reads as [|r rs IH]; intros index offset w Hinv Hok; simpl.
  - exists [], w. split_and!; [done|done|done|constructor].
  - apply Forall_cons_1 in Hok as [Hr Hok]. unfold stm_bind.
    destruct (store_piece_inv index offset r w Hinv Hr) as (c & w1 & -> & Hinv1 & Hg1 & Hc & _).
    destruct (IH (S index) (offset + Z.of_nat (length r)) w1 Hinv1 Hok) as (cs & w3 & -> & Hinv3 & Hg3 & Hcs).
    exists (c :: cs), w3. split_and!; [done|done|by etrans|].
    constructor; [|done]. by eapply chunk_of_grows.
Qed.

Lemma insert_rows_inv cs ps w :
  store_inv w → Forall2 (chunk_of w) cs ps →
  ∃ w', stm_iter insert_chunk_row cs w = (Done tt, w') ∧ store_inv w' ∧ grows w w'.
Proof.
  intros Hinv Hcs. revert w Hinv Hcs. revert ps; induction cs as [|c cs IH]; intros ps w Hinv Hcs; simpl.
  - exists w. by split_and!.
  - apply Forall2_cons_inv_l in Hcs as (p & ps' & Hc & Hcs & ->). unfold stm_bind.
    destruct (insert_chunk_row_inv c p w Hinv Hc) as (w1 & -> & Hinv1 & Hg1 & _).
    destruct (IH ps' w1 Hinv1) as (w2 & -> & Hinv2 & Hg2).
    { eapply Forall2_impl; [done|]. intros. by eapply chunk_of_grows. }
    exists w2. split_and!; [done|done|by etrans].
Qed.

(** *** The manifest *)

Lemma insert_links_run m w :
  ∃ l, insert_large_object_chunk_index m w = (Done tt, sw_with_links w l).
Proof.
  unfold insert_large_object_chunk_index. generalize (lm_chunks m) as cs.
  intros cs. revert w. induction cs as [|c cs IH]; intros w; simpl.
  - exists (sw_links w). by destruct w.
  - destruct (IH (sw_with_links w ({[(lm_oid m, lc_oid c)]} ∪ sw_links w))) as [l Hl].
    exists l. exact Hl.
Qed.

Lemma store_inv_links w l : store_inv w → store_inv (sw_with_links w l).
Proof. intros []. by split. Qed.

Hypothesis manifest_safe : ∀ m, oc_safe (manifest_to_vec m).

Lemma store_manifest_inv m w :
  store_inv w →
  ∃ w', store_bytes large_manifests_base (blake3_hex (manifest_to_vec m)) (manifest_to_vec m) w =
      (Done (manifest_key_of m), w') ∧ store_inv w' ∧ grows w w' ∧ has_object w' (manifest_key_of m).
Proof.
  intros Hinv.
  destruct (store_bytes_inv large_manifests_base (blake3_hex (manifest_to_vec m)) (manifest_to_vec m) w)
    as (w' & Hrun & Hinv' & Hg & Ho & _); [done|apply blake3_good|apply manifest_safe| | |by exists w'].
  - intros enc base' b' _ Hb' Heq. by apply eq_sym, chunk_manifest_keys in Heq.
  - intros enc m' Hdec Heq. by apply manifest_key_inj in Heq as <-.
Qed.

Lemma insert_large_row_inv m bytes w :
  store_inv w → manifest_of w m bytes → lm_oid m = blake3_hex bytes →
  ∃ w', insert_large_object_row m (manifest_key_of m) w = (Done tt, w') ∧ store_inv w' ∧ grows w w' ∧
    sw_objects w' = sw_objects w.
Proof.
  intros Hinv Hm Hoid. eexists. split; [reflexivity|]. split_and!; [|by intros k|done].
  split; try apply Hinv. intros oid size n key. simpl.
  destruct (decide (oid = lm_oid m)) as [->|Hne].
  - rewrite lookup_insert_eq. intros [= _ _ <-]. exists m, bytes. by rewrite Hoid.
  - rewrite lookup_insert_ne by done. intros Hrow. by apply (si_large _ Hinv) in Hrow.
Qed.

(** A file whose manifest and chunks are in the store is restored. *)
Lemma read_chunk_run w c p :
  store_inv w → chunk_of w c p → ∃ c', oc_inv c' ∧ read_large_chunk c w = (Done p, sw_with_codec w c').
Proof.
  intros Hinv (base & Hb & Hk & [enc Henc] & _ & Hcomp & Hdec).
  rewrite Hk in Henc. pose proof (si_chunks _ Hinv _ _ _ Hb Henc) as Hd.
  destruct (read_object_run base (blake3_hex p) _ enc w (chunk_bases_large _ Hb) (blake3_good p)
    (si_codec _ Hinv) Henc Hd) as (c' & Hc' & Hrun).
  exists c'. split; [done|]. unfold read_large_chunk, read_large_chunk_payload, stm_bind.
  rewrite Hk, Hrun, Hcomp, Hdec. done.
Qed.

Lemma read_chunks_run w cs ps :
  store_inv w → Forall2 (chunk_of w) cs ps →
  ∃ w', stm_map read_large_chunk cs w = (Done ps, w') ∧ store_inv w'.
Proof.
  intros Hinv Hcs. revert w Hinv Hcs. revert ps; induction cs as [|c cs IH]; intros ps w Hinv Hcs; simpl.
  - apply Forall2_nil_inv_l in Hcs as ->. by exists w.
  - apply Forall2_cons_inv_l in Hcs as (p & ps' & Hc & Hcs & ->). unfold stm_bind.
    destruct (read_chunk_run w c p Hinv Hc) as (c' & Hc' & ->).
    destruct (IH ps' (sw_with_codec w c')) as (w' & -> & Hinv'); [by apply store_inv_codec|done|].
    by exists w'.
Qed.

Lemma restore_run m bytes w :
  store_inv w → has_object w (manifest_key_of m) → manifest_of w m bytes →
  ∃ w', restore_large (manifest_key_of m) w = (Done bytes, w') ∧ store_inv w'.
Proof.
  intros Hinv [enc Henc] (ps & Hps & <-).
  destruct (read_object_run large_manifests_base (blake3_hex (manifest_to_vec m)) (manifest_to_vec m) enc w)
    as (c' & Hc' & Hrun); [apply manifests_base_in|apply blake3_good|apply Hinv|done|by apply Hinv|].
  unfold restore_large, stm_bind. unfold manifest_key_of. rewrite Hrun, manifest_roundtrip.
  unfold stm_some, stm_ret, write_large_chunks, stm_bind.
  destruct (read_chunks_run (sw_with_codec w c') (lm_chunks m) ps) as (w' & -> & Hinv');
    [by apply store_inv_codec|done|]. by exists w'.
Qed.

(** The lookup of an existing manifest: either none is used, or one that describes
    the same bytes. *)
Lemma existing_manifest_run bytes w :
  store_inv w →
  ∃ r w', existing_large_object_manifest (blake3_hex bytes) config w = (Done r, w') ∧
    store_inv w' ∧ grows w w' ∧
    (∀ key n, r = Some (key, n) → ∃ m, key = manifest_key_of m ∧ has_object w' key ∧ manifest_of w' m bytes).
Proof.
  intros Hinv. unfold existing_large_object_manifest, stm_bind, stm_get.
  assert (Hnone : ∃ (r : option (string * Z)) w',
    (Done None : outcome (option (string * Z)) string, w) = (Done r, w') ∧ store_inv w' ∧ grows w w' ∧
    (∀ key n, r = Some (key, n) → ∃ m, key = manifest_key_of m ∧ has_object w' key ∧ manifest_of w' m bytes))
    by (exists None, w; split_and!; done).
  destruct (sw_large_objects w !! blake3_hex bytes) as [[[size n] key]|] eqn:Hrow; [|exact Hnone].
  destruct (sw_objects w !! key) as [enc|] eqn:Hobj; [|exact Hnone].
  destruct (si_large _ Hinv _ _ _ _ Hrow) as (m & bytes' & -> & <-%blake3_inj & Hm).
  destruct (read_object_run large_manifests_base (blake3_hex (manifest_to_vec m)) (manifest_to_vec m) enc w)
    as (c' & Hc' & Hrun); [apply manifests_base_in|apply blake3_good|apply Hinv|done|by apply Hinv|].
  unfold manifest_key_of at 1. rewrite Hrun, manifest_roundtrip. unfold stm_some, stm_ret.
  destruct ((lm_chunking m =? _)%string && (lm_chunk_size m =? _)); cbv beta iota.
  - destruct (insert_links_run m (sw_with_codec w c')) as [l ->].
    eexists _, _. split_and!; [reflexivity|by apply store_inv_links, store_inv_codec|by intros k|].
    intros key n' [= <- <-]. exists m. split_and!; [done|by exists enc|done].
  - eexists _, _. split_and!; [reflexivity|by apply store_inv_codec|by intros k|done].
Qed.

(** The common end of both store routines. *)
Lemma finish_run m bytes w w1 w2 :
  store_inv w → manifest_of w m bytes → has_object w (manifest_key_of m) → lm_oid m = blake3_hex bytes →
  insert_large_object_row m (manifest_key_of m) w = (Done tt, w1) →
  insert_large_object_chunk_index m w1 = (Done tt, w2) →
  store_inv w2 ∧ grows w w2 ∧ ∃ w3, restore_large (manifest_key_of m) w2 = (Done bytes, w3) ∧ store_inv w3.
Proof.
  intros Hinv Hm Ho Hoid Hr Hl.
  destruct (insert_large_row_inv m bytes w Hinv Hm Hoid) as (w1' & Hr' & Hinv1 & Hg1 & _).
  rewrite Hr in Hr'. injection Hr' as <-.
  destruct (insert_links_run m w1) as [l Hl']. rewrite Hl in Hl'. injection Hl' as ->.
  pose proof (store_inv_links _ l Hinv1) as Hinv2. split_and!; [done|exact Hg1|].
  apply restore_run; [done|by apply Hg1|]. by apply (manifest_of_grows w).
Qed.

Lemma store_buffered_run bytes binary w :
  store_inv w → Z.of_nat (length bytes) <= isize_max → 0 <= lg_chunk_size config <= 2 ^ 61 →
  (∀ rs, chunk_ranges_for_bytes (lg_default_chunking config) (lg_chunk_size config) bytes = Some rs →
         Forall (λ r, piece_ok (slice bytes r)) rs) →
  ∃ oid key n w1, store_large_bytes_buffered rel config binary bytes reuse w = (Done (oid, key, n), w1) ∧
    oid = blake3_hex bytes ∧ store_inv w1 ∧ grows w w1 ∧
    ∃ w2, restore_large key w1 = (Done bytes, w2) ∧ store_inv w2.
Proof.
  intros Hinv Hlen Hcs Hok. unfold store_large_bytes_buffered, stm_bind. cbv zeta.
  destruct (existing_manifest_run bytes w Hinv) as (r & w1 & -> & Hinv1 & Hg1 & Hex).
  destruct r as [[key n]|].
  { destruct (Hex key n eq_refl) as (m & -> & Ho & Hm). eexists _, _, _, _.
    split_and!; [reflexivity|done..|]. by apply restore_run. }
  destruct (chunk_ranges_tile (lg_default_chunking config) (lg_chunk_size config) bytes Hlen Hcs)
    as (rs & Hrs & Htiles). rewrite Hrs. unfold stm_some, stm_ret.
  destruct (store_chunks_inv bytes 0 rs w1 Hinv1 (Hok _ Hrs)) as (cs & w2 & -> & Hinv2 & Hg2 & Hf2).
  set (m := large_manifest_of _ _ _ _ _ cs).
  destruct (store_manifest_inv m w2 Hinv2) as (w3 & -> & Hinv3 & Hg3 & Ho3).
  assert (Hm : manifest_of w3 m bytes).
  { apply (manifest_of_grows w2); [done|]. exists (slice bytes <$> rs). split; [done|].
    by apply tiles_reassemble. }
  destruct (insert_large_row_inv m bytes w3 Hinv3 Hm eq_refl) as (w4 & Hr & _).
  destruct (insert_links_run m w4) as [l Hl]. rewrite Hr, Hl.
  destruct (finish_run m bytes w3 w4 _ Hinv3 Hm Ho3 eq_refl Hr Hl) as (Hinv5 & Hg5 & Hrest).
  eexists _, _, _, _. split_and!; [reflexivity|done|done|etrans; [exact Hg1|etrans; [exact Hg2|by etrans]]|done].
Qed.

Lemma store_streaming_run reads binary before after w :
  store_inv w → stable_metadata_matches before after = true → Forall piece_ok reads →
  ∃ oid key n w1,
    store_large_file_fixed_streaming_from_file rel config binary before after reads reuse w =
      (Done (oid, key, n), w1) ∧
    oid = blake3_hex (concat reads) ∧ store_inv w1 ∧ grows w w1 ∧
    ∃ w2, restore_large key w1 = (Done (concat reads), w2) ∧ store_inv w2.
Proof.
  intros Hinv Hmeta Hok. unfold store_large_file_fixed_streaming_from_file, stm_bind.
  destruct (stream_chunks_inv 0 0 reads w Hinv Hok) as (cs & w1 & -> & Hinv1 & Hg1 & Hf1).
  rewrite Hmeta. cbn [negb]. cbv zeta.
  destruct (existing_manifest_run (concat reads) w1 Hinv1) as (r & w2 & -> & Hinv2 & Hg2 & Hex).
  destruct r as [[key n]|].
  { destruct (Hex key n eq_refl) as (m & -> & Ho & Hm). eexists _, _, _, _.
    split_and!; [reflexivity|done|done|by etrans|]. by apply restore_run. }
  set (m := large_manifest_of _ _ _ _ _ cs).
  destruct (store_manifest_inv m w2 Hinv2) as (w3 & -> & Hinv3 & Hg3 & Ho3).
  assert (Hf3 : Forall2 (chunk_of w3) cs reads)
    by (eapply Forall2_impl; [done|]; intros; apply (chunk_of_grows w1); [by etrans|done]).
  change (lm_chunks m) with cs.
  destruct (insert_rows_inv cs reads w3 Hinv3 Hf3) as (w4 & -> & Hinv4 & Hg4).
  assert (Hm : manifest_of w4 m (concat reads)).
  { exists reads. split; [|done]. eapply Forall2_impl; [done|]. intros. by eapply chunk_of_grows. }
  destruct (insert_large_row_inv m (concat reads) w4 Hinv4 Hm eq_refl) as (w5 & Hr & _).
  destruct (insert_links_run m w5) as [l Hl]. rewrite Hr, Hl.
  destruct (finish_run m (concat reads) w4 w5 _ Hinv4 Hm (Hg4 _ Ho3) eq_refl Hr Hl) as (Hinv6 & Hg6 & Hrest).
  eexists _, _, _, _. split_and!; [reflexivity|done|done|etrans; [exact Hg1|etrans; [exact Hg2|etrans; [exact Hg3|by etrans]]]|done].
Qed.

(** C1. Storing a buffered large file and restoring it from the manifest it returns gives the
    file back. The store may hold chunks and manifests already, but its chunks must all be
    compressed the way this file's are (otherwise [chunk_reuse_ignores_compression] applies);
    chunks are not looked for on a remote; the file fits an [isize] and its chunk size is at
    most 2^61; and every piece, as compressed, and every manifest can be encoded and read back
    (without encryption: does not start with a prefix the decoder takes for a cipher). Then
    the call returns (it never fails, panics or runs out of fuel), reuses the chunks and the
    manifest that are there, keeps every object and the invariant of the store, and the
    restore reads exactly the bytes. *)
Theorem store_restore_buffered bytes binary w :
  store_inv w → Z.of_nat (length bytes) <= isize_max → 0 <= lg_chunk_size config <= 2 ^ 61 →
  (∀ rs, chunk_ranges_for_bytes (lg_default_chunking config) (lg_chunk_size config) bytes = Some rs →
         Forall (λ r, piece_ok (slice bytes r)) rs) →
  ∃ oid key n w1, store_large_bytes_buffered rel config binary bytes reuse w = (Done (oid, key, n), w1) ∧
    oid = blake3_hex bytes ∧ store_inv w1 ∧ grows w w1 ∧
    ∃ w2, restore_large key w1 = (Done bytes, w2) ∧ store_inv w2.
Proof. apply store_buffered_run. Qed.

(** C29. Under the same conditions (chunks of the store compressed as this file's, none looked
    for on a remote, pieces and manifests that can be encoded and read back) the streamed
    routine of the default chunking gives the file back too, however the reads of the file are
    cut: short reads give shorter chunks and the restored file is their concatenation. The
    file must not have changed between the two looks at its metadata. *)
Theorem store_restore_streaming reads binary before after w :
  store_inv w → stable_metadata_matches before after = true → Forall piece_ok reads →
  ∃ oid key n w1,
    store_large_file_fixed_streaming_from_file rel config binary before after reads reuse w =
      (Done (oid, key, n), w1) ∧
    oid = blake3_hex (concat reads) ∧ store_inv w1 ∧ grows w w1 ∧
    ∃ w2, restore_large key w1 = (Done (concat reads), w2) ∧ store_inv w2.
Proof. apply store_streaming_run. Qed.

End Store.

End Roundtrip.

(** *** A chunk stored under another compression *)

(** C36. The stored form of a chunk is found by the hash of its plain bytes, but the
    manifest records the compression computed for the new file.  So when a chunk was
    stored compressed and the new file is not compressed (its extension is skipped,
    or compression was switched off in between), the restore of the new file
    succeeds and yields the compressed bytes in place of the chunk. *)
Theorem chunk_reuse_ignores_compression `{!ObjectCodecLaws, !Blake3Laws, !ManifestJsonLaws, !ZstdLaws} config rel p w base size enc zs
    reuse index offset :
  oc_inv (sw_codec w) → base ∈ chunk_bases →
  sw_chunks w !! blake3_hex p = Some (size, object_key_of base (blake3_hex p)) →
  sw_objects w !! object_key_of base (blake3_hex p) = Some enc → decodes_to enc zs →
  compress_large_chunk config rel p = Ok (stored_raw p) →
  ∃ c w2, store_piece config rel reuse index offset p w = (Done c, w) ∧
    lc_compression c = "none" ∧ lc_stored_len c = Some (Z.of_nat (length p)) ∧
    read_large_chunk c w = (Done zs, w2).
Proof.
  intros Hinv Hb Hrow Hobj Hdec Hcomp.
  destruct (read_object_run base (blake3_hex p) zs enc w (chunk_bases_large _ Hb) (blake3_good p) Hinv Hobj Hdec)
    as (c' & Hc' & Hrun).
  unfold store_piece, store_large_chunk_bytes, existing_chunk_object_key, stm_bind, stm_get.
  rewrite Hcomp. unfold stm_ok, stm_lift, outcome_of_result. rewrite Hrow. cbv beta iota.
  rewrite Hobj, bool_decide_eq_true_2 by (by eexists). cbn [orb]. unfold stm_ret.
  eexists _, _. split_and!; [reflexivity|done|done|].
  unfold read_large_chunk, read_large_chunk_payload, stm_bind. simpl lc_object_key. by rewrite Hrun.
Qed.

End LargeStore.

(** ** The object codec of [Crypto] *)

Section CryptoCodec.
Context `{!Hex, !Rng, !Aead, !Age, !KeyringToml, !Hmac}.
Context (e : ObjectEnv) (w0 : KeyWorld).

Definition crypto_codec : ObjectCodec := {|
  codec_state := KeyWorld;
  oc_encode := encode_object e;
  oc_decode := decode_object e;
  oc_storage_id := object_storage_id e;
|}.

(** Bytes that can be encoded and read back with the keys of [w0]. *)
Definition crypto_safe (b : list Z) : Prop :=
  codec_ready e w0 b ∧ ∀ w, key_inv w0 w → ∃ c w', encode_object e b w = (Done c, w').

Context `{!AgeLaws, !AeadLaws, !RngLaws}.
Context (sid : string → string).
Hypothesis sid_spec : ∀ w oid, key_inv w0 w → object_storage_id e oid w = (Done (sid oid), w).
Hypothesis sid_good : ∀ oid, good_name oid → good_name (sid oid).
Hypothesis sid_inj : ∀ oid oid', sid oid = sid oid' → oid = oid'.

(** The object layer keeps the promises of the interface, for a naming of objects
    that is injective. *)
#[refine]
Definition crypto_codec_laws : @ObjectCodecLaws crypto_codec := {|
  oc_inv := (key_inv w0 : @codec_state crypto_codec → Prop);
  oc_safe := crypto_safe;
  oc_sid := sid;
|}.
Proof.
  - exact sid_spec.
  - exact sid_good.
  - exact sid_inj.
  - intros w b Hinv [Hready Htotal]. destruct (Htotal w Hinv) as (c & w' & Henc).
    destruct (encode_object_stable e b w0 w c w' Hinv Hready Henc) as [Hinv' Hreads].
    exists c, w'. split_and!; [exact Henc|exact Hinv'|exact Hreads].
Defined.

End CryptoCodec.

(** Without encryption an object is named by its hash. *)
Lemma plain_storage_id `{!Hex, !Rng, !Aead, !Age, !KeyringToml, !Hmac} e oid w :
  oe_security e = None ∨ oe_security e = Some "none" → object_storage_id e oid w = (Done oid, w).
Proof. unfold object_storage_id, object_keys_are_hmac. by intros [-> | ->]. Qed.

Lemma plain_crypto_safe `{!Hex, !Rng, !Aead, !Age, !KeyringToml, !Hmac} e w0 b :
  oe_security e = None ∨ oe_security e = Some "none" → has_magic b = false → crypto_safe e w0 b.
Proof.
  intros Hs Hm. split.
  - unfold codec_ready. by destruct Hs as [-> | ->].
  - intros w _. unfold encode_object. destruct Hs as [-> | ->]; by do 2 eexists.
Qed.

(** ** Instances for concrete runs *)

Module LargeStoreExample.
Import CryptoExample.

#[export] Instance LargeChunk_countable : Countable LargeChunk.
Proof.
  refine (inj_countable'
    (λ c, (lc_index c, lc_offset c, lc_len c, lc_stored_len c, lc_compression c, lc_oid c, lc_object_key c))
    (λ '(a, b, c, d, e, f, g), {| lc_index := a; lc_offset := b; lc_len := c; lc_stored_len := d;
       lc_compression := e; lc_oid := f; lc_object_key := g |}) _). by intros [].
Defined.
#[export] Instance LargeManifest_eq_dec : EqDecision LargeManifest.
Proof. solve_decision. Defined.
#[export] Instance LargeManifest_countable : Countable LargeManifest.
Proof.
  refine (inj_countable'
    (λ m, (lm_version m, lm_oid m, lm_size m, lm_media_type m, lm_binary m, lm_chunking m, lm_chunk_size m, lm_chunks m))
    (λ '(a, b, c, d, e, f, g, h), {| lm_version := a; lm_oid := b; lm_size := c; lm_media_type := d;
       lm_binary := e; lm_chunking := f; lm_chunk_size := g; lm_chunks := h |}) _). by intros [].
Defined.

#[export] Instance ex_blake3 : Blake3 := {| blake3_hex b := "b3x" +:+ string_of_N (Npos (encode b)) |}.
#[export] Instance ex_blake3_laws : Blake3Laws.
Proof.
  split; simpl.
  - intros b. split; [|simpl; lia]. rewrite str_forallb_app. simpl.
    eapply str_forallb_impl; [|apply string_of_N_digits]. intros c Hc.
    unfold is_ascii_alphanumeric. by rewrite Hc.
  - intros b b' Heq. injection Heq as Heq. apply string_of_N_inj in Heq. injection Heq as Heq.
    by apply encode_inj in Heq.
Qed.

#[export] Instance ex_json : ManifestJson := {|
  manifest_to_vec m := [Zpos (encode m)];
  manifest_from_slice b := match b with [Zpos n] => decode n | _ => None end;
|}.
#[export] Instance ex_json_laws : ManifestJsonLaws.
Proof. split. intros m. simpl. apply decode_encode. Qed.

(** A compressor for runs: a byte and its count. *)
#[export] Instance ex_zstd : Zstd := {|
  zstd_encode_all b _ := Ok (match b with
    | x :: r => if forallb (Z.eqb x) r then [0; x; Z.of_nat (length b)] else 1 :: b
    | [] => [1] end);
  zstd_decode_all c := match c with
    | [0; x; n] => Ok (repeat x (Z.to_nat n))
    | 1 :: b => Ok b
    | _ => Err "zstd" end;
|}.
#[export] Instance ex_zstd_laws : ZstdLaws.
Proof.
  split. simpl. intros b _ out. destruct b as [|x r]; [by intros [= <-]|].
  destruct (forallb (Z.eqb x) r) eqn:Hall; intros [= <-]; [|done].
  rewrite Nat2Z.id. simpl. do 2 f_equal. apply forallb_elem_of in Hall || rewrite forallb_elem_of in Hall.
  clear -Hall. induction r as [|y r IH]; [done|]. simpl. f_equal.
  - apply Z.eqb_eq, Hall. set_solver.
  - apply IH. intros z Hz. apply Hall. set_solver.
Qed.

Definition ex_plain : ObjectEnv := ex_env "none".
Definition ex_keys : KeyWorld := ex_world ∅ [].

#[export] Instance ex_codec : ObjectCodec := crypto_codec ex_plain.
#[export] Instance ex_codec_laws : ObjectCodecLaws.
Proof.
  apply (crypto_codec_laws ex_plain ex_keys) with (sid := λ oid, oid).
  - intros w oid _. apply plain_storage_id. by right.
  - done.
  - done.
Defined.

Definition ex_compression (enabled : bool) : LargeCompressionConfig := {|
  lcc_enabled := enabled; lcc_algorithm := "zstd"; lcc_level := 3; lcc_sample_bytes := 16;
  lcc_min_gain_ratio := f64_of_Z 0; lcc_skip_extensions := ["*.zip"] |}.
Definition ex_config (enabled : bool) : LargeConfig := {|
  lg_enabled := true; lg_min_size := 0; lg_binary_min_size := 0; lg_chunked_min_size := 0;
  lg_chunked_chunk_size := 4; lg_default_chunking := "fixed"; lg_chunk_size := 4;
  lg_max_parallel_uploads := 1; lg_multipart := false; lg_always := []; lg_never := [];
  lg_compression := ex_compression enabled |}.
Definition ex_store_env : StoreEnv := {|
  se_download := None; se_rebuild_missing_large_chunks := false;
  se_is_snapshot_manifest_object_key := λ _, false; se_hydrate_manifest := Ok |}.
Definition ex_empty : StoreWorld := {|
  sw_codec := ex_keys : codec_state; sw_objects := ∅; sw_chunks := ∅; sw_large_objects := ∅; sw_links := ∅ |}.

Lemma ex_key_inv : key_inv ex_keys ex_keys.
Proof. split_and!; [done|apply ex_coherent|done..]. Qed.

Lemma ex_empty_inv comp : store_inv comp ex_empty.
Proof. split; simpl; [apply ex_key_inv|intros *; by rewrite lookup_empty..]. Qed.

Lemma ex_manifest_safe m : oc_safe (manifest_to_vec m).
Proof.
  apply plain_crypto_safe; [by right|]. unfold has_magic, bytes_starts_with.
  by rewrite !bool_decide_eq_false_2 by discriminate.
Qed.

(** Without compression every piece that has no magic prefix can be stored. *)
Lemma ex_piece_ok rel p : has_magic p = false → piece_ok stored_raw rel (ex_config false) p.
Proof. intros Hm. split; [done|]. apply plain_crypto_safe; [by right|done]. Qed.

Lemma store_restore_buffered_witness :
  ∃ oid key n w1,
    store_large_bytes_buffered ex_store_env "a.bin" (ex_config false) true [1; 2; 3; 4; 5; 6] false ex_empty =
      (Done (oid, key, n), w1) ∧
    ∃ w2, restore_large ex_store_env key w1 = (Done [1; 2; 3; 4; 5; 6], w2).
Proof.
  destruct (store_restore_buffered ex_store_env stored_raw "a.bin" (ex_config false) false)
    with (bytes := [1; 2; 3; 4; 5; 6]) (binary := true) (w := ex_empty)
    as (oid & key & n & w1 & Hrun & _ & _ & _ & w2 & Hrest & _).
  - reflexivity.
  - apply ex_manifest_safe.
  - apply ex_empty_inv.
  - vm_compute. discriminate.
  - vm_compute. split; discriminate.
  - intros rs Hrs.
    assert (rs = [(0, 4); (4, 6)]) as -> by (vm_compute in Hrs; by injection Hrs).
    do 2 (apply Forall_cons_2; [apply ex_piece_ok; reflexivity|]). apply Forall_nil_2.
  - exists oid, key, n, w1. split; [exact Hrun|]. exists w2. exact Hrest.
Defined.

Definition ex_meta : FileMeta := {| fm_len := 6; fm_modified := Some 5; fm_ino := Some 9 |}.

Lemma store_restore_streaming_witness :
  ∃ oid key n w1,
    store_large_file_fixed_streaming_from_file ex_store_env "a.bin" (ex_config false) true ex_meta ex_meta
      [[1; 2; 3]; [4; 5]; [6]] false ex_empty = (Done (oid, key, n), w1) ∧
    ∃ w2, restore_large ex_store_env key w1 = (Done [1; 2; 3; 4; 5; 6], w2).
Proof.
  destruct (store_restore_streaming ex_store_env stored_raw "a.bin" (ex_config false) false)
    with (reads := [[1; 2; 3]; [4; 5]; [6]]) (binary := true) (before := ex_meta) (after := ex_meta) (w := ex_empty)
    as (oid & key & n & w1 & Hrun & _ & _ & _ & w2 & Hrest & _).
  - reflexivity.
  - apply ex_manifest_safe.
  - apply ex_empty_inv.
  - reflexivity.
  - do 3 (apply Forall_cons_2; [apply ex_piece_ok; reflexivity|]). apply Forall_nil_2.
  - exists oid, key, n, w1. split; [exact Hrun|]. exists w2. exact Hrest.
Defined.

(** A store that holds the chunk [7; 7; 7; 7] compressed, as it was stored for a
    file that is not a [.zip]. *)
Definition ex_chunk : list Z := [7; 7; 7; 7].
Definition ex_chunk_key : string := object_key_of "objects/large/chunks/fixed" (blake3_hex ex_chunk).
Definition ex_compressed_store : StoreWorld := {|
  sw_codec := ex_keys : codec_state;
  sw_objects := {[ex_chunk_key := [0; 7; 4]]};
  sw_chunks := {[blake3_hex ex_chunk := (4, ex_chunk_key)]};
  sw_large_objects := ∅; sw_links := ∅ |}.

Lemma chunk_reuse_ignores_compression_witness :
  compress_large_chunk (ex_config true) "a.bin" ex_chunk =
    Ok {| slc_bytes := [0; 7; 4]; slc_compression := "zstd" |} ∧
  ∃ c w2, store_piece ex_store_env (ex_config true) "a.zip" false 0 0 ex_chunk ex_compressed_store =
      (Done c, ex_compressed_store) ∧
    lc_compression c = "none" ∧ lc_stored_len c = Some 4 ∧
    read_large_chunk ex_store_env c ex_compressed_store = (Done [0; 7; 4], w2).
Proof.
  split; [vm_compute; reflexivity|].
  apply (chunk_reuse_ignores_compression ex_store_env (ex_config true) "a.zip" ex_chunk ex_compressed_store
    "objects/large/chunks/fixed" 4 [0; 7; 4] [0; 7; 4] false 0 0).
  - apply ex_key_inv.
  - left.
  - apply lookup_singleton_eq.
  - apply lookup_singleton_eq.
  - intros w Hw. exists w. split; [|exact Hw]. by apply decode_plain.
  - vm_compute. reflexivity.
Defined.

End LargeStoreExample.
