(* ===== verification/RemoteObjects.v ===== *)
(** * Objects on the remote

    The part of [src/main.rs], [src/sync_runtime.rs] and [src/hydration_error.rs]
    that turns local objects into the form they have on the remote and back:
    structured objects (trees, pack indexes, large manifests, compact snapshot
    manifests) travel as compressed CBOR under a canonical alias, everything else as
    it is; and the lookups that decide whether an object is on the remote. *)

From S2P Require Import Prelude RStr Core Util Large Crypto Pack Store LargeStore.

Local Open Scope Z_scope.

(** ** Failures of a fetch *)

Definition failure (key kind : string) : string := "[mj-object-fetch:" +:+ kind +:+ "] key=" +:+ key.

(** An error of the remote: whether its chain holds a connection failure, and its
    text, which may name hosts and credentials. *)
Record RemoteError := { re_transport : bool; re_text : string }.

Definition remote_failure (key : string) (e : RemoteError) : string :=
  failure key (if re_transport e then "transport" else "remote").

Definition code (detail : string) : option string :=
  List.find (λ kind, contains detail ("[mj-object-fetch:" +:+ kind +:+ "]"))
    ["transport"; "missing"; "decode"; "config"; "remote"].

(** ** The remote *)

(** What the code calls of a [RemoteStore], and the label of the host from the
    configuration ([None] when it cannot be read). *)
Record Remote := {
  rm_is_s3_like : bool;
  rm_is_master_proxy : bool;
  rm_exists : string → result bool RemoteError;
  rm_get_optional : string → result (option (list Z)) RemoteError;
  rm_get_range : string → Z → Z → result (list Z) RemoteError;
  rm_restore_archive : string → result bool RemoteError;
}.

Definition config_failure : string := "config".

Section Lookup.
Context (remote : Remote) (host_name : option string).

Definition rm_ok {A} (r : result A RemoteError) : result A string :=
  match r with Ok a => Ok a | Err e => Err (re_text e) end.

Definition remote_object_available (key : string) : result bool string :=
  let? here := rm_ok (rm_exists remote key) in
  if here : bool then Ok true else
  match canonical_remote_alias key with
  | None => Ok false
  | Some alias => rm_ok (rm_exists remote alias)
  end.

Definition remote_available_key (key : string) : result string string :=
  let? here := rm_ok (rm_exists remote key) in
  if here : bool then Ok key else
  match canonical_remote_alias key with
  | None => Ok key
  | Some alias =>
    let? there := rm_ok (rm_exists remote alias) in
    if there : bool then Ok alias else Ok key
  end.

(** [Vec::dedup] on the at most two candidates. *)
Definition remote_key_candidates_for_paths (key : string) : result (list string) string :=
  match host_name with
  | None => Err config_failure
  | Some name =>
    let host_prefix := remote_host_label name in
    let plain := host_remote_key host_prefix key in
    match canonical_remote_alias key with
    | Some alias =>
      if negb (alias =? key)%string then
        let first := host_remote_key host_prefix alias in
        Ok (if (first =? plain)%string then [first] else [first; plain])
      else Ok [plain]
    | None => Ok [plain]
    end
  end.

Fixpoint first_existing (keys : list string) : result (option string) string :=
  match keys with
  | [] => Ok None
  | k :: rest =>
    let? here := rm_ok (rm_exists remote k) in
    if here : bool then Ok (Some k) else first_existing rest
  end.

Definition remote_object_available_for_paths (key : string) : result bool string :=
  if negb (rm_is_s3_like remote) then remote_object_available key else
  let? candidates := remote_key_candidates_for_paths key in
  let? found := first_existing candidates in
  Ok (bool_decide (is_Some found)).

Definition remote_available_key_for_paths (key : string) : result string string :=
  if negb (rm_is_s3_like remote) then remote_available_key key else
  let? candidates := remote_key_candidates_for_paths key in
  let? found := first_existing candidates in
  match found with
  | Some k => Ok k
  | None =>
    match host_name with
    | None => Err config_failure
    | Some name => Ok (host_remote_key (remote_host_label name) key)
    end
  end.

Definition remote_upload_key (host_id key : string) : string :=
  if rm_is_s3_like remote then host_remote_key host_id key else key.
End Lookup.

(** ** Serialisation *)

(** What the code uses of [serde_cbor] and [serde_json] at one type. *)
Class Serde (T : Type) := {
  cbor_to_vec : T → list Z;
  cbor_from_slice : list Z → option T;
  json_to_vec : T → list Z;
  json_to_vec_pretty : T → list Z;
  json_from_slice : list Z → option T;
}.
Class SerdeLaws (T : Type) `{!Serde T} : Prop := {
  cbor_roundtrip (x : T) : cbor_from_slice (cbor_to_vec x) = Some x;
  json_roundtrip (x : T) : json_from_slice (json_to_vec x) = Some x;
  json_pretty_roundtrip (x : T) : json_from_slice (json_to_vec_pretty x) = Some x;
}.

(** [serde_json::Value] at an object: its fields. *)
Class ManifestValue := {
  jvalue : Type;
  jv_empty_object : jvalue;
  jv_true : jvalue;
  manifest_to_value : SnapshotManifest → list (string * jvalue);
  value_to_cbor : list (string * jvalue) → list Z;
  value_to_json_pretty : list (string * jvalue) → list Z;
}.

Fixpoint object_insert {V} (k : string) (v : V) (o : list (string * V)) : list (string * V) :=
  match o with
  | [] => [(k, v)]
  | (k', v') :: o' => if (k =? k')%string then (k, v) :: o' else (k', v') :: object_insert k v o'
  end.

Definition REMOTE_METADATA_DECODE_LIMIT : Z := 128 * 1024 * 1024.

Section Objects.
Context `{!ObjectCodec, !Zstd, !Serde TreeNodeManifest, !Serde TreeManifest, !Serde PackIndex,
          !Serde LargeManifest, !Serde SnapshotManifest, !ManifestValue}.

Abbreviation codec_m := (stm codec_state).

Definition zstd_decode_all_limited (bytes : list Z) (limit : Z) (label : string) : result (list Z) string :=
  let? out := zstd_decode_all bytes in
  if limit <? Z.of_nat (length out) then Err ("decoded " +:+ label +:+ " exceeds limit") else Ok out.

Definition decode_canonical_remote_export {T} `{!Serde T} (bytes : list Z) : codec_m T :=
  let* compressed := oc_decode bytes in
  match zstd_decode_all_limited compressed REMOTE_METADATA_DECODE_LIMIT "canonical remote export" with
  | Ok cbor => stm_some "cbor" (cbor_from_slice cbor)
  | Err _ =>
    match cbor_from_slice compressed with
    | Some value => stm_ret value
    | None => stm_some "json" (json_from_slice compressed)
    end
  end.

Definition encode_canonical_remote_export {T} `{!Serde T} (value : T) : codec_m (list Z) :=
  let* compressed := stm_ok (zstd_encode_all (cbor_to_vec value) 3) in
  oc_encode compressed.

(** *** Snapshot manifests without their records *)

Definition compact_snapshot_manifest_value (m : SnapshotManifest) : list (string * jvalue) :=
  object_insert "roots_omitted" jv_true (object_insert "roots" jv_empty_object (manifest_to_value m)).

Definition encode_compact_snapshot_manifest_for_remote (m : SnapshotManifest) : codec_m (list Z) :=
  let* compressed := stm_ok (zstd_encode_all (value_to_cbor (compact_snapshot_manifest_value m)) 3) in
  oc_encode compressed.

Definition encode_compact_snapshot_manifest_for_local (m : SnapshotManifest) : codec_m (list Z) :=
  oc_encode (value_to_json_pretty (compact_snapshot_manifest_value m)).

Definition is_plausible_snapshot_manifest (m : SnapshotManifest) : bool :=
  starts_with (sm_snapshot_id m) "snap-" && starts_with (sm_op_id m) "op-"
  && forallb (λ r, starts_with (rs_tree_key r.2) "objects/trees/") (sm_root_trees m).

(** [let Ok(x) = call else ...]: a failure is taken as a value. *)
Definition try_ok {S A} (m : stm S A) : stm S (option A) := λ s,
  match m s with
  | (Done a, s') => (Done (Some a), s')
  | (Fails _, s') => (Done None, s')
  | (Panics, s') => (Panics, s')
  end.

Definition compact_snapshot_manifest_to_local_bytes (bytes : list Z) : codec_m (option (list Z)) :=
  let* found := try_ok (decode_canonical_remote_export (T := SnapshotManifest) bytes) in
  match found with
  | None => stm_ret None
  | Some m =>
    if negb (is_plausible_snapshot_manifest m) then stm_ret None
    else if bool_decide (sm_roots m ≠ []) || bool_decide (sm_root_trees m = []) then stm_ret None
    else let* local := encode_compact_snapshot_manifest_for_local m in stm_ret (Some local)
  end.

(** *** Between the local and the canonical form *)

Definition canonical_remote_object_to_local_bytes (key : string) (bytes : list Z) : codec_m (list Z) :=
  let* compact := (if starts_with key "objects/blobs/" then compact_snapshot_manifest_to_local_bytes bytes
                   else stm_ret None) in
  match compact with
  | Some local => stm_ret local
  | None =>
    if starts_with key "objects/trees/nodes/" then
      let* m := decode_canonical_remote_export (T := TreeNodeManifest) bytes in oc_encode (json_to_vec m)
    else if starts_with key "objects/trees/" then
      let* m := decode_canonical_remote_export (T := TreeManifest) bytes in oc_encode (json_to_vec m)
    else if starts_with key "objects/indexes/pack/" then
      let* index := decode_canonical_remote_export (T := PackIndex) bytes in stm_ret (json_to_vec_pretty index)
    else if starts_with key "objects/large/manifests/" then
      let* m := decode_canonical_remote_export (T := LargeManifest) bytes in oc_encode (json_to_vec_pretty m)
    else stm_ret bytes
  end.

(** [encode_canonical_local_object], on the decoded bytes of the local object. *)
Definition encode_canonical_local_object (key : string) (bytes : list Z) (is_snapshot_manifest : bool)
    : codec_m (list Z) :=
  if is_snapshot_manifest then
    let* m := stm_some "decode snapshot manifest" (json_from_slice (T := SnapshotManifest) bytes) in
    encode_compact_snapshot_manifest_for_remote m
  else if starts_with key "objects/trees/nodes/" then
    let* m := stm_some "decode tree node manifest" (json_from_slice (T := TreeNodeManifest) bytes) in
    encode_canonical_remote_export m
  else if starts_with key "objects/trees/" then
    let* m := stm_some "decode tree manifest" (json_from_slice (T := TreeManifest) bytes) in
    encode_canonical_remote_export m
  else if starts_with key "objects/indexes/pack/" then
    let* m := stm_some "decode pack index" (json_from_slice (T := PackIndex) bytes) in
    encode_canonical_remote_export m
  else if starts_with key "objects/large/manifests/" then
    let* m := stm_some "decode large manifest" (json_from_slice (T := LargeManifest) bytes) in
    encode_canonical_remote_export m
  else oc_encode bytes.

Definition canonical_alias_uses_structured_encoding (key : string) : bool :=
  starts_with key "objects/blobs/" || starts_with key "objects/trees/"
  || starts_with key "objects/indexes/pack/" || starts_with key "objects/large/manifests/".

(** *** Download *)

Definition fetch (remote : Remote) (key remote_key : string) : codec_m (option (list Z)) :=
  match rm_get_optional remote remote_key with
  | Ok found => stm_ret found
  | Err e => stm_fail (remote_failure key e)
  end.

Definition decode_fetched (key : string) (bytes : list Z) : codec_m (list Z) := λ s,
  match canonical_remote_object_to_local_bytes key bytes s with
  | (Fails _, s') => (Fails (failure key "decode"), s')
  | r => r
  end.

Definition download_local_object_from_remote (remote : Remote) (host_name : option string) (key : string)
    : codec_m (list Z) :=
  let* _ := stm_ok (validate_local_object_key key) in
  if rm_is_s3_like remote then
    match host_name with
    | None => stm_fail (failure key "config")
    | Some name =>
      let host := remote_host_label name in
      let alias := canonical_remote_alias key in
      let* found := fetch remote key (host_remote_key host (default key alias)) in
      match found with
      | Some bytes => if bool_decide (is_Some alias) then decode_fetched key bytes else stm_ret bytes
      | None =>
        let* legacy := (if rm_is_master_proxy remote && bool_decide (is_Some alias)
                        then fetch remote key (host_remote_key host key) else stm_ret None) in
        match legacy with
        | Some bytes => stm_ret bytes
        | None => stm_fail (failure key "missing")
        end
      end
    end
  else
    let* found := fetch remote key key in
    match found with
    | Some bytes => stm_ret bytes
    | None =>
      match canonical_remote_alias key with
      | None => stm_fail (failure key "missing")
      | Some alias =>
        let* other := fetch remote key alias in
        match other with
        | Some bytes => decode_fetched key bytes
        | None => stm_fail (failure key "missing")
        end
      end
    end.
End Objects.

(** ** Properties of the canonical form *)

Section Canonical.
Context `{!ObjectCodec, !ObjectCodecLaws, !Zstd, !ZstdLaws, !Serde TreeNodeManifest, !Serde TreeManifest,
          !Serde PackIndex, !Serde LargeManifest, !Serde SnapshotManifest, !ManifestValue}.

(** What a decoded remote object is read as. *)
Definition read_export {T} `{!Serde T} (compressed : list Z) : result T string :=
  match zstd_decode_all_limited compressed REMOTE_METADATA_DECODE_LIMIT "canonical remote export" with
  | Ok cbor => match cbor_from_slice cbor with Some v => Ok v | None => Err "cbor" end
  | Err _ =>
    match cbor_from_slice compressed with
    | Some value => Ok value
    | None => match json_from_slice compressed with Some v => Ok v | None => Err "json" end
    end
  end.

Lemma decode_canonical_run {T} `{!Serde T} c plain s s' :
  oc_decode c s = (Done plain, s') →
  decode_canonical_remote_export (T := T) c s = (outcome_of_result (read_export plain), s').
Proof.
  intros Hd. unfold decode_canonical_remote_export, read_export, stm_bind. rewrite Hd.
  destruct (zstd_decode_all_limited plain _ _) as [cbor|]; [by destruct (cbor_from_slice cbor)|].
  destruct (cbor_from_slice plain); [done|]. by destruct (json_from_slice plain).
Qed.

(** A value whose compressed CBOR can be stored; and one whose CBOR a download accepts.  The
    upload does not look at the size. *)
Definition exportable {T} `{!Serde T} (v : T) : Prop := ∃ z, zstd_encode_all (cbor_to_vec v) 3 = Ok z ∧ oc_safe z.
Definition fits {T} `{!Serde T} (v : T) : Prop := Z.of_nat (length (cbor_to_vec v)) <= REMOTE_METADATA_DECODE_LIMIT.

Lemma read_export_cbor {T} `{!Serde T, !SerdeLaws T} (v : T) z cbor :
  zstd_encode_all cbor 3 = Ok z → cbor_from_slice cbor = Some v →
  Z.of_nat (length cbor) <= REMOTE_METADATA_DECODE_LIMIT → read_export z = Ok v.
Proof.
  intros Hz Hv Hlen. unfold read_export, zstd_decode_all_limited.
  rewrite (zstd_roundtrip _ _ _ Hz). simpl.
  destruct (Z.ltb_spec REMOTE_METADATA_DECODE_LIMIT (Z.of_nat (length cbor))); [lia|]. by rewrite Hv.
Qed.

Lemma export_run {T} `{!Serde T, !SerdeLaws T} (v : T) s :
  oc_inv s → exportable v → fits v →
  ∃ c s', encode_canonical_remote_export v s = (Done c, s') ∧ oc_inv s' ∧
    ∀ s1, oc_inv s1 → ∃ s2, decode_canonical_remote_export (T := T) c s1 = (Done v, s2) ∧ oc_inv s2.
Proof.
  intros Hs (z & Hz & Hsafe) Hlen. destruct (oc_encode_spec s z Hs Hsafe) as (c & s' & Henc & Hs' & Hdec).
  exists c, s'. split; [|split; [done|]].
  - unfold encode_canonical_remote_export, stm_bind, stm_ok, stm_lift. by rewrite Hz.
  - intros s1 Hs1. destruct (Hdec s1 Hs1) as (s2 & Hd & Hs2). exists s2. split; [|done].
    rewrite (decode_canonical_run _ _ _ _ Hd). by rewrite (read_export_cbor v z (cbor_to_vec v)) by (done || apply cbor_roundtrip).
Qed.

(** A value over the limit is uploaded, and its download fails (when its compressed form reads
    neither as CBOR nor as JSON of the type). *)
Theorem oversized_export_unreadable {T} `{!Serde T} (v : T) z s :
  oc_inv s → zstd_encode_all (cbor_to_vec v) 3 = Ok z → oc_safe z → ¬ fits v →
  cbor_from_slice (T := T) z = None → json_from_slice (T := T) z = None →
  ∃ c s', encode_canonical_remote_export v s = (Done c, s') ∧
    ∀ s1, oc_inv s1 → ∃ s2, decode_canonical_remote_export (T := T) c s1 = (Fails "json", s2).
Proof.
  unfold fits. intros Hs Hz Hsafe Hlen Hcbor Hjson.
  destruct (oc_encode_spec s z Hs Hsafe) as (c & s' & Henc & _ & Hdec). exists c, s'. split.
  - unfold encode_canonical_remote_export, stm_bind, stm_ok, stm_lift. by rewrite Hz.
  - intros s1 Hs1. destruct (Hdec s1 Hs1) as (s2 & Hd & _). exists s2. rewrite (decode_canonical_run _ _ _ _ Hd).
    unfold read_export, zstd_decode_all_limited. rewrite (zstd_roundtrip _ _ _ Hz). simpl.
    destruct (Z.ltb_spec REMOTE_METADATA_DECODE_LIMIT (Z.of_nat (length (cbor_to_vec v)))); [|lia]. by rewrite Hcbor, Hjson.
Qed.

Context `{!SerdeLaws TreeNodeManifest, !SerdeLaws TreeManifest, !SerdeLaws PackIndex, !SerdeLaws LargeManifest}.

(** The value that an object under the key holds: it can be exported, [bytes] is a
    JSON text of it, and so is [bytes'], which can be stored. *)
Definition holds (T : Type) `{!Serde T} (bytes bytes' : list Z) : Prop :=
  ∃ v : T, exportable v ∧ json_from_slice bytes = Some v ∧ json_from_slice bytes' = Some v.
(** Within the 128 MiB of CBOR a download accepts. *)
Definition within (T : Type) `{!Serde T} (bytes : list Z) : Prop := ∀ v : T, json_from_slice bytes = Some v → fits v.

Lemma structured_run {T} `{!Serde T, !SerdeLaws T} label bytes s (print : T → list Z) :
  (∀ v, json_from_slice (print v) = Some v) → (∀ v, oc_safe (print v)) →
  oc_inv s → holds T bytes bytes → within T bytes →
  ∃ c s', (let* m := stm_some label (json_from_slice (T := T) bytes) in encode_canonical_remote_export m) s = (Done c, s') ∧
    oc_inv s' ∧
    ∀ s1, oc_inv s1 → ∃ l bytes' s2,
      (let* m := decode_canonical_remote_export (T := T) c in oc_encode (print m)) s1 = (Done l, s2) ∧
      oc_inv s2 ∧ decodes_to l bytes' ∧ holds T bytes bytes'.
Proof.
  intros Hprint Hsafe Hs (v & He & Hb & _) Hfit. destruct (export_run v s Hs He (Hfit v Hb)) as (c & s' & Hc & Hs' & Hd).
  exists c, s'. split; [|split; [done|]].
  - unfold stm_bind. rewrite Hb. done.
  - intros s1 Hs1. destruct (Hd s1 Hs1) as (s2 & Hr & Hs2).
    destruct (oc_encode_spec s2 (print v) Hs2 (Hsafe v)) as (l & s3 & Hl & Hs3 & Hdl).
    exists l, (print v), s3. split; [|split; [done|split; [exact Hdl|]]].
    + unfold stm_bind. by rewrite Hr.
    + exists v. auto.
Qed.

Definition same_object (key : string) (bytes bytes' : list Z) : Prop :=
  if starts_with key "objects/trees/nodes/" then holds TreeNodeManifest bytes bytes'
  else if starts_with key "objects/trees/" then holds TreeManifest bytes bytes'
  else if starts_with key "objects/indexes/pack/" then holds PackIndex bytes bytes'
  else holds LargeManifest bytes bytes'.
Definition within_decode_limit (key : string) (bytes : list Z) : Prop :=
  if starts_with key "objects/trees/nodes/" then within TreeNodeManifest bytes
  else if starts_with key "objects/trees/" then within TreeManifest bytes
  else if starts_with key "objects/indexes/pack/" then within PackIndex bytes
  else within LargeManifest bytes.

(** The JSON texts of values can be stored. *)
Definition printable (key : string) : Prop :=
  if starts_with key "objects/trees/nodes/" then ∀ v : TreeNodeManifest, oc_safe (json_to_vec v)
  else if starts_with key "objects/trees/" then ∀ v : TreeManifest, oc_safe (json_to_vec v)
  else if starts_with key "objects/indexes/pack/" then True
  else ∀ v : LargeManifest, oc_safe (json_to_vec_pretty v).

(** The file of a pack index is not encoded, the other structured objects are. *)
Definition local_form (key : string) (file bytes : list Z) : Prop :=
  if starts_with key "objects/indexes/pack/" then file = bytes else decodes_to file bytes.

Definition structured_key (key : string) : Prop :=
  starts_with key "objects/trees/" = true ∨ starts_with key "objects/indexes/pack/" = true
  ∨ starts_with key "objects/large/manifests/" = true.

(** A text starts with at most one of two prefixes neither of which is one of the other. *)
Lemma other_prefix key p q :
  starts_with key p = true → (∀ r, starts_with (p +:+ r) q = false) → starts_with key q = false.
Proof. intros [r ->]%starts_with_true Hq. apply Hq. Qed.

Lemma structured_prefixes key :
  structured_key key → starts_with key "objects/blobs/" = false ∧
  (starts_with key "objects/trees/" = true → starts_with key "objects/indexes/pack/" = false) ∧
  (starts_with key "objects/trees/nodes/" = true → starts_with key "objects/trees/" = true) ∧
  (starts_with key "objects/trees/" = false → starts_with key "objects/indexes/pack/" = false →
   starts_with key "objects/large/manifests/" = true).
Proof.
  intros Hk. split_and!.
  - destruct Hk as [Hk|[Hk|Hk]]; by eapply other_prefix.
  - intros Ht. by eapply other_prefix.
  - intros [r ->]%starts_with_true. done.
  - intros Ht Hi. destruct Hk as [Hk|[Hk|Hk]]; congruence.
Qed.

(** C33. Uploading a structured object in its canonical form and downloading it again
    gives a local file that holds the same value, for trees, tree nodes, pack indexes
    and large-file manifests, and whatever objects were encoded in between, for a value whose
    CBOR has at most the 128 MiB a download accepts.  The upload does not check this limit:
    [oversized_export_unreadable] shows what becomes of a larger value.  Snapshot manifests,
    which are stored among the blobs, are not among these keys. *)
Theorem canonical_roundtrip key bytes s :
  structured_key key → printable key → same_object key bytes bytes → within_decode_limit key bytes → oc_inv s →
  ∃ c s', encode_canonical_local_object key bytes false s = (Done c, s') ∧ oc_inv s' ∧
    ∀ s1, oc_inv s1 → ∃ file bytes' s2,
      canonical_remote_object_to_local_bytes key c s1 = (Done file, s2) ∧ oc_inv s2 ∧
      local_form key file bytes' ∧ same_object key bytes bytes'.
Proof.
  intros Hk Hprint Hsame Hfit Hs. destruct (structured_prefixes key Hk) as (Hblob & Hti & Hnt & Hl).
  unfold encode_canonical_local_object, canonical_remote_object_to_local_bytes, local_form, printable, same_object, within_decode_limit in *.
  rewrite Hblob.
  destruct (starts_with key "objects/trees/nodes/") eqn:Hn.
  { rewrite (Hti (Hnt eq_refl)). apply structured_run; auto using json_roundtrip. }
  destruct (starts_with key "objects/trees/") eqn:Ht.
  { rewrite (Hti eq_refl). apply structured_run; auto using json_roundtrip. }
  destruct (starts_with key "objects/indexes/pack/") eqn:Hi.
  2:{ rewrite (Hl eq_refl eq_refl). apply structured_run; auto using json_pretty_roundtrip. }
  destruct Hsame as (v & Hv & Hb & _). destruct (export_run v s Hs Hv (Hfit v Hb)) as (c & s' & Hc & Hs' & Hd).
  exists c, s'. split; [unfold stm_bind; by rewrite Hb|]. split; [done|]. intros s1 Hs1.
  destruct (Hd s1 Hs1) as (s2 & Hr & Hs2). exists (json_to_vec_pretty v), (json_to_vec_pretty v), s2.
  unfold stm_bind, stm_ret. rewrite Hr. split; [done|]. split; [done|]. split; [done|].
  exists v. split; [done|]. split; [done|apply json_pretty_roundtrip].
Qed.

(** *** Blobs *)

(** The bytes of a blob read as a snapshot manifest without records. *)
Definition looks_compact (bytes : list Z) : option SnapshotManifest :=
  match read_export (T := SnapshotManifest) bytes with
  | Ok m => if is_plausible_snapshot_manifest m && bool_decide (sm_roots m = []) && bool_decide (sm_root_trees m ≠ [])
            then Some m else None
  | Err _ => None
  end.

Lemma compact_run c bytes s s' :
  oc_decode c s = (Done bytes, s') →
  compact_snapshot_manifest_to_local_bytes c s =
    match looks_compact bytes with
    | None => (Done None, s')
    | Some m => (let* local := encode_compact_snapshot_manifest_for_local m in stm_ret (Some local)) s'
    end.
Proof.
  intros Hd. unfold compact_snapshot_manifest_to_local_bytes, looks_compact. unfold stm_bind at 1, try_ok.
  rewrite (decode_canonical_run _ _ _ _ Hd). destruct (read_export bytes) as [m|e]; simpl; [|done].
  destruct (is_plausible_snapshot_manifest m); simpl; [|done].
  destruct (sm_roots m), (sm_root_trees m); done.
Qed.

Lemma blob_prefixes key : starts_with key "objects/blobs/" = true →
  starts_with key "objects/trees/nodes/" = false ∧ starts_with key "objects/trees/" = false ∧
  starts_with key "objects/indexes/pack/" = false ∧ starts_with key "objects/large/manifests/" = false.
Proof. intros Hk. split_and!; by eapply other_prefix. Qed.

Lemma blob_upload_run key bytes s :
  starts_with key "objects/blobs/" = true → oc_inv s → oc_safe bytes →
  ∃ c s', encode_canonical_local_object key bytes false s = (Done c, s') ∧ oc_inv s' ∧ decodes_to c bytes.
Proof.
  intros Hk Hs Hsafe. destruct (blob_prefixes key Hk) as (Hn & Ht & Hi & Hl).
  destruct (oc_encode_spec s bytes Hs Hsafe) as (c & s' & Hc & Hs' & Hd).
  exists c, s'. unfold encode_canonical_local_object. rewrite Hn, Ht, Hi, Hl. done.
Qed.

(** A blob whose bytes do not read as a snapshot manifest comes back unchanged. *)
Lemma blob_roundtrip key bytes s :
  starts_with key "objects/blobs/" = true → looks_compact bytes = None → oc_safe bytes → oc_inv s →
  ∃ c s', encode_canonical_local_object key bytes false s = (Done c, s') ∧ oc_inv s' ∧
    ∀ s1, oc_inv s1 → ∃ s2, canonical_remote_object_to_local_bytes key c s1 = (Done c, s2) ∧ oc_inv s2 ∧
      decodes_to c bytes.
Proof.
  intros Hk Hlook Hsafe Hs. destruct (blob_upload_run key bytes s Hk Hs Hsafe) as (c & s' & Hc & Hs' & Hd).
  exists c, s'. split; [done|]. split; [done|]. intros s1 Hs1. destruct (Hd s1 Hs1) as (s2 & Hd1 & Hs2).
  exists s2. split; [|done]. unfold canonical_remote_object_to_local_bytes, stm_bind.
  destruct (blob_prefixes key Hk) as (Hn & Ht & Hi & Hl).
  rewrite Hk, (compact_run _ _ _ _ Hd1), Hlook, Hn, Ht, Hi, Hl. done.
Qed.

(** A file of the user that reads as a snapshot manifest without records is
    rewritten on its way back from the remote: the object downloaded under its key
    decodes to a freshly printed manifest instead of the bytes that were uploaded.
    The download decides by the look of the bytes; the table of snapshots is not
    asked. *)
Theorem manifest_lookalike_rewritten key bytes m s :
  starts_with key "objects/blobs/" = true → looks_compact bytes = Some m → oc_safe bytes → oc_inv s →
  oc_safe (value_to_json_pretty (compact_snapshot_manifest_value m)) →
  ∃ c s', encode_canonical_local_object key bytes false s = (Done c, s') ∧ decodes_to c bytes ∧
    ∀ s1, oc_inv s1 → ∃ file s2, canonical_remote_object_to_local_bytes key c s1 = (Done file, s2) ∧
      decodes_to file (value_to_json_pretty (compact_snapshot_manifest_value m)).
Proof.
  intros Hk Hlook Hsafe Hs Hsafe'. destruct (blob_upload_run key bytes s Hk Hs Hsafe) as (c & s' & Hc & Hs' & Hd).
  exists c, s'. split; [done|]. split; [done|]. intros s1 Hs1. destruct (Hd s1 Hs1) as (s2 & Hd1 & Hs2).
  destruct (oc_encode_spec s2 _ Hs2 Hsafe') as (l & s3 & Hl & Hs3 & Hdl).
  exists l, s3. split; [|exact Hdl]. unfold canonical_remote_object_to_local_bytes, stm_bind.
  rewrite Hk, (compact_run _ _ _ _ Hd1), Hlook. unfold encode_compact_snapshot_manifest_for_local, stm_bind.
  by rewrite Hl.
Qed.
End Canonical.

(** ** Availability and download *)

Section Download.
Context `{!ObjectCodec, !Zstd, !Serde TreeNodeManifest, !Serde TreeManifest, !Serde PackIndex,
          !Serde LargeManifest, !Serde SnapshotManifest, !ManifestValue}.
Context (remote : Remote) (host_name : option string).

Definition labelled (key e : string) : Prop :=
  ∃ kind, kind ∈ ["transport"; "missing"; "decode"; "config"; "remote"] ∧ e = failure key kind.

Lemma labelled_kind key kind :
  kind ∈ ["transport"; "missing"; "decode"; "config"; "remote"] → labelled key (failure key kind).
Proof. intros Hk. by exists kind. Qed.

Lemma fetch_errs key k : errs (labelled key) (fetch remote key k).
Proof.
  unfold fetch. destruct (rm_get_optional remote k) as [|e]; [auto with mj|]. apply errs_fail.
  apply labelled_kind, list_elem_of_In. destruct (re_transport e); simpl; tauto.
Qed.
Lemma decode_fetched_errs key b : errs (labelled key) (decode_fetched key b).
Proof.
  intros s e s'. unfold decode_fetched.
  destruct (canonical_remote_object_to_local_bytes key b s) as [[]]; intros [= <- <-].
  apply labelled_kind, list_elem_of_In. simpl. tauto.
Qed.
Lemma missing_labelled key : labelled key (failure key "missing").
Proof. apply labelled_kind, list_elem_of_In. simpl. tauto. Qed.
Lemma config_labelled key : labelled key (failure key "config").
Proof. apply labelled_kind, list_elem_of_In. simpl. tauto. Qed.
Hint Resolve fetch_errs decode_fetched_errs missing_labelled config_labelled : mj.

(** The error of a download never carries what the remote said, which may hold
    addresses and credentials: it is the message of the key validation or one of the
    five labelled causes with the key. *)
Theorem download_error_labelled key s e s' :
  download_local_object_from_remote remote host_name key s = (Fails e, s') →
  validate_local_object_key key = Err e ∨ labelled key e.
Proof.
  unfold download_local_object_from_remote. unfold stm_bind at 1, stm_ok, stm_lift.
  destruct (validate_local_object_key key) as [[]|e0]; simpl; [|intros [= <- <-]; by left].
  intros Hrun. right. revert Hrun.
  lazymatch goal with |- ?m s = _ → _ => enough (errs (labelled key) m) as Hm by apply Hm end. errs_solve.
Qed.

(** The remote answers consistently: an object exists iff it can be fetched. *)
Definition consistent : Prop :=
  ∀ k, match rm_get_optional remote k with
       | Ok found => rm_exists remote k = Ok (bool_decide (is_Some found))
       | Err e => rm_exists remote k = Err e
       end.

Definition reports_missing (key : string) (s : codec_state) : Prop :=
  (download_local_object_from_remote remote host_name key s).1 = Fails (failure key "missing").

Lemma decode_not_missing key b s : (decode_fetched key b s).1 ≠ Fails (failure key "missing").
Proof.
  unfold decode_fetched. destruct (canonical_remote_object_to_local_bytes key b s) as [[] ]; simpl; done.
Qed.

Lemma fetch_cases key k s :
  consistent →
  (∃ b, rm_exists remote k = Ok true ∧ fetch remote key k s = (Done (Some b), s)) ∨
  (rm_exists remote k = Ok false ∧ fetch remote key k s = (Done None, s)) ∨
  (∃ e, rm_exists remote k = Err e ∧ fetch remote key k s = (Fails (remote_failure key e), s)).
Proof.
  intros Hc. specialize (Hc k). unfold fetch. destruct (rm_get_optional remote k) as [[b|]|e]; eauto 6.
Qed.

Lemma remote_failure_not_missing {A} key e :
  @Fails A string (remote_failure key e) ≠ Fails (failure key "missing").
Proof. unfold remote_failure, failure. by destruct (re_transport e). Qed.

(** One fetch and the existence test of the same key. *)
Ltac fetch_step key k s Hc :=
  let b := fresh "b" in let e := fresh "e" in let Hx := fresh "Hx" in let Hf := fresh "Hf" in
  destruct (fetch_cases key k s Hc) as [(b & Hx & Hf)|[[Hx Hf]|(e & Hx & Hf)]];
  rewrite ?Hx, ?Hf; simpl; rewrite ?Hx, ?Hf; simpl.
Ltac fetch_leaf :=
  solve [ done
        | split; [done|]; intros Hm;
          first [by apply remote_failure_not_missing in Hm | by apply decode_not_missing in Hm] ].

(** For a file remote and for the proxy of a master, an object that the
    availability check finds is never reported missing by the download, and an object
    it does not find always is. *)
Theorem available_iff_not_missing key s name :
  consistent → validate_local_object_key key = Ok tt → host_name = Some name →
  (rm_is_s3_like remote = true → rm_is_master_proxy remote = true) →
  remote_object_available_for_paths remote host_name key = Ok false ↔ reports_missing key s.
Proof.
  intros Hc Hv Hhost Hproxy.
  unfold reports_missing, download_local_object_from_remote, remote_object_available_for_paths,
    remote_object_available, remote_key_candidates_for_paths.
  unfold stm_bind, stm_ok, stm_lift. rewrite Hv, Hhost. simpl outcome_of_result. cbv iota.
  destruct (rm_is_s3_like remote) eqn:Hs3; simpl negb; cbv iota.
  - rewrite (Hproxy eq_refl). simpl andb. set (host := remote_host_label name).
    destruct (canonical_remote_alias key) as [alias|]; simpl default.
    + rewrite bool_decide_true by eauto. destruct (String.eqb_spec alias key) as [->|_]; simpl negb; cbv iota.
      * unfold result_bind, first_existing. fetch_step key (host_remote_key host key) s Hc; fetch_leaf.
      * destruct (String.eqb_spec (host_remote_key host alias) (host_remote_key host key)) as [Heq|_];
          unfold result_bind, first_existing; fetch_step key (host_remote_key host alias) s Hc; try fetch_leaf.
        -- rewrite Heq in *. rewrite Hf. done.
        -- fetch_step key (host_remote_key host key) s Hc; fetch_leaf.
    + unfold result_bind, first_existing. fetch_step key (host_remote_key host key) s Hc; fetch_leaf.
  - unfold result_bind. fetch_step key key s Hc; try fetch_leaf.
    destruct (canonical_remote_alias key) as [alias|]; [|done].
    fetch_step key alias s Hc; fetch_leaf.
Qed.

(** For a bucket that is addressed directly this fails: an object stored only
    under its plain key, as older versions did, is found by the availability check but
    reported missing by every download, so that a restore waits for it forever. *)
Theorem legacy_object_available_but_missing key alias s name :
  validate_local_object_key key = Ok tt → host_name = Some name →
  rm_is_s3_like remote = true → rm_is_master_proxy remote = false →
  canonical_remote_alias key = Some alias → alias ≠ key →
  rm_get_optional remote (host_remote_key (remote_host_label name) alias) = Ok None →
  rm_exists remote (host_remote_key (remote_host_label name) alias) = Ok false →
  rm_exists remote (host_remote_key (remote_host_label name) key) = Ok true →
  remote_object_available_for_paths remote host_name key = Ok true ∧ reports_missing key s.
Proof.
  intros Hv Hhost Hs3 Hproxy Ha Hne Hget Hx Hxk. split.
  - unfold remote_object_available_for_paths, remote_key_candidates_for_paths. rewrite Hs3, Hhost, Ha. simpl.
    destruct (String.eqb_spec alias key) as [|_]; [done|]. simpl.
    destruct (String.eqb_spec (host_remote_key (remote_host_label name) alias)
                              (host_remote_key (remote_host_label name) key)) as [Heq|_].
    + rewrite Heq in Hx. congruence.
    + simpl. rewrite Hx. simpl. by rewrite Hxk.
  - unfold reports_missing, download_local_object_from_remote, stm_bind, stm_ok, stm_lift, fetch.
    rewrite Hv, Hs3, Hhost, Ha. simpl. by rewrite Hget, Hproxy.
Qed.
End Download.

(** ** Instances for concrete runs *)

Module RemoteExample.
Import CryptoExample LargeStoreExample.

Definition payload_code (p : Payload) : nat * list string * Z * option string * bool :=
  match p with
  | Directory => (0%nat, [], 0, None, false)
  | InlineSmall a b => (1%nat, [a; b], 0, None, false)
  | NormalBlob a b => (2%nat, [a; b], 0, None, false)
  | ChunkedBlob a b n => (3%nat, [a; b], n, None, false)
  | LargeObject a b n m bin c d e f g => (4%nat, [a; b; c; d; e; f; g], n, m, bin)
  | Blob a b => (5%nat, [a; b], 0, None, false)
  | Large a b n => (6%nat, [a; b], n, None, false)
  | Symlink a => (7%nat, [a], 0, None, false)
  | Special a => (8%nat, [a], 0, None, false)
  end.
Definition payload_decode (x : nat * list string * Z * option string * bool) : Payload :=
  match x with
  | (1%nat, [a; b], _, _, _) => InlineSmall a b
  | (2%nat, [a; b], _, _, _) => NormalBlob a b
  | (3%nat, [a; b], n, _, _) => ChunkedBlob a b n
  | (4%nat, [a; b; c; d; e; f; g], n, m, bin) => LargeObject a b n m bin c d e f g
  | (5%nat, [a; b], _, _, _) => Blob a b
  | (6%nat, [a; b], n, _, _) => Large a b n
  | (7%nat, [a], _, _, _) => Symlink a
  | (8%nat, [a], _, _, _) => Special a
  | _ => Directory
  end.
#[export] Instance Payload_countable : Countable Payload.
Proof. apply (inj_countable' payload_code payload_decode). by intros []. Defined.
#[export] Instance FileRecord_countable : Countable FileRecord.
Proof.
  refine (inj_countable'
    (λ r, (fr_root_id r, fr_path r, fr_kind r, fr_size r, fr_mode r, fr_modified r, fr_uid r, fr_gid r,
           fr_xattrs r, fr_payload r))
    (λ '(a, b, c, d, e, f, g, h, i, j), {| fr_root_id := a; fr_path := b; fr_kind := c; fr_size := d;
       fr_mode := e; fr_modified := f; fr_uid := g; fr_gid := h; fr_xattrs := i; fr_payload := j |}) _). by intros [].
Defined.
#[export] Instance RootSnapshot_countable : Countable RootSnapshot.
Proof.
  refine (inj_countable' (λ r, (rs_tree_id r, rs_tree_key r, rs_file_count r))
    (λ '(a, b, c), {| rs_tree_id := a; rs_tree_key := b; rs_file_count := c |}) _). by intros [].
Defined.
#[export] Instance TreeNodeRef_countable : Countable TreeNodeRef.
Proof.
  refine (inj_countable' (λ r, (tnr_node_id r, tnr_node_key r, tnr_file_count r, tnr_total_size r))
    (λ '(a, b, c, d), {| tnr_node_id := a; tnr_node_key := b; tnr_file_count := c; tnr_total_size := d |}) _).
  by intros [].
Defined.
#[export] Instance SnapshotManifest_eq_dec : EqDecision SnapshotManifest.
Proof. solve_decision. Defined.
#[export] Instance SnapshotManifest_countable : Countable SnapshotManifest.
Proof.
  refine (inj_countable'
    (λ m, (sm_snapshot_id m, sm_parent m, sm_op_id m, sm_timestamp m : Z, sm_root_trees m, sm_roots m))
    (λ '(a, b, c, d, e, f), {| sm_snapshot_id := a; sm_parent := b; sm_op_id := c; sm_timestamp := d;
       sm_root_trees := e; sm_roots := f |}) _). by intros [].
Defined.
#[export] Instance TreeManifest_eq_dec : EqDecision TreeManifest.
Proof. solve_decision. Defined.
#[export] Instance TreeManifest_countable : Countable TreeManifest.
Proof.
  refine (inj_countable'
    (λ m, (tm_version m, tm_tree_id m, tm_root_id m, tm_created_at m : Z, tm_root_node m, tm_subtree_nodes m, tm_entries m))
    (λ '(a, b, c, d, e, f, g), {| tm_version := a; tm_tree_id := b; tm_root_id := c; tm_created_at := d;
       tm_root_node := e; tm_subtree_nodes := f; tm_entries := g |}) _). by intros [].
Defined.
#[export] Instance TreeNodeManifest_eq_dec : EqDecision TreeNodeManifest.
Proof. solve_decision. Defined.
#[export] Instance TreeNodeManifest_countable : Countable TreeNodeManifest.
Proof.
  refine (inj_countable'
    (λ m, (tn_version m, tn_node_id m, tn_root_id m, tn_path m, tn_created_at m : Z, tn_file_count m,
           tn_total_size m, tn_child_nodes m, tn_entries m))
    (λ '(a, b, c, d, e, f, g, h, i), {| tn_version := a; tn_node_id := b; tn_root_id := c; tn_path := d;
       tn_created_at := e; tn_file_count := f; tn_total_size := g; tn_child_nodes := h; tn_entries := i |}) _).
  by intros [].
Defined.
#[export] Instance PackEntry_eq_dec : EqDecision PackEntry.
Proof. solve_decision. Defined.
#[export] Instance PackEntry_countable : Countable PackEntry.
Proof.
  refine (inj_countable' (λ r, (pe_oid r, pe_offset r, pe_len r))
    (λ '(a, b, c), {| pe_oid := a; pe_offset := b; pe_len := c |}) _). by intros [].
Defined.
#[export] Instance PackIndex_eq_dec : EqDecision PackIndex.
Proof. solve_decision. Defined.
#[export] Instance PackIndex_countable : Countable PackIndex.
Proof.
  refine (inj_countable' (λ r, (px_version r, px_pack_id r, px_pack_key r, px_entries r))
    (λ '(a, b, c, d), {| px_version := a; px_pack_id := b; px_pack_key := c; px_entries := d |}) _). by intros [].
Defined.

(** A value as one number, pretty printing adding a line break. *)
#[export] Instance ex_serde {T} `{Countable T} : Serde T := {|
  cbor_to_vec v := [Zpos (encode v)];
  cbor_from_slice b := match b with [Zpos n] => decode n | _ => None end;
  json_to_vec v := [Zpos (encode v)];
  json_to_vec_pretty v := [Zpos (encode v); 10];
  json_from_slice b := match b with [Zpos n] | [Zpos n; 10] => decode n | _ => None end;
|}.
#[export] Instance ex_serde_laws {T} `{Countable T} : SerdeLaws T.
Proof. split; intros x; simpl; apply decode_encode. Qed.

#[export] Instance ex_value : ManifestValue := {|
  jvalue := positive; jv_empty_object := 1%positive; jv_true := 2%positive;
  manifest_to_value m := [("manifest", encode m)];
  value_to_cbor o := [Zpos (encode o)];
  value_to_json_pretty o := [Zpos (encode o); 10];
|}.

Lemma ex_safe2 (b : Z) (r : list Z) : (length r <= 5)%nat → oc_safe (b :: r).
Proof.
  intros Hr. apply plain_crypto_safe; [by right|]. unfold has_magic, bytes_starts_with.
  do 6 (destruct r as [|? r]; [rewrite !bool_decide_eq_false_2 by discriminate; reflexivity|]). simpl in Hr. lia.
Qed.

Lemma ex_exportable {T} `{Countable T} (v : T) : exportable v.
Proof.
  exists [0; Zpos (encode v); 1]. split; [reflexivity|]. apply ex_safe2. simpl. lia.
Qed.

Definition ex_manifest : LargeManifest := {|
  lm_version := 1; lm_oid := "o"; lm_size := 3; lm_media_type := None; lm_binary := true;
  lm_chunking := "fixed"; lm_chunk_size := 8; lm_chunks := [] |}.

Lemma canonical_roundtrip_witness :
  let key := "objects/large/manifests/aa/bb" in
  let bytes := json_to_vec_pretty ex_manifest in
  ∃ c s', encode_canonical_local_object key bytes false ex_keys = (Done c, s') ∧
    ∃ file bytes' s2, canonical_remote_object_to_local_bytes key c s' = (Done file, s2) ∧
      json_from_slice bytes' = Some ex_manifest.
Proof.
  intros key bytes.
  destruct (canonical_roundtrip (H := ex_codec) key bytes ex_keys) as (c & s' & Hc & Hs' & Hd).
  - right. right. reflexivity.
  - intros v. apply ex_safe2. simpl. lia.
  - exists ex_manifest. split; [apply ex_exportable|]. split; apply json_pretty_roundtrip.
  - intros v _. vm_compute. discriminate.
  - apply ex_key_inv.
  - exists c, s'. split; [exact Hc|]. destruct (Hd s' Hs') as (file & bytes' & s2 & Hf & _ & _ & (v & _ & Hb & Hb')).
    exists file, bytes', s2. split; [exact Hf|].
    rewrite Hb'. rewrite <-Hb. apply json_pretty_roundtrip.
Defined.

(** A user's JSON file that looks like a manifest. *)
Definition ex_lookalike : SnapshotManifest := {|
  sm_snapshot_id := "snap-1"; sm_parent := None; sm_op_id := "op-1"; sm_timestamp := 0;
  sm_root_trees := [("r", {| rs_tree_id := "t"; rs_tree_key := "objects/trees/t"; rs_file_count := 1 |})];
  sm_roots := [] |}.

Lemma manifest_lookalike_rewritten_witness :
  let key := "objects/blobs/aa/bb" in
  let bytes := json_to_vec ex_lookalike in
  ∃ c s', encode_canonical_local_object key bytes false ex_keys = (Done c, s') ∧ decodes_to c bytes ∧
    ∃ file s2, canonical_remote_object_to_local_bytes key c s' = (Done file, s2).
Proof.
  intros key bytes.
  assert (Hs : oc_safe bytes) by (apply ex_safe2; simpl; lia).
  destruct (manifest_lookalike_rewritten (H := ex_codec) key bytes ex_lookalike ex_keys) as (c & s' & Hc & Hdec & Hd).
  - reflexivity.
  - vm_compute. reflexivity.
  - exact Hs.
  - apply ex_key_inv.
  - apply ex_safe2. simpl. lia.
  - exists c, s'. split; [exact Hc|]. split; [exact Hdec|].
    assert (s' = ex_keys) as -> by (injection Hc; intros; congruence).
    destruct (Hd ex_keys ex_key_inv) as (file & s2 & Hf & _). exists file, s2. exact Hf.
Defined.

(** A bucket that holds one object under its plain key only. *)
Definition ex_bucket (s3 proxy : bool) (stored : string) : Remote := {|
  rm_is_s3_like := s3; rm_is_master_proxy := proxy;
  rm_exists k := Ok (k =? stored)%string;
  rm_get_optional k := Ok (if (k =? stored)%string then Some [1; 2] else None);
  rm_get_range k o n := Ok []; rm_restore_archive k := Ok false |}.

Lemma download_error_labelled_witness :
  labelled "objects/blobs/aa/bb" "[mj-object-fetch:missing] key=objects/blobs/aa/bb".
Proof.
  destruct (download_error_labelled (H := ex_codec) (ex_bucket false false "x") (Some "h") "objects/blobs/aa/bb" ex_keys
    "[mj-object-fetch:missing] key=objects/blobs/aa/bb" ex_keys) as [Hv|Hl].
  - vm_compute. reflexivity.
  - discriminate Hv.
  - exact Hl.
Defined.

Lemma available_iff_not_missing_witness :
  reports_missing (H := ex_codec) (ex_bucket true true "x") (Some "h") "objects/blobs/aa/bb" ex_keys.
Proof.
  apply (available_iff_not_missing (H := ex_codec) (ex_bucket true true "x") (Some "h") "objects/blobs/aa/bb" ex_keys "h").
  - intros k. simpl. by destruct (k =? "x")%string.
  - reflexivity.
  - reflexivity.
  - reflexivity.
  - vm_compute. reflexivity.
Defined.

Lemma legacy_object_available_but_missing_witness :
  let remote := ex_bucket true false "h/objects/blobs/aa/bb" in
  remote_object_available_for_paths remote (Some "h") "objects/blobs/aa/bb" = Ok true ∧
  reports_missing (H := ex_codec) remote (Some "h") "objects/blobs/aa/bb" ex_keys.
Proof.
  intros remote.
  apply (legacy_object_available_but_missing (H := ex_codec) remote (Some "h") "objects/blobs/aa/bb" "blobs/loose/aa/bb.blob.enc"
    ex_keys "h"); vm_compute; first [reflexivity | discriminate].
Defined.
End RemoteExample.
