(* ===== verification/Trees.v ===== *)
(** * Snapshot trees

    How the entries of a root are stored and loaded: [build_tree_manifest] to
    [store_tree_node] of [src/main.rs] cut the entries into a tree of content-addressed
    node objects (tree format v2) or keep them in one object (v1); [src/snapshot_state.rs]
    reads them back. *)

From S2P Require Import Prelude RStr BTree MachInt Core Util Config Large Crypto Store LargeStore RemoteObjects.

Local Open Scope Z_scope.

(** ** Maps *)

(** [BTreeMap::extend] *)
Definition bmap_extend {V} (m l : list (string * V)) : list (string * V) :=
  fold_left (λ m kv, bmap_insert kv.1 kv.2 m) l m.

Abbreviation entries_map := (list (string * FileRecord)).
Abbreviation nodes_map := (list (string * TreeNodeRef)).

(** ** The tree of directories *)

Inductive TreeNodeBuild :=
| TNB (entries : entries_map) (children : list (string * TreeNodeBuild)) (file_count : nat).

Definition tnb_default : TreeNodeBuild := TNB [] [] 0.
Definition tnb_count (n : TreeNodeBuild) : nat := match n with TNB _ _ c => c end.

(** [path.rsplit_once('/')]: the part before the last slash. *)
Definition parent_path (path : string) : string := join "/" (removelast (split slash path)).
Definition join_tree_path (parent child : string) : string :=
  if is_empty parent then child else parent +:+ "/" +:+ child.

Fixpoint tnb_insert_at (components : list string) (path : string) (record : FileRecord) (n : TreeNodeBuild)
    : TreeNodeBuild :=
  match n with
  | TNB entries children count =>
    match components with
    | [] => TNB (bmap_insert path record entries) children count
    | c :: cs =>
      let child := default tnb_default (bmap_get children c) in
      TNB entries (bmap_insert c (tnb_insert_at cs path record child) children) count
    end
  end.

Definition tnb_insert (n : TreeNodeBuild) (path : string) (record : FileRecord) : TreeNodeBuild :=
  let parent := parent_path path in
  tnb_insert_at (if is_empty parent then [] else split slash parent) path record n.

Fixpoint recount (n : TreeNodeBuild) : TreeNodeBuild :=
  match n with
  | TNB entries children _ =>
    let children' := map (λ p, (p.1, recount p.2)) children in
    TNB entries children' (length entries + list_sum (map (λ p, tnb_count p.2) children'))
  end.

Definition from_entries (entries : entries_map) : TreeNodeBuild :=
  recount (fold_left (λ n e, tnb_insert n e.1 e.2) entries tnb_default).

(** ** Storing *)

(** What the environment of the process says about the tree format. *)
Record TreeEnv := {
  te_store : StoreEnv;
  te_subtree_nodes : option string;
  te_subtree_node_min_entries : option string;
  te_format : option string;
  te_reuse_root_trees : option string;
}.

Definition truthy (value : string) : bool := existsb (String.eqb value) ["1"; "true"; "TRUE"; "yes"; "YES"].
Definition tree_subtree_nodes_enabled (env : TreeEnv) : bool :=
  match te_subtree_nodes env with Some v => truthy v | None => false end.
Definition tree_format_v2_enabled (env : TreeEnv) : bool :=
  match te_format env with Some v => (to_ascii_lowercase v =? "v2")%string | None => false end.
Definition snapshot_reuse_root_trees (env : TreeEnv) : bool :=
  match te_reuse_root_trees env with Some v => truthy v | None => true end.
Definition subtree_node_min_entries (env : TreeEnv) : nat :=
  match te_subtree_node_min_entries env ≫= parse_unsigned (2 ^ 64 - 1) with
  | Some n => N.to_nat n
  | None => 128
  end.

Section Trees.
Context `{!ObjectCodec, !Blake3, !Serde TreeNodeManifest, !Serde TreeManifest, !Serde entries_map,
          !Serde (string * string * entries_map * nodes_map)}.
Context (env : TreeEnv).

Abbreviation store_m := (stm StoreWorld).

Definition trees_base : string := "objects/trees".
Definition tree_nodes_base : string := "objects/trees/nodes".

Definition tree_id_of (entries : entries_map) : string := "tree-" +:+ blake3_hex (json_to_vec entries).

Definition build_tree_manifest (now : DateTime) (root_id : string) (records : list FileRecord) : TreeManifest :=
  let entries := bmap_of_list (map (λ r, (fr_path r, r)) records) in
  {| tm_version := 1; tm_tree_id := tree_id_of entries; tm_root_id := root_id; tm_created_at := now;
     tm_root_node := None; tm_subtree_nodes := []; tm_entries := entries |}.

(** The sizes of the entries saturate, those of the children wrap. *)
Definition node_total_size (entries : entries_map) (child_nodes : nodes_map) : Z :=
  wadd (fold_left (λ sum e, if bool_decide (fr_payload e.2 = Directory) then sum
                            else saturating_add sum (fr_size e.2)) entries 0)
       (fold_left (λ sum c, wadd sum (tnr_total_size c.2)) child_nodes 0).

Definition node_manifest (root_id path : string) (entries : entries_map) (child_nodes : nodes_map)
    : TreeNodeManifest :=
  {| tn_version := 2; tn_node_id := "node-" +:+ blake3_hex (json_to_vec (root_id, path, entries, child_nodes));
     tn_root_id := root_id; tn_path := path; tn_created_at := 0;
     tn_file_count := fold_left (λ sum c, sum + tnr_file_count c.2) child_nodes (Z.of_nat (length entries));
     tn_total_size := node_total_size entries child_nodes;
     tn_child_nodes := child_nodes; tn_entries := entries |}.

(** The loop over the children of a node, small ones left out. *)
Definition store_children (store : string → TreeNodeBuild → store_m TreeNodeRef) (path : string) (threshold : nat)
    : nodes_map → list (string * TreeNodeBuild) → store_m nodes_map :=
  fix go acc cs :=
    match cs with
    | [] => stm_ret acc
    | (name, child) :: rest =>
      if (tnb_count child <? threshold)%nat then go acc rest else
      let child_path := join_tree_path path name in
      let* ref := store child_path child in
      go (bmap_insert child_path ref acc) rest
    end.

Fixpoint store_tree_node (root_id path : string) (node : TreeNodeBuild) (threshold : nat) : store_m TreeNodeRef :=
  match node with
  | TNB entries children _ =>
    let* child_nodes := store_children (λ p c, store_tree_node root_id p c threshold) path threshold [] children in
    let manifest := node_manifest root_id path entries child_nodes in
    let node_json := json_to_vec manifest in
    let* node_key := store_bytes tree_nodes_base (blake3_hex node_json) node_json in
    stm_ret {| tnr_node_id := tn_node_id manifest; tnr_node_key := node_key;
               tnr_file_count := tn_file_count manifest; tnr_total_size := tn_total_size manifest |}
  end.

Definition tm_with_nodes (tree : TreeManifest) (root_node : TreeNodeRef) (subtree_nodes : nodes_map) : TreeManifest :=
  {| tm_version := tm_version tree; tm_tree_id := tm_tree_id tree; tm_root_id := tm_root_id tree;
     tm_created_at := tm_created_at tree; tm_root_node := Some root_node; tm_subtree_nodes := subtree_nodes;
     tm_entries := tm_entries tree |}.

Definition attach_subtree_node_index_with_threshold (tree : TreeManifest) (threshold : nat)
    : store_m TreeManifest :=
  if (length (tm_entries tree) <? threshold)%nat then stm_ret tree else
  let trie := from_entries (tm_entries tree) in
  let* root_node := store_tree_node (tm_root_id tree) "" trie threshold in
  let* node_bytes := read_object (te_store env) (tnr_node_key root_node) in
  let* node := stm_some "json" (json_from_slice node_bytes : option TreeNodeManifest) in
  stm_ret (tm_with_nodes tree root_node
    (List.filter (λ c, Z.of_nat threshold <=? tnr_file_count c.2) (tn_child_nodes node))).

Definition attach_subtree_node_index (tree : TreeManifest) : store_m TreeManifest :=
  if negb (tree_subtree_nodes_enabled env) then stm_ret tree
  else attach_subtree_node_index_with_threshold tree (subtree_node_min_entries env).

Definition prepare_tree_manifest_for_storage (tree : TreeManifest) : store_m TreeManifest :=
  if tree_format_v2_enabled env then
    let* tree' := attach_subtree_node_index_with_threshold tree 0 in
    stm_ret {| tm_version := 2; tm_tree_id := tm_tree_id tree'; tm_root_id := tm_root_id tree';
               tm_created_at := tm_created_at tree'; tm_root_node := tm_root_node tree';
               tm_subtree_nodes := tm_subtree_nodes tree'; tm_entries := [] |}
  else attach_subtree_node_index tree.

(** [home.join(key).exists()]: a file, the home directory, or a directory above a file. *)
Definition object_path_exists (w : StoreWorld) (key : string) : bool :=
  bool_decide (is_Some (sw_objects w !! key)) || is_empty key
  || existsb (λ p, starts_with p (key +:+ "/")) (map fst (map_to_list (sw_objects w))).

(** The object is there, or can be downloaded; a failure counts as absent. *)
Definition reusable_local_object (key : string) : store_m bool := λ w,
  if object_path_exists w key then (Done true, w) else
  match hydrate_local_object_from_remote (te_store env) key w with
  | (Done b, w') => (Done b, w')
  | (Fails _, w') => (Done false, w')
  | (Panics, w') => (Panics, w')
  end.

(** One root of [snapshot]: the tree of its records, taken from the
    parent snapshot when nothing has changed. *)
Definition store_root_tree (now : DateTime) (previous : option RootSnapshot) (root_id : string)
    (records : list FileRecord) : store_m (RootSnapshot * entries_map) :=
  let tree := build_tree_manifest now root_id records in
  let tree_entries := tm_entries tree in
  let* tree' := prepare_tree_manifest_for_storage tree in
  let* reused :=
    match previous with
    | Some p => if (rs_tree_id p =? tm_tree_id tree')%string && snapshot_reuse_root_trees env
                then let* ok := reusable_local_object (rs_tree_key p) in
                     stm_ret (if ok : bool then Some p else None)
                else stm_ret None
    | None => stm_ret None
    end in
  match reused with
  | Some p => stm_ret (p, tree_entries)
  | None =>
    let tree_json := json_to_vec tree' in
    let* tree_key := store_bytes trees_base (blake3_hex tree_json) tree_json in
    stm_ret ({| rs_tree_id := tm_tree_id tree'; rs_tree_key := tree_key;
                rs_file_count := Z.of_nat (length tree_entries) |}, tree_entries)
  end.

(** ** Loading *)

(** The loop over the children: each is read, and its entries are added. *)
Fixpoint extend_children (below : TreeNodeManifest → store_m entries_map) (entries : entries_map)
    (children : nodes_map) : store_m entries_map :=
  match children with
  | [] => stm_ret entries
  | (_, child) :: rest =>
    let* child_bytes := read_object_raw (te_store env) (tnr_node_key child) in
    let* child_node := stm_some "parse child tree node" (json_from_slice child_bytes) in
    let* more := below child_node in
    extend_children below (bmap_extend entries more) rest
  end.

(** The recursion over the nodes is bounded by the stack: [depth] frames, after which
    the process aborts. *)
Fixpoint tree_entries_from_node (depth : nat) (node : TreeNodeManifest) : store_m entries_map :=
  match depth with
  | O => stm_lift Panics
  | S depth' => extend_children (tree_entries_from_node depth') (tn_entries node) (tn_child_nodes node)
  end.

Definition tree_entries_from_manifest (depth : nat) (tree : TreeManifest) : store_m entries_map :=
  match tm_entries tree, tm_root_node tree with
  | [], Some root_node =>
    let* node_bytes := read_object_raw (te_store env) (tnr_node_key root_node) in
    let* node := stm_some "parse root tree node" (json_from_slice node_bytes) in
    tree_entries_from_node depth node
  | entries, _ => stm_ret entries
  end.

Definition load_root_tree_entries (depth : nat) (root_tree : RootSnapshot) : store_m entries_map :=
  let* tree_bytes := read_object_raw (te_store env) (rs_tree_key root_tree) in
  let* tree := stm_some "parse root tree" (json_from_slice tree_bytes) in
  tree_entries_from_manifest depth tree.
End Trees.

(** ** Maps: extension *)

Section Maps.
Context {V : Type}.
Implicit Types m l : list (string * V).

Lemma bmap_insert_sorted k (v : V) m : bsorted m.*1 → bsorted (bmap_insert k v m).*1.
Proof. rewrite bmap_insert_keys. apply bset_insert_sorted. Qed.

Lemma bmap_insert_fresh k (v : V) m : k ∉ m.*1 → bmap_insert k v m ≡ₚ (k, v) :: m.
Proof.
  induction m as [|[k' v'] m IH]; simpl; intros Hk; [done|].
  destruct (String.compare k k') eqn:E; [|done|].
  - apply String.compare_eq_iff in E as ->. set_solver.
  - rewrite IH by set_solver. by constructor.
Qed.

(** Replacing the value of a key that is there. *)
Lemma bmap_insert_replace k (v v' : V) m :
  bsorted m.*1 → bmap_get m k = Some v → ∃ rest, m ≡ₚ (k, v) :: rest ∧ bmap_insert k v' m ≡ₚ (k, v') :: rest.
Proof.
  induction m as [|[j w] m IH]; simpl; [done|]. intros [Hj Hs]%StronglySorted_cons Hg.
  destruct (String.eqb_spec k j) as [->|Hne].
  - injection Hg as ->. rewrite str_compare_refl. by exists m.
  - destruct (IH Hs Hg) as (rest & Hm & Hi). destruct (String.compare k j) eqn:E.
    + by apply String.compare_eq_iff in E.
    + exfalso. apply bmap_get_elem_of in Hg; [|done].
      rewrite Forall_forall in Hj. apply (slt_antisym j k); [|done].
      apply Hj, list_elem_of_fmap. by exists (k, v).
    + exists ((j, w) :: rest). split; [rewrite Hm|rewrite Hi]; constructor.
Qed.

(** Inserting at the end. *)
Lemma bmap_insert_last k (v : V) m : Forall (λ j, slt j k) m.*1 → bmap_insert k v m = m ++ [(k, v)].
Proof.
  induction m as [|[j w] m IH]; simpl; intros Hm; [done|]. inversion Hm as [|? ? Hj Hm']; subst.
  apply compare_Gt in Hj. rewrite Hj. by rewrite IH.
Qed.

Lemma bmap_extend_sorted m l : bsorted m.*1 → bsorted (bmap_extend m l).*1.
Proof.
  unfold bmap_extend. revert m. induction l as [|[k v] l IH]; intros m Hm; [done|]. simpl.
  by apply IH, bmap_insert_sorted.
Qed.

Lemma bmap_extend_perm m l : NoDup (m ++ l).*1 → bmap_extend m l ≡ₚ m ++ l.
Proof.
  unfold bmap_extend. revert m. induction l as [|[k v] l IH]; intros m Hd; simpl; [by rewrite app_nil_r|].
  assert (Hp : bmap_insert k v m ≡ₚ (k, v) :: m).
  { apply bmap_insert_fresh. rewrite fmap_app, NoDup_app in Hd. set_solver. }
  rewrite IH.
  - rewrite Hp. simpl. by rewrite Permutation_middle.
  - rewrite Hp. simpl. revert Hd. rewrite !fmap_app. simpl. by rewrite <-Permutation_middle.
Qed.

Lemma bmap_sorted_unique m l : bsorted m.*1 → bsorted l.*1 → m ≡ₚ l → m = l.
Proof.
  intros Hm Hl Hp.
  assert (Hs : ∀ n : list (string * V), bsorted n.*1 → StronglySorted (λ x y, slt x.1 y.1) n).
  { clear. induction n as [|x n IH]; intros Hn; [constructor|]. apply StronglySorted_cons in Hn as [Hx Hn].
    constructor; [auto|]. change (Forall (slt x.1) n.*1) in Hx. rewrite Forall_fmap in Hx. exact Hx. }
  apply (StronglySorted_unique_strong (λ x y, slt x.1 y.1)); auto.
  intros x y _ _ Hxy Hyx. exfalso. by apply (slt_antisym x.1 y.1).
Qed.

Lemma bmap_of_list_sorted l : bsorted (bmap_of_list l).*1.
Proof. apply (bmap_extend_sorted [] l). constructor. Qed.
End Maps.

(** ** The tree of directories holds the entries *)

Section Trie.
(** An induction over the children. *)
Lemma TreeNodeBuild_ind' (P : TreeNodeBuild → Prop) :
  (∀ entries children count, Forall (λ c, P c.2) children → P (TNB entries children count)) → ∀ n, P n.
Proof.
  intros Hstep. fix IH 1. intros [entries children count]. apply Hstep.
  induction children as [|[name c] children IHc]; constructor; [apply IH|exact IHc].
Qed.

(** All entries below a node. *)
Fixpoint records (n : TreeNodeBuild) : entries_map :=
  match n with TNB entries children _ => entries ++ flat_map (λ c, records c.2) children end.

(** The children of every node are sorted by name. *)
Fixpoint trie_sorted (n : TreeNodeBuild) : Prop :=
  match n with
  | TNB entries children _ =>
    bsorted entries.*1 ∧ bsorted children.*1 ∧
    (fix all cs := match cs with [] => True | c :: cs' => trie_sorted c.2 ∧ all cs' end) children
  end.

Lemma trie_sorted_unfold entries children count :
  trie_sorted (TNB entries children count) ↔
  bsorted entries.*1 ∧ bsorted children.*1 ∧ Forall (λ c, trie_sorted c.2) children.
Proof.
  simpl. do 2 f_equiv. induction children as [|c cs IH]; [by split; constructor|].
  rewrite Forall_cons, <-IH. done.
Qed.

Lemma Forall_bmap_insert {V} (P : V → Prop) k v m :
  P v → Forall (λ c : string * V, P c.2) m → Forall (λ c, P c.2) (bmap_insert k v m).
Proof.
  intros Hv. induction m as [|[j w] m IH]; simpl; intros Hm; [by repeat constructor|].
  inversion Hm; subst. destruct (String.compare k j); repeat constructor; auto.
Qed.

Lemma Forall_bmap_get {V} (P : V → Prop) k m (v : V) :
  Forall (λ c : string * V, P c.2) m → bmap_get m k = Some v → P v.
Proof.
  induction m as [|[j w] m IH]; simpl; [done|]. intros Hm Hg. inversion Hm; subst.
  destruct (String.eqb k j); [by injection Hg as <-|auto].
Qed.

Lemma tnb_insert_at_records cs path record n :
  trie_sorted n → path ∉ (records n).*1 →
  trie_sorted (tnb_insert_at cs path record n) ∧
  records (tnb_insert_at cs path record n) ≡ₚ (path, record) :: records n.
Proof.
  revert n. induction cs as [|c cs IH]; intros [entries children count] Hs Hp;
    apply trie_sorted_unfold in Hs as (He & Hc & Hall); simpl tnb_insert_at.
  - rewrite trie_sorted_unfold. split; [by split_and!; [apply bmap_insert_sorted|..]|].
    simpl. rewrite bmap_insert_fresh; [done|]. revert Hp. simpl. rewrite fmap_app. set_solver.
  - destruct (bmap_get children c) as [child|] eqn:Hg; simpl default.
    + destruct (bmap_insert_replace c child (tnb_insert_at cs path record child) children Hc Hg)
        as (rest & Hr1 & Hr2).
      destruct (IH child) as [IH1 IH2].
      * by eapply (Forall_bmap_get trie_sorted).
      * revert Hp. simpl. rewrite Hr1. simpl. rewrite !fmap_app. set_solver.
      * rewrite trie_sorted_unfold. split.
        -- split_and!; [done|by apply bmap_insert_sorted|by apply (Forall_bmap_insert trie_sorted)].
        -- simpl. rewrite Hr2, Hr1. simpl. rewrite IH2. simpl. symmetry. apply Permutation_middle.
    + destruct (IH tnb_default) as [IH1 IH2]; [by split_and!; constructor|simpl; set_solver|].
      apply bmap_get_None in Hg. rewrite trie_sorted_unfold. split.
      * split_and!; [done|by apply bmap_insert_sorted|by apply (Forall_bmap_insert trie_sorted)].
      * simpl. rewrite bmap_insert_fresh by done. simpl. rewrite IH2. simpl. symmetry. apply Permutation_middle.
Qed.

Lemma tnb_insert_all_records es n :
  trie_sorted n → NoDup (records n ++ es).*1 →
  trie_sorted (fold_left (λ n e, tnb_insert n e.1 e.2) es n) ∧
  records (fold_left (λ n e, tnb_insert n e.1 e.2) es n) ≡ₚ records n ++ es.
Proof.
  revert n. induction es as [|[k v] es IH]; intros n Hs Hd; simpl; [by rewrite app_nil_r|].
  destruct (tnb_insert_at_records (if is_empty (parent_path k) then [] else split slash (parent_path k)) k v n)
    as [H1 H2]; [done| |].
  { rewrite fmap_app, NoDup_app in Hd. set_solver. }
  fold (tnb_insert n k v) in *. destruct (IH (tnb_insert n k v)) as [H3 H4]; [done| |].
  - rewrite H2. simpl. revert Hd. rewrite !fmap_app. simpl. by rewrite <-Permutation_middle.
  - split; [done|]. rewrite H4, H2. simpl. by rewrite Permutation_middle.
Qed.

Lemma recount_records n : records (recount n) = records n.
Proof.
  induction n as [entries children count IH] using TreeNodeBuild_ind'. simpl. f_equal.
  induction IH as [|[name c] cs Hc _ IHc]; [done|]. simpl in *. by rewrite Hc, IHc.
Qed.

Lemma recount_sorted n : trie_sorted n → trie_sorted (recount n).
Proof.
  induction n as [entries children count IH] using TreeNodeBuild_ind'.
  change (recount (TNB entries children count)) with
    (TNB entries (map (λ p, (p.1, recount p.2)) children)
       (length entries + list_sum (map (λ p, tnb_count p.2) (map (λ p, (p.1, recount p.2)) children)))).
  rewrite !trie_sorted_unfold. intros (He & Hc & Hall). split_and!; [done| |].
  - replace (map (λ p, (p.1, recount p.2)) children).*1 with children.*1; [done|].
    clear. induction children as [|[name c] cs IH]; simpl; [done|]. by f_equal.
  - rewrite Forall_map. apply Forall_forall. intros c Hin. rewrite Forall_forall in IH, Hall. by apply IH, Hall.
Qed.

Lemma from_entries_records es :
  bsorted es.*1 → trie_sorted (from_entries es) ∧ records (from_entries es) ≡ₚ es.
Proof.
  intros Hs. unfold from_entries.
  destruct (tnb_insert_all_records es tnb_default) as [H1 H2]; [by split_and!; constructor|by apply bsorted_NoDup|].
  split; [by apply recount_sorted|]. by rewrite recount_records, H2.
Qed.
End Trie.

(** ** Stored trees *)

Section Stored.
Context `{!ObjectCodec, !ObjectCodecLaws, !Blake3, !Blake3Laws, !Serde TreeNodeManifest, !SerdeLaws TreeNodeManifest,
          !Serde TreeManifest, !SerdeLaws TreeManifest}.

(** The object of a key reads as the value. *)
Definition holds_json {T} `{!Serde T} (w : StoreWorld) (key : string) (v : T) : Prop :=
  validate_local_object_key key = Ok tt ∧
  ∃ enc b, sw_objects w !! key = Some enc ∧ decodes_to enc b ∧ json_from_slice b = Some v.

(** The node object of a key and those below it hold the entries [es]. *)
Fixpoint node_at (depth : nat) (w : StoreWorld) (key : string) (es : entries_map) : Prop :=
  match depth with
  | O => False
  | S depth' => ∃ (node : TreeNodeManifest) parts, holds_json w key node ∧
      Forall2 (λ child part, node_at depth' w (tnr_node_key child.2) part) (tn_child_nodes node) parts ∧
      es = fold_left bmap_extend parts (tn_entries node)
  end.

(** The tree object of a key holds the entries [es]. *)
Definition tree_at (depth : nat) (w : StoreWorld) (key : string) (es : entries_map) : Prop :=
  ∃ tree : TreeManifest, holds_json w key tree ∧
    match tm_entries tree, tm_root_node tree with
    | [], Some root_node => node_at depth w (tnr_node_key root_node) es
    | entries, _ => es = entries
    end.

Definition extends (w w' : StoreWorld) : Prop :=
  ∀ key enc, sw_objects w !! key = Some enc → sw_objects w' !! key = Some enc.

#[global] Instance extends_refl : Reflexive extends.
Proof. by intros w key enc. Qed.
#[global] Instance extends_trans : Transitive extends.
Proof. intros x y z Hxy Hyz key enc Hk. auto. Qed.

Lemma extends_same w w' : sw_objects w' = sw_objects w → extends w w'.
Proof. intros He key enc. by rewrite He. Qed.

Lemma holds_json_extends {T} `{!Serde T} w w' key (v : T) : extends w w' → holds_json w key v → holds_json w' key v.
Proof. intros He (Hv & enc & b & Ho & ?). split; [done|]. exists enc, b. auto. Qed.

Lemma node_at_extends d w w' key es : extends w w' → node_at d w key es → node_at d w' key es.
Proof.
  revert key es. induction d as [|d IH]; intros key es He; simpl; [done|].
  intros (node & parts & Hh & Hf & ->). exists node, parts.
  split_and!; [by eapply holds_json_extends| |done]. eapply Forall2_impl; [done|]. eauto.
Qed.

Lemma tree_at_extends d w w' key es : extends w w' → tree_at d w key es → tree_at d w' key es.
Proof.
  intros He (tree & Hh & Ht). exists tree. split; [by eapply holds_json_extends|].
  destruct (tm_entries tree), (tm_root_node tree); eauto using node_at_extends.
Qed.

Lemma node_at_deeper d d' w key es : (d <= d')%nat → node_at d w key es → node_at d' w key es.
Proof.
  revert d' key es. induction d as [|d IH]; intros [|d'] key es Hd; simpl; [done|done|lia|].
  intros (node & parts & Hh & Hf & ->). exists node, parts. split_and!; [done| |done].
  eapply Forall2_impl; [done|]. intros. eapply IH; [lia|done].
Qed.

(** Reading a stored value. *)
Lemma read_json {T} `{!Serde T} env w key (v : T) :
  oc_inv (sw_codec w) → holds_json w key v →
  ∃ b c', oc_inv c' ∧ read_object_raw env key w = (Done b, sw_with_codec w c') ∧ json_from_slice b = Some v.
Proof.
  intros Hinv (Hv & enc & b & Ho & Hd & Hj). destruct (Hd _ Hinv) as (c' & Hdec & Hc').
  exists b, c'. split_and!; [done| |done]. unfold read_object_raw, stm_bind, stm_ok, stm_lift, outcome_of_result, stm_get.
  rewrite Hv, Ho. unfold stm_ret. cbn [negb]. rewrite Ho. unfold stm_some, stm_ret, codec. by rewrite Hdec.
Qed.

(** Objects are named by what they hold. *)
Definition named_by_content (T : Type) `{!Serde T} (base : string) (w : StoreWorld) : Prop :=
  ∀ (v : T) enc, sw_objects w !! object_key_of base (blake3_hex (json_to_vec v)) = Some enc →
    decodes_to enc (json_to_vec v).

Lemma named_by_content_frame T `{!Serde T} base w w' key :
  named_by_content T base w → (∀ k, k ≠ key → sw_objects w' !! k = sw_objects w !! k) →
  (∀ v : T, object_key_of base (blake3_hex (json_to_vec v)) ≠ key) → named_by_content T base w'.
Proof. intros Hn Hf Hk v enc. rewrite Hf by done. apply Hn. Qed.

(** Storing a value under the hash of its text. *)
Lemma store_json_run {T} `{!Serde T, !SerdeLaws T} base (v : T) w :
  object_dir base → oc_inv (sw_codec w) → named_by_content T base w → oc_safe (json_to_vec v) →
  let key := object_key_of base (blake3_hex (json_to_vec v)) in
  ∃ w', store_bytes base (blake3_hex (json_to_vec v)) (json_to_vec v) w = (Done key, w') ∧
    oc_inv (sw_codec w') ∧ named_by_content T base w' ∧ extends w w' ∧ holds_json w' key v ∧
    (∀ k, k ≠ key → sw_objects w' !! k = sw_objects w !! k).
Proof.
  intros Hdir Hinv Hn Hsafe key.
  destruct (store_bytes_run base (blake3_hex (json_to_vec v)) (json_to_vec v) w (blake3_good _) Hinv Hsafe)
    as (enc & c' & Hdec & Hc' & ->). fold key. eexists. split; [reflexivity|]. cbv zeta.
  assert (Hvalid : validate_local_object_key key = Ok tt) by (apply object_dir_key_valid; [done|apply blake3_good]).
  destruct (sw_objects w !! key) as [old|] eqn:Hold.
  - split_and!; [done|done|by apply extends_same| |done]. split; [done|].
    exists old, (json_to_vec v). split_and!; [done|by apply Hn|apply json_roundtrip].
  - split_and!; [done| | | |]; simpl.
    + intros v' enc'. simpl. destruct (decide (object_key_of base (blake3_hex (json_to_vec v')) = key)) as [Heq|Hne].
      * rewrite Heq, lookup_insert_eq. intros [= <-].
        apply object_key_oid_inj in Heq; [|apply blake3_good..]. apply blake3_inj in Heq. by rewrite Heq.
      * rewrite lookup_insert_ne by done. apply Hn.
    + intros k e Hk. simpl. rewrite lookup_insert_ne; [done|]. intros <-. congruence.
    + split; [done|]. exists enc, (json_to_vec v). simpl. rewrite lookup_insert_eq.
      split_and!; [done|done|apply json_roundtrip].
    + intros k Hk. by rewrite lookup_insert_ne.
Qed.

Lemma holds_json_unique {T} `{!Serde T} w w' key (v v' : T) :
  oc_inv (sw_codec w) → sw_objects w' = sw_objects w → holds_json w key v → holds_json w' key v' → v' = v.
Proof.
  intros Hinv Hobj (_ & enc & b1 & Ho & Hd & Hj1) (_ & enc' & b2 & Ho' & Hd' & Hj2).
  rewrite Hobj, Ho in Ho'. injection Ho' as <-.
  destruct (Hd _ Hinv) as (? & E1 & _), (Hd' _ Hinv) as (? & E2 & _).
  rewrite E1 in E2. injection E2 as -> _. congruence.
Qed.

Context (env : TreeEnv).

(** Loading a stored tree gives its entries. *)
Lemma tree_entries_from_node_run d w key es :
  oc_inv (sw_codec w) → node_at d w key es → ∃ node, holds_json w key node ∧
  ∃ c', oc_inv c' ∧ tree_entries_from_node env d node w = (Done es, sw_with_codec w c').
Proof.
  revert w key es. induction d as [|d IH]; intros w key es Hinv; [done|].
  intros (node & parts & Hh & Hf & ->). exists node. split; [done|]. simpl tree_entries_from_node.
  generalize (tn_entries node) as entries. clear Hh. revert w Hinv Hf.
  generalize (tn_child_nodes node) as children. intros children.
  revert parts. induction children as [|[name child] children IHc]; intros parts w Hinv Hf entries.
  - inversion Hf; subst. exists (sw_codec w). split; [exact Hinv|]. destruct w. reflexivity.
  - inversion Hf as [|? part ? parts' Hpart Hf' ]; subst. simpl in Hpart.
    destruct (IH w _ _ Hinv Hpart) as (cnode & Hch & _).
    destruct (read_json (te_store env) w _ _ Hinv Hch) as (b & c1 & Hc1 & Hr & Hj).
    assert (He : extends w (sw_with_codec w c1)) by (by apply extends_same).
    destruct (IH (sw_with_codec w c1) _ _ Hc1 (node_at_extends _ _ _ _ _ He Hpart)) as (cnode' & Hch' & c2 & Hc2 & Hrun).
    apply (holds_json_unique w _ _ _ _ Hinv eq_refl Hch) in Hch' as ->.
    simpl. unfold stm_bind. rewrite Hr, Hj. unfold stm_some, stm_ret. rewrite Hrun.
    destruct (IHc parts' (sw_with_codec (sw_with_codec w c1) c2) Hc2) with (entries := bmap_extend entries part) as (c3 & Hc3 & ->).
    { eapply Forall2_impl; [done|]. intros x y. by apply node_at_extends, extends_same. }
    by exists c3.
Qed.

Lemma load_root_tree_entries_run d w rs es :
  oc_inv (sw_codec w) → tree_at d w (rs_tree_key rs) es →
  ∃ c', oc_inv c' ∧ load_root_tree_entries env d rs w = (Done es, sw_with_codec w c').
Proof.
  intros Hinv (tree & Hh & Ht). destruct (read_json (te_store env) w _ _ Hinv Hh) as (b & c1 & Hc1 & Hr & Hj).
  unfold load_root_tree_entries, stm_bind. rewrite Hr, Hj. unfold stm_some, stm_ret, tree_entries_from_manifest.
  destruct (tm_entries tree) as [|e entries]; [|subst es; by exists c1].
  destruct (tm_root_node tree) as [rn|]; [|subst es; by exists c1].
  assert (He : extends w (sw_with_codec w c1)) by (by apply extends_same). apply (node_at_extends _ _ _ _ _ He) in Ht.
  destruct (tree_entries_from_node_run d (sw_with_codec w c1) _ _ Hc1 Ht) as (node & Hn & _).
  destruct (read_json (te_store env) (sw_with_codec w c1) _ _ Hc1 Hn) as (b2 & c2 & Hc2 & Hr2 & Hj2).
  unfold stm_bind. rewrite Hr2, Hj2. unfold stm_some, stm_ret.
  assert (Ht2 : node_at d (sw_with_codec (sw_with_codec w c1) c2) (tnr_node_key rn) es)
    by (revert Ht; by apply node_at_extends, extends_same).
  destruct (tree_entries_from_node_run d (sw_with_codec (sw_with_codec w c1) c2) _ _ Hc2 Ht2) as (node' & Hn' & c3 & Hc3 & Hrun).
  apply (holds_json_unique (sw_with_codec w c1) _ _ _ _ Hc1 eq_refl Hn) in Hn' as ->. rewrite Hrun. by exists c3.
Qed.

(** *** Storing a tree *)

Lemma trees_base_dir : object_dir trees_base.
Proof. exists ["trees"]. split_and!; [done|repeat constructor..|done]. Qed.
Lemma tree_nodes_base_dir : object_dir tree_nodes_base.
Proof. exists ["trees"; "nodes"]. split_and!; [done|repeat constructor..|done]. Qed.

Lemma tree_key_not_node_key oid oid' :
  good_name oid → good_name oid' → object_key_of trees_base oid ≠ object_key_of tree_nodes_base oid'.
Proof.
  intros Hg Hg'.
  destruct (object_key_of_form trees_base oid Hg) as (a & b & -> & _ & Hl & _ & _ & Ha & _).
  destruct (object_key_of_form tree_nodes_base oid' Hg') as (a' & b' & -> & _).
  destruct a as [|x [|y []]]; try discriminate Hl. intros [=].
Qed.

(** The objects of trees and of nodes are named by their content. *)
Record tree_inv (w : StoreWorld) : Prop := {
  ti_codec : oc_inv (sw_codec w);
  ti_nodes : named_by_content TreeNodeManifest tree_nodes_base w;
  ti_trees : named_by_content TreeManifest trees_base w;
}.

Lemma tree_inv_codec w c' : tree_inv w → oc_inv c' → tree_inv (sw_with_codec w c').
Proof. intros [] Hc'. by split. Qed.

Context `{!Serde entries_map, !SerdeLaws entries_map, !Serde (string * string * entries_map * nodes_map)}.
Hypothesis node_safe : ∀ n : TreeNodeManifest, oc_safe (json_to_vec n).
Hypothesis tree_safe : ∀ t : TreeManifest, oc_safe (json_to_vec t).

Lemma store_node_run (n : TreeNodeManifest) w :
  tree_inv w → ∃ key w', store_bytes tree_nodes_base (blake3_hex (json_to_vec n)) (json_to_vec n) w = (Done key, w') ∧
    tree_inv w' ∧ extends w w' ∧ holds_json w' key n ∧ starts_with key "objects/blobs/" = false.
Proof.
  intros [Hc Hn Ht].
  destruct (store_json_run tree_nodes_base n w tree_nodes_base_dir Hc Hn (node_safe n)) as (w' & Hrun & Hc' & Hn' & He & Hh & Hf).
  exists (object_key_of tree_nodes_base (blake3_hex (json_to_vec n))), w'. split_and!; [done| |done..|].
  - split; [done..|]. eapply named_by_content_frame; [done..|]. intros v. apply tree_key_not_node_key; apply blake3_good.
  - by destruct (object_key_of_form tree_nodes_base (blake3_hex (json_to_vec n)) (blake3_good _)) as (a & b & -> & _).
Qed.

Lemma store_tree_run (t : TreeManifest) w :
  tree_inv w → ∃ key w', store_bytes trees_base (blake3_hex (json_to_vec t)) (json_to_vec t) w = (Done key, w') ∧
    tree_inv w' ∧ extends w w' ∧ holds_json w' key t.
Proof.
  intros [Hc Hn Ht].
  destruct (store_json_run trees_base t w trees_base_dir Hc Ht (tree_safe t)) as (w' & Hrun & Hc' & Ht' & He & Hh & Hf).
  exists (object_key_of trees_base (blake3_hex (json_to_vec t))), w'. split_and!; [done| |done..].
  split; [done| |done]. eapply named_by_content_frame; [done..|]. intros v Heq. symmetry in Heq. revert Heq.
  apply tree_key_not_node_key; apply blake3_good.
Qed.

(** What the stored nodes of a directory tree hold, children below the threshold left
    out, and how deep the nodes lie. *)
Fixpoint merged (threshold : nat) (n : TreeNodeBuild) : entries_map :=
  match n with
  | TNB entries children _ =>
    fold_left (λ acc c, if (tnb_count c.2 <? threshold)%nat then acc else bmap_extend acc (merged threshold c.2))
      children entries
  end.
Fixpoint height (n : TreeNodeBuild) : nat :=
  match n with TNB _ children _ => S (fold_right (λ c h, Nat.max (height c.2) h) O children) end.

Lemma str_compare_app p a b : String.compare (p +:+ a) (p +:+ b) = String.compare a b.
Proof.
  induction p as [|c p IH]; [done|]. rewrite !str_app_cons. simpl. unfold Ascii.compare. by rewrite N.compare_refl.
Qed.
Lemma join_tree_path_slt path a b : slt a b → slt (join_tree_path path a) (join_tree_path path b).
Proof. unfold join_tree_path, slt. destruct (is_empty path); [done|]. by rewrite !str_compare_app. Qed.

Lemma store_children_run (store : string → TreeNodeBuild → stm StoreWorld TreeNodeRef) path t depth cs :
  Forall (λ c, (height c.2 <= depth)%nat ∧ ∀ p w, tree_inv w → ∃ ref w', store p c.2 w = (Done ref, w') ∧
    tree_inv w' ∧ extends w w' ∧ node_at (height c.2) w' (tnr_node_key ref) (merged t c.2)) cs →
  bsorted cs.*1 → ∀ acc w, tree_inv w → Forall (λ k, Forall (λ n, slt k (join_tree_path path n)) cs.*1) acc.*1 →
  ∃ refs parts w', store_children store path t acc cs w = (Done (acc ++ refs), w') ∧ tree_inv w' ∧ extends w w' ∧
    Forall2 (λ child part, node_at depth w' (tnr_node_key child.2) part) refs parts ∧
    ∀ es, fold_left (λ acc c, if (tnb_count c.2 <? t)%nat then acc else bmap_extend acc (merged t c.2)) cs es
          = fold_left bmap_extend parts es.
Proof.
  induction 1 as [|[name c] cs [Hh Hc] _ IH]; intros Hs acc w Hinv Hacc; simpl.
  - exists [], [], w. rewrite app_nil_r. split_and!; [done|done|reflexivity|constructor|done].
  - simpl in *. apply StronglySorted_cons in Hs as [Hname Hs].
    assert (Hacc' : Forall (λ k, Forall (λ n, slt k (join_tree_path path n)) cs.*1) acc.*1).
    { eapply Forall_impl; [exact Hacc|]. intros k Hk. by apply Forall_cons in Hk as [_ Hk]. }
    destruct (tnb_count c <? t)%nat; [by apply IH|].
    destruct (Hc (join_tree_path path name) w Hinv) as (ref & w1 & Hrun & Hinv1 & He1 & Hn).
    unfold stm_bind. rewrite Hrun.
    assert (Hlast : bmap_insert (join_tree_path path name) ref acc = acc ++ [(join_tree_path path name, ref)]).
    { apply bmap_insert_last. eapply Forall_impl; [exact Hacc|]. intros k Hk. by apply Forall_cons in Hk as [Hk _]. }
    rewrite Hlast. destruct (IH Hs (acc ++ [(join_tree_path path name, ref)]) w1 Hinv1) as (refs & parts & w2 & Hr & Hi2 & He2 & Hf & Hm).
    { rewrite fmap_app. apply Forall_app. split; [done|]. repeat constructor.
      eapply Forall_impl; [exact Hname|]. intros n Hn'. by apply join_tree_path_slt. }
    exists ((join_tree_path path name, ref) :: refs), (merged t c :: parts), w2. rewrite Hr, <-app_assoc.
    split_and!; [done|done|by etrans| |done]. constructor; [|done]. simpl.
    eapply node_at_deeper; [exact Hh|]. by eapply node_at_extends.
Qed.

Lemma height_children entries children count :
  Forall (λ c, (height c.2 <= pred (height (TNB entries children count)))%nat) children.
Proof.
  simpl. induction children as [|[name c] cs IH]; constructor; simpl; [lia|].
  eapply Forall_impl; [exact IH|]. simpl. intros. lia.
Qed.

Lemma store_tree_node_run root_id t n :
  trie_sorted n → ∀ path w, tree_inv w → ∃ ref w', store_tree_node root_id path n t w = (Done ref, w') ∧
    tree_inv w' ∧ extends w w' ∧ starts_with (tnr_node_key ref) "objects/blobs/" = false ∧
    node_at (height n) w' (tnr_node_key ref) (merged t n).
Proof.
  induction n as [entries children count IH] using TreeNodeBuild_ind'.
  intros (He & Hc & Hall)%trie_sorted_unfold path w Hinv. simpl store_tree_node.
  destruct (store_children_run (λ p c, store_tree_node root_id p c t) path t
    (pred (height (TNB entries children count))) children) with (acc := @nil (string * TreeNodeRef)) (w := w)
    as (refs & parts & w1 & Hrun & Hinv1 & He1 & Hf & Hm); [|done|done|constructor|].
  { pose proof (height_children entries children count) as Hh. rewrite Forall_forall in *. intros c Hin.
    split; [by apply Hh|]. intros p w' Hw'.
    destruct (IH c Hin (Hall c Hin) p w' Hw') as (ref & w2 & ? & ? & ? & _ & ?). by exists ref, w2. }
  unfold stm_bind. rewrite Hrun. simpl app.
  destruct (store_node_run (node_manifest root_id path entries refs) w1 Hinv1) as (key & w2 & -> & Hinv2 & He2 & Hh & Hb).
  eexists _, w2. split; [reflexivity|]. simpl tnr_node_key. split_and!; [done|by etrans|done|].
  simpl height. exists (node_manifest root_id path entries refs), parts. split_and!; [done| |simpl; by rewrite Hm].
  eapply Forall2_impl; [exact Hf|]. intros child part. by apply node_at_extends.
Qed.

(** With threshold 0 nothing is left out. *)
Lemma merged_sorted t n : trie_sorted n → bsorted (merged t n).*1.
Proof.
  destruct n as [entries children count]. intros (He & _)%trie_sorted_unfold. simpl.
  revert entries He. induction children as [|[name c] cs IH]; intros entries He; [done|]. simpl. apply IH.
  destruct (_ <? _)%nat; [done|]. by apply bmap_extend_sorted.
Qed.

Lemma merged_all n : NoDup (records n).*1 → merged 0 n ≡ₚ records n.
Proof.
  induction n as [entries children count IH] using TreeNodeBuild_ind'. simpl. revert entries.
  induction IH as [|[name c] cs Hc _ IHc]; intros entries Hd; simpl in *; [by rewrite app_nil_r|].
  rewrite (assoc (++)) in Hd.
  assert (Hd' : NoDup (entries ++ records c).*1) by (rewrite fmap_app in Hd; by apply NoDup_app in Hd as (? & _)).
  assert (Hm : merged 0 c ≡ₚ records c) by (apply Hc; rewrite fmap_app, NoDup_app in Hd'; naive_solver).
  assert (Hx : bmap_extend entries (merged 0 c) ≡ₚ entries ++ records c) by (by rewrite bmap_extend_perm; rewrite Hm).
  rewrite IHc; rewrite Hx; [by rewrite (assoc (++))|done].
Qed.

Lemma merged_from_entries es : bsorted es.*1 → merged 0 (from_entries es) = es.
Proof.
  intros Hs. destruct (from_entries_records es Hs) as [Ht Hp].
  apply bmap_sorted_unique; [by apply merged_sorted|done|].
  rewrite merged_all, Hp; [done|]. rewrite Hp. by apply bsorted_NoDup.
Qed.

Lemma tree_at_deeper d d' w key es : (d <= d')%nat → tree_at d w key es → tree_at d' w key es.
Proof.
  intros Hd (tree & Hh & Ht). exists tree. split; [done|].
  destruct (tm_entries tree), (tm_root_node tree); eauto using node_at_deeper.
Qed.

Lemma attach_run t tree w :
  bsorted (tm_entries tree).*1 → tree_inv w →
  ∃ tree' w', attach_subtree_node_index_with_threshold env tree t w = (Done tree', w') ∧ tree_inv w' ∧ extends w w' ∧
    tm_tree_id tree' = tm_tree_id tree ∧ tm_entries tree' = tm_entries tree ∧
    (tree' = tree ∧ (length (tm_entries tree) < t)%nat ∨ ∃ rn, tm_root_node tree' = Some rn ∧
      node_at (height (from_entries (tm_entries tree))) w' (tnr_node_key rn) (merged t (from_entries (tm_entries tree)))).
Proof.
  intros Hs Hinv. unfold attach_subtree_node_index_with_threshold.
  destruct (Nat.ltb_spec (length (tm_entries tree)) t) as [Hlt|_].
  { exists tree, w. split_and!; [done|done|reflexivity|done|done|by left]. }
  destruct (from_entries_records _ Hs) as [Ht _].
  destruct (store_tree_node_run (tm_root_id tree) t _ Ht "" w Hinv) as (rn & w1 & Hrun & Hinv1 & He1 & Hb & Hn).
  unfold stm_bind. rewrite Hrun. destruct (height (from_entries (tm_entries tree))) as [|h] eqn:Hh; [done|].
  destruct Hn as (node & parts & Hhold & Hf & Hm).
  destruct (read_json (te_store env) w1 _ _ (ti_codec _ Hinv1) Hhold) as (b & c' & Hc' & Hr & Hj).
  unfold read_object, stm_bind. rewrite Hr, Hb. cbn [andb]. unfold stm_ret at 1. rewrite Hj. unfold stm_some, stm_ret.
  eexists _, _. split; [reflexivity|]. split_and!; [by apply tree_inv_codec| |done|done|].
  - etrans; [exact He1|by apply extends_same].
  - right. exists rn. split; [done|]. apply (node_at_extends (S h) w1); [by apply extends_same|].
    exists node, parts. by split_and!.
Qed.

Lemma prepare_run tree w :
  bsorted (tm_entries tree).*1 → tm_root_node tree = None → tree_inv w →
  ∃ tree' w', prepare_tree_manifest_for_storage env tree w = (Done tree', w') ∧ tree_inv w' ∧ extends w w' ∧
    tm_tree_id tree' = tm_tree_id tree ∧
    match tm_entries tree', tm_root_node tree' with
    | [], Some rn => node_at (height (from_entries (tm_entries tree))) w' (tnr_node_key rn) (tm_entries tree)
    | entries, _ => tm_entries tree = entries
    end.
Proof.
  intros Hs Hnone Hinv. unfold prepare_tree_manifest_for_storage, attach_subtree_node_index.
  destruct (tree_format_v2_enabled env).
  - destruct (attach_run 0 tree w Hs Hinv) as (tree' & w' & Hrun & Hinv' & He & Hid & Hes & Hor).
    unfold stm_bind. rewrite Hrun. eexists _, w'. split; [reflexivity|]. simpl. split_and!; [done..|].
    destruct Hor as [[_ Hlt]|(rn & -> & Hn)]; [lia|]. by rewrite merged_from_entries in Hn.
  - destruct (tree_subtree_nodes_enabled env); simpl.
    + destruct (attach_run (subtree_node_min_entries env) tree w Hs Hinv) as (tree' & w' & Hrun & Hinv' & He & Hid & Hes & Hor).
      exists tree', w'. split_and!; [done..|]. rewrite Hes. destruct Hor as [[-> _]|(rn & -> & Hn)].
      * rewrite Hnone. by destruct (tm_entries tree).
      * destruct (tm_entries tree); [exact Hn|done].
    + exists tree, w. split_and!; [done|done|reflexivity|done|]. rewrite Hnone. by destruct (tm_entries tree).
Qed.

(** A root whose tree is stored and named by its entries. *)
Definition root_intact (w : StoreWorld) (rs : RootSnapshot) (es : entries_map) : Prop :=
  rs_tree_id rs = tree_id_of es ∧ ∃ depth, tree_at depth w (rs_tree_key rs) es.

Lemma tree_id_inj es es' : tree_id_of es = tree_id_of es' → es = es'.
Proof.
  unfold tree_id_of. intros Heq%str_app_inj_l%blake3_inj. apply (f_equal (json_from_slice (T := entries_map))) in Heq.
  rewrite !json_roundtrip in Heq. by injection Heq.
Qed.

Lemma reusable_present w key : is_Some (sw_objects w !! key) → reusable_local_object env key w = (Done true, w).
Proof. intros Hk. unfold reusable_local_object, object_path_exists. by rewrite bool_decide_true. Qed.

Lemma store_root_tree_run now previous root_id recs w :
  tree_inv w → (∀ p, previous = Some p → ∃ es, root_intact w p es) →
  let es := bmap_of_list (map (λ r, (fr_path r, r)) recs) in
  ∃ rs w', store_root_tree env now previous root_id recs w = (Done (rs, es), w') ∧
    tree_inv w' ∧ extends w w' ∧ root_intact w' rs es.
Proof.
  intros Hinv Hprev es. unfold store_root_tree. set (tree := build_tree_manifest now root_id recs).
  destruct (prepare_run tree w) as (tree' & w1 & Hrun & Hinv1 & He1 & Hid & Hes);
    [apply bmap_of_list_sorted|done|done|]. change (tm_entries tree) with es in *.
  assert (Hfresh : ∃ rs w', (let* tree_key := store_bytes trees_base (blake3_hex (json_to_vec tree')) (json_to_vec tree') in
      stm_ret ({| rs_tree_id := tm_tree_id tree'; rs_tree_key := tree_key;
                  rs_file_count := Z.of_nat (length es) |}, es)) w1 = (Done (rs, es), w') ∧
    tree_inv w' ∧ extends w w' ∧ root_intact w' rs es).
  { destruct (store_tree_run tree' w1 Hinv1) as (key & w2 & Hst & Hinv2 & He2 & Hh).
    unfold stm_bind. rewrite Hst. eexists _, w2. split; [reflexivity|]. split_and!; [done|by etrans|].
    split; [exact Hid|]. exists (height (from_entries es)), tree'. simpl. split; [done|].
    destruct (tm_entries tree'), (tm_root_node tree'); eauto using node_at_extends. }
  unfold stm_bind at 1. rewrite Hrun. destruct previous as [p|]; [|exact Hfresh].
  destruct (_ && _) eqn:Hsame; [|exact Hfresh]. apply andb_true_iff in Hsame as [Hsame%String.eqb_eq _].
  destruct (Hprev p eq_refl) as (es' & Hpid & depth & Ht). apply (tree_at_extends _ _ _ _ _ He1) in Ht.
  assert (es' = es) as -> by (apply tree_id_inj; rewrite <-Hpid, Hsame; exact Hid).
  unfold stm_bind. rewrite reusable_present by (destruct Ht as (? & (_ & enc & _ & Ho & _) & _); by exists enc).
  exists p, w1. split_and!; [done..|]. split; [done|]. by exists depth.
Qed.

(** C16. What a snapshot records of a root is what a restore reads: in every tree format
    and with or without reuse of the tree of the parent snapshot, storing the records of
    a root succeeds, keeps every stored object, and gives a tree that loads as exactly
    those records by path, once the stack is as deep as the tree. *)
Theorem stored_tree_loads now previous root_id recs w :
  tree_inv w → (∀ p, previous = Some p → ∃ es, root_intact w p es) →
  let es := bmap_of_list (map (λ r, (fr_path r, r)) recs) in
  ∃ rs w', store_root_tree env now previous root_id recs w = (Done (rs, es), w') ∧
    tree_inv w' ∧ extends w w' ∧ root_intact w' rs es ∧
    ∃ depth, ∀ d, (depth <= d)%nat → ∃ c', oc_inv c' ∧
      load_root_tree_entries env d rs w' = (Done es, sw_with_codec w' c').
Proof.
  intros Hinv Hprev es.
  destruct (store_root_tree_run now previous root_id recs w Hinv Hprev) as (rs & w' & Hrun & Hinv' & He & Hid & depth & Ht).
  exists rs, w'. split_and!; [done..|by split; [|exists depth]|]. exists depth. intros d Hd.
  apply load_root_tree_entries_run; [by apply ti_codec|]. by eapply tree_at_deeper.
Qed.
End Stored.

(** ** A concrete run: format v2, two directories *)

Module TreesExample.
Import CryptoExample LargeStoreExample RemoteExample.

Definition ex_tree_env : TreeEnv := {|
  te_store := ex_store_env; te_subtree_nodes := None; te_subtree_node_min_entries := None;
  te_format := Some "V2"; te_reuse_root_trees := None |}.
Definition ex_record (path : string) : FileRecord := {|
  fr_root_id := "r"; fr_path := path; fr_kind := "file"; fr_size := 3; fr_mode := 420; fr_modified := None;
  fr_uid := None; fr_gid := None; fr_xattrs := []; fr_payload := Blob "o" "objects/blobs/aa/bb" |}.
Definition ex_records : list FileRecord := map ex_record ["src/main.rs"; "README"; "src/lib/a.rs"].

Lemma ex_tree_inv : tree_inv ex_empty.
Proof. split; [apply ex_key_inv|..]; intros v enc Hk; discriminate Hk. Qed.

Lemma stored_tree_loads_witness : ∃ rs w' d c',
  store_root_tree ex_tree_env 0 None "r" ex_records ex_empty
    = (Done (rs, map (λ r, (fr_path r, r)) (map ex_record ["README"; "src/lib/a.rs"; "src/main.rs"])), w') ∧
  load_root_tree_entries ex_tree_env d rs w'
    = (Done (map (λ r, (fr_path r, r)) (map ex_record ["README"; "src/lib/a.rs"; "src/main.rs"])), c').
Proof.
  destruct (stored_tree_loads (H := ex_codec) ex_tree_env) with (now := 0) (previous := @None RootSnapshot)
    (root_id := "r") (recs := ex_records) (w := ex_empty) as (rs & w' & Hst & _ & _ & _ & depth & Hl).
  - intros n. apply ex_safe2. simpl. lia.
  - intros t. apply ex_safe2. simpl. lia.
  - apply ex_tree_inv.
  - discriminate.
  - destruct (Hl depth (le_n depth)) as (c' & _ & Hrun). exists rs, w', depth, (sw_with_codec w' c'). by split.
Defined.
End TreesExample.
