(* ===== verification/ObjectKeys.v ===== *)
(** * The objects a snapshot depends on

    [src/object_paths.rs]: the keys of all objects reached from the snapshots of the
    catalogue, as garbage collection, synchronisation and restores enumerate them. *)

From S2P Require Import Prelude RStr BTree MachInt Core Util Config Large Crypto Store Pack LargeStore RemoteObjects Trees.

Local Open Scope Z_scope.

(** The part of [MetadataExport] the enumeration reads. *)
Record MetadataExport := {
  mx_snapshots : list SnapshotExport;
  mx_blobs : list BlobExport;
  mx_packs : list PackExport;
}.

Section ObjectKeys.
Context `{!ObjectCodec, !Serde TreeNodeManifest, !Serde TreeManifest, !Serde LargeManifest, !Serde SnapshotManifest}.
Context (env : StoreEnv).

Abbreviation store_m := (stm StoreWorld).

(** [serde_json::from_slice(&read_object_raw(paths, key)?)?] after the validation of
    the key. *)
Definition manifest_for_object_keys (T : Type) `{!Serde T} (key : string) : store_m T :=
  let* _ := stm_ok (validate_local_object_key key) in
  let* bytes := read_object_raw env key in
  stm_some "json" (json_from_slice bytes).
Definition tree_manifest_for_object_keys : string → store_m TreeManifest := manifest_for_object_keys TreeManifest.
Definition large_manifest_for_object_keys : string → store_m LargeManifest := manifest_for_object_keys LargeManifest.

Definition snapshot_manifest_for_object_keys (snapshot : SnapshotExport) : store_m SnapshotManifest :=
  if negb (is_empty (trim (se_manifest_json snapshot)))
  then stm_some "json" (json_from_slice (bytes_of_string (se_manifest_json snapshot)))
  else manifest_for_object_keys SnapshotManifest (se_manifest_key snapshot).

(** The recursions over the nodes are bounded by the stack, as in [Trees]. *)
Fixpoint push_child_tree_node_keys (depth : nat) (node_key : string) : store_m (list string) :=
  match depth with
  | O => stm_lift Panics
  | S depth' =>
    let* node := manifest_for_object_keys TreeNodeManifest node_key in
    (fix push (children : nodes_map) :=
      match children with
      | [] => stm_ret []
      | (_, child) :: rest =>
        let* below := push_child_tree_node_keys depth' (tnr_node_key child) in
        let* more := push rest in
        stm_ret (tnr_node_key child :: below ++ more)
      end) (tn_child_nodes node)
  end.

Fixpoint extend_children_for_object_keys (below : TreeNodeManifest → store_m entries_map) (entries : entries_map)
    (children : nodes_map) : store_m entries_map :=
  match children with
  | [] => stm_ret entries
  | (_, child) :: rest =>
    let* child_node := manifest_for_object_keys TreeNodeManifest (tnr_node_key child) in
    let* more := below child_node in
    extend_children_for_object_keys below (bmap_extend entries more) rest
  end.

Fixpoint tree_entries_from_node_for_object_keys (depth : nat) (node : TreeNodeManifest) : store_m entries_map :=
  match depth with
  | O => stm_lift Panics
  | S depth' => extend_children_for_object_keys (tree_entries_from_node_for_object_keys depth')
                  (tn_entries node) (tn_child_nodes node)
  end.

Definition tree_entries_for_object_keys (depth : nat) (tree : TreeManifest) : store_m entries_map :=
  match tm_entries tree, tm_root_node tree with
  | [], Some root_node =>
    let* node := manifest_for_object_keys TreeNodeManifest (tnr_node_key root_node) in
    tree_entries_from_node_for_object_keys depth node
  | entries, _ => stm_ret entries
  end.

(** The keys and the blob identifiers a record, a root and a snapshot add. *)
Definition record_keys (record : FileRecord) : store_m (list string * list string) :=
  let oids := match payload_blob_ref (fr_payload record) with Some (oid, _) => [oid] | None => [] end in
  match payload_large_ref (fr_payload record) with
  | Some (_, manifest_key, _) =>
    let* large := large_manifest_for_object_keys manifest_key in
    stm_ret (manifest_key :: map lc_object_key (lm_chunks large), oids)
  | None => stm_ret ([], oids)
  end.

Definition tree_nodes (tree : TreeManifest) : list TreeNodeRef :=
  match tm_root_node tree with Some root_node => [root_node] | None => [] end ++ (tm_subtree_nodes tree).*2.

Definition node_keys (depth : nat) (node : TreeNodeRef) : store_m (list string) :=
  let* below := push_child_tree_node_keys depth (tnr_node_key node) in
  stm_ret (tnr_node_key node :: below).

Definition root_keys (depth : nat) (root_tree : RootSnapshot) : store_m (list string * list string) :=
  let* tree := tree_manifest_for_object_keys (rs_tree_key root_tree) in
  let* nodes := stm_map (node_keys depth) (tree_nodes tree) in
  let* entries := tree_entries_for_object_keys depth tree in
  let* parts := stm_map record_keys entries.*2 in
  stm_ret (rs_tree_key root_tree :: concat nodes ++ concat parts.*1, concat parts.*2).

Definition snapshot_keys (depth : nat) (snapshot : SnapshotExport) : store_m (list string * list string) :=
  let* manifest := snapshot_manifest_for_object_keys snapshot in
  let* parts := stm_map (root_keys depth) (sm_root_trees manifest).*2 in
  stm_ret (se_manifest_key snapshot :: concat parts.*1, concat parts.*2).

(** The keys of the blobs and packs that hold the blobs [oids]. *)
Definition payload_keys (export : MetadataExport) (oids : list string) : list string :=
  let live := List.filter (λ b, bset_contains oids (be_oid b)) (mx_blobs export) in
  let loose := flat_map (λ b, match be_pack_id b with None => [be_object_key b] | Some _ => [] end) live in
  let live_pack_ids := flat_map (λ b, match be_pack_id b with Some id => [id] | None => [] end) live in
  let packs := List.filter (λ p, bset_contains live_pack_ids (pk_pack_id p)) (mx_packs export) in
  loose ++ flat_map (λ p, [pk_pack_key p; pk_index_key p]) packs.

Definition local_object_keys_inner (depth : nat) (export : MetadataExport) (only_snapshot_id : option string)
    : store_m (list string) :=
  let snapshots := List.filter (λ s, match only_snapshot_id with
    | Some id => (se_id s =? id)%string | None => true end) (mx_snapshots export) in
  let* parts := stm_map (snapshot_keys depth) snapshots in
  stm_ret (bset_of_list (concat parts.*1 ++ payload_keys export (concat parts.*2))).

Definition local_object_keys (depth : nat) (export : MetadataExport) := local_object_keys_inner depth export None.
Definition local_object_keys_for_snapshot (depth : nat) (export : MetadataExport) (snapshot_id : string) :=
  local_object_keys_inner depth export (Some snapshot_id).
End ObjectKeys.

(** *** The keys on the remote *)

Definition prefer_s3_canonical_remote_only (key : string) : bool :=
  starts_with key "objects/large/chunks/fixed/" || starts_with key "objects/large/chunks/fastcdc/"
  || starts_with key "objects/trees/" || starts_with key "objects/blobs/" || starts_with key "objects/packs/"
  || starts_with key "objects/indexes/pack/" || starts_with key "objects/large/manifests/".

Definition remote_live_object_keys_from_local_keys (local_keys : list string) (canonical_only : string → bool)
    : list string :=
  bset_of_list (flat_map (λ key, (if canonical_only key then [] else [key]) ++ canonical_remote_aliases key) local_keys).

(** ** What a snapshot needs *)

Section Needed.
Context `{!ObjectCodec, !ObjectCodecLaws, !Blake3, !Serde TreeNodeManifest, !Serde TreeManifest, !Serde LargeManifest,
          !Serde SnapshotManifest}.

(** The manifest of a row: its text in the catalogue, or the object it names. *)
Definition snapshot_manifest_is (w : StoreWorld) (s : SnapshotExport) (m : SnapshotManifest) : Prop :=
  if is_empty (trim (se_manifest_json s)) then holds_json w (se_manifest_key s) m
  else json_from_slice (bytes_of_string (se_manifest_json s)) = Some m.

(** The node objects below a node. *)
Inductive node_below (w : StoreWorld) : string → string → Prop :=
| node_below_child key node child :
    holds_json (T := TreeNodeManifest) w key node → child ∈ (tn_child_nodes node).*2 →
    node_below w key (tnr_node_key child)
| node_below_deeper key node child key' :
    holds_json (T := TreeNodeManifest) w key node → child ∈ (tn_child_nodes node).*2 →
    node_below w (tnr_node_key child) key' → node_below w key key'.

(** The keys a record, a root and a snapshot need; blobs by the rows of the tables. *)
Inductive record_needs (w : StoreWorld) (blobs : list BlobExport) (packs : list PackExport) (r : FileRecord)
    : string → Prop :=
| rk_loose oid key b : payload_blob_ref (fr_payload r) = Some (oid, key) → b ∈ blobs → be_oid b = oid →
    be_pack_id b = None → record_needs w blobs packs r (be_object_key b)
| rk_pack oid key b id p : payload_blob_ref (fr_payload r) = Some (oid, key) → b ∈ blobs → be_oid b = oid →
    be_pack_id b = Some id → p ∈ packs → pk_pack_id p = id → record_needs w blobs packs r (pk_pack_key p)
| rk_pack_index oid key b id p : payload_blob_ref (fr_payload r) = Some (oid, key) → b ∈ blobs → be_oid b = oid →
    be_pack_id b = Some id → p ∈ packs → pk_pack_id p = id → record_needs w blobs packs r (pk_index_key p)
| rk_manifest oid mk n : payload_large_ref (fr_payload r) = Some (oid, mk, n) → record_needs w blobs packs r mk
| rk_chunk oid mk n m c : payload_large_ref (fr_payload r) = Some (oid, mk, n) →
    holds_json (T := LargeManifest) w mk m → c ∈ lm_chunks m → record_needs w blobs packs r (lc_object_key c).

Inductive root_needs (depth : nat) (w : StoreWorld) (blobs : list BlobExport) (packs : list PackExport)
    (rt : RootSnapshot) : string → Prop :=
| ron_tree : root_needs depth w blobs packs rt (rs_tree_key rt)
| ron_node tree node : holds_json (T := TreeManifest) w (rs_tree_key rt) tree → node ∈ tree_nodes tree →
    root_needs depth w blobs packs rt (tnr_node_key node)
| ron_below tree node key : holds_json (T := TreeManifest) w (rs_tree_key rt) tree → node ∈ tree_nodes tree →
    node_below w (tnr_node_key node) key → root_needs depth w blobs packs rt key
| ron_record es r key : tree_at depth w (rs_tree_key rt) es → r ∈ es.*2 → record_needs w blobs packs r key →
    root_needs depth w blobs packs rt key.

(** The objects reached through the manifests and the trees of the snapshots. *)
Inductive reached (depth : nat) (w : StoreWorld) (export : MetadataExport) : string → Prop :=
| reach_manifest s : s ∈ mx_snapshots export → reached depth w export (se_manifest_key s)
| reach_root s m rt key : s ∈ mx_snapshots export → snapshot_manifest_is w s m → rt ∈ (sm_root_trees m).*2 →
    root_needs depth w (mx_blobs export) (mx_packs export) rt key → reached depth w export key.

(** What the snapshots need: besides these, a manifest may hold records itself, as those of
    old snapshots do, which restores and checks read where the root has no tree. *)
Inductive needed (depth : nat) (w : StoreWorld) (export : MetadataExport) : string → Prop :=
| need_reached key : reached depth w export key → needed depth w export key
| need_record s m root_id records r key : s ∈ mx_snapshots export → snapshot_manifest_is w s m →
    (root_id, records) ∈ sm_roots m → r ∈ records →
    record_needs w (mx_blobs export) (mx_packs export) r key → needed depth w export key.

(** The records a manifest holds itself are in its trees. *)
Definition records_in_trees (depth : nat) (w : StoreWorld) (s : SnapshotExport) : Prop :=
  ∀ m root_id records r, snapshot_manifest_is w s m → (root_id, records) ∈ sm_roots m → r ∈ records →
    ∃ rt es, rt ∈ (sm_root_trees m).*2 ∧ tree_at depth w (rs_tree_key rt) es ∧ r ∈ es.*2.

Lemma needed_reached depth w export k : Forall (records_in_trees depth w) (mx_snapshots export) →
  needed depth w export k ↔ reached depth w export k.
Proof.
  intros Hin. split; [|by constructor]. intros [key|s m root_id records r key Hs Hm Hroot Hr Hk]; [done|].
  rewrite Forall_forall in Hin. destruct (Hin s Hs m root_id records r Hm Hroot Hr) as (rt & es & Hrt & Hes & Hres).
  eapply reach_root; [done..|]. by eapply ron_record.
Qed.

(** The metadata of a snapshot is complete: its manifest, trees, nodes and large
    manifests are there and can be read, the nodes at most [depth] deep. *)
Definition record_complete (w : StoreWorld) (r : FileRecord) : Prop :=
  ∀ oid mk n, payload_large_ref (fr_payload r) = Some (oid, mk, n) → ∃ m : LargeManifest, holds_json w mk m.

Definition root_complete (depth : nat) (w : StoreWorld) (rt : RootSnapshot) : Prop :=
  ∃ (tree : TreeManifest) es, holds_json w (rs_tree_key rt) tree ∧
    Forall (λ n, ∃ es', node_at depth w (tnr_node_key n) es') (tree_nodes tree) ∧
    tree_at depth w (rs_tree_key rt) es ∧ Forall (record_complete w) es.*2.

Definition snapshot_complete (depth : nat) (w : StoreWorld) (s : SnapshotExport) : Prop :=
  ∃ m, snapshot_manifest_is w s m ∧ Forall (root_complete depth w) (sm_root_trees m).*2.

(** *** Reading changes only the state of the codec *)

(** A call that reads: it ends in [a], leaving everything but the codec as it is. *)
Definition reads {A} (w : StoreWorld) (m : stm StoreWorld A) (a : A) : Prop :=
  ∀ c, oc_inv c → ∃ c', oc_inv c' ∧ m (sw_with_codec w c) = (Done a, sw_with_codec w c').

Lemma reads_run {A} w (m : stm StoreWorld A) a :
  reads w m a → oc_inv (sw_codec w) → ∃ c, oc_inv c ∧ m w = (Done a, sw_with_codec w c).
Proof. intros Hr Hc. destruct (Hr _ Hc) as (c' & Hc' & Hrun). exists c'. split; [done|]. by destruct w. Qed.

Lemma reads_ret {A} w (a : A) : reads w (stm_ret a) a.
Proof. intros c Hc. by exists c. Qed.

Lemma reads_bind {A B} w (m : stm StoreWorld A) (k : A → stm StoreWorld B) a b :
  reads w m a → reads w (k a) b → reads w (stm_bind m k) b.
Proof.
  intros Hm Hk c Hc. destruct (Hm c Hc) as (c1 & Hc1 & E1), (Hk c1 Hc1) as (c2 & Hc2 & E2).
  exists c2. split; [done|]. unfold stm_bind. by rewrite E1.
Qed.

Lemma reads_map {A B} w (f : A → stm StoreWorld B) (P : A → B → Prop) l :
  Forall (λ x, ∃ y, reads w (f x) y ∧ P x y) l → ∃ ys, reads w (stm_map f l) ys ∧ Forall2 P l ys.
Proof.
  induction 1 as [|x l (y & Hy & HP) _ (ys & Hys & HPs)]; simpl.
  - exists []. split; [apply reads_ret|constructor].
  - exists (y :: ys). split; [|by constructor]. eapply reads_bind; [done|]. eapply reads_bind; [done|]. apply reads_ret.
Qed.

Lemma reads_manifest {T} `{!Serde T} env w key (v : T) :
  holds_json w key v → reads w (manifest_for_object_keys env T key) v.
Proof.
  intros Hh c Hc. pose proof Hh as (Hv & _).
  destruct (read_json env (sw_with_codec w c) key v Hc) as (b & c' & Hc' & Hr & Hj).
  { eapply holds_json_extends; [|exact Hh]. by apply extends_same. }
  exists c'. split; [done|]. unfold manifest_for_object_keys, stm_bind, stm_ok, stm_lift, outcome_of_result.
  rewrite Hv, Hr, Hj. done.
Qed.

Lemma holds_json_fun {T} `{!Serde T} w key (v v' : T) : oc_inv (sw_codec w) → holds_json w key v → holds_json w key v' → v' = v.
Proof. intros Hc. by apply holds_json_unique. Qed.

Section Run.
Context (w : StoreWorld) (env : StoreEnv) (codec_ok : oc_inv (sw_codec w)).

(** *** Nodes *)

Lemma node_at_fun d d' key es es' : node_at d w key es → node_at d' w key es' → es' = es.
Proof.
  revert d' key es es'. induction d as [|d IH]; intros [|d'] key es es'; simpl; [done..|].
  intros (node & parts & Hh & Hf & ->) (node' & parts' & Hh' & Hf' & ->).
  apply (holds_json_fun _ _ _ _ codec_ok Hh) in Hh' as ->. f_equal.
  clear Hh. revert parts' Hf'. induction Hf as [|child part cs parts Hp _ IHf]; intros parts' Hf'; inversion Hf'; subst; [done|].
  f_equal; [by eapply IH|by apply IHf].
Qed.

Lemma tree_at_fun d d' key es es' : tree_at d w key es → tree_at d' w key es' → es' = es.
Proof.
  intros (tree & Hh & Ht) (tree' & Hh' & Ht'). apply (holds_json_fun _ _ _ _ codec_ok Hh) in Hh' as ->.
  destruct (tm_entries tree), (tm_root_node tree); subst; eauto using node_at_fun.
Qed.

Lemma push_child_run d key es :
  node_at d w key es → ∃ keys, reads w (push_child_tree_node_keys env d key) keys ∧ ∀ k, k ∈ keys ↔ node_below w key k.
Proof.
  revert key es. induction d as [|d IH]; intros key es; [done|].
  intros (node & parts & Hh & Hf & ->). simpl.
  enough (Hloop : ∃ keys, reads w ((fix push (children : nodes_map) : stm StoreWorld (list string) :=
      match children with
      | [] => stm_ret []
      | (_, child) :: rest =>
        let* below := push_child_tree_node_keys env d (tnr_node_key child) in
        let* more := push rest in
        stm_ret (tnr_node_key child :: below ++ more)
      end) (tn_child_nodes node)) keys ∧
    ∀ k, k ∈ keys ↔ ∃ child, child ∈ (tn_child_nodes node).*2 ∧ (k = tnr_node_key child ∨ node_below w (tnr_node_key child) k)).
  { destruct Hloop as (keys & Hr & Hk). exists keys. split.
    - eapply reads_bind; [by apply reads_manifest|exact Hr].
    - intros k. rewrite Hk. split.
      + intros (child & Hc & [-> | Hb]); [by econstructor|by eapply node_below_deeper].
      + inversion 1 as [? node' child Hh' Hc|? node' child ? Hh' Hc Hb]; subst;
          apply (holds_json_fun _ _ _ _ codec_ok Hh) in Hh' as ->; exists child; auto. }
  clear Hh. revert parts Hf. generalize (tn_child_nodes node) as children.
  induction children as [|[name child] children IHc]; intros parts Hf.
  - exists []. split; [apply reads_ret|]. set_solver.
  - inversion Hf as [|? part ? parts' Hp Hf']; subst. simpl in Hp.
    destruct (IH _ _ Hp) as (below & Hr & Hb), (IHc _ Hf') as (more & Hr' & Hm).
    exists (tnr_node_key child :: below ++ more). split.
    + eapply reads_bind; [done|]. eapply reads_bind; [done|]. apply reads_ret.
    + intros k. rewrite elem_of_cons, elem_of_app, Hb, Hm. simpl. set_solver.
Qed.

Lemma extend_children_read (below : TreeNodeManifest → stm StoreWorld entries_map) children parts entries :
  Forall2 (λ child part, ∃ node, holds_json w (tnr_node_key child.2) node ∧ reads w (below node) part) children parts →
  reads w (extend_children_for_object_keys env below entries children) (fold_left bmap_extend parts entries).
Proof.
  intros Hf. revert entries. induction Hf as [|[name child] part cs ps (node & Hh & Hr) _ IH]; intros entries; simpl.
  - apply reads_ret.
  - eapply reads_bind; [by apply reads_manifest|]. eapply reads_bind; [done|]. apply IH.
Qed.

Lemma entries_from_node_read d key es :
  node_at d w key es → ∃ node, holds_json w key node ∧ reads w (tree_entries_from_node_for_object_keys env d node) es.
Proof.
  revert key es. induction d as [|d IH]; intros key es; [done|].
  intros (node & parts & Hh & Hf & ->). exists node. split; [done|]. simpl. apply extend_children_read.
  eapply Forall2_impl; [done|]. intros child part. apply IH.
Qed.

Lemma entries_read d key es :
  tree_at d w key es → ∃ tree, holds_json w key tree ∧ reads w (tree_entries_for_object_keys env d tree) es.
Proof.
  intros (tree & Hh & Ht). exists tree. split; [done|]. unfold tree_entries_for_object_keys.
  destruct (tm_entries tree); [|subst; apply reads_ret]. destruct (tm_root_node tree) as [rn|]; [|subst; apply reads_ret].
  destruct (entries_from_node_read _ _ _ Ht) as (node & Hn & Hr). eapply reads_bind; [by apply reads_manifest|done].
Qed.

(** *** Records, roots, snapshots *)

Lemma elem_of_concat_fst {A B} (f : A → list string) (P : B → string → Prop) (parts : list A) (l : list B) k :
  Forall2 (λ x p, ∀ k, k ∈ f p ↔ P x k) l parts → k ∈ concat (map f parts) ↔ ∃ x, x ∈ l ∧ P x k.
Proof.
  induction 1 as [|x p l parts Hp _ IH]; simpl; [set_solver|]. rewrite elem_of_app, Hp, IH. set_solver.
Qed.

Lemma record_read r :
  record_complete w r → ∃ p, reads w (record_keys env r) p ∧
    (∀ k, k ∈ p.1 ↔ record_needs w [] [] r k) ∧ (∀ oid, oid ∈ p.2 ↔ record_blob r oid).
Proof.
  intros Hc. unfold record_keys, record_blob.
  set (oids := match payload_blob_ref (fr_payload r) with Some (oid, _) => [oid] | None => [] end).
  assert (Hoids : ∀ oid, oid ∈ oids ↔ ∃ key, payload_blob_ref (fr_payload r) = Some (oid, key)).
  { intros oid. unfold oids. destruct (payload_blob_ref (fr_payload r)) as [[o key]|]; [|set_solver].
    rewrite list_elem_of_singleton. naive_solver. }
  destruct (payload_large_ref (fr_payload r)) as [[[oid mk] n]|] eqn:Hl.
  - destruct (Hc _ _ _ Hl) as (m & Hm). exists (mk :: map lc_object_key (lm_chunks m), oids). split_and!; [|clear Hoids|done].
    + eapply reads_bind; [by apply reads_manifest|]. apply reads_ret.
    + intros k. simpl. rewrite elem_of_cons, list_elem_of_fmap. split.
      * intros [-> | (c & -> & Hin)]; [by eapply rk_manifest|by eapply rk_chunk].
      * intros [? ? b _ Hb|? ? b ? ? _ Hb|? ? b ? ? _ Hb|? ? ? Hl'|? ? ? ? c Hl' Hm' Hin]; [by apply elem_of_nil in Hb..| |].
        -- left. congruence.
        -- rewrite Hl in Hl'. injection Hl' as <- <- <-.
           apply (holds_json_fun _ _ _ _ codec_ok Hm) in Hm' as ->. right. eauto.
  - exists ([], oids). split_and!; [apply reads_ret| |done]. intros k. split; [set_solver|].
    intros [? ? b _ Hb|? ? b ? ? _ Hb|? ? b ? ? _ Hb|? ? ? Hl'|? ? ? ? c Hl']; [by apply elem_of_nil in Hb..|congruence|congruence].
Qed.

(** The keys of a part without those of blobs, and the blobs. *)
Definition root_blob (depth : nat) (rt : RootSnapshot) (oid : string) : Prop :=
  ∃ es r, tree_at depth w (rs_tree_key rt) es ∧ r ∈ es.*2 ∧ record_blob r oid.

Lemma Forall2_both {A B} (P Q : A → B → Prop) l k : Forall2 (λ x y, P x y ∧ Q x y) l k → Forall2 P l k ∧ Forall2 Q l k.
Proof. intros Hf. split; (eapply Forall2_impl; [done|naive_solver]). Qed.

Lemma root_read depth rt :
  root_complete depth w rt → ∃ p, reads w (root_keys env depth rt) p ∧
    (∀ k, k ∈ p.1 ↔ root_needs depth w [] [] rt k) ∧ (∀ oid, oid ∈ p.2 ↔ root_blob depth rt oid).
Proof.
  intros (tree & es & Hh & Hn & Ht & Hr). unfold root_keys.
  destruct (reads_map w (node_keys env depth)
    (λ n keys, ∀ k, k ∈ keys ↔ k = tnr_node_key n ∨ node_below w (tnr_node_key n) k) (tree_nodes tree)) as (nodes & Hnr & Hnk).
  { eapply Forall_impl; [done|]. intros n (es' & Hn'). destruct (push_child_run _ _ _ Hn') as (below & Hb & Hk).
    exists (tnr_node_key n :: below). split; [|intros k; by rewrite elem_of_cons, Hk].
    eapply reads_bind; [done|]. apply reads_ret. }
  destruct (entries_read _ _ _ Ht) as (tree' & Hh' & Her). apply (holds_json_fun _ _ _ _ codec_ok Hh) in Hh' as ->.
  destruct (reads_map w (record_keys env) (λ r p, (∀ k, k ∈ p.1 ↔ record_needs w [] [] r k) ∧
    (∀ oid, oid ∈ p.2 ↔ record_blob r oid)) es.*2) as (parts & Hpr & Hp).
  { eapply Forall_impl; [done|]. intros r Hc. by destruct (record_read r Hc) as (p & ? & ?); exists p. }
  apply Forall2_both in Hp as [Hp1 Hp2].
  eexists. split; [|split].
  - eapply reads_bind; [by apply reads_manifest|]. eapply reads_bind; [done|]. eapply reads_bind; [done|].
    eapply reads_bind; [done|]. apply reads_ret.
  - intros k. simpl. rewrite elem_of_cons, elem_of_app.
    rewrite <-(list_fmap_id nodes), (elem_of_concat_fst id _ _ _ _ Hnk), (elem_of_concat_fst fst _ _ _ _ Hp1). split.
    + intros [-> | [(n & Hin & [-> | Hb])|(r & Hin & Hb)]];
        [constructor|by eapply ron_node|by eapply ron_below|by eapply ron_record].
    + intros [|tree' n Hh' Hin|tree' n key Hh' Hin Hb|es' r key Ht' Hin Hb]; [by left|right; left|right; left|right; right].
      * apply (holds_json_fun _ _ _ _ codec_ok Hh) in Hh' as ->. eauto.
      * apply (holds_json_fun _ _ _ _ codec_ok Hh) in Hh' as ->. eauto.
      * rewrite (tree_at_fun _ _ _ _ _ Ht Ht') in Hin. eauto.
  - intros oid. simpl. rewrite (elem_of_concat_fst snd _ _ _ _ Hp2). split.
    + intros (r & Hin & Hb). by exists es, r.
    + intros (es' & r & Ht' & Hin & Hb). rewrite (tree_at_fun _ _ _ _ _ Ht Ht') in Hin. eauto.
Qed.

Lemma snapshot_manifest_read s m : snapshot_manifest_is w s m → reads w (snapshot_manifest_for_object_keys env s) m.
Proof.
  unfold snapshot_manifest_is, snapshot_manifest_for_object_keys.
  destruct (is_empty (trim (se_manifest_json s))); simpl; [apply reads_manifest|]. intros ->. apply reads_ret.
Qed.

Lemma snapshot_manifest_fun s m m' : snapshot_manifest_is w s m → snapshot_manifest_is w s m' → m' = m.
Proof.
  unfold snapshot_manifest_is. destruct (is_empty _); [by apply holds_json_fun|congruence].
Qed.

Lemma snapshot_read depth s :
  snapshot_complete depth w s → ∃ p, reads w (snapshot_keys env depth s) p ∧
    (∀ k, k ∈ p.1 ↔ k = se_manifest_key s ∨ ∃ m rt, snapshot_manifest_is w s m ∧ rt ∈ (sm_root_trees m).*2 ∧
                    root_needs depth w [] [] rt k) ∧
    (∀ oid, oid ∈ p.2 ↔ ∃ m rt, snapshot_manifest_is w s m ∧ rt ∈ (sm_root_trees m).*2 ∧ root_blob depth rt oid).
Proof.
  intros (m & Hm & Hroots). unfold snapshot_keys.
  destruct (reads_map w (root_keys env depth) (λ rt p, (∀ k, k ∈ p.1 ↔ root_needs depth w [] [] rt k) ∧
    (∀ oid, oid ∈ p.2 ↔ root_blob depth rt oid)) (sm_root_trees m).*2) as (parts & Hr & Hp).
  { eapply Forall_impl; [done|]. intros rt Hc. by destruct (root_read depth rt Hc) as (p & ? & ?); exists p. }
  apply Forall2_both in Hp as [Hp1 Hp2]. eexists. split; [|split].
  - eapply reads_bind; [by apply snapshot_manifest_read|]. eapply reads_bind; [done|]. apply reads_ret.
  - intros k. simpl. rewrite elem_of_cons, (elem_of_concat_fst fst _ _ _ _ Hp1). f_equiv. split; [naive_solver|].
    intros (m' & rt & Hm' & Hin & Hk). rewrite (snapshot_manifest_fun _ _ _ Hm Hm') in Hin. eauto.
  - intros oid. simpl. rewrite (elem_of_concat_fst snd _ _ _ _ Hp2). split; [naive_solver|].
    intros (m' & rt & Hm' & Hin & Hk). rewrite (snapshot_manifest_fun _ _ _ Hm Hm') in Hin. eauto.
Qed.

(** *** All snapshots *)

(** The keys that hold a blob. *)
Definition blob_needs (blobs : list BlobExport) (packs : list PackExport) (oid k : string) : Prop :=
  ∃ b, b ∈ blobs ∧ be_oid b = oid ∧
    (be_pack_id b = None ∧ k = be_object_key b ∨
     ∃ p, be_pack_id b = Some (pk_pack_id p) ∧ p ∈ packs ∧ (k = pk_pack_key p ∨ k = pk_index_key p)).

Lemma payload_keys_spec export oids k :
  k ∈ payload_keys export oids ↔ ∃ oid, oid ∈ oids ∧ blob_needs (mx_blobs export) (mx_packs export) oid k.
Proof.
  unfold payload_keys, blob_needs. rewrite elem_of_app, !elem_of_flat_map. split.
  - intros [(b & [Hb Ho]%elem_of_filter_bool & Hk)|(p & [Hp Hid]%elem_of_filter_bool & Hk)].
    + apply bset_contains_true in Ho. exists (be_oid b). split; [done|]. exists b. split_and!; [done..|].
      destruct (be_pack_id b); set_solver.
    + apply bset_contains_true, elem_of_flat_map in Hid as (b & [Hb Ho]%elem_of_filter_bool & Hid).
      apply bset_contains_true in Ho. exists (be_oid b). split; [done|]. exists b. split_and!; [done..|].
      right. exists p. destruct (be_pack_id b); set_solver.
  - intros (oid & Ho & b & Hb & <- & [[Hn ->]|(p & Hs & Hp & Hk)]).
    + left. exists b. rewrite elem_of_filter_bool, bset_contains_true, Hn. set_solver.
    + right. exists p. rewrite elem_of_filter_bool, bset_contains_true. split; [|set_solver]. split; [done|].
      apply elem_of_flat_map. exists b. rewrite elem_of_filter_bool, bset_contains_true, Hs. set_solver.
Qed.

Lemma record_needs_split blobs packs r k :
  record_needs w blobs packs r k ↔ record_needs w [] [] r k ∨ ∃ oid, record_blob r oid ∧ blob_needs blobs packs oid k.
Proof.
  split.
  - intros [oid key b Hr Hb Ho Hp|oid key b id p Hr Hb Ho Hp Hin Hid|oid key b id p Hr Hb Ho Hp Hin Hid|oid mk n Hl|oid mk n m c Hl Hm Hc].
    + right. exists oid. split; [by exists key|]. exists b. auto.
    + right. exists oid. split; [by exists key|]. exists b. subst id. split_and!; [done..|]. right. exists p. auto.
    + right. exists oid. split; [by exists key|]. exists b. subst id. split_and!; [done..|]. right. exists p. auto.
    + left. by eapply rk_manifest.
    + left. by eapply rk_chunk.
  - intros [[? ? b _ Hb|? ? b ? ? _ Hb|? ? b ? ? _ Hb|oid mk n Hl|oid mk n m c Hl Hm Hc]
           |(oid & [key Hr] & b & Hb & Ho & [[Hn ->]|(p & Hs & Hp & [-> | ->])])]; try by apply elem_of_nil in Hb.
    + by eapply rk_manifest.
    + by eapply rk_chunk.
    + by eapply rk_loose.
    + by eapply rk_pack.
    + by eapply rk_pack_index.
Qed.

Lemma root_needs_split depth blobs packs rt k :
  root_needs depth w blobs packs rt k ↔
  root_needs depth w [] [] rt k ∨ ∃ oid, root_blob depth rt oid ∧ blob_needs blobs packs oid k.
Proof.
  split.
  - intros [|tree n Hh Hin|tree n key Hh Hin Hb|es r key Ht Hin Hb].
    + left. constructor.
    + left. by eapply ron_node.
    + left. by eapply ron_below.
    + apply record_needs_split in Hb as [Hb|(oid & Hb & Hk)]; [left; by eapply ron_record|].
      right. exists oid. split; [by exists es, r|done].
  - intros [[|tree n Hh Hin|tree n key Hh Hin Hb|es r key Ht Hin Hb]|(oid & (es & r & Ht & Hin & Hb) & Hk)].
    + constructor.
    + by eapply ron_node.
    + by eapply ron_below.
    + eapply ron_record; [done..|]. apply record_needs_split. by left.
    + eapply ron_record; [done..|]. apply record_needs_split. right. by exists oid.
Qed.

Lemma local_object_keys_read depth export :
  Forall (snapshot_complete depth w) (mx_snapshots export) →
  ∃ keys, reads w (local_object_keys env depth export) keys ∧ ∀ k, k ∈ keys ↔ reached depth w export k.
Proof.
  intros Hall. unfold local_object_keys, local_object_keys_inner.
  assert (Hf : ∀ l : list SnapshotExport, List.filter (λ _, true) l = l) by (clear; induction l; simpl; congruence).
  rewrite Hf.
  destruct (reads_map w (snapshot_keys env depth) (λ s p,
    (∀ k, k ∈ p.1 ↔ k = se_manifest_key s ∨ ∃ m rt, snapshot_manifest_is w s m ∧ rt ∈ (sm_root_trees m).*2 ∧
                    root_needs depth w [] [] rt k) ∧
    (∀ oid, oid ∈ p.2 ↔ ∃ m rt, snapshot_manifest_is w s m ∧ rt ∈ (sm_root_trees m).*2 ∧ root_blob depth rt oid))
    (mx_snapshots export)) as (parts & Hr & Hp).
  { eapply Forall_impl; [done|]. intros s Hc. by destruct (snapshot_read depth s Hc) as (p & ? & ?); exists p. }
  apply Forall2_both in Hp as [Hp1 Hp2]. eexists. split; [eapply reads_bind; [done|apply reads_ret]|].
  intros k. rewrite elem_of_bset_of_list, elem_of_app, payload_keys_spec, (elem_of_concat_fst fst _ _ _ _ Hp1).
  setoid_rewrite (elem_of_concat_fst snd _ _ _ _ Hp2). split.
  - intros [(s & Hs & [-> | (m & rt & Hm & Hrt & Hk)])|(oid & (s & Hs & m & rt & Hm & Hrt & Ho) & Hk)].
    + by constructor.
    + eapply reach_root; [done..|]. apply root_needs_split. by left.
    + eapply reach_root; [done..|]. apply root_needs_split. right. by exists oid.
  - intros [s Hs|s m rt key Hs Hm Hrt [Hk|(oid & Ho & Hk)]%root_needs_split]; [left; eauto 10..|].
    right. exists oid. split; [|done]. eauto 10.
Qed.

End Run.
End Needed.
