(* ===== verification/AtomicIo.v ===== *)
(** * Atomic file replacement

    [src/atomic_io.rs] with the helpers of [src/platform_runtime.rs] it calls (their
    Unix branches): a file is written under a temporary name beside its destination
    and renamed into place, and old temporary files are cleaned up.  Files live in a
    map from paths to bytes, and every system call may fail. *)

From S2P Require Import Prelude RStr Util.

(** ** A file system whose calls may fail *)

#[export] Instance Component_countable : Countable Component.
Proof.
  refine (inj_countable'
    (λ c, match c with RootDir => inl (Fin.F1 : Fin.t 3) | CurDir => inl (Fin.FS Fin.F1)
          | ParentDir => inl (Fin.FS (Fin.FS Fin.F1)) | Normal n => inr n end)
    (λ x, match x with
          | inl Fin.F1 => RootDir | inl (Fin.FS Fin.F1) => CurDir | inl _ => ParentDir
          | inr n => Normal n end) _).
  by intros [].
Defined.

(** Rust compares paths by their components. *)
Definition FsPath : Type := list Component.

(** The faults of the next system calls: [None] = the call succeeds, [Some n] = it
    fails, a write after [n] bytes. *)
Record FsState := {
  fs_files : gmap FsPath (list Z);
  fs_dirs : gset FsPath;
  fs_faults : list (option nat);
  fs_uuids : nat;
}.
Definition fs_with_files (s : FsState) f : FsState :=
  {| fs_files := f; fs_dirs := fs_dirs s; fs_faults := fs_faults s; fs_uuids := fs_uuids s |}.
Definition fs_with_dirs (s : FsState) d : FsState :=
  {| fs_files := fs_files s; fs_dirs := d; fs_faults := fs_faults s; fs_uuids := fs_uuids s |}.
Definition fs_with_faults (s : FsState) l : FsState :=
  {| fs_files := fs_files s; fs_dirs := fs_dirs s; fs_faults := l; fs_uuids := fs_uuids s |}.
Definition fs_tick (s : FsState) : FsState :=
  {| fs_files := fs_files s; fs_dirs := fs_dirs s; fs_faults := fs_faults s; fs_uuids := S (fs_uuids s) |}.

Abbreviation fs_m := (stm FsState).

Definition fs_sys {A} (op : fs_m A) : fs_m A := λ s,
  match fs_faults s with
  | Some _ :: l => (Fails "io", fs_with_faults s l)
  | None :: l => op (fs_with_faults s l)
  | [] => op s
  end.

(** [result.unwrap_or(d)] on a call. *)
Definition stm_or {S A} (d : A) (m : stm S A) : stm S A := λ s,
  match m s with (Fails _, s') => (Done d, s') | x => x end.
(** [let _ = call;] *)
Definition stm_ignore {S A} (m : stm S A) : stm S unit := stm_or tt (let* _ := m in stm_ret tt).

Definition fs_path_of (s : string) : FsPath := path_components s.
Definition fs_join (p : FsPath) (name : string) : FsPath := p ++ [Normal name].
(** [Path::parent] *)
Definition fs_parent (p : FsPath) : option FsPath :=
  match last p with None | Some RootDir => None | Some _ => Some (removelast p) end.
Definition fs_file_name (p : FsPath) : option string :=
  match last p with Some (Normal n) => Some n | _ => None end.
Definition fs_to_slash (p : FsPath) : string := join "/" (map component_str p).

Definition fs_exists (p : FsPath) : fs_m bool :=
  stm_or false (fs_sys (stm_get (λ s, bool_decide (is_Some (fs_files s !! p)) || bool_decide (p ∈ fs_dirs s)))).
Definition fs_is_dir (p : FsPath) : fs_m bool :=
  stm_or false (fs_sys (stm_get (λ s, bool_decide (p ∈ fs_dirs s)))).
Definition fs_read (p : FsPath) : fs_m (list Z) :=
  fs_sys (let* b := stm_get (λ s, fs_files s !! p) in stm_some "NotFound" b).
Definition fs_create_new (p : FsPath) : fs_m unit :=
  fs_sys (λ s, if bool_decide (is_Some (fs_files s !! p)) || bool_decide (p ∈ fs_dirs s)
               then (Fails "AlreadyExists", s)
               else (Done tt, fs_with_files s (<[p := []]> (fs_files s)))).
Definition fs_write_all (p : FsPath) (bytes : list Z) : fs_m unit := λ s,
  let store b s := fs_with_files s (alter (λ _, b) p (fs_files s)) in
  match fs_faults s with
  | Some n :: l => (Fails "io", store (take n bytes) (fs_with_faults s l))
  | None :: l => (Done tt, store bytes (fs_with_faults s l))
  | [] => (Done tt, store bytes s)
  end.
Definition fs_sync (p : FsPath) : fs_m unit := fs_sys (stm_ret tt).
Definition fs_rename (p q : FsPath) : fs_m unit :=
  fs_sys (λ s, if bool_decide (q ∈ fs_dirs s) then (Fails "IsADirectory", s) else
    match fs_files s !! p with
    | None => (Fails "NotFound", s)
    | Some b => (Done tt, fs_with_files s (<[q := b]> (delete p (fs_files s))))
    end).
Definition fs_remove_file (p : FsPath) : fs_m unit :=
  fs_sys (λ s, match fs_files s !! p with
    | None => (Fails "NotFound", s)
    | Some _ => (Done tt, fs_with_files s (delete p (fs_files s)))
    end).
(** A path and those above it. *)
Fixpoint ancestors (above p : FsPath) : list FsPath :=
  above :: match p with [] => [] | c :: p' => ancestors (above ++ [c]) p' end.
Definition fs_create_dir_all (p : FsPath) : fs_m unit :=
  fs_sys (λ s, if existsb (λ q, bool_decide (is_Some (fs_files s !! q))) (ancestors [] p)
               then (Fails "AlreadyExists", s)
               else (Done tt, fs_with_dirs s (list_to_set (ancestors [] p) ∪ fs_dirs s))).
Definition fs_hard_link (p q : FsPath) : fs_m unit :=
  fs_sys (λ s, if bool_decide (is_Some (fs_files s !! q)) || bool_decide (q ∈ fs_dirs s)
               then (Fails "AlreadyExists", s) else
    match fs_files s !! p with
    | None => (Fails "NotFound", s)
    | Some b => (Done tt, fs_with_files s (<[q := b]> (fs_files s)))
    end).

(** A call whose failure with [NotFound] counts as success. *)
Definition allow_missing (m : fs_m unit) : fs_m unit := λ s,
  match m s with
  | (Fails e, s') => if (e =? "NotFound")%string then (Done tt, s') else (Fails e, s')
  | x => x
  end.

(** ** Replacing a file *)

Section AtomicIo.
(** The random part of the names of temporary files. *)
Context (uuid : nat → string).

Definition replace_file_atomic (source destination : FsPath) : fs_m unit := fs_rename source destination.

Definition sync_parent_dir (path : FsPath) : fs_m unit :=
  match fs_parent path with
  | None | Some [] => stm_ret tt
  | Some parent => let* _ := fs_sys (stm_ret tt) in fs_sync parent
  end.
Definition fsync_parent_dir (path : FsPath) : fs_m unit := sync_parent_dir path.

Definition atomic_temp_path (dest : FsPath) : fs_m FsPath := λ s,
  let parent := default [CurDir] (fs_parent dest) in
  let file_name := default "restore" (fs_file_name dest) in
  (Done (fs_join parent ("." +:+ file_name +:+ ".mjtmp-" +:+ uuid (fs_uuids s))), fs_tick s).

Fixpoint create_temp_loop (attempts : nat) (dest : FsPath) : fs_m FsPath :=
  match attempts with
  | O => stm_fail "failed to allocate temporary restore file"
  | S attempts' =>
    let* tmp := atomic_temp_path dest in
    λ s, match fs_create_new tmp s with
         | (Done _, s') => (Done tmp, s')
         | (Fails e, s') => if (e =? "AlreadyExists")%string then create_temp_loop attempts' dest s'
                            else (Fails "create", s')
         | (Panics, s') => (Panics, s')
         end
  end.
Definition create_atomic_temp (dest : FsPath) : fs_m FsPath := create_temp_loop 16 dest.

(** What the callers write into the temporary file: given bytes, or the contents of
    another file. *)
Inductive Contents := Bytes (bytes : list Z) | CopyOf (source : FsPath).

Definition write_contents (c : Contents) (file : FsPath) : fs_m unit :=
  match c with
  | Bytes bytes => fs_write_all file bytes
  | CopyOf source => let* input := fs_read source in fs_write_all file input
  end.

(** Removes the temporary file when the rest fails. *)
Definition or_discard {A} (tmp : FsPath) (m : fs_m A) : fs_m A := λ s,
  match m s with
  | (Fails e, s') => (Fails e, (stm_ignore (fs_remove_file tmp) s').2)
  | x => x
  end.

Definition write_atomic_body (c : Contents) (tmp dest : FsPath) : fs_m unit :=
  let* _ := write_contents c tmp in
  let* _ := fs_sync tmp in
  let* _ := replace_file_atomic tmp dest in
  fsync_parent_dir dest.

Definition write_atomic_with (dest : FsPath) (c : Contents) : fs_m unit :=
  let* is_dir := fs_is_dir dest in
  if is_dir : bool then stm_fail "restore target is a directory" else
  let* tmp := create_atomic_temp dest in
  or_discard tmp (write_atomic_body c tmp dest).

Definition write_atomic (dest : FsPath) (bytes : list Z) : fs_m unit := write_atomic_with dest (Bytes bytes).

(** ** Cleaning up *)

Definition is_atomic_temp_name (name : string) : bool := starts_with name "." && contains name ".mjtmp-".

(** The files of a directory, by name. *)
Definition dir_files (dir : FsPath) (s : FsState) : list string :=
  omap (λ '(p, _), match fs_file_name p with
                   | Some n => if bool_decide (p = fs_join dir n) then Some n else None
                   | None => None end) (map_to_list (fs_files s)).

(** The entries are looked at one by one; the number of files removed. *)
Fixpoint cleanup_loop (stale : FsPath → bool) (dir : FsPath) (removed : nat) (names : list string) : fs_m nat :=
  match names with
  | [] => stm_ret removed
  | name :: rest =>
    let* _ := fs_sys (stm_ret tt) in
    if negb (is_atomic_temp_name name) then cleanup_loop stale dir removed rest else
    let* _ := fs_sys (stm_ret tt) in
    if negb (stale (fs_join dir name)) then cleanup_loop stale dir removed rest else
    λ s, match fs_remove_file (fs_join dir name) s with
         | (Done _, s') => cleanup_loop stale dir (S removed) rest s'
         | (Fails e, s') => if (e =? "NotFound")%string then cleanup_loop stale dir removed rest s'
                            else (Fails "remove", s')
         | (Panics, s') => (Panics, s')
         end
  end.

(** [stale p]: the file was last changed long enough ago. *)
Definition cleanup_stale_atomic_temps (stale : FsPath → bool) (dir : FsPath) : fs_m nat :=
  let* here := fs_exists dir in
  if negb here then stm_ret 0%nat else
  let* _ := fs_sys (stm_ret tt) in
  let* names := stm_get (dir_files dir) in
  cleanup_loop stale dir 0 names.
End AtomicIo.

(** ** Properties *)

(** A state with other faults ahead. *)
Lemma fs_sys_inv {A} (op : fs_m A) s r s' :
  fs_sys op s = (r, s') →
  ∃ l, (r = Fails "io" ∧ s' = fs_with_faults s l) ∨ op (fs_with_faults s l) = (r, s').
Proof.
  unfold fs_sys. destruct (fs_faults s) as [|[n|] l] eqn:Hf; intros Hrun.
  - exists []. right. replace (fs_with_faults s []) with s; [done|]. destruct s; simpl in *. by subst.
  - exists l. left. by injection Hrun as <- <-.
  - exists l. by right.
Qed.

Lemma fs_exists_run p s r s' : fs_exists p s = (r, s') →
  ∃ l b, r = Done b ∧ s' = fs_with_faults s l ∧ (b = true → is_Some (fs_files s !! p) ∨ p ∈ fs_dirs s).
Proof.
  unfold fs_exists, stm_or. destruct (fs_sys _ s) as [r0 s0] eqn:Hs.
  apply fs_sys_inv in Hs as (l & [(-> & ->)|[= <- <-]]); intros [= <- <-]; eexists _, _; split_and!; [done..|].
  simpl. intros [?%bool_decide_eq_true|?%bool_decide_eq_true]%orb_true_iff; auto.
Qed.

Lemma fs_is_dir_run p s r s' : fs_is_dir p s = (r, s') → ∃ l b, r = Done b ∧ s' = fs_with_faults s l.
Proof.
  unfold fs_is_dir, stm_or. destruct (fs_sys _ s) as [r0 s0] eqn:Hs.
  apply fs_sys_inv in Hs as (l & [(-> & ->)|[= <- <-]]); intros [= <- <-]; eauto.
Qed.

Lemma fs_read_run p s r s' : fs_read p s = (r, s') →
  ∃ l, s' = fs_with_faults s l ∧ ((∃ e, r = Fails e) ∨ ∃ b, r = Done b ∧ fs_files s !! p = Some b).
Proof.
  unfold fs_read. intros (l & [(-> & ->)|Hr])%fs_sys_inv; exists l; [eauto|].
  unfold stm_bind, stm_get, stm_some in Hr. simpl in Hr.
  destruct (fs_files s !! p) eqn:Hp; injection Hr as <- <-; eauto.
Qed.

(** A file that is there is read, unless the call fails. *)
Lemma fs_read_found p b s r s' : fs_files s !! p = Some b → fs_read p s = (r, s') →
  ∃ l, s' = fs_with_faults s l ∧ (r = Done b ∨ r = Fails "io").
Proof.
  intros Hb. unfold fs_read. intros (l & [(-> & ->)|Hr])%fs_sys_inv; exists l; [by auto|].
  unfold stm_bind, stm_get, stm_some in Hr. simpl in Hr. rewrite Hb in Hr. injection Hr as <- <-. by auto.
Qed.

Lemma fs_remove_file_run p s r s' : fs_remove_file p s = (r, s') →
  fs_dirs s' = fs_dirs s ∧
  ((r = Done tt ∧ is_Some (fs_files s !! p) ∧ fs_files s' = delete p (fs_files s)) ∨
   ((∃ e, r = Fails e ∧ (e = "NotFound" → fs_files s !! p = None)) ∧ fs_files s' = fs_files s)).
Proof.
  unfold fs_remove_file. intros (l & [(-> & ->)|Hr])%fs_sys_inv.
  - split; [done|]. right. split; [|done]. by exists "io".
  - simpl in Hr. destruct (fs_files s !! p) eqn:Hp; injection Hr as <- <-; simpl; (split; [done|]).
    + left. eauto.
    + right. split; [|done]. by exists "NotFound".
Qed.

(** The temporary names of a destination. *)
Definition temp_of (uuid : nat → string) (dest tmp : FsPath) : Prop :=
  ∃ k, tmp = fs_join (default [CurDir] (fs_parent dest))
               ("." +:+ default "restore" (fs_file_name dest) +:+ ".mjtmp-" +:+ uuid k).

Lemma fs_parent_join p n : fs_parent (fs_join p n) = Some p.
Proof. unfold fs_parent, fs_join. by rewrite last_snoc, removelast_last. Qed.
Lemma fs_file_name_join p n : fs_file_name (fs_join p n) = Some n.
Proof. unfold fs_file_name, fs_join. by rewrite last_snoc. Qed.

Lemma temp_of_ne uuid dest tmp : temp_of uuid dest tmp → tmp ≠ dest.
Proof.
  intros (u & ->) Heq. apply (f_equal fs_file_name) in Heq. rewrite fs_file_name_join in Heq.
  symmetry in Heq. rewrite Heq in Heq. simpl in Heq. injection Heq as Heq.
  apply (f_equal String.length) in Heq. rewrite !str_length_app in Heq. simpl in Heq. lia.
Qed.

(** Whatever a replacement leaves behind the cleanup recognises. *)
Lemma temp_of_name uuid dest tmp : temp_of uuid dest tmp →
  ∃ n, fs_file_name tmp = Some n ∧ is_atomic_temp_name n = true.
Proof.
  intros (u & ->). rewrite fs_file_name_join. eexists. split; [done|].
  unfold is_atomic_temp_name. rewrite starts_with_app. rewrite andb_true_l. apply contains_true.
  exists ("." +:+ default "restore" (fs_file_name dest)), (uuid u). by rewrite !str_app_assoc.
Qed.

(** *** Replacing a file *)

Section Replace.
Context (uuid : nat → string).

(** The bytes a source stands for. *)
Definition contents_of (s : FsState) (c : Contents) : option (list Z) :=
  match c with Bytes b => Some b | CopyOf p => fs_files s !! p end.
(** A source is not itself a temporary file. *)
Definition plain_contents (c : Contents) : Prop :=
  match c with
  | Bytes _ => True
  | CopyOf p => ∀ n, fs_file_name p = Some n → is_atomic_temp_name n = false
  end.

Lemma create_temp_run n dest s r s' : create_temp_loop uuid n dest s = (r, s') →
  fs_dirs s' = fs_dirs s ∧
  (((∃ e, r = Fails e) ∧ fs_files s' = fs_files s) ∨
   ∃ tmp, r = Done tmp ∧ temp_of uuid dest tmp ∧ fs_files s !! tmp = None ∧ fs_files s' = <[tmp := []]> (fs_files s)).
Proof.
  revert s; induction n as [|n IH]; intros s; cbn [create_temp_loop]; [intros [= <- <-]; eauto|].
  unfold stm_bind, atomic_temp_path. set (tmp := fs_join _ _).
  destruct (fs_create_new tmp (fs_tick s)) as [r0 s0] eqn:Hc. unfold fs_create_new in Hc.
  apply fs_sys_inv in Hc as (l & [(-> & ->)|Hc]); [intros [= <- <-]; eauto|]. simpl in Hc.
  destruct (_ || _) eqn:Hx; injection Hc as <- <-.
  - intros Hrun. apply IH in Hrun. exact Hrun.
  - intros [= <- <-]. split; [done|]. right. exists tmp. split; [done|]. split; [eexists; reflexivity|].
    apply orb_false_iff in Hx as [Hx _]. apply bool_decide_eq_false in Hx.
    split; [by apply eq_None_not_Some|done].
Qed.

Lemma fs_write_all_run p b s r s' : is_Some (fs_files s !! p) → fs_write_all p b s = (r, s') →
  fs_dirs s' = fs_dirs s ∧ ∃ b', fs_files s' = <[p := b']> (fs_files s) ∧ (r = Done tt ∧ b' = b ∨ ∃ e, r = Fails e).
Proof.
  intros [b0 Hb0]. assert (∀ x, alter (λ _, x) p (fs_files s) = <[p := x]> (fs_files s)) as Halt.
  { intros x. apply map_eq. intros q. destruct (decide (p = q)) as [<-|].
    - by rewrite lookup_alter_eq, lookup_insert_eq, Hb0.
    - by rewrite lookup_alter_ne, lookup_insert_ne. }
  unfold fs_write_all. destruct (fs_faults s) as [|[n|] l]; intros [= <- <-]; simpl; rewrite Halt; eauto 10.
Qed.

Lemma write_contents_run c tmp s0 s r s' :
  plain_contents c → (∀ n, fs_file_name tmp = Some n → is_atomic_temp_name n = true) → is_Some (fs_file_name tmp) →
  fs_files s0 !! tmp = None → fs_files s = <[tmp := []]> (fs_files s0) →
  write_contents c tmp s = (r, s') →
  fs_dirs s' = fs_dirs s ∧ ∃ b, fs_files s' = <[tmp := b]> (fs_files s0) ∧
    (r = Done tt ∧ contents_of s0 c = Some b ∨ ∃ e, r = Fails e).
Proof.
  intros Hplain Htmp [nt Hnt] Hnone Hs. assert (Hsome : is_Some (fs_files s !! tmp)).
  { rewrite Hs, lookup_insert_eq. eauto. }
  destruct c as [b|source]; simpl.
  - intros (Hd & b' & Hf & Hr)%fs_write_all_run; [|done]. split; [done|]. exists b'.
    rewrite Hf, Hs, insert_insert_eq. split; [done|]. naive_solver.
  - unfold stm_bind. destruct (fs_read source s) as [r1 s1] eqn:Hread.
    apply fs_read_run in Hread as (l & -> & [(e & ->)|(b & -> & Hb)]).
    + intros [= <- <-]. split; [done|]. exists []. simpl. rewrite Hs. eauto.
    + intros (Hd & b' & Hf & Hr)%fs_write_all_run; [|done]. simpl in Hd, Hf. split; [done|]. exists b'.
      rewrite Hf, Hs, insert_insert_eq. split; [done|].
      destruct Hr as [(-> & ->)|?]; [left; split; [done|]|by right].
      rewrite Hs in Hb. rewrite lookup_insert_ne in Hb; [done|]. intros <-.
      specialize (Hplain nt Hnt). rewrite Htmp in Hplain; done.
Qed.

(** What a replacement can leave: nothing changed, only a temporary file, or the
    destination replaced. *)
Definition replaced (dest : FsPath) (d : option (list Z)) (f f' : gmap FsPath (list Z)) : Prop :=
  ∃ b, d = Some b ∧ f' = <[dest := b]> f.
Definition littered (dest : FsPath) (f f' : gmap FsPath (list Z)) : Prop :=
  ∃ tmp b, temp_of uuid dest tmp ∧ f !! tmp = None ∧ f' = <[tmp := b]> f.

Lemma sync_parent_dir_run path s r s' : sync_parent_dir path s = (r, s') →
  fs_dirs s' = fs_dirs s ∧ fs_files s' = fs_files s ∧ (r = Done tt ∨ ∃ e, r = Fails e).
Proof.
  unfold sync_parent_dir, fs_sync. destruct (fs_parent path) as [[|c cs]|]; try (intros [= <- <-]; by auto).
  unfold stm_bind. destruct (fs_sys _ s) as [r1 s1] eqn:H1.
  apply fs_sys_inv in H1 as (l1 & [(-> & ->)|[= <- <-]]); [intros [= <- <-]; by eauto|].
  intros (l2 & [(-> & ->)|[= <- <-]])%fs_sys_inv; by eauto.
Qed.

Lemma write_atomic_body_run c tmp dest s0 s r s' :
  plain_contents c → temp_of uuid dest tmp → fs_files s0 !! tmp = None → fs_files s = <[tmp := []]> (fs_files s0) →
  write_atomic_body c tmp dest s = (r, s') →
  fs_dirs s' = fs_dirs s ∧
  ((r = Done tt ∧ replaced dest (contents_of s0 c) (fs_files s0) (fs_files s')) ∨
   ((∃ e, r = Fails e) ∧ (replaced dest (contents_of s0 c) (fs_files s0) (fs_files s') ∨
                          ∃ b, fs_files s' = <[tmp := b]> (fs_files s0)))).
Proof.
  intros Hplain Htemp Hnone Hs. pose proof (temp_of_name _ _ _ Htemp) as (n & Hn & Hnt).
  unfold write_atomic_body. unfold stm_bind at 1. destruct (write_contents c tmp s) as [r1 s1] eqn:H1.
  apply (write_contents_run c tmp s0) in H1 as (Hd1 & b & Hf1 & Hr1); [|done|by rewrite Hn; intros ? [= <-]|by eauto|done..].
  destruct Hr1 as [(-> & Hc)|(e & ->)]; [|intros [= <- <-]; by eauto 10].
  unfold stm_bind at 1, fs_sync. destruct (fs_sys _ s1) as [r2 s2] eqn:H2.
  apply fs_sys_inv in H2 as (l2 & [(-> & ->)|[= <- <-]]); [intros [= <- <-]; by eauto 10|].
  unfold stm_bind at 1, replace_file_atomic, fs_rename. destruct (fs_sys _ _) as [r3 s3] eqn:H3.
  apply fs_sys_inv in H3 as (l3 & [(-> & ->)|H3]); [intros [= <- <-]; by eauto 10|]. simpl in H3.
  destruct (bool_decide (dest ∈ fs_dirs s1)); [injection H3 as <- <-; intros [= <- <-]; by eauto 10|].
  rewrite Hf1, lookup_insert_eq in H3. injection H3 as <- <-.
  intros (Hd4 & Hf4 & Hr4)%sync_parent_dir_run. simpl in Hd4, Hf4. rewrite delete_insert_id in Hf4 by done.
  split; [congruence|]. destruct Hr4 as [->|?]; [left|right]; (split; [done|]); [|left]; exists b; auto.
Qed.

Lemma write_atomic_with_run dest c s r s' :
  plain_contents c → write_atomic_with uuid dest c s = (r, s') →
  fs_dirs s' = fs_dirs s ∧
  ((r = Done tt ∧ replaced dest (contents_of s c) (fs_files s) (fs_files s')) ∨
   ((∃ e, r = Fails e) ∧ (fs_files s' = fs_files s ∨ littered dest (fs_files s) (fs_files s') ∨
                          replaced dest (contents_of s c) (fs_files s) (fs_files s')))).
Proof.
  intros Hplain. unfold write_atomic_with. unfold stm_bind at 1. destruct (fs_is_dir dest s) as [r0 s0] eqn:H0.
  apply fs_is_dir_run in H0 as (l0 & [] & -> & ->);
    [intros [= <- <-]; split; [done|]; right; split; [by eauto|by left]|].
  unfold stm_bind, create_atomic_temp. destruct (create_temp_loop _ _ _ _) as [r1 s1] eqn:H1.
  apply create_temp_run in H1 as (Hd1 & [((e & ->) & Hf1)|(tmp & -> & Htemp & Hnone & Hf1)]).
  { intros [= <- <-]. split; [done|]. right. split; [by eauto|by left]. }
  simpl in Hd1, Hnone, Hf1. unfold or_discard. destruct (write_atomic_body c tmp dest s1) as [r2 s2] eqn:H2.
  apply (write_atomic_body_run c tmp dest s) in H2 as (Hd2 & Hr2); [|done..].
  destruct Hr2 as [(-> & Hrep)|((e & ->) & Hr2)].
  { intros [= <- <-]. split; [congruence|by auto]. }
  unfold stm_ignore, stm_or, stm_bind. destruct (fs_remove_file tmp s2) as [r3 s3] eqn:H3.
  apply fs_remove_file_run in H3 as (Hd3 & Hr3). intros Hrun.
  assert (r = Fails e ∧ s' = s3) as [-> ->].
  { destruct Hr3 as [(-> & _)|((e3 & -> & _) & _)]; by injection Hrun as <- <-. }
  split; [congruence|]. right. split; [by eauto|].
  destruct Hr2 as [(b & Hb & Hf2)|(b & Hf2)]; destruct Hr3 as [(_ & Hsome & Hf3)|(_ & Hf3)].
  - exfalso. rewrite Hf2 in Hsome. rewrite lookup_insert_ne in Hsome by (by eapply not_eq_sym, temp_of_ne).
    rewrite Hnone in Hsome. by destruct Hsome.
  - right; right. exists b. by rewrite Hf3.
  - left. by rewrite Hf3, Hf2, delete_insert_id.
  - right; left. exists tmp, b. by rewrite Hf3.
Qed.
End Replace.
