(* ===== verification/LinkFs.v ===== *)
(** * A file system with symbolic links

    The calls of [std::fs] and [libc] that a restore makes, on Unix: a tree of
    directories, files, symbolic links and special files, paths that are resolved
    component by component through links and [..], and calls that change the tree and
    may fail.  Entries are kept by their real location, the names below the root; the
    times and link counts the system itself maintains are not part of an entry. *)

From S2P Require Import Prelude RStr Util AtomicIo.

(** ** Entries *)

Inductive Node := NDir | NFile (bytes : list Z) | NLink (target : string) | NSpecial (special_kind : string).

#[export] Instance Node_eq_dec : EqDecision Node.
Proof. solve_decision. Defined.

(** A modification time is kept once it has been set. *)
Record Meta := {
  mt_mode : Z;
  mt_uid : Z;
  mt_gid : Z;
  mt_mtime : option Z;
  mt_xattrs : gmap string (list Z);
}.
Record Entry := { en_node : Node; en_meta : Meta }.

Abbreviation Loc := (list string).
Abbreviation FsTree := (gmap (list string) Entry).

(** ** Paths as the system sees them

    [components] drops a trailing separator and a trailing [.]; the system does not: a
    path with such a tail names the directory a final link leads to. *)
Inductive Tail := NoTail | Slash | SlashDot.

Fixpoint drop_empty (parts : list string) : list string :=
  match parts with "" :: rest => drop_empty rest | _ => parts end.
Definition path_tail (path : string) : Tail :=
  match rev (split slash path) with
  | "" :: rest => match drop_empty rest with "." :: _ => SlashDot | _ => Slash end
  | "." :: _ :: _ => SlashDot
  | _ => NoTail
  end.

Record KPath := { kp_comps : list Component; kp_tail : Tail }.
Definition kpath (path : string) : KPath := {| kp_comps := path_components path; kp_tail := path_tail path |}.
Definition of_comps (cs : list Component) : KPath := {| kp_comps := cs; kp_tail := NoTail |}.
Definition kp_full (p : KPath) : list Component :=
  kp_comps p ++ match kp_tail p with NoTail => [] | _ => [CurDir] end.

(** ** Resolution *)

(** The location a component leads to from a directory, links apart. *)
Definition loc_step (cur : Loc) (c : Component) : Loc :=
  match c with RootDir => [] | CurDir => cur | ParentDir => removelast cur | Normal n => cur ++ [n] end.

(** [links]: how many links may still be followed; [follow]: a final link is followed. *)
Fixpoint walk (links : nat) (fs : FsTree) (follow : bool) : Loc → list Component → result Loc string :=
  fix go (cur : Loc) (cs : list Component) {struct cs} : result Loc string :=
    match cs with
    | [] => Ok cur
    | Normal n :: rest =>
      let q := cur ++ [n] in
      match en_node <$> fs !! q with
      | None => match rest with [] => Ok q | _ => Err "NotFound" end
      | Some NDir => go q rest
      | Some (NLink target) =>
        if match rest with [] => negb follow | _ => false end then Ok q else
        match links with
        | O => Err "FilesystemLoop"
        | S links' => walk links' fs follow cur (kp_full (kpath target) ++ rest)
        end
      | Some _ => match rest with [] => Ok q | _ => Err "NotADirectory" end
      end
    | c :: rest => go (loc_step cur c) rest
    end.

(** The root is a directory whatever the tree says. *)
Definition root_meta : Meta := Build_Meta 493 0 0 None ∅.
Definition entry_at (fs : FsTree) (l : Loc) : option Entry :=
  match l with
  | [] => Some {| en_node := NDir; en_meta := from_option en_meta root_meta (fs !! []) |}
  | _ => fs !! l
  end.

(** ** Calls *)

(** The fault of a call: the kind of its error (one that does not follow from the tree),
    and for a write how much was written. *)
Inductive FaultKind := PermissionDenied | Unsupported | OtherFault.
Definition fault_str (k : FaultKind) : string :=
  match k with PermissionDenied => "PermissionDenied" | Unsupported => "Unsupported" | OtherFault => "Other" end.
Record Fault := { ft_kind : FaultKind; ft_written : nat }.
Record LfState := {
  lf_tree : FsTree;
  lf_faults : list (option Fault);
  lf_names : nat;
}.
Definition lf_with_tree (s : LfState) t : LfState :=
  {| lf_tree := t; lf_faults := lf_faults s; lf_names := lf_names s |}.
Definition lf_with_faults (s : LfState) l : LfState :=
  {| lf_tree := lf_tree s; lf_faults := l; lf_names := lf_names s |}.
Definition lf_tick (s : LfState) : LfState :=
  {| lf_tree := lf_tree s; lf_faults := lf_faults s; lf_names := S (lf_names s) |}.

Abbreviation lf_m := (stm LfState).

Section Calls.
(** The working directory, and the mode mask and identity of the process. *)
Context (cwd : Loc) (umask euid egid : Z).

Definition locate (follow : bool) (fs : FsTree) (p : KPath) : result Loc string :=
  match kp_full p with [] => Err "NotFound" | cs => walk 40 fs follow cwd cs end.

Definition lookup_path (follow : bool) (p : KPath) (fs : FsTree) : result Entry string :=
  let? l := locate follow fs p in
  match entry_at fs l with Some e => Ok e | None => Err "NotFound" end.

(** [fs::symlink_metadata], and [fs::metadata] with [follow]; looking is not subject to
    faults. *)
Definition symlink_metadata (p : KPath) : lf_m Entry :=
  let* r := stm_get (λ s, lookup_path false p (lf_tree s)) in stm_ok r.
Definition metadata (p : KPath) : lf_m Entry :=
  let* r := stm_get (λ s, lookup_path true p (lf_tree s)) in stm_ok r.
(** [Path::try_exists]: only a missing file counts as absent. *)
Definition try_exists (p : KPath) : lf_m bool := λ s,
  match metadata p s with
  | (Done _, s') => (Done true, s')
  | (Fails e, s') => if (e =? "NotFound")%string then (Done false, s') else (Fails e, s')
  | (Panics, s') => (Panics, s')
  end.
Definition is_dir_entry (e : Entry) : bool := match en_node e with NDir => true | _ => false end.
Definition is_link_entry (e : Entry) : bool := match en_node e with NLink _ => true | _ => false end.
Definition is_file_entry (e : Entry) : bool := match en_node e with NFile _ => true | _ => false end.
Definition path_is_dir (p : KPath) : lf_m bool := stm_or false (let* e := metadata p in stm_ret (is_dir_entry e)).

(** A call that changes the tree: it fails when the next fault says so. *)
Definition sys {A} (op : FsTree → outcome A string * FsTree) : lf_m A := λ s,
  let run s := match op (lf_tree s) with (r, t) => (r, lf_with_tree s t) end in
  match lf_faults s with
  | Some f :: l => (Fails (fault_str (ft_kind f)), lf_with_faults s l)
  | None :: l => run (lf_with_faults s l)
  | [] => run s
  end.

(** A change at the location a path names. *)
Definition at_path (follow : bool) (p : KPath) (op : Loc → option Entry → FsTree → outcome unit string * FsTree) :
    lf_m unit :=
  sys (λ fs, match locate follow fs p with Ok l => op l (entry_at fs l) fs | Err e => (Fails e, fs) end).

Definition fresh_meta (mode : Z) : Meta :=
  {| mt_mode := Z.land mode (Z.lnot umask); mt_uid := euid; mt_gid := egid; mt_mtime := None; mt_xattrs := ∅ |}.
Definition create_entry (p : KPath) (n : Node) (mode : Z) : lf_m unit :=
  at_path false p (λ l e fs, match e with
    | Some _ => (Fails "AlreadyExists", fs)
    | None => (Done tt, <[l := {| en_node := n; en_meta := fresh_meta mode |}]> fs)
    end).
(** [mkdir] accepts a trailing separator. *)
Definition strip_slash (p : KPath) : KPath :=
  match kp_tail p with Slash => of_comps (kp_comps p) | _ => p end.
Definition create_dir (p : KPath) : lf_m unit := create_entry (strip_slash p) NDir 511.
Definition mkfifo (p : KPath) (mode : Z) : lf_m unit := create_entry p (NSpecial "fifo") mode.
Definition symlink (target : string) (p : KPath) : lf_m unit :=
  if is_empty target then stm_fail "NotFound" else create_entry p (NLink target) 511.

Definition remove_file (p : KPath) : lf_m unit :=
  at_path false p (λ l e fs, match en_node <$> e with
    | None => (Fails "NotFound", fs)
    | Some NDir => (Fails "IsADirectory", fs)
    | Some _ => (Done tt, delete l fs)
    end).

Definition occupied (fs : FsTree) (l : Loc) : bool :=
  bool_decide (map_Exists (λ q _, l `prefix_of` q ∧ q ≠ l) fs).
Definition remove_dir (p : KPath) : lf_m unit :=
  match kp_tail p with
  | SlashDot => stm_fail "InvalidInput"
  | _ => at_path false (strip_slash p) (λ l e fs, match en_node <$> e with
      | None => (Fails "NotFound", fs)
      | Some NDir => if occupied fs l then (Fails "DirectoryNotEmpty", fs) else (Done tt, delete l fs)
      | Some _ => (Fails "NotADirectory", fs)
      end)
  end.

(** [rename] of a file. *)
Definition rename (p q : KPath) : lf_m unit :=
  sys (λ fs, match locate false fs p, locate false fs q with
    | Ok from, Ok to =>
      match entry_at fs from, en_node <$> entry_at fs to with
      | None, _ => (Fails "NotFound", fs)
      | Some _, Some NDir => (Fails "IsADirectory", fs)
      | Some e, _ => (Done tt, <[to := e]> (delete from fs))
      end
    | Err e, _ | _, Err e => (Fails e, fs)
    end).

Definition change_meta (follow : bool) (p : KPath) (f : Meta → Meta) : lf_m unit :=
  at_path follow p (λ l e fs, match e with
    | None => (Fails "NotFound", fs)
    | Some e => (Done tt, <[l := {| en_node := en_node e; en_meta := f (en_meta e) |}]> fs)
    end).
Definition set_permissions (p : KPath) (mode : Z) : lf_m unit :=
  change_meta true p (λ m, Build_Meta mode (mt_uid m) (mt_gid m) (mt_mtime m) (mt_xattrs m)).
(** [utimensat] without flags. *)
Definition utimens (p : KPath) (seconds : Z) : lf_m unit :=
  change_meta true p (λ m, Build_Meta (mt_mode m) (mt_uid m) (mt_gid m) (Some seconds) (mt_xattrs m)).
(** [fchownat] with [AT_SYMLINK_NOFOLLOW]. *)
Definition lchown (p : KPath) (uid gid : Z) : lf_m unit :=
  change_meta false p (λ m, Build_Meta (mt_mode m) uid gid (mt_mtime m) (mt_xattrs m)).
(** [xattr::set], which does not follow a final link. *)
Definition set_xattr (p : KPath) (name : string) (value : list Z) : lf_m unit :=
  change_meta false p (λ m, Build_Meta (mt_mode m) (mt_uid m) (mt_gid m) (mt_mtime m) (<[name := value]> (mt_xattrs m))).

(** [OpenOptions::create_new]; the open file is its location.  A write goes to the end
    of the file, and a fault leaves a part of the bytes. *)
Definition open_new (p : KPath) : lf_m Loc :=
  sys (λ fs, match locate false fs p with
    | Ok l => match entry_at fs l with
              | Some _ => (Fails "AlreadyExists", fs)
              | None => (Done l, <[l := {| en_node := NFile []; en_meta := fresh_meta 438 |}]> fs) end
    | Err e => (Fails e, fs)
    end).
Definition append (b : list Z) (e : Entry) : Entry :=
  {| en_node := match en_node e with NFile old => NFile (old ++ b) | n => n end; en_meta := en_meta e |}.
Definition write_all (file : Loc) (bytes : list Z) : lf_m unit := λ s,
  let put b fs := alter (append b) file fs in
  match lf_faults s with
  | Some f :: l => (Fails (fault_str (ft_kind f)), lf_with_faults (lf_with_tree s (put (take (ft_written f) bytes) (lf_tree s))) l)
  | None :: l => (Done tt, lf_with_faults (lf_with_tree s (put bytes (lf_tree s))) l)
  | [] => (Done tt, lf_with_tree s (put bytes (lf_tree s)))
  end.
Definition sync_all : lf_m unit := sys (λ fs, (Done tt, fs)).

(** [fs::create_dir_all]: the directories above are made when one is missing.  [n] is
    the number of components. *)
Definition create_dir_or_exists (p : KPath) : lf_m unit := λ s,
  match create_dir p s with
  | (Fails e, s') => match path_is_dir p s' with
                     | (Done true, s'') => (Done tt, s'')
                     | (_, s'') => (Fails e, s'') end
  | x => x
  end.
Fixpoint create_dir_all_go (n : nat) (p : KPath) : lf_m unit := λ s,
  match create_dir p s with
  | (Fails e, s') =>
    if (e =? "NotFound")%string then
      match n, fs_parent (kp_comps p) with
      | S n', Some parent =>
        (let* _ := match parent with [] => stm_ret tt | _ => create_dir_all_go n' (of_comps parent) end in
         create_dir_or_exists p) s'
      | _, _ => (Fails "failed to create whole tree", s')
      end
    else match path_is_dir p s' with
         | (Done true, s'') => (Done tt, s'')
         | (_, s'') => (Fails e, s'') end
  | x => x
  end.
Definition create_dir_all (p : KPath) : lf_m unit := create_dir_all_go (length (kp_comps p)) p.
End Calls.

(** ** Resolution without links *)

(** The locations a path passes through, and the one it leads to. *)
Fixpoint steps (cur : Loc) (cs : list Component) : list Loc :=
  match cs with [] => [] | c :: rest => loc_step cur c :: steps (loc_step cur c) rest end.
Definition lex (cur : Loc) (cs : list Component) : Loc := foldl loc_step cur cs.

Definition nonlink (fs : FsTree) (l : Loc) : Prop :=
  ∀ e, entry_at fs l = Some e → is_link_entry e = false.
Definition is_dir (fs : FsTree) (l : Loc) : Prop :=
  ∃ e, entry_at fs l = Some e ∧ is_dir_entry e = true.

Lemma is_dir_nonlink fs l : is_dir fs l → nonlink fs l.
Proof. intros (e & He & Hd) e' He'. simplify_eq. destruct e as [[] ?]; done. Qed.

Lemma steps_app cur cs ds : steps cur (cs ++ ds) = steps cur cs ++ steps (lex cur cs) ds.
Proof. revert cur; induction cs as [|c cs IH]; intros cur; simpl; [done|]. by rewrite IH. Qed.
Lemma lex_app cur cs ds : lex cur (cs ++ ds) = lex (lex cur cs) ds.
Proof. apply foldl_app. Qed.
Lemma lex_normals cur names : lex cur (map Normal names) = cur ++ names.
Proof.
  revert cur; induction names as [|n names IH]; intros cur; simpl; [by rewrite app_nil_r|].
  rewrite IH. by rewrite <-app_assoc.
Qed.

Lemma entry_at_snoc fs cur n : entry_at fs (cur ++ [n]) = fs !! (cur ++ [n]).
Proof. by destruct cur. Qed.

Lemma entry_at_insert fs l e q : l ≠ [] →
  entry_at (<[l := e]> fs) q = if decide (q = l) then Some e else entry_at fs q.
Proof.
  intros Hl. destruct (decide (q = l)) as [->|Hq].
  - destruct l; [done|]. apply lookup_insert_eq.
  - destruct q; simpl; by rewrite lookup_insert_ne.
Qed.
Lemma entry_at_delete fs l q : l ≠ [] →
  entry_at (delete l fs) q = if decide (q = l) then None else entry_at fs q.
Proof.
  intros Hl. destruct (decide (q = l)) as [->|Hq].
  - destruct l; [done|]. apply lookup_delete_eq.
  - destruct q; simpl; by rewrite lookup_delete_ne.
Qed.
Lemma entry_at_ne fs l : l ≠ [] → entry_at fs l = fs !! l.
Proof. by destruct l. Qed.
Lemma entry_at_None fs l : entry_at fs l = None → l ≠ [] ∧ fs !! l = None.
Proof. by destruct l. Qed.

(** A path that meets no link leads where its components say, if anywhere. *)
Lemma walk_linkfree k fs follow cur cs ds l :
  Forall (nonlink fs) (steps cur cs) →
  walk k fs follow cur (cs ++ ds) = Ok l → walk k fs follow (lex cur cs) ds = Ok l.
Proof.
  revert cur; induction cs as [|c cs IH]; intros cur; [done|]. cbn [steps]. intros [Hc Hcs]%Forall_cons_1.
  assert (Hgo : walk k fs follow (loc_step cur c) (cs ++ ds) = Ok l → walk k fs follow (lex cur (c :: cs)) ds = Ok l)
    by apply (IH _ Hcs).
  destruct c as [| | |n]; [destruct k; exact Hgo..|].
  assert (Hend : fs !! (cur ++ [n]) = None ∨ cs ++ ds = [] ∨ is_Some (fs !! (cur ++ [n]))) by
    (destruct (fs !! (cur ++ [n])); eauto).
  unfold nonlink in Hc. cbn [loc_step] in Hc. rewrite entry_at_snoc in Hc.
  destruct k; simpl; destruct (fs !! (cur ++ [n])) as [[nd m]|]; simpl;
    try (destruct nd; [exact Hgo|..|]; try (specialize (Hc _ eq_refl); done));
    destruct (cs ++ ds) eqn:E; try done; apply app_eq_nil in E as [-> ->]; done.
Qed.

(** A path along directories leads where its components say. *)
Lemma walk_dirs k fs follow cur cs ds :
  Forall (is_dir fs) (steps cur cs) → walk k fs follow cur (cs ++ ds) = walk k fs follow (lex cur cs) ds.
Proof.
  revert cur; induction cs as [|c cs IH]; intros cur; [done|]. cbn [steps]. intros [Hc Hcs]%Forall_cons_1.
  specialize (IH _ Hcs). change (lex cur (c :: cs)) with (lex (loc_step cur c) cs). rewrite <-IH.
  destruct c as [| | |n]; [by destruct k..|].
  destruct Hc as (e & He & Hd). cbn [loc_step] in He. rewrite entry_at_snoc in He.
  destruct k; simpl; rewrite He; simpl; destruct e as [[] ?]; done.
Qed.

(** ** What the calls do *)

Section Runs.
Context (cwd : Loc) (umask euid egid : Z).

(** The path names nothing but this location. *)
Definition names (follow : bool) (fs : FsTree) (p : KPath) (l : Loc) : Prop :=
  ∀ q, locate cwd follow fs p = Ok q → q = l.

Definition linkfree (fs : FsTree) (cs : list Component) : Prop := Forall (nonlink fs) (steps cwd cs).

Lemma linkfree_app fs cs ds : linkfree fs (cs ++ ds) → linkfree fs cs.
Proof. unfold linkfree. rewrite steps_app. by intros [? _]%Forall_app. Qed.
Lemma linkfree_snoc fs cs n : linkfree fs (cs ++ [Normal n]) ↔ linkfree fs cs ∧ nonlink fs (lex cwd cs ++ [n]).
Proof. unfold linkfree. rewrite steps_app, Forall_app. apply and_iff_compat_l. simpl. by rewrite Forall_singleton. Qed.

Lemma locate_of_comps follow fs c cs : locate cwd follow fs (of_comps (c :: cs)) = walk 40 fs follow cwd (c :: cs).
Proof. unfold locate, kp_full. cbn [kp_comps kp_tail of_comps]. by rewrite app_nil_r. Qed.

Lemma names_linkfree follow fs cs : linkfree fs cs → names follow fs (of_comps cs) (lex cwd cs).
Proof.
  intros Hl q. destruct cs as [|c cs]; [done|]. rewrite locate_of_comps. intros Hw.
  rewrite <-(app_nil_r (c :: cs)) in Hw. apply walk_linkfree in Hw; [|done]. by injection Hw.
Qed.
Lemma names_leaf fs cs n : linkfree fs cs → names false fs (of_comps (cs ++ [Normal n])) (lex cwd cs ++ [n]).
Proof.
  intros Hl q. destruct (cs ++ [Normal n]) as [|c cs'] eqn:E; [by destruct cs|]. rewrite locate_of_comps, <-E.
  intros Hw%walk_linkfree; [|done]. simpl in Hw.
  destruct (en_node <$> fs !! (lex cwd cs ++ [n])) as [[]|]; by simplify_eq/=.
Qed.
Lemma locate_leaf fs cs c :
  Forall (is_dir fs) (steps cwd cs) → locate cwd false fs (of_comps (cs ++ [c])) = Ok (lex cwd (cs ++ [c])).
Proof.
  intros Hd. rewrite lex_app. destruct (cs ++ [c]) as [|c' cs'] eqn:E; [by destruct cs|].
  rewrite locate_of_comps, <-E, walk_dirs by done. simpl. destruct c as [| | |n]; [done..|].
  by destruct (en_node <$> fs !! (lex cwd cs ++ [n])) as [[]|].
Qed.

Lemma symlink_metadata_run p s r s' : symlink_metadata cwd p s = (r, s') →
  s' = s ∧ r = outcome_of_result (lookup_path cwd false p (lf_tree s)).
Proof. unfold symlink_metadata, stm_bind, stm_get, stm_ok, stm_lift. by intros [= <- <-]. Qed.
Lemma lookup_path_names follow fs p l e :
  names follow fs p l → lookup_path cwd follow p fs = Ok e → entry_at fs l = Some e.
Proof.
  intros Hn. unfold lookup_path. intros (q & Hq%Hn & He)%result_bind_Ok. subst q.
  destruct (entry_at fs l); naive_solver.
Qed.
Lemma path_is_dir_run p s r s' : path_is_dir cwd p s = (r, s') →
  ∃ b, r = Done b ∧ s' = s ∧ (b = true → ∃ e, lookup_path cwd true p (lf_tree s) = Ok e ∧ is_dir_entry e = true).
Proof.
  unfold path_is_dir, stm_or, metadata, stm_bind, stm_get, stm_ok, stm_lift.
  destruct (lookup_path cwd true p (lf_tree s)); simpl; intros [= <- <-];
    eexists; (split_and!; [done|done|]); [by eauto|done].
Qed.

Lemma sys_run {A} (op : FsTree → outcome A string * FsTree) s r s' : sys op s = (r, s') →
  ((∃ e, r = Fails e) ∧ lf_tree s' = lf_tree s) ∨ op (lf_tree s) = (r, lf_tree s').
Proof.
  unfold sys. destruct (lf_faults s) as [|[f|] l].
  - destruct (op (lf_tree s)) eqn:E. intros [= <- <-]. by right.
  - intros [= <- <-]. eauto.
  - destruct (op (lf_tree s)) eqn:E; simpl; rewrite E. intros [= <- <-]. by right.
Qed.

(** A call fails and changes nothing, or does its work at the location it names. *)
Definition failed {A} (r : outcome A string) (fs fs' : FsTree) : Prop := (∃ e, r = Fails e) ∧ fs' = fs.

Lemma at_path_run follow p l op s r s' :
  names follow (lf_tree s) p l → at_path cwd follow p op s = (r, s') →
  failed r (lf_tree s) (lf_tree s') ∨ op l (entry_at (lf_tree s) l) (lf_tree s) = (r, lf_tree s').
Proof.
  intros Hn. intros [?|Hop]%sys_run; [by left|].
  destruct (locate _ _ _ _) as [q|e] eqn:E; [|left; simplify_eq; split; eauto].
  right. by rewrite (Hn _ E) in Hop.
Qed.

Lemma create_entry_run p l n mode s r s' :
  names false (lf_tree s) p l → create_entry cwd umask euid egid p n mode s = (r, s') →
  failed r (lf_tree s) (lf_tree s') ∨
  r = Done tt ∧ entry_at (lf_tree s) l = None ∧
  lf_tree s' = <[l := {| en_node := n; en_meta := fresh_meta umask euid egid mode |}]> (lf_tree s).
Proof.
  intros Hn [?|Hop]%(at_path_run _ _ l); [by left| |done].
  destruct (entry_at (lf_tree s) l); simplify_eq; [left; split; eauto|by right].
Qed.

(** Where the path leads somewhere, a failure to make an entry is not [NotFound]. *)
Lemma create_entry_kind p l n mode s e s' :
  locate cwd false (lf_tree s) p = Ok l → create_entry cwd umask euid egid p n mode s = (Fails e, s') → e ≠ "NotFound".
Proof.
  intros Hl. unfold create_entry, at_path, sys. intros Hrun He. subst e.
  destruct (lf_faults s) as [|[[[] ?]|] fl]; [|done..|]; simpl in Hrun; rewrite Hl in Hrun;
    by destruct (entry_at (lf_tree s) l).
Qed.

Lemma remove_file_run p l s r s' :
  names false (lf_tree s) p l → remove_file cwd p s = (r, s') →
  failed r (lf_tree s) (lf_tree s') ∨
  r = Done tt ∧ (∃ e, entry_at (lf_tree s) l = Some e ∧ is_dir_entry e = false) ∧ lf_tree s' = delete l (lf_tree s).
Proof.
  intros Hn [?|Hop]%(at_path_run _ _ l); [by left| |done].
  destruct (entry_at (lf_tree s) l) as [[[] m]|]; simplify_eq/=; try (left; split; by eauto); right; eauto.
Qed.

Lemma remove_dir_run cs l s r s' :
  names false (lf_tree s) (of_comps cs) l → remove_dir cwd (of_comps cs) s = (r, s') →
  failed r (lf_tree s) (lf_tree s') ∨
  r = Done tt ∧ is_dir (lf_tree s) l ∧ occupied (lf_tree s) l = false ∧ lf_tree s' = delete l (lf_tree s).
Proof.
  intros Hn. unfold remove_dir. cbn [kp_tail of_comps strip_slash].
  intros [?|Hop]%(at_path_run _ _ l); [by left| |done].
  destruct (entry_at (lf_tree s) l) as [[nd m]|] eqn:E; simplify_eq/=; [|left; split; by eauto].
  destruct nd; simplify_eq/=; try (left; split; by eauto).
  destruct (occupied (lf_tree s) l) eqn:Ho; simplify_eq; [left; split; by eauto|].
  right. split_and!; [done| |done..]. eexists; split; [exact E|done].
Qed.

Lemma change_meta_run follow p l f s r s' :
  names follow (lf_tree s) p l → change_meta cwd follow p f s = (r, s') →
  failed r (lf_tree s) (lf_tree s') ∨
  r = Done tt ∧ ∃ e, entry_at (lf_tree s) l = Some e ∧
    lf_tree s' = <[l := {| en_node := en_node e; en_meta := f (en_meta e) |}]> (lf_tree s).
Proof.
  intros Hn [?|Hop]%(at_path_run _ _ l); [by left| |done].
  destruct (entry_at (lf_tree s) l); simplify_eq; [right; eauto|left; split; by eauto].
Qed.

Lemma rename_run p q l1 l2 s r s' :
  names false (lf_tree s) p l1 → names false (lf_tree s) q l2 → rename cwd p q s = (r, s') →
  failed r (lf_tree s) (lf_tree s') ∨
  r = Done tt ∧ ∃ e, entry_at (lf_tree s) l1 = Some e ∧
    (∀ e2, entry_at (lf_tree s) l2 = Some e2 → is_dir_entry e2 = false) ∧
    lf_tree s' = <[l2 := e]> (delete l1 (lf_tree s)).
Proof.
  intros H1 H2 [?|Hop]%sys_run; [by left|].
  destruct (locate cwd false _ p) as [x|] eqn:Ex; [|left; simplify_eq; split; by eauto].
  destruct (locate cwd false _ q) as [y|] eqn:Ey; [|left; simplify_eq; split; by eauto].
  rewrite (H1 _ Ex), (H2 _ Ey) in Hop.
  destruct (entry_at (lf_tree s) l1) as [e|]; [|left; simplify_eq; split; by eauto].
  destruct (entry_at (lf_tree s) l2) as [[nd m]|]; simplify_eq/=;
    [destruct nd; simplify_eq/=; try (left; split; by eauto)|]; right;
    (split; [done|]; eexists; split_and!; [done| |done]); by intros ? [= <-].
Qed.

Lemma open_new_run p l s r s' :
  names false (lf_tree s) p l → open_new cwd umask euid egid p s = (r, s') →
  failed r (lf_tree s) (lf_tree s') ∨
  r = Done l ∧ entry_at (lf_tree s) l = None ∧
  lf_tree s' = <[l := {| en_node := NFile []; en_meta := fresh_meta umask euid egid 438 |}]> (lf_tree s).
Proof.
  intros Hn [?|Hop]%sys_run; [by left|].
  destruct (locate cwd false _ p) as [q|] eqn:Eq; [|left; simplify_eq; split; by eauto].
  pose proof (Hn _ Eq) as ->. destruct (entry_at (lf_tree s) l); simplify_eq; [left; split; by eauto|by right].
Qed.

Lemma write_all_run file b s r s' : write_all file b s = (r, s') →
  r = Done tt ∧ lf_tree s' = alter (append b) file (lf_tree s) ∨
  ∃ e n, r = Fails e ∧ lf_tree s' = alter (append (take n b)) file (lf_tree s).
Proof. unfold write_all. destruct (lf_faults s) as [|[f|] fl]; intros [= <- <-]; simpl; eauto 10. Qed.

Lemma sync_all_run s r s' : sync_all s = (r, s') → lf_tree s' = lf_tree s ∧ (r = Done tt ∨ ∃ e, r = Fails e).
Proof. intros [[(e & ->) ->]|[= <- <-]]%sys_run; eauto. Qed.
End Runs.

(** ** Joined paths *)

(** A path without a trailing separator keeps that below a base. *)
Lemma path_tail_join b p names : plain_rel p names → path_tail p = NoTail → path_tail (path_join b p) = NoTail.
Proof.
  intros Hp Ht. destruct (plain_rel_parts _ _ Hp) as [Habs _]. destruct Hp as [Hp Hn].
  assert (∃ x rest, rev (split slash p) = x :: rest ∧ x ≠ "" ∧ x ≠ ".") as (x & rest & Hx & Hx1 & Hx2).
  { unfold path_tail in Ht. destruct (rev (split slash p)) as [|x rest] eqn:E.
    { apply (f_equal (rev (A:=string))) in E. rewrite rev_involutive in E. by apply split_by_not_nil in E. }
    exists x, rest. split; [done|]. split.
    - intros ->. destruct (drop_empty rest) as [|y ?]; [done|]. by repeat case_match.
    - intros ->. destruct rest; [|done]. apply (f_equal (rev (A:=string))) in E. rewrite rev_involutive in E.
      unfold path_components in Hp. rewrite Habs, E in Hp. by destruct names. }
  assert (Hgo : ∀ q, path_tail (q +:+ "/" +:+ p) = NoTail).
  { intros q. unfold path_tail. change (q +:+ "/" +:+ p) with (q +:+ String slash p).
    rewrite split_app_sep, List.rev_app_distr, Hx. simpl.
    repeat case_match; simplify_eq; done. }
  unfold path_join. rewrite Habs. destruct (is_empty b) eqn:Hb; [by destruct b|]. simpl orb.
  destruct (ends_with b "/") eqn:He; [|apply Hgo].
  apply ends_with_true in He as [b' ->]. rewrite <-str_app_assoc. apply Hgo.
Qed.
