(* ===== verification/FileRemote.v ===== *)
(** * Remotes that accept uploads

    The interface through which the upload queue stores objects on a remote, and its
    implementation by a directory: the [File] arms of [RemoteStore] in
    [src/remote_store.rs], with the publication of new objects by hard link and its
    fallback under a lock file. *)

From S2P Require Import Prelude RStr Util Store AtomicIo.

(** ** The interface *)

(** [rp_lookup] is what the remote durably holds, [rp_present] what it answers to a
    question for existence, [rp_reserved] are keys the remote uses for itself
    (temporary objects). *)
Class RemotePut := {
  rp_state : Type;
  rp_lookup : rp_state → string → option (list Z);
  rp_present : rp_state → string → Prop;
  rp_reserved : string → Prop;
  rp_put : string → list Z → stm rp_state unit;
  rp_put_if_absent : string → list Z → stm rp_state bool;
  rp_exists : string → stm rp_state bool;
}.

(** An attempt to store [b] under [key]: the other objects stay, nothing disappears,
    and the object is the old or the new one. *)
Definition store_attempt `{!RemotePut} (key : string) (b : list Z) (s s' : rp_state) : Prop :=
  (∀ k, ¬ rp_reserved k → k ≠ key → rp_lookup s' k = rp_lookup s k) ∧
  (¬ rp_reserved key → rp_lookup s' key = rp_lookup s key ∨ rp_lookup s' key = Some b) ∧
  (∀ k, ¬ rp_reserved k → rp_present s k → rp_present s' k).

Class RemotePutLaws `{!RemotePut} : Prop := {
  rp_lookup_present s k : is_Some (rp_lookup s k) → rp_present s k;
  rp_put_attempt key b s : ¬ rp_reserved key → store_attempt key b s (rp_put key b s).2;
  rp_put_done key b s s' : ¬ rp_reserved key → rp_put key b s = (Done tt, s') → rp_lookup s' key = Some b;
  rp_put_if_absent_attempt key b s : ¬ rp_reserved key → store_attempt key b s (rp_put_if_absent key b s).2;
  rp_put_if_absent_done key b s x s' :
    ¬ rp_reserved key → rp_put_if_absent key b s = (Done x, s') → rp_present s' key;
  rp_exists_same key s k : rp_lookup (rp_exists key s).2 k = rp_lookup s k;
  rp_exists_present key s k : rp_present (rp_exists key s).2 k ↔ rp_present s k;
  rp_exists_true key s s' : rp_exists key s = (Done true, s') → rp_present s' key;
}.

(** ** A directory as remote *)

Section FileRemote.
Context (uuid : nat → string) (root : FsPath).

Definition file_remote_path (key : string) : result FsPath string :=
  let? _ := validate_slash_relative_key key in Ok (root ++ fs_path_of key).

Definition create_parent (path : FsPath) : fs_m unit :=
  match fs_parent path with Some parent => fs_create_dir_all parent | None => stm_ret tt end.

Definition file_remote_put_atomic (path : FsPath) (bytes : list Z) : fs_m unit :=
  let* _ := create_parent path in write_atomic uuid path bytes.
Definition file_remote_put_file_atomic (path source : FsPath) : fs_m unit :=
  let* _ := create_parent path in write_atomic_with uuid path (CopyOf source).

Definition object_name (path : FsPath) : string := default "object" (fs_file_name path).
Definition file_remote_tmp_path (path : FsPath) : fs_m FsPath := λ s,
  (Done (fs_join (default [CurDir] (fs_parent path))
           ("." +:+ object_name path +:+ ".mjtmp-" +:+ uuid (fs_uuids s))), fs_tick s).
Definition file_remote_lock_path (path : FsPath) : FsPath :=
  fs_join (default [CurDir] (fs_parent path)) ("." +:+ object_name path +:+ ".mjlock").

Definition FILE_REMOTE_LOCK_RETRIES : nat := 200.

(** The publication under the lock: [true] when the object is new. *)
Definition publish_locked (path tmp : FsPath) : fs_m bool :=
  let* there := fs_exists path in
  if there : bool then let* _ := fs_remove_file tmp in stm_ret false else
  let* _ := fs_rename tmp path in
  let* _ := fsync_parent_dir path in
  stm_ret true.

Fixpoint lock_loop (retries : nat) (path tmp lock_path : FsPath) (publish_error : string) : fs_m bool :=
  match retries with
  | O => stm_fail publish_error
  | S retries' => λ s,
    match fs_create_new lock_path s with
    | (Done _, s1) =>
      let '(r, s2) := publish_locked path tmp s1 in (r, (stm_ignore (fs_remove_file lock_path) s2).2)
    | (Fails e, s1) =>
      if (e =? "AlreadyExists")%string then
        (let* there := fs_exists path in
         if there : bool then let* _ := fs_remove_file tmp in stm_ret false
         else lock_loop retries' path tmp lock_path publish_error) s1
      else (Fails e, s1)
    | (Panics, s1) => (Panics, s1)
    end
  end.
Definition file_remote_put_if_absent_with_lock (path tmp : FsPath) (publish_error : string) : fs_m bool :=
  lock_loop FILE_REMOTE_LOCK_RETRIES path tmp (file_remote_lock_path path) publish_error.

Definition publish (path tmp : FsPath) : fs_m bool := λ s,
  match fs_hard_link tmp path s with
  | (Done _, s1) =>
    (let* _ := fs_remove_file tmp in let* _ := fsync_parent_dir path in stm_ret true) s1
  | (Fails e, s1) =>
    if (e =? "AlreadyExists")%string then (let* _ := fs_remove_file tmp in stm_ret false) s1
    else file_remote_put_if_absent_with_lock path tmp e s1
  | (Panics, s1) => (Panics, s1)
  end.

Definition put_if_absent_body (path tmp : FsPath) (c : Contents) : fs_m bool :=
  let* _ := write_contents c tmp in
  let* _ := fs_sync tmp in
  publish path tmp.

Definition file_remote_put_if_absent_atomic (path : FsPath) (c : Contents) : fs_m bool :=
  let* _ := create_parent path in
  let* tmp := file_remote_tmp_path path in
  let* _ := fs_create_new tmp in
  or_discard tmp (put_if_absent_body path tmp c).

(** The [File] arms of [RemoteStore]. *)
Definition file_put (key : string) (bytes : list Z) : fs_m unit :=
  let* path := stm_ok (file_remote_path key) in file_remote_put_atomic path bytes.
Definition file_put_file (key : string) (source : FsPath) : fs_m unit :=
  let* path := stm_ok (file_remote_path key) in file_remote_put_file_atomic path source.
Definition file_put_if_absent (key : string) (bytes : list Z) : fs_m bool :=
  let* path := stm_ok (file_remote_path key) in file_remote_put_if_absent_atomic path (Bytes bytes).
Definition file_put_file_if_absent (key : string) (source : FsPath) : fs_m bool :=
  let* path := stm_ok (file_remote_path key) in file_remote_put_if_absent_atomic path (CopyOf source).
Definition file_get (key : string) : fs_m (list Z) :=
  let* path := stm_ok (file_remote_path key) in fs_read path.
Definition file_get_optional (key : string) : fs_m (option (list Z)) :=
  let* path := stm_ok (file_remote_path key) in
  λ s, match fs_read path s with
       | (Done b, s') => (Done (Some b), s')
       | (Fails e, s') => if (e =? "NotFound")%string || (e =? "NotADirectory")%string
                          then (Done None, s') else (Fails e, s')
       | (Panics, s') => (Panics, s')
       end.
Definition file_delete (key : string) : fs_m unit :=
  let* path := stm_ok (file_remote_path key) in
  let* there := fs_exists path in
  if there : bool then fs_remove_file path else stm_ret tt.
Definition file_exists (key : string) : fs_m bool :=
  let* path := stm_ok (file_remote_path key) in fs_exists path.

(** What the directory holds: the files under valid keys. *)
Definition file_lookup (s : FsState) (key : string) : option (list Z) :=
  match file_remote_path key with Ok path => fs_files s !! path | Err _ => None end.

Definition file_present (s : FsState) (key : string) : Prop :=
  ∃ path, file_remote_path key = Ok path ∧ (is_Some (fs_files s !! path) ∨ path ∈ fs_dirs s).

Definition reserved_name (n : string) : bool :=
  starts_with n "." && (contains n ".mjtmp-" || ends_with n ".mjlock").
Definition file_reserved (key : string) : Prop :=
  ∃ n, fs_file_name (fs_path_of key) = Some n ∧ reserved_name n = true.
End FileRemote.

(** ** The directory keeps the promises of the interface *)

Definition reserved_path (q : FsPath) : Prop := ∃ n, fs_file_name q = Some n ∧ reserved_name n = true.

(** Only reserved names and [path] are touched, and [path] only to hold [d]. *)
Record touched (path : FsPath) (d : list Z) (s s' : FsState) : Prop := {
  to_dirs : fs_dirs s ⊆ fs_dirs s';
  to_other q : ¬ reserved_path q → q ≠ path → fs_files s' !! q = fs_files s !! q;
  to_path : fs_files s' !! path = fs_files s !! path ∨ fs_files s' !! path = Some d;
}.
#[export] Instance touched_preorder path d : PreOrder (touched path d).
Proof.
  split.
  - intros s. split; [done|done|by left].
  - intros s1 s2 s3 [D1 O1 P1] [D2 O2 P2]. split.
    + set_solver.
    + intros q Hq Hne. by rewrite O2, O1.
    + destruct P2 as [->|]; [done|by right].
Qed.

Lemma touched_same path d s s' : fs_dirs s ⊆ fs_dirs s' → fs_files s' = fs_files s → touched path d s s'.
Proof. intros Hd Hf. rewrite_all Hf. split; [done|by rewrite Hf|rewrite Hf; by left]. Qed.

Lemma touched_reserved path d s s' q v :
  ¬ reserved_path path → reserved_path q → fs_dirs s ⊆ fs_dirs s' →
  fs_files s' = <[q := v]> (fs_files s) ∨ fs_files s' = delete q (fs_files s) → touched path d s s'.
Proof.
  intros Hp Hq Hd Hf.
  assert (Hsame : ∀ x, ¬ reserved_path x → fs_files s' !! x = fs_files s !! x).
  { intros x Hx. assert (q ≠ x) by (by intros ->). destruct Hf as [-> | ->]; by simplify_map_eq. }
  split; [done| |left]; auto.
Qed.

Lemma touched_path path d s s' :
  ¬ reserved_path path → fs_dirs s ⊆ fs_dirs s' → fs_files s' = <[path := d]> (fs_files s) → touched path d s s'.
Proof. intros Hp Hd Hf. split; [done| |right]; intros; rewrite Hf; by simplify_map_eq. Qed.

(** Something is at the path. *)
Definition there (path : FsPath) (s : FsState) : Prop := is_Some (fs_files s !! path) ∨ path ∈ fs_dirs s.

Lemma there_touched path d q s s' : ¬ reserved_path q → touched path d s s' → there q s → there q s'.
Proof.
  intros Hq [Hd Ho Hp] [Hf|Hi]; [left|right; set_solver].
  destruct (decide (q = path)) as [->|Hne]; [|by rewrite Ho].
  destruct Hp as [-> | ->]; by eauto.
Qed.

Lemma touched_faults path d s l : touched path d s (fs_with_faults s l).
Proof. by apply touched_same. Qed.

Lemma create_parent_run path d p s r s' : create_parent p s = (r, s') →
  touched path d s s' ∧ fs_files s' = fs_files s.
Proof.
  unfold create_parent. destruct (fs_parent p) as [parent|]; [|intros [= <- <-]; split; [reflexivity|done]].
  unfold fs_create_dir_all. intros (l & [(-> & ->)|Hr])%fs_sys_inv; [split; [apply touched_faults|done]|].
  destruct (existsb _ _); injection Hr as <- <-; (split; [|done]); apply touched_same; set_solver.
Qed.

Section Publish.
Context (path tmp : FsPath) (d : list Z).
Hypothesis path_plain : ¬ reserved_path path.
Hypothesis tmp_reserved : reserved_path tmp.

(** The temporary object holds the new contents or is gone. *)
Definition tmp_ok (s : FsState) : Prop := ∀ b, fs_files s !! tmp = Some b → b = d.
Definition publishing (s s' : FsState) : Prop := tmp_ok s → tmp_ok s' ∧ touched path d s s'.
#[local] Instance publishing_preorder : PreOrder publishing.
Proof.
  split; [by intros s Hs|]. intros s1 s2 s3 H12 H23 H1. destruct (H12 H1) as [H2 T2]. destruct (H23 H2) as [H3 T3].
  split; [done|by etrans].
Qed.

Lemma publishing_files s s' : fs_dirs s ⊆ fs_dirs s' → fs_files s' = fs_files s → publishing s s'.
Proof. intros Hd Hf Hs. split; [unfold tmp_ok; by rewrite Hf|by apply touched_same]. Qed.

Lemma always_sys {A} (op : fs_m A) : always publishing op → always publishing (fs_sys op).
Proof.
  intros Hop s. destruct (fs_sys op s) as [r s'] eqn:Hs.
  apply fs_sys_inv in Hs as (l & [(-> & ->)|Hs]); [by apply publishing_files|].
  simpl. etrans; [by apply (publishing_files s (fs_with_faults s l))|].
  specialize (Hop (fs_with_faults s l)). by rewrite Hs in Hop.
Qed.

Lemma always_or {A} (x : A) (m : fs_m A) : always publishing m → always publishing (stm_or x m).
Proof. intros Hm s. unfold stm_or. specialize (Hm s). by destruct (m s) as [[]]. Qed.

Lemma always_exists p : always publishing (fs_exists p).
Proof. apply always_or, always_sys, always_get. typeclasses eauto. Qed.

Lemma always_sync p : always publishing (fsync_parent_dir p).
Proof.
  intros s. destruct (fsync_parent_dir p s) as [r s'] eqn:Hs.
  apply sync_parent_dir_run in Hs as (Hd & Hf & _). simpl. apply publishing_files; set_solver.
Qed.

Lemma always_remove q : reserved_path q → always publishing (fs_remove_file q).
Proof.
  intros Hq s. destruct (fs_remove_file q s) as [r s'] eqn:Hs.
  apply fs_remove_file_run in Hs as (Hd & [(_ & _ & Hf)|(_ & Hf)]); simpl; [|apply publishing_files; set_solver].
  intros Hok. split; [|apply (touched_reserved path d s s' q []); [done|done|set_solver|by right]].
  intros b Hb. apply Hok. rewrite Hf in Hb. by apply lookup_delete_Some in Hb as [_ ?].
Qed.

Lemma always_create q : reserved_path q → q ≠ tmp → always publishing (fs_create_new q).
Proof.
  intros Hq Hne. apply always_sys. intros s. destruct (_ || _); simpl; [reflexivity|].
  intros Hok. split; [|by apply (touched_reserved path d s _ q []); [..|left]].
  intros b. simpl. rewrite lookup_insert_ne by done. apply Hok.
Qed.

Lemma tmp_ne : tmp ≠ path.
Proof. by intros <-. Qed.

Lemma always_rename : always publishing (fs_rename tmp path).
Proof.
  apply always_sys. intros s. destruct (bool_decide _); simpl; [reflexivity|].
  destruct (fs_files s !! tmp) as [b|] eqn:Hb; simpl; [|reflexivity]. intros Hok.
  pose proof (Hok b Hb) as ->. split.
  - intros b. simpl. rewrite lookup_insert_ne, lookup_delete_eq by (by apply not_eq_sym, tmp_ne). done.
  - etrans; [|apply (touched_path path d (fs_with_files s (delete tmp (fs_files s))))]; [|done..].
    apply (touched_reserved path d s _ tmp []); auto.
Qed.

Lemma always_link : always publishing (fs_hard_link tmp path).
Proof.
  apply always_sys. intros s. destruct (_ || _); simpl; [reflexivity|].
  destruct (fs_files s !! tmp) as [b|] eqn:Hb; simpl; [|reflexivity]. intros Hok.
  pose proof (Hok b Hb) as ->. split; [|by apply touched_path].
  intros b. simpl. rewrite lookup_insert_ne by (by apply not_eq_sym, tmp_ne). apply Hok.
Qed.
#[local] Hint Resolve always_exists always_sync always_remove always_create always_rename always_link : mj.

Lemma always_publish_locked : always publishing (publish_locked path tmp).
Proof. unfold publish_locked. always_solve. Qed.

Lemma always_lock_loop retries lock e :
  reserved_path lock → lock ≠ tmp → always publishing (lock_loop retries path tmp lock e).
Proof.
  intros Hl Hne. induction retries as [|n IH]; cbn [lock_loop]; [apply always_fail; typeclasses eauto|].
  intros s. pose proof (always_create lock Hl Hne s) as Hc. destruct (fs_create_new lock s) as [[[]|e1|] s1]; simpl in *.
  - pose proof (always_publish_locked s1) as Hp. destruct (publish_locked path tmp s1) as [r s2]. simpl in *.
    etrans; [exact Hc|]. etrans; [exact Hp|]. apply always_or. apply always_bind; [typeclasses eauto|by auto with mj|].
    intros _. apply always_ret. typeclasses eauto.
  - destruct (_ =? _)%string; [|exact Hc]. etrans; [exact Hc|].
    revert s1 Hc. enough (always publishing (let* there := fs_exists path in
         if there : bool then let* _ := fs_remove_file tmp in stm_ret false
         else lock_loop n path tmp lock e)) as He by (intros s1 _; apply He).
    always_solve.
  - exact Hc.
Qed.

(** What is at the path stays there. *)
Lemma there_later s s' : publishing s s' → tmp_ok s → there path s → there path s'.
Proof. intros Hp Hok Ht. destruct (Hp Hok) as [_ T]. by eapply there_touched. Qed.

Lemma exists_there p s s' : fs_exists p s = (Done true, s') → there p s'.
Proof. intros (l & b & [= <-] & -> & Hb)%fs_exists_run. by apply Hb. Qed.

Lemma run_later {A} (m : fs_m A) s r s' :
  always publishing m → m s = (r, s') → tmp_ok s → there path s → tmp_ok s' ∧ there path s'.
Proof.
  intros Hm Hrun Hok Ht. specialize (Hm s). rewrite Hrun in Hm. split; [by apply Hm|by eapply there_later].
Qed.

Lemma remove_later s r s' :
  fs_remove_file tmp s = (r, s') → tmp_ok s → there path s → tmp_ok s' ∧ there path s'.
Proof. apply run_later. by apply always_remove. Qed.

Lemma run_ok {A} (m : fs_m A) s r s' : always publishing m → m s = (r, s') → tmp_ok s → tmp_ok s'.
Proof. intros Hm Hrun Hok. specialize (Hm s). rewrite Hrun in Hm. by apply Hm. Qed.

Lemma rename_there s s' : fs_rename tmp path s = (Done tt, s') → there path s'.
Proof.
  intros (l & [(? & _)|Hr])%fs_sys_inv; [done|]. destruct (bool_decide _); [done|]. simpl in Hr.
  destruct (fs_files s !! tmp); [|done]. injection Hr as <-. left. simpl. by simplify_map_eq.
Qed.

Lemma publish_locked_there s x s' : tmp_ok s → publish_locked path tmp s = (Done x, s') → there path s'.
Proof.
  intros Hok Hrun. unfold publish_locked in Hrun. apply stm_bind_Done in Hrun as (b & s1 & He & Hrun).
  assert (Hok1 : tmp_ok s1) by (by eapply run_ok; [apply always_exists| |]).
  destruct b; [apply exists_there in He|]; apply stm_bind_Done in Hrun as ([] & s2 & H2 & Hrun).
  - injection Hrun as _ <-. by eapply remove_later.
  - assert (Hok2 : tmp_ok s2) by (by eapply run_ok; [apply always_rename| |]).
    apply rename_there in H2. apply stm_bind_Done in Hrun as ([] & s3 & H3 & [= _ <-]).
    by eapply run_later; [apply always_sync|exact H3|..].
Qed.

Lemma lock_loop_there retries lock e s x s' :
  reserved_path lock → lock ≠ tmp → tmp_ok s → lock_loop retries path tmp lock e s = (Done x, s') → there path s'.
Proof.
  intros Hl Hne. revert s; induction retries as [|n IH]; intros s Hok; cbn [lock_loop]; [done|].
  pose proof (always_create lock Hl Hne) as Hac. destruct (fs_create_new lock s) as [[[]|e1|] s1] eqn:Hc; [| |done].
  - assert (Hok1 : tmp_ok s1) by (by eapply run_ok; [apply Hac| |]).
    destruct (publish_locked path tmp s1) as [r s2] eqn:Hp. intros [= -> <-].
    assert (Hok2 : tmp_ok s2) by (by eapply run_ok; [apply always_publish_locked| |]).
    apply publish_locked_there in Hp; [|done].
    pose proof (always_or tt (let* _ := fs_remove_file lock in stm_ret tt)) as Ha.
    eapply there_later; [apply Ha|done..]. apply always_bind; [typeclasses eauto|by apply always_remove|].
    intros _. apply always_ret. typeclasses eauto.
  - assert (Hok1 : tmp_ok s1) by (by eapply run_ok; [apply Hac| |]).
    destruct (_ =? _)%string; [|done]. intros (b & s2 & He & Hrun)%stm_bind_Done.
    assert (Hok2 : tmp_ok s2) by (by eapply run_ok; [apply always_exists| |]).
    destruct b; [apply exists_there in He|by eapply IH].
    apply stm_bind_Done in Hrun as ([] & s3 & H3 & [= _ <-]). by eapply remove_later.
Qed.

Lemma hard_link_there s r s' : fs_hard_link tmp path s = (r, s') →
  r = Done tt ∨ r = Fails "AlreadyExists" → there path s'.
Proof.
  intros (l & [(-> & _)|Hr])%fs_sys_inv; [by intros [|]|]. simpl in Hr. destruct (_ || _) eqn:Hx.
  - injection Hr as <- <-. intros _.
    apply orb_true_iff in Hx as [?%bool_decide_eq_true|?%bool_decide_eq_true]; [by left|by right].
  - destruct (fs_files s !! tmp); injection Hr as <- <-; [|by intros [|]]. intros _. left. simpl. by simplify_map_eq.
Qed.

(** *** Publication *)

Hypothesis lock_ok : reserved_path (file_remote_lock_path path) ∧ file_remote_lock_path path ≠ tmp.

Lemma always_publish : always publishing (publish path tmp).
Proof.
  destruct lock_ok as [Hl Hne]. intros s. unfold publish. pose proof (always_link s) as Hk.
  destruct (fs_hard_link tmp path s) as [[[]|e|] s1]; simpl in *; [| |exact Hk]; (etrans; [exact Hk|]).
  - revert s1 Hk. enough (always publishing (let* _ := fs_remove_file tmp in let* _ := fsync_parent_dir path in
      stm_ret true)) as He by (intros s1 _; apply He). always_solve.
  - revert s1 Hk. destruct (_ =? _)%string; intros s1 _; [|by apply always_lock_loop].
    revert s1. change (always publishing (let* _ := fs_remove_file tmp in stm_ret false)). always_solve.
Qed.

Lemma publish_there s x s' : tmp_ok s → publish path tmp s = (Done x, s') → there path s'.
Proof.
  destruct lock_ok as [Hl Hne]. intros Hok. unfold publish. pose proof always_link as Hal.
  destruct (fs_hard_link tmp path s) as [[[]|e|] s1] eqn:Hk; [| |done].
  - assert (Hok1 : tmp_ok s1) by (by eapply run_ok; [apply Hal| |]). apply hard_link_there in Hk; [|by left].
    intros ([] & s2 & H2 & (u & s3 & H3 & [= _ <-])%stm_bind_Done)%stm_bind_Done.
    apply remove_later in H2 as [Hok2 Ht2]; [|done..].
    by eapply run_later; [apply always_sync|exact H3|..].
  - assert (Hok1 : tmp_ok s1) by (by eapply run_ok; [apply Hal| |]).
    destruct (String.eqb_spec e "AlreadyExists") as [->|]; [|by apply lock_loop_there].
    apply hard_link_there in Hk; [|by right]. intros ([] & s2 & H2 & [= _ <-])%stm_bind_Done.
    by eapply remove_later.
Qed.
End Publish.

Lemma tmp_name_reserved n u : reserved_name ("." +:+ n +:+ ".mjtmp-" +:+ u) = true ∧
  is_atomic_temp_name ("." +:+ n +:+ ".mjtmp-" +:+ u) = true.
Proof.
  assert (contains ("." +:+ n +:+ ".mjtmp-" +:+ u) ".mjtmp-" = true) as Hc.
  { apply contains_true. exists ("." +:+ n), u. by rewrite !str_app_assoc. }
  unfold reserved_name, is_atomic_temp_name. rewrite starts_with_app, Hc. done.
Qed.
Lemma lock_name_reserved n : reserved_name ("." +:+ n +:+ ".mjlock") = true.
Proof.
  unfold reserved_name. rewrite starts_with_app.
  assert (ends_with ("." +:+ n +:+ ".mjlock") ".mjlock" = true) as ->; [|by rewrite orb_true_r].
  apply ends_with_true. exists ("." +:+ n). by rewrite !str_app_assoc.
Qed.

Lemma reserved_join p n : reserved_name n = true → reserved_path (fs_join p n).
Proof. intros Hn. exists n. by rewrite fs_file_name_join. Qed.

Lemma lock_path_ok path u :
  reserved_path (file_remote_lock_path path) ∧
  file_remote_lock_path path ≠
    fs_join (default [CurDir] (fs_parent path)) ("." +:+ object_name path +:+ ".mjtmp-" +:+ u).
Proof.
  split; [apply reserved_join, lock_name_reserved|]. intros Heq. apply (f_equal fs_file_name) in Heq.
  unfold file_remote_lock_path in Heq. rewrite !fs_file_name_join in Heq. injection Heq as Heq.
  do 2 apply str_app_inj_l in Heq. discriminate Heq.
Qed.

(** A call that touches only what it may, and with a success leaves something at the
    path. *)
Definition stores {A} (path : FsPath) (d : list Z) (m : fs_m A) (s : FsState) : Prop :=
  touched path d s (m s).2 ∧ ∀ x, (m s).1 = Done x → there path (m s).2.

Section Store.
Context (uuid : nat → string) (path : FsPath) (c : Contents) (d : list Z).
Hypothesis path_plain : ¬ reserved_path path.
Hypothesis c_plain : plain_contents c.

Lemma put_if_absent_body_stores tmp s0 s :
  reserved_path tmp → (∀ n, fs_file_name tmp = Some n → is_atomic_temp_name n = true) →
  file_remote_lock_path path ≠ tmp → (∀ b, contents_of s0 c = Some b → b = d) →
  fs_files s0 !! tmp = None → fs_files s = <[tmp := []]> (fs_files s0) →
  touched path d s0 s → touched path d s0 (put_if_absent_body path tmp c s).2 ∧
    ∀ x, (put_if_absent_body path tmp c s).1 = Done x → there path (put_if_absent_body path tmp c s).2.
Proof.
  intros Hres Htmp Hlock Hd Hnone Hs Ht0. pose proof (proj1 (lock_path_ok path "")) as Hlr.
  unfold put_if_absent_body. unfold stm_bind at 1 3 5. destruct (write_contents c tmp s) as [r1 s1] eqn:H1.
  destruct Hres as (n & Hn & Hrn).
  apply (write_contents_run c tmp s0) in H1 as (Hd1 & b & Hf1 & Hr1); [|done|done|by eauto|done..].
  assert (Ht1 : touched path d s0 s1).
  { apply (touched_reserved path d s0 s1 tmp b); [done|by exists n| |by left]. rewrite Hd1. apply Ht0. }
  destruct Hr1 as [(-> & Hc)|(e & ->)]; [|by split].
  unfold fs_sync, stm_bind. destruct (fs_sys _ s1) as [r2 s2] eqn:H2.
  apply fs_sys_inv in H2 as (l2 & [(-> & ->)|[= <- <-]]); [split; [|done]; etrans; [done|apply touched_faults]|].
  assert (Hok : tmp_ok tmp d (fs_with_faults s1 l2)).
  { intros b' Hb'. simpl in Hb'. rewrite Hf1, lookup_insert_eq in Hb'. injection Hb' as <-. by apply Hd. }
  assert (Hpub : publishing path tmp d (fs_with_faults s1 l2) (publish path tmp (fs_with_faults s1 l2)).2).
  { apply always_publish; [done|by exists n|done]. }
  split.
  - etrans; [exact Ht1|]. etrans; [apply touched_faults|]. by apply Hpub.
  - destruct (publish path tmp _) as [r s'] eqn:Hp. intros x. simpl. intros ->.
    eapply publish_there; [done|by exists n|done|exact Hok|exact Hp].
Qed.

Lemma put_if_absent_stores s :
  (∀ b, contents_of s c = Some b → b = d) → stores path d (file_remote_put_if_absent_atomic uuid path c) s.
Proof.
  intros Hd. unfold stores, file_remote_put_if_absent_atomic. unfold stm_bind at 1 4 7.
  destruct (create_parent path s) as [r1 s1] eqn:H1. apply (create_parent_run path d) in H1 as [Ht1 Hf1].
  destruct r1 as [[]|e|]; [|by split..]. unfold stm_bind, file_remote_tmp_path. set (tmp := fs_join _ _).
  destruct (tmp_name_reserved (object_name path) (uuid (fs_uuids s1))) as [Hrn Htn].
  assert (Hres : reserved_path tmp) by (by apply reserved_join).
  assert (Hnm : ∀ n, fs_file_name tmp = Some n → is_atomic_temp_name n = true).
  { unfold tmp. rewrite fs_file_name_join. by intros n [= <-]. }
  destruct (fs_create_new tmp (fs_tick s1)) as [r2 s2] eqn:H2. unfold fs_create_new in H2.
  assert (Ht1' : ∀ l, touched path d s (fs_with_faults (fs_tick s1) l)).
  { intros l. etrans; [exact Ht1|]. by apply touched_same. }
  apply fs_sys_inv in H2 as (l2 & [(-> & ->)|H2]); [split; [apply Ht1'|done]|]. simpl in H2.
  destruct (_ || _) eqn:Hx; injection H2 as <- <-; [split; [apply Ht1'|done]|]. apply orb_false_iff in Hx as [Hx _].
  apply bool_decide_eq_false, eq_None_not_Some in Hx.
  set (s2 := fs_with_files _ _). set (s0 := fs_with_faults (fs_tick s1) l2).
  destruct (put_if_absent_body_stores tmp s0 s2) as [Ht3 Hth3]; [done|done| | |done|done| |].
  { apply lock_path_ok. }
  { destruct c as [b|source]; simpl in *; [done|]. by rewrite Hf1. }
  { apply (touched_reserved path d s0 s2 tmp []); [done|done|done|by left]. }
  unfold or_discard. destruct (put_if_absent_body path tmp c s2) as [r3 s3]. simpl in Ht3, Hth3.
  destruct r3 as [x|e|]; simpl; (split; [|by try apply Hth3]); (etrans; [apply (Ht1' l2)|]); [done| |done].
  etrans; [exact Ht3|]. unfold stm_ignore, stm_or, stm_bind. destruct (fs_remove_file tmp s3) as [r4 s4] eqn:H4.
  apply fs_remove_file_run in H4 as (Hd4 & [(-> & _ & Hf4)|((e4 & -> & _) & Hf4)]); simpl.
  - apply (touched_reserved path d s3 s4 tmp []); [done|done|set_solver|by right].
  - apply touched_same; set_solver.
Qed.
End Store.

Lemma temp_of_reserved uuid dest tmp : temp_of uuid dest tmp → reserved_path tmp.
Proof. intros (u & ->). apply reserved_join, tmp_name_reserved. Qed.

(** Storing by replacement. *)
Lemma write_atomic_stores uuid path c s :
  ¬ reserved_path path → plain_contents c → ∀ d, (∀ b, contents_of s c = Some b → b = d) →
  touched path d s (write_atomic_with uuid path c s).2 ∧
  ((write_atomic_with uuid path c s).1 = Done tt → fs_files (write_atomic_with uuid path c s).2 !! path = Some d).
Proof.
  intros Hp Hc d Hd. destruct (write_atomic_with uuid path c s) as [r s'] eqn:Hrun. simpl.
  apply write_atomic_with_run in Hrun as (Hdirs & Hcase); [|done].
  assert (Hrep : replaced path (contents_of s c) (fs_files s) (fs_files s') →
    touched path d s s' ∧ fs_files s' !! path = Some d).
  { intros (b & Hb & Hf). apply Hd in Hb as ->. split; [by apply touched_path; [|set_solver|]|].
    by rewrite Hf, lookup_insert_eq. }
  destruct Hcase as [(-> & ?%Hrep)|((e & ->) & [Hf|[(tmp & b & Htmp & _ & Hf)|[? _]%Hrep]])]; [naive_solver| | |done].
  - split; [|done]. apply touched_same; set_solver.
  - split; [|done]. apply (touched_reserved path d s s' tmp b); [done|by eapply temp_of_reserved|set_solver|by left].
Qed.

Lemma put_atomic_stores uuid path d s :
  ¬ reserved_path path →
  touched path d s (file_remote_put_atomic uuid path d s).2 ∧
  ((file_remote_put_atomic uuid path d s).1 = Done tt → fs_files (file_remote_put_atomic uuid path d s).2 !! path = Some d).
Proof.
  intros Hp. unfold file_remote_put_atomic, stm_bind. destruct (create_parent path s) as [r1 s1] eqn:H1.
  apply (create_parent_run path d) in H1 as [Ht1 _]. destruct r1 as [[]|e|]; [|by split..].
  destruct (write_atomic_stores uuid path (Bytes d) s1 Hp I d) as [Ht2 Hd2]; [by intros b [= ->]|].
  split; [by etrans|exact Hd2].
Qed.

(** *** Keys and paths *)

Section Keys.
Context (root : FsPath).

Lemma file_remote_path_Ok key path : file_remote_path root key = Ok path →
  path = root ++ map Normal (split slash key) ∧ fs_file_name path = fs_file_name (fs_path_of key).
Proof.
  unfold file_remote_path. intros ([] & Hv & [= <-])%result_bind_Ok.
  apply validate_slash_relative_key_Ok in Hv as (_ & Habs & Hall).
  unfold fs_path_of. rewrite plain_components by done. split; [done|].
  destruct (split slash key) as [|x l _] eqn:Hs using rev_ind; [by apply split_by_not_nil in Hs|].
  unfold fs_file_name. rewrite map_app. simpl. by rewrite app_assoc, !last_snoc.
Qed.

Lemma file_remote_path_inj key key' path :
  file_remote_path root key = Ok path → file_remote_path root key' = Ok path → key = key'.
Proof.
  intros [-> _]%file_remote_path_Ok [Heq _]%file_remote_path_Ok.
  apply app_inv_head in Heq. apply list_fmap_eq_inj in Heq; [|by intros ? ? [=]]. by rewrite <-(join_split slash key), Heq, join_split.
Qed.

Lemma reserved_key key path : file_remote_path root key = Ok path → reserved_path path ↔ file_reserved key.
Proof. intros [_ Hn]%file_remote_path_Ok. unfold reserved_path, file_reserved. by rewrite Hn. Qed.
End Keys.

(** *** The instance *)

Section Instance.
Context (uuid : nat → string) (root : FsPath).

#[local] Instance file_remote : RemotePut := {|
  rp_state := FsState;
  rp_lookup := file_lookup root;
  rp_present := file_present root;
  rp_reserved := file_reserved;
  rp_put := file_put uuid root;
  rp_put_if_absent := file_put_if_absent uuid root;
  rp_exists := file_exists root;
|}.

Lemma touched_attempt key path b s s' :
  file_remote_path root key = Ok path → ¬ file_reserved key → touched path b s s' → store_attempt key b s s'.
Proof.
  intros Hpath Hkey [Hd Ho Hp]. pose proof (reserved_key root key path Hpath) as Hr.
  assert (Hsame : ∀ k p, ¬ file_reserved k → k ≠ key → file_remote_path root k = Ok p →
    fs_files s' !! p = fs_files s !! p).
  { intros k p Hk Hne Hkp. apply Ho; [by rewrite (reserved_key root k p Hkp)|].
    intros ->. apply Hne. by eapply file_remote_path_inj. }
  split; [|split]; simpl.
  - intros k Hk Hne. unfold file_lookup. destruct (file_remote_path root k) as [p|] eqn:Hkp; [|done]. by eapply Hsame.
  - intros _. unfold file_lookup. by rewrite Hpath.
  - intros k Hk (p & Hkp & Ht). exists p. split; [done|]. destruct Ht as [Ht|Ht]; [left|right; set_solver].
    destruct (decide (k = key)) as [->|Hne]; [|by rewrite (Hsame k p)].
    rewrite Hpath in Hkp. injection Hkp as <-. destruct Hp as [-> | ->]; by eauto.
Qed.

Lemma file_remote_path_cases key :
  (∃ path, file_remote_path root key = Ok path) ∨ ∃ e, file_remote_path root key = Err e.
Proof. destruct (file_remote_path root key); eauto. Qed.

Lemma attempt_nothing key b (s : rp_state) : store_attempt key b s s.
Proof. split; [done|]. split; [by left|done]. Qed.

#[local] Instance file_remote_laws : RemotePutLaws (H := file_remote).
Proof.
  split.
  - intros s k [b Hb]. simpl in *. unfold file_lookup in Hb. destruct (file_remote_path root k) as [p|] eqn:Hp; [|done].
    exists p. split; [done|]. left. by eauto.
  - intros key b s Hkey. simpl. unfold file_put, stm_bind, stm_ok, stm_lift.
    destruct (file_remote_path_cases key) as [(path & Hp)|(e & ->)]; [|apply attempt_nothing]. rewrite Hp. simpl.
    apply (touched_attempt key path); [done..|]. apply put_atomic_stores. by rewrite (reserved_key root key path).
  - intros key b s s' Hkey. simpl. unfold file_put, stm_bind, stm_ok, stm_lift, file_lookup.
    destruct (file_remote_path_cases key) as [(path & Hp)|(e & ->)]; [|done]. rewrite Hp. simpl.
    destruct (put_atomic_stores uuid path b s) as [_ Hd]; [by rewrite (reserved_key root key path)|].
    intros Hrun. rewrite Hrun in Hd. by apply Hd.
  - intros key b s Hkey. simpl. unfold file_put_if_absent, stm_bind, stm_ok, stm_lift.
    destruct (file_remote_path_cases key) as [(path & Hp)|(e & ->)]; [|apply attempt_nothing]. rewrite Hp. simpl.
    apply (touched_attempt key path); [done..|].
    apply put_if_absent_stores; [by rewrite (reserved_key root key path)|done|by intros ? [= ->]].
  - intros key b s x s' Hkey. simpl. unfold file_put_if_absent, stm_bind, stm_ok, stm_lift.
    destruct (file_remote_path_cases key) as [(path & Hp)|(e & ->)]; [|done]. rewrite Hp. simpl.
    destruct (put_if_absent_stores uuid path (Bytes b) b) with s as [_ Hd];
      [by rewrite (reserved_key root key path)|done|by intros ? [= ->]|].
    intros Hrun. rewrite Hrun in Hd. exists path. split; [done|]. by apply (Hd x).
  - intros key s k. simpl. unfold file_exists, stm_bind, stm_ok, stm_lift.
    destruct (file_remote_path root key) as [p|]; [|done]. simpl. destruct (fs_exists p s) as [r s'] eqn:He.
    by apply fs_exists_run in He as (l & y & -> & -> & _).
  - intros key s k. simpl. unfold file_exists, stm_bind, stm_ok, stm_lift.
    destruct (file_remote_path root key) as [p|]; [|done]. simpl. destruct (fs_exists p s) as [r s'] eqn:He.
    by apply fs_exists_run in He as (l & y & -> & -> & _).
  - intros key s s'. simpl. unfold file_exists, stm_bind, stm_ok, stm_lift.
    destruct (file_remote_path root key) as [p|] eqn:Hp; [|done]. simpl.
    intros (l & y & [= <-] & -> & Hy)%fs_exists_run. exists p. split; [done|]. by apply Hy.
Qed.

(** C21. A directory is a remote: a put either leaves the old object or stores the new
    one, whatever system call fails; it never disturbs another object; after a put
    that succeeds the object holds the bytes; after a conditional put that succeeds,
    through the hard link or through the lock, an object is there; and an object the
    remote reports is there. *)
Theorem directory_is_a_remote : RemotePutLaws (H := file_remote).
Proof. exact file_remote_laws. Qed.
End Instance.
