(* ===== verification/Queue.v ===== *)
(** * The upload queue

    [src/queue_runtime.rs], the part that queues uploads and drains the queue: items
    are JSON files under [queue/uploads], their payloads files of their own, and a
    drain sends them to the remote in the order of their publish priority, a batch at
    a time, each item of a batch in a thread.  The threads of a batch work on
    different items; the model runs them one after the other in an order the
    environment chooses. *)

From S2P Require Import Prelude RStr BTree MachInt Core Util Store Db RemoteObjects AtomicIo FileRemote.

Local Open Scope Z_scope.

(** ** Retries *)

Definition retry_backoff_secs (attempts : Z) : Z :=
  let exponent := Z.min (saturating_sub attempts 1) 6 in
  Z.min (5 * 2 ^ exponent) 300.

(** [random] is the [u64] drawn for the jitter; times are in nanoseconds. *)
Definition next_retry_after (random : Z) (now : DateTime) (attempts : Z) : DateTime :=
  let base := retry_backoff_secs attempts in
  let jitter_bound := Z.max (base / 5) 1 in
  let jitter := random mod (jitter_bound * 2 + 1) - jitter_bound in
  now + Z.max (base + jitter) 1 * 10 ^ 9.

(** ** Priorities *)

(** References are published last, journals and metadata before them. *)
Definition upload_publish_priority (key : string) : nat :=
  if starts_with key "refs/" || contains key "/refs/" then 3
  else if ends_with key "/current" || contains key "/refs/current" || ends_with key "/head.cbor.zst.enc" then 3
  else if contains key "/journal/" || starts_with key "journal/" || starts_with key "metadata/"
          || ends_with key "/metadata/export.json.zst" || ends_with key "/metadata/export.json"
          || (key =? "metadata/export.json")%string then 2
  else 1.

Definition prefer_canonical_remote_only (key : string) : bool :=
  starts_with key "objects/large/chunks/fixed/" || starts_with key "objects/large/chunks/fastcdc/".

(** ** State *)

Inductive RemoteKind := KFile | KS3 | KMasterProxy.

(** What a slave sends to its master and gets back for each object. *)
Record ClusterPutItem := { cp_key : string; cp_bytes : list Z; cp_conditional : bool }.
Record ClusterPutResult := { cr_master_durable : bool; cr_newly_stored : bool; cr_stored_bytes : Z }.

(** The calls to a master: the limits it advertises and the upload of a batch. *)
Class ClusterProxy `{!RemotePut} := {
  cl_capabilities : stm rp_state (Z * Z);
  cl_batch_put : list ClusterPutItem → stm rp_state (list ClusterPutResult);
}.

(** [slice::chunks] *)
Fixpoint chunks_go {A} (fuel n : nat) (l : list A) : list (list A) :=
  match fuel, l with
  | _, [] | O, _ => []
  | S fuel', _ => take n l :: chunks_go fuel' n (drop n l)
  end.
Definition chunks {A} (n : nat) (l : list A) : list (list A) := chunks_go (length l) n l.

Section Queue.
Context `{!Blake3Text, !Serde UploadQueueItem, !RemotePut, !ClusterProxy}.

(** The local files, the remote, and the number of clock readings and random draws so
    far. *)
Record QueueWorld := { qw_fs : FsState; qw_remote : rp_state; qw_tick : nat }.
Definition qw_with_fs (w : QueueWorld) s : QueueWorld :=
  {| qw_fs := s; qw_remote := qw_remote w; qw_tick := qw_tick w |}.
Definition qw_with_remote (w : QueueWorld) r : QueueWorld :=
  {| qw_fs := qw_fs w; qw_remote := r; qw_tick := qw_tick w |}.

Definition QueueEntry : Type := FsPath * UploadQueueItem.

Record QueueEnv := {
  qn_home : FsPath;
  qn_uuid : nat → string;
  qn_now : nat → DateTime;
  qn_random : nat → Z;
  qn_stale : FsPath → bool;
  qn_kind : RemoteKind;
  qn_conditional_put : bool;
  qn_parallelism : option string;
  qn_schedule : list QueueEntry → list QueueEntry;
  qn_batch_max_objects : option string;
  qn_batch_max_bytes : option string;
}.
Context (env : QueueEnv).

Abbreviation queue_m := (stm QueueWorld).

Definition in_fs {A} (m : fs_m A) : queue_m A := λ w, let '(r, s) := m (qw_fs w) in (r, qw_with_fs w s).
Definition in_remote {A} (m : stm rp_state A) : queue_m A := λ w,
  let '(r, s) := m (qw_remote w) in (r, qw_with_remote w s).
Definition clock {A} (source : nat → A) : queue_m A := λ w,
  (Done (source (qw_tick w)), {| qw_fs := qw_fs w; qw_remote := qw_remote w; qw_tick := S (qw_tick w) |}).

Definition upload_queue : FsPath := fs_join (fs_join (qn_home env) "queue") "uploads".
Definition upload_payload_dir : FsPath := fs_join (default upload_queue (fs_parent upload_queue)) "upload-payloads".
Definition upload_payload_path (id : string) : FsPath := fs_join upload_payload_dir (id +:+ ".bin").
Definition item_path (id : string) : FsPath := fs_join upload_queue (id +:+ ".json").

Definition remove_upload_payload (id : string) : fs_m unit := allow_missing (fs_remove_file (upload_payload_path id)).

(** ** Queueing *)

Definition fs_write (p : FsPath) (bytes : list Z) : fs_m unit :=
  let* _ := fs_sys (stm_modify (λ s, fs_with_files s (<[p := []]> (fs_files s)))) in
  fs_write_all p bytes.

Definition try_option {S A} (m : stm S A) : stm S (option A) := stm_or None (let* a := m in stm_ret (Some a)).

Definition write_upload_item (item : UploadQueueItem) : queue_m unit :=
  let path := item_path (uq_id item) in
  let* _ := in_fs (fs_create_dir_all upload_queue) in
  let* there := in_fs (fs_exists path) in
  let* item := (if there : bool then
      let* bytes := in_fs (try_option (fs_read path)) in
      stm_ret (match bytes with
               | Some (b :: bs) =>
                 match json_from_slice (b :: bs) with Some existing => preserve_retry_state item existing | None => item end
               | _ => item
               end)
    else stm_ret item) in
  in_fs (write_atomic (qn_uuid env) path (json_to_vec_pretty item)).

Definition enqueue_inline_upload_with_overwrite (key : string) (bytes : list Z) (overwrite : bool) : queue_m unit :=
  let id := expected_upload_queue_item_id key in
  let payload_path := upload_payload_path id in
  let* _ := in_fs (fs_create_dir_all upload_payload_dir) in
  let tmp := fs_join upload_payload_dir (id +:+ ".tmp") in
  let* _ := in_fs (fs_write tmp bytes) in
  let* _ := in_fs (fs_rename tmp payload_path) in
  let* now := clock (qn_now env) in
  write_upload_item (with_overwrite (UploadQueueItem_file id key (fs_to_slash payload_path) now) overwrite).

Definition enqueue_inline_upload (key : string) (bytes : list Z) : queue_m unit :=
  enqueue_inline_upload_with_overwrite key bytes false.
Definition enqueue_inline_upload_overwrite (key : string) (bytes : list Z) : queue_m unit :=
  enqueue_inline_upload_with_overwrite key bytes true.

Definition enqueue_file_upload_with_overwrite (key : string) (source : FsPath) (overwrite : bool) : queue_m unit :=
  let id := expected_upload_queue_item_id key in
  let* _ := in_fs (remove_upload_payload id) in
  let* now := clock (qn_now env) in
  write_upload_item (with_overwrite (UploadQueueItem_file id key (fs_to_slash source) now) overwrite).

Definition enqueue_file_upload (key : string) (source : FsPath) : queue_m unit :=
  enqueue_file_upload_with_overwrite key source false.
Definition enqueue_file_upload_overwrite (key : string) (source : FsPath) : queue_m unit :=
  enqueue_file_upload_with_overwrite key source true.

Definition upload_queue_contains_key (key : string) : queue_m bool :=
  in_fs (fs_exists (item_path (expected_upload_queue_item_id key))).

(** ** Listing *)

Definition name_extension (name : string) : option string :=
  match rsplit_once_dot name with Some (stem, ext) => if is_empty stem then None else Some ext | None => None end.

Fixpoint read_items (names : list string) : fs_m (list QueueEntry) :=
  match names with
  | [] => stm_ret []
  | name :: rest =>
    if negb (bool_decide (name_extension name = Some "json")) then read_items rest else
    let path := fs_join upload_queue name in
    λ s, match fs_read path s with
         | (Done [], s') => (Fails "upload queue item is empty", s')
         | (Done bytes, s') =>
           match json_from_slice bytes with
           | Some item => (let* items := read_items rest in stm_ret ((path, item) :: items)) s'
           | None => (Fails "decode upload queue item", s')
           end
         | (Fails e, s') => if (e =? "NotFound")%string then read_items rest s' else (Fails e, s')
         | (Panics, s') => (Panics, s')
         end
  end.

Definition sort_entries (items : list QueueEntry) : list QueueEntry := sort_by (λ e, uq_key e.2) items.

Definition upload_queue_items : queue_m (list QueueEntry) :=
  let* there := in_fs (fs_exists upload_queue) in
  if negb there then stm_ret [] else
  let* _ := in_fs (cleanup_stale_atomic_temps (qn_stale env) upload_queue) in
  let* _ := in_fs (fs_sys (stm_ret tt)) in
  let* names := in_fs (stm_get (dir_files upload_queue)) in
  let* items := in_fs (read_items names) in
  stm_ret (sort_entries items).

(** ** Draining *)

Record UploadDrainStats := { ud_uploaded : Z; ud_uploaded_bytes : Z; ud_skipped : Z }.
Inductive UploadQueueItemResult := Uploaded (bytes : Z) | Skipped.

(** The first alias the remote reports; failures count as absence. *)
Fixpoint any_exists (keys : list string) : queue_m bool :=
  match keys with
  | [] => stm_ret false
  | key :: rest =>
    let* there := stm_or false (in_remote (rp_exists key)) in
    if there : bool then stm_ret true else any_exists rest
  end.

Definition queued_upload_can_be_skipped (item : UploadQueueItem) : queue_m bool :=
  match qn_kind env with
  | KMasterProxy => stm_ret false
  | _ =>
    if negb (prefer_canonical_remote_only (uq_key item)) then stm_ret false else
    let* alias_exists := any_exists (canonical_remote_aliases (uq_key item)) in
    let* _ := (if alias_exists : bool then in_fs (stm_ignore (remove_upload_payload (uq_id item))) else stm_ret tt) in
    stm_ret alias_exists
  end.

Definition upload_item_payload_size (item : UploadQueueItem) : queue_m Z :=
  match uq_inline item, uq_source item with
  | Some bytes, _ => stm_ret (Z.of_nat (length bytes))
  | None, Some source =>
    let* bytes := in_fs (fs_read (fs_path_of source)) in stm_ret (Z.of_nat (length bytes))
  | None, None => stm_ret 0
  end.

Definition conditional (item : UploadQueueItem) : bool :=
  negb (uq_overwrite item) && is_content_addressed_remote_key (uq_key item) && qn_conditional_put env.

Definition put_item (item : UploadQueueItem) (bytes : list Z) : queue_m unit :=
  if conditional item then let* _ := in_remote (rp_put_if_absent (uq_key item) bytes) in stm_ret tt
  else in_remote (rp_put (uq_key item) bytes).

Definition record_failure (path : FsPath) (item : UploadQueueItem) : queue_m unit :=
  let next_attempt := Z.min u32_max (uq_attempts item + 1) in
  let* now := clock (qn_now env) in
  let* random := clock (qn_random env) in
  let item' := record_attempt item (Some (next_retry_after random now next_attempt)) in
  in_fs (write_atomic (qn_uuid env) path (json_to_vec_pretty item')).

(** What follows the attempt to store the payload. *)
Definition after_upload (path : FsPath) (item : UploadQueueItem) (upload_bytes : Z) (upload : queue_m unit)
    : queue_m UploadQueueItemResult := λ w,
  match upload w with
  | (Done _, w1) =>
    (let* _ := in_fs (remove_upload_payload (uq_id item)) in
     let* _ := in_fs (fs_remove_file path) in
     stm_ret (Uploaded upload_bytes)) w1
  | (Fails e, w1) => (let* _ := record_failure path item in stm_fail ("upload failed for " +:+ uq_key item)) w1
  | (Panics, w1) => (Panics, w1)
  end.

Definition upload_queue_item (path : FsPath) (item : UploadQueueItem) : queue_m UploadQueueItemResult :=
  let* skip := (if uq_overwrite item then stm_ret false else queued_upload_can_be_skipped item) in
  if skip : bool then let* _ := in_fs (fs_remove_file path) in stm_ret Skipped else
  let* upload_bytes := stm_or 0 (upload_item_payload_size item) in
  match uq_inline item, uq_source item with
  | Some bytes, _ => after_upload path item upload_bytes (put_item item bytes)
  | None, Some source =>
    after_upload path item upload_bytes
      (let* bytes := in_fs (fs_read (fs_path_of source)) in put_item item bytes)
  | None, None => stm_fail "queued upload has neither inline payload nor source"
  end.

(** [parse::<usize>] *)
Definition parse_usize (s : string) : option nat := N.to_nat <$> parse_unsigned (2 ^ 64 - 1) s.

Definition upload_queue_parallelism (max_parallel_uploads : nat) : nat :=
  let configured :=
    match qn_parallelism env ≫= parse_usize with
    | Some n => n
    | None => match qn_kind env with
              | KS3 => Nat.max max_parallel_uploads 32
              | KMasterProxy => 1%nat
              | KFile => max_parallel_uploads
              end
    end in
  match qn_kind env with KS3 | KMasterProxy => Nat.max configured 1 | KFile => 1%nat end.

(** All threads of a batch run to their end; their results in the order of the batch. *)
Fixpoint run_threads (batch : list QueueEntry) : queue_m (list (FsPath * outcome UploadQueueItemResult string)) :=
  match batch with
  | [] => stm_ret []
  | (path, item) :: rest => λ w,
    let '(r, w1) := upload_queue_item path item w in
    (let* results := run_threads rest in stm_ret ((path, r) :: results)) w1
  end.

Fixpoint result_at (path : FsPath) (results : list (FsPath * outcome UploadQueueItemResult string))
    : outcome UploadQueueItemResult string :=
  match results with
  | [] => Panics
  | (p, r) :: rest => if bool_decide (p = path) then r else result_at path rest
  end.

Fixpoint join_results (batch : list QueueEntry) (results : list (FsPath * outcome UploadQueueItemResult string))
    : result (list UploadQueueItemResult) string :=
  match batch with
  | [] => Ok []
  | (path, _) :: rest =>
    match result_at path results with
    | Done r => let? rs := join_results rest results in Ok (r :: rs)
    | Fails e => Err e
    | Panics => Err "upload queue worker panicked"
    end
  end.

Definition run_batch (batch : list QueueEntry) : queue_m (list UploadQueueItemResult) :=
  let* results := run_threads (qn_schedule env batch) in
  stm_ok (join_results batch results).

Definition count_result (stats : UploadDrainStats) (r : UploadQueueItemResult) : UploadDrainStats :=
  match r with
  | Uploaded bytes => {| ud_uploaded := ud_uploaded stats + 1;
                         ud_uploaded_bytes := wadd (ud_uploaded_bytes stats) bytes; ud_skipped := ud_skipped stats |}
  | Skipped => {| ud_uploaded := ud_uploaded stats; ud_uploaded_bytes := ud_uploaded_bytes stats;
                  ud_skipped := ud_skipped stats + 1 |}
  end.

Fixpoint drain_batches (stats : UploadDrainStats) (batches : list (list QueueEntry)) : queue_m UploadDrainStats :=
  match batches with
  | [] => stm_ret stats
  | batch :: rest =>
    let* results := run_batch batch in
    drain_batches (fold_left count_result results stats) rest
  end.

(** The groups of equal priority, lowest first, each sorted by key. *)
Definition priority_group (items : list QueueEntry) (p : nat) : list QueueEntry :=
  sort_entries (List.filter (λ e, Nat.eqb (upload_publish_priority (uq_key e.2)) p) items).
Definition priority_batches (parallelism : nat) (items : list QueueEntry) : list (list QueueEntry) :=
  flat_map (λ p, chunks parallelism (priority_group items p)) [1; 2; 3]%nat.

(** *** Through a master *)

(** One item of a batch: where it is queued and the bytes to send. *)
Definition BatchEntry : Type := QueueEntry * list Z.

Definition cluster_request (batch : list BatchEntry) : list ClusterPutItem :=
  map (λ '((_, item), bytes), {| cp_key := uq_key item; cp_bytes := bytes;
         cp_conditional := negb (uq_overwrite item) && is_content_addressed_remote_key (uq_key item) |}) batch.

Definition apply_cluster_upload_result (stats : UploadDrainStats) (r : ClusterPutResult) : UploadDrainStats :=
  if cr_newly_stored r
  then {| ud_uploaded := ud_uploaded stats + 1;
          ud_uploaded_bytes := wadd (ud_uploaded_bytes stats) (cr_stored_bytes r); ud_skipped := ud_skipped stats |}
  else {| ud_uploaded := ud_uploaded stats; ud_uploaded_bytes := ud_uploaded_bytes stats;
          ud_skipped := ud_skipped stats + 1 |}.

Fixpoint acknowledge (stats : UploadDrainStats) (batch : list BatchEntry) (results : list ClusterPutResult)
    : queue_m UploadDrainStats :=
  match batch, results with
  | ((path, item), _) :: batch', r :: results' =>
    let* _ := in_fs (remove_upload_payload (uq_id item)) in
    let* _ := in_fs (fs_remove_file path) in
    acknowledge (apply_cluster_upload_result stats r) batch' results'
  | _, _ => stm_ret stats
  end.

Definition record_failures (batch : list BatchEntry) : queue_m unit :=
  stm_iter (λ '((path, item), _), record_failure path item) batch.

Definition send_cluster_upload_batch (stats : UploadDrainStats) (batch : list BatchEntry) : queue_m UploadDrainStats :=
  λ w, match in_remote (cl_batch_put (cluster_request batch)) w with
  | (Fails e, w1) => (let* _ := record_failures batch in stm_fail "cluster master batch upload failed") w1
  | (Panics, w1) => (Panics, w1)
  | (Done results, w1) =>
    if negb (Nat.eqb (length results) (length batch)) then (Fails "cluster master returned other results", w1)
    else if existsb (λ r, negb (cr_master_durable r)) results
    then (let* _ := record_failures batch in
          stm_fail "cluster master returned an acknowledgement without durable storage") w1
    else acknowledge stats batch results w1
  end.

Fixpoint master_loop (max_objects max_bytes : Z) (stats : UploadDrainStats) (batch : list BatchEntry)
    (batch_bytes : Z) (items : list QueueEntry) : queue_m (UploadDrainStats * list BatchEntry) :=
  match items with
  | [] => stm_ret (stats, batch)
  | (path, item) :: rest =>
    let* skip := (if uq_overwrite item then stm_ret false else queued_upload_can_be_skipped item) in
    if skip : bool then
      let* _ := in_fs (fs_remove_file path) in
      master_loop max_objects max_bytes (count_result stats Skipped) batch batch_bytes rest
    else
    let* bytes := match uq_inline item, uq_source item with
                  | Some bytes, _ => stm_ret bytes
                  | None, Some source => in_fs (fs_read (fs_path_of source))
                  | None, None => stm_fail "queued upload has neither inline payload nor source"
                  end in
    let len := Z.of_nat (length bytes) in
    if bool_decide (batch ≠ []) &&
       ((max_objects <=? Z.of_nat (length batch)) || (max_bytes <? saturating_add batch_bytes len))
    then let* stats' := send_cluster_upload_batch stats batch in
         master_loop max_objects max_bytes stats' [((path, item), bytes)] (saturating_add 0 len) rest
    else master_loop max_objects max_bytes stats (batch ++ [((path, item), bytes)]) (saturating_add batch_bytes len) rest
  end.

Definition env_limit (value : option string) (least fallback : Z) : Z :=
  match value ≫= parse_unsigned (2 ^ 64 - 1) with
  | Some n => if least <=? Z.of_N n then Z.of_N n else fallback
  | None => fallback
  end.

Definition drain_upload_queue_via_master : queue_m UploadDrainStats :=
  let* items := upload_queue_items in
  let sorted := flat_map (priority_group items) [1; 2; 3]%nat in
  let* capabilities := in_remote cl_capabilities in
  let max_objects := Z.min (env_limit (qn_batch_max_objects env) 1 128) capabilities.1 in
  let max_bytes := Z.min (env_limit (qn_batch_max_bytes env) (1024 * 1024) (64 * 1024 * 1024)) capabilities.2 in
  let* last := master_loop max_objects max_bytes {| ud_uploaded := 0; ud_uploaded_bytes := 0; ud_skipped := 0 |} [] 0 sorted in
  let '(stats, batch) := last in
  if bool_decide (batch = []) then stm_ret stats else send_cluster_upload_batch stats batch.

(** *** The drain *)

Definition drain_direct (max_parallel_uploads : nat) : queue_m UploadDrainStats :=
  let* items := upload_queue_items in
  drain_batches {| ud_uploaded := 0; ud_uploaded_bytes := 0; ud_skipped := 0 |}
    (priority_batches (upload_queue_parallelism max_parallel_uploads) items).

Definition drain_upload_queue (max_parallel_uploads : nat) : queue_m UploadDrainStats :=
  match qn_kind env with
  | KMasterProxy => drain_upload_queue_via_master
  | _ => drain_direct max_parallel_uploads
  end.
End Queue.
