(* ===== verification/QueueSafety.v ===== *)
(** * The upload queue loses nothing

    Properties of [Queue]: an item leaves the queue only when the remote holds its
    object, whatever system call or remote request fails, and references reach the
    remote only after everything they may refer to. *)

From S2P Require Import Prelude RStr BTree MachInt Core Util Store Db RemoteObjects AtomicIo FileRemote Queue.

Local Open Scope Z_scope.

(** The hash that names queue items does not collide. *)
Class Blake3TextLaws `{!Blake3Text} : Prop := { blake3_text_inj : Inj (=) (=) blake3_text_hex }.
#[export] Existing Instance blake3_text_inj.

(** ** Kinds of keys *)

(** References of a host or a root, the pointer to the current state, and the head. *)
Definition reference_key (key : string) : Prop :=
  (∃ b, key = "refs/" +:+ b) ∨ (∃ a b, key = a +:+ "/refs/" +:+ b) ∨ (∃ a, key = a +:+ "/current") ∨
  (∃ a, key = a +:+ "/head.cbor.zst.enc").
(** Journals and exports of the metadata. *)
Definition metadata_key (key : string) : Prop :=
  (∃ b, key = "journal/" +:+ b) ∨ (∃ a b, key = a +:+ "/journal/" +:+ b) ∨ (∃ b, key = "metadata/" +:+ b) ∨
  (∃ a, key = a +:+ "/metadata/export.json") ∨ (∃ a, key = a +:+ "/metadata/export.json.zst").

Lemma reference_priority key : reference_key key ↔ upload_publish_priority key = 3%nat.
Proof.
  assert (Hr : starts_with key "refs/" || contains key "/refs/" = true ∨
    ends_with key "/current" || contains key "/refs/current" || ends_with key "/head.cbor.zst.enc" = true ↔ reference_key key).
  { unfold reference_key. rewrite !orb_true_iff, !starts_with_true, !contains_true, !ends_with_true. split; [|naive_solver].
    intros [[?|?]|[[?|(a & b & ->)]|?]]; [naive_solver..| |naive_solver]. right. left. exists a, ("current" +:+ b). done. }
  rewrite <-Hr. unfold upload_publish_priority.
  clear Hr. destruct (starts_with key "refs/" || contains key "/refs/"); [by split; auto|].
  destruct (_ || ends_with key "/head.cbor.zst.enc"); [by split; auto|]. destruct (_ || _); (split; [by intros [?|?]|done]).
Qed.

Lemma metadata_priority key : ¬ reference_key key → metadata_key key ↔ upload_publish_priority key = 2%nat.
Proof.
  intros Hno. pose proof (reference_priority key) as Hr. unfold upload_publish_priority in *.
  destruct (starts_with key "refs/" || contains key "/refs/"); [by destruct Hno; apply Hr|].
  destruct (_ || ends_with key "/head.cbor.zst.enc"); [by destruct Hno; apply Hr|]. clear Hr Hno.
  assert (Hm : contains key "/journal/" || starts_with key "journal/" || starts_with key "metadata/"
          || ends_with key "/metadata/export.json.zst" || ends_with key "/metadata/export.json"
          || (key =? "metadata/export.json")%string = true ↔ metadata_key key).
  { unfold metadata_key. rewrite !orb_true_iff, !starts_with_true, !contains_true, !ends_with_true, String.eqb_eq. split; [|naive_solver].
    intros [[[[[?|?]|?]|?]|?]| ->]; [naive_solver..|]. right. right. left. by exists "export.json". }
  rewrite <-Hm. by destruct (_ || _).
Qed.

(** Objects before journals and metadata, those before references. *)
Lemma priority_order a b :
  reference_key b ∧ (¬ reference_key a) ∨ metadata_key b ∧ (¬ reference_key a) ∧ (¬ metadata_key a) →
  (upload_publish_priority a < upload_publish_priority b)%nat.
Proof.
  assert (Hle : ∀ k, (1 <= upload_publish_priority k <= 3)%nat)
    by (intros k; unfold upload_publish_priority; repeat case_match; lia).
  pose proof (Hle a). pose proof (Hle b). pose proof (reference_priority a) as Ra. pose proof (reference_priority b) as Rb.
  intros [[Hb Ha]|(Hb & Ha & Hma)].
  - apply Rb in Hb. rewrite Ra in Ha. lia.
  - pose proof (metadata_priority a Ha) as Ma. rewrite Ma in Hma. rewrite Ra in Ha.
    destruct (decide (upload_publish_priority b = 3%nat)) as [Heq|Hne]; [lia|].
    apply metadata_priority in Hb; [lia|]. by rewrite Rb.
Qed.

(** ** Retries *)

Lemma backoff_range attempts : 5 <= retry_backoff_secs attempts <= 300.
Proof.
  unfold retry_backoff_secs, saturating_sub. set (e := Z.min _ 6). assert (0 <= e <= 6) as He by lia.
  assert (1 <= 2 ^ e) by (pose proof (Z.pow_pos_nonneg 2 e); lia). lia.
Qed.

(** The time of the next attempt is between four seconds and six minutes away,
    whatever the random draw and the number of attempts, and the delay before jitter
    never falls when the attempts grow. *)
Theorem next_retry_after_bounds random now attempts :
  now + 4 * 10 ^ 9 <= next_retry_after random now attempts <= now + 360 * 10 ^ 9 ∧
  ∀ more, attempts <= more → retry_backoff_secs attempts <= retry_backoff_secs more.
Proof.
  split.
  - pose proof (backoff_range attempts) as Hb. unfold next_retry_after. set (base := retry_backoff_secs attempts) in *.
    assert (0 <= base / 5 <= 60) as H5.
    { split; [apply Z.div_pos; lia|]. apply Z.div_le_upper_bound; lia. }
    assert (5 * (base / 5) <= base) by (apply Z.mul_div_le; lia).
    set (jb := Z.max (base / 5) 1) in *. pose proof (Z.mod_pos_bound random (jb * 2 + 1)). lia.
  - intros more Hm. unfold retry_backoff_secs, saturating_sub.
    assert (2 ^ Z.min (Z.max 0 (attempts - 1)) 6 <= 2 ^ Z.min (Z.max 0 (more - 1)) 6); [|lia].
    apply Z.pow_le_mono_r; lia.
Qed.

Section Safety.
Context `{!Blake3Text, !Blake3TextLaws, !Serde UploadQueueItem, !SerdeLaws UploadQueueItem,
          !RemotePut, !RemotePutLaws, !ClusterProxy}.
Context (env : QueueEnv).

Abbreviation queue_m := (stm QueueWorld).
Abbreviation files w := (fs_files (qw_fs w)).
Abbreviation lookup_remote w := (rp_lookup (qw_remote w)).

(** ** What is at stake *)

(** The bytes an item stands for. *)
Definition payload (w : QueueWorld) (i : UploadQueueItem) : option (list Z) :=
  match uq_inline i, uq_source i with
  | Some b, _ => Some b
  | None, Some source => files w !! fs_path_of source
  | None, None => None
  end.

(** The same upload, up to the retry state. *)
Definition same_upload (i i' : UploadQueueItem) : Prop :=
  uq_id i' = uq_id i ∧ uq_key i' = uq_key i ∧ uq_source i' = uq_source i ∧ uq_inline i' = uq_inline i ∧
  uq_overwrite i' = uq_overwrite i.

Definition queued (w : QueueWorld) (p : FsPath) (i : UploadQueueItem) : Prop :=
  ∃ bytes i', files w !! p = Some bytes ∧ json_from_slice bytes = Some i' ∧ same_upload i i'.

(** The remote has the object: with these bytes; or, for an object named by its
    contents, under its key or its canonical key. *)
Definition published (w : QueueWorld) (i : UploadQueueItem) (b : option (list Z)) : Prop :=
  (is_Some b ∧ lookup_remote w (uq_key i) = b) ∨
  (conditional env i = true ∧ rp_present (qw_remote w) (uq_key i)) ∨
  (uq_overwrite i = false ∧ prefer_canonical_remote_only (uq_key i) = true ∧
   ∃ a, a ∈ canonical_remote_aliases (uq_key i) ∧ rp_present (qw_remote w) a).

Definition kept (w : QueueWorld) (p : FsPath) (i : UploadQueueItem) (b : option (list Z)) : Prop :=
  queued w p i ∧ payload w i = b.
Definition safe (w : QueueWorld) (p : FsPath) (i : UploadQueueItem) (b : option (list Z)) : Prop :=
  kept w p i b ∨ published w i b.

(** A file that belongs to the queue. *)
Definition queue_file (q : FsPath) : Prop :=
  ∃ n, q = fs_join (upload_queue env) n ∨ q = fs_join (upload_payload_dir env) n.

(** What the queue writes: the name follows from the key, and the payload is a file of
    the queue's own or lies outside the queue. *)
Record entry_ok (p : FsPath) (i : UploadQueueItem) : Prop := {
  eo_path : p = item_path env (uq_id i);
  eo_id : uq_id i = expected_upload_queue_item_id (uq_key i);
  eo_key : ¬ rp_reserved (uq_key i);
  eo_alias a : a ∈ canonical_remote_aliases (uq_key i) → ¬ rp_reserved a;
  eo_source source : uq_inline i = None → uq_source i = Some source →
    fs_path_of source = upload_payload_path env (uq_id i) ∨ ¬ queue_file (fs_path_of source);
}.

(** ** Paths of the queue *)

Lemma fs_join_inj p q n m : fs_join p n = fs_join q m → p = q ∧ n = m.
Proof. unfold fs_join. intros [-> [= ->]]%app_inj_tail. done. Qed.

Lemma payload_dir_eq : upload_payload_dir env = fs_join (fs_join (qn_home env) "queue") "upload-payloads".
Proof.
  unfold upload_payload_dir, upload_queue, fs_parent, fs_join. rewrite last_snoc. simpl. by rewrite removelast_last.
Qed.

Lemma dirs_ne : upload_queue env ≠ upload_payload_dir env.
Proof. rewrite payload_dir_eq. unfold upload_queue. intros [_ ?]%fs_join_inj. done. Qed.

Lemma item_payload_ne id id' : item_path env id ≠ upload_payload_path env id'.
Proof. intros [? _]%fs_join_inj. by apply dirs_ne. Qed.

Lemma item_path_inj id id' : item_path env id = item_path env id' → id = id'.
Proof. intros [_ Heq]%fs_join_inj. by eapply str_app_inj_r. Qed.
Lemma payload_path_inj id id' : upload_payload_path env id = upload_payload_path env id' → id = id'.
Proof. intros [_ Heq]%fs_join_inj. by eapply str_app_inj_r. Qed.
Lemma expected_id_inj k k' : expected_upload_queue_item_id k = expected_upload_queue_item_id k' → k = k'.
Proof. intros Heq%str_app_inj_l. by apply (inj blake3_text_hex). Qed.

Lemma item_name_plain key : is_atomic_temp_name (expected_upload_queue_item_id key +:+ ".json") = false.
Proof. done. Qed.

(** ** The footprint of one item *)

Record processed (p : FsPath) (i : UploadQueueItem) (w w' : QueueWorld) : Prop := {
  pr_files q : q ≠ p → q ≠ upload_payload_path env (uq_id i) →
    (∀ n, q = fs_join (upload_queue env) n → is_atomic_temp_name n = false) → files w' !! q = files w !! q;
  pr_lookup k : ¬ rp_reserved k → k ≠ uq_key i → lookup_remote w' k = lookup_remote w k;
  pr_present k : ¬ rp_reserved k → rp_present (qw_remote w) k → rp_present (qw_remote w') k;
}.
#[export] Instance processed_preorder p i : PreOrder (processed p i).
Proof.
  split; [by split|]. intros w1 w2 w3 [F1 L1 P1] [F2 L2 P2]. split; [|by intros; rewrite L2, L1|by auto].
  intros q Hq1 Hq2 Hq3. by rewrite F2, F1.
Qed.

(** Another item does not notice. *)
Record untouched (p : FsPath) (i : UploadQueueItem) (w w' : QueueWorld) : Prop := {
  un_file : files w' !! p = files w !! p;
  un_payload : payload w' i = payload w i;
  un_lookup : lookup_remote w' (uq_key i) = lookup_remote w (uq_key i);
  un_present k : ¬ rp_reserved k → rp_present (qw_remote w) k → rp_present (qw_remote w') k;
}.
#[export] Instance untouched_preorder p i : PreOrder (untouched p i).
Proof. split; [by split|]. intros w1 w2 w3 [] []. split; try congruence. by auto. Qed.

Lemma processed_untouched p i q j w w' :
  entry_ok p i → entry_ok q j → uq_key i ≠ uq_key j → processed p i w w' → untouched q j w w'.
Proof.
  intros [Hp Hi Hk _ _] [Hq Hj Hk' _ Hs] Hne [F L P].
  assert (Hid : uq_id i ≠ uq_id j) by (rewrite Hi, Hj; by intros ?%expected_id_inj).
  assert (Hfq : files w' !! q = files w !! q).
  { subst p q. apply F.
    - intros ?%item_path_inj. congruence.
    - apply item_payload_ne.
    - intros n [_ <-]%fs_join_inj. rewrite Hj. apply item_name_plain. }
  split; [done| |by apply L; [|congruence]|done].
  unfold payload. destruct (uq_inline j) eqn:Hin; [done|]. destruct (uq_source j) as [source|] eqn:Hsrc; [|done].
  destruct (Hs source eq_refl eq_refl) as [Heq|Hout].
  - rewrite Heq. apply F.
    + subst p. by apply not_eq_sym, item_payload_ne.
    + intros ?%payload_path_inj. congruence.
    + intros n [Hd _]%fs_join_inj. by destruct dirs_ne.
  - apply F.
    + intros Heq. apply Hout. rewrite Heq, Hp. eexists. by left.
    + intros Heq. apply Hout. rewrite Heq. eexists. by right.
    + intros n Heq. destruct Hout. exists n. by left.
Qed.

Lemma published_untouched p i b w w' : entry_ok p i → untouched p i w w' → published w i b → published w' i b.
Proof.
  intros [_ _ Hk Ha _] [_ _ L P] [(Hb & Hl)|[(Hc & Hp)|(Ho & Hpc & a & Hin & Hp)]].
  - left. by rewrite L.
  - right; left. by auto.
  - right; right. split; [done|]. split; [done|]. exists a. split; [done|]. apply P; [by apply Ha|done].
Qed.

Lemma kept_untouched p i b w w' : untouched p i w w' → kept w p i b → kept w' p i b.
Proof. intros [F Pl _ _] [Hq <-]. split; [|done]. unfold queued in *. by rewrite F. Qed.

Lemma safe_untouched p i b w w' : entry_ok p i → untouched p i w w' → safe w p i b → safe w' p i b.
Proof. intros Ho Hu [?|?]; [left; by eapply kept_untouched|right; by eapply published_untouched]. Qed.

(** ** What the calls touch *)

Section Item.
Context (p : FsPath) (i : UploadQueueItem) (Hok : entry_ok p i).

Definition fs_processed (f f' : gmap FsPath (list Z)) : Prop :=
  ∀ q, q ≠ p → q ≠ upload_payload_path env (uq_id i) →
    (∀ n, q = fs_join (upload_queue env) n → is_atomic_temp_name n = false) → f' !! q = f !! q.

Lemma in_fs_processed {A} (m : fs_m A) :
  (∀ s, fs_processed (fs_files s) (fs_files (m s).2)) → always (processed p i) (in_fs m).
Proof.
  intros Hm w. unfold in_fs. specialize (Hm (qw_fs w)). destruct (m (qw_fs w)) as [r s]. simpl in *.
  by split.
Qed.

Lemma remove_processed q : q = p ∨ q = upload_payload_path env (uq_id i) →
  ∀ s, fs_processed (fs_files s) (fs_files (fs_remove_file q s).2).
Proof.
  intros Hq s x Hx1 Hx2 _. destruct (fs_remove_file q s) as [r s'] eqn:Hr.
  apply fs_remove_file_run in Hr as (_ & [(_ & _ & Hf)|(_ & Hf)]); simpl; rewrite Hf; [|done].
  apply lookup_delete_ne. naive_solver.
Qed.

Lemma allow_missing_state m s : (allow_missing m s).2 = (m s).2.
Proof. unfold allow_missing. destruct (m s) as [[a|e|] s']; [done| |done]. by destruct (e =? _)%string. Qed.
Lemma stm_or_state {S A} (d : A) (m : stm S A) s : (stm_or d m s).2 = (m s).2.
Proof. unfold stm_or. by destruct (m s) as [[]]. Qed.
Lemma stm_ignore_state {S A} (m : stm S A) s : (stm_ignore m s).2 = (m s).2.
Proof. unfold stm_ignore. rewrite stm_or_state. unfold stm_bind. by destruct (m s) as [[]]. Qed.

Lemma remove_payload_processed s :
  fs_processed (fs_files s) (fs_files (remove_upload_payload env (uq_id i) s).2).
Proof. unfold remove_upload_payload. rewrite allow_missing_state. apply remove_processed. by right. Qed.

Lemma fs_parent_item : fs_parent p = Some (upload_queue env).
Proof.
  rewrite (eo_path _ _ Hok). unfold item_path, fs_parent, fs_join. rewrite last_snoc. by rewrite removelast_last.
Qed.

Lemma temp_of_item tmp : temp_of (qn_uuid env) p tmp → ∃ n, tmp = fs_join (upload_queue env) n ∧ is_atomic_temp_name n = true.
Proof.
  intros Ht. destruct (temp_of_name _ _ _ Ht) as (n & Hn & Htemp). destruct Ht as (u & ->).
  rewrite fs_file_name_join in Hn. injection Hn as <-. rewrite fs_parent_item. simpl. eauto.
Qed.

Lemma write_item_run bytes s r s' : write_atomic (qn_uuid env) p bytes s = (r, s') →
  fs_files s' = fs_files s ∨ fs_files s' = <[p := bytes]> (fs_files s) ∨
  ∃ n b, is_atomic_temp_name n = true ∧ fs_files s' = <[fs_join (upload_queue env) n := b]> (fs_files s).
Proof.
  intros Hrun. apply write_atomic_with_run in Hrun as (_ & Hcase); [|done].
  assert (Hrep : replaced p (Some bytes) (fs_files s) (fs_files s') → fs_files s' = <[p := bytes]> (fs_files s)).
  { by intros (b & [= ->] & ->). }
  destruct Hcase as [(_ & ?%Hrep)|(_ & [?|[(tmp & b & Ht & _ & Hf)|?%Hrep]])]; [by auto..| |by auto].
  right; right. apply temp_of_item in Ht as (n & -> & Hn). eauto.
Qed.

Lemma write_item_processed bytes s :
  fs_processed (fs_files s) (fs_files (write_atomic (qn_uuid env) p bytes s).2).
Proof.
  intros q Hq _ Htemp. destruct (write_atomic _ p bytes s) as [r s'] eqn:Hrun. simpl.
  apply write_item_run in Hrun as [-> |[-> |(n & b & Hn & ->)]]; [done|by rewrite lookup_insert_ne|].
  rewrite lookup_insert_ne; [done|]. intros <-. rewrite (Htemp n) in Hn; done.
Qed.

Lemma attempt_processed b w s' : store_attempt (uq_key i) b (qw_remote w) s' → processed p i w (qw_with_remote w s').
Proof. intros (L & _ & P). by split. Qed.

Lemma in_remote_put_processed b : always (processed p i) (in_remote (rp_put (uq_key i) b)).
Proof.
  intros w. unfold in_remote. pose proof (rp_put_attempt (uq_key i) b (qw_remote w) (eo_key _ _ Hok)) as Ha.
  destruct (rp_put _ _ _) as [r s]. by apply (attempt_processed b).
Qed.
Lemma in_remote_put_if_absent_processed b : always (processed p i) (in_remote (rp_put_if_absent (uq_key i) b)).
Proof.
  intros w. unfold in_remote. pose proof (rp_put_if_absent_attempt (uq_key i) b (qw_remote w) (eo_key _ _ Hok)) as Ha.
  destruct (rp_put_if_absent _ _ _) as [r s]. by apply (attempt_processed b).
Qed.
Lemma in_remote_exists_processed k : always (processed p i) (in_remote (rp_exists k)).
Proof.
  intros w. unfold in_remote. pose proof (rp_exists_same k (qw_remote w)) as Hs.
  pose proof (rp_exists_present k (qw_remote w)) as Hp. destruct (rp_exists k _) as [r s]. simpl in *.
  split; [done|intros; apply Hs|intros; by apply Hp].
Qed.

Lemma always_stm_or {A} (R : QueueWorld → QueueWorld → Prop) (d : A) (m : queue_m A) :
  always R m → always R (stm_or d m).
Proof. intros Hm w. by rewrite stm_or_state. Qed.

Lemma clock_processed {A} (f : nat → A) : always (processed p i) (clock f).
Proof. intros w. by split. Qed.

Lemma fs_read_processed q : ∀ s, fs_processed (fs_files s) (fs_files (fs_read q s).2).
Proof.
  intros s. destruct (fs_read q s) as [r s'] eqn:Hr. by apply fs_read_run in Hr as (l & -> & _).
Qed.
#[local] Hint Resolve in_remote_put_processed in_remote_put_if_absent_processed in_remote_exists_processed
  clock_processed always_stm_or : mj.
#[local] Hint Extern 1 (always _ (in_fs _)) => apply in_fs_processed; intros ? : mj.
#[local] Hint Resolve remove_payload_processed write_item_processed fs_read_processed : mj.

Lemma any_exists_processed keys : always (processed p i) (any_exists keys).
Proof. induction keys as [|k keys IH]; cbn [any_exists]; always_solve. Qed.
#[local] Hint Resolve any_exists_processed : mj.

Lemma can_be_skipped_processed : always (processed p i) (queued_upload_can_be_skipped env i).
Proof.
  unfold queued_upload_can_be_skipped. destruct (qn_kind env); always_solve;
    apply in_fs_processed; intros s; rewrite stm_ignore_state; apply remove_payload_processed.
Qed.

Lemma record_failure_processed : always (processed p i) (record_failure env p i).
Proof. unfold record_failure. always_solve. Qed.

Lemma put_item_processed b : always (processed p i) (put_item env i b).
Proof. unfold put_item. always_solve. Qed.
#[local] Hint Resolve can_be_skipped_processed record_failure_processed put_item_processed : mj.

Lemma remove_item_processed : always (processed p i) (in_fs (fs_remove_file p)).
Proof. apply in_fs_processed, remove_processed. by left. Qed.
#[local] Hint Resolve remove_item_processed : mj.

Lemma after_upload_processed n upload :
  always (processed p i) upload → always (processed p i) (after_upload env p i n upload).
Proof.
  intros Hu w. unfold after_upload. specialize (Hu w). destruct (upload w) as [[[]|e|] w1]; simpl in Hu; [| |done];
    (etrans; [exact Hu|]); clear Hu.
  - revert w1. change (always (processed p i) (let* _ := in_fs (remove_upload_payload env (uq_id i)) in
      let* _ := in_fs (fs_remove_file p) in stm_ret (Uploaded n))). always_solve.
  - revert w1. change (always (processed p i) (let* _ := record_failure env p i in
      stm_fail (A := UploadQueueItemResult) ("upload failed for " +:+ uq_key i))). always_solve.
Qed.

Lemma upload_queue_item_processed : always (processed p i) (upload_queue_item env p i).
Proof.
  unfold upload_queue_item. apply always_bind; [typeclasses eauto|destruct (uq_overwrite i); always_solve|].
  intros []; [always_solve|]. apply always_bind; [typeclasses eauto| |].
  - apply always_stm_or. unfold upload_item_payload_size. always_solve.
  - intros n. destruct (uq_inline i); [|destruct (uq_source i)]; [apply after_upload_processed; always_solve..|always_solve].
Qed.

(** ** What becomes of one item *)

Lemma published_remote b w w' : qw_remote w' = qw_remote w → published w i b → published w' i b.
Proof. unfold published. by intros ->. Qed.

Lemma kept_files b w w' : files w' = files w → kept w p i b → kept w' p i b.
Proof. unfold kept, queued, payload. by intros ->. Qed.

Lemma in_fs_remote {A} (m : fs_m A) w r w' : in_fs m w = (r, w') → qw_remote w' = qw_remote w.
Proof. unfold in_fs. destruct (m (qw_fs w)) as [r0 s]. by intros [= <- <-]. Qed.
Lemma in_remote_fs {A} (m : stm rp_state A) w r w' : in_remote m w = (r, w') → qw_fs w' = qw_fs w.
Proof. unfold in_remote. destruct (m (qw_remote w)) as [r0 s]. by intros [= <- <-]. Qed.

Lemma any_exists_run keys w r w' : any_exists keys w = (r, w') →
  qw_fs w' = qw_fs w ∧ (r = Done true → ∃ a, a ∈ keys ∧ rp_present (qw_remote w') a).
Proof.
  revert w; induction keys as [|k keys IH]; intros w; cbn [any_exists]; [by intros [= <- <-]|].
  unfold stm_bind, stm_or. destruct (in_remote (rp_exists k) w) as [[[]|e|] w1] eqn:Hx.
  - intros [= <- <-]. split; [by eapply in_remote_fs|]. intros _. exists k. split; [by left|].
    unfold in_remote in Hx. destruct (rp_exists k (qw_remote w)) as [r0 s0] eqn:He. injection Hx as -> <-.
    simpl. by eapply rp_exists_true.
  - intros [-> Hr]%IH. apply in_remote_fs in Hx as ->. split; [done|]. intros (a & ? & ?)%Hr. exists a. by split; [right|].
  - intros [-> Hr]%IH. apply in_remote_fs in Hx as ->. split; [done|]. intros (a & ? & ?)%Hr. exists a. by split; [right|].
  - intros [= <- <-]. split; [by eapply in_remote_fs|done].
Qed.

Lemma remove_payload_run s r s' : remove_upload_payload env (uq_id i) s = (r, s') →
  r = Done tt ∨ ∃ e, r = Fails e.
Proof.
  unfold remove_upload_payload, allow_missing. destruct (fs_remove_file _ s) as [r0 s0] eqn:Hr.
  apply fs_remove_file_run in Hr as (_ & [(-> & _)|((e & -> & _) & _)]); [intros [= <- <-]; by left|].
  destruct (e =? _)%string; intros [= <- <-]; eauto.
Qed.

Lemma ignore_payload_run w r w' : in_fs (stm_ignore (remove_upload_payload env (uq_id i))) w = (r, w') →
  r = Done tt ∧ qw_remote w' = qw_remote w.
Proof.
  intros Hrun. split; [|by eapply in_fs_remote]. unfold in_fs, stm_ignore, stm_or, stm_bind in Hrun.
  destruct (remove_upload_payload env (uq_id i) (qw_fs w)) as [r0 s0] eqn:Hr.
  apply remove_payload_run in Hr as [-> |(e & ->)]; by injection Hrun as <- _.
Qed.

Lemma can_be_skipped_run w r w' : queued_upload_can_be_skipped env i w = (r, w') →
  (r ≠ Done true → files w' = files w) ∧
  (r = Done true → prefer_canonical_remote_only (uq_key i) = true ∧
     ∃ a, a ∈ canonical_remote_aliases (uq_key i) ∧ rp_present (qw_remote w') a).
Proof.
  unfold queued_upload_can_be_skipped. destruct (qn_kind env); [| |by intros [= <- <-]];
    (destruct (prefer_canonical_remote_only (uq_key i)); [|by intros [= <- <-]]); simpl; unfold stm_bind;
    destruct (any_exists _ w) as [ra wa] eqn:Hx; apply any_exists_run in Hx as [Hf Hp];
    (destruct ra as [[]|e|]; [|intros [= <- <-]; by rewrite Hf..]);
    destruct (in_fs _ wa) as [rb wb] eqn:Hb; apply ignore_payload_run in Hb as [-> Hrem];
    intros [= <- <-]; rewrite Hrem; (split; [done|]); intros _; split; [done|by apply Hp|done|by apply Hp].
Qed.

(** Storing the payload. *)
Lemma put_item_run bytes w r w' : put_item env i bytes w = (r, w') →
  qw_fs w' = qw_fs w ∧ (r = Done tt → published w' i (Some bytes)).
Proof.
  unfold put_item. destruct (conditional env i) eqn:Hc.
  - unfold stm_bind. destruct (in_remote _ w) as [ra wa] eqn:Ha. pose proof Ha as Hfs. apply in_remote_fs in Hfs.
    unfold in_remote in Ha. destruct (rp_put_if_absent _ _ _) as [rb sb] eqn:Hb. injection Ha as <- <-.
    destruct rb as [x|e|]; intros [= <- <-]; (split; [done|]); [|done..]. intros _. right; left. split; [done|].
    eapply rp_put_if_absent_done; [apply Hok|exact Hb].
  - intros Ha. pose proof Ha as Hfs. apply in_remote_fs in Hfs. split; [done|]. intros ->.
    unfold in_remote in Ha. destruct (rp_put _ _ _) as [rb sb] eqn:Hb. injection Ha as -> <-. left. split; [done|].
    eapply rp_put_done; [apply Hok|exact Hb].
Qed.

Lemma source_not_item n source : uq_inline i = None → uq_source i = Some source →
  fs_path_of source ≠ fs_join (upload_queue env) n.
Proof.
  intros Hin Hsrc Heq. destruct (eo_source _ _ Hok source Hin Hsrc) as [Hp|Hp].
  - rewrite Hp in Heq. apply fs_join_inj in Heq as [Hd _]. by apply dirs_ne.
  - apply Hp. exists n. by left.
Qed.

Lemma record_failure_kept b w r w' : kept w p i b → record_failure env p i w = (r, w') → kept w' p i b.
Proof.
  intros [(bytes & i' & Hf & Hj & Hs) Hpay]. unfold record_failure, stm_bind, clock, in_fs. simpl.
  set (item := record_attempt i _). destruct (write_atomic _ p _ _) as [ra sa] eqn:Ha. intros [= <- <-].
  apply write_item_run in Ha as Hcase. simpl in Hcase.
  assert (Hsame : ∀ n v, files w !! p = Some bytes → is_atomic_temp_name n = true →
    <[fs_join (upload_queue env) n := v]> (files w) !! p = Some bytes).
  { intros n v Hp Hn. rewrite lookup_insert_ne; [done|]. rewrite (eo_path _ _ Hok). intros [_ ->]%fs_join_inj.
    rewrite (eo_id _ _ Hok) in Hn. by rewrite item_name_plain in Hn. }
  split.
  - unfold queued. simpl. destruct Hcase as [-> |[-> |(n & v & Hn & ->)]]; [by eauto| |rewrite Hsame by done; by eauto].
    rewrite lookup_insert_eq. eexists _, item. split; [done|]. split; [apply json_pretty_roundtrip|done].
  - rewrite <-Hpay. unfold payload. simpl. destruct (uq_inline i) eqn:Hin; [done|].
    destruct (uq_source i) as [source|] eqn:Hsrc; [|done].
    destruct Hcase as [-> |[-> |(n & v & Hn & ->)]]; [done| |]; (rewrite lookup_insert_ne; [done|]); apply not_eq_sym;
      [rewrite (eo_path _ _ Hok)|]; by apply source_not_item.
Qed.

(** What a call leaves of the item; a success means it is published. *)
Definition handled {A} (b : option (list Z)) (r : outcome A string) (w' : QueueWorld) : Prop :=
  safe w' p i b ∧ (∀ x, r = Done x → published w' i b).

Lemma published_handled {A} b (r : outcome A string) w' : published w' i b → handled b r w'.
Proof. intros Hp. split; [by right|done]. Qed.

Lemma after_upload_handled n upload b w r w' :
  kept w p i b →
  (∀ ru wu, upload w = (ru, wu) → files wu = files w ∧ (ru = Done tt → published wu i b)) →
  after_upload env p i n upload w = (r, w') → handled b r w'.
Proof.
  intros Hk Hu. unfold after_upload. destruct (upload w) as [ru wu] eqn:Hrun.
  destruct (Hu ru wu eq_refl) as [Hf Hpub]. destruct ru as [[]|e|].
  - specialize (Hpub eq_refl). unfold stm_bind. destruct (in_fs _ wu) as [ra wa] eqn:Ha.
    pose proof (in_fs_remote _ _ _ _ Ha) as Hra.
    assert (published wa i b) as Hpa by (by eapply published_remote).
    destruct ra as [[]|e|]; [|intros [= <- <-]; by apply published_handled..].
    destruct (in_fs _ wa) as [rb wb] eqn:Hb. apply in_fs_remote in Hb.
    assert (published wb i b) as Hpb by (by eapply published_remote).
    destruct rb as [[]|e|]; intros [= <- <-]; by apply published_handled.
  - unfold stm_bind. destruct (record_failure env p i wu) as [ra wa] eqn:Ha.
    apply (record_failure_kept b) in Ha; [|by eapply kept_files].
    destruct ra as [[]|e'|]; intros [= <- <-]; (split; [by left|done]).
  - intros [= <- <-]. split; [left; by eapply kept_files|done].
Qed.

Lemma payload_size_run w r w' : stm_or 0 (upload_item_payload_size i) w = (r, w') → files w' = files w ∧ ∃ n, r = Done n.
Proof.
  unfold stm_or, upload_item_payload_size. destruct (uq_inline i); [intros [= <- <-]; by eauto|].
  destruct (uq_source i) as [source|]; [|intros [= <- <-]; by eauto]. unfold stm_bind, in_fs.
  destruct (fs_read _ (qw_fs w)) as [ra sa] eqn:Ha. apply fs_read_run in Ha as (l & -> & [(e & ->)|(b & -> & _)]);
    intros [= <- <-]; by eauto.
Qed.

Lemma upload_source_run w source b : payload w i = b → uq_inline i = None → uq_source i = Some source →
  ∀ ru wu, (let* bytes := in_fs (fs_read (fs_path_of source)) in put_item env i bytes) w = (ru, wu) →
    files wu = files w ∧ (ru = Done tt → published wu i b).
Proof.
  intros Hpay Hin Hsrc ru wu. unfold stm_bind. destruct (in_fs _ w) as [ra wa] eqn:Ha. unfold in_fs in Ha.
  destruct (fs_read _ (qw_fs w)) as [rb sb] eqn:Hb. injection Ha as <- <-.
  apply fs_read_run in Hb as (l & -> & [(e & ->)|(bytes & -> & Hbytes)]); [by intros [= <- <-]|].
  intros [Hf Hp]%put_item_run. split; [by rewrite Hf|]. intros Hdone.
  unfold payload in Hpay. rewrite Hin, Hsrc, Hbytes in Hpay. subst b. by apply Hp.
Qed.

Lemma upload_queue_item_handled b w r w' :
  kept w p i b → upload_queue_item env p i w = (r, w') → handled b r w'.
Proof.
  intros Hk. unfold upload_queue_item. unfold stm_bind at 1.
  set (skip := if uq_overwrite i then _ else _). destruct (skip w) as [ra wa] eqn:Ha.
  assert ((ra ≠ Done true → files wa = files w) ∧ (ra = Done true → published wa i b)) as [Hf Hp].
  { unfold skip in Ha. destruct (uq_overwrite i) eqn:Ho; [by injection Ha as <- <-|].
    apply can_be_skipped_run in Ha as [Hf Hp]. split; [done|]. intros Hd. right; right. split; [done|by apply Hp]. }
  destruct ra as [[]|e|]; [| |intros [= <- <-]; split; [left; eapply kept_files; [by apply Hf|done]|done]..].
  - specialize (Hp eq_refl). unfold stm_bind. destruct (in_fs _ wa) as [rb wb] eqn:Hb. apply in_fs_remote in Hb.
    assert (published wb i b) as Hpb by (by eapply published_remote).
    destruct rb as [[]|e|]; intros [= <- <-]; by apply published_handled.
  - assert (kept wa p i b) as Hka by (eapply kept_files; [by apply Hf|done]). unfold stm_bind at 1.
    destruct (stm_or 0 _ wa) as [rb wb] eqn:Hb. apply payload_size_run in Hb as [Hfb (n & ->)].
    assert (kept wb p i b) as Hkb by (by eapply kept_files). pose proof Hkb as [_ Hpay].
    destruct (uq_inline i) as [bytes|] eqn:Hin; [|destruct (uq_source i) as [source|] eqn:Hsrc].
    + apply after_upload_handled; [done|]. intros ru wu [Hfu Hpu]%put_item_run. split; [by rewrite Hfu|].
      unfold payload in Hpay. rewrite Hin in Hpay. by subst b.
    + apply after_upload_handled; [done|]. by apply upload_source_run.
    + intros [= <- <-]. split; [by left|done].
Qed.
End Item.

(** ** Several items *)

Definition key_of (e : QueueEntry) : string := uq_key e.2.
Record entries_ok (l : list QueueEntry) : Prop := {
  es_ok e : e ∈ l → entry_ok e.1 e.2;
  es_keys : NoDup (map key_of l);
}.

Lemma entries_ok_app l l' : entries_ok (l ++ l') →
  entries_ok l ∧ entries_ok l' ∧ ∀ e e', e ∈ l → e' ∈ l' → key_of e ≠ key_of e'.
Proof.
  intros [Ho Hk]. rewrite map_app in Hk. apply NoDup_app in Hk as (Hk1 & Hd & Hk2).
  split; [split; [set_solver|done]|]. split; [split; [set_solver|done]|].
  intros e e' He He' Heq. apply (Hd (key_of e)); [by apply list_elem_of_fmap_2|]. rewrite Heq. by apply list_elem_of_fmap_2.
Qed.

Lemma entries_ok_perm l l' : l ≡ₚ l' → entries_ok l → entries_ok l'.
Proof.
  intros Hp [Ho Hk]. split; [intros e; rewrite <-Hp; apply Ho|]. by rewrite <-(Permutation_map key_of Hp).
Qed.

Lemma entries_path_inj l e e' : entries_ok l → e ∈ l → e' ∈ l → e.1 = e'.1 → key_of e = key_of e'.
Proof.
  intros [Ho _] He He' Heq. apply Ho in He as [Hp Hi _ _ _], He' as [Hp' Hi' _ _ _].
  rewrite Hp, Hp' in Heq. apply item_path_inj in Heq. rewrite Hi, Hi' in Heq. by apply expected_id_inj in Heq.
Qed.

(** A call that works on the items [l], whose payloads are [B]: each is handled, and
    of two items the one of higher priority is touched only when the other is
    published; items outside [l] are left alone. *)
Definition priority (e : QueueEntry) : nat := upload_publish_priority (key_of e).
Record works {A} (prio : QueueEntry → nat) (l : list QueueEntry) (B : QueueEntry → option (list Z)) (w : QueueWorld)
    (r : outcome A string) (w' : QueueWorld) : Prop := {
  wk_handled e : e ∈ l → handled e.1 e.2 (B e) r w';
  wk_order e e' : e ∈ l → e' ∈ l → (prio e < prio e')%nat →
    ¬ untouched e'.1 e'.2 w w' → published w' e.2 (B e);
  wk_frame e : entry_ok e.1 e.2 → key_of e ∉ map key_of l → untouched e.1 e.2 w w';
}.
Definition all_kept (l : list QueueEntry) (B : QueueEntry → option (list Z)) (w : QueueWorld) : Prop :=
  ∀ e, e ∈ l → kept w e.1 e.2 (B e).
Definition covers {A} (prio : QueueEntry → nat) (B : QueueEntry → option (list Z)) (l : list QueueEntry)
    (m : queue_m A) : Prop :=
  ∀ w r w', all_kept l B w → m w = (r, w') → works prio l B w r w'.

Lemma not_in_keys l l' e : entries_ok (l ++ l') → e ∈ l' → key_of e ∉ map key_of l.
Proof.
  intros Hok He Hin. apply list_elem_of_fmap in Hin as (e' & Heq & He').
  destruct (entries_ok_app _ _ Hok) as (_ & _ & Hd). by apply (Hd e' e).
Qed.
Lemma not_in_keys' l l' e : entries_ok (l ++ l') → e ∈ l → key_of e ∉ map key_of l'.
Proof.
  intros Hok He Hin. apply list_elem_of_fmap in Hin as (e' & Heq & He').
  destruct (entries_ok_app _ _ Hok) as (_ & _ & Hd). by apply (Hd e e').
Qed.

(** One call after the other. *)
Lemma covers_seq {A A'} prio B (l l' : list QueueEntry) (m : queue_m A) (k : A → queue_m A') :
  entries_ok (l ++ l') → (∀ e e', e ∈ l → e' ∈ l' → (prio e <= prio e')%nat) →
  covers prio B l m → (∀ a, covers prio B l' (k a)) → covers prio B (l ++ l') (stm_bind m k).
Proof.
  intros Hok Hprio Hm Hk w r w' Hkept. pose proof (es_ok _ Hok) as Hent.
  unfold stm_bind. destruct (m w) as [ra wa] eqn:Ha.
  assert (Wa : works prio l B w ra wa) by (apply Hm; [intros e ?; apply Hkept; set_solver|done]). destruct Wa as [H1' O1 F1].
  assert (Hu1 : ∀ e, e ∈ l' → untouched e.1 e.2 w wa).
  { intros e He. apply F1; [apply Hent; set_solver|by eapply not_in_keys]. }
  assert (Hkept1 : all_kept l' B wa) by (intros e He; eapply kept_untouched; [by apply Hu1|apply Hkept; set_solver]).
  destruct ra as [a|e0|].
  2, 3: intros [= <- <-]; split;
    [ intros e [He|He]%elem_of_app; [split; [by apply H1'|done]|split; [left; by apply Hkept1|done]]
    | intros e e' [He|He]%elem_of_app [He'|He']%elem_of_app Hlt Hnt; [by apply (O1 e e')|by destruct Hnt; apply Hu1
        | specialize (Hprio _ _ He' He); lia|by destruct Hnt; apply Hu1]
    | intros e He Hnin; apply F1; [done|]; rewrite map_app in Hnin; set_solver ].
  intros Hrun. destruct (Hk a wa r w' Hkept1 Hrun) as [H2' O2 F2].
  assert (Hu2 : ∀ e, e ∈ l → untouched e.1 e.2 wa w').
  { intros e He. apply F2; [apply Hent; set_solver|by eapply not_in_keys']. }
  assert (Hpub : ∀ e, e ∈ l → published w' e.2 (B e)).
  { intros e He. eapply published_untouched; [apply (Hent e); set_solver|by apply Hu2|]. by eapply H1'. }
  split.
  - intros e [He|He]%elem_of_app; [|by apply H2']. split; [right|intros]; by apply Hpub.
  - intros e e' [He|He]%elem_of_app [He'|He']%elem_of_app Hlt Hnt; [by apply Hpub..| |].
    + specialize (Hprio _ _ He' He). lia.
    + apply (O2 e e'); [done..|]. intros Hu. apply Hnt. etrans; [by apply Hu1|done].
  - intros e He Hnin. rewrite map_app in Hnin. etrans; [apply F1; [done|]|apply F2; [done|]]; set_solver.
Qed.

(** ** A batch *)

Lemma run_threads_run l B w r w' :
  entries_ok l → all_kept l B w → run_threads env l w = (r, w') →
  ∃ results, r = Done results ∧
    (∀ e, e ∈ l → handled e.1 e.2 (B e) (result_at e.1 results) w') ∧
    (∀ e, entry_ok e.1 e.2 → key_of e ∉ map key_of l → untouched e.1 e.2 w w').
Proof.
  revert w r w'; induction l as [|[p i] l IH]; intros w r w' Hok Hkept; cbn [run_threads].
  { intros [= <- <-]. exists []. split; [done|]. split; [set_solver|done]. }
  destruct (upload_queue_item env p i w) as [ra wa] eqn:Ha.
  destruct (entries_ok_app [(p, i)] l Hok) as (_ & Hokl & Hd).
  assert (Hpi : entry_ok p i) by (apply (es_ok _ Hok (p, i)); by left).
  assert (Hproc : processed p i w wa).
  { pose proof (upload_queue_item_processed p i Hpi w) as Hp. by rewrite Ha in Hp. }
  assert (Hhead : handled p i (B (p, i)) ra wa).
  { eapply upload_queue_item_handled; [done| |done]. apply (Hkept (p, i)). by left. }
  assert (Hua : ∀ e, entry_ok e.1 e.2 → key_of e ≠ uq_key i → untouched e.1 e.2 w wa).
  { intros e He Hne. eapply processed_untouched; [exact Hpi|exact He|by apply not_eq_sym|exact Hproc]. }
  unfold stm_bind. destruct (run_threads env l wa) as [rb wb] eqn:Hb.
  apply IH in Hb as (results & -> & Hres & Hfr); [|done|].
  2: { intros e He. eapply kept_untouched; [apply Hua|apply Hkept; by right].
       - apply (es_ok _ Hokl), He.
       - apply not_eq_sym. apply (Hd (p, i)); [by left|done]. }
  intros [= <- <-]. exists ((p, ra) :: results). split; [done|]. split.
  - intros e [->|He]%elem_of_cons; simpl.
    + rewrite bool_decide_true by done.
      assert (Hu : untouched p i wa wb).
      { apply (Hfr (p, i)); [done|]. by apply (not_in_keys' [(p, i)] l); [|left]. }
      destruct Hhead as [Hs Hp]. split; [by eapply safe_untouched|]. intros x Hx. eapply published_untouched; eauto.
    + rewrite bool_decide_false; [by apply Hres|]. intros Heq. apply (Hd (p, i) e); [by left|done|].
      apply (entries_path_inj ((p, i) :: l)); [done|by left|by right|done].
  - intros e He Hnin. simpl in Hnin. etrans; [apply Hua|apply Hfr]; [done|set_solver|done|set_solver].
Qed.

Lemma join_results_Ok batch results rs :
  join_results batch results = Ok rs → ∀ e, e ∈ batch → ∃ x, result_at e.1 results = Done x.
Proof.
  revert rs; induction batch as [|[p i] batch IH]; intros rs; simpl; [set_solver|].
  destruct (result_at p results) as [x|e|] eqn:Hx; [|done..].
  intros (rs' & Hrs & _)%result_bind_Ok e [->|He]%elem_of_cons; [by exists x|by eapply IH].
Qed.

Definition same_priority (l : list QueueEntry) (n : nat) : Prop := ∀ e, e ∈ l → priority e = n.

Lemma covers_ret {A} prio B (a : A) : covers prio B [] (stm_ret a).
Proof. intros w r w' _ [= <- <-]. split; [set_solver|set_solver|by intros]. Qed.

Section Drain.
Context (schedule_perm : ∀ l, qn_schedule env l ≡ₚ l).

Lemma run_batch_covers batch n : entries_ok batch → same_priority batch n → ∀ B, covers priority B batch (run_batch env batch).
Proof.
  intros Hok Hprio B w r w' Hkept. unfold run_batch, stm_bind.
  destruct (run_threads env _ w) as [ra wa] eqn:Ha.
  apply (run_threads_run _ B) in Ha as (results & -> & Hres & Hfr).
  2: { eapply entries_ok_perm; [symmetry; apply schedule_perm|done]. }
  2: { intros e He. apply Hkept. by rewrite <-(schedule_perm batch). }
  unfold stm_ok, stm_lift. intros [= <- <-]. split.
  - intros e He. destruct (Hres e) as [Hs Hp]; [by rewrite schedule_perm|]. split; [done|]. intros rs Hrs.
    destruct (join_results batch results) as [rs'|] eqn:Hj; [|done].
    destruct (join_results_Ok _ _ _ Hj e He) as [x Hx]. by eapply Hp.
  - intros e e' He He' Hlt. apply Hprio in He, He'. lia.
  - intros e He Hnin. apply Hfr; [done|]. by rewrite (Permutation_map key_of (schedule_perm batch)).
Qed.

Lemma drain_batches_covers bs n stats B :
  entries_ok (concat bs) → same_priority (concat bs) n → covers priority B (concat bs) (drain_batches env stats bs).
Proof.
  revert stats; induction bs as [|b bs IH]; intros stats Hok Hprio; simpl in *; [apply covers_ret|].
  destruct (entries_ok_app _ _ Hok) as (Hb & Hbs & _). apply covers_seq; [done| | |].
  - intros e e' He He'. rewrite (Hprio e), (Hprio e') by set_solver. lia.
  - apply (run_batch_covers b n); [done|]. intros e He. apply Hprio. set_solver.
  - intros results. apply IH; [done|]. intros e He. apply Hprio. set_solver.
Qed.

Lemma drain_batches_app stats bs bs' w :
  drain_batches env stats (bs ++ bs') w = stm_bind (drain_batches env stats bs) (λ st, drain_batches env st bs') w.
Proof.
  revert stats w; induction bs as [|b bs IH]; intros stats w; simpl; [done|].
  unfold stm_bind. destruct (run_batch env b w) as [[rs|e|] w1]; [|done..]. rewrite IH. done.
Qed.
End Drain.
End Safety.

Lemma chunks_go_concat {A} fuel n (l : list A) : (length l <= fuel)%nat → (0 < n)%nat → concat (chunks_go fuel n l) = l.
Proof.
  revert l; induction fuel as [|fuel IH]; intros [|x l] Hl Hn; simpl in *; [done|lia|done|].
  destruct n as [|n]; [lia|]. simpl. f_equal. rewrite IH; [by rewrite take_drop| |lia]. rewrite length_drop. lia.
Qed.
Lemma concat_chunks {A} n (l : list A) : (0 < n)%nat → concat (chunks n l) = l.
Proof. intros Hn. by apply chunks_go_concat. Qed.

(** ** Listing *)

Section Listing.
Context `{!Blake3Text, !Blake3TextLaws, !Serde UploadQueueItem, !SerdeLaws UploadQueueItem,
          !RemotePut, !RemotePutLaws, !ClusterProxy}.
Context (env : QueueEnv).
Abbreviation files w := (fs_files (qw_fs w)).

(** Only temporary files of a directory have gone. *)
Definition cleaned (dir : FsPath) (f f' : gmap FsPath (list Z)) : Prop :=
  f' ⊆ f ∧ ∀ q, (∀ n, q = fs_join dir n → is_atomic_temp_name n = false) → f' !! q = f !! q.
#[local] Instance cleaned_preorder dir : PreOrder (cleaned dir).
Proof.
  split; [by split|]. intros f1 f2 f3 [S1 E1] [S2 E2]. split; [by etrans|]. intros q Hq. by rewrite E2, E1.
Qed.

Lemma cleanup_loop_cleaned stale dir n names s :
  cleaned dir (fs_files s) (fs_files (cleanup_loop stale dir n names s).2).
Proof.
  revert n s; induction names as [|name names IH]; intros n s; cbn [cleanup_loop]; [reflexivity|].
  unfold stm_bind at 1. destruct (fs_sys _ s) as [ra sa] eqn:Ha.
  apply fs_sys_inv in Ha as (la & [(-> & ->)|[= <- <-]]); [reflexivity|].
  destruct (is_atomic_temp_name name) eqn:Htemp; [|apply (IH n (fs_with_faults s la))]. cbn [negb].
  unfold stm_bind at 1. destruct (fs_sys (A := unit) _ _) as [rb sb] eqn:Hb.
  apply fs_sys_inv in Hb as (lb & [(-> & ->)|[= <- <-]]); [reflexivity|].
  destruct (stale _); [|apply (IH n (fs_with_faults s lb))]. cbn [negb]. simpl.
  destruct (fs_remove_file _ _) as [rc sc] eqn:Hc.
  apply fs_remove_file_run in Hc as (_ & [(-> & _ & Hf)|((e & -> & _) & Hf)]); simpl in Hf.
  - etrans; [|apply IH]. rewrite Hf. split; [apply delete_subseteq|]. intros q Hq. apply lookup_delete_ne. intros <-.
    by rewrite (Hq name eq_refl) in Htemp.
  - destruct (e =? _)%string; [etrans; [|apply IH]|simpl]; by rewrite Hf.
Qed.

Lemma cleanup_cleaned stale dir s : cleaned dir (fs_files s) (fs_files (cleanup_stale_atomic_temps stale dir s).2).
Proof.
  unfold cleanup_stale_atomic_temps. unfold stm_bind at 1. destruct (fs_exists dir s) as [ra sa] eqn:Ha.
  apply fs_exists_run in Ha as (la & b & -> & -> & _). destruct b; [|reflexivity]. cbn [negb].
  unfold stm_bind at 1. destruct (fs_sys (A := unit) _ _) as [rb sb] eqn:Hb.
  apply fs_sys_inv in Hb as (lb & [(-> & ->)|[= <- <-]]); [reflexivity|]. unfold stm_bind, stm_get.
  apply (cleanup_loop_cleaned stale dir 0 _ (fs_with_faults s lb)).
Qed.

Lemma elem_of_dir_files dir s n : n ∈ dir_files dir s ↔ is_Some (fs_files s !! fs_join dir n).
Proof.
  unfold dir_files. rewrite list_elem_of_omap. split.
  - intros ([p b] & Hin & Hn). apply elem_of_map_to_list in Hin. destruct (fs_file_name p); [|done].
    case_bool_decide as Heq; [|done]. injection Hn as ->. subst p. by eauto.
  - intros [b Hb]. exists (fs_join dir n, b). split; [by apply elem_of_map_to_list|].
    rewrite fs_file_name_join. by rewrite bool_decide_true.
Qed.

Lemma dir_files_NoDup dir s : NoDup (dir_files dir s).
Proof.
  unfold dir_files. pose proof (NoDup_fst_map_to_list (fs_files s)) as Hnd.
  induction (map_to_list (fs_files s)) as [|[p b] l IH]; simpl; [constructor|].
  simpl in Hnd. apply NoDup_cons in Hnd as [Hp Hnd]. specialize (IH Hnd).
  destruct (fs_file_name p) as [n|]; [|done]. case_bool_decide as Heq; [|done]. constructor; [|done].
  rewrite list_elem_of_omap. intros ([p' b'] & Hin & Hn). destruct (fs_file_name p'); [|done].
  case_bool_decide as Heq'; [|done]. injection Hn as ->. apply Hp. rewrite Heq, <-Heq'.
  apply list_elem_of_fmap. by exists (p', b').
Qed.

(** A queue file and the item it holds. *)
Definition listed (w : QueueWorld) (p : FsPath) (i : UploadQueueItem) : Prop :=
  ∃ n bytes, p = fs_join (upload_queue env) n ∧ name_extension n = Some "json" ∧ files w !! p = Some bytes ∧
    json_from_slice bytes = Some i.

Lemma read_items_run names s r s' :
  NoDup names → (∀ n, n ∈ names → is_Some (fs_files s !! fs_join (upload_queue env) n)) →
  read_items env names s = (r, s') → fs_files s' = fs_files s ∧ (∀ items, r = Done items →
    NoDup (map fst items) ∧
    (∀ p i, (p, i) ∈ items → ∃ n bytes, p = fs_join (upload_queue env) n ∧ n ∈ names ∧
       name_extension n = Some "json" ∧ fs_files s !! p = Some bytes ∧ json_from_slice bytes = Some i) ∧
    (∀ n, n ∈ names → name_extension n = Some "json" → ∃ i, (fs_join (upload_queue env) n, i) ∈ items)).
Proof.
  revert s r s'; induction names as [|name names IH]; intros s r s' Hnd Hall; cbn [read_items].
  { intros [= <- <-]. split; [done|]. intros items [= <-]. split; [constructor|]. split; set_solver. }
  apply NoDup_cons in Hnd as [Hname Hnd].
  assert (Hrest : ∀ n, n ∈ names → is_Some (fs_files s !! fs_join (upload_queue env) n)) by (intros; apply Hall; by right).
  case_bool_decide as Hext; cbn [negb].
  2: { intros Hrun. apply IH in Hrun as [Hf Hitems]; [|done..]. split; [done|]. intros items Hi.
       destruct (Hitems items Hi) as (Hn1 & Hn2 & Hn3). split; [done|]. split; [|set_solver].
       intros p i Hpi. destruct (Hn2 p i Hpi) as (n & bytes & -> & Hin & Hrest'). exists n, bytes. set_solver. }
  destruct (Hall name) as [bytes Hbytes]; [by left|]. destruct (fs_read _ s) as [ra sa] eqn:Ha.
  apply (fs_read_found _ bytes) in Ha as (l & -> & [->| ->]); [| |done]; [|by intros [= <- <-]].
  destruct bytes as [|z zs]; [by intros [= <- <-]|]. destruct (json_from_slice (z :: zs)) as [item|] eqn:Hj; [|by intros [= <- <-]].
  unfold stm_bind. destruct (read_items env names _) as [rb sb] eqn:Hb.
  apply IH in Hb as [Hf Hitems]; [|done..]. simpl in Hf. destruct rb as [items'|e|]; intros [= <- <-]; (split; [done|]); [|done..].
  intros items [= <-]. destruct (Hitems items' eq_refl) as (Hn1 & Hn2 & Hn3). split; [|split].
  - simpl. constructor; [|done]. rewrite list_elem_of_fmap. intros ([p i] & Heq & Hpi). simpl in Heq.
    destruct (Hn2 p i Hpi) as (n & b & -> & Hin & _). apply fs_join_inj in Heq as [_ ->]. done.
  - intros p i [[= -> ->]|Hpi]%elem_of_cons; [exists name, (z :: zs); set_solver|].
    destruct (Hn2 p i Hpi) as (n & b & -> & Hin & Hr'). exists n, b. set_solver.
  - intros n [->|Hn]%elem_of_cons He; [exists item; by left|]. destruct (Hn3 n Hn He) as [i Hi]. exists i. by right.
Qed.

(** What the items of the queue satisfy. *)
Definition queue_wf (w : QueueWorld) : Prop := ∀ p i, listed w p i → entry_ok env p i.

Lemma listed_cleaned w w' p i :
  queue_wf w → cleaned (upload_queue env) (files w) (files w') → listed w' p i ↔ listed w p i.
Proof.
  intros Hwf [Hsub Hsame]. split; intros (n & bytes & Hp & Hext & Hf & Hj).
  - exists n, bytes. split_and!; [done..| |done]. by eapply lookup_weaken.
  - assert (entry_ok env p i) as Hok by (apply Hwf; by exists n, bytes).
    exists n, bytes. split_and!; [done..| |done]. rewrite Hsame; [done|]. intros m Hm.
    rewrite (eo_path _ _ _ Hok) in Hm. apply fs_join_inj in Hm as [_ <-]. rewrite (eo_id _ _ _ Hok). apply item_name_plain.
Qed.

(** The queue's directory is there and can be seen: a failing [stat] counts as an empty
    queue. *)
Definition dir_visible (w : QueueWorld) : Prop :=
  upload_queue env ∈ fs_dirs (qw_fs w) ∧ ∀ n l, fs_faults (qw_fs w) ≠ Some n :: l.

Lemma read_listed w items names s s' :
  queue_wf w → cleaned (upload_queue env) (files w) (fs_files s) → names = dir_files (upload_queue env) s →
  read_items env names s = (Done items, s') →
  entries_ok env items ∧ ∀ p i, (p, i) ∈ items ↔ listed w p i.
Proof.
  intros Hwf Hcl -> Hrun. apply read_items_run in Hrun as [_ Hitems]; [|apply dir_files_NoDup|].
  2: { intros n Hn. by apply elem_of_dir_files. }
  destruct (Hitems items eq_refl) as (Hnd & Hsound & Hcompl).
  assert (Hiff : ∀ p i, (p, i) ∈ items ↔ listed w p i).
  { intros p i. rewrite <-(listed_cleaned w (qw_with_fs w s) p i Hwf Hcl). split.
    - intros (n & bytes & -> & _ & Hext & Hf & Hj)%Hsound. by exists n, bytes.
    - intros (n & bytes & -> & Hext & Hf & Hj). simpl in Hf.
      destruct (Hcompl n) as [i' Hi']; [apply elem_of_dir_files; by eauto|done|].
      destruct (Hsound _ _ Hi') as (n' & bytes' & [_ <-]%fs_join_inj & _ & _ & Hf' & Hj').
      assert (i = i') as -> by congruence. done. }
  split; [|exact Hiff]. split; [intros [p i] He; by apply Hwf, Hiff|].
  assert (Hinj : ∀ e e', e ∈ items → e' ∈ items → key_of e = key_of e' → e.1 = e'.1).
  { intros [p i] [p' i'] He He' Heq. apply Hiff, Hwf in He as [-> Hi _ _ _]. apply Hiff, Hwf in He' as [-> Hi' _ _ _].
    simpl. rewrite Hi, Hi'. unfold key_of in Heq. simpl in Heq. by rewrite Heq. }
  clear -Hnd Hinj. induction items as [|e items IH]; simpl in *; [constructor|].
  apply NoDup_cons in Hnd as [He Hnd]. constructor.
  - rewrite list_elem_of_fmap. intros (e' & Heq & He'). apply He. apply list_elem_of_fmap. exists e'.
    split; [|done]. apply Hinj; [by left|by right|done].
  - apply IH; [done|]. intros x y Hx Hy. apply Hinj; by right.
Qed.

Lemma sort_entries_elem l e : e ∈ sort_entries l ↔ e ∈ l.
Proof. unfold sort_entries. by rewrite sort_by_perm. Qed.

Lemma exists_visible w r s : dir_visible w → fs_exists (upload_queue env) (qw_fs w) = (r, s) → r = Done true.
Proof.
  intros [Hd Hf]. unfold fs_exists, stm_or, fs_sys, stm_get.
  destruct (fs_faults (qw_fs w)) as [|[n|] l]; simpl; [|by destruct (Hf n l)|];
    rewrite (bool_decide_eq_true_2 (upload_queue env ∈ _)) by done; rewrite orb_true_r; by intros [= <- _].
Qed.

Lemma upload_queue_items_run w r w' : queue_wf w → upload_queue_items env w = (r, w') →
  qw_remote w' = qw_remote w ∧ cleaned (upload_queue env) (files w) (files w') ∧
  (∀ items, r = Done items → entries_ok env items ∧ (∀ p i, (p, i) ∈ items → listed w p i) ∧
     (items = [] ∨ ∀ p i, listed w p i → (p, i) ∈ items) ∧
     (dir_visible w → ∀ p i, listed w p i → (p, i) ∈ items)).
Proof.
  intros Hwf. unfold upload_queue_items, stm_bind, in_fs.
  destruct (fs_exists _ (qw_fs w)) as [ra sa] eqn:Ha. pose proof (fun Hv => exists_visible w ra sa Hv Ha) as Hvis.
  apply fs_exists_run in Ha as (la & b & -> & -> & _). destruct b; cbn [negb].
  2: { intros [= <- <-]. split; [done|]. split; [reflexivity|]. intros items [= <-].
       split; [split; [set_solver|constructor]|]. split; [set_solver|]. split; [by left|]. intros ?%Hvis. done. }
  clear Hvis. simpl. pose proof (cleanup_cleaned (qn_stale env) (upload_queue env) (fs_with_faults (qw_fs w) la)) as Hcl.
  destruct (cleanup_stale_atomic_temps _ _ _) as [rb sb]. simpl in Hcl.
  destruct rb as [n|e|]; [|intros [= <- <-]; by split_and!..].
  simpl. destruct (fs_sys _ sb) as [rc sc] eqn:Hc.
  apply fs_sys_inv in Hc as (lc & [(-> & ->)|[= <- <-]]); [intros [= <- <-]; by split_and!|]. simpl.
  destruct (read_items env _ _) as [rd sd] eqn:Hd. pose proof Hd as Hd'.
  apply read_items_run in Hd' as [Hfd _]; [|apply dir_files_NoDup|intros n'; by rewrite elem_of_dir_files]. simpl in Hfd.
  assert (Hcl' : cleaned (upload_queue env) (files w) (fs_files sd)) by (by rewrite Hfd).
  destruct rd as [items|e|]; intros [= <- <-]; (split; [done|]); (split; [done|]); [|done..].
  intros items' [= <-]. eapply (read_listed w) in Hd as [Hok Hiff]; [|done| |reflexivity]; [|done].
  split; [eapply entries_ok_perm; [symmetry; apply sort_by_perm|done]|].
  split; [intros p i; rewrite sort_entries_elem; apply Hiff|].
  assert (Hall : ∀ p i, listed w p i → (p, i) ∈ sort_entries items) by (intros p i Hl; by apply sort_entries_elem, Hiff).
  split; [by right|done].
Qed.

(** ** The drain *)

Lemma publish_priority_range key : upload_publish_priority key ∈ [1; 2; 3]%nat.
Proof. unfold upload_publish_priority. repeat destruct (_ || _); set_solver. Qed.

Definition group (items : list QueueEntry) (n : nat) : list QueueEntry := priority_group items n.

Lemma groups_perm items : group items 1 ++ group items 2 ++ group items 3 ≡ₚ items.
Proof.
  unfold group, priority_group, sort_entries. rewrite !sort_by_perm. induction items as [|e items IH]; [done|]. simpl.
  pose proof (publish_priority_range (uq_key e.2)) as Hr.
  repeat (apply elem_of_cons in Hr as [-> |Hr]; [simpl; rewrite <-?Permutation_middle; rewrite IH || idtac; try done|]).
  all: try by apply elem_of_nil in Hr.
Qed.

Lemma group_priority items n : same_priority (group items n) n.
Proof.
  intros e He. unfold group, priority_group in He. rewrite sort_entries_elem in He.
  apply list_elem_of_In, filter_In in He as [_ He]. by apply Nat.eqb_eq in He.
Qed.

Lemma parallelism_pos max : (0 < upload_queue_parallelism env max)%nat.
Proof. unfold upload_queue_parallelism. destruct (qn_kind env); lia. Qed.

Lemma covers_ext {A} prio B l (m m' : stm QueueWorld A) :
  (∀ w, m w = m' w) → covers env prio B l m → covers env prio B l m'.
Proof. intros Heq Hm w r w' Hk. rewrite <-Heq. by apply Hm. Qed.

Lemma drain_all_covers (Hperm : ∀ l, qn_schedule env l ≡ₚ l) items stats n B :
  (0 < n)%nat → entries_ok env items →
  covers env priority B (group items 1 ++ group items 2 ++ group items 3) (drain_batches env stats (priority_batches n items)).
Proof.
  intros Hn Hok. assert (Hokg : entries_ok env (group items 1 ++ group items 2 ++ group items 3)).
  { eapply entries_ok_perm; [symmetry; apply groups_perm|done]. }
  assert (Hg : ∀ k st, entries_ok env (group items k) →
    covers env priority B (group items k) (drain_batches env st (chunks n (group items k)))).
  { intros k st Hk. pose proof (drain_batches_covers env Hperm (chunks n (group items k)) k st B) as Hc.
    rewrite !concat_chunks in Hc by done. apply Hc; [done|apply group_priority]. }
  unfold priority_batches. simpl. rewrite app_nil_r.
  assert (Hle : ∀ k k' e e', (k <= k')%nat → e ∈ group items k → e' ∈ group items k' → (priority e <= priority e')%nat).
  { intros k k' e e' Hkk He He'. by rewrite (group_priority _ _ _ He), (group_priority _ _ _ He'). }
  destruct (entries_ok_app env _ _ Hokg) as (Hok1 & Hok23 & _). destruct (entries_ok_app env _ _ Hok23) as (Hok2 & Hok3 & _).
  eapply covers_ext; [intros w; symmetry; apply drain_batches_app|]. apply covers_seq; [done| |by apply Hg|].
  - intros e e' He [He'|He']%elem_of_app; [apply (Hle 1 2)%nat|apply (Hle 1 3)%nat]; auto.
  - intros st. eapply covers_ext; [intros w; symmetry; apply drain_batches_app|].
    apply covers_seq; [done| |by apply Hg|intros; by apply Hg]. intros e e' He He'. apply (Hle 2 3)%nat; auto.
Qed.

Lemma listed_kept w w1 p i : queue_wf w → cleaned (upload_queue env) (files w) (files w1) →
  listed w p i → kept w1 p i (payload w i).
Proof.
  intros Hwf Hcl Hl. pose proof (Hwf p i Hl) as Hok. split.
  - apply (listed_cleaned w w1 p i Hwf Hcl) in Hl as (n & bytes & _ & _ & Hf & Hj). by exists bytes, i.
  - unfold payload. destruct (uq_inline i) eqn:Hin; [done|]. destruct (uq_source i) as [source|] eqn:Hsrc; [|done].
    apply Hcl. intros n Hn. by destruct (source_not_item env p i Hok n source Hin Hsrc).
Qed.

(** What a drain does to the items it finds. *)
Lemma drain_direct_run (Hperm : ∀ l, qn_schedule env l ≡ₚ l) max w r w' :
  queue_wf w → drain_direct env max w = (r, w') →
  (((∀ st, r = Done st → ¬ dir_visible w ∨ ∀ p i, ¬ listed w p i) ∧ qw_remote w' = qw_remote w ∧
    ∀ p i, listed w p i → kept w' p i (payload w i)) ∨
   ∃ items w1, qw_remote w1 = qw_remote w ∧ (∀ p i, listed w p i → (p, i) ∈ items) ∧
     (∀ p i, (p, i) ∈ items → listed w p i) ∧
     works env priority items (λ e, payload w e.2) w1 r w').
Proof.
  intros Hwf. unfold drain_direct, stm_bind. destruct (upload_queue_items env w) as [ra wa] eqn:Ha.
  apply upload_queue_items_run in Ha as (Hrem & Hcl & Hitems); [|done].
  destruct ra as [items|e|]; cycle 1.
  { intros [= <- <-]. left. split; [done|]. split; [done|]. intros p i. by apply listed_kept. }
  { intros [= <- <-]. left. split; [done|]. split; [done|]. intros p i. by apply listed_kept. }
  destruct (Hitems items eq_refl) as (Hok & Hsound & Hempty & Hvis). intros Hrun.
  destruct Hempty as [->|Hcompl].
  { injection Hrun as <- <-. left. split; [|split; [done|intros p i; by apply listed_kept]].
    intros st _. destruct (decide (upload_queue env ∈ fs_dirs (qw_fs w))) as [Hd|Hd]; [|left; by intros [? _]].
    destruct (fs_faults (qw_fs w)) as [|[n|] l] eqn:Hf.
    - right. intros p i Hl. assert (Hin : (p, i) ∈ ([] : list QueueEntry)); [|by apply elem_of_nil in Hin].
      apply Hvis; [|done]. split; [done|]. by rewrite Hf.
    - left. intros [_ Hv]. by apply (Hv n l).
    - right. intros p i Hl. assert (Hin : (p, i) ∈ ([] : list QueueEntry)); [|by apply elem_of_nil in Hin].
      apply Hvis; [|done]. split; [done|]. by rewrite Hf. }
  right. exists items, wa. split; [done|]. split; [done|]. split; [done|].
  apply (drain_all_covers Hperm items _ _ (λ e, payload w e.2) (parallelism_pos max) Hok) in Hrun as [W1 W2 W3].
  2: { intros [p i] He. rewrite groups_perm in He. by apply listed_kept; [| |apply Hsound]. }
  split.
  - intros e He. apply W1. by rewrite groups_perm.
  - intros e e' He He'. apply W2; by rewrite groups_perm.
  - intros e He Hnin. apply W3; [done|]. by rewrite (Permutation_map key_of (groups_perm items)).
Qed.

Section Theorems.
Hypothesis schedule_perm : ∀ l, qn_schedule env l ≡ₚ l.
Hypothesis direct : qn_kind env ≠ KMasterProxy.

(** C17. The queue loses nothing.  Whatever system call and whatever request to the
    remote fails, and in whatever order the threads of a batch run, after a drain
    every item that was queued is still queued with its payload, or the remote holds
    its object; and when the drain succeeds the remote holds every object. *)
Theorem drain_loses_nothing max w r w' :
  queue_wf w → drain_upload_queue env max w = (r, w') → ∀ p i, listed w p i →
  safe env w' p i (payload w i) ∧
  (dir_visible w → ∀ st, r = Done st → published env w' i (payload w i)).
Proof.
  intros Hwf. unfold drain_upload_queue. destruct (qn_kind env) eqn:Hk; [| |done];
    (intros [(Hr & _ & Hkept)|(items & w1 & _ & Hin & _ & [W1 _ _])]%drain_direct_run; [| |done..]); intros p i Hl.
  1, 3: split; [left; by apply Hkept|]; intros Hv st Hst; destruct (Hr st Hst) as [?|Hno]; [done|by destruct (Hno p i)].
  all: destruct (W1 (p, i)) as [Hs Hp]; [by apply Hin|]; split; [done|]; intros _ st ->; by eapply Hp.
Qed.

(** C18. References are published last: when a drain, however it ends, has changed what
    the remote holds under the key of a queued reference (a key below a directory [refs], or a
    file [current] or [head.cbor.zst.enc] of a directory), every other queued item, object,
    journal or metadata export, is on the remote; and when it has changed a journal or a
    metadata export, every queued object is. *)
Theorem references_published_last max w r w' :
  queue_wf w → drain_upload_queue env max w = (r, w') → ∀ p i q j, listed w p i → listed w q j →
  reference_key (uq_key j) ∧ (¬ reference_key (uq_key i)) ∨
    metadata_key (uq_key j) ∧ (¬ reference_key (uq_key i)) ∧ (¬ metadata_key (uq_key i)) →
  rp_lookup (qw_remote w') (uq_key j) ≠ rp_lookup (qw_remote w) (uq_key j) →
  published env w' i (payload w i).
Proof.
  intros Hwf Hrun p i q j Hi Hj Hkeys Hne. apply priority_order in Hkeys as Hlt. revert Hrun. unfold drain_upload_queue.
  destruct (qn_kind env) eqn:Hk; [| |done];
    (intros [(_ & Hrem & _)|(items & w1 & Hrem & Hin & _ & [_ W2 _])]%drain_direct_run; [by rewrite Hrem in Hne| |done..]);
    apply (W2 (p, i) (q, j)); [by apply Hin|by apply Hin|done| |by apply Hin|by apply Hin|done|];
    intros [_ _ Hl _]; apply Hne; simpl in Hl; by rewrite Hl, Hrem.
Qed.
End Theorems.
End Listing.
