(* ===== verification/QueueEnqueue.v ===== *)
(** * Putting uploads into the queue

    Properties of the enqueue operations of [Queue]: they keep the queue well formed
    and queue exactly the bytes they are given; what an interrupted upload leaves
    behind; and concrete queues. *)

From S2P Require Import Prelude RStr BTree MachInt Core Util Store Db RemoteObjects AtomicIo FileRemote Queue QueueSafety.

Local Open Scope Z_scope.

(** ** Paths written as text *)

Definition plain_name (n : string) : Prop := plain_part n ∧ contains_char n slash = false.

Lemma flat_map_plain names : Forall plain_part names → flat_map component_of names = map Normal names.
Proof. induction 1 as [|n names Hn _ IH]; [done|]. simpl. by rewrite Hn, IH. Qed.

(** The text of an absolute path stands for the path. *)
Lemma fs_path_of_slash names :
  Forall plain_name names → names ≠ [] →
  fs_path_of (fs_to_slash (RootDir :: map Normal names)) = RootDir :: map Normal names.
Proof.
  intros Hall Hne. assert (Hp : Forall plain_part names) by (eapply Forall_impl; [exact Hall|]; intros x [? ?]; assumption).
  assert (Hs : Forall (λ n, contains_char n slash = false) names) by (eapply Forall_impl; [exact Hall|]; intros x [? ?]; assumption).
  assert (Htext : fs_to_slash (RootDir :: map Normal names) = String slash (String slash (join "/" names))).
  { unfold fs_to_slash. change (map component_str (RootDir :: map Normal names)) with
      ("/" :: map component_str (map Normal names)). rewrite map_map. simpl component_str. rewrite map_id.
    by destruct names. }
  rewrite Htext. unfold fs_path_of.
  unfold path_components. change (path_is_absolute _) with true. cbv zeta iota.
  change (split slash (String slash (String slash (join "/" names)))) with ("" :: "" :: split slash (join "/" names)).
  rewrite split_join_names by done. change (flat_map component_of ("" :: "" :: names)) with (flat_map component_of names).
  by rewrite flat_map_plain.
Qed.

Section Enqueue.
Context `{!Blake3Text, !Blake3TextLaws, !Serde UploadQueueItem, !SerdeLaws UploadQueueItem,
          !RemotePut, !RemotePutLaws, !ClusterProxy}.
Context (env : QueueEnv).
Abbreviation files w := (fs_files (qw_fs w)).

(** The home directory is an absolute path, and neither hashes nor the random parts of
    temporary names contain separators. *)
Record env_ok : Prop := {
  ev_home : ∃ names, qn_home env = RootDir :: map Normal names ∧ Forall plain_name names;
  ev_uuid n : contains_char (qn_uuid env n) "." = false;
  ev_hash k : contains_char (blake3_text_hex k) slash = false;
}.
Context (Henv : env_ok).

Lemma payload_path_text key :
  let path := upload_payload_path env (expected_upload_queue_item_id key) in fs_path_of (fs_to_slash path) = path.
Proof.
  destruct (ev_home Henv) as (names & Hhome & Hnames). cbv zeta.
  assert (Heq : upload_payload_path env (expected_upload_queue_item_id key) =
    RootDir :: map Normal (names ++ ["queue"; "upload-payloads"; expected_upload_queue_item_id key +:+ ".bin"])).
  { unfold upload_payload_path. rewrite payload_dir_eq, Hhome. unfold fs_join. rewrite map_app. simpl.
    by rewrite <-!app_assoc. }
  rewrite Heq. apply fs_path_of_slash; [|by destruct names].
  apply Forall_app. split; [done|]. repeat constructor; try done.
  unfold expected_upload_queue_item_id. rewrite !contains_char_app. by rewrite (ev_hash Henv).
Qed.

Lemma item_extension id : id ≠ "" → name_extension (id +:+ ".json") = Some "json".
Proof.
  intros Hid. unfold name_extension, rsplit_once_dot. change ".json" with (String "." "json").
  rewrite split_app_sep. change (split "." "json") with ["json"]. rewrite Stdlib.Lists.List.rev_app_distr. simpl.
  destruct (rev (split "." id)) as [|x l] eqn:Hr.
  { apply (f_equal (@rev _)) in Hr. rewrite rev_involutive in Hr. by apply split_by_not_nil in Hr. }
  simpl. change (rev l ++ [x]) with (rev (x :: l)). rewrite <-Hr, rev_involutive.
  change "." with (String "." ""). rewrite join_split. by destruct id.
Qed.

(** The items of the queue after one file has been replaced. *)
Lemma temp_extension n u : contains_char u "." = false → name_extension ("." +:+ n +:+ ".mjtmp-" +:+ u) ≠ Some "json".
Proof.
  intros Hu. unfold name_extension, rsplit_once_dot.
  replace ("." +:+ n +:+ ".mjtmp-" +:+ u) with (("." +:+ n) +:+ String "." ("mjtmp-" +:+ u)) by by rewrite <-str_app_assoc.
  rewrite split_app_sep. rewrite (split_no_sep "." ("mjtmp-" +:+ u)) by (by rewrite contains_char_app, Hu).
  generalize (split "." ("." +:+ n)) as ws. intros ws. rewrite Stdlib.Lists.List.rev_app_distr. simpl.
  destruct (rev ws) as [|x l]; [done|]. destruct (is_empty _); [done|]. by intros [= ?].
Qed.

(** ** Writing an item *)

Definition temp_item (id : string) (k : nat) : FsPath :=
  fs_join (upload_queue env) ("." +:+ (id +:+ ".json") +:+ ".mjtmp-" +:+ qn_uuid env k).

Inductive item_written (item : UploadQueueItem) (f : gmap FsPath (list Z)) : gmap FsPath (list Z) → Prop :=
| iw_same : item_written item f f
| iw_temp k b : item_written item f (<[temp_item (uq_id item) k := b]> f)
| iw_done item' : same_upload item item' →
    item_written item f (<[item_path env (uq_id item) := json_to_vec_pretty item']> f).

Lemma in_fs_files {A} (m : fs_m A) w r w' : in_fs m w = (r, w') →
  ∃ s', m (qw_fs w) = (r, s') ∧ qw_fs w' = s' ∧ qw_remote w' = qw_remote w.
Proof. unfold in_fs. destruct (m (qw_fs w)) as [r0 s0] eqn:Hm. intros [= <- <-]. by exists s0. Qed.

Lemma create_dir_files p s r s' : fs_create_dir_all p s = (r, s') →
  fs_files s' = fs_files s ∧ (r = Done tt ∨ ∃ e, r = Fails e).
Proof.
  unfold fs_create_dir_all. intros (l & [(-> & ->)|Hr])%fs_sys_inv; [by eauto|].
  destruct (existsb _ _); injection Hr as <- <-; by eauto.
Qed.

Lemma item_path_parts id : fs_parent (item_path env id) = Some (upload_queue env) ∧
  fs_file_name (item_path env id) = Some (id +:+ ".json").
Proof.
  unfold item_path, fs_parent, fs_file_name, fs_join. rewrite last_snoc. by rewrite removelast_last.
Qed.

Lemma write_item_written item item' s r s' : same_upload item item' →
  write_atomic (qn_uuid env) (item_path env (uq_id item)) (json_to_vec_pretty item') s = (r, s') →
  item_written item (fs_files s) (fs_files s') ∧
  (r = Done tt → fs_files s' = <[item_path env (uq_id item) := json_to_vec_pretty item']> (fs_files s)).
Proof.
  intros Hsame Hrun. apply write_atomic_with_run in Hrun as (_ & Hcase); [|done].
  assert (Hrep : replaced (item_path env (uq_id item)) (Some (json_to_vec_pretty item')) (fs_files s) (fs_files s') →
    fs_files s' = <[item_path env (uq_id item) := json_to_vec_pretty item']> (fs_files s)).
  { by intros (b & [= <-] & ->). }
  destruct Hcase as [(-> & Hf%Hrep)|((e & ->) & [Hf|[(tmp & b & (k & ->) & _ & Hf)|Hf%Hrep]])]; rewrite Hf.
  - split; [by constructor|done].
  - split; [constructor|done].
  - split; [|done]. destruct (item_path_parts (uq_id item)) as [-> ->]. apply iw_temp.
  - split; [by constructor|done].
Qed.

Lemma write_upload_item_run item w r w' : write_upload_item env item w = (r, w') →
  qw_remote w' = qw_remote w ∧ item_written item (files w) (files w') ∧
  (r = Done tt → ∃ item', same_upload item item' ∧
     files w' = <[item_path env (uq_id item) := json_to_vec_pretty item']> (files w)).
Proof.
  unfold write_upload_item. unfold stm_bind at 1. destruct (in_fs (fs_create_dir_all _) w) as [ra wa] eqn:Ha.
  apply in_fs_files in Ha as (sa & Ha & Hsa & Hra). apply create_dir_files in Ha as [Hfa Hr].
  destruct Hr as [-> |(e & ->)]; [|intros [= <- <-]; rewrite Hsa, Hfa; split; [done|]; split; [constructor|done]].
  unfold stm_bind at 1. destruct (in_fs (fs_exists _) wa) as [rb wb] eqn:Hb.
  apply in_fs_files in Hb as (sb & Hb & Hsb & Hrb). apply fs_exists_run in Hb as (lb & there & -> & -> & _).
  unfold stm_bind at 1. set (choose := if there then _ else _). destruct (choose wb) as [rc wc] eqn:Hc.
  assert (∃ item', rc = Done item' ∧ same_upload item item' ∧ fs_files (qw_fs wc) = fs_files (qw_fs wb) ∧
    qw_remote wc = qw_remote wb) as (item' & -> & Hsame & Hfc & Hrc).
  { unfold choose in Hc. destruct there; [|injection Hc as <- <-; exists item; by split_and!].
    unfold stm_bind, try_option, stm_or in Hc. destruct (in_fs _ wb) as [rd wd] eqn:Hd.
    apply in_fs_files in Hd as (sd & Hd & Hsd & Hrd). unfold stm_bind in Hd.
    destruct (fs_read _ (qw_fs wb)) as [re se] eqn:He. apply fs_read_run in He as (le & -> & [(e & ->)|(bytes & -> & _)]);
      injection Hd as <- <-; injection Hc as <- <-; eexists; (split; [done|]);
      rewrite Hsd; (split; [|by split]); [by split_and!|].
    destruct bytes as [|z zs]; [by split_and!|]. by destruct (json_from_slice (z :: zs)); split_and!. }
  intros Hd. apply in_fs_files in Hd as (sd & Hd & Hsd & Hrd). apply (write_item_written item) in Hd as [Hw Hdone]; [|done].
  assert (Hf : files wc = files w) by (rewrite Hfc, Hsb; simpl; by rewrite Hsa).
  rewrite Hf in Hw, Hdone. rewrite Hsd. split; [congruence|]. split; [done|]. intros Hr. exists item'. by auto.
Qed.

(** ** Enqueueing keeps the queue well formed *)

(** Files of the payload directory that belong to one item. *)
Definition payload_file (id : string) (q : FsPath) : Prop :=
  q = upload_payload_path env id ∨ q = fs_join (upload_payload_dir env) (id +:+ ".tmp").
Definition payload_written (id : string) (f f' : gmap FsPath (list Z)) : Prop :=
  ∀ q, ¬ payload_file id q → f' !! q = f !! q.

Record key_ok (key : string) : Prop := {
  ko_key : ¬ rp_reserved key;
  ko_alias a : a ∈ canonical_remote_aliases key → ¬ rp_reserved a;
}.

Lemma payload_file_dir id q : payload_file id q → ∃ n, q = fs_join (upload_payload_dir env) n.
Proof. intros [-> | ->]; eexists; reflexivity. Qed.

(** What happens to the queue when the payload and the item of a key are written. *)
Section Written.
Context (w w' : QueueWorld) (item : UploadQueueItem) (f : gmap FsPath (list Z)).
Hypothesis wf : queue_wf env w.
Hypothesis item_ok : entry_ok env (item_path env (uq_id item)) item.
Hypothesis payload_step : payload_written (uq_id item) (files w) f.
Hypothesis item_step : item_written item f (files w').

Lemma written_elsewhere q : ¬ payload_file (uq_id item) q → q ≠ item_path env (uq_id item) →
  (∀ k, q ≠ temp_item (uq_id item) k) → files w' !! q = files w !! q.
Proof.
  intros Hq Hp Ht. destruct item_step as [|k b|item' _]; [by apply payload_step| |];
    (rewrite lookup_insert_ne; [by apply payload_step|]); [by apply not_eq_sym|done].
Qed.

Lemma queue_dir_file n : ¬ payload_file (uq_id item) (fs_join (upload_queue env) n).
Proof. intros (m & [Heq _]%fs_join_inj)%payload_file_dir. by apply (dirs_ne env). Qed.

Lemma same_upload_ok i i' p : same_upload i i' → entry_ok env p i → entry_ok env p i'.
Proof.
  intros (Hid & Hk & Hs & Hin & _) [Hp Hi Hkey Ha Hsrc].
  split; rewrite ?Hid, ?Hk, ?Hs, ?Hin; done.
Qed.

Lemma written_wf : queue_wf env w'.
Proof.
  intros p i (n & bytes & -> & Hext & Hf & Hj).
  destruct (decide (fs_join (upload_queue env) n = item_path env (uq_id item))) as [Heq|Hne].
  - rewrite Heq in *. assert (Hold : files w' !! item_path env (uq_id item) = files w !! item_path env (uq_id item) ∨
      ∃ item', same_upload item item' ∧ files w' !! item_path env (uq_id item) = Some (json_to_vec_pretty item')).
    { destruct item_step as [|k b|item' Hs].
      - left. apply payload_step. rewrite <-Heq. apply queue_dir_file.
      - left. rewrite lookup_insert_ne; [apply payload_step; rewrite <-Heq; apply queue_dir_file|].
        intros [_ Hn]%fs_join_inj. apply (f_equal String.length) in Hn. rewrite !str_length_app in Hn. simpl in Hn. lia.
      - right. exists item'. by rewrite lookup_insert_eq. }
    destruct Hold as [Hold|(item' & Hs & Hnew)].
    + apply wf. exists n, bytes. rewrite <-Hold, Heq. by split_and!.
    + rewrite Hnew in Hf. injection Hf as <-. rewrite json_pretty_roundtrip in Hj. injection Hj as <-.
      by eapply same_upload_ok.
  - apply wf. exists n, bytes. split_and!; [done..| |done]. rewrite <-Hf. symmetry.
    apply written_elsewhere; [apply queue_dir_file|done|]. intros k [_ Heq]%fs_join_inj.
    apply (temp_extension (uq_id item +:+ ".json") (qn_uuid env k)); [apply (ev_uuid Henv)|]. by rewrite <-Heq.
Qed.

(** The items of other keys stay, with their payloads. *)
Lemma written_others p i : listed env w p i → uq_key i ≠ uq_key item →
  listed env w' p i ∧ payload w' i = payload w i.
Proof.
  intros Hl Hne. pose proof (wf p i Hl) as [Hp Hi _ _ Hs]. destruct Hl as (n & bytes & Hpn & Hext & Hf & Hj).
  assert (Hid : uq_id i ≠ uq_id item).
  { rewrite Hi, (eo_id _ _ _ item_ok). by intros ?%expected_id_inj. }
  split.
  - exists n, bytes. split_and!; [done..| |done]. rewrite <-Hf. apply written_elsewhere.
    + rewrite Hpn. apply queue_dir_file.
    + rewrite Hp. intros ?%item_path_inj. done.
    + intros k. rewrite Hpn. intros [_ Heq]%fs_join_inj.
      apply (temp_extension (uq_id item +:+ ".json") (qn_uuid env k)); [apply (ev_uuid Henv)|]. by rewrite <-Heq.
  - unfold payload. destruct (uq_inline i) eqn:Hinl; [done|]. destruct (uq_source i) as [source|] eqn:Hsrc; [|done].
    destruct (Hs source eq_refl eq_refl) as [Heq|Hout]; apply written_elsewhere.
    + rewrite Heq. intros [?%payload_path_inj|[_ Hn]%fs_join_inj]; [done|].
      apply (f_equal String.rev) in Hn. rewrite !RStr.rev_app_distr in Hn. discriminate Hn.
    + rewrite Heq. by apply not_eq_sym, item_payload_ne.
    + rewrite Heq. intros k [Hd _]%fs_join_inj. by apply (dirs_ne env).
    + intros (m & Heq)%payload_file_dir. apply Hout. rewrite Heq. exists m. by right.
    + intros Heq. apply Hout. rewrite Heq. eexists. by left.
    + intros k Heq. apply Hout. rewrite Heq. eexists. by left.
Qed.
End Written.

(** ** The operations *)

(** The item an enqueue operation writes. *)
Definition queued_item (key : string) (source : FsPath) (now : DateTime) (overwrite : bool) : UploadQueueItem :=
  with_overwrite (UploadQueueItem_file (expected_upload_queue_item_id key) key (fs_to_slash source) now) overwrite.

Lemma inline_item_ok key now overwrite : key_ok key →
  let id := expected_upload_queue_item_id key in
  entry_ok env (item_path env id) (queued_item key (upload_payload_path env id) now overwrite).
Proof.
  intros [Hk Ha]. split; [done..| |]; [done|]. intros source _ [= <-]. left. apply payload_path_text.
Qed.

Lemma fs_write_run p b s r s' : fs_write p b s = (r, s') →
  (∀ q, q ≠ p → fs_files s' !! q = fs_files s !! q) ∧ (r = Done tt → fs_files s' !! p = Some b) ∧
  (r = Done tt ∨ ∃ e, r = Fails e).
Proof.
  unfold fs_write, stm_bind. destruct (fs_sys _ s) as [ra sa] eqn:Ha.
  apply fs_sys_inv in Ha as (la & [(-> & ->)|[= <- <-]]);
    [intros [= <- <-]; split; [done|]; split; [done|by eauto]|].
  intros Hrun. apply fs_write_all_run in Hrun as (_ & b' & Hf & Hr); [|simpl; rewrite lookup_insert_eq; by eauto].
  simpl in Hf. rewrite insert_insert_eq in Hf. rewrite Hf. split; [intros q Hq; by rewrite lookup_insert_ne|].
  destruct Hr as [(-> & ->)|(e & ->)]; (split; [|by eauto]); [|done]. intros _. by rewrite lookup_insert_eq.
Qed.

(** The payload file is in place before the item is written. *)
Lemma inline_payload_run key bytes w r w' :
  let id := expected_upload_queue_item_id key in
  let tmp := fs_join (upload_payload_dir env) (id +:+ ".tmp") in
  (let* _ := in_fs (fs_create_dir_all (upload_payload_dir env)) in
   let* _ := in_fs (fs_write tmp bytes) in
   in_fs (fs_rename tmp (upload_payload_path env id))) w = (r, w') →
  qw_remote w' = qw_remote w ∧ payload_written id (files w) (files w') ∧
  (r = Done tt → files w' !! upload_payload_path env id = Some bytes) ∧ (r = Done tt ∨ ∃ e, r = Fails e).
Proof.
  intros id tmp. unfold stm_bind at 1. destruct (in_fs (fs_create_dir_all _) w) as [ra wa] eqn:Ha.
  apply in_fs_files in Ha as (sa & Ha & Hsa & Hra). apply create_dir_files in Ha as [Hfa Hr].
  destruct Hr as [-> |(e & ->)]; [|intros [= <- <-]; rewrite Hsa, Hfa; split; [done|]; split; [done|]; split; [done|by eauto]].
  unfold stm_bind. destruct (in_fs (fs_write _ _) wa) as [rb wb] eqn:Hb.
  apply in_fs_files in Hb as (sb & Hb & Hsb & Hrb). apply fs_write_run in Hb as (Hother & Htmp & Hr).
  rewrite Hsa, Hfa in Hother. assert (Hpb : payload_written id (files w) (files wb)).
  { intros q Hq. rewrite Hsb. apply Hother. intros ->. apply Hq. by right. }
  destruct Hr as [-> |(e & ->)]; [|intros [= <- <-]; split; [congruence|]; split; [done|]; split; [done|by eauto]].
  specialize (Htmp eq_refl). intros Hc. apply in_fs_files in Hc as (sc & Hc & Hsc & Hrc).
  split; [congruence|]. rewrite Hsc. unfold fs_rename in Hc.
  rewrite Hsb in Hpb. apply fs_sys_inv in Hc as (lc & [(-> & ->)|Hc]);
    [rewrite Hsb; split; [done|]; split; [done|by eauto]|]. simpl in Hc.
  destruct (bool_decide _); [injection Hc as <- <-; simpl; rewrite Hsb; split; [done|]; split; [done|by eauto]|]. rewrite Hsb, Htmp in Hc. injection Hc as <- <-. simpl.
  split; [|split; [intros _; by rewrite lookup_insert_eq|by left]].
  intros q Hq. rewrite lookup_insert_ne by (intros <-; apply Hq; by left).
  rewrite lookup_delete_ne by (intros <-; apply Hq; by right). by apply Hpb.
Qed.

(** C28. Enqueueing bytes keeps the queue well formed, whatever system call fails: the
    items of other keys stay listed with their payloads; and when it succeeds the
    key is listed, and its payload is the bytes. *)
Theorem enqueue_inline_queues key bytes overwrite w r w' :
  queue_wf env w → key_ok key → enqueue_inline_upload_with_overwrite env key bytes overwrite w = (r, w') →
  queue_wf env w' ∧
  (∀ p i, listed env w p i → uq_key i ≠ key → listed env w' p i ∧ payload w' i = payload w i) ∧
  (r = Done tt → ∃ i, listed env w' (item_path env (expected_upload_queue_item_id key)) i ∧
     uq_key i = key ∧ uq_overwrite i = overwrite ∧ payload w' i = Some bytes).
Proof.
  intros Hwf Hkey. set (id := expected_upload_queue_item_id key). set (tmp := fs_join (upload_payload_dir env) (id +:+ ".tmp")).
  unfold enqueue_inline_upload_with_overwrite. fold id tmp. cbv zeta.
  set (prefix := let* _ := in_fs (fs_create_dir_all (upload_payload_dir env)) in
   let* _ := in_fs (fs_write tmp bytes) in in_fs (fs_rename tmp (upload_payload_path env id))).
  set (last := let* now := clock (qn_now env) in
    write_upload_item env (queued_item key (upload_payload_path env id) now overwrite)).
  assert (Heq : ∀ x, (let* _ := in_fs (fs_create_dir_all (upload_payload_dir env)) in
    let* _ := in_fs (fs_write tmp bytes) in let* _ := in_fs (fs_rename tmp (upload_payload_path env id)) in last) x =
    stm_bind prefix (λ _, last) x).
  { intros x. unfold prefix, stm_bind. by repeat (destruct (in_fs _ _) as [[]]). }
  rewrite Heq. clear Heq. unfold stm_bind. destruct (prefix w) as [ra wa] eqn:Ha.
  apply inline_payload_run in Ha as (Hra & Hpay & Hbytes & Hr).
  destruct Hr as [-> |(e & ->)].
  2: { intros [= <- <-]. set (item := queued_item key (upload_payload_path env id) 0 overwrite).
       pose proof (inline_item_ok key 0 overwrite Hkey) as Hok.
       split; [by eapply (written_wf w wa item (files wa)); [..|constructor]|]. split; [|done].
       intros p i Hl Hne. by eapply (written_others w wa item (files wa)); [..|constructor|exact Hl|]. }
  specialize (Hbytes eq_refl). unfold last, stm_bind, clock. set (now := qn_now env (qw_tick wa)).
  set (item := queued_item key (upload_payload_path env id) now overwrite).
  intros (_ & Hw & Hdone)%write_upload_item_run. simpl in Hw, Hdone.
  pose proof (inline_item_ok key now overwrite Hkey) as Hok.
  split; [by eapply (written_wf w w' item)|]. split; [intros p i Hl Hne; by eapply (written_others w w' item)|].
  intros Hd. destruct (Hdone Hd) as (item' & (_ & Hk & Hs & Hin & Ho) & Hf). exists item'. split_and!; [| |done|].
  - exists (id +:+ ".json"), (json_to_vec_pretty item'). split; [done|]. split; [by apply item_extension|].
    rewrite Hf, lookup_insert_eq. split; [done|apply json_pretty_roundtrip].
  - by rewrite Hk.
  - unfold payload. rewrite Hin, Hs. simpl. pose proof (payload_path_text key) as Ht. cbv zeta in Ht. fold id in Ht.
    rewrite Ht, Hf.
    rewrite lookup_insert_ne; [done|]. apply item_payload_ne.
Qed.
End Enqueue.

(** ** Interrupted uploads *)

Section Interrupted.
Context `{!Blake3Text, !Blake3TextLaws, !Serde UploadQueueItem, !SerdeLaws UploadQueueItem,
          !RemotePut, !RemotePutLaws, !ClusterProxy}.
Context (env : QueueEnv) (p : FsPath) (i : UploadQueueItem) (source : string).
Abbreviation files w := (fs_files (qw_fs w)).

Hypothesis ok : entry_ok env p i.
Hypothesis by_file : uq_inline i = None ∧ uq_source i = Some source.
Hypothesis no_skip : uq_overwrite i = true ∨ prefer_canonical_remote_only (uq_key i) = false.

Lemma no_skip_run w :
  (if uq_overwrite i then stm_ret false else queued_upload_can_be_skipped env i) w = (Done false, w).
Proof.
  destruct (uq_overwrite i) eqn:Ho; [done|]. destruct no_skip as [?|Hp]; [congruence|].
  unfold queued_upload_can_be_skipped. rewrite Hp. by destruct (qn_kind env).
Qed.

(** An item whose payload is gone cannot be uploaded. *)
Lemma payload_gone w : payload w i = None ↔ files w !! fs_path_of source = None.
Proof. unfold payload. by destruct by_file as [-> ->]. Qed.

Lemma record_failure_gone w r w' : payload w i = None → record_failure env p i w = (r, w') → payload w' i = None.
Proof.
  rewrite !payload_gone. intros Hnone. unfold record_failure, stm_bind, clock, in_fs. simpl.
  destruct (write_atomic _ p _ _) as [ra sa] eqn:Ha. intros [= <- <-]. apply (write_item_run env p i ok) in Ha. simpl in *.
  destruct by_file as [Hin Hsrc]. destruct Ha as [-> |[-> |(n & v & Hn & ->)]]; [done| |]; (rewrite lookup_insert_ne; [done|]); apply not_eq_sym;
    [rewrite (eo_path _ _ _ ok)|]; by apply (source_not_item env p i ok).
Qed.

Lemma missing_payload_fails w r w' :
  payload w i = None → upload_queue_item env p i w = (r, w') → payload w' i = None ∧ ∀ x, r ≠ Done x.
Proof.
  destruct by_file as [Hin Hsrc]. rewrite payload_gone at 1. intros Hnone. unfold upload_queue_item. unfold stm_bind at 1. rewrite no_skip_run.
  unfold stm_bind at 1. destruct (stm_or 0 _ w) as [ra wa] eqn:Ha. apply payload_size_run in Ha as [Hf (n & ->)].
  rewrite Hin, Hsrc. unfold after_upload. unfold stm_bind at 1. destruct (in_fs _ wa) as [rb wb] eqn:Hb.
  apply in_fs_files in Hb as (sb & Hb & Hwb & _). rewrite <-Hf in Hnone.
  apply fs_read_run in Hb as (l & -> & [(e & ->)|(b & -> & Hx)]); [|congruence].
  assert (Hgone : payload wb i = None) by (rewrite payload_gone, Hwb; exact Hnone).
  unfold stm_bind. destruct (record_failure env p i wb) as [rc wc] eqn:Hc. apply record_failure_gone in Hc; [|done].
  by destruct rc as [[]|e'|]; intros [= <- <-].
Qed.

(** Nor can a batch that holds it. *)
Lemma threads_fail l w r w' :
  entries_ok env l → (p, i) ∈ l ∨ uq_key i ∉ map key_of l → payload w i = None → run_threads env l w = (r, w') →
  payload w' i = None ∧ ∀ results x, r = Done results → (p, i) ∈ l → result_at p results ≠ Done x.
Proof.
  revert w r w'; induction l as [|[q j] l IH]; intros w r w' Hok Hor Hnone; cbn [run_threads].
  { intros [= <- <-]. split; [done|]. intros results x _ []%elem_of_nil. }
  destruct (upload_queue_item env q j w) as [ra wa] eqn:Ha. unfold stm_bind.
  destruct (run_threads env l wa) as [rb wb] eqn:Hb. destruct (entries_ok_app env [(q, j)] l Hok) as (_ & Hokl & Hd).
  assert (Hq : entry_ok env q j) by (apply (es_ok _ _ Hok (q, j)); left).
  destruct (decide (uq_key j = uq_key i)) as [Heq|Hkey].
  - assert ((q, j) = (p, i)) as [= -> ->].
    { destruct Hor as [[Heq'|Hin]%elem_of_cons|Hnot]; [done|by destruct (Hd (q, j) (p, i)); [left|..]|].
      destruct Hnot. rewrite <-Heq. left. }
    apply missing_payload_fails in Ha as [Hna Hfail]; [|done].
    assert (Hnot : uq_key i ∉ map key_of l) by (apply (not_in_keys' env [(p, i)] l (p, i) Hok); left).
    apply IH in Hb as [Hnb _]; [|done|by right|done].
    destruct rb as [rest|e|]; intros [= <- <-]; (split; [done|]); [|done..]. intros results x [= <-] _. cbn [result_at].
    rewrite bool_decide_true by done. apply Hfail.
  - pose proof (upload_queue_item_processed env q j Hq w) as Hproc. rewrite Ha in Hproc.
    pose proof (un_payload _ _ _ _ (processed_untouched env q j p i w wa Hq ok Hkey Hproc)) as Hpay.
    assert (Hor' : (p, i) ∈ l ∨ uq_key i ∉ map key_of l).
    { destruct Hor as [[[= -> ->]|Hin]%elem_of_cons|Hnot]; [done|by left|]. right. cbn [map] in Hnot. set_solver. }
    apply IH in Hb as [Hnb Hres]; [|done|done|congruence].
    destruct rb as [rest|e|]; intros [= <- <-]; (split; [done|]); [|done..]. intros results x [= <-] Hin. cbn [result_at].
    apply elem_of_cons in Hin as [[= -> ->]|Hin]; [done|]. rewrite bool_decide_false; [by apply Hres|].
    intros ->. apply Hkey. symmetry. apply (entries_path_inj env ((p, j) :: l) (p, i) (p, j) Hok); [by right|left|done].
Qed.

Hypothesis schedule_perm : ∀ l, qn_schedule env l ≡ₚ l.
Hypothesis direct : qn_kind env ≠ KMasterProxy.

Lemma batches_fail bs stats w r w' :
  entries_ok env (concat bs) → (p, i) ∈ concat bs → payload w i = None → drain_batches env stats bs w = (r, w') → ∀ st, r ≠ Done st.
Proof.
  revert stats w; induction bs as [|b bs IH]; intros stats w Hok Hin Hnone; simpl in *; [by apply elem_of_nil in Hin|].
  destruct (entries_ok_app env _ _ Hok) as (Hokb & Hokbs & Hd). intros Hrun st ->.
  apply stm_bind_Done in Hrun as (rs & w1 & Hb & Hrun). unfold run_batch in Hb.
  apply stm_bind_Done in Hb as (results & w2 & Hth & [Hj ->]%stm_ok_Done).
  assert (Hsched : entries_ok env (qn_schedule env b)) by (eapply entries_ok_perm; [symmetry; apply schedule_perm|done]).
  apply threads_fail in Hth as [Hn2 Hfail]; [| done| |done].
  2: { rewrite (Permutation_map key_of (schedule_perm b)), schedule_perm. apply elem_of_app in Hin as [?|Hin]; [by left|].
       right. intros (e & Heq & He)%list_elem_of_fmap. apply (Hd e (p, i) He Hin). done. }
  apply elem_of_app in Hin as [Hin|Hin]; [|by eapply (IH _ _ Hokbs Hin Hn2 Hrun)].
  destruct (join_results_Ok _ _ _ Hj (p, i) Hin) as [x Hx]. apply (Hfail results x eq_refl); [by rewrite schedule_perm|done].
Qed.

(** And no drain of a queue that lists it succeeds. *)
Lemma drain_fails max w :
  queue_wf env w → listed env w p i → dir_visible env w → payload w i = None → ∀ st, (drain_upload_queue env max w).1 ≠ Done st.
Proof.
  intros Hwf Hl Hv Hnone st. destruct (drain_upload_queue env max w) as [r w'] eqn:Hrun. simpl. intros ->.
  assert (Hdir : drain_direct env max w = (Done st, w')) by (revert Hrun; unfold drain_upload_queue; by destruct (qn_kind env)).
  unfold drain_direct in Hdir. apply stm_bind_Done in Hdir as (items & w1 & Hit & Hdr).
  apply upload_queue_items_run in Hit as (_ & Hcl & Hitems); [|done]. destruct (Hitems items eq_refl) as (Hok & _ & _ & Hall).
  assert (Hc : concat (priority_batches (upload_queue_parallelism env max) items) = group items 1 ++ group items 2 ++ group items 3).
  { unfold priority_batches. cbn [flat_map]. rewrite !concat_app, !concat_chunks by apply parallelism_pos. simpl. by rewrite app_nil_r. }
  assert (Hperm : concat (priority_batches (upload_queue_parallelism env max) items) ≡ₚ items) by (rewrite Hc; apply groups_perm).
  eapply batches_fail; [| | |exact Hdr|reflexivity].
  - eapply entries_ok_perm; [symmetry; exact Hperm|done].
  - rewrite Hperm. by apply Hall.
  - destruct (listed_kept env w w1 p i Hwf Hcl Hl) as [_ Hp]. by rewrite Hp.
Qed.
End Interrupted.

Section Stopped.
Context `{!Blake3Text, !Blake3TextLaws, !Serde UploadQueueItem, !SerdeLaws UploadQueueItem,
          !RemotePut, !RemotePutLaws, !ClusterProxy}.
Context (env : QueueEnv) (p : FsPath) (i : UploadQueueItem) (source : string).
Abbreviation files w := (fs_files (qw_fs w)).
Hypothesis schedule_perm : ∀ l, qn_schedule env l ≡ₚ l.
Hypothesis direct : qn_kind env ≠ KMasterProxy.
Hypothesis ok : entry_ok env p i.
Hypothesis by_file : uq_inline i = None ∧ uq_source i = Some source.
Hypothesis no_skip : uq_overwrite i = true ∨ prefer_canonical_remote_only (uq_key i) = false.

(** C37. After a successful upload the payload of an item is removed before the item.  When
    the program stops between the two (the removal of the item fails), the object is on the
    remote and the item still queued; and as long as nobody puts the payload back, no drain
    of a queue that lists the item, in this or a later state of its retries, succeeds, in a
    process that uploads directly.  This is so for the items the queue does not skip when the
    remote has the object already: those that overwrite, and all but chunks of large files. *)
Theorem interrupted_upload_blocks w bytes b :
  fs_path_of source = upload_payload_path env (uq_id i) →
  files w !! p = Some bytes → files w !! fs_path_of source = Some b →
  fs_faults (qw_fs w) = [None; None; None; Some 0%nat] →
  (∀ r, (put_item env i b r).1 = Done tt) →
  ∃ w', upload_queue_item env p i w = (Fails "io", w') ∧ files w' !! p = Some bytes ∧
    published env w' i (Some b) ∧ files w' !! fs_path_of source = None ∧
    ∀ max w2 i2 st, queue_wf env w2 → listed env w2 p i2 → same_upload i i2 → dir_visible env w2 →
      files w2 !! fs_path_of source = None → (drain_upload_queue env max w2).1 ≠ Done st.
Proof.
  intros Hown Hp Hb Hfaults Hput. destruct by_file as [Hin Hsrc].
  unfold upload_queue_item at 1. unfold stm_bind at 1. rewrite (no_skip_run env i no_skip).
  rewrite Hin, Hsrc. unfold stm_or, upload_item_payload_size. rewrite Hin, Hsrc.
  unfold after_upload, stm_bind, in_fs, fs_read, fs_sys. rewrite Hfaults. simpl. unfold stm_bind, stm_get, stm_some, fs_with_faults. simpl.
  rewrite Hb. simpl. rewrite Hb. simpl. set (w1 := qw_with_fs _ _). specialize (Hput w1).
  destruct (put_item env i b w1) as [rp wp] eqn:Hrun. simpl in Hput. subst rp.
  pose proof Hrun as Hpub. apply (put_item_run env p i ok) in Hpub as [Hfs Hpub]. specialize (Hpub eq_refl).
  unfold remove_upload_payload, allow_missing, fs_remove_file, fs_sys. rewrite Hfs. simpl. rewrite <-Hown, Hb. simpl.
  eexists. split; [reflexivity|]. simpl.
  assert (Hne : fs_path_of source ≠ p).
  { rewrite Hown, (eo_path _ _ _ ok). by apply not_eq_sym, item_payload_ne. }
  split; [by rewrite lookup_delete_ne|]. split; [by eapply published_remote; [|exact Hpub]|]. split; [apply lookup_delete_eq|].
  intros max w2 i2 st Hwf Hl (Hid & Hkey & Hs2 & Hi2 & Ho2) Hv Hnone.
  apply (drain_fails env p i2 source); try done; [by apply Hwf|by rewrite Hi2, Hs2|by rewrite Ho2, Hkey|].
  unfold payload. by rewrite Hi2, Hin, Hs2, Hsrc.
Qed.
End Stopped.

(** ** A concrete queue *)

Module QueueExample.

#[export] Instance UploadQueueItem_eq_dec : EqDecision UploadQueueItem.
Proof. solve_decision. Defined.
#[export] Instance UploadQueueItem_countable : Countable UploadQueueItem.
Proof.
  refine (inj_countable'
    (λ i, (uq_id i, uq_key i, uq_source i, uq_inline i, uq_created_at i, uq_attempts i, uq_retry_after i, uq_overwrite i))
    (λ '(a, b, c, d, e, f, g, h), {| uq_id := a; uq_key := b; uq_source := c; uq_inline := d; uq_created_at := e;
       uq_attempts := f; uq_retry_after := g; uq_overwrite := h |}) _). by intros [].
Defined.
#[export] Existing Instance RemoteExample.ex_serde.
#[export] Existing Instance RemoteExample.ex_serde_laws.

#[export] Instance ex_hash : Blake3Text := {| blake3_text_hex k := string_of_N (Npos (encode k)) |}.
#[export] Instance ex_hash_laws : Blake3TextLaws.
Proof. split. intros k k' [= Heq]%string_of_N_inj. by apply encode_inj in Heq. Qed.

Definition ex_uuid (n : nat) : string := string_of_N (N.of_nat n).
#[export] Instance ex_remote : RemotePut := file_remote ex_uuid [RootDir; Normal "remote"].
#[export] Instance ex_remote_laws : RemotePutLaws := file_remote_laws ex_uuid [RootDir; Normal "remote"].
#[export] Instance ex_proxy : ClusterProxy := {|
  cl_capabilities := stm_fail "no master"; cl_batch_put _ := stm_fail "no master" |}.

Definition ex_env : QueueEnv := {|
  qn_home := [RootDir; Normal "home"]; qn_uuid := ex_uuid; qn_now := λ _, 0; qn_random := λ _, 7;
  qn_stale := λ _, false; qn_kind := KFile; qn_conditional_put := true; qn_parallelism := None;
  qn_schedule := λ l, l; qn_batch_max_objects := None; qn_batch_max_bytes := None |}.

Definition ex_item (key : string) (bytes : list Z) : UploadQueueItem :=
  UploadQueueItem_inline (expected_upload_queue_item_id key) key bytes 0.
Definition ex_object : UploadQueueItem := ex_item "objects/blobs/aa" [1; 2].
Definition ex_ref : UploadQueueItem := ex_item "refs/current" [3].
Definition ex_path (i : UploadQueueItem) : FsPath := item_path ex_env (uq_id i).

(** The queue holds an object and a reference; the write of the object fails half way. *)
Definition ex_queue (faults : list (option nat)) : QueueWorld := {|
  qw_fs := {| fs_files := {[ex_path ex_object := json_to_vec_pretty ex_object; ex_path ex_ref := json_to_vec_pretty ex_ref]};
              fs_dirs := {[upload_queue ex_env]}; fs_faults := faults; fs_uuids := 0 |};
  qw_remote := {| fs_files := ∅; fs_dirs := ∅; fs_faults := []; fs_uuids := 0 |}; qw_tick := 0 |}.

Lemma ex_entry key bytes : ¬ file_reserved key → (∀ a, a ∈ canonical_remote_aliases key → ¬ file_reserved a) →
  entry_ok ex_env (ex_path (ex_item key bytes)) (ex_item key bytes).
Proof. intros Hk Ha. by split. Qed.

Lemma not_reserved key n : fs_file_name (fs_path_of key) = Some n → reserved_name n = false → ¬ file_reserved key.
Proof. intros Hn Hr (m & Hm & Hres). rewrite Hn in Hm. injection Hm as <-. by rewrite Hr in Hres. Qed.

Lemma ex_wf faults : queue_wf ex_env (ex_queue faults).
Proof.
  intros p i (n & bytes & Hp & _ & Hf & Hj). cbn [ex_queue qw_fs fs_files] in Hf.
  apply lookup_insert_Some in Hf as [[<- <-]|[_ [<- <-]%lookup_singleton_Some]];
    rewrite json_pretty_roundtrip in Hj; injection Hj as <-; apply ex_entry.
  - by eapply not_reserved.
  - intros a [->|[]%elem_of_nil]%elem_of_cons. by eapply not_reserved.
  - by eapply not_reserved.
  - intros a []%elem_of_nil.
Qed.

Lemma ex_listed_object faults : listed ex_env (ex_queue faults) (ex_path ex_object) ex_object.
Proof.
  exists (uq_id ex_object +:+ ".json"), (json_to_vec_pretty ex_object). split; [done|]. split; [by apply item_extension|].
  split; [apply lookup_insert_eq|apply json_pretty_roundtrip].
Qed.
Lemma ex_listed_ref faults : listed ex_env (ex_queue faults) (ex_path ex_ref) ex_ref.
Proof.
  exists (uq_id ex_ref +:+ ".json"), (json_to_vec_pretty ex_ref). split; [done|]. split; [by apply item_extension|].
  split; [|apply json_pretty_roundtrip]. cbn [ex_queue qw_fs fs_files]. rewrite lookup_insert_ne; [apply lookup_singleton_eq|].
  intros Heq. apply item_path_inj, expected_id_inj in Heq. discriminate Heq.
Qed.

Definition ex_drained (faults : list (option nat)) := drain_upload_queue ex_env 4 (ex_queue faults).

(** A drain without faults publishes the object. *)
Lemma drain_loses_nothing_witness :
  (∃ st, (ex_drained []).1 = Done st) ∧ published ex_env (ex_drained []).2 ex_object (Some [1; 2]).
Proof.
  assert (Hdone : (ex_drained []).1 = Done {| ud_uploaded := 2; ud_uploaded_bytes := 3; ud_skipped := 0 |})
    by (vm_compute; reflexivity).
  split; [eexists; exact Hdone|].
  destruct (drain_loses_nothing ex_env (λ l, reflexivity l) ltac:(discriminate) 4 (ex_queue []) _ _
    (ex_wf []) (surjective_pairing (ex_drained [])) (ex_path ex_object) ex_object (ex_listed_object [])) as [_ Hpub].
  eapply Hpub; [|exact Hdone]. split; [simpl; set_solver|done].
Defined.

(** The reference reaches the remote after the object. *)
Lemma references_published_last_witness :
  rp_lookup (qw_remote (ex_drained []).2) "refs/current" = Some [3] ∧
  published ex_env (ex_drained []).2 ex_object (Some [1; 2]).
Proof.
  assert (Href : rp_lookup (qw_remote (ex_drained []).2) "refs/current" = Some [3]) by (vm_compute; reflexivity).
  split; [exact Href|].
  apply (references_published_last ex_env (λ l, reflexivity l) ltac:(discriminate) 4 (ex_queue []) _ _
    (ex_wf []) (surjective_pairing (ex_drained [])) (ex_path ex_object) ex_object (ex_path ex_ref) ex_ref
    (ex_listed_object []) (ex_listed_ref [])).
  - left. split; [left; by exists "current"|]. rewrite reference_priority. vm_compute. lia.
  - change (uq_key ex_ref) with "refs/current". rewrite Href. vm_compute. discriminate.
Defined.

Lemma digits_no_char c n : is_ascii_digit c = false → contains_char (string_of_N n) c = false.
Proof.
  intros Hc. apply contains_char_forallb. eapply str_forallb_impl; [|apply string_of_N_digits].
  intros d Hd. destruct (Ascii.eqb_spec c d) as [<-|]; [congruence|done].
Qed.

Lemma ex_env_ok : env_ok ex_env.
Proof.
  split.
  - exists ["home"]. split; [done|]. by repeat constructor.
  - intros n. by apply digits_no_char.
  - intros k. by apply digits_no_char.
Qed.

Definition ex_enqueued := enqueue_inline_upload_with_overwrite ex_env "objects/blobs/bb" [5] false (ex_queue []).

Lemma enqueue_inline_queues_witness :
  ex_enqueued.1 = Done tt ∧ queue_wf ex_env ex_enqueued.2 ∧
  ∃ i, uq_key i = "objects/blobs/bb" ∧ payload ex_enqueued.2 i = Some [5].
Proof.
  destruct (enqueue_inline_queues ex_env ex_env_ok "objects/blobs/bb" [5] false (ex_queue [])
    ex_enqueued.1 ex_enqueued.2 (ex_wf [])) as (Hwf & _ & Hdone).
  - split; [by eapply not_reserved|]. intros a [->|[]%elem_of_nil]%elem_of_cons. by eapply not_reserved.
  - apply surjective_pairing.
  - split; [vm_compute; reflexivity|]. split; [exact Hwf|].
    destruct Hdone as (i & _ & Hk & _ & Hp); [vm_compute; reflexivity|]. exists i. by split.
Defined.

(** A remote in memory. *)
#[export] Instance ex_memory : RemotePut := {|
  rp_state := gmap string (list Z); rp_lookup s k := s !! k; rp_present s k := is_Some (s !! k);
  rp_reserved _ := False; rp_put k b := stm_modify (insert k b);
  rp_put_if_absent k b := λ s, match s !! k with Some _ => (Done false, s) | None => (Done true, <[k := b]> s) end;
  rp_exists k := stm_get (λ s, bool_decide (is_Some (s !! k))) |}.
#[export] Instance ex_memory_laws : RemotePutLaws (H := ex_memory).
Proof.
  assert (Hatt : ∀ key b (s : gmap string (list Z)), store_attempt (H := ex_memory) key b s (<[key := b]> s)).
  { intros key b s. split; [|split]; simpl.
    - intros k _ Hk. by rewrite lookup_insert_ne.
    - intros _. right. by rewrite lookup_insert_eq.
    - intros k _ Hk. destruct (decide (key = k)) as [<-|]; [rewrite lookup_insert_eq|rewrite lookup_insert_ne]; by eauto. }
  split; simpl.
  - done.
  - intros key b s _. apply Hatt.
  - intros key b s s' _ [= <-]. by rewrite lookup_insert_eq.
  - intros key b s _. destruct (s !! key) eqn:Hk; [split; [done|]; split; [by left|done]|apply Hatt].
  - intros key b s x s' _. destruct (s !! key) eqn:Hk; intros [= <- <-]; [by rewrite Hk|rewrite lookup_insert_eq; by eauto].
  - done.
  - done.
  - intros key s s' [= Hb <-]. by apply bool_decide_eq_true in Hb.
Qed.

(** The payload lies in a file of its own, and the program is stopped after removing it. *)
Definition ex_filed : UploadQueueItem :=
  UploadQueueItem_file (expected_upload_queue_item_id "objects/blobs/cc") "objects/blobs/cc"
    (fs_to_slash (upload_payload_path ex_env (expected_upload_queue_item_id "objects/blobs/cc"))) 0.
Definition ex_stopped : QueueWorld (H0 := ex_memory) := {|
  qw_fs := {| fs_files := {[ex_path ex_filed := json_to_vec_pretty ex_filed;
                            upload_payload_path ex_env (uq_id ex_filed) := [4]]};
              fs_dirs := {[upload_queue ex_env]}; fs_faults := [None; None; None; Some 0%nat]; fs_uuids := 0 |};
  qw_remote := (∅ : gmap string (list Z)); qw_tick := 0 |}.

(** The queue a later process finds. *)
Definition ex_blocked : QueueWorld (H0 := ex_memory) := {|
  qw_fs := {| fs_files := {[ex_path ex_filed := json_to_vec_pretty ex_filed]}; fs_dirs := {[upload_queue ex_env]};
              fs_faults := []; fs_uuids := 0 |};
  qw_remote := ({["objects/blobs/cc" := [4]]} : gmap string (list Z)); qw_tick := 0 |}.
#[local] Instance ex_no_proxy : @ClusterProxy ex_memory := @Build_ClusterProxy ex_memory (stm_fail "no master") (λ _, stm_fail "no master").

Lemma ex_filed_ok : entry_ok (H1 := ex_memory) ex_env (ex_path ex_filed) ex_filed.
Proof.
  split; [done|done|by intros []|by intros a _ []|].
  intros source _ [= <-]. left. apply (payload_path_text ex_env ex_env_ok).
Qed.
Lemma ex_blocked_wf : queue_wf (H1 := ex_memory) ex_env ex_blocked.
Proof.
  intros p i (n & bytes & Hp & _ & Hf & Hj). cbn [ex_blocked qw_fs fs_files] in Hf. apply lookup_singleton_Some in Hf as [<- <-].
  rewrite json_pretty_roundtrip in Hj. injection Hj as <-. exact ex_filed_ok.
Qed.
Lemma ex_blocked_listed : listed (H1 := ex_memory) ex_env ex_blocked (ex_path ex_filed) ex_filed.
Proof.
  exists (uq_id ex_filed +:+ ".json"), (json_to_vec_pretty ex_filed). split; [done|]. split; [by apply item_extension|].
  split; [apply lookup_singleton_eq|apply json_pretty_roundtrip].
Qed.

Lemma interrupted_upload_blocks_witness :
  let out := upload_queue_item (H0 := ex_memory) ex_env (ex_path ex_filed) ex_filed ex_stopped in
  out.1 = Fails "io" ∧ published (H1 := ex_memory) ex_env out.2 ex_filed (Some [4]) ∧
  ∀ st, (drain_upload_queue (H0 := ex_memory) ex_env 4 ex_blocked).1 ≠ Done st.
Proof.
  intros out.
  destruct (interrupted_upload_blocks (H1 := ex_memory) ex_env (ex_path ex_filed) ex_filed
    (fs_to_slash (upload_payload_path ex_env (uq_id ex_filed)))) with ex_stopped (json_to_vec_pretty ex_filed) [4]
    as (w' & Hrun & _ & Hpub & _ & Hblock).
  - intros l. reflexivity.
  - discriminate.
  - exact ex_filed_ok.
  - done.
  - by right.
  - apply (payload_path_text ex_env ex_env_ok).
  - cbn [ex_stopped qw_fs fs_files]. apply lookup_insert_eq.
  - pose proof (payload_path_text ex_env ex_env_ok "objects/blobs/cc") as Htext. cbv zeta in Htext.
    change (uq_id ex_filed) with (expected_upload_queue_item_id "objects/blobs/cc"). rewrite Htext.
    cbn [ex_stopped qw_fs fs_files].
    rewrite lookup_insert_ne; [apply lookup_singleton_eq|]. apply item_payload_ne.
  - done.
  - intros r. unfold put_item. destruct (conditional _ _); [|done]. unfold stm_bind, in_remote. cbn.
    by destruct (_ !! _).
  - assert (Hout : out = (Fails "io", w')) by exact Hrun. rewrite Hout.
    split; [reflexivity|]. split; [exact Hpub|]. intros st. apply (Hblock 4%nat ex_blocked ex_filed st ex_blocked_wf ex_blocked_listed); [done| |].
    + split; [simpl; set_solver|done].
    + pose proof (payload_path_text ex_env ex_env_ok "objects/blobs/cc") as Htext. cbv zeta in Htext.
      change (uq_id ex_filed) with (expected_upload_queue_item_id "objects/blobs/cc"). rewrite Htext.
      cbn [ex_blocked qw_fs fs_files]. apply lookup_singleton_ne, item_payload_ne.
Defined.
End QueueExample.
