(* ===== verification/QueueMaster.v ===== *)
(** * Draining through a master

    The slave of a cluster sends its queue to the master in batches
    ([drain_upload_queue_via_master] in [src/queue_runtime.rs]): items leave the queue
    only when the master has acknowledged the durable storage of the whole batch, and
    batches respect the limits the master advertises. *)

From S2P Require Import Prelude RStr BTree MachInt Core Util Store Db RemoteObjects AtomicIo FileRemote Queue QueueSafety QueueEnqueue.

Local Open Scope Z_scope.

(** What a master promises: a batch touches only its own keys, and an acknowledged
    object is stored. *)
Class ClusterProxyLaws `{!RemotePut, !ClusterProxy} : Prop := {
  cl_batch_frame items s k : ¬ rp_reserved k → k ∉ map cp_key items →
    rp_lookup (cl_batch_put items s).2 k = rp_lookup s k;
  cl_batch_present items s k : ¬ rp_reserved k → rp_present s k → rp_present (cl_batch_put items s).2 k;
  cl_batch_durable items s results s' :
    cl_batch_put items s = (Done results, s') → length results = length items →
    Forall (λ r, cr_master_durable r = true) results → NoDup (map cp_key items) →
    ∀ item, item ∈ items → ¬ rp_reserved (cp_key item) →
      if cp_conditional item then rp_present s' (cp_key item) else rp_lookup s' (cp_key item) = Some (cp_bytes item);
  cl_capabilities_same s k : rp_lookup (cl_capabilities s).2 k = rp_lookup s k ∧
    (rp_present s k → rp_present (cl_capabilities s).2 k);
}.

Section Master.
Context `{!Blake3Text, !Blake3TextLaws, !Serde UploadQueueItem, !SerdeLaws UploadQueueItem,
          !RemotePut, !RemotePutLaws, !ClusterProxy, !ClusterProxyLaws}.
Context (env : QueueEnv).
Abbreviation files w := (fs_files (qw_fs w)).

Hypothesis master : qn_kind env = KMasterProxy.
(** The proxy of a master claims conditional puts. *)
Hypothesis can_conditional : qn_conditional_put env = true.

(** The entries of a batch, and that the bytes to send are their payloads. *)
Definition entries (batch : list BatchEntry) : list QueueEntry := map fst batch.
Definition no_order : QueueEntry → nat := λ _, 0%nat.
Context (B : QueueEntry → option (list Z)).
Definition batch_ok (batch : list BatchEntry) : Prop := ∀ x, x ∈ batch → B x.1 = Some x.2.

Lemma request_keys batch : map cp_key (cluster_request batch) = map key_of (entries batch).
Proof.
  unfold cluster_request, entries. rewrite !map_map. apply map_ext. by intros [[p i] b].
Qed.

(** A failed batch is kept, with one more attempt. *)
Lemma record_failures_run batch w r w' :
  entries_ok env (entries batch) → all_kept (entries batch) B w → record_failures env batch w = (r, w') →
  all_kept (entries batch) B w' ∧
  ∀ e, entry_ok env e.1 e.2 → key_of e ∉ map key_of (entries batch) → untouched e.1 e.2 w w'.
Proof.
  revert w; induction batch as [|[[p i] b] batch IH]; intros w Hok Hkept; unfold record_failures; cbn [stm_iter].
  { intros [= <- <-]. split; [done|by intros]. }
  destruct (entries_ok_app env [(p, i)] (entries batch) Hok) as (_ & Hokb & Hd).
  assert (Hpi : entry_ok env p i) by (apply (es_ok _ _ Hok (p, i)); by left).
  unfold stm_bind. destruct (record_failure env p i w) as [ra wa] eqn:Ha.
  assert (Hproc : processed env p i w wa).
  { pose proof (record_failure_processed env p i Hpi w) as Hp. by rewrite Ha in Hp. }
  assert (Hua : ∀ e, entry_ok env e.1 e.2 → key_of e ≠ uq_key i → untouched e.1 e.2 w wa).
  { intros e He Hne. eapply processed_untouched; [exact Hpi|exact He|by apply not_eq_sym|exact Hproc]. }
  assert (Hkepta : all_kept (entries ((p, i, b) :: batch)) B wa).
  { intros e [->|He]%elem_of_cons.
    - eapply record_failure_kept; [exact Hpi| |exact Ha]. apply (Hkept (p, i)). by left.
    - eapply kept_untouched; [apply Hua|apply Hkept; by right]; [apply (es_ok _ _ Hokb), He|].
      apply not_eq_sym, (Hd (p, i)); [by left|done]. }
  assert (Hfr : ∀ e, entry_ok env e.1 e.2 → key_of e ∉ map key_of (entries ((p, i, b) :: batch)) → untouched e.1 e.2 w wa).
  { intros e He Hnin. apply Hua; [done|]. simpl in Hnin. set_solver. }
  destruct ra as [[]|e|]; [|by intros [= <- <-]..].
  intros Hrun. apply IH in Hrun as [Hk2 Hf2]; [|done|intros e He; apply Hkepta; by right]. split.
  - intros e [->|He]%elem_of_cons; [|by apply Hk2]. eapply kept_untouched; [|apply (Hkepta (p, i)); by left].
    apply (Hf2 (p, i)); [done|]. by apply (not_in_keys' env [(p, i)] (entries batch)); [|left].
  - intros e He Hnin. etrans; [by apply Hfr|]. apply Hf2; [done|]. simpl in Hnin. set_solver.
Qed.

(** Removing acknowledged items touches local files only. *)
Lemma acknowledge_run stats batch results w r w' :
  entries_ok env (entries batch) → acknowledge env stats batch results w = (r, w') →
  qw_remote w' = qw_remote w ∧
  ∀ e, entry_ok env e.1 e.2 → key_of e ∉ map key_of (entries batch) → untouched e.1 e.2 w w'.
Proof.
  revert stats results w; induction batch as [|[[p i] b] batch IH]; intros stats results w Hok; cbn [acknowledge].
  { intros [= <- <-]. split; [done|by intros]. }
  destruct results as [|res results]; [intros [= <- <-]; split; [done|by intros]|].
  destruct (entries_ok_app env [(p, i)] (entries batch) Hok) as (_ & Hokb & _).
  assert (Hpi : entry_ok env p i) by (apply (es_ok _ _ Hok (p, i)); by left).
  assert (Hstep : ∀ {A} (m : fs_m A) w1 r1 w2, (∀ s, fs_processed env p i (fs_files s) (fs_files (m s).2)) →
    in_fs m w1 = (r1, w2) → qw_remote w2 = qw_remote w1 ∧
    ∀ e, entry_ok env e.1 e.2 → key_of e ∉ map key_of (entries ((p, i, b) :: batch)) → untouched e.1 e.2 w1 w2).
  { intros A m w1 r1 w2 Hm Hrun. split; [by eapply in_fs_remote|]. intros e He Hnin.
    eapply processed_untouched; [exact Hpi|exact He| |].
    - intros Heq. apply Hnin. simpl. rewrite elem_of_cons. left. unfold key_of. by rewrite <-Heq.
    - pose proof (in_fs_processed env p i m Hm w1) as Hp. by rewrite Hrun in Hp. }
  unfold stm_bind. destruct (in_fs _ w) as [ra wa] eqn:Ha. apply Hstep in Ha as [Hra Hua]; [|apply remove_payload_processed].
  destruct ra as [[]|e|]; [|by intros [= <- <-]..].
  destruct (in_fs _ wa) as [rb wb] eqn:Hb. apply Hstep in Hb as [Hrb Hub]; [|apply remove_processed; by left].
  destruct rb as [[]|e|]; [|intros [= <- <-]; split; [congruence|]; intros e' He' Hn'; etrans; [by apply Hua|by apply Hub]..].
  intros [Hrc Huc]%IH; [|done]. split; [congruence|]. intros e He Hnin. etrans; [by apply Hua|]. etrans; [by apply Hub|].
  apply Huc; [done|]. simpl in Hnin. set_solver.
Qed.

(** The request itself changes only the remote, and only at the keys of the batch. *)
Lemma batch_put_run batch w r w' :
  in_remote (cl_batch_put (cluster_request batch)) w = (r, w') →
  qw_fs w' = qw_fs w ∧
  (∀ e, entry_ok env e.1 e.2 → key_of e ∉ map key_of (entries batch) → untouched e.1 e.2 w w').
Proof.
  unfold in_remote. pose proof (cl_batch_frame (cluster_request batch) (qw_remote w)) as Hf.
  pose proof (cl_batch_present (cluster_request batch) (qw_remote w)) as Hp.
  destruct (cl_batch_put _ _) as [r0 s0]. intros [= <- <-]. split; [done|]. intros e He Hnin. simpl in *.
  split; [done|done| |intros k Hk; by apply Hp]. simpl. apply Hf; [apply He|]. by rewrite request_keys.
Qed.

Lemma batch_durable batch w results w' :
  entries_ok env (entries batch) → batch_ok batch →
  in_remote (cl_batch_put (cluster_request batch)) w = (Done results, w') → length results = length batch →
  existsb (λ r, negb (cr_master_durable r)) results = false →
  ∀ e, e ∈ entries batch → published env w' e.2 (B e).
Proof.
  intros Hok Hb. unfold in_remote. destruct (cl_batch_put _ _) as [r0 s0] eqn:Hrun. intros [= -> <-] Hlen Hdur e He.
  apply list_elem_of_fmap in He as ([[p i] bytes] & -> & Hin). simpl.
  pose proof (cl_batch_durable _ _ _ _ Hrun) as Hd. unfold cluster_request in Hd at 1. rewrite length_map in Hd.
  specialize (Hd Hlen). rewrite request_keys in Hd.
  specialize (Hd (proj2 (Forall_forall _ _) (λ r Hr, proj1 (negb_false_iff _) (proj1 (existsb_false _ _) Hdur r Hr)))
    (es_keys _ _ Hok)).
  specialize (Hd {| cp_key := uq_key i; cp_bytes := bytes;
    cp_conditional := negb (uq_overwrite i) && is_content_addressed_remote_key (uq_key i) |}). simpl in Hd.
  assert (Hent : entry_ok env p i) by (apply (es_ok _ _ Hok (p, i)), list_elem_of_fmap; by exists (p, i, bytes)).
  assert (Hreq : ∀ x, x ∈ batch → (λ '((_, item), bytes), {| cp_key := uq_key item; cp_bytes := bytes;
    cp_conditional := negb (uq_overwrite item) && is_content_addressed_remote_key (uq_key item) |}) x ∈ cluster_request batch).
  { intros x Hx. apply list_elem_of_fmap. by exists x. }
  specialize (Hd (Hreq _ Hin) (eo_key _ _ _ Hent)). pose proof (Hb _ Hin) as Hbytes. simpl in Hbytes. rewrite Hbytes.
  destruct (_ && _) eqn:Hc in Hd; [right; left|left].
  - split; [|done]. unfold conditional. by rewrite Hc, can_conditional.
  - split; [by eauto|done].
Qed.

Lemma works_unordered {A} l w (r : outcome A string) w' :
  (∀ e, e ∈ l → handled env e.1 e.2 (B e) r w') →
  (∀ e, entry_ok env e.1 e.2 → key_of e ∉ map key_of l → untouched e.1 e.2 w w') →
  works env no_order l B w r w'.
Proof. intros Hh Hf. split; [done| |done]. intros e e' _ _ Hlt. unfold no_order in Hlt. lia. Qed.

Lemma send_covers stats batch :
  entries_ok env (entries batch) → batch_ok batch →
  covers env no_order B (entries batch) (send_cluster_upload_batch env stats batch).
Proof.
  intros Hok Hb w r w' Hkept. unfold send_cluster_upload_batch. destruct (in_remote _ w) as [ra wa] eqn:Ha.
  pose proof Ha as Hrun. apply batch_put_run in Hrun as [Hfs Hfr].
  assert (Hkepta : all_kept (entries batch) B wa).
  { intros e He. eapply kept_files; [|by apply Hkept]. by rewrite Hfs. }
  assert (Hfail : ∀ e0 rb wb, record_failures env batch wa = (rb, wb) →
    works env no_order (entries batch) B w (Fails (A := UploadDrainStats) e0) wb).
  { intros e0 rb wb [Hk Hf]%record_failures_run; [|done..]. apply works_unordered.
    - intros e He. split; [left; by apply Hk|done].
    - intros e He Hn. etrans; [by apply Hfr|by apply Hf]. }
  assert (Hstop : ∀ rx, (∀ st, rx ≠ Done st) → works env no_order (entries batch) B w (A := UploadDrainStats) rx wa).
  { intros rx Hx. apply works_unordered; [|done]. intros e He. split; [left; by apply Hkepta|]. by intros x Hd%Hx. }
  destruct ra as [results|e0|]; [| |intros [= <- <-]; by apply Hstop].
  2: { unfold stm_bind. destruct (record_failures env batch wa) as [rb wb] eqn:Hr. pose proof (Hfail "" _ _ eq_refl) as [W1 W2 W3].
       destruct rb as [[]|e1|]; intros [= <- <-]; (apply works_unordered; [|done]); intros e He; (split; [apply (W1 e He)|done]). }
  destruct (Nat.eqb_spec (length results) (length batch)) as [Hlen|]; cbn [negb]; [|intros [= <- <-]; by apply Hstop].
  destruct (existsb _ results) eqn:Hdur.
  { unfold stm_bind. destruct (record_failures env batch wa) as [rb wb] eqn:Hr. pose proof (Hfail "" _ _ eq_refl) as [W1 W2 W3].
    destruct rb as [[]|e1|]; intros [= <- <-]; (apply works_unordered; [|done]); intros e He; (split; [apply (W1 e He)|done]). }
  intros [Hrem Hfr']%acknowledge_run; [|done]. apply works_unordered.
  - intros e He. apply published_handled. eapply published_remote; [exact Hrem|]. by eapply batch_durable.
  - intros e He Hn. etrans; [by apply Hfr|by apply Hfr'].
Qed.

(** ** The loop over the queue *)

Definition finish (last : UploadDrainStats * list BatchEntry) : stm QueueWorld UploadDrainStats :=
  let '(stats, batch) := last in
  if bool_decide (batch = []) then stm_ret stats else send_cluster_upload_batch env stats batch.

(** The bytes of an item. *)
Definition read_payload (item : UploadQueueItem) : stm QueueWorld (list Z) :=
  match uq_inline item, uq_source item with
  | Some bytes, _ => stm_ret bytes
  | None, Some source => in_fs (fs_read (fs_path_of source))
  | None, None => stm_fail "queued upload has neither inline payload nor source"
  end.

Lemma read_payload_run i w r w' : read_payload i w = (r, w') →
  files w' = files w ∧ qw_remote w' = qw_remote w ∧ (∀ bytes, r = Done bytes → payload w i = Some bytes).
Proof.
  unfold read_payload, payload. destruct (uq_inline i); [intros [= <- <-]; split_and!; [done|done|]; by intros ? [= <-]|].
  destruct (uq_source i) as [source|]; [|by intros [= <- <-]]. intros (s & Hr & Hs & Hrem)%in_fs_files.
  apply fs_read_run in Hr as (l & -> & [(e & ->)|(b & -> & Hb)]); rewrite Hs; split_and!; try done.
  by intros bytes [= <-].
Qed.

Lemma untouched_same e w w' : files w' = files w → qw_remote w' = qw_remote w → untouched e.1 e.2 w w'.
Proof. intros Hf Hr. split; rewrite ?Hr; try done; [by rewrite Hf|unfold payload; by rewrite Hf]. Qed.

Lemma works_pre {A} l w w1 (r : outcome A string) w' :
  files w1 = files w → qw_remote w1 = qw_remote w → works env no_order l B w1 r w' → works env no_order l B w r w'.
Proof.
  intros Hf Hr [W1 _ W3]. apply works_unordered; [done|]. intros e He Hn. etrans; [by apply untouched_same|by apply W3].
Qed.

Lemma master_loop_step mo mb stats batch bb p i rest w :
  stm_bind (master_loop env mo mb stats batch bb ((p, i) :: rest)) finish w =
  stm_bind (read_payload i) (λ bytes,
    let len := Z.of_nat (length bytes) in
    if bool_decide (batch ≠ []) && ((mo <=? Z.of_nat (length batch)) || (mb <? saturating_add bb len))
    then stm_bind (send_cluster_upload_batch env stats batch) (λ stats',
           stm_bind (master_loop env mo mb stats' [((p, i), bytes)] (saturating_add 0 len) rest) finish)
    else stm_bind (master_loop env mo mb stats (batch ++ [((p, i), bytes)]) (saturating_add bb len) rest) finish) w.
Proof.
  cbn [master_loop]. unfold queued_upload_can_be_skipped. rewrite master. unfold stm_bind at 1 2.
  assert (∀ w0, (if uq_overwrite i then stm_ret (S := QueueWorld) false else stm_ret false) w0 = (Done false, w0)) as Hskip by (by destruct (uq_overwrite i)).
  rewrite Hskip. unfold stm_bind. fold (read_payload i).
  destruct (read_payload i w) as [[bytes|e|] w1]; [|done..]. cbv zeta. destruct (_ && _); [|done].
  by destruct (send_cluster_upload_batch env stats batch w1) as [[]].
Qed.

Lemma master_covers mo mb items stats batch bb :
  entries_ok env (entries batch ++ items) → batch_ok batch →
  covers env no_order B (entries batch ++ items) (stm_bind (master_loop env mo mb stats batch bb items) finish).
Proof.
  revert stats batch bb; induction items as [|[p i] rest IH]; intros stats batch bb Hok Hb w r w' Hkept.
  { rewrite app_nil_r in *. unfold stm_bind, stm_ret, finish. simpl. case_bool_decide as Hnil; [|by apply send_covers].
    subst batch. intros Hrun. by eapply (covers_ret env no_order B stats w). }
  rewrite master_loop_step. unfold stm_bind at 1. destruct (read_payload i w) as [ra wa] eqn:Ha.
  apply read_payload_run in Ha as (Hf & Hr & Hbytes).
  assert (Hkepta : all_kept (entries batch ++ (p, i) :: rest) B wa).
  { intros e He. by eapply kept_files; [|apply Hkept]. }
  destruct ra as [bytes|e0|].
  2, 3: intros [= <- <-]; apply works_unordered; [intros e He; split; [left; by apply Hkepta|done]|intros; by apply untouched_same].
  specialize (Hbytes bytes eq_refl). cbv zeta. intros Hrun. apply (works_pre _ w wa); [done..|].
  assert (HB : B (p, i) = Some bytes) by (rewrite <-Hbytes; symmetry; apply (Hkept (p, i)); set_solver).
  destruct (entries_ok_app env _ _ Hok) as (Hokb & Hokr & _). revert Hrun. destruct (_ && _).
  - apply (covers_seq env no_order B (entries batch) ((p, i) :: rest)); [done| |by apply send_covers| |done].
    + intros e e' _ _. done.
    + intros stats'. apply (IH stats' [((p, i), bytes)]); [done|]. by intros x [->|[]%elem_of_nil]%elem_of_cons.
  - assert (Heq : entries batch ++ (p, i) :: rest = entries (batch ++ [((p, i), bytes)]) ++ rest).
    { unfold entries. rewrite map_app. by rewrite <-app_assoc. }
    intros Hrun. refine (eq_ind_r (λ l, works env no_order l B wa r w') _ Heq).
    refine (IH stats (batch ++ [((p, i), bytes)]) _ _ _ wa r w' _ Hrun); [by rewrite <-Heq| |by rewrite <-Heq].
    intros x [Hx|[->|[]%elem_of_nil]%elem_of_cons]%elem_of_app; [by apply Hb|done].
Qed.
End Master.

Section MasterTheorems.
Context `{!Blake3Text, !Blake3TextLaws, !Serde UploadQueueItem, !SerdeLaws UploadQueueItem,
          !RemotePut, !RemotePutLaws, !ClusterProxy, !ClusterProxyLaws}.
Context (env : QueueEnv).
Hypothesis master : qn_kind env = KMasterProxy.
Hypothesis can_conditional : qn_conditional_put env = true.

(** C27. A slave loses nothing: after a drain through the master, whatever failed, every
    item is still queued with its payload or the master holds its object, and when the
    drain succeeds the master holds every object. *)
Theorem slave_loses_nothing max w r w' :
  queue_wf env w → drain_upload_queue env max w = (r, w') → ∀ p i, listed env w p i →
  safe env w' p i (payload w i) ∧
  (dir_visible env w → ∀ st, r = Done st → published env w' i (payload w i)).
Proof.
  intros Hwf. unfold drain_upload_queue. rewrite master. unfold drain_upload_queue_via_master.
  unfold stm_bind at 1. destruct (upload_queue_items env w) as [ra wa] eqn:Ha.
  apply upload_queue_items_run in Ha as (Hrem & Hcl & Hitems); [|done].
  assert (Hkept : ∀ p i, listed env w p i → kept wa p i (payload w i)) by (intros; by eapply listed_kept).
  destruct ra as [items|e|]; [|intros [= <- <-] p i Hl; split; [left; by apply Hkept|done]..].
  destruct (Hitems items eq_refl) as (Hok & Hsound & Hempty & Hvis).
  unfold stm_bind at 1. destruct (in_remote cl_capabilities wa) as [rb wb] eqn:Hb.
  pose proof (in_remote_fs _ _ _ _ Hb) as Hfsb.
  assert (Hkeptb : ∀ p i, listed env w p i → kept wb p i (payload w i)).
  { intros p i Hl. eapply kept_files; [|by apply Hkept]. by rewrite Hfsb. }
  destruct rb as [caps|e|]; [|intros [= <- <-] p i Hl; split; [left; by apply Hkeptb|done]..].
  intros Hrun p i Hl. set (sorted := flat_map (priority_group items) [1; 2; 3]%nat) in *.
  assert (Hperm : sorted ≡ₚ items).
  { unfold sorted. simpl. rewrite app_nil_r. apply groups_perm. }
  eapply (master_covers env master can_conditional (λ e, payload w e.2) _ _ sorted _ [] 0) in Hrun as [W1 _ W3]; cycle 1.
  { simpl. by eapply entries_ok_perm. }
  { by intros x Hx%elem_of_nil. }
  { simpl. intros [q j] He. rewrite Hperm in He. by apply Hkeptb, Hsound. }
  simpl in W1. destruct Hempty as [->|Hcompl].
  - apply Permutation_nil_r in Hperm. split; [|intros Hv; apply (Hvis Hv) in Hl; by apply elem_of_nil in Hl].
    left. eapply kept_untouched; [|by apply Hkeptb]. apply (W3 (p, i)); [by apply Hwf|]. rewrite Hperm. apply not_elem_of_nil.
  - destruct (W1 (p, i)) as [Hs Hp]; [rewrite Hperm; by apply Hcompl|]. split; [done|]. intros _ st ->. by eapply Hp.
Qed.
End MasterTheorems.

(** ** A concrete master *)

Module MasterExample.
Import QueueExample.

Definition ex_put (s : gmap string (list Z)) (item : ClusterPutItem) : gmap string (list Z) :=
  <[cp_key item := cp_bytes item]> s.
#[export] Instance ex_master : @ClusterProxy ex_memory := @Build_ClusterProxy ex_memory
  (stm_ret (10, 1000))
  (λ items s, (Done (map (λ item, {| cr_master_durable := true; cr_newly_stored := true;
                           cr_stored_bytes := Z.of_nat (length (cp_bytes item)) |}) items),
     fold_left ex_put items (s : gmap string (list Z)))).

Lemma ex_put_other items s k : k ∉ map cp_key items → fold_left ex_put items s !! k = s !! k.
Proof.
  revert s; induction items as [|item items IH]; intros s Hk; simpl in *; [done|].
  rewrite IH by set_solver. unfold ex_put. rewrite lookup_insert_ne; [done|]. set_solver.
Qed.

Lemma ex_put_present items s k : is_Some (s !! k) → is_Some (fold_left ex_put items s !! k).
Proof.
  revert s; induction items as [|item items IH]; intros s Hk; simpl; [done|]. apply IH. unfold ex_put.
  destruct (decide (cp_key item = k)) as [<-|]; [rewrite lookup_insert_eq; by eauto|by rewrite lookup_insert_ne].
Qed.

Lemma ex_put_item items s item : NoDup (map cp_key items) → item ∈ items →
  fold_left ex_put items s !! cp_key item = Some (cp_bytes item).
Proof.
  revert s; induction items as [|x items IH]; intros s Hnd Hin; [set_solver|]. simpl in Hnd.
  apply NoDup_cons in Hnd as [Hx Hnd]. apply elem_of_cons in Hin as [->|Hin]; simpl; [|by apply IH].
  rewrite ex_put_other by done. unfold ex_put. by rewrite lookup_insert_eq.
Qed.

#[export] Instance ex_master_laws : ClusterProxyLaws (H := ex_memory).
Proof.
  split; simpl.
  - intros items s k _ Hk. by apply ex_put_other.
  - intros items s k _. apply ex_put_present.
  - intros items s results s' [= <- <-] _ _ Hnd item Hin _. pose proof (ex_put_item items s item Hnd Hin) as Hl.
    destruct (cp_conditional item); [rewrite Hl; by eauto|done].
  - done.
Qed.

Definition ex_slave : QueueEnv := {|
  qn_home := [RootDir; Normal "home"]; qn_uuid := ex_uuid; qn_now := λ _, 0; qn_random := λ _, 7;
  qn_stale := λ _, false; qn_kind := KMasterProxy; qn_conditional_put := true; qn_parallelism := None;
  qn_schedule := λ l, l; qn_batch_max_objects := Some "1"; qn_batch_max_bytes := None |}.
Definition ex_slave_queue : QueueWorld (H0 := ex_memory) := {|
  qw_fs := qw_fs (ex_queue []); qw_remote := (∅ : gmap string (list Z)); qw_tick := 0 |}.
Definition ex_sent := drain_upload_queue (H0 := ex_memory) ex_slave 4 ex_slave_queue.

Lemma slave_loses_nothing_witness :
  (∃ st, ex_sent.1 = Done st) ∧ published (H1 := ex_memory) ex_slave ex_sent.2 ex_ref (Some [3]).
Proof.
  assert (Hdone : ex_sent.1 = Done {| ud_uploaded := 2; ud_uploaded_bytes := 3; ud_skipped := 0 |})
    by (vm_compute; reflexivity).
  split; [eexists; exact Hdone|].
  destruct (slave_loses_nothing (H1 := ex_memory) ex_slave eq_refl eq_refl 4 ex_slave_queue ex_sent.1 ex_sent.2)
    with (ex_path ex_ref) ex_ref as [_ Hpub].
  - intros p i (n & bytes & Hp & Hext & Hf & Hj).
    assert (Hok : entry_ok (H1 := ex_remote) ex_env p i) 
      by exact (ex_wf [] p i (ex_intro _ n (ex_intro _ bytes (conj Hp (conj Hext (conj Hf Hj)))))).
    destruct Hok as [H1 H2 _ _ H5]. split; [exact H1|exact H2|intros []|intros a _ []|exact H5].
  - apply surjective_pairing.
  - exact (ex_listed_ref []).
  - eapply Hpub; [|exact Hdone]. split; [simpl; set_solver|done].
Defined.
End MasterExample.
