(* ===== verification/EventJournal.v ===== *)
(** * The event journal

    The part of [src/queue_runtime.rs] that keeps the journal of file changes: one JSON file
    per event under [queue/events], written atomically; their upload to the remote, the
    acknowledgement of what has arrived there, and compaction after snapshots.  Local files,
    the remote and the clock are those of [Queue]. *)

From S2P Require Import Prelude RStr BTree MachInt Core Util Store Db RemoteObjects AtomicIo FileRemote Queue.

Local Open Scope Z_scope.

(** What the journal reads of the rest of the program: the current snapshot, the records of a
    stored tree and a stored manifest; and the payload of an event, which is read from the live
    file, stored and queued for upload ([enrich_remote_event_journal_payload]). *)
Class JournalSource (world : Type) := {
  current_snapshot_for_event_compact : result (option SnapshotManifest) string;
  load_root_tree_entries : RootSnapshot → result (list (string * FileRecord)) string;
  read_journal_manifest : string → result LargeManifest string;
  enrich_remote_event_journal_payload : EventJournalRecord → stm world EventJournalRecord;
}.

(** ** Events and records *)

Definition journal_payload_oid (payload : Payload) : option string :=
  match payload with
  | InlineSmall oid _ | NormalBlob oid _ | ChunkedBlob oid _ _ | LargeObject oid _ _ _ _ _ _ _ _ _ | Blob oid _ | Large oid _ _ => Some oid
  | Directory | Symlink _ | Special _ => None
  end.

Definition journal_payloads_match (a b : Payload) : bool :=
  match a, b with
  | Directory, Directory => true
  | Symlink a, Symlink b => (a =? b)%string
  | Special a, Special b => (a =? b)%string
  | _, _ => match journal_payload_oid a with
            | Some oid => bool_decide (journal_payload_oid b = Some oid)
            | None => false end
  end.

Definition journal_records_match (a b : FileRecord) : bool :=
  (fr_kind a =? fr_kind b)%string && (fr_size a =? fr_size b) && (fr_mode a =? fr_mode b) &&
  bool_decide (fr_modified a = fr_modified b) && bool_decide (fr_uid a = fr_uid b) &&
  bool_decide (fr_gid a = fr_gid b) && bool_decide (fr_xattrs a = fr_xattrs b) &&
  journal_payloads_match (fr_payload a) (fr_payload b).

Definition live_diff_event_kind (snapshot live : option FileRecord) : option string :=
  match snapshot, live with
  | None, Some _ => Some "create"
  | Some _, None => Some "delete"
  | Some snapshot, Some live => if journal_records_match snapshot live then None else Some "modify"
  | None, None => None
  end.

(** [durable_payload_matches] and [durable_event_matches_snapshot_record] have the same body. *)
Definition durable_payload_matches (event : EventJournalRecord) (live : FileRecord) : bool :=
  match fr_payload live with
  | Symlink target => bool_decide (ej_durable_entry_kind event = Some "symlink") &&
                      bool_decide (ej_durable_symlink_target event = Some target)
  | Special special_kind => bool_decide (ej_durable_entry_kind event = Some "special") &&
                            bool_decide (ej_durable_special_kind event = Some special_kind)
  | payload => match journal_payload_oid payload with
               | Some oid => bool_decide (ej_durable_payload_oid event = Some oid)
               | None => false end
  end.
Definition durable_event_matches_snapshot_record (event : EventJournalRecord) (record : FileRecord) : bool :=
  durable_payload_matches event record.

Definition live_diff_event_already_covered (records : list EventJournalRecord) (root_id rel_path : string)
    (snapshot_timestamp : DateTime) (live_record : option FileRecord) : bool :=
  existsb (λ record, if bool_decide (ej_remote_journal_synced_at record = None) then true else
      match live_record with
      | None => bool_decide (ej_durable_tombstone record = Some true)
      | Some live => durable_payload_matches record live
      end)
    (List.filter (λ record, bool_decide (ej_root_id record = Some root_id) && bool_decide (ej_path record = Some rel_path) &&
                            (snapshot_timestamp <? ej_observed_at record)) records).

Definition with_remote_key (e : EventJournalRecord) (key : string) (synced : option DateTime) : EventJournalRecord :=
  {| ej_event_id := ej_event_id e; ej_kind := ej_kind e; ej_observed_at := ej_observed_at e; ej_detail := ej_detail e;
     ej_root_id := ej_root_id e; ej_path := ej_path e; ej_event_kind := ej_event_kind e; ej_raw_backend := ej_raw_backend e;
     ej_remote_journal_key := Some key; ej_remote_journal_synced_at := synced; ej_durable_tombstone := ej_durable_tombstone e;
     ej_durable_entry_kind := ej_durable_entry_kind e; ej_durable_payload_oid := ej_durable_payload_oid e;
     ej_durable_payload_key := ej_durable_payload_key e; ej_durable_payload_size := ej_durable_payload_size e;
     ej_durable_large_manifest_key := ej_durable_large_manifest_key e;
     ej_durable_large_chunk_count := ej_durable_large_chunk_count e;
     ej_durable_symlink_target := ej_durable_symlink_target e; ej_durable_special_kind := ej_durable_special_kind e;
     ej_durable_mode := ej_durable_mode e; ej_durable_modified := ej_durable_modified e;
     ej_durable_uid := ej_durable_uid e; ej_durable_gid := ej_durable_gid e |}.

(** ** The times of snapshots *)

Definition snapshot_finishes (records : list EventJournalRecord) : list DateTime :=
  map ej_observed_at (filter (λ e, is_snapshot_finish e = true) records).

Definition min_time (l : list DateTime) : option DateTime :=
  match l with [] => None | x :: r => Some (fold_left Z.min r x) end.

(** Sorted, without repetitions. *)
Fixpoint insert_time (t : DateTime) (l : list DateTime) : list DateTime :=
  match l with
  | [] => [t]
  | u :: l' => match t ?= u with Lt => t :: l | Eq => l | Gt => u :: insert_time t l' end
  end.
Definition sort_times (l : list DateTime) : list DateTime := foldr insert_time [] l.
Definition previous_snapshot_finish (finishes : list DateTime) : option DateTime :=
  rev (sort_times finishes) !! 1%nat.

Section Journal.
Context `{!Blake3Text, !Serde UploadQueueItem, !Serde EventJournalRecord, !RemotePut, !JournalSource QueueWorld}.
Context (env : QueueEnv).

(** The random parts of the ids of events, and two variables of the environment. *)
Record JournalEnv := {
  jn_uuid : nat → string;
  jn_min_records : option string;
  jn_strict : option string;
}.
Context (jenv : JournalEnv).

Abbreviation journal_m := (stm QueueWorld).

Definition event_queue : FsPath := fs_join (fs_join (qn_home env) "queue") "events".
Definition event_path (id : string) : FsPath := fs_join event_queue (id +:+ ".json").

(** ** Writing and reading *)

Definition write_event_record (event : EventJournalRecord) : journal_m unit :=
  let* _ := in_fs (fs_create_dir_all event_queue) in
  in_fs (write_atomic (qn_uuid env) (event_path (ej_event_id event)) (json_to_vec_pretty event)).

(** [new_id("event")] *)
Definition new_id : journal_m string := let* u := clock (jn_uuid jenv) in stm_ret ("event-" +:+ u).

Definition record_event (kind detail : string) : journal_m unit :=
  let* id := new_id in
  let* now := clock (qn_now env) in
  write_event_record (EventJournalRecord_new id kind now detail).

Definition record_file_event (root_id path event_kind raw_backend detail : string) : journal_m unit :=
  let* id := new_id in
  let* now := clock (qn_now env) in
  write_event_record (new_file_event id now detail root_id path event_kind raw_backend).

(** Files that are empty or cannot be read as an event are removed. *)
Fixpoint read_events (names : list string) : fs_m (list EventJournalRecord) :=
  match names with
  | [] => stm_ret []
  | name :: rest =>
    if negb (bool_decide (name_extension name = Some "json")) then read_events rest else
    let path := fs_join event_queue name in
    λ s, match fs_read path s with
         | (Done bytes, s') =>
           match match bytes with [] => None | _ => json_from_slice bytes end with
           | Some record => (let* records := read_events rest in stm_ret (record :: records)) s'
           | None => (let* _ := stm_ignore (fs_remove_file path) in read_events rest) s'
           end
         | (Fails e, s') => if (e =? "NotFound")%string then read_events rest s' else (Fails e, s')
         | (Panics, s') => (Panics, s')
         end
  end.

Fixpoint insert_event (x : EventJournalRecord) (l : list EventJournalRecord) : list EventJournalRecord :=
  match l with
  | [] => [x]
  | y :: l' => if ej_observed_at x <=? ej_observed_at y then x :: l else y :: insert_event x l'
  end.
Definition sort_events (l : list EventJournalRecord) : list EventJournalRecord := foldr insert_event [] l.

Definition event_journal_records : journal_m (list EventJournalRecord) :=
  let* there := in_fs (fs_exists event_queue) in
  if negb there then stm_ret [] else
  let* _ := in_fs (cleanup_stale_atomic_temps (qn_stale env) event_queue) in
  let* _ := in_fs (fs_sys (stm_ret tt)) in
  let* names := in_fs (stm_get (dir_files event_queue)) in
  let* records := in_fs (read_events names) in
  stm_ret (sort_events records).

Definition has_pending_journal_events_here : journal_m bool :=
  let* records := event_journal_records in stm_ret (has_pending_journal_events records).

(** ** The remote *)

Definition remote_event_journal_key (host_id event_id : string) : string :=
  host_id +:+ "/journal/" +:+ event_id +:+ ".json".

Definition durable_payload_remote_key (host_id key : string) : string :=
  match qn_kind env with KFile => key | _ => host_remote_key host_id key end.

Fixpoint all_exist (keys : list string) : journal_m bool :=
  match keys with
  | [] => stm_ret true
  | key :: rest => let* there := in_remote (rp_exists key) in if there : bool then all_exist rest else stm_ret false
  end.

Definition remote_event_payload_is_durable (host_id : string) (record : EventJournalRecord) : journal_m bool :=
  match ej_durable_payload_key record with
  | Some payload_key => in_remote (rp_exists (durable_payload_remote_key host_id payload_key))
  | None =>
    match ej_durable_large_manifest_key record with
    | None => stm_ret true
    | Some manifest_key =>
      let* there := in_remote (rp_exists (durable_payload_remote_key host_id manifest_key)) in
      if negb there then stm_ret false else
      let* manifest := stm_ok (read_journal_manifest manifest_key) in
      all_exist (map (λ chunk, durable_payload_remote_key host_id (lc_object_key chunk)) (lm_chunks manifest))
    end
  end.

Fixpoint enqueue_events (host_id : string) (records : list EventJournalRecord) (enqueued : nat) : journal_m nat :=
  match records with
  | [] => stm_ret enqueued
  | record :: rest =>
    let key := remote_event_journal_key host_id (ej_event_id record) in
    λ w, match enrich_remote_event_journal_payload (with_remote_key record key (ej_remote_journal_synced_at record)) w with
         | (Done record', w1) =>
           (let* _ := enqueue_inline_upload_overwrite env key (json_to_vec_pretty record') in
            let* _ := write_event_record record' in
            enqueue_events host_id rest (S enqueued)) w1
         | (Fails _, w1) => enqueue_events host_id rest enqueued w1
         | (Panics, w1) => (Panics, w1)
         end
  end.
Definition enqueue_remote_event_journal_uploads (host_id : string) : journal_m nat :=
  let* records := event_journal_records in
  enqueue_events host_id (List.filter is_remote_journal_pending records) 0.

Fixpoint acknowledge_events (host_id : string) (records : list EventJournalRecord) (acknowledged : nat) : journal_m nat :=
  match records with
  | [] => stm_ret acknowledged
  | record :: rest =>
    let key := default (remote_event_journal_key host_id (ej_event_id record)) (ej_remote_journal_key record) in
    let* there := in_remote (rp_exists key) in
    let* durable := (if there : bool then remote_event_payload_is_durable host_id record else stm_ret false) in
    if durable : bool then
      let* now := clock (qn_now env) in
      let* _ := write_event_record (with_remote_key record key (Some now)) in
      acknowledge_events host_id rest (S acknowledged)
    else acknowledge_events host_id rest acknowledged
  end.
Definition acknowledge_remote_event_journal_uploads (host_id : string) : journal_m nat :=
  let* records := event_journal_records in
  acknowledge_events host_id
    (List.filter (λ r, is_remote_journal_pending r && bool_decide (is_Some (ej_remote_journal_key r))) records) 0.

(** ** Compaction *)

Definition snapshot_root_file_map (snapshot : SnapshotManifest) (root_id : string) : result (list (string * FileRecord)) string :=
  let files entries := bmap_of_list (List.filter (λ x : string * FileRecord, negb (fr_kind x.2 =? "directory")%string) entries) in
  match bmap_get (sm_roots snapshot) root_id with
  | Some records => Ok (files (map (λ r, (fr_path r, r)) records))
  | None =>
    match bmap_get (sm_root_trees snapshot) root_id with
    | None => Ok []
    | Some root_tree => let? entries := load_root_tree_entries root_tree in Ok (files entries)
    end
  end.

Definition durable_event_covered_by_snapshot (event : EventJournalRecord) (snapshot : SnapshotManifest) : result bool string :=
  match ej_root_id event, ej_path event with
  | Some root_id, Some rel_path =>
    let? files := snapshot_root_file_map snapshot root_id in
    if bool_decide (ej_durable_tombstone event = Some true) then Ok (bool_decide (bmap_get files rel_path = None)) else
    match bmap_get files rel_path with
    | None => Ok false
    | Some record => Ok (durable_event_matches_snapshot_record event record)
    end
  | _, _ => Ok (ej_observed_at event <=? sm_timestamp snapshot)
  end.

Definition compact_event_journal_trust_snapshot_finish : bool :=
  match jn_strict jenv with
  | Some value => existsb (String.eqb value) ["0"; "false"; "FALSE"; "no"; "NO"]
  | None => true
  end.

Definition event_removable_after_snapshot (event : EventJournalRecord) (compact_before last_snapshot_finish : option DateTime)
    (current : option SnapshotManifest) : bool :=
  if is_snapshot_finish event || negb (is_pending_trigger event) then
    match compact_before with Some cutoff => ej_observed_at event <? cutoff | None => false end
  else match last_snapshot_finish with
  | None => false
  | Some finish =>
    if finish <=? ej_observed_at event then false
    else if bool_decide (ej_remote_journal_synced_at event = None) then false
    else if compact_event_journal_trust_snapshot_finish then true
    else match current with
         | None => false
         | Some current => match durable_event_covered_by_snapshot event current with Ok b => b | Err _ => false end
         end
  end.

Record EventJournalStats := {
  es_total : nat;
  es_pending : nat;
  es_processed : nat;
  es_removable : nat;
  es_oldest : option DateTime;
  es_newest : option DateTime;
  es_last_snapshot_finish : option DateTime;
  es_compact_before : option DateTime;
}.

Definition event_journal_stats_from_records (records : list EventJournalRecord) (current : option SnapshotManifest) : EventJournalStats :=
  let finishes := snapshot_finishes records in
  let last_snapshot_finish := max_time finishes in
  let compact_before := previous_snapshot_finish finishes in
  let pending := length (List.filter (λ e, is_pending_trigger e &&
       match last_snapshot_finish with Some f => f <? ej_observed_at e | None => true end) records) in
  {| es_total := length records;
     es_pending := pending;
     es_processed := (length records - pending)%nat;
     es_oldest := min_time (map ej_observed_at records);
     es_newest := max_time (map ej_observed_at records);
     es_removable := length (List.filter (λ e, event_removable_after_snapshot e compact_before last_snapshot_finish current) records);
     es_last_snapshot_finish := last_snapshot_finish;
     es_compact_before := compact_before |}.

Record EventJournalCompactResult := { ec_total : nat; ec_pending : nat; ec_removable : nat; ec_removed : nat }.

Fixpoint compact_loop (removable : EventJournalRecord → bool) (dry_run : bool) (names : list string) (removed : nat) : fs_m nat :=
  match names with
  | [] => stm_ret removed
  | name :: rest =>
    if negb (bool_decide (name_extension name = Some "json")) then compact_loop removable dry_run rest removed else
    let path := fs_join event_queue name in
    λ s, match fs_read path s with
         | (Done bytes, s') =>
           match json_from_slice bytes with
           | None => (Fails "parse event", s')
           | Some event =>
             if negb (removable event) then compact_loop removable dry_run rest removed s'
             else if dry_run then compact_loop removable dry_run rest (S removed) s'
             else match fs_remove_file path s' with
                  | (Done _, s2) => compact_loop removable dry_run rest (S removed) s2
                  | (Fails e, s2) => if (e =? "NotFound")%string then compact_loop removable dry_run rest removed s2 else (Fails e, s2)
                  | (Panics, s2) => (Panics, s2)
                  end
           end
         | (Fails e, s') => if (e =? "NotFound")%string then compact_loop removable dry_run rest removed s' else (Fails e, s')
         | (Panics, s') => (Panics, s')
         end
  end.

Definition compact_event_journal_inner (force dry_run : bool) : journal_m EventJournalCompactResult :=
  let* there := in_fs (fs_exists event_queue) in
  if negb there then stm_ret (Build_EventJournalCompactResult 0 0 0 0) else
  let* records := event_journal_records in
  let* current := stm_ok current_snapshot_for_event_compact in
  let stats := event_journal_stats_from_records records current in
  let outcome removed := Build_EventJournalCompactResult (es_total stats) (es_pending stats) (es_removable stats) removed in
  let min_records := default 1024%nat (jn_min_records jenv ≫= parse_usize) in
  if negb force && (length records <=? min_records)%nat then stm_ret (outcome 0%nat) else
  match es_last_snapshot_finish stats with
  | None => stm_ret (outcome 0%nat)
  | Some last_snapshot_finish =>
    let* _ := in_fs (fs_sys (stm_ret tt)) in
    let* names := in_fs (stm_get (dir_files event_queue)) in
    let* removed := in_fs (compact_loop
      (λ event, event_removable_after_snapshot event (es_compact_before stats) (Some last_snapshot_finish) current)
      dry_run names 0) in
    stm_ret (outcome removed)
  end.
Definition compact_event_journal_force : journal_m nat :=
  let* result := compact_event_journal_inner true false in stm_ret (ec_removed result).
End Journal.
