(* ===== verification/EventJournalSafety.v ===== *)
(** * The event journal forgets nothing

    Compaction of the journal keeps what is still needed, and whatever sequence of journal
    operations runs and whatever fails, a recorded change of a file stays in the local journal
    until the remote has it with its payload. *)

From S2P Require Import Prelude RStr BTree MachInt Core Util Store Db RemoteObjects AtomicIo FileRemote Queue QueueSafety QueueEnqueue EventJournal.

Local Open Scope Z_scope.

Abbreviation Files := (gmap FsPath (list Z)).

(** What is relied on: JSON is never empty and is read back; the random part of a temporary
    name holds no dot; an event is enriched by facts on its payload only, and the files of the
    journal and the objects on the remote stay. *)
Class JournalLaws `{!Serde EventJournalRecord, !RemotePut, !JournalSource QueueWorld} (env : QueueEnv) : Prop := {
  jl_json (e : EventJournalRecord) : json_from_slice (json_to_vec_pretty e) = Some e ∧ json_to_vec_pretty e ≠ [];
  jl_uuid n : contains_char (qn_uuid env n) "." = false;
  jl_enrich e w e' w' : enrich_remote_event_journal_payload e w = (Done e', w') →
    ej_event_id e' = ej_event_id e ∧ ej_kind e' = ej_kind e ∧ ej_observed_at e' = ej_observed_at e ∧
    ej_root_id e' = ej_root_id e ∧ ej_path e' = ej_path e ∧
    ej_remote_journal_key e' = ej_remote_journal_key e ∧ ej_remote_journal_synced_at e' = ej_remote_journal_synced_at e;
  jl_enrich_files e w n :
    fs_files (qw_fs (enrich_remote_event_journal_payload e w).2) !! fs_join (event_queue env) n =
    fs_files (qw_fs w) !! fs_join (event_queue env) n;
  jl_enrich_remote e w k : rp_present (qw_remote w) k →
    rp_present (qw_remote (enrich_remote_event_journal_payload e w).2) k;
}.

Section Safety.
Context `{B3 : !Blake3Text, SU : !Serde UploadQueueItem, SE : !Serde EventJournalRecord, RP : !RemotePut, RL : !RemotePutLaws,
          JS : !JournalSource QueueWorld}.
Context (env : QueueEnv) (jenv : JournalEnv) {JL : JournalLaws env}.

Abbreviation files w := (fs_files (qw_fs w)).
Abbreviation queue_dir := (event_queue env).

(** ** What the journal holds *)

Definition event_in (f : Files) (e : EventJournalRecord) : Prop :=
  name_extension (ej_event_id e +:+ ".json") = Some "json" ∧
  ∃ b, f !! event_path env (ej_event_id e) = Some b ∧ json_from_slice b = Some e.

(** Every file of the journal is an event under its own name. *)
Definition journal_wf (f : Files) : Prop := ∀ n b,
  f !! fs_join queue_dir n = Some b → name_extension n = Some "json" →
  ∃ e, b ≠ [] ∧ json_from_slice b = Some e ∧ n = ej_event_id e +:+ ".json" ∧ is_atomic_temp_name n = false.

(** The files of the journal are the same. *)
Definition same_journal (f f' : Files) : Prop := ∀ n,
  name_extension n = Some "json" → f' !! fs_join queue_dir n = f !! fs_join queue_dir n.
#[local] Instance same_journal_equivalence : Equivalence same_journal.
Proof.
  split; [by intros f n|intros f g H n Hn; by rewrite H|]. intros f g h H1 H2 n Hn. by rewrite H2, H1.
Qed.

Lemma event_path_inj id id' : event_path env id = event_path env id' → id = id'.
Proof. intros [_ Heq]%fs_join_inj. by eapply str_app_inj_r. Qed.

Lemma same_journal_wf f f' : same_journal f f' → journal_wf f → journal_wf f'.
Proof. intros Hs Hwf n b Hb Hn. rewrite Hs in Hb by done. by apply Hwf. Qed.
Lemma same_journal_event f f' e : same_journal f f' → event_in f e ↔ event_in f' e.
Proof.
  intros Hs. assert (∀ f f', same_journal f f' → event_in f e → event_in f' e) as Hgo; [|by split; apply Hgo].
  intros g g' Hg [Hn (b & Hb & He)]. split; [done|]. exists b. split; [|done]. unfold event_path in *. by rewrite Hg.
Qed.
(** The events of the journal are what its files hold. *)
Lemma event_in_file f e n b : journal_wf f → f !! fs_join queue_dir n = Some b → name_extension n = Some "json" →
  json_from_slice b = Some e → event_in f e ∧ n = ej_event_id e +:+ ".json".
Proof.
  intros Hwf Hb Hn He. destruct (Hwf n b Hb Hn) as (e' & _ & He' & -> & _). assert (e' = e) as -> by congruence.
  split; [|done]. split; [done|]. by exists b.
Qed.
Lemma event_in_unique f e e' : event_in f e → event_in f e' → ej_event_id e = ej_event_id e' → e = e'.
Proof. intros [_ (b & Hb & He)] [_ (b' & Hb' & He')] Hid. rewrite Hid in Hb. congruence. Qed.

Lemma cleaned_same_journal f f' : journal_wf f → cleaned queue_dir f f' → same_journal f f'.
Proof.
  intros Hwf [Hsub Hsame] n Hn. destruct (f !! fs_join queue_dir n) as [b|] eqn:Hb.
  - destruct (Hwf n b Hb Hn) as (e & _ & _ & _ & Ht). rewrite Hsame, Hb; [done|].
    intros m [_ <-]%fs_join_inj. done.
  - destruct (f' !! _) eqn:Hb'; [|done]. pose proof (lookup_weaken _ _ _ _ Hb' Hsub). congruence.
Qed.

(** ** Reading *)

Lemma read_events_run names s r s' :
  journal_wf (fs_files s) → (∀ n, n ∈ names → is_Some (fs_files s !! fs_join queue_dir n)) →
  read_events env names s = (r, s') → fs_files s' = fs_files s ∧
  ∀ records, r = Done records → ∀ e, e ∈ records ↔ event_in (fs_files s) e ∧ ej_event_id e +:+ ".json" ∈ names.
Proof.
  revert s r s'; induction names as [|name names IH]; intros s r s' Hwf Hall; cbn [read_events].
  { intros [= <- <-]. split; [done|]. intros records [= <-] e. set_solver. }
  assert (Hrest : ∀ n, n ∈ names → is_Some (fs_files s !! fs_join queue_dir n)) by (intros; apply Hall; by right).
  case_bool_decide as Hext; cbn [negb].
  2: { intros Hrun. apply IH in Hrun as [Hf Hrec]; [|done..]. split; [done|]. intros records -> e.
       rewrite (Hrec records eq_refl), elem_of_cons. split; [tauto|]. intros [He [Heq|?]]; [|done].
       destruct He as [Hn _]. by rewrite Heq in Hn. }
  destruct (Hall name) as [bytes Hbytes]; [by left|]. destruct (fs_read _ s) as [ra sa] eqn:Ha.
  apply (fs_read_found _ bytes) in Ha as (l & -> & [->| ->]); [| |done]; [|by intros [= <- <-]].
  destruct (Hwf name bytes Hbytes Hext) as (e0 & Hne & He0 & Hname & _). destruct bytes as [|z zs]; [done|]. rewrite He0.
  unfold stm_bind. destruct (read_events env names _) as [rb sb] eqn:Hb. apply IH in Hb as [Hf Hrec]; [|done..]. simpl in Hf.
  destruct rb as [records'|e|]; intros [= <- <-]; (split; [done|]); [|done..]. intros records [= <-] e.
  destruct (event_in_file _ e0 _ _ Hwf Hbytes Hext He0) as [He0in _].
  rewrite elem_of_cons, (Hrec records' eq_refl). simpl. split.
  - intros [->|[? ?]]; (split; [done|]); [rewrite Hname; left|by right].
  - intros [He [Heq|?]%elem_of_cons]; [left|by right]. apply (event_in_unique (fs_files s)); [done..|].
    rewrite Hname in Heq. by eapply str_app_inj_r.
Qed.

Lemma sort_events_perm l : sort_events l ≡ₚ l.
Proof.
  induction l as [|x l IH]; simpl; [done|]. rewrite <-IH at 2. generalize (sort_events l). clear.
  intros l. induction l as [|y l IH]; simpl; [done|]. destruct (_ <=? _); [done|]. rewrite IH. by constructor.
Qed.

(** Reading the journal: its files stay, and the result is all of it, or nothing. *)
Lemma event_journal_records_run w r w' :
  journal_wf (files w) → event_journal_records env w = (r, w') →
  same_journal (files w) (files w') ∧ qw_remote w' = qw_remote w ∧
  ∀ records, r = Done records → records = [] ∨ ∀ e, e ∈ records ↔ event_in (files w) e.
Proof.
  intros Hwf. unfold event_journal_records. unfold stm_bind at 1, in_fs at 1.
  destruct (fs_exists _ _) as [ra sa] eqn:Ha. apply fs_exists_run in Ha as (la & b & -> & -> & _).
  destruct b; cbn [negb]; [|intros [= <- <-]; split; [done|]; split; [done|]; intros ? [= <-]; by left].
  unfold stm_bind at 1, in_fs at 1. destruct (cleanup_stale_atomic_temps _ _ _) as [rb sb] eqn:Hb.
  pose proof (cleanup_cleaned (qn_stale env) queue_dir (fs_with_faults (qw_fs w) la)) as Hcl. cbn [qw_fs qw_with_fs] in Hb. rewrite Hb in Hcl.
  cbn [snd fs_files fs_with_faults] in Hcl. pose proof (cleaned_same_journal _ _ Hwf Hcl) as Hs.
  destruct rb as [k|e|]; [|intros [= <- <-]; split; [done|]; by split..].
  unfold stm_bind at 1, in_fs at 1. destruct (fs_sys (A := unit) _ _) as [rc sc] eqn:Hc.
  apply fs_sys_inv in Hc as (lc & [(-> & ->)|[= <- <-]]); [intros [= <- <-]; split; [done|]; by split|].
  unfold stm_bind, in_fs, stm_get. cbn [qw_fs qw_with_fs].
  destruct (read_events _ _ _) as [rd sd] eqn:Hd. apply read_events_run in Hd as [Hfd Hrec];
    [|by eapply same_journal_wf|intros n; by rewrite elem_of_dir_files]. simpl in Hfd.
  destruct rd as [records|e|]; intros [= <- <-]; (split; [simpl; by rewrite Hfd|]; split; [done|]); [|done..].
  intros ? [= <-]. right. intros e. rewrite sort_events_perm, (Hrec records eq_refl), elem_of_dir_files. simpl.
  rewrite <-(same_journal_event _ _ e Hs). split; [tauto|]. intros He. split; [done|].
  apply (same_journal_event _ _ e Hs) in He as [_ (b & Hb' & _)]. by exists b.
Qed.

(** ** Compaction *)

(** Files of events in [P] have gone, and nothing else has changed. *)
Definition thinned (P : EventJournalRecord → Prop) (f f' : Files) : Prop := ∀ q,
  f' !! q = f !! q ∨
  f' !! q = None ∧ ∃ n b e, q = fs_join queue_dir n ∧ name_extension n = Some "json" ∧ f !! q = Some b ∧
    json_from_slice b = Some e ∧ P e.
#[local] Instance thinned_preorder P : PreOrder (thinned P).
Proof.
  split; [by left|]. intros f g h H1 H2 q. destruct (H2 q) as [Hq|[Hq (n & b & e & Hn & He & Hb & Hj & HP)]].
  - destruct (H1 q) as [Hq'|[Hq' Hx]]; [left; congruence|]. right. split; [congruence|done].
  - destruct (H1 q) as [Hq'|[Hq' _]]; [|congruence]. right. split; [done|]. exists n, b, e. by rewrite <-Hq'.
Qed.
Lemma thinned_delete (P : EventJournalRecord → Prop) (f : Files) n b e :
  name_extension n = Some "json" → f !! fs_join queue_dir n = Some b → json_from_slice b = Some e → P e →
  thinned P f (delete (fs_join queue_dir n) f).
Proof.
  intros Hn Hb He HP q. destruct (decide (q = fs_join queue_dir n)) as [->|Hq].
  - right. split; [apply lookup_delete_eq|]. by exists n, b, e.
  - left. by apply lookup_delete_ne.
Qed.

Lemma thinned_wf P f f' : thinned P f f' → journal_wf f → journal_wf f'.
Proof.
  intros Ht Hwf n b Hb. destruct (Ht (fs_join queue_dir n)) as [Hq|[Hq _]]; [|congruence]. apply Hwf. congruence.
Qed.
Lemma thinned_event P f f' e : thinned P f f' →
  (event_in f' e → event_in f e) ∧ (event_in f e → event_in f' e ∨ P e).
Proof.
  intros Ht. destruct (Ht (event_path env (ej_event_id e))) as [Hq|[Hq (n & b & e' & _ & _ & Hb & He' & HP)]].
  - split; [intros [Hn (b & Hb & He)]|intros [Hn (b & Hb & He)]; left]; (split; [done|]); exists b; (split; [congruence|done]).
  - split; [intros [_ (b' & Hb' & _)]; congruence|]. intros [_ (b' & Hb' & He)]. right. congruence.
Qed.

Lemma compact_loop_run removable dry_run names removed s :
  thinned (λ e, dry_run = false ∧ removable e = true) (fs_files s)
    (fs_files (compact_loop env removable dry_run names removed s).2).
Proof.
  revert removed s; induction names as [|name names IH]; intros removed s; cbn [compact_loop]; [reflexivity|].
  case_bool_decide as Hext; cbn [negb]; [|apply IH].
  destruct (fs_read _ s) as [ra sa] eqn:Ha. apply fs_read_run in Ha as (l & -> & [(e & ->)|(b & -> & Hb)]).
  { destruct (e =? "NotFound")%string; [|reflexivity]. apply (IH removed (fs_with_faults s l)). }
  destruct (json_from_slice b) as [event|] eqn:Hj; [|reflexivity].
  destruct (removable event) eqn:Hr; cbn [negb]; [|apply (IH removed (fs_with_faults s l))].
  destruct dry_run; [apply (IH (S removed) (fs_with_faults s l))|].
  destruct (fs_remove_file _ _) as [rb sb] eqn:Hrm.
  apply fs_remove_file_run in Hrm as (_ & [(-> & _ & Hf)|((e & -> & _) & Hf)]); simpl in Hf.
  - etrans; [|apply IH]. rewrite Hf. by eapply thinned_delete.
  - destruct (e =? "NotFound")%string; [etrans; [|apply IH]|simpl]; by rewrite Hf.
Qed.

Lemma elem_of_sort_times l t : t ∈ sort_times l ↔ t ∈ l.
Proof.
  induction l as [|x l IH]; simpl; [done|]. rewrite elem_of_cons, <-IH. generalize (sort_times l). clear.
  intros l. induction l as [|y l IH]; simpl; [set_solver|].
  destruct (Z.compare_spec x y) as [->|?|?]; rewrite ?elem_of_cons, ?IH; tauto.
Qed.
Lemma sort_times_sorted l : StronglySorted Z.lt (sort_times l).
Proof.
  induction l as [|x l IH]; simpl; [constructor|]. revert IH. generalize (sort_times l). clear.
  intros l. induction l as [|y l IH]; simpl; intros Hs; [repeat constructor|].
  pose proof Hs as Hs'. apply StronglySorted_cons in Hs as [Hy Hs].
  destruct (Z.compare_spec x y) as [->|?|?]; [done| |].
  - constructor; [done|]. constructor; [done|]. eapply Forall_impl; [exact Hy|]. simpl. lia.
  - constructor; [by apply IH|]. rewrite Forall_forall in *. intros z Hz.
    assert (z = x ∨ z ∈ l) as [->|?]; [|lia|by apply Hy].
    clear -Hz. induction l as [|u l IH]; simpl in Hz; [set_solver|].
    destruct (Z.compare_spec x u) as [->|?|?]; set_solver.
Qed.
(** There is a later finish than the previous one. *)
Lemma previous_before finishes c : previous_snapshot_finish finishes = Some c → ∃ t, t ∈ finishes ∧ c < t.
Proof.
  unfold previous_snapshot_finish. intros Hc. destruct (rev (sort_times finishes)) as [|t [|c' rest]] eqn:E; try done.
  injection Hc as ->. apply (f_equal (rev (A := DateTime))) in E. rewrite rev_involutive in E. simpl in E.
  pose proof (sort_times_sorted finishes) as Hs. exists t. split.
  - apply elem_of_sort_times. rewrite E. set_solver.
  - rewrite E, <-app_assoc in Hs. apply StronglySorted_app in Hs as (_ & _ & Hs).
    apply StronglySorted_cons in Hs as [Hs _]. by apply Forall_cons_1 in Hs as [? _].
Qed.

(** What the code knows when it removes something: all events, and the last finish. *)
Record compacting (f : Files) (dry_run : bool) (e : EventJournalRecord) : Prop := {
  cp_real : dry_run = false;
  cp_known : ∃ records current finish, (∀ e, e ∈ records ↔ event_in f e) ∧
    current_snapshot_for_event_compact = Ok current ∧ max_time (snapshot_finishes records) = Some finish ∧
    event_removable_after_snapshot jenv e (previous_snapshot_finish (snapshot_finishes records)) (Some finish) current = true;
}.

Lemma journal_compact_run force dry_run w r w' :
  journal_wf (files w) → compact_event_journal_inner env jenv force dry_run w = (r, w') →
  qw_remote w' = qw_remote w ∧
  ∃ f, same_journal (files w) f ∧ thinned (compacting (files w) dry_run) f (files w').
Proof.
  intros Hwf. unfold compact_event_journal_inner. unfold stm_bind at 1, in_fs at 1.
  destruct (fs_exists _ _) as [ra sa] eqn:Ha. apply fs_exists_run in Ha as (la & b & -> & -> & _).
  destruct b; cbn [negb]; [|intros [= <- <-]; split; [done|]; by exists (files w)].
  unfold stm_bind at 1. destruct (event_journal_records _ _) as [rb wb] eqn:Hb.
  apply event_journal_records_run in Hb as (Hs & Hrem & Hrec); [|done]. simpl in Hs, Hrem, Hrec.
  assert (qw_remote wb = qw_remote w ∧
    ∃ f, same_journal (files w) f ∧ thinned (compacting (files w) dry_run) f (files wb)) as Hstop.
  { split; [done|]. by exists (files wb). }
  destruct rb as [records|e|]; [|intros [= <- <-]; exact Hstop..].
  unfold stm_bind at 1, stm_ok, stm_lift. destruct current_snapshot_for_event_compact as [current|e] eqn:Hcur; simpl;
    [|intros [= <- <-]; exact Hstop].
  destruct (_ && _); [intros [= <- <-]; exact Hstop|].
  destruct (max_time (snapshot_finishes records)) as [finish|] eqn:Hmax; [|intros [= <- <-]; exact Hstop].
  unfold stm_bind at 1, in_fs at 1. destruct (fs_sys (A := unit) _ _) as [rc sc] eqn:Hc.
  apply fs_sys_inv in Hc as (lc & [(-> & ->)|[= <- <-]]); [intros [= <- <-]; exact Hstop|].
  unfold stm_bind, in_fs, stm_get. cbn [qw_fs qw_with_fs].
  match goal with |- context [compact_loop env ?P ?d ?n ?k ?s0] => pose proof (compact_loop_run P d n k s0) as Ht end.
  destruct (compact_loop _ _ _ _ _ _) as [rd sd]. simpl in Ht. intros Hrun.
  assert (qw_remote w' = qw_remote wb ∧ files w' = fs_files sd) as [-> ->] by (by destruct rd; injection Hrun as <- <-).
  split; [done|]. exists (files wb). split; [done|]. intros q.
  destruct (Ht q) as [?|[? (n & b & e & ? & ? & ? & ? & Hd & Hr)]]; [by left|right]. split; [done|].
  exists n, b, e. split_and!; [done..|]. split; [done|]. exists records, current, finish.
  split_and!; [|done..]. destruct (Hrec records eq_refl) as [->|?]; [done|done].
Qed.

Lemma elem_of_finishes records t :
  t ∈ snapshot_finishes records ↔ ∃ g, g ∈ records ∧ is_snapshot_finish g = true ∧ t = ej_observed_at g.
Proof. unfold snapshot_finishes. rewrite list_elem_of_fmap. setoid_rewrite list_elem_of_filter. naive_solver. Qed.

(** The last finish of the journal. *)
Definition last_finish (f : Files) (g : EventJournalRecord) : Prop :=
  event_in f g ∧ is_snapshot_finish g = true ∧
  ∀ h, event_in f h → is_snapshot_finish h = true → ej_observed_at h <= ej_observed_at g.

Lemma max_finish f records finish :
  (∀ e, e ∈ records ↔ event_in f e) → max_time (snapshot_finishes records) = Some finish →
  ∃ g, last_finish f g ∧ finish = ej_observed_at g.
Proof.
  intros Hrec Hmax. pose proof (max_time_spec (snapshot_finishes records)) as Hspec. rewrite Hmax in Hspec.
  destruct Hspec as [(g & Hg & Hgf & ->)%elem_of_finishes Hle]. exists g. split; [|done]. split; [by apply Hrec|].
  split; [done|]. intros h Hh Hhf. apply Hle, elem_of_finishes. exists h. by rewrite Hrec.
Qed.

Lemma trigger_not_finish e : is_pending_trigger e = true → is_snapshot_finish e = false.
Proof.
  unfold is_pending_trigger, is_snapshot_finish. simpl. intros [Hk%String.eqb_eq|[Hk%String.eqb_eq|?]%orb_true_iff]%orb_true_iff; [by rewrite Hk..|done].
Qed.

(** What is removed is older than a finish that stays, and a change is removed only when the
    remote has acknowledged it. *)
Definition superseded (e : EventJournalRecord) : Prop :=
  ej_remote_journal_synced_at e ≠ None ∧
  (compact_event_journal_trust_snapshot_finish jenv = true ∨
   ∃ snapshot, current_snapshot_for_event_compact = Ok (Some snapshot) ∧ durable_event_covered_by_snapshot e snapshot = Ok true).

Lemma compacting_facts f dry_run e : compacting f dry_run e →
  (∃ g, last_finish f g ∧ ej_observed_at e < ej_observed_at g) ∧ (is_pending_trigger e = true → superseded e).
Proof.
  intros [_ (records & current & finish & Hrec & Hcur & Hmax & Hr)].
  destruct (max_finish f records finish Hrec Hmax) as (g & Hg & ->). unfold event_removable_after_snapshot in Hr.
  destruct (is_snapshot_finish e || negb (is_pending_trigger e)) eqn:Ht.
  - destruct (previous_snapshot_finish _) as [c|] eqn:Hc; [|done]. apply Z.ltb_lt in Hr.
    apply previous_before in Hc as (t & (h & Hh & Hhf & ->)%elem_of_finishes & Hlt). split.
    + exists g. split; [done|]. destruct Hg as (_ & _ & Hle). apply Hrec, Hle in Hh; [|done]. lia.
    + intros Htr. by rewrite (trigger_not_finish _ Htr), Htr in Ht.
  - destruct (Z.leb_spec (ej_observed_at g) (ej_observed_at e)); [done|]. split; [by exists g|]. intros _.
    case_bool_decide as Hsync; [done|]. split; [done|].
    destruct (compact_event_journal_trust_snapshot_finish jenv); [by left|right].
    destruct current as [snapshot|]; [|done]. exists snapshot. split; [done|].
    destruct (durable_event_covered_by_snapshot e snapshot); [by subst|done].
Qed.
Lemma last_finish_stays f dry_run g : last_finish f g → ¬ compacting f dry_run g.
Proof.
  intros (_ & Hgf & Hle) [_ (records & current & finish & Hrec & _ & _ & Hr)]. unfold event_removable_after_snapshot in Hr.
  rewrite Hgf in Hr. cbn [orb] in Hr. destruct (previous_snapshot_finish _) as [c|] eqn:Hc; [|done]. apply Z.ltb_lt in Hr.
  apply previous_before in Hc as (t & (h & Hh & Hhf & ->)%elem_of_finishes & Hlt). apply Hrec, Hle in Hh; [lia|done].
Qed.

(** A change waits for a snapshot: no snapshot was finished since. *)
Definition pending (f : Files) : Prop := ∃ e, event_in f e ∧ is_pending_trigger e = true ∧
  ∀ g, event_in f g → is_snapshot_finish g = true → ej_observed_at g < ej_observed_at e.

(** C20. Compacting the journal, whatever call fails and wherever it stops, adds nothing and
    removes only what is no longer needed: events older than a finished snapshot that stays in
    the journal, and of the changes of files only those the remote has acknowledged (and, when
    strictness is asked for, those the current snapshot covers); whether a change is waiting
    for a snapshot is the same before and after.  A dry run removes nothing. *)
Theorem compaction_keeps_what_is_needed force dry_run w r w' :
  journal_wf (files w) → compact_event_journal_inner env jenv force dry_run w = (r, w') →
  journal_wf (files w') ∧ qw_remote w' = qw_remote w ∧
  (∀ e, event_in (files w') e → event_in (files w) e) ∧
  (pending (files w) ↔ pending (files w')) ∧
  ∀ e, event_in (files w) e → event_in (files w') e ∨
    dry_run = false ∧
    (∃ g, event_in (files w') g ∧ is_snapshot_finish g = true ∧ ej_observed_at e < ej_observed_at g) ∧
    (is_pending_trigger e = true → superseded e).
Proof.
  intros Hwf Hrun. apply journal_compact_run in Hrun as (Hrem & f & Hs & Ht); [|done].
  assert (∀ e, event_in (files w') e → event_in (files w) e) as Hback.
  { intros e He. apply (same_journal_event _ _ e Hs). by apply (thinned_event _ _ _ e Ht). }
  assert (∀ e, event_in (files w) e → event_in (files w') e ∨ compacting (files w) dry_run e) as Hfwd.
  { intros e He. apply (thinned_event _ _ _ e Ht). by apply (same_journal_event _ _ e Hs). }
  assert (∀ g, last_finish (files w) g → event_in (files w') g) as Hlast.
  { intros g Hg. destruct (Hfwd g (proj1 Hg)) as [?|Hc]; [done|]. by apply last_finish_stays in Hc. }
  split; [by eapply thinned_wf, same_journal_wf|]. split; [done|]. split; [done|]. split.
  - split; intros (e & He & Htr & Hlt).
    + exists e. split; [|split; [done|auto]]. destruct (Hfwd e He) as [?|Hc]; [done|].
      apply compacting_facts in Hc as [(g & (Hg & Hgf & _) & Hge) _]. specialize (Hlt g Hg Hgf). lia.
    + exists e. split; [auto|]. split; [done|]. intros g Hg Hgf. destruct (Hfwd g Hg) as [?|Hc]; [auto|].
      apply compacting_facts in Hc as [(h & Hh & Hgh) _]. specialize (Hlt h (Hlast h Hh) (proj1 (proj2 Hh))). lia.
  - intros e He. destruct (Hfwd e He) as [?|Hc]; [by left|right]. split; [apply Hc|].
    apply compacting_facts in Hc as [(g & Hg & Hlt) Hsup]. split; [|done]. exists g. split; [by apply Hlast|].
    split; [apply Hg|done].
Qed.

(** ** The same change *)

Definition same_change (e e' : EventJournalRecord) : Prop :=
  ej_event_id e' = ej_event_id e ∧ ej_kind e' = ej_kind e ∧ ej_observed_at e' = ej_observed_at e ∧
  ej_root_id e' = ej_root_id e ∧ ej_path e' = ej_path e.
#[local] Instance same_change_equivalence : Equivalence same_change.
Proof.
  unfold same_change. split; [by intros e|intros a b (? & ? & ? & ? & ?); split_and!; congruence|].
  intros a b c (? & ? & ? & ? & ?) (? & ? & ? & ? & ?). split_and!; congruence.
Qed.
Lemma same_change_trigger e e' : same_change e e' → is_pending_trigger e' = is_pending_trigger e.
Proof. intros (_ & Hk & _). unfold is_pending_trigger. by rewrite Hk. Qed.

(** ** Writing an event *)

Definition named (e : EventJournalRecord) : Prop :=
  name_extension (ej_event_id e +:+ ".json") = Some "json" ∧ is_atomic_temp_name (ej_event_id e +:+ ".json") = false.
Lemma event_in_named f e : journal_wf f → event_in f e → named e.
Proof.
  intros Hwf [Hn (b & Hb & He)]. destruct (Hwf _ _ Hb Hn) as (e' & _ & _ & _ & Ht). by split.
Qed.

Abbreviation put_event e f := (<[event_path env (ej_event_id e) := json_to_vec_pretty e]> f).

Lemma put_event_in e f x : named e → event_in (put_event e f) x ↔ x = e ∨ (ej_event_id x ≠ ej_event_id e ∧ event_in f x).
Proof.
  intros [Hn _]. destruct (jl_json e) as [Hj _]. destruct (decide (ej_event_id x = ej_event_id e)) as [Heq|Hne].
  - split; [|intros [->|[? _]]; [|done]].
    + intros [_ (b & Hb & Hx)]. rewrite Heq, lookup_insert_eq in Hb. left. congruence.
    + split; [done|]. exists (json_to_vec_pretty e). by rewrite lookup_insert_eq.
  - unfold event_in. rewrite lookup_insert_ne by (intros ?%event_path_inj; by apply Hne). split; [by auto|].
    intros [->|[_ ?]]; done.
Qed.
Lemma put_event_wf e f : named e → journal_wf f → journal_wf (put_event e f).
Proof.
  intros [Hn Ht] Hwf n b [[Heq <-]|[_ Hb]]%lookup_insert_Some Hext; [|by apply Hwf].
  apply fs_join_inj in Heq as [_ <-]. destruct (jl_json e) as [Hj Hne]. by exists e.
Qed.

Lemma write_event_run e w r w' : write_event_record env e w = (r, w') →
  qw_remote w' = qw_remote w ∧
  (same_journal (files w) (files w') ∧ r ≠ Done tt ∨ same_journal (put_event e (files w)) (files w')).
Proof.
  unfold write_event_record, stm_bind. destruct (in_fs (fs_create_dir_all _) w) as [ra wa] eqn:Ha.
  apply in_fs_files in Ha as (sa & Ha & Hsa & Hra). apply create_dir_files in Ha as [Hfa Hr].
  destruct Hr as [-> |(x & ->)]; [|intros [= <- <-]; split; [done|]; left; by rewrite Hsa, Hfa].
  intros Hb. apply in_fs_files in Hb as (sb & Hb & Hsb & Hrb). split; [congruence|].
  apply write_atomic_with_run in Hb as (_ & Hcase); [|done]. rewrite Hsa, Hfa in Hcase. rewrite Hsb.
  destruct Hcase as [(-> & (b & [= <-] & ->))|((x & ->) & [-> |[(tmp & b & (k & ->) & _ & ->)|(b & [= <-] & ->)]])].
  - by right.
  - by left.
  - left. split; [|done]. intros n Hn. rewrite lookup_insert_ne; [done|].
    unfold event_path. rewrite fs_file_name_join, fs_parent_join. intros [_ <-]%fs_join_inj. revert Hn. apply temp_extension, jl_uuid.
  - by right.
Qed.

(** ** The invariant *)

Context (host_id : string).

Definition payload_on_remote (w : QueueWorld) (e : EventJournalRecord) : Prop :=
  let there key := rp_present (qw_remote w) (durable_payload_remote_key env host_id key) in
  match ej_durable_payload_key e, ej_durable_large_manifest_key e with
  | Some key, _ => there key
  | None, None => True
  | None, Some manifest_key => there manifest_key ∧
      ∃ manifest, read_journal_manifest manifest_key = Ok manifest ∧
        Forall (λ chunk, there (lc_object_key chunk)) (lm_chunks manifest)
  end.
(** The remote has the entry of this event, under the key made from its id, and its payload. *)
Definition on_remote (w : QueueWorld) (e : EventJournalRecord) : Prop :=
  rp_present (qw_remote w) (remote_event_journal_key host_id (ej_event_id e)) ∧ payload_on_remote w e.
(** The remote key an event carries, if any, is the one made from its id. *)
Definition keyed (e : EventJournalRecord) : Prop :=
  ej_remote_journal_key e = None ∨ ej_remote_journal_key e = Some (remote_event_journal_key host_id (ej_event_id e)).
Lemma keyed_default e : keyed e →
  default (remote_event_journal_key host_id (ej_event_id e)) (ej_remote_journal_key e) = remote_event_journal_key host_id (ej_event_id e).
Proof. by intros [-> | ->]. Qed.

Definition journal_inv (w : QueueWorld) : Prop :=
  journal_wf (files w) ∧
  ∀ e, event_in (files w) e → keyed e ∧ (ej_remote_journal_synced_at e ≠ None → on_remote w e).
(** A change is still in the journal. *)
Definition remembered (w : QueueWorld) (e : EventJournalRecord) : Prop := ∃ e', same_change e e' ∧ event_in (files w) e'.

Definition remote_grows (w w' : QueueWorld) : Prop := ∀ k, rp_present (qw_remote w) k → rp_present (qw_remote w') k.
Lemma on_remote_grows w w' e : remote_grows w w' → on_remote w e → on_remote w' e.
Proof.
  intros Hg [Hk Hp]. split; [by apply Hg|]. unfold payload_on_remote in *. repeat case_match; auto.
  destruct Hp as [? (m & ? & Hc)]. split; [auto|]. exists m. split; [done|]. eapply Forall_impl; [exact Hc|]. auto.
Qed.

(** A step that forgets nothing. *)
Definition faithful (w w' : QueueWorld) : Prop := journal_inv w →
  remote_grows w w' ∧ journal_inv w' ∧
  ∀ e, is_pending_trigger e = true → event_in (files w) e → remembered w' e.
#[local] Instance faithful_preorder : PreOrder faithful.
Proof.
  split.
  - intros w Hinv. split; [by intros k|]. split; [done|]. intros e _ He. by exists e.
  - intros w1 w2 w3 H1 H2 Hinv. destruct (H1 Hinv) as (G1 & Hinv2 & R1). destruct (H2 Hinv2) as (G2 & Hinv3 & R2).
    split; [intros k ?; by apply G2, G1|]. split; [done|].
    intros e Ht He. destruct (R1 e Ht He) as (e' & Hs & He').
    destruct (R2 e') as (e'' & Hs' & Hr); [by rewrite (same_change_trigger _ _ Hs)|done|].
    exists e''. split; [by etrans|done].
Qed.

(** The journal is left alone. *)
Definition aside (w w' : QueueWorld) : Prop := same_journal (files w) (files w') ∧ remote_grows w w'.
#[local] Instance aside_preorder : PreOrder aside.
Proof.
  split; [intros w; split; [done|by intros k]|]. intros w1 w2 w3 [S1 G1] [S2 G2]. split; [by etrans|].
  intros k ?. by apply G2, G1.
Qed.
Lemma aside_faithful w w' : aside w w' → faithful w w'.
Proof.
  intros [Hs Hg] [Hwf Hsync]. split; [done|]. split.
  - split; [by eapply same_journal_wf|]. intros e He. destruct (Hsync e) as [Hk Hr]; [by apply (same_journal_event _ _ e Hs)|].
    split; [done|]. intros Hx. eapply on_remote_grows; [done|]. by apply Hr.
  - intros e _ He. exists e. split; [done|]. by apply (same_journal_event _ _ e Hs).
Qed.

(** A new state of an event in place of the old one. *)
Lemma write_faithful e w r w' :
  named e → (∀ x, event_in (files w) x → ej_event_id x = ej_event_id e → same_change x e) →
  keyed e → (ej_remote_journal_synced_at e ≠ None → on_remote w e) → write_event_record env e w = (r, w') →
  faithful w w' ∧ ∀ x, event_in (files w') x → event_in (files w) x ∨ x = e.
Proof.
  intros Hnm Hold Hkey Hsync Hrun. apply write_event_run in Hrun as [Hrem Hcase].
  assert (remote_grows w w') as Hg by (intros k; by rewrite Hrem).
  destruct Hcase as [[Hs _]|Hs].
  { split; [by apply aside_faithful|]. intros x Hx. left. by apply (same_journal_event _ _ x Hs). }
  assert (∀ x, event_in (files w') x ↔ x = e ∨ (ej_event_id x ≠ ej_event_id e ∧ event_in (files w) x)) as Hin.
  { intros x. rewrite <-(same_journal_event _ _ x Hs). by apply put_event_in. }
  split; [|intros x Hx; apply Hin in Hx; tauto]. intros [Hwf Hsynced]. split; [done|]. split.
  - split; [by eapply same_journal_wf, put_event_wf|]. intros x [->|[_ Hx]]%Hin.
    + split; [done|]. intros Hne. eapply on_remote_grows; [done|]. auto.
    + destruct (Hsynced x Hx) as [Hk Hr]. split; [done|]. intros Hne. eapply on_remote_grows; [done|]. auto.
  - intros x _ Hx. destruct (decide (ej_event_id x = ej_event_id e)) as [Heq|Hne].
    + exists e. split; [by apply Hold|]. apply Hin. by left.
    + exists x. split; [done|]. apply Hin. by right.
Qed.

(** ** The operations *)

Lemma in_fs_aside {A} (m : fs_m A) :
  (∀ s n, fs_files (m s).2 !! fs_join queue_dir n = fs_files s !! fs_join queue_dir n) → always aside (in_fs m).
Proof.
  intros Hm w. unfold in_fs. specialize (Hm (qw_fs w)). destruct (m (qw_fs w)) as [r s]. simpl in *.
  split; [intros n _; apply Hm|by intros k].
Qed.
Lemma clock_aside {A} (source : nat → A) : always aside (clock source).
Proof. intros w. simpl. split; [reflexivity|by intros k]. Qed.
Lemma exists_aside key : always aside (in_remote (rp_exists key)).
Proof.
  intros w. unfold in_remote. pose proof (rp_exists_present key (qw_remote w)) as Hp.
  destruct (rp_exists key (qw_remote w)) as [r s]. simpl in *. split; [reflexivity|]. intros k. by rewrite Hp.
Qed.
Lemma exists_present key w w' : in_remote (rp_exists key) w = (Done true, w') → rp_present (qw_remote w') key.
Proof.
  unfold in_remote. destruct (rp_exists key (qw_remote w)) as [r s] eqn:E. intros [= -> <-]. by eapply rp_exists_true.
Qed.

Lemma all_exist_aside keys : always aside (all_exist keys).
Proof.
  induction keys as [|key keys IH]; cbn [all_exist]; [apply always_ret; apply _|].
  apply always_bind; [apply _|apply exists_aside|]. intros []; [done|apply always_ret; apply _].
Qed.
Lemma all_exist_present keys w w' : all_exist keys w = (Done true, w') → Forall (rp_present (qw_remote w')) keys.
Proof.
  revert w; induction keys as [|key keys IH]; intros w; cbn [all_exist]; [by constructor|].
  intros (there & w1 & H1 & Hrun)%stm_bind_Done. destruct there; [|done]. constructor; [|by eapply IH].
  pose proof (all_exist_aside keys w1) as [_ Hg]. rewrite Hrun in Hg. by eapply Hg, exists_present.
Qed.

Lemma durable_aside record : always aside (remote_event_payload_is_durable env host_id record).
Proof.
  unfold remote_event_payload_is_durable. destruct (ej_durable_payload_key record); [apply exists_aside|].
  destruct (ej_durable_large_manifest_key record); [|apply always_ret; apply _].
  apply always_bind; [apply _|apply exists_aside|]. intros []; [|apply always_ret; apply _].
  apply always_bind; [apply _|apply always_ok; apply _|]. intros m. apply all_exist_aside.
Qed.
Lemma durable_on_remote record w w' :
  remote_event_payload_is_durable env host_id record w = (Done true, w') → payload_on_remote w' record.
Proof.
  unfold remote_event_payload_is_durable, payload_on_remote.
  destruct (ej_durable_payload_key record) as [key|]; [apply exists_present|].
  destruct (ej_durable_large_manifest_key record) as [key|]; [|done].
  intros (there & w1 & H1 & Hrun)%stm_bind_Done. destruct there; [|done].
  apply stm_bind_Done in Hrun as (manifest & w2 & [Hm ->]%stm_ok_Done & Hrun).
  pose proof (all_exist_aside (map (λ c, durable_payload_remote_key env host_id (lc_object_key c)) (lm_chunks manifest)) w1)
    as [_ Hg]. rewrite Hrun in Hg. split; [by eapply Hg, exists_present|].
  exists manifest. split; [done|]. apply all_exist_present in Hrun. by rewrite Forall_map in Hrun.
Qed.

(** Events that were read from the journal, each the only one of its id. *)
Record current_events (records : list EventJournalRecord) (w : QueueWorld) : Prop := {
  ce_named : ∀ r, r ∈ records → named r;
  ce_key : ∀ r, r ∈ records → keyed r;
  ce_same : ∀ r x, r ∈ records → event_in (files w) x → ej_event_id x = ej_event_id r → same_change x r;
  ce_once : ∀ r r', r ∈ records → r' ∈ records → ej_event_id r = ej_event_id r' → same_change r r';
}.
Lemma current_tail r records w : current_events (r :: records) w → current_events records w.
Proof. intros [Hn Hk Hs Ho]. split; intros; [apply Hn|apply Hk|eapply Hs|eapply Ho]; try done; by right. Qed.
Lemma current_aside records w w' : aside w w' → current_events records w → current_events records w'.
Proof. intros [Hj _] [Hn Hk Hs Ho]. split; [done|done| |done]. intros r x Hr Hx. apply Hs; [done|]. by apply (same_journal_event _ _ x Hj). Qed.
Lemma current_written r records e w w' :
  current_events (r :: records) w → same_change r e → (∀ x, event_in (files w') x → event_in (files w) x ∨ x = e) →
  current_events records w'.
Proof.
  intros Hc Hre Hin. pose proof (current_tail _ _ _ Hc) as [Hn Hk Hs Ho]. split; [done|done| |done].
  intros r' x Hr' Hx Hid. destruct (Hin x Hx) as [?| ->]; [by apply Hs|]. etrans; [symmetry; exact Hre|].
  apply (ce_once _ _ Hc); [left|by right|]. destruct Hre as [<- _]. done.
Qed.
Lemma read_current records w : journal_inv w → (∀ e, e ∈ records → event_in (files w) e) → current_events records w.
Proof.
  intros [Hwf Hk] Hin. split.
  - intros r Hr. by eapply event_in_named, Hin.
  - intros r Hr. by apply Hk, Hin.
  - intros r x Hr Hx Hid. by rewrite (event_in_unique _ _ _ Hx (Hin r Hr) Hid).
  - intros r r' Hr Hr' Hid. by rewrite (event_in_unique _ _ _ (Hin r Hr) (Hin r' Hr') Hid).
Qed.

Lemma acknowledge_events_faithful records n w r w' :
  current_events records w → acknowledge_events env host_id records n w = (r, w') → faithful w w'.
Proof.
  revert n w; induction records as [|record records IH]; intros n w Hc; cbn [acknowledge_events].
  { intros [= _ <-]. reflexivity. }
  rewrite (keyed_default record) by (apply (ce_key _ _ Hc); by left).
  set (key := remote_event_journal_key _ _). unfold stm_bind at 1. destruct (in_remote (rp_exists key) w) as [ra wa] eqn:Ha.
  pose proof (exists_aside key w) as Ga. rewrite Ha in Ga. simpl in Ga.
  destruct ra as [there|e|]; [|intros [= _ <-]; by apply aside_faithful..].
  unfold stm_bind at 1. set (check := if there then remote_event_payload_is_durable env host_id record else stm_ret false).
  destruct (check wa) as [rb wb] eqn:Hb. unfold check in Hb. clear check.
  assert (aside wa wb) as Gb.
  { destruct there; [|injection Hb as _ <-; reflexivity]. pose proof (durable_aside record wa) as G. by rewrite Hb in G. }
  assert (aside w wb) as Gw by (by etrans).
  destruct rb as [durable|e|]; [|intros [= _ <-]; by apply aside_faithful..].
  pose proof (current_aside _ _ _ Gw Hc) as Hcb. destruct durable; intros Hrun.
  2: { etrans; [by apply aside_faithful|]. eapply IH, Hrun. by eapply current_tail. }
  destruct there; [|done]. unfold stm_bind at 1, clock in Hrun. cbn beta iota in Hrun.
  set (wc := {| qw_fs := qw_fs wb |}) in Hrun. set (new := with_remote_key _ _ _) in Hrun.
  assert (aside w wc) as Gc by (etrans; [exact Gw|]; split; [reflexivity|by intros k]).
  unfold stm_bind at 1 in Hrun. destruct (write_event_record env new wc) as [rd wd] eqn:Hd.
  destruct (write_faithful new wc rd wd) as [Hf Hin]; [|..|exact Hd|].
  - destruct (ce_named _ _ Hc record) as [? ?]; [by left|by split].
  - intros x Hx Hid. change (same_change x record). apply (ce_same _ _ (current_aside _ _ _ Gc Hc) record x); [by left|done|done].
  - by right.
  - intros _. split.
    + change (qw_remote wc) with (qw_remote wb). apply Gb. by eapply exists_present.
    + exact (durable_on_remote record wa wb Hb).
  - etrans; [by apply aside_faithful|]. destruct rd as [[]|e|]; [|by injection Hrun as _ <-..].
    etrans; [exact Hf|]. eapply IH, Hrun. eapply current_written; [by eapply current_aside| |exact Hin]. done.
Qed.

(** The upload queue has directories of its own. *)
Lemma other_dirs : upload_queue env ≠ queue_dir ∧ upload_payload_dir env ≠ queue_dir.
Proof. rewrite payload_dir_eq. unfold upload_queue, event_queue. split; by intros [_ ?]%fs_join_inj. Qed.

Lemma elsewhere_write dir name b s n : dir ≠ queue_dir →
  fs_files (write_atomic (qn_uuid env) (fs_join dir name) b s).2 !! fs_join queue_dir n = fs_files s !! fs_join queue_dir n.
Proof.
  intros Hd. destruct (write_atomic _ _ b s) as [r s'] eqn:Hrun. simpl. apply write_atomic_with_run in Hrun as (_ & Hcase); [|done].
  assert (∀ m x, (<[fs_join dir m := x]> (fs_files s)) !! fs_join queue_dir n = fs_files s !! fs_join queue_dir n) as Hput.
  { intros m x. apply lookup_insert_ne. by intros [? _]%fs_join_inj. }
  destruct Hcase as [(_ & (x & _ & ->))|(_ & [-> |[(tmp & x & (k & ->) & _ & ->)|(x & _ & ->)]])]; try done.
  rewrite fs_file_name_join, fs_parent_join. apply Hput.
Qed.

Lemma upload_aside key bytes : always aside (enqueue_inline_upload_overwrite env key bytes).
Proof.
  destruct other_dirs as [Hq Hp].
  assert (∀ d s n, fs_files (fs_create_dir_all d s).2 !! fs_join queue_dir n = fs_files s !! fs_join queue_dir n) as Hmk.
  { intros d s n. destruct (fs_create_dir_all d s) as [r s'] eqn:E. simpl. by apply create_dir_files in E as [-> _]. }
  unfold enqueue_inline_upload_overwrite, enqueue_inline_upload_with_overwrite, write_upload_item.
  apply always_bind; [apply _|by apply in_fs_aside|intros _]. apply always_bind; [apply _| |intros _].
  { apply in_fs_aside. intros s n. destruct (fs_write _ _ s) as [r s'] eqn:E. apply fs_write_run in E as [Ho _].
    apply Ho. by intros [? _]%fs_join_inj. }
  apply always_bind; [apply _| |intros _].
  { apply in_fs_aside. intros s n. destruct (fs_rename _ _ s) as [r s'] eqn:E. unfold fs_rename in E.
    apply fs_sys_inv in E as (l & [(_ & ->)|E]); [done|]. simpl in E. destruct (bool_decide _); [by injection E as _ <-|].
    destruct (fs_files s !! _); [|by injection E as _ <-]. injection E as _ <-. simpl. unfold upload_payload_path.
    rewrite lookup_insert_ne, lookup_delete_ne; [done|by intros [? _]%fs_join_inj..]. }
  apply always_bind; [apply _|apply clock_aside|intros now]. apply always_bind; [apply _|by apply in_fs_aside|intros _].
  apply always_bind; [apply _| |intros there; apply always_bind; [apply _| |intros item]].
  - apply in_fs_aside. intros s n. destruct (fs_exists _ s) as [r s'] eqn:E. by apply fs_exists_run in E as (l & b & _ & -> & _).
  - destruct there; [|apply always_ret; apply _]. apply always_bind; [apply _| |intros b; apply always_ret; apply _].
    apply in_fs_aside. intros s n. unfold try_option. rewrite stm_or_state. unfold stm_bind.
    destruct (fs_read _ s) as [r s'] eqn:E. apply fs_read_run in E as (l & -> & _). by destruct r.
  - apply in_fs_aside. intros s n. by apply elsewhere_write.
Qed.

Lemma enqueue_events_faithful records n w r w' :
  Forall (λ r, ej_remote_journal_synced_at r = None) records → current_events records w →
  enqueue_events env host_id records n w = (r, w') → faithful w w'.
Proof.
  revert n w; induction records as [|record records IH]; intros n w Hp Hc; cbn [enqueue_events].
  { intros [= _ <-]. reflexivity. }
  apply Forall_cons_1 in Hp as [Hsync Hp]. set (key := remote_event_journal_key _ _). set (keyed := with_remote_key _ _ _).
  pose proof (jl_enrich_files keyed w) as Ff. pose proof (jl_enrich_remote keyed w) as Fr.
  destruct (enrich_remote_event_journal_payload keyed w) as [ra wa] eqn:Ha. simpl in Ff, Fr.
  assert (aside w wa) as Ga by (split; [intros m _; apply Ff|done]).
  destruct ra as [new|e|]; [|intros Hrun; etrans; [by apply aside_faithful|]; eapply IH, Hrun;
    [done|by eapply current_aside, current_tail]|intros [= _ <-]; by apply aside_faithful].
  apply jl_enrich in Ha as (Hid & Hkind & Hobs & Hroot & Hpath & Hkey & Hs). unfold stm_bind at 1.
  destruct (enqueue_inline_upload_overwrite env key _ wa) as [rb wb] eqn:Hb.
  pose proof (upload_aside key (json_to_vec_pretty new) wa) as Gb. rewrite Hb in Gb. simpl in Gb.
  assert (aside w wb) as Gw by (by etrans). destruct rb as [[]|e|]; [|intros [= _ <-]; by apply aside_faithful..].
  unfold stm_bind at 1. destruct (write_event_record env new wb) as [rd wd] eqn:Hd.
  assert (same_change record new) as Hsame by (by split_and!).
  destruct (write_faithful new wb rd wd) as [Hf Hin]; [|..|exact Hd|].
  - destruct (ce_named _ _ Hc record) as [? ?]; [by left|]. unfold named. by rewrite Hid.
  - intros x Hx Hxid. etrans; [|exact Hsame]. apply (ce_same _ _ (current_aside _ _ _ Gw Hc) record x); [by left|done|].
    by rewrite Hxid, Hid.
  - right. by rewrite Hkey, Hid.
  - rewrite Hs. simpl. by rewrite Hsync.
  - intros Hrun. etrans; [by apply aside_faithful|]. destruct rd as [[]|e|]; [|by injection Hrun as _ <-..].
    etrans; [exact Hf|]. eapply IH, Hrun; [done|]. eapply current_written; [by eapply current_aside|exact Hsame|exact Hin].
Qed.

(** Reading first, then a loop over some of the events. *)
Lemma after_reading {A} (select : EventJournalRecord → bool) (loop : list EventJournalRecord → stm QueueWorld A) w r w' :
  (∀ records w r w', Forall (λ r, select r = true) records → current_events records w → loop records w = (r, w') → faithful w w') →
  (let* records := event_journal_records env in loop (List.filter select records)) w = (r, w') → faithful w w'.
Proof.
  intros Hloop Hrun Hinv. revert Hrun. unfold stm_bind. destruct (event_journal_records env w) as [ra wa] eqn:Ha.
  apply event_journal_records_run in Ha as (Hs & Hrem & Hrec); [|apply Hinv].
  assert (aside w wa) as Ga by (split; [done|intros k; by rewrite Hrem]).
  destruct ra as [records|e|]; [|intros [= _ <-]; by apply aside_faithful..]. intros Hrun.
  enough (faithful w w') as Hf by (by apply Hf). etrans; [by apply aside_faithful|]. eapply Hloop; [| |exact Hrun].
  - apply Forall_forall. intros x Hx. apply list_elem_of_In, filter_In in Hx as [_ ?]. done.
  - apply (current_aside _ w); [done|]. apply read_current; [done|]. intros e He.
    apply list_elem_of_In, filter_In in He as [He%list_elem_of_In _].
    destruct (Hrec records eq_refl) as [->|Hall]; [by apply elem_of_nil in He|by apply Hall].
Qed.

(** Compaction removes a change only when the remote has acknowledged it. *)
Lemma compact_keeps force dry_run w r w' :
  compact_event_journal_inner env jenv force dry_run w = (r, w') → journal_inv w →
  remote_grows w w' ∧ journal_inv w' ∧
  ∀ e, is_pending_trigger e = true → event_in (files w) e →
    event_in (files w') e ∨ (ej_remote_journal_synced_at e ≠ None ∧ on_remote w' e).
Proof.
  intros Hrun [Hwf Hsync]. apply journal_compact_run in Hrun as (Hrem & f & Hs & Ht); [|done].
  assert (remote_grows w w') as Hg by (intros k; by rewrite Hrem). split; [done|]. split.
  - split; [by eapply thinned_wf, same_journal_wf|]. intros e He. destruct (Hsync e) as [Hk Hr].
    { apply (same_journal_event _ _ e Hs). by apply (thinned_event _ _ _ e Ht). }
    split; [done|]. intros Hx. eapply on_remote_grows; [done|]. by apply Hr.
  - intros e Htr He.
    destruct (proj2 (thinned_event _ _ _ e Ht)) as [?|Hc]; [by apply (same_journal_event _ _ e Hs)|by left|right].
    apply compacting_facts in Hc as [_ Hsup]. destruct (Hsup Htr) as [Hx _]. split; [done|].
    eapply on_remote_grows; [done|]. by apply Hsync.
Qed.

(** The id of the next event is new. *)
Definition fresh_id (w : QueueWorld) : Prop :=
  ∀ e, event_in (files w) e → ej_event_id e ≠ "event-" +:+ jn_uuid jenv (qw_tick w).

Lemma new_event_run (mk : string → DateTime → EventJournalRecord) w r w' :
  (∀ id now, ej_event_id (mk id now) = id ∧ ej_remote_journal_key (mk id now) = None ∧
    ej_remote_journal_synced_at (mk id now) = None) → fresh_id w →
  (let* id := new_id jenv in let* now := clock (qn_now env) in write_event_record env (mk id now)) w = (r, w') →
  faithful w w' ∧ (r = Done tt → ∃ id now, event_in (files w') (mk id now)).
Proof.
  intros Hmk Hfresh. unfold new_id, stm_bind at 1. cbn. unfold stm_bind, clock. cbn.
  set (id := "event-" +:+ _). set (now := qn_now env _). set (w0 := {| qw_fs := qw_fs w |}). intros Hrun.
  destruct (Hmk id now) as (Hid & Hk & Hs).
  assert (named (mk id now)) as Hnm by (unfold named; rewrite Hid; split; [by apply item_extension|done]).
  assert (aside w w0) as G0 by (split; [reflexivity|by intros k]).
  pose proof (write_faithful (mk id now) w0 r w') as Hw. destruct Hw as [Hf _]; [done|..|done|].
  - intros x Hx Hxid. rewrite Hid in Hxid. by destruct (Hfresh x Hx).
  - by left.
  - by rewrite Hs.
  - split; [etrans; [by apply aside_faithful|exact Hf]|]. intros ->. exists id, now.
    apply write_event_run in Hrun as [_ [[_ ?]|Hput]]; [done|]. apply (same_journal_event _ _ _ Hput), put_event_in; [done|by left].
Qed.

(** ** Everything that can happen to a journal *)

Inductive journal_step (w : QueueWorld) : QueueWorld → Prop :=
| js_event kind detail r w' : fresh_id w → record_event env jenv kind detail w = (r, w') → journal_step w w'
| js_file root_id path event_kind raw_backend detail r w' : fresh_id w →
    record_file_event env jenv root_id path event_kind raw_backend detail w = (r, w') → journal_step w w'
| js_read r w' : event_journal_records env w = (r, w') → journal_step w w'
| js_enqueue r w' : enqueue_remote_event_journal_uploads env host_id w = (r, w') → journal_step w w'
| js_acknowledge r w' : acknowledge_remote_event_journal_uploads env host_id w = (r, w') → journal_step w w'
| js_compact force dry_run r w' : compact_event_journal_inner env jenv force dry_run w = (r, w') → journal_step w w'
| js_other w' : aside w w' → journal_step w w'.

(** What one of them may do to the changes of the journal. *)
Definition keeps (w w' : QueueWorld) : Prop := journal_inv w →
  remote_grows w w' ∧ journal_inv w' ∧
  ∀ e, is_pending_trigger e = true → event_in (files w) e →
    remembered w' e ∨ (ej_remote_journal_synced_at e ≠ None ∧ on_remote w' e).
Lemma faithful_keeps w w' : faithful w w' → keeps w w'.
Proof. intros Hf Hinv. destruct (Hf Hinv) as (? & ? & Hr). split; [done|]. split; [done|]. intros e Ht He. left. auto. Qed.

Lemma journal_step_keeps w w' : journal_step w w' → keeps w w'.
Proof.
  intros [kind detail r w1 Hf Hrun|root_id path event_kind raw_backend detail r w1 Hf Hrun|r w1 Hrun|r w1 Hrun|r w1 Hrun|
          force dry_run r w1 Hrun|w1 Ha]; [apply faithful_keeps..| |].
  - by apply (new_event_run (λ id now, EventJournalRecord_new id kind now detail)) in Hrun as [? _].
  - by apply (new_event_run (λ id now, new_file_event id now detail root_id path event_kind raw_backend)) in Hrun as [? _].
  - intros Hinv. apply event_journal_records_run in Hrun as (Hs & Hrem & _); [|apply Hinv].
    apply aside_faithful; [|done]. split; [done|intros k; by rewrite Hrem].
  - apply (after_reading is_remote_journal_pending (λ records, enqueue_events env host_id records 0) w r w1); [|exact Hrun]. intros records w0 r0 w0' Hp Hc.
    apply enqueue_events_faithful; [|done]. eapply Forall_impl; [exact Hp|]. intros x [_ Hx]%andb_true_iff.
    by apply bool_decide_eq_true in Hx.
  - apply (after_reading (λ r, is_remote_journal_pending r && bool_decide (is_Some (ej_remote_journal_key r)))
      (λ records, acknowledge_events env host_id records 0) w r w1); [|exact Hrun]. intros records w0 r0 w0' _ Hc. by apply acknowledge_events_faithful.
  - intros Hinv. destruct (compact_keeps _ _ _ _ _ Hrun Hinv) as (Hg & Hinv' & Hkeep). split; [done|]. split; [done|].
    intros e Ht He. destruct (Hkeep e Ht He) as [?|?]; [left; by exists e|by right].
  - by apply faithful_keeps, aside_faithful.
Qed.

(** The last record of a change in the journal: it is there still, or it was marked as
    synchronised and the remote has it. *)
Lemma journal_steps_keep w w' : rtc journal_step w w' → journal_inv w →
  remote_grows w w' ∧ journal_inv w' ∧
  ∀ e, is_pending_trigger e = true → event_in (files w) e →
    ∃ w1 e', rtc journal_step w w1 ∧ rtc journal_step w1 w' ∧ event_in (files w1) e' ∧ same_change e e' ∧
      (w1 = w' ∨ (ej_remote_journal_synced_at e' ≠ None ∧ on_remote w' e')).
Proof.
  induction 1 as [w|w w2 w' Hstep Hsteps IH]; intros Hinv.
  { split; [by intros k|]. split; [done|]. intros e _ He. exists w, e. split_and!; [done..|by left]. }
  destruct (journal_step_keeps _ _ Hstep Hinv) as (G1 & Hinv2 & R1). destruct (IH Hinv2) as (G2 & Hinv' & R2).
  split; [intros k ?; by apply G2, G1|]. split; [done|]. intros e Ht He. destruct (R1 e Ht He) as [(e2 & Hs & He2)|[Hx Hr]].
  - destruct (R2 e2) as (w1 & e' & Hto & Hfrom & Hin & Hs' & Hcase); [by rewrite (same_change_trigger _ _ Hs)|done|].
    exists w1, e'. split_and!; [by eapply rtc_l|done|done|by etrans|done].
  - exists w, e. split_and!; [done|by eapply rtc_l|done|done|]. right. split; [done|]. by eapply on_remote_grows.
Qed.

(** C19. No recorded change of a file is forgotten before the remote has it.  When
    [record_file_event] has succeeded, the journal holds the event it made, with a new id.
    Whatever sequence of journal operations follows (recording, reading, queueing for upload,
    acknowledging, compacting, and anything else that leaves the files of the journal and the
    objects on the remote alone), whatever call fails in them: the last record of this event the
    journal held on the way, with the same id, time, root and path, is in the journal at the
    end, or it was marked as synchronised and the remote has at the end the journal entry under
    the key made from this id and the payload this record names, every chunk of it included. *)
Theorem recorded_change_is_remembered root_id path event_kind raw_backend detail w0 w w' :
  journal_inv w0 → fresh_id w0 →
  record_file_event env jenv root_id path event_kind raw_backend detail w0 = (Done tt, w) →
  rtc journal_step w w' →
  journal_inv w' ∧
  ∃ id now, let recorded := new_file_event id now detail root_id path event_kind raw_backend in
    event_in (files w) recorded ∧
    ∃ w1 e, rtc journal_step w w1 ∧ rtc journal_step w1 w' ∧ event_in (files w1) e ∧ same_change recorded e ∧
      (w1 = w' ∨ (ej_remote_journal_synced_at e ≠ None ∧
        rp_present (qw_remote w') (remote_event_journal_key host_id id) ∧ payload_on_remote w' e)).
Proof.
  intros Hinv Hfresh Hrun Hsteps.
  apply (new_event_run (λ id now, new_file_event id now detail root_id path event_kind raw_backend)) in Hrun as [Hf Hin];
    [|done..]. destruct (Hf Hinv) as (_ & Hinv1 & _). destruct (Hin eq_refl) as (id & now & He).
  destruct (journal_steps_keep _ _ Hsteps Hinv1) as (_ & Hinv' & Hr). split; [done|].
  exists id, now. split; [done|]. destruct (Hr (new_file_event id now detail root_id path event_kind raw_backend) eq_refl He) as (w1 & e & Hto & Hfrom & He1 & Hs & Hcase).
  exists w1, e. split_and!; [done..|]. destruct Hcase as [?|[Hx [Hk Hp]]]; [by left|right].
  destruct Hs as [Hid _]. rewrite Hid in Hk. by split_and!.
Qed.
End Safety.

(** ** A journal evaluated *)

Module JournalExample.
Import QueueExample.

(** An event as the list of its fields. *)
Definition event_to_vec (e : EventJournalRecord) : list Z :=
  [Zpos (encode (ej_event_id e)); Zpos (encode (ej_kind e)); Zpos (encode (ej_observed_at e)); Zpos (encode
   (ej_detail e)); Zpos (encode (ej_root_id e)); Zpos (encode (ej_path e)); Zpos (encode (ej_event_kind e));
   Zpos (encode (ej_raw_backend e)); Zpos (encode (ej_remote_journal_key e)); Zpos (encode
   (ej_remote_journal_synced_at e)); Zpos (encode (ej_durable_tombstone e)); Zpos (encode
   (ej_durable_entry_kind e)); Zpos (encode (ej_durable_payload_oid e)); Zpos (encode (ej_durable_payload_key
   e)); Zpos (encode (ej_durable_payload_size e)); Zpos (encode (ej_durable_large_manifest_key e)); Zpos
   (encode (ej_durable_large_chunk_count e)); Zpos (encode (ej_durable_symlink_target e)); Zpos (encode
   (ej_durable_special_kind e)); Zpos (encode (ej_durable_mode e)); Zpos (encode (ej_durable_modified e));
   Zpos (encode (ej_durable_uid e)); Zpos (encode (ej_durable_gid e))].
Definition event_from_slice (b : list Z) : option EventJournalRecord :=
  match b with
  | [Zpos a0; Zpos a1; Zpos a2; Zpos a3; Zpos a4; Zpos a5; Zpos a6; Zpos a7; Zpos a8; Zpos a9; Zpos a10; Zpos
     a11; Zpos a12; Zpos a13; Zpos a14; Zpos a15; Zpos a16; Zpos a17; Zpos a18; Zpos a19; Zpos a20; Zpos a21;
     Zpos a22] =>
    x0 ← decode a0;
    x1 ← decode a1;
    x2 ← decode a2;
    x3 ← decode a3;
    x4 ← decode a4;
    x5 ← decode a5;
    x6 ← decode a6;
    x7 ← decode a7;
    x8 ← decode a8;
    x9 ← decode a9;
    x10 ← decode a10;
    x11 ← decode a11;
    x12 ← decode a12;
    x13 ← decode a13;
    x14 ← decode a14;
    x15 ← decode a15;
    x16 ← decode a16;
    x17 ← decode a17;
    x18 ← decode a18;
    x19 ← decode a19;
    x20 ← decode a20;
    x21 ← decode a21;
    x22 ← decode a22;
    Some (Build_EventJournalRecord x0 x1 x2 x3 x4 x5 x6 x7 x8 x9 x10 x11 x12 x13 x14 x15 x16 x17 x18 x19 x20 x21 x22)
  | _ => None
  end.
Lemma event_roundtrip e : event_from_slice (event_to_vec e) = Some e.
Proof. unfold event_to_vec, event_from_slice. rewrite !decode_encode. by destruct e. Qed.
#[local] Instance ex_events : Serde EventJournalRecord := {|
  cbor_to_vec := event_to_vec; cbor_from_slice := event_from_slice; json_to_vec := event_to_vec;
  json_to_vec_pretty := event_to_vec; json_from_slice := event_from_slice |}.

(** The upload queue plays no part here. *)
#[local] Instance ex_items : Serde UploadQueueItem := {|
  cbor_to_vec _ := []; cbor_from_slice _ := None; json_to_vec _ := []; json_to_vec_pretty _ := []; json_from_slice _ := None |}.
#[local] Instance ex_text : Blake3Text := {| blake3_text_hex k := k |}.

Abbreviation World := (QueueWorld (H0 := ex_memory)).
#[local] Instance ex_journal : JournalSource World := {|
  current_snapshot_for_event_compact := Ok None;
  load_root_tree_entries _ := Ok [];
  read_journal_manifest _ := Err "no manifest";
  enrich_remote_event_journal_payload e := stm_ret e |}.
Definition clocked : QueueEnv := {|
  qn_home := [RootDir; Normal "home"]; qn_uuid := ex_uuid; qn_now := Z.of_nat; qn_random := λ _, 7;
  qn_stale := λ _, false; qn_kind := KFile; qn_conditional_put := true; qn_parallelism := None;
  qn_schedule := λ l, l; qn_batch_max_objects := None; qn_batch_max_bytes := None |}.
#[local] Instance ex_journal_laws : JournalLaws (H := ex_memory) clocked.
Proof.
  split.
  - intros e. split; [apply event_roundtrip|done].
  - intros n. apply (ev_uuid ex_env ex_env_ok).
  - by intros e w e' w' [= <- _].
  - done.
  - done.
Qed.

Definition ex_jenv : JournalEnv := {| jn_uuid := ex_uuid; jn_min_records := None; jn_strict := None |}.
Definition nothing : World := {|
  qw_fs := {| fs_files := ∅; fs_dirs := ∅; fs_faults := []; fs_uuids := 0 |}; qw_remote := (∅ : gmap string (list Z)); qw_tick := 0 |}.

(** A change is recorded, queued for upload, uploaded and acknowledged, a snapshot finishes,
    and the journal is compacted. *)
Definition recorded := record_file_event clocked ex_jenv "r" "a.txt" "modify" "inotify" "" nothing.
Definition queued_up : World := (enqueue_remote_event_journal_uploads clocked "h" recorded.2).2.
Definition uploaded : World :=
  qw_with_remote queued_up ({["h/journal/event-0.json" := [1]]} : gmap string (list Z)).
Definition acknowledged : World := (acknowledge_remote_event_journal_uploads clocked "h" uploaded).2.
Definition finished : World := (record_event clocked ex_jenv "snapshot-finish" "" acknowledged).2.
Definition compacted := compact_event_journal_inner clocked ex_jenv true false finished.

Lemma no_events w e : fs_files (qw_fs w) = ∅ → ¬ event_in clocked (fs_files (qw_fs (w : World))) e.
Proof. intros -> [_ (b & Hb & _)]. by rewrite lookup_empty in Hb. Qed.

Lemma remote_only (w : World) r : same_journal clocked (fs_files (qw_fs w)) (fs_files (qw_fs (qw_with_remote w r))).
Proof. by intros n. Qed.
Abbreviation jstep := (journal_step clocked ex_jenv "h").
Lemma nothing_fresh : fresh_id clocked ex_jenv nothing.
Proof. intros e He. by apply no_events in He. Qed.
Lemma start_step : jstep nothing recorded.2.
Proof. eapply (js_file _ _ _ _ "r" "a.txt" "modify" "inotify" ""), surjective_pairing. apply nothing_fresh. Qed.
Lemma steps_to_finish : rtc jstep recorded.2 finished.
Proof.
  apply (rtc_l _ _ queued_up); [eapply js_enqueue, surjective_pairing|].
  apply (rtc_l _ _ uploaded); [apply js_other|].
  { split; [apply remote_only|]. intros k [x Hx]. by vm_compute in Hx. }
  apply (rtc_l _ _ acknowledged); [eapply js_acknowledge, surjective_pairing|].
  apply rtc_once. eapply (js_event _ _ _ _ "snapshot-finish" ""); [|apply surjective_pairing].
  intros e [_ (b & Hb & _)] Hid. rewrite Hid in Hb. vm_compute in Hb. discriminate Hb.
Qed.
Lemma steps : rtc jstep recorded.2 compacted.2.
Proof. eapply rtc_r; [apply steps_to_finish|]. eapply (js_compact _ _ _ _ true false), surjective_pairing. Qed.

Lemma nothing_inv : journal_inv clocked "h" nothing.
Proof. split; [by intros n b Hb; vm_compute in Hb|]. intros e He. by apply no_events in He. Qed.
Lemma finished_wf : journal_wf clocked (fs_files (qw_fs finished)).
Proof.
  assert (rtc jstep nothing finished) as Hs by (eapply rtc_l; [apply start_step|apply steps_to_finish]).
  by destruct (journal_steps_keep clocked ex_jenv "h" _ _ Hs nothing_inv) as (_ & [Hwf _] & _).
Qed.

Lemma recorded_change_is_remembered_witness :
  ec_removed <$> match compacted.1 with Done x => Some x | _ => None end = Some 1%nat ∧
  ∃ id now, let change := new_file_event id now "" "r" "a.txt" "modify" "inotify" in
    event_in clocked (fs_files (qw_fs recorded.2)) change ∧
    ∃ w1 e, rtc jstep recorded.2 w1 ∧ rtc jstep w1 compacted.2 ∧ event_in clocked (fs_files (qw_fs w1)) e ∧ same_change change e ∧
      (w1 = compacted.2 ∨ (ej_remote_journal_synced_at e ≠ None ∧
        rp_present (qw_remote compacted.2) (remote_event_journal_key "h" id) ∧ payload_on_remote clocked "h" compacted.2 e)).
Proof.
  split; [vm_compute; reflexivity|].
  refine (proj2 (recorded_change_is_remembered clocked ex_jenv "h" "r" "a.txt" "modify" "inotify" "" nothing recorded.2
    compacted.2 nothing_inv _ _ steps)).
  - apply nothing_fresh.
  - vm_compute. reflexivity.
Defined.

Lemma compaction_keeps_what_is_needed_witness :
  pending clocked (fs_files (qw_fs finished)) ↔ pending clocked (fs_files (qw_fs compacted.2)).
Proof.
  apply (compaction_keeps_what_is_needed clocked ex_jenv true false finished compacted.1 compacted.2 finished_wf).
  apply surjective_pairing.
Defined.
End JournalExample.
