(* ===== verification/PackStore.v ===== *)
(** * Writing, reading and compacting packs

    [src/pack_runtime.rs] and [read_blob_payload] of [src/main.rs]: loose blobs are
    gathered into pack files by size tier, rows are pointed at their ranges, and
    packs are rewritten to drop unused space. *)

From S2P Require Import Prelude RStr BTree MachInt Core Util Config Crypto Store Pack LargeStore.

Local Open Scope Z_scope.

(** ** The record of a pack: eight little-endian length bytes and the object *)

Fixpoint le_bytes (k : nat) (n : Z) : list Z :=
  match k with O => [] | S k' => n mod 256 :: le_bytes k' (n / 256) end.
Fixpoint from_le (bs : list Z) : Z :=
  match bs with [] => 0 | b :: bs' => b + 256 * from_le bs' end.

Definition to_le_bytes (n : Z) : list Z := le_bytes 8 n.

Definition pack_entry_payload (oid : string) (entry : list Z) : result (list Z) string :=
  if (length entry <? 8)%nat then Err ("pack entry too short for " +:+ oid)
  else if negb (from_le (take 8 entry) =? Z.of_nat (length entry - 8))
  then Err ("pack entry length mismatch for " +:+ oid)
  else Ok (drop 8 entry).

(** [slice.get(offset..offset + len)]: the sum wraps, and a range that is reversed
    or ends after the slice gives [None]. *)
Definition slice_get (bytes : list Z) (offset len : Z) : option (list Z) :=
  let stop := wadd offset len in
  if (offset <=? stop) && (stop <=? Z.of_nat (length bytes))
  then Some (take (Z.to_nat (stop - offset)) (drop (Z.to_nat offset) bytes)) else None.

(** [serde_json::to_vec_pretty] at [PackIndex]. *)
Class PackJson := { pack_index_to_vec : PackIndex → list Z }.

Section PackStore.
Context `{!ObjectCodec, !Chrono, !PackJson}.

(** ** State *)

(** A row of the operation log: kind, snapshots before and after, message. *)
Record OpRow := { or_kind : string; or_before : option string; or_after : option string;
                  or_message : option string }.

(** The object files and the codec; the tables [blobs] (in the order of [oid], its
    primary key) and [packs]; the blob oids of [snapshot_payloads]; the operations
    recorded; the current snapshot; the pack the compaction reader holds in memory;
    and how many identifiers and times have been drawn. *)
Record PackWorld := {
  pw_store : StoreWorld;
  pw_blobs : list BlobExport;
  pw_packs : gmap string PackExport;
  pw_payloads : list string;
  pw_ops : list OpRow;
  pw_current : option string;
  pw_reader : option (string * list Z);
  pw_tick : nat;
}.

Definition pw_with_store (w : PackWorld) s : PackWorld :=
  {| pw_store := s; pw_blobs := pw_blobs w; pw_packs := pw_packs w; pw_payloads := pw_payloads w;
     pw_ops := pw_ops w; pw_current := pw_current w; pw_reader := pw_reader w; pw_tick := pw_tick w |}.
Definition pw_with_tables (w : PackWorld) blobs packs : PackWorld :=
  {| pw_store := pw_store w; pw_blobs := blobs; pw_packs := packs; pw_payloads := pw_payloads w;
     pw_ops := pw_ops w; pw_current := pw_current w; pw_reader := pw_reader w; pw_tick := pw_tick w |}.
Definition pw_with_ops (w : PackWorld) ops : PackWorld :=
  {| pw_store := pw_store w; pw_blobs := pw_blobs w; pw_packs := pw_packs w; pw_payloads := pw_payloads w;
     pw_ops := ops; pw_current := pw_current w; pw_reader := pw_reader w; pw_tick := pw_tick w |}.
Definition pw_with_reader (w : PackWorld) r : PackWorld :=
  {| pw_store := pw_store w; pw_blobs := pw_blobs w; pw_packs := pw_packs w; pw_payloads := pw_payloads w;
     pw_ops := pw_ops w; pw_current := pw_current w; pw_reader := r; pw_tick := pw_tick w |}.
Definition pw_with_tick (w : PackWorld) t : PackWorld :=
  {| pw_store := pw_store w; pw_blobs := pw_blobs w; pw_packs := pw_packs w; pw_payloads := pw_payloads w;
     pw_ops := pw_ops w; pw_current := pw_current w; pw_reader := pw_reader w; pw_tick := t |}.

Definition pw_files (w : PackWorld) : gmap string (list Z) := sw_objects (pw_store w).
Definition pw_with_files (w : PackWorld) f : PackWorld := pw_with_store w (sw_with_objects (pw_store w) f).

(** The surroundings: those of the object layer, the random part of the [n]-th
    identifier, the [n]-th reading of the clock, the blobs the tree of a snapshot
    reaches, and the two environment variables of automatic compaction. *)
Record PackEnv := {
  pn_store : StoreEnv;
  pn_uuid : nat → string;
  pn_now : nat → DateTime;
  pn_snapshot_blob_oids : string → result (list string) string;
  pn_auto_pack_compact : option string;
  pn_min_reclaim_bytes : option string;
  pn_max_utilization_percent : option string;
}.

Context (env : PackEnv).

Abbreviation pack_m := (stm PackWorld).

Definition in_store {A} (m : stm StoreWorld A) : pack_m A := λ w,
  let '(r, s) := m (pw_store w) in (r, pw_with_store w s).

Definition tick : pack_m nat := λ w, (Done (pw_tick w), pw_with_tick w (S (pw_tick w))).
Definition new_id (prefix : string) : pack_m string :=
  let* n := tick in stm_ret (prefix +:+ "-" +:+ pn_uuid env n).
Definition utc_now : pack_m DateTime := let* n := tick in stm_ret (pn_now env n).

Definition is_file (w : PackWorld) (key : string) : bool := bool_decide (is_Some (pw_files w !! key)).

(** [home.join(key).exists()]: a file, the home directory itself, or a directory
    above a file. *)
Definition path_exists (w : PackWorld) (key : string) : bool :=
  is_file w key || is_empty key
  || existsb (λ p, starts_with p (key +:+ "/")) (map fst (map_to_list (pw_files w))).

(** ** Reading a blob *)

Definition find_blob (oid : string) (blobs : list BlobExport) : option BlobExport :=
  List.find (λ b, (be_oid b =? oid)%string) blobs.

(** The range of a blob in the bytes of its pack. *)
Definition read_pack_range (oid : string) (bytes : list Z) (offset len : Z) : pack_m (list Z) :=
  let* slice := stm_some ("pack entry out of range for " +:+ oid) (slice_get bytes offset len) in
  let* payload := stm_ok (pack_entry_payload oid slice) in
  in_store (codec (oc_decode payload)).

Definition read_blob_payload (oid fallback_key : string) : pack_m (list Z) :=
  let* blobs := stm_get pw_blobs in
  match find_blob oid blobs with
  | None =>
    if negb (is_empty (trim fallback_key)) then in_store (read_object (pn_store env) fallback_key)
    else stm_fail ("missing blob metadata for " +:+ oid)
  | Some blob =>
    match be_pack_id blob with
    | None => in_store (read_object (pn_store env) fallback_key)
    | Some pack_id =>
      let* row := stm_get (λ w, pw_packs w !! pack_id) in
      let* pack := stm_some "Query returned no rows" row in
      let* offset := stm_some ("missing pack offset for " +:+ oid) (be_pack_offset blob) in
      let* len := stm_some ("missing pack len for " +:+ oid) (be_pack_len blob) in
      let* pack_there := stm_get (λ w, path_exists w (pk_pack_key pack)) in
      let* fallback_there := stm_get (λ w, path_exists w fallback_key) in
      if negb pack_there && fallback_there then in_store (read_object (pn_store env) fallback_key)
      else
      let* _ := (if pack_there then stm_ret true
                 else in_store (hydrate_local_object_from_remote (pn_store env) (pk_pack_key pack))) in
      let* file := stm_get (λ w, pw_files w !! pk_pack_key pack) in
      let* bytes := stm_some "read" file in
      read_pack_range oid bytes offset len
    end
  end.

(** ** Writing packs *)

Record WrittenPack := { wp_index : PackIndex; wp_index_key : string; wp_size : Z }.
Record OpenPack := {
  op_pack_id : string; op_pack_key : string; op_index_key : string;
  op_entries : list PackEntry; op_size : Z }.

Definition open_pack (pack_prefix index_prefix : string) : pack_m OpenPack :=
  let* pack_id := new_id "pack" in
  let key := pack_key pack_prefix pack_id in
  let* _ := stm_modify (λ w, pw_with_files w (<[key := []]> (pw_files w))) in
  stm_ret {| op_pack_id := pack_id; op_pack_key := key; op_index_key := index_key index_prefix pack_id;
             op_entries := []; op_size := 0 |}.

(** [writer.write_all]: the buffer is flushed when the pack is finished or dropped,
    and nothing reads the file before that. *)
Definition write_all (key : string) (bytes : list Z) : pack_m unit :=
  stm_modify (λ w, pw_with_files w (<[key := default [] (pw_files w !! key) ++ bytes]> (pw_files w))).

Definition finish_pack (pack : OpenPack) : pack_m WrittenPack :=
  let index := {| px_version := 1; px_pack_id := op_pack_id pack; px_pack_key := op_pack_key pack;
                  px_entries := op_entries pack |} in
  let* _ := stm_modify (λ w,
    pw_with_files w (<[op_index_key pack := pack_index_to_vec index]> (pw_files w))) in
  stm_ret {| wp_index := index; wp_index_key := op_index_key pack; wp_size := op_size pack |}.

(** The loop over the blobs: the packs finished so far and the one being filled. *)
Fixpoint write_blobs (payload_for : BlobExport → pack_m (list Z)) (prefixes : PackDatePrefixes)
    (target_size : Z) (indexes : list WrittenPack) (pack : OpenPack) (blobs : list BlobExport)
    : pack_m (list WrittenPack * OpenPack) :=
  match blobs with
  | [] => stm_ret (indexes, pack)
  | blob :: rest =>
    let* payload := payload_for blob in
    let* stored := in_store (codec (oc_encode payload)) in
    let record_len := 8 + Z.of_nat (length stored) in
    let* cur :=
      (if bool_decide (op_entries pack ≠ []) && (target_size <? wadd (op_size pack) record_len)
       then let* done := finish_pack pack in
            let* fresh := open_pack (pdp_pack_prefix prefixes) (pdp_index_prefix prefixes) in
            stm_ret (indexes ++ [done], fresh)
       else stm_ret (indexes, pack)) in
    let '(indexes', pack') := cur in
    let offset := op_size pack' in
    let* _ := write_all (op_pack_key pack') (to_le_bytes (Z.of_nat (length stored))) in
    let* _ := write_all (op_pack_key pack') stored in
    write_blobs payload_for prefixes target_size indexes'
      {| op_pack_id := op_pack_id pack'; op_pack_key := op_pack_key pack';
         op_index_key := op_index_key pack';
         op_entries := op_entries pack' ++
           [{| pe_oid := be_oid blob; pe_offset := offset; pe_len := record_len |}];
         op_size := wadd (op_size pack') record_len |} rest
  end.

Definition write_blob_packs (payload_for : BlobExport → pack_m (list Z)) (tier : PackTier)
    (target : Z) (blobs : list BlobExport) : pack_m (list WrittenPack) :=
  let target_size := Z.max target 1 in
  let* now := utc_now in
  let prefixes := date_prefixes tier now in
  let* pack := open_pack (pdp_pack_prefix prefixes) (pdp_index_prefix prefixes) in
  let* cur := write_blobs payload_for prefixes target_size [] pack blobs in
  let '(indexes, last) := cur in
  if bool_decide (op_entries last ≠ []) then
    let* done := finish_pack last in stm_ret (indexes ++ [done])
  else stm_ret indexes.

Definition is_small (b : BlobExport) : bool := bool_decide (tier_for_blob (be_size b) = TierSmall).

Definition write_tiered_blob_packs (payload_for : BlobExport → pack_m (list Z)) (config : PackConfig)
    (blobs : list BlobExport) : pack_m (list WrittenPack) :=
  let small_blobs := List.filter is_small blobs in
  let normal_blobs := List.filter (λ b, negb (is_small b)) blobs in
  let* small := write_blob_packs payload_for TierSmall (pc_small_pack_target config) small_blobs in
  let* normal := write_blob_packs payload_for TierNormal (pc_normal_pack_target config) normal_blobs in
  stm_ret (small ++ normal).

(** ** Recording packs *)

Definition pack_row (pack : WrittenPack) : PackExport := {|
  pk_pack_id := px_pack_id (wp_index pack); pk_pack_key := px_pack_key (wp_index pack);
  pk_index_key := wp_index_key pack;
  pk_object_count := Z.of_nat (length (px_entries (wp_index pack))); pk_size := wp_size pack |}.

(** [update blobs set pack_id=?2, pack_offset=?3, pack_len=?4 where oid=?1] *)
Definition update_blob (pack_id : string) (entry : PackEntry) (blobs : list BlobExport) : list BlobExport :=
  map (λ b, if (be_oid b =? pe_oid entry)%string
            then with_pack_location b pack_id (pe_offset entry) (pe_len entry) else b) blobs.

Definition persist_pack (tables : list BlobExport * gmap string PackExport) (pack : WrittenPack)
    : list BlobExport * gmap string PackExport :=
  let '(blobs, packs) := tables in
  (fold_left (λ bs e, update_blob (px_pack_id (wp_index pack)) e bs) (px_entries (wp_index pack)) blobs,
   <[px_pack_id (wp_index pack) := pack_row pack]> packs).

(** One transaction. *)
Definition persist_written_packs (packs : list WrittenPack) : pack_m unit :=
  stm_modify (λ w, let '(b, p) := fold_left persist_pack packs (pw_blobs w, pw_packs w) in
                   pw_with_tables w b p).

Definition record_op_row (kind : string) (before after message : option string) : pack_m unit :=
  stm_modify (λ w, pw_with_ops w (pw_ops w ++
    [{| or_kind := kind; or_before := before; or_after := after; or_message := message |}])).

(** The calls of the pack commands, with the current snapshot before and after. *)
Definition record_op (kind message : string) : pack_m unit := λ w,
  record_op_row kind (pw_current w) (pw_current w) (Some message) w.

(** ** [mj pack] *)

Definition mem_oid (oid : string) (blobs : list BlobExport) : bool :=
  existsb (λ b, (be_oid b =? oid)%string) blobs.

(** [delete from blobs where oid=?1 and pack_id is null and not exists (...)] for
    each of the blobs. *)
Definition remove_unreferenced_missing_loose_blobs (missing_blobs : list BlobExport) : pack_m unit :=
  stm_modify (λ w, pw_with_tables w
    (List.filter (λ b, negb (mem_oid (be_oid b) missing_blobs && bool_decide (be_pack_id b = None)
                        && negb (existsb (String.eqb (be_oid b)) (pw_payloads w)))) (pw_blobs w))
    (pw_packs w)).

Definition nat_str (n : nat) : string := string_of_N (N.of_nat n).

Definition pack_loose_blobs (config : PackConfig) : pack_m unit :=
  let* rows := stm_get pw_blobs in
  let loose := List.filter (λ b, bool_decide (be_pack_id b = None)) rows in
  let* blobs := stm_get (λ w, List.filter (λ b, is_file w (be_object_key b)) loose) in
  let* missing := stm_get (λ w, List.filter (λ b, negb (is_file w (be_object_key b))) loose) in
  let* _ := (if bool_decide (missing ≠ []) then remove_unreferenced_missing_loose_blobs missing
             else stm_ret tt) in
  if bool_decide (blobs = []) then stm_ret tt else
  let* packed := write_tiered_blob_packs
    (λ blob, in_store (read_object (pn_store env) (be_object_key blob))) config blobs in
  let* _ := persist_written_packs packed in
  record_op "pack" ("packed " +:+ nat_str (length blobs) +:+ " blobs").

(** ** [mj pack --compact] *)

(** [Option<T>]'s order: [None] first. *)
Definition compare_option {A} (cmp : A → A → comparison) (x y : option A) : comparison :=
  match x, y with
  | None, None => Eq
  | None, Some _ => Lt
  | Some _, None => Gt
  | Some a, Some b => cmp a b
  end.
Definition then_with (c d : comparison) : comparison := match c with Eq => d | _ => c end.

Definition blob_leb (left right : BlobExport) : bool :=
  match then_with (compare_option String.compare (be_pack_id left) (be_pack_id right))
          (then_with (compare_option Z.compare (be_pack_offset left) (be_pack_offset right))
                     (String.compare (be_oid left) (be_oid right))) with
  | Gt => false | _ => true
  end.

Definition blob_le (left right : BlobExport) : Prop := blob_leb left right = true.
#[local] Instance blob_le_dec : RelDecision blob_le.
Proof. intros x y. unfold blob_le. apply _. Defined.

Definition sort_blobs_for_compaction (blobs : list BlobExport) : list BlobExport :=
  merge_sort blob_le blobs.

(** [CompactPayloadReader::read_blob]: the bytes of the pack read last are kept. *)
Definition compact_read_blob (packs_by_id : gmap string PackExport) (blob : BlobExport)
    : pack_m (list Z) :=
  match be_pack_id blob with
  | None => in_store (read_object (pn_store env) (be_object_key blob))
  | Some pack_id =>
    match packs_by_id !! pack_id with
    | None => read_blob_payload (be_oid blob) (be_object_key blob)
    | Some pack =>
      let* pack_there := stm_get (λ w, path_exists w (pk_pack_key pack)) in
      let* loose_there := stm_get (λ w, path_exists w (be_object_key blob)) in
      if negb pack_there then
        if loose_there then in_store (read_object (pn_store env) (be_object_key blob))
        else read_blob_payload (be_oid blob) (be_object_key blob)
      else
      let* cached := stm_get pw_reader in
      let* bytes :=
        match cached with
        | Some (id, bytes) =>
          if (id =? pack_id)%string then stm_ret bytes
          else
            let* file := stm_get (λ w, pw_files w !! pk_pack_key pack) in
            let* bytes := stm_some "read" file in
            let* _ := stm_modify (λ w, pw_with_reader w (Some (pack_id, bytes))) in
            stm_ret bytes
        | None =>
            let* file := stm_get (λ w, pw_files w !! pk_pack_key pack) in
            let* bytes := stm_some "read" file in
            let* _ := stm_modify (λ w, pw_with_reader w (Some (pack_id, bytes))) in
            stm_ret bytes
        end in
      let* offset := stm_some ("missing pack offset for " +:+ be_oid blob) (be_pack_offset blob) in
      let* len := stm_some ("missing pack len for " +:+ be_oid blob) (be_pack_len blob) in
      read_pack_range (be_oid blob) bytes offset len
    end
  end.

Definition current_snapshot_blob_oids : pack_m (list string) :=
  let* current := stm_get pw_current in
  match current with
  | None => stm_ret []
  | Some id => stm_ok (pn_snapshot_blob_oids env id)
  end.

Definition pack_compact_cmd (config : PackConfig) : pack_m unit :=
  let* blobs := stm_get pw_blobs in
  if bool_decide (List.filter (λ b, bool_decide (is_Some (be_pack_id b))) blobs = []) then stm_ret tt else
  let* packs_by_id := stm_get pw_packs in
  let* oids := current_snapshot_blob_oids in
  let is_current := λ b, existsb (String.eqb (be_oid b)) oids in
  let current_blobs := sort_blobs_for_compaction (List.filter is_current blobs) in
  let history_blobs := sort_blobs_for_compaction (List.filter (λ b, negb (is_current b)) blobs) in
  let* _ := stm_modify (λ w, pw_with_reader w None) in
  let* current := write_tiered_blob_packs (compact_read_blob packs_by_id) config current_blobs in
  let* history := write_tiered_blob_packs (compact_read_blob packs_by_id) config history_blobs in
  let indexes := current ++ history in
  let* _ := persist_written_packs indexes in
  let new_pack_ids := map (λ p, px_pack_id (wp_index p)) indexes in
  let* _ := stm_modify (λ w, pw_with_tables w (pw_blobs w)
    (filter (λ '(id, _), is_Some (packs_by_id !! id) → id ∈ new_pack_ids) (pw_packs w))) in
  record_op "pack-compact"
    ("compacted " +:+ nat_str (length current_blobs + length history_blobs) +:+ " blobs").

(** ** Automatic compaction *)

Record PackCompactionStats := {
  ps_pack_count : Z; ps_all_pack_bytes : Z; ps_all_slice_bytes : Z;
  ps_current_pack_bytes : Z; ps_current_slice_bytes : Z }.

(** The three accumulators of the loop over the blobs. *)
Definition stats_step (current_oids : list string) (acc : Z * list string * Z) (blob : BlobExport)
    : Z * list string * Z :=
  let '(all_slice, ids, current_slice) := acc in
  match be_pack_id blob, be_pack_len blob with
  | Some pack_id, Some len =>
    if existsb (String.eqb (be_oid blob)) current_oids
    then (saturating_add all_slice len, bset_insert pack_id ids, saturating_add current_slice len)
    else (saturating_add all_slice len, ids, current_slice)
  | _, _ => acc
  end.

Definition pack_compaction_stats : pack_m (option PackCompactionStats) :=
  let* packs := stm_get pw_packs in
  let sizes := map (pk_size ∘ snd) (map_to_list packs) in
  if (length sizes <? 2)%nat then stm_ret None else
  let* blobs := stm_get pw_blobs in
  let* oids := current_snapshot_blob_oids in
  let '(all_slice, ids, current_slice) := fold_left (stats_step oids) blobs (0, [], 0) in
  stm_ret (Some {|
    ps_pack_count := Z.of_nat (length sizes);
    ps_all_pack_bytes := fold_left saturating_add sizes 0;
    ps_all_slice_bytes := all_slice;
    ps_current_pack_bytes := fold_left saturating_add (omap (λ id, pk_size <$> packs !! id) ids) 0;
    ps_current_slice_bytes := current_slice |}).

Definition utilization_percent (used total : Z) : Z :=
  if total =? 0 then 100 else Z.min u64_max (used * 100) / total.

Definition env_u64 (value : option string) (fallback : Z) : Z :=
  match value with
  | Some v => match parse_unsigned (Z.to_N u64_max) v with Some n => Z.of_N n | None => fallback end
  | None => fallback
  end.
Definition auto_compact_min_reclaim_bytes : Z := env_u64 (pn_min_reclaim_bytes env) (32 * 1024 * 1024).
Definition auto_compact_max_utilization_percent : Z := env_u64 (pn_max_utilization_percent env) 70.

Definition auto_compact_packs_if_needed (config : PackConfig) : pack_m bool :=
  if bool_decide (pn_auto_pack_compact env = Some "0") then stm_ret false else
  let* found := pack_compaction_stats in
  match found with
  | None => stm_ret false
  | Some stats =>
    let reclaim_bytes := Z.max (saturating_sub (ps_all_pack_bytes stats) (ps_all_slice_bytes stats))
                               (saturating_sub (ps_current_pack_bytes stats) (ps_current_slice_bytes stats)) in
    if reclaim_bytes <? auto_compact_min_reclaim_bytes then stm_ret false else
    let all_utilization := utilization_percent (ps_all_slice_bytes stats) (ps_all_pack_bytes stats) in
    let current_utilization :=
      utilization_percent (ps_current_slice_bytes stats) (ps_current_pack_bytes stats) in
    if (auto_compact_max_utilization_percent <? all_utilization)
       && (auto_compact_max_utilization_percent <? current_utilization)
    then stm_ret false
    else let* _ := pack_compact_cmd config in stm_ret true
  end.
End PackStore.

(** ** Records and ranges *)

Definition record_of (stored : list Z) : list Z :=
  to_le_bytes (Z.of_nat (length stored)) ++ stored.

Lemma length_le_bytes k n : length (le_bytes k n) = k.
Proof. revert n; induction k; simpl; auto. Qed.

Lemma from_le_bytes k n : 0 <= n < 256 ^ Z.of_nat k → from_le (le_bytes k n) = n.
Proof.
  revert n; induction k as [|k IH]; intros n Hn; [simpl in *; lia|].
  rewrite Nat2Z.inj_succ, Z.pow_succ_r in Hn by lia. cbn [le_bytes from_le].
  rewrite IH; [pose proof (Z.div_mod n 256); lia|].
  split; [apply Z.div_pos; lia|apply Z.div_lt_upper_bound; lia].
Qed.

Lemma length_record_of stored : length (record_of stored) = (8 + length stored)%nat.
Proof. unfold record_of, to_le_bytes. by rewrite length_app, length_le_bytes. Qed.

Lemma pack_entry_payload_record oid stored :
  Z.of_nat (length stored) <= isize_max → pack_entry_payload oid (record_of stored) = Ok stored.
Proof.
  intros Hlen. unfold pack_entry_payload. rewrite length_record_of.
  replace (8 + length stored - 8)%nat with (length stored) by lia. simpl Nat.ltb.
  unfold record_of. rewrite take_app_length', drop_app_length' by (unfold to_le_bytes; by rewrite length_le_bytes).
  unfold to_le_bytes. rewrite from_le_bytes; [by rewrite Z.eqb_refl|].
  unfold isize_max in Hlen. lia.
Qed.

Lemma slice_get_middle pre mid post :
  Z.of_nat (length pre + length mid) <= u64_max →
  slice_get (pre ++ mid ++ post) (Z.of_nat (length pre)) (Z.of_nat (length mid)) = Some mid.
Proof.
  intros Hlen. unfold slice_get, wadd. rewrite wrap64_small by (unfold is_u64; lia).
  rewrite !length_app. destruct (Z.leb_spec (Z.of_nat (length pre)) (Z.of_nat (length pre) + Z.of_nat (length mid))); [|lia].
  destruct (Z.leb_spec (Z.of_nat (length pre) + Z.of_nat (length mid)) (Z.of_nat (length pre + (length mid + length post)))); [|lia].
  simpl. rewrite Nat2Z.id, drop_app_length.
  replace (Z.to_nat _) with (length mid) by lia. by rewrite take_app_length.
Qed.

(** ** Rows and the transaction that records packs *)

Section Rows.
Context `{!ObjectCodec}.

Abbreviation written_id p := (px_pack_id (wp_index p)).

Definition oids_of (packs : list WrittenPack) : list string :=
  flat_map (λ p, map pe_oid (px_entries (wp_index p))) packs.

Lemma filter_partition {A} (f : A → bool) (l : list A) :
  List.filter f l ++ List.filter (λ x, negb (f x)) l ≡ₚ l.
Proof.
  induction l as [|x l IH]; simpl; [done|]. destruct (f x); simpl; rewrite <-?Permutation_middle; by constructor.
Qed.

Lemma Forall_list_filter {A} (Q : A → Prop) (f : A → bool) l : Forall Q l → Forall Q (List.filter f l).
Proof. rewrite !Forall_forall. setoid_rewrite list_elem_of_In. setoid_rewrite filter_In. naive_solver. Qed.

(** A row after a transaction that assigns the given locations in order. *)
Definition locations (packs : list WrittenPack) : list (string * PackEntry) :=
  flat_map (λ p, map (λ e, (written_id p, e)) (px_entries (wp_index p))) packs.

Definition relocate (b : BlobExport) (loc : string * PackEntry) : BlobExport :=
  if (be_oid b =? pe_oid loc.2)%string
  then with_pack_location b loc.1 (pe_offset loc.2) (pe_len loc.2) else b.

Lemma persist_packs_eq packs blobs table :
  fold_left persist_pack packs (blobs, table) =
    (map (λ b, fold_left relocate (locations packs) b) blobs,
     fold_left (λ t p, <[written_id p := pack_row p]> t) packs table).
Proof.
  revert blobs table; induction packs as [|p packs IH]; intros blobs table; simpl.
  { by rewrite list_fmap_id. }
  rewrite IH. f_equal. setoid_rewrite fold_left_app.
  transitivity (map (λ b, fold_left relocate (locations packs) b)
    (map (λ b, fold_left relocate (map (λ e, (written_id p, e)) (px_entries (wp_index p))) b) blobs)).
  2:{ by rewrite map_map. }
  f_equal. generalize (px_entries (wp_index p)). intros es. revert blobs.
  induction es as [|e es IHe]; intros blobs; simpl; [by rewrite list_fmap_id|].
  rewrite IHe. unfold update_blob. by rewrite map_map.
Qed.

Lemma relocate_oid b loc : be_oid (relocate b loc) = be_oid b.
Proof. unfold relocate. by destruct (_ =? _)%string. Qed.
Lemma relocate_all_oid b locs : be_oid (fold_left relocate locs b) = be_oid b.
Proof. revert b; induction locs as [|l locs IH]; intros b; simpl; [done|]. by rewrite IH, relocate_oid. Qed.

Lemma relocate_all b locs :
  (fold_left relocate locs b = b ∧ be_oid b ∉ map (λ l, pe_oid l.2) locs) ∨
  ∃ id e, (id, e) ∈ locs ∧ pe_oid e = be_oid b ∧ be_pack_id (fold_left relocate locs b) = Some id ∧
    be_pack_offset (fold_left relocate locs b) = Some (pe_offset e) ∧
    be_pack_len (fold_left relocate locs b) = Some (pe_len e).
Proof.
  induction locs as [|l locs IH] using rev_ind; simpl; [left; set_solver|].
  rewrite fold_left_app. simpl. pose proof (relocate_all_oid b locs) as Hoid.
  remember (fold_left relocate locs b) as b' eqn:Hb'. clear Hb'. unfold relocate. rewrite Hoid.
  destruct (String.eqb_spec (be_oid b) (pe_oid l.2)) as [He|Hne].
  - right. exists l.1, l.2. split; [destruct l; set_solver|]. done.
  - rewrite map_app. destruct IH as [[IH1 IH2]|(id & e & ? & ?)].
    + left. split; [done|]. rewrite elem_of_app. simpl. rewrite list_elem_of_singleton. naive_solver.
    + right. exists id, e. set_solver.
Qed.

Lemma pack_rows_lookup packs (table : gmap string PackExport) p :
  NoDup (map (λ p, px_pack_id (wp_index p)) packs) → p ∈ packs →
  fold_left (λ t p, <[written_id p := pack_row p]> t) packs table !! written_id p = Some (pack_row p).
Proof.
  induction packs as [|q packs IH] using rev_ind; [set_solver|].
  rewrite map_app, fold_left_app. simpl. intros (Hnd & Hdis & _)%NoDup_app.
  intros [Hp| ->%list_elem_of_singleton]%elem_of_app; [|by rewrite lookup_insert_eq].
  rewrite lookup_insert_ne; [by apply IH|]. intros Heq. apply (Hdis (written_id p)).
  - apply list_elem_of_fmap. by exists p.
  - rewrite Heq. set_solver.
Qed.

Lemma pack_rows_other packs (table : gmap string PackExport) id :
  id ∉ map (λ p, px_pack_id (wp_index p)) packs →
  fold_left (λ t p, <[written_id p := pack_row p]> t) packs table !! id = table !! id.
Proof.
  revert table; induction packs as [|q packs IH]; intros table; simpl; [done|].
  intros [Hne Hid]%not_elem_of_cons. rewrite IH by done. by rewrite lookup_insert_ne.
Qed.

Lemma elem_of_locations packs id e :
  (id, e) ∈ locations packs → ∃ p, p ∈ packs ∧ id = written_id p ∧ e ∈ px_entries (wp_index p).
Proof.
  unfold locations. rewrite elem_of_flat_map. intros (p & Hp & (e' & [= -> ->] & He)%list_elem_of_fmap). eauto.
Qed.

Lemma locations_oids packs : map (λ l, pe_oid l.2) (locations packs) = oids_of packs.
Proof.
  unfold locations, oids_of. induction packs as [|p packs IH]; simpl; [done|].
  rewrite map_app, IH, map_map. done.
Qed.

(** The tables after the transaction. *)
Definition persisted (w : PackWorld) (packs : list WrittenPack) : PackWorld :=
  let '(b, p) := fold_left persist_pack packs (pw_blobs w, pw_packs w) in pw_with_tables w b p.

Lemma persisted_eq w packs :
  persisted w packs = pw_with_tables w (map (λ b, fold_left relocate (locations packs) b) (pw_blobs w))
    (fold_left (λ t p, <[written_id p := pack_row p]> t) packs (pw_packs w)).
Proof. unfold persisted. by rewrite persist_packs_eq. Qed.

Lemma persisted_oids w packs : map be_oid (pw_blobs (persisted w packs)) = map be_oid (pw_blobs w).
Proof.
  rewrite persisted_eq. simpl. rewrite map_map. apply map_ext. intros b. apply relocate_all_oid.
Qed.

End Rows.

Abbreviation written_id p := (px_pack_id (wp_index p)).

Section Laws.
Context `{!ObjectCodec, !Chrono, !PackJson, !ObjectCodecLaws}.
Context (env : PackEnv) (P : string → list Z).

(** The range of a pack holds the record of an object that decodes to [b]. *)
Definition entry_at (bytes : list Z) (offset len : Z) (b : list Z) : Prop :=
  ∃ pre stored post, bytes = pre ++ record_of stored ++ post ∧ offset = Z.of_nat (length pre) ∧
    len = Z.of_nat (length (record_of stored)) ∧ offset + len <= isize_max ∧ decodes_to stored b.

Lemma entry_at_app bytes more offset len b :
  entry_at bytes offset len b → entry_at (bytes ++ more) offset len b.
Proof.
  intros (pre & st & post & -> & Hrest). exists pre, st, (post ++ more).
  by rewrite <-!(assoc_L (++)).
Qed.

Abbreviation pw_codec w := (sw_codec (pw_store w)).

Definition with_codec (w : PackWorld) c : PackWorld := pw_with_store w (sw_with_codec (pw_store w) c).

Lemma read_pack_range_run oid bytes offset len b w :
  entry_at bytes offset len b → oc_inv (pw_codec w) →
  ∃ c', oc_inv c' ∧ read_pack_range oid bytes offset len w = (Done b, with_codec w c').
Proof.
  intros (pre & st & post & -> & -> & -> & Hlen & Hdec) Hinv.
  destruct (Hdec _ Hinv) as (c' & Hd & Hc'). exists c'. split; [done|].
  rewrite length_record_of in Hlen. unfold isize_max in *.
  unfold read_pack_range, stm_bind.
  rewrite slice_get_middle by (rewrite length_record_of; unfold u64_max; lia).
  cbn [stm_some stm_ret]. rewrite pack_entry_payload_record by (unfold isize_max; lia).
  unfold stm_ok, stm_lift, outcome_of_result, in_store, codec. by rewrite Hd.
Qed.

(** A blob row and what it gives access to. *)
Definition loose_readable (files : gmap string (list Z)) (key : string) (b : list Z) : Prop :=
  validate_local_object_key key = Ok tt ∧
  (starts_with key "objects/blobs/" && se_is_snapshot_manifest_object_key (pn_store env) key) = false ∧
  ∃ enc, files !! key = Some enc ∧ decodes_to enc b.

Definition pack_readable (files : gmap string (list Z)) (packs : gmap string PackExport)
    (row : BlobExport) (b : list Z) : Prop :=
  ∃ id pack offset len bytes, be_pack_id row = Some id ∧ packs !! id = Some pack ∧
    be_pack_offset row = Some offset ∧ be_pack_len row = Some len ∧
    files !! pk_pack_key pack = Some bytes ∧ entry_at bytes offset len b.

Definition readable (w : PackWorld) (row : BlobExport) (b : list Z) : Prop :=
  (be_pack_id row = None ∧ loose_readable (pw_files w) (be_object_key row) b)
  ∨ pack_readable (pw_files w) (pw_packs w) row b.

Lemma read_loose_run key b w :
  loose_readable (pw_files w) key b → oc_inv (pw_codec w) →
  ∃ c', oc_inv c' ∧ in_store (read_object (pn_store env) key) w = (Done b, with_codec w c').
Proof.
  intros (Hv & Hm & enc & Hf & Hdec) Hinv. destruct (Hdec _ Hinv) as (c' & Hd & Hc').
  exists c'. split; [done|]. unfold pw_files in Hf.
  unfold in_store, read_object, read_object_raw, stm_bind. rewrite Hv.
  unfold stm_ok, stm_lift, stm_get, outcome_of_result. rewrite Hf. unfold stm_ret. cbn [negb].
  rewrite Hf. unfold stm_some, stm_ret, codec. rewrite Hd. by rewrite Hm.
Qed.

Lemma find_blob_NoDup blobs b :
  NoDup (map be_oid blobs) → b ∈ blobs → find_blob (be_oid b) blobs = Some b.
Proof.
  unfold find_blob. induction blobs as [|x blobs IH]; simpl; [set_solver|].
  intros [Hx Hnd]%NoDup_cons [->|Hb]%elem_of_cons; [by rewrite String.eqb_refl|].
  destruct (String.eqb_spec (be_oid x) (be_oid b)) as [He|]; [|auto].
  destruct Hx. rewrite He. by apply list_elem_of_fmap_2.
Qed.

Lemma path_exists_file w key v : pw_files w !! key = Some v → path_exists w key = true.
Proof. intros Hf. unfold path_exists, is_file. by rewrite Hf, bool_decide_true. Qed.

(** A packed row is read from its pack, whatever the fallback key. *)
Lemma read_packed_run row b fallback w :
  NoDup (map be_oid (pw_blobs w)) → row ∈ pw_blobs w → oc_inv (pw_codec w) →
  pack_readable (pw_files w) (pw_packs w) row b →
  ∃ c', oc_inv c' ∧ read_blob_payload env (be_oid row) fallback w = (Done b, with_codec w c').
Proof.
  intros Hnd Hin Hinv (id & pack & offset & len & bytes & Hid & Hp & Ho & Hl & Hf & He).
  destruct (read_pack_range_run (be_oid row) _ _ _ _ _ He Hinv) as (c' & Hc' & Hr). exists c'. split; [done|].
  unfold read_blob_payload. unfold stm_bind at 1. unfold stm_get at 1.
  rewrite find_blob_NoDup by done. rewrite Hid, Ho, Hl. unfold stm_bind, stm_get. rewrite Hp.
  unfold stm_some, stm_ret. rewrite (path_exists_file _ _ _ Hf). cbn [negb andb]. rewrite Hf. by rewrite Hr.
Qed.

(** The row of a loose blob is read from its own file. *)
Lemma read_readable_run row b w :
  NoDup (map be_oid (pw_blobs w)) → row ∈ pw_blobs w → oc_inv (pw_codec w) → readable w row b →
  ∃ c', oc_inv c' ∧ read_blob_payload env (be_oid row) (be_object_key row) w = (Done b, with_codec w c').
Proof.
  intros Hnd Hin Hinv [[Hid Hl]|Hp]; [|by apply read_packed_run].
  destruct (read_loose_run _ _ _ Hl Hinv) as (c' & Hc' & Hr). exists c'. split; [done|].
  unfold read_blob_payload. unfold stm_bind at 1. unfold stm_get at 1.
  by rewrite find_blob_NoDup, Hid, Hr by done.
Qed.

(** ** Packs while they are written

    [w0] is the world when writing starts.  The identifiers drawn from then on are
    new: distinct, without a slash, and of no pack or file of [w0]. *)
Definition pack_id_of (n : nat) : string := "pack-" +:+ pn_uuid env n.

Record fresh_ids (w0 : PackWorld) : Prop := {
  fi_inj n m : (pw_tick w0 <= n)%nat → (pw_tick w0 <= m)%nat → pn_uuid env n = pn_uuid env m → n = m;
  fi_slash n : (pw_tick w0 <= n)%nat → contains_char (pn_uuid env n) "/" = false;
  fi_packs n : (pw_tick w0 <= n)%nat → pw_packs w0 !! pack_id_of n = None;
  fi_files n prefix : (pw_tick w0 <= n)%nat →
    pw_files w0 !! pack_key prefix (pack_id_of n) = None ∧ pw_files w0 !! index_key prefix (pack_id_of n) = None;
}.

Context (w0 : PackWorld) (Hfresh : fresh_ids w0).

(** What writing leaves alone, and the reader's memory agrees with the files. *)
Record stable (w : PackWorld) : Prop := {
  st_codec : oc_inv (pw_codec w);
  st_files : pw_files w0 ⊆ pw_files w;
  st_tick : (pw_tick w0 <= pw_tick w)%nat;
  st_blobs : pw_blobs w = pw_blobs w0;
  st_packs : pw_packs w = pw_packs w0;
  st_payloads : pw_payloads w = pw_payloads w0;
  st_ops : pw_ops w = pw_ops w0;
  st_current : pw_current w = pw_current w0;
  st_reader id bytes : pw_reader w = Some (id, bytes) →
    ∃ pack, pw_packs w0 !! id = Some pack ∧ pw_files w0 !! pk_pack_key pack = Some bytes;
}.

Lemma files_with w f : pw_files (pw_with_files w f) = f.
Proof. done. Qed.

Lemma stable_codec w c : stable w → oc_inv c → stable (with_codec w c).
Proof. intros [] Hc. by split. Qed.
Lemma stable_tick w : stable w → stable (pw_with_tick w (S (pw_tick w))).
Proof. intros []. split; simpl; try done. lia. Qed.

Lemma stable_write w key v :
  stable w → pw_files w0 !! key = None → stable (pw_with_files w (<[key := v]> (pw_files w))).
Proof.
  intros [] Hk. split; try done. simpl. by apply insert_subseteq_r.
Qed.

(** The bytes of a pack file hold the entries of its index. *)
Definition filled_at (w : PackWorld) (id key : string) (entries : list PackEntry) (size : Z) : Prop :=
  ∃ n prefix bytes, (pw_tick w0 <= n < pw_tick w)%nat ∧ id = pack_id_of n ∧ key = pack_key prefix id ∧
    pw_files w !! key = Some bytes ∧ size = Z.of_nat (length bytes) ∧ size <= isize_max ∧
    ∀ e, e ∈ entries → entry_at bytes (pe_offset e) (pe_len e) (P (pe_oid e)).

Definition written_at (w : PackWorld) (p : WrittenPack) : Prop :=
  let index := wp_index p in
  filled_at w (px_pack_id index) (px_pack_key index) (px_entries index) (wp_size p) ∧
  (∃ prefix, wp_index_key p = index_key prefix (px_pack_id index)) ∧
  pw_files w !! wp_index_key p = Some (pack_index_to_vec index).

Record winv (w : PackWorld) (all : list WrittenPack) : Prop := {
  wi_stable : stable w;
  wi_written : Forall (written_at w) all;
  wi_ids : NoDup (map (λ p, px_pack_id (wp_index p)) all);
}.

Record open_inv (w : PackWorld) (all : list WrittenPack) (pack : OpenPack) : Prop := {
  oi_winv : winv w all;
  oi_filled : filled_at w (op_pack_id pack) (op_pack_key pack) (op_entries pack) (op_size pack);
  oi_index : ∃ prefix, op_index_key pack = index_key prefix (op_pack_id pack);
  oi_id : op_pack_id pack ∉ map (λ p, px_pack_id (wp_index p)) all;
}.

Lemma pack_id_slash n : (pw_tick w0 <= n)%nat → contains_char (pack_id_of n) "/" = false.
Proof. intros Hn. unfold pack_id_of. rewrite contains_char_app. by rewrite (fi_slash _ Hfresh). Qed.

Lemma pack_id_inj n m :
  (pw_tick w0 <= n)%nat → (pw_tick w0 <= m)%nat → pack_id_of n = pack_id_of m → n = m.
Proof. intros Hn Hm Heq%str_app_inj_l. by apply (fi_inj _ Hfresh). Qed.

(** Keys of other packs do not clash. *)
Definition key_of (id key : string) : Prop :=
  (∃ prefix, key = pack_key prefix id) ∨ (∃ prefix, key = index_key prefix id).

Lemma key_of_ne n m key key' :
  (pw_tick w0 <= n)%nat → (pw_tick w0 <= m)%nat → n ≠ m →
  key_of (pack_id_of n) key → key_of (pack_id_of m) key' → key ≠ key'.
Proof.
  intros Hn Hm Hne Hk Hk' ->. pose proof (pack_id_slash n Hn). pose proof (pack_id_slash m Hm).
  destruct Hk as [[p ->]|[p ->]], Hk' as [[q Heq]|[q Heq]].
  - apply pack_key_inj in Heq; [|done..]. by apply pack_id_inj in Heq.
  - by apply pack_index_key_ne in Heq.
  - symmetry in Heq. by apply pack_index_key_ne in Heq.
  - apply index_key_inj in Heq; [|done..]. by apply pack_id_inj in Heq.
Qed.

Lemma key_of_fresh n key : (pw_tick w0 <= n)%nat → key_of (pack_id_of n) key → pw_files w0 !! key = None.
Proof. intros Hn [[p ->]|[p ->]]; apply (fi_files _ Hfresh n p Hn). Qed.

(** A step that draws identifiers, changes the codec or writes a key of pack [m]
    keeps what is written of the other packs. *)
Definition files_but (m : nat) (w w' : PackWorld) : Prop :=
  (pw_tick w <= pw_tick w')%nat ∧
  ∀ n key, (pw_tick w0 <= n < pw_tick w)%nat → n ≠ m → key_of (pack_id_of n) key →
    pw_files w' !! key = pw_files w !! key.

Lemma filled_at_frame m w w' id key entries size :
  files_but m w w' → id ≠ pack_id_of m → filled_at w id key entries size → filled_at w' id key entries size.
Proof.
  intros [Ht Hf] Hid (n & prefix & bytes & Hn & -> & -> & Hb & Hrest).
  exists n, prefix, bytes. split; [lia|]. do 2 (split; [done|]). split; [|done].
  rewrite <-Hb. apply (Hf n); [done|congruence|]. left. by exists prefix.
Qed.

Lemma written_at_frame m w w' p :
  files_but m w w' → written_id p ≠ pack_id_of m → written_at w p → written_at w' p.
Proof.
  intros Hf Hid (Hfill & [prefix Hk] & Hi). split; [by eapply filled_at_frame|].
  split; [by exists prefix|]. destruct Hfill as (n & _ & _ & Hn & Hn' & _). destruct Hf as [_ Hf].
  rewrite <-Hi. apply (Hf n); [done|congruence|]. right. exists prefix. by rewrite Hk, Hn'.
Qed.

Lemma winv_frame m w w' all :
  files_but m w w' → stable w' → pack_id_of m ∉ map (λ p, px_pack_id (wp_index p)) all →
  winv w all → winv w' all.
Proof.
  intros Hf Hs Hm [_ Hw Hnd]. split; [done| |done].
  rewrite Forall_forall in *. intros p Hp. eapply written_at_frame; [done| |by apply Hw].
  intros Heq. apply Hm. rewrite <-Heq. apply list_elem_of_fmap. by exists p.
Qed.

Lemma files_but_write m w key v :
  (pw_tick w0 <= m)%nat → key_of (pack_id_of m) key →
  files_but m w (pw_with_files w (<[key := v]> (pw_files w))).
Proof.
  intros Hm Hk. split; [done|]. intros n key' Hn Hne Hk'.
  rewrite files_with, lookup_insert_ne; [done|]. apply not_eq_sym, (key_of_ne n m); auto; lia.
Qed.

Lemma files_but_same m w w' :
  pw_files w' = pw_files w → (pw_tick w <= pw_tick w')%nat → files_but m w w'.
Proof. intros Hf Ht. split; [done|]. intros. by rewrite Hf. Qed.

(** Identifiers of packs written so far are below the counter. *)
Lemma next_id_new w all :
  winv w all → pack_id_of (pw_tick w) ∉ map (λ p, px_pack_id (wp_index p)) all.
Proof.
  intros [Hs Hw _] (p & Heq & Hp)%list_elem_of_fmap. rewrite Forall_forall in Hw.
  destruct (Hw p Hp) as [(n & _ & _ & Hn & Hid & _) _]. rewrite Hid in Heq.
  apply pack_id_inj in Heq; [lia|apply Hs|lia].
Qed.

(** *** Opening, filling and finishing a pack *)

Lemma open_pack_run pp ip w all :
  winv w all → ∃ pack w', open_pack env pp ip w = (Done pack, w') ∧ open_inv w' all pack ∧
    op_entries pack = [] ∧ op_size pack = 0.
Proof.
  intros Hw. pose proof (next_id_new _ _ Hw) as Hnew. pose proof (wi_stable _ _ Hw) as Hs.
  assert (Hle : (pw_tick w0 <= pw_tick w)%nat) by apply Hs.
  unfold open_pack, new_id, tick, stm_bind, stm_modify, stm_ret. do 2 eexists. split; [reflexivity|].
  fold (pack_id_of (pw_tick w)).
  set (w1 := pw_with_tick w (S (pw_tick w))). change (pw_files w) with (pw_files w1).
  set (key := pack_key pp _).
  assert (Hk : key_of (pack_id_of (pw_tick w)) key) by (left; by exists pp).
  assert (Hkf : pw_files w0 !! key = None) by by apply (key_of_fresh (pw_tick w)).
  split; [|done]. split; simpl; [| | by exists ip|done].
  - apply (winv_frame (pw_tick w) w); [|by apply stable_write; [apply stable_tick|]|done|done].
    destruct (files_but_write (pw_tick w) w1 key [] Hle Hk) as [Ht Hf].
    split; [simpl; lia|]. intros n key' Hn ? ?. rewrite (Hf n); [done|simpl; lia|done..].
  - exists (pw_tick w), pp, []. split; [simpl; lia|]. do 2 (split; [done|]).
    simpl op_pack_key. rewrite files_with, lookup_insert_eq. split; [done|]. split; [done|]. split; [done|]. set_solver.
Qed.

Definition finished (pack : OpenPack) : WrittenPack :=
  {| wp_index := {| px_version := 1; px_pack_id := op_pack_id pack; px_pack_key := op_pack_key pack;
                    px_entries := op_entries pack |};
     wp_index_key := op_index_key pack; wp_size := op_size pack |}.

Lemma finish_pack_run w all pack :
  open_inv w all pack → ∃ w', finish_pack pack w = (Done (finished pack), w') ∧ winv w' (all ++ [finished pack]).
Proof.
  intros [Hw Hfill [ip Hik] Hid]. unfold finish_pack, stm_bind, stm_modify, stm_ret.
  eexists. split; [reflexivity|]. fold (finished pack).
  set (v := pack_index_to_vec _). set (w' := pw_with_files w _).
  destruct Hfill as (n & pp & bytes & Hn & Hidn & Hkey & Hb & Hsz).
  assert (Hk : key_of (pack_id_of n) (op_index_key pack)) by (right; exists ip; congruence).
  assert (Hs : stable w').
  { apply stable_write; [apply Hw|]. eapply key_of_fresh; [|done]. lia. }
  assert (Hfr : files_but n w w') by (apply files_but_write; [lia|done]).
  rewrite Hidn in Hid. destruct (winv_frame _ _ _ _ Hfr Hs Hid Hw) as [_ Hall Hnd].
  split; [done| |].
  - apply Forall_app. split; [done|]. apply Forall_singleton. split; [|split].
    + exists n, pp, bytes. split; [done|]. do 2 (split; [done|]). split; [|done].
      simpl px_pack_key. unfold w'. rewrite files_with, lookup_insert_ne; [done|]. rewrite Hkey, Hik. apply not_eq_sym, pack_index_key_ne.
    + by exists ip.
    + simpl wp_index_key. unfold w'. by rewrite files_with, lookup_insert_eq.
  - rewrite map_app. apply NoDup_app. split; [done|]. split; [|apply NoDup_singleton].
    intros x Hx ->%list_elem_of_singleton. simpl in Hx. by rewrite Hidn in Hx.
Qed.

Definition appended (pack : OpenPack) (oid : string) (stored : list Z) : OpenPack :=
  {| op_pack_id := op_pack_id pack; op_pack_key := op_pack_key pack; op_index_key := op_index_key pack;
     op_entries := op_entries pack ++
       [{| pe_oid := oid; pe_offset := op_size pack; pe_len := 8 + Z.of_nat (length stored) |}];
     op_size := wadd (op_size pack) (8 + Z.of_nat (length stored)) |}.

Lemma append_run w all pack oid stored :
  open_inv w all pack → decodes_to stored (P oid) →
  op_size pack + 8 + Z.of_nat (length stored) <= isize_max →
  ∃ w', stm_bind (write_all (op_pack_key pack) (to_le_bytes (Z.of_nat (length stored))))
          (λ _, write_all (op_pack_key pack) stored) w = (Done tt, w') ∧
        open_inv w' all (appended pack oid stored) ∧
        op_size (appended pack oid stored) = op_size pack + 8 + Z.of_nat (length stored).
Proof.
  intros [Hw Hfill Hik Hid] Hdec Hlen.
  destruct Hfill as (n & pp & bytes & Hn & Hidn & Hkey & Hb & Hsz & Hmax & Hent).
  unfold write_all, stm_bind, stm_modify. eexists. split; [reflexivity|].
  rewrite !files_with, lookup_insert_eq, Hb, insert_insert_eq. simpl default.
  rewrite <-(assoc_L (++)). fold (record_of stored).
  assert (Hwadd : wadd (op_size pack) (8 + Z.of_nat (length stored)) = op_size pack + 8 + Z.of_nat (length stored)).
  { unfold wadd. rewrite wrap64_small; unfold is_u64, u64_max, isize_max in *; lia. }
  split; [|by simpl]. change (pw_with_files _ _) with
    (pw_with_files w (<[op_pack_key pack := bytes ++ record_of stored]> (pw_files w))).
  set (w' := pw_with_files w _).
  assert (Hk : key_of (pack_id_of n) (op_pack_key pack)) by (left; exists pp; congruence).
  split; [|exists n, pp, (bytes ++ record_of stored)|done|done].
  - eapply (winv_frame n); [apply files_but_write; [lia|done]| |congruence|done].
    apply stable_write; [apply Hw|]. eapply key_of_fresh; [|done]. lia.
  - split; [done|]. do 2 (split; [done|]). simpl op_pack_key. simpl op_size. simpl op_entries. unfold w'.
    rewrite files_with, lookup_insert_eq, Hwadd, length_app, length_record_of. split; [done|]. split; [lia|]. split; [done|].
    intros e [He| ->%list_elem_of_singleton]%elem_of_app; [by apply entry_at_app, Hent|]. simpl.
    exists bytes, stored, []. rewrite length_record_of, (right_id_L [] (++)). split_and!; [done|done|lia|lia|done].
Qed.

(** *** The loop over the blobs *)

(** What the caller's [payload_for] must do, and what the codec must accept. *)
Definition payload_ok (payload_for : BlobExport → stm PackWorld (list Z)) (blob : BlobExport) : Prop :=
  ∀ w, stable w → ∃ w', payload_for blob w = (Done (P (be_oid blob)), w') ∧ stable w' ∧
    pw_files w' = pw_files w ∧ pw_tick w' = pw_tick w.

Definition encodable (blob : BlobExport) : Prop :=
  oc_safe (P (be_oid blob)) ∧
  ∀ s c s', oc_encode (P (be_oid blob)) s = (Done c, s') → 8 + Z.of_nat (length c) <= isize_max.

(** A pack is over the target size only if it holds a single blob. *)
Definition fits (target : Z) (entries : list PackEntry) (size : Z) : Prop :=
  entries ≠ [] ∧ (length entries = 1%nat ∨ size <= target).
Definition written_fits (target : Z) (p : WrittenPack) : Prop :=
  fits target (px_entries (wp_index p)) (wp_size p).
Definition open_fits (target : Z) (pack : OpenPack) : Prop :=
  (op_entries pack = [] ∧ op_size pack = 0) ∨ fits target (op_entries pack) (op_size pack).

Lemma winv_same w w' all :
  pw_files w' = pw_files w → pw_tick w' = pw_tick w → stable w' → winv w all → winv w' all.
Proof.
  intros Hf Ht Hs [_ Hw Hnd]. split; [done| |done]. eapply Forall_impl; [exact Hw|]. intros p.
  unfold written_at, filled_at. by rewrite Hf, Ht.
Qed.
Lemma open_inv_same w w' all pack :
  pw_files w' = pw_files w → pw_tick w' = pw_tick w → stable w' → open_inv w all pack → open_inv w' all pack.
Proof.
  intros Hf Ht Hs [Hw Hfill Hik Hid]. split; [by eapply winv_same| |done|done].
  revert Hfill. unfold filled_at. by rewrite Hf, Ht.
Qed.

(** Starting a new pack when the record does not fit. *)
Lemma rotate_run target prefixes all indexes pack record_len w :
  1 <= target <= isize_max → 0 <= record_len <= isize_max →
  open_inv w (all ++ indexes) pack → Forall (written_fits target) indexes → open_fits target pack →
  ∃ indexes' pack' w',
    (if bool_decide (op_entries pack ≠ []) && (target <? wadd (op_size pack) record_len)
     then let* done := finish_pack pack in
          let* fresh := open_pack env (pdp_pack_prefix prefixes) (pdp_index_prefix prefixes) in
          stm_ret (indexes ++ [done], fresh)
     else stm_ret (indexes, pack)) w = (Done (indexes', pack'), w') ∧
    open_inv w' (all ++ indexes') pack' ∧ Forall (written_fits target) indexes' ∧
    oids_of indexes' ++ map pe_oid (op_entries pack') = oids_of indexes ++ map pe_oid (op_entries pack) ∧
    ((op_entries pack' = [] ∧ op_size pack' = 0) ∨ op_size pack' + record_len <= target).
Proof.
  intros Ht Hr Ho Hall Hfit.
  assert (0 <= op_size pack <= isize_max) as Hsz.
  { destruct Ho as [_ (n & ? & bytes & _ & _ & _ & _ & -> & Hmax & _) _ _]. lia. }
  assert (wadd (op_size pack) record_len = op_size pack + record_len) as Hadd.
  { unfold wadd. apply wrap64_small. unfold is_u64, u64_max, isize_max in *. lia. }
  rewrite Hadd. destruct (bool_decide_reflect (op_entries pack ≠ [])) as [Hne|He]; simpl andb.
  2:{ apply dec_stable in He. eexists _, _, _. split; [reflexivity|]. do 3 (split; [done|]).
      left. destruct Hfit as [?|[]]; done. }
  destruct (Z.ltb_spec target (op_size pack + record_len)) as [Hlt|Hle].
  - destruct (finish_pack_run _ _ _ Ho) as (w1 & Hf1 & Hw1).
    destruct (open_pack_run (pdp_pack_prefix prefixes) (pdp_index_prefix prefixes) _ _ Hw1)
      as (fresh & w2 & Hf2 & Ho2 & He2 & Hs2).
    eexists _, _, w2. cbn [andb]. unfold stm_bind. rewrite Hf1, Hf2. split; [reflexivity|].
    rewrite (assoc_L (++)). split; [done|]. destruct Hfit as [[]|Hfit]; [done|]. split.
    { apply Forall_app. split; [done|]. by apply Forall_singleton. }
    unfold oids_of. rewrite flat_map_app, He2. simpl. rewrite !(right_id_L [] (++)). auto.
  - eexists _, _, _. split; [reflexivity|]. do 3 (split; [done|]). by right.
Qed.

Lemma write_blobs_run payload_for prefixes target blobs all indexes pack w :
  1 <= target <= isize_max → Forall (payload_ok payload_for) blobs → Forall encodable blobs →
  open_inv w (all ++ indexes) pack → Forall (written_fits target) indexes → open_fits target pack →
  ∃ indexes' pack' w',
    write_blobs env payload_for prefixes target indexes pack blobs w = (Done (indexes', pack'), w') ∧
    open_inv w' (all ++ indexes') pack' ∧ Forall (written_fits target) indexes' ∧ open_fits target pack' ∧
    oids_of indexes' ++ map pe_oid (op_entries pack') =
      oids_of indexes ++ map pe_oid (op_entries pack) ++ map be_oid blobs.
Proof.
  intros Ht. revert indexes pack w; induction blobs as [|blob blobs IH]; intros indexes pack w Hpay Henc Ho Hall Hfit.
  { eexists _, _, _. split; [reflexivity|]. do 3 (split; [done|]). simpl. by rewrite (right_id_L [] (++)). }
  apply Forall_cons in Hpay as [Hp Hpay]. apply Forall_cons in Henc as [[Hsafe Hlen] Henc].
  pose proof (wi_stable _ _ (oi_winv _ _ _ Ho)) as Hs.
  destruct (Hp w Hs) as (w1 & Hrun1 & Hs1 & Hf1 & Ht1).
  destruct (oc_encode_spec _ _ (st_codec _ Hs1) Hsafe) as (stored & c2 & Henc2 & Hc2 & Hdec).
  set (w2 := with_codec w1 c2).
  assert (Ho2 : open_inv w2 (all ++ indexes) pack).
  { eapply open_inv_same; [| |by apply stable_codec|done]; unfold w2; simpl; done. }
  specialize (Hlen _ _ _ Henc2).
  destruct (rotate_run target prefixes all indexes pack (8 + Z.of_nat (length stored)) w2)
    as (indexes3 & pack3 & w3 & Hrun3 & Ho3 & Hall3 & Hoids3 & Hfit3); [done|lia|done..|].
  destruct (append_run w3 _ pack3 (be_oid blob) stored Ho3 Hdec) as (w4 & Hrun4 & Ho4 & Hsize4).
  { destruct Hfit3 as [[_ ->]|?]; unfold isize_max in *; lia. }
  destruct (IH indexes3 (appended pack3 (be_oid blob) stored) w4)
    as (indexes5 & pack5 & w5 & Hrun5 & Ho5 & Hall5 & Hfit5 & Hoids5); [done..| |].
  { right. rewrite Hsize4. unfold fits. simpl. rewrite length_app. simpl. split.
    - by destruct (op_entries pack3).
    - destruct Hfit3 as [[-> _]|?]; [by left|right; lia]. }
  exists indexes5, pack5, w5. split; [|do 3 (split; [done|])].
  - cbn [write_blobs]. unfold stm_bind at 1. rewrite Hrun1. unfold stm_bind at 1.
    replace (in_store (codec (oc_encode (P (be_oid blob)))) w1) with (@Done _ string stored, w2)
      by (unfold in_store, codec; by rewrite Henc2).
    unfold stm_bind at 1. rewrite Hrun3. cbv beta iota zeta. revert Hrun4.
    unfold stm_bind, write_all, stm_modify. intros [= ->]. exact Hrun5.
  - rewrite Hoids5. simpl. rewrite map_app. simpl.
    rewrite (assoc_L (++)), (assoc_L (++)), Hoids3. by rewrite <-!(assoc_L (++)).
Qed.

Lemma write_blob_packs_run payload_for tier target blobs all w :
  target <= isize_max → Forall (payload_ok payload_for) blobs → Forall encodable blobs → winv w all →
  ∃ packs w', write_blob_packs env payload_for tier target blobs w = (Done packs, w') ∧
    winv w' (all ++ packs) ∧ Forall (written_fits (Z.max target 1)) packs ∧ oids_of packs = map be_oid blobs.
Proof.
  intros Ht Hpay Henc Hw. unfold write_blob_packs, utc_now, tick. unfold stm_bind at 1 2. unfold stm_ret at 1.
  set (w1 := pw_with_tick w (S (pw_tick w))).
  assert (Hw1 : winv w1 all).
  { apply (winv_frame (pw_tick w) w); [|apply stable_tick, Hw|by apply next_id_new|done].
    apply files_but_same; [done|simpl; lia]. }
  set (prefixes := date_prefixes _ _).
  destruct (open_pack_run (pdp_pack_prefix prefixes) (pdp_index_prefix prefixes) _ _ Hw1)
    as (pack & w2 & Hrun2 & Ho2 & He2 & Hs2).
  destruct (write_blobs_run payload_for prefixes (Z.max target 1) blobs all [] pack w2)
    as (indexes & last & w3 & Hrun3 & Ho3 & Hall3 & Hfit3 & Hoids3); [unfold isize_max in *; lia|done|done| | |by left|].
  { by rewrite (right_id_L [] (++)). }
  { constructor. }
  unfold stm_bind at 1. rewrite Hrun2. unfold stm_bind at 1. rewrite Hrun3.
  rewrite He2 in Hoids3. simpl in Hoids3.
  destruct (bool_decide_reflect (op_entries last ≠ [])) as [Hne|Hemp].
  - destruct (finish_pack_run _ _ _ Ho3) as (w4 & Hrun4 & Hw4). unfold stm_bind. rewrite Hrun4.
    eexists _, w4. split; [reflexivity|]. rewrite (assoc_L (++)). split; [done|]. split.
    + apply Forall_app. split; [done|]. apply Forall_singleton. by destruct Hfit3 as [[]|].
    + unfold oids_of in *. rewrite flat_map_app. simpl. by rewrite (right_id_L [] (++)).
  - apply dec_stable in Hemp. rewrite Hemp in Hoids3. simpl in Hoids3. rewrite (right_id_L [] (++)) in Hoids3.
    eexists _, w3. split; [reflexivity|]. split; [apply Ho3|done].
Qed.

Definition config_ok (config : PackConfig) : Prop :=
  pc_small_pack_target config <= isize_max ∧ pc_normal_pack_target config <= isize_max.

Lemma write_tiered_run payload_for config blobs all w :
  config_ok config → Forall (payload_ok payload_for) blobs → Forall encodable blobs → winv w all →
  ∃ packs w', write_tiered_blob_packs env payload_for config blobs w = (Done packs, w') ∧
    winv w' (all ++ packs) ∧ oids_of packs ≡ₚ map be_oid blobs.
Proof.
  intros [Hs Hn] Hpay Henc Hw. unfold write_tiered_blob_packs.
  destruct (write_blob_packs_run payload_for TierSmall _ (List.filter is_small blobs) all w Hs)
    as (small & w1 & Hr1 & Hw1 & _ & Ho1); [by apply Forall_list_filter..|done|].
  destruct (write_blob_packs_run payload_for TierNormal _ (List.filter (λ b, negb (is_small b)) blobs) (all ++ small) w1 Hn)
    as (normal & w2 & Hr2 & Hw2 & _ & Ho2); [by apply Forall_list_filter..|done|].
  exists (small ++ normal), w2. unfold stm_bind. rewrite Hr1, Hr2. split; [done|].
  rewrite (assoc_L (++)). split; [done|]. unfold oids_of in *. rewrite flat_map_app, Ho1, Ho2.
  rewrite <-map_app. by rewrite filter_partition.
Qed.

Lemma written_id_fresh w packs p :
  winv w packs → p ∈ packs → pw_packs w0 !! written_id p = None.
Proof.
  intros [_ Hw _] Hp. rewrite Forall_forall in Hw. destruct (Hw p Hp) as [(n & ? & ? & Hn & -> & _) _].
  apply (fi_packs _ Hfresh). lia.
Qed.

(** Rows in the new packs, and rows that stay in old ones, are read from them. *)
Lemma persisted_packed w packs b :
  winv w packs → b ∈ pw_blobs w0 →
  be_oid b ∈ oids_of packs ∨ pack_readable (pw_files w0) (pw_packs w0) b (P (be_oid b)) →
  ∃ b', b' ∈ pw_blobs (persisted w packs) ∧ be_oid b' = be_oid b ∧
    pack_readable (pw_files w) (pw_packs (persisted w packs)) b' (P (be_oid b)).
Proof.
  intros Hw Hb Hor. exists (fold_left relocate (locations packs) b).
  rewrite persisted_eq. simpl. split; [|split; [apply relocate_all_oid|]].
  { rewrite (st_blobs _ (wi_stable _ _ Hw)). by apply list_elem_of_fmap_2. }
  destruct (relocate_all b (locations packs)) as [[Heq Hnot]|(id & e & Hin & Hoid & Hid & Ho & Hl)].
  - rewrite Heq. rewrite locations_oids in Hnot.
    destruct Hor as [?|(id & pack & offset & len & bytes & Hid & Hp & Ho & Hl & Hf & He)]; [done|].
    exists id, pack, offset, len, bytes. split; [done|]. split; [|do 2 (split; [done|]); split; [|done]].
    + rewrite pack_rows_other; [by rewrite (st_packs _ (wi_stable _ _ Hw))|].
      intros (p & -> & Hpp)%list_elem_of_fmap. by rewrite (written_id_fresh _ _ _ Hw Hpp) in Hp.
    + eapply lookup_weaken; [done|]. apply Hw.
  - apply elem_of_locations in Hin as (p & Hp & -> & He). destruct Hw as [Hs Hall Hnd].
    rewrite Forall_forall in Hall. destruct (Hall p Hp) as [(n & pp & bytes & _ & _ & _ & Hf & _ & _ & Hent) _].
    exists (written_id p), (pack_row p), (pe_offset e), (pe_len e), bytes.
    split; [done|]. split; [by apply pack_rows_lookup|]. do 2 (split; [done|]). split; [done|].
    rewrite <-Hoid. by apply Hent.
Qed.

(** ** The two readers *)

Lemma stable_here : oc_inv (pw_codec w0) → pw_reader w0 = None → stable w0.
Proof. intros Hc Hr. split; try done. by rewrite Hr. Qed.

Lemma loose_payload_ok blob :
  loose_readable (pw_files w0) (be_object_key blob) (P (be_oid blob)) →
  payload_ok (λ b, in_store (read_object (pn_store env) (be_object_key b))) blob.
Proof.
  intros (Hv & Hm & enc & Hf & Hd) w Hs.
  destruct (read_loose_run (be_object_key blob) (P (be_oid blob)) w) as (c' & Hc' & Hr).
  { split; [done|]. split; [done|]. exists enc. split; [|done]. eapply lookup_weaken; [done|apply Hs]. }
  { apply Hs. }
  exists (with_codec w c'). split; [done|]. split; [by apply stable_codec|done].
Qed.

Lemma stable_reader w id pack bytes :
  stable w → pw_packs w0 !! id = Some pack → pw_files w0 !! pk_pack_key pack = Some bytes →
  stable (pw_with_reader w (Some (id, bytes))).
Proof. intros [] Hp Hf. split; simpl; try done. intros ? ? [= <- <-]. by exists pack. Qed.

Lemma compact_payload_ok blob :
  readable w0 blob (P (be_oid blob)) → payload_ok (compact_read_blob env (pw_packs w0)) blob.
Proof.
  intros [[Hid Hl]|(id & pack & offset & len & bytes & Hid & Hp & Ho & Hl & Hf & He)] w Hs.
  { unfold compact_read_blob. rewrite Hid. by apply loose_payload_ok. }
  assert (Hfw : pw_files w !! pk_pack_key pack = Some bytes) by (eapply lookup_weaken; [done|apply Hs]).
  assert (∃ w1, stable w1 ∧ pw_files w1 = pw_files w ∧ pw_tick w1 = pw_tick w ∧
    compact_read_blob env (pw_packs w0) blob w = read_pack_range (be_oid blob) bytes offset len w1)
    as (w1 & Hs1 & Hf1 & Ht1 & ->).
  { unfold compact_read_blob. rewrite Hid, Hp, Ho, Hl. unfold stm_bind, stm_get.
    rewrite (path_exists_file _ _ _ Hfw). cbn [negb].
    assert (stable (pw_with_reader w (Some (id, bytes)))) as Hsr by by eapply stable_reader.
    destruct (pw_reader w) as [[cid cbytes]|] eqn:Hc.
    - destruct (String.eqb_spec cid id) as [->|Hne].
      + exists w. unfold stm_ret, stm_some. split_and!; try done. destruct (st_reader _ Hs _ _ Hc) as (p' & ? & ?).
        by simplify_map_eq.
      + exists (pw_with_reader w (Some (id, bytes))). rewrite Hfw. done.
    - exists (pw_with_reader w (Some (id, bytes))). rewrite Hfw. done. }
  destruct (read_pack_range_run (be_oid blob) _ _ _ _ w1 He) as (c' & Hc' & Hr); [apply Hs1|].
  exists (with_codec w1 c'). split; [done|]. split; [by apply stable_codec|done].
Qed.
End Laws.

(** ** Theorems *)

Section Theorems.
Context `{!ObjectCodec, !Chrono, !PackJson, !ObjectCodecLaws}.
Context (env : PackEnv) (P : string → list Z).

(** A world in which packing can run: the codec is sound, identifiers will be new,
    object identifiers are the primary key, targets are at most [isize::MAX], and
    the payloads can be encoded. *)
Record pack_ready (config : PackConfig) (w : PackWorld) : Prop := {
  pr_codec : oc_inv (sw_codec (pw_store w));
  pr_reader : pw_reader w = None;
  pr_fresh : fresh_ids env w;
  pr_oids : NoDup (map be_oid (pw_blobs w));
  pr_config : config_ok config;
  pr_encodable : Forall (encodable P) (pw_blobs w);
}.

Lemma fresh_ids_tables w blobs : fresh_ids env w → fresh_ids env (pw_with_tables w blobs (pw_packs w)).
Proof. intros []. by split. Qed.

Lemma list_filter_elem {A} (f : A → bool) l x : x ∈ List.filter f l ↔ x ∈ l ∧ f x = true.
Proof. by rewrite !list_elem_of_In, filter_In. Qed.

Lemma NoDup_map_filter {A B} (g : A → B) (f : A → bool) l :
  NoDup (map g l) → NoDup (map g (List.filter f l)).
Proof.
  induction l as [|x l IH]; simpl; [done|]. intros [Hx Hnd]%NoDup_cons. destruct (f x); simpl; [|auto].
  apply NoDup_cons. split; [|auto]. intros (y & Hy & [Hin _]%list_filter_elem)%list_elem_of_fmap.
  apply Hx, list_elem_of_fmap. eauto.
Qed.

(** Writing packs for some of the rows and recording them. *)
Lemma write_and_persist w payload_for config blobs :
  pack_ready config w → Forall (payload_ok P w payload_for) blobs → (∀ b, b ∈ blobs → b ∈ pw_blobs w) →
  ∃ packs w1, write_tiered_blob_packs env payload_for config blobs w = (Done packs, w1) ∧
    oids_of packs ≡ₚ map be_oid blobs ∧ winv env P w w1 packs.
Proof.
  intros [Hc Hr Hfr Hnd Hcfg Henc] Hpay Hsub. rewrite Forall_forall in Henc.
  destruct (write_tiered_run env P w Hfr payload_for config blobs [] w) as (packs & w1 & Hrun & Hw1 & Ho).
  - done.
  - done.
  - apply Forall_forall. auto.
  - split; [by apply stable_here|constructor|constructor].
  - eauto.
Qed.

Definition row_ok (w : PackWorld) (b : BlobExport) : Prop :=
  (be_pack_id b = None ∧ pw_files w !! be_object_key b = None) ∨ readable env w b (P (be_oid b)).

Lemma readable_not_missing w b missing :
  NoDup (map be_oid (pw_blobs w)) → b ∈ pw_blobs w → readable env w b (P (be_oid b)) →
  (∀ m, m ∈ missing → m ∈ pw_blobs w ∧ is_file w (be_object_key m) = false) →
  mem_oid (be_oid b) missing && bool_decide (be_pack_id b = None) = false.
Proof.
  intros Hnd Hb Hr Hm. apply andb_false_iff.
  destruct (mem_oid (be_oid b) missing) eqn:Hmem; [|by left]. right.
  apply existsb_elem_of in Hmem as (m & Hin & Heq%String.eqb_eq). destruct (Hm m Hin) as [Hmb Hf].
  assert (m = b) as -> by (apply (f_equal (λ o, find_blob o (pw_blobs w))) in Heq;
                           rewrite !find_blob_NoDup in Heq by done; congruence).
  destruct Hr as [[_ (_ & _ & enc & He & _)]|(id & _ & _ & _ & _ & Hid & _)].
  - unfold is_file in Hf. by rewrite He in Hf.
  - by rewrite Hid.
Qed.

(** Dropping the rows of missing loose blobs keeps the rows that can be read. *)
Lemma remove_missing_run config w missing :
  pack_ready config w → (∀ m, m ∈ missing → m ∈ pw_blobs w ∧ is_file w (be_object_key m) = false) →
  ∃ w1, (if bool_decide (missing ≠ []) then remove_unreferenced_missing_loose_blobs missing
         else stm_ret tt) w = (Done tt, w1) ∧
    pack_ready config w1 ∧ pw_files w1 = pw_files w ∧ pw_packs w1 = pw_packs w ∧
    (∀ b, b ∈ pw_blobs w1 → b ∈ pw_blobs w) ∧
    (∀ b, b ∈ pw_blobs w → readable env w b (P (be_oid b)) → b ∈ pw_blobs w1).
Proof.
  intros Hready Hm. destruct (bool_decide_reflect (missing ≠ [])) as [_|_].
  2:{ exists w. split_and!; done. }
  eexists. split; [reflexivity|]. destruct Hready as [Hc Hr Hf Hnd Hcfg Henc].
  split; [|split_and!; try done]; [split; try done| |].
  - by apply fresh_ids_tables.
  - by apply NoDup_map_filter.
  - by apply Forall_list_filter.
  - simpl. intros b [Hb _]%list_filter_elem. done.
  - simpl. intros b Hb Hrb. apply list_filter_elem. split; [done|].
    rewrite (readable_not_missing w b missing) by done. done.
Qed.

Lemma with_ops_reads w ops row b fallback :
  NoDup (map be_oid (pw_blobs w)) → row ∈ pw_blobs w → oc_inv (sw_codec (pw_store w)) →
  pack_readable (pw_files w) (pw_packs w) row b →
  ∃ c', read_blob_payload env (be_oid row) fallback (pw_with_ops w ops) =
    (Done b, with_codec (pw_with_ops w ops) c').
Proof.
  intros Hnd Hrow Hc Hp. destruct (read_packed_run env row b fallback (pw_with_ops w ops)) as (c' & _ & Hr); eauto.
Qed.

(** Rows persisted after writing are read back. *)
Lemma persisted_reads w w1 packs ops b fallback :
  fresh_ids env w → NoDup (map be_oid (pw_blobs w)) → winv env P w w1 packs → b ∈ pw_blobs w →
  be_oid b ∈ oids_of packs ∨ pack_readable (pw_files w) (pw_packs w) b (P (be_oid b)) →
  ∃ c', read_blob_payload env (be_oid b) fallback (pw_with_ops (persisted w1 packs) ops) =
    (Done (P (be_oid b)), with_codec (pw_with_ops (persisted w1 packs) ops) c').
Proof.
  intros Hf Hnd Hw Hb Hor. destruct (persisted_packed env P w Hf w1 packs b Hw Hb Hor) as (b' & Hb' & Hoid & Hp).
  rewrite <-Hoid in Hp |- *. eapply with_ops_reads; try done.
  - rewrite persisted_oids. by rewrite (st_blobs _ _ (wi_stable _ _ _ _ _ Hw)).
  - rewrite persisted_eq. apply Hw.
  - rewrite persisted_eq in Hp |- *. done.
Qed.

(** C26. [mj pack] keeps every blob: it returns, and each row whose blob could be read
    before is afterwards in a pack from which the same bytes are read, whether or not
    its loose file is still there. *)
Theorem pack_loose_blobs_keeps config w :
  pack_ready config w →
  (∀ b, b ∈ pw_blobs w →
     (be_pack_id b = None ∧ pw_files w !! be_object_key b = None) ∨ readable env w b (P (be_oid b))) →
  ∃ w', pack_loose_blobs env config w = (Done tt, w') ∧
    ∀ b, b ∈ pw_blobs w → readable env w b (P (be_oid b)) →
      ∀ fallback, ∃ c', read_blob_payload env (be_oid b) fallback w' = (Done (P (be_oid b)), with_codec w' c').
Proof.
  intros Hready Hrows. unfold pack_loose_blobs.
  set (loose := List.filter (λ b, bool_decide (be_pack_id b = None)) (pw_blobs w)).
  set (blobs := List.filter (λ b, is_file w (be_object_key b)) loose).
  set (missing := List.filter (λ b, negb (is_file w (be_object_key b))) loose).
  assert (Hloose : ∀ b, b ∈ blobs → b ∈ pw_blobs w ∧ readable env w b (P (be_oid b)) ∧
                     loose_readable env (pw_files w) (be_object_key b) (P (be_oid b))).
  { intros b [[Hb Hid%bool_decide_eq_true]%list_filter_elem Hfile]%list_filter_elem. split; [done|].
    unfold is_file in Hfile. destruct (Hrows b Hb) as [[_ Hn]|Hr]; [by rewrite Hn in Hfile|].
    split; [done|]. destruct Hr as [[_ ?]|(? & ? & ? & ? & ? & ? & _)]; congruence. }
  destruct (remove_missing_run config w missing) as (w1 & Hrun1 & Hready1 & Hf1 & Hp1 & _ & Hkeep); [done| |].
  { intros m [[Hm _]%list_filter_elem Hfile]%list_filter_elem. split; [done|]. by apply negb_true_iff. }
  change (stm_get pw_blobs) with (stm_get pw_blobs : stm PackWorld _).
  unfold stm_bind at 1 2 3, stm_get. fold loose blobs missing. unfold stm_bind at 1. rewrite Hrun1.
  destruct (bool_decide_reflect (blobs = [])) as [Hnil|Hne].
  - exists w1. split; [done|]. intros b Hb Hr fallback.
    destruct (read_packed_run env b (P (be_oid b)) fallback w1) as (c' & _ & Hrd); [apply Hready1|auto|apply Hready1| |by exists c'].
    rewrite Hf1, Hp1. destruct Hr as [[Hid (_ & _ & enc & He & _)]|?]; [|done].
    assert (b ∈ blobs) as Hin; [|rewrite Hnil in Hin; set_solver].
    apply list_filter_elem. split; [apply list_filter_elem; by rewrite bool_decide_true|].
    unfold is_file. by rewrite He.
  - destruct (write_and_persist w1
      (λ blob, in_store (read_object (pn_store env) (be_object_key blob))) config blobs)
      as (packs & w2 & Hrun2 & Hoids & Hw2); [done| |intros b Hb; apply Hkeep; by apply Hloose|].
    { apply Forall_forall. intros b Hb. apply loose_payload_ok. rewrite Hf1. by apply Hloose. }
    unfold stm_bind. rewrite Hrun2. eexists. split; [reflexivity|].
    intros b Hb Hr fallback. apply (persisted_reads w1 w2); [apply Hready1|apply Hready1|done|auto|].
    rewrite Hoids, Hf1, Hp1. destruct Hr as [[Hid (_ & _ & enc & He & _)]|?]; [left|by right].
    apply list_elem_of_fmap_2, list_filter_elem. split; [apply list_filter_elem; by rewrite bool_decide_true|].
    unfold is_file. by rewrite He.
Qed.

(** *** Compaction *)

Definition drop_old (old : gmap string PackExport) (ids : list string) (w : PackWorld) : PackWorld :=
  pw_with_tables w (pw_blobs w) (filter (λ '(id, _), is_Some (old !! id) → id ∈ ids) (pw_packs w)).

Lemma relocated_new packs b :
  be_oid b ∈ oids_of packs →
  ∃ id, be_pack_id (fold_left relocate (locations packs) b) = Some id ∧
    id ∈ map (λ p, px_pack_id (wp_index p)) packs.
Proof.
  intros Hb. destruct (relocate_all b (locations packs)) as [[_ Hnot]|(id & e & Hin & _ & Hid & _)].
  - by rewrite locations_oids in Hnot.
  - exists id. split; [done|]. apply elem_of_locations in Hin as (p & Hp & -> & _).
    apply list_elem_of_fmap. by exists p.
Qed.

(** Rows of the new packs are still read when the old pack rows are gone. *)
Lemma compacted_reads w w1 packs ops b fallback :
  fresh_ids env w → NoDup (map be_oid (pw_blobs w)) → winv env P w w1 packs → b ∈ pw_blobs w →
  be_oid b ∈ oids_of packs →
  let w' := pw_with_ops (drop_old (pw_packs w) (map (λ p, px_pack_id (wp_index p)) packs) (persisted w1 packs)) ops in
  ∃ c', read_blob_payload env (be_oid b) fallback w' = (Done (P (be_oid b)), with_codec w' c').
Proof.
  intros Hf Hnd Hw Hb Hin. pose proof (wi_stable _ _ _ _ _ Hw) as Hs.
  set (b' := fold_left relocate (locations packs) b).
  assert (be_oid b' = be_oid b) as Hoid by apply relocate_all_oid.
  assert (b' ∈ pw_blobs (persisted w1 packs)) as Hb'.
  { rewrite persisted_eq. simpl. rewrite (st_blobs _ _ Hs). by apply list_elem_of_fmap_2. }
  assert (NoDup (map be_oid (pw_blobs (persisted w1 packs)))) as Hnd'.
  { rewrite persisted_oids. by rewrite (st_blobs _ _ Hs). }
  destruct (persisted_packed env P w Hf w1 packs b Hw Hb (or_introl Hin)) as (b'' & Hb'' & Hoid'' & Hp).
  assert (b'' = b') as ->.
  { pose proof (find_blob_NoDup _ _ Hnd' Hb') as H1'. pose proof (find_blob_NoDup _ _ Hnd' Hb'') as H2'.
    rewrite Hoid in H1'. rewrite Hoid'' in H2'. congruence. }
  cbv zeta. rewrite <-Hoid in Hp |- *. apply with_ops_reads; [done|done|by rewrite persisted_eq; apply Hw|].
  destruct Hp as (id & pack & offset & len & bytes & Hid & Hpk & Hrest).
  exists id, pack, offset, len, bytes. split; [done|]. split.
  - unfold drop_old. simpl. apply map_lookup_filter_Some. split; [done|]. intros _.
    destruct (relocated_new packs b Hin) as (id' & Hid' & Hin'). unfold b' in Hid. congruence.
  - unfold drop_old. rewrite persisted_eq. exact Hrest.
Qed.

Lemma sort_blobs_perm blobs : sort_blobs_for_compaction blobs ≡ₚ blobs.
Proof. apply merge_sort_Permutation. Qed.

(** C2. [mj pack --compact] keeps every blob: when every row can be read and the
    current snapshot can be loaded, it returns, every row can still be read and
    gives the same bytes, and, if any row was packed, no pack of before is left in
    the pack table. *)
Theorem pack_compact_keeps config w :
  pack_ready config w →
  (∀ b, b ∈ pw_blobs w → readable env w b (P (be_oid b))) →
  (∀ id, pw_current w = Some id → is_ok (pn_snapshot_blob_oids env id) = true) →
  ∃ w', pack_compact_cmd env config w = (Done tt, w') ∧
    (∀ b, b ∈ pw_blobs w →
       ∃ c', read_blob_payload env (be_oid b) (be_object_key b) w' = (Done (P (be_oid b)), with_codec w' c')) ∧
    ((∃ b, b ∈ pw_blobs w ∧ is_Some (be_pack_id b)) →
       ∀ id, is_Some (pw_packs w' !! id) → pw_packs w !! id = None).
Proof.
  intros Hready Hrows Hcur. unfold pack_compact_cmd. unfold stm_bind at 1, stm_get at 1.
  destruct (bool_decide_reflect (List.filter (λ b, bool_decide (is_Some (be_pack_id b))) (pw_blobs w) = []))
    as [Hnil|Hsome].
  { exists w. split; [done|]. split.
    - intros b Hb. destruct (read_readable_run env b (P (be_oid b)) w) as (c' & _ & Hr); eauto; apply Hready.
    - intros (b & Hb & Hid). assert (b ∈ ([] : list BlobExport)) as Hin; [|set_solver].
      rewrite <-Hnil. apply list_filter_elem. by rewrite bool_decide_true. }
  assert (∃ oids, current_snapshot_blob_oids env w = (Done oids, w)) as (oids & Hoids).
  { unfold current_snapshot_blob_oids, stm_bind, stm_get. destruct (pw_current w) as [id|]; [|by eexists].
    specialize (Hcur id eq_refl). unfold stm_ok, stm_lift. destruct (pn_snapshot_blob_oids env id); [by eexists|done]. }
  unfold stm_bind at 1, stm_get at 1. unfold stm_bind at 1. rewrite Hoids. unfold stm_bind at 1, stm_modify at 1.
  set (w0 := pw_with_reader w None).
  assert (Hready0 : pack_ready config w0) by (destruct Hready as [? ? Hfr ? ? ?]; split; try done; by destruct Hfr).
  set (cur := sort_blobs_for_compaction _). set (hist := sort_blobs_for_compaction _).
  assert (Hperm : map be_oid cur ++ map be_oid hist ≡ₚ map be_oid (pw_blobs w)).
  { rewrite <-map_app. unfold cur, hist. by rewrite !sort_blobs_perm, filter_partition. }
  assert (Hin : ∀ b, b ∈ cur ++ hist → b ∈ pw_blobs w).
  { intros b. unfold cur, hist. rewrite !sort_blobs_perm. by rewrite filter_partition. }
  assert (Hpay : Forall (payload_ok P w0 (compact_read_blob env (pw_packs w))) (cur ++ hist)).
  { apply Forall_forall. intros b Hb. apply (compact_payload_ok env P w0).
    exact (Hrows b (Hin b Hb)). }
  assert (Henc : Forall (encodable P) (cur ++ hist)).
  { apply Forall_forall. intros b Hb. eapply Forall_forall; [apply Hready|]. by apply Hin. }
  apply Forall_app in Hpay as [Hpay1 Hpay2]. apply Forall_app in Henc as [Henc1 Henc2].
  destruct (write_tiered_run env P w0 (pr_fresh _ _ Hready0) _ config cur [] w0 (pr_config _ _ Hready) Hpay1 Henc1)
    as (packs1 & w1 & Hrun1 & Hw1 & Ho1).
  { split; [apply stable_here; [apply Hready|done]|constructor|constructor]. }
  destruct (write_tiered_run env P w0 (pr_fresh _ _ Hready0) _ config hist packs1 w1 (pr_config _ _ Hready) Hpay2 Henc2)
    as (packs2 & w2 & Hrun2 & Hw2 & Ho2); [done|].
  unfold stm_bind. rewrite Hrun1, Hrun2. eexists. split; [reflexivity|]. split.
  - intros b Hb. apply (compacted_reads w0 w2); [apply Hready0|apply Hready0|done|done|].
    unfold oids_of in *. rewrite flat_map_app, Ho1, Ho2, Hperm. by apply list_elem_of_fmap_2.
  - intros _ id [pack Hpk]. simpl in Hpk. apply map_lookup_filter_Some in Hpk as [_ Hnew].
    destruct (pw_packs w !! id) as [old|] eqn:Hold; [|done]. specialize (Hnew (mk_is_Some _ _ eq_refl)).
    apply list_elem_of_fmap in Hnew as (p & -> & Hp).
    pose proof (written_id_fresh env P w0 (pr_fresh _ _ Hready0) w2 _ p Hw2 Hp) as Hnone.
    change (pw_packs w0) with (pw_packs w) in Hnone. congruence.
Qed.
End Theorems.

(** ** What a failed run leaves *)

Section Failure.
Context `{!ObjectCodec, !Chrono, !PackJson}.
Context (env : PackEnv).

Definition tables (w : PackWorld) : list BlobExport * gmap string PackExport := (pw_blobs w, pw_packs w).

Lemma in_store_keeps {A} (m : stm StoreWorld A) : keeps tables (in_store m).
Proof. intros w. unfold in_store. by destruct (m (pw_store w)). Qed.
Hint Resolve in_store_keeps : mj.

Lemma tick_keeps : keeps tables tick.
Proof. done. Qed.
Hint Resolve tick_keeps : mj.

Lemma read_pack_range_keeps oid bytes offset len : keeps tables (read_pack_range oid bytes offset len).
Proof. unfold read_pack_range. keeps_solve. Qed.
Hint Resolve read_pack_range_keeps : mj.

Lemma read_blob_payload_keeps oid key : keeps tables (read_blob_payload env oid key).
Proof. unfold read_blob_payload. keeps_solve. Qed.
Hint Resolve read_blob_payload_keeps : mj.

Lemma compact_read_blob_keeps packs blob : keeps tables (compact_read_blob env packs blob).
Proof. unfold compact_read_blob. keeps_solve. Qed.

Lemma open_pack_keeps p i : keeps tables (open_pack env p i).
Proof. unfold open_pack, new_id. keeps_solve. Qed.
Lemma finish_pack_keeps pack : keeps tables (finish_pack pack).
Proof. unfold finish_pack. keeps_solve. Qed.
Lemma write_all_keeps key bytes : keeps tables (write_all key bytes).
Proof. unfold write_all. keeps_solve. Qed.
Hint Resolve open_pack_keeps finish_pack_keeps write_all_keeps : mj.

Lemma write_blobs_keeps payload_for prefixes target indexes pack blobs :
  (∀ b, keeps tables (payload_for b)) →
  keeps tables (write_blobs env payload_for prefixes target indexes pack blobs).
Proof.
  intros Hp. revert indexes pack; induction blobs as [|b blobs IH]; intros indexes pack; cbn [write_blobs]; keeps_solve.
Qed.

Lemma write_tiered_keeps payload_for config blobs :
  (∀ b, keeps tables (payload_for b)) → keeps tables (write_tiered_blob_packs env payload_for config blobs).
Proof.
  intros Hp. unfold write_tiered_blob_packs, write_blob_packs, utc_now. pose proof (write_blobs_keeps payload_for).
  keeps_solve.
Qed.

(** A compaction that fails or panics, for example because a pack is neither
    local nor on the remote, leaves the blob and pack tables untouched: every row
    still points into the packs of before. *)
Theorem pack_compact_failure_safe config w :
  match pack_compact_cmd env config w with
  | (Done _, _) => True
  | (_, w') => pw_blobs w' = pw_blobs w ∧ pw_packs w' = pw_packs w
  end.
Proof.
  unfold pack_compact_cmd. unfold stm_bind at 1, stm_get at 1. destruct (bool_decide _); [done|].
  unfold stm_bind at 1, stm_get at 1. set (k := stm_bind (current_snapshot_blob_oids env) _).
  enough (match k w with (Done _, _) => True | (_, w') => tables w' = tables w end) as Hk.
  { destruct (k w) as [[[]|e|] w']; [done|unfold tables in Hk; by injection Hk..]. }
  assert (∀ b, keeps tables (compact_read_blob env (pw_packs w) b)) as Hread by apply compact_read_blob_keeps.
  unfold k, stm_bind.
  assert (keeps tables (current_snapshot_blob_oids env)) as Hoids by (unfold current_snapshot_blob_oids; keeps_solve).
  specialize (Hoids w). destruct (current_snapshot_blob_oids env w) as [[oids|e|] w1]; [|done..].
  simpl in Hoids. unfold stm_modify at 1.
  match goal with |- context [write_tiered_blob_packs env ?r config ?l ?w2] =>
    pose proof (write_tiered_keeps r config l Hread w2) as H1k;
    destruct (write_tiered_blob_packs env r config l w2) as [[cur|e|] w3] end; simpl in H1k; [|by rewrite <-Hoids..].
  match goal with |- context [write_tiered_blob_packs env ?r config ?l ?w4] =>
    pose proof (write_tiered_keeps r config l Hread w4) as H2k;
    destruct (write_tiered_blob_packs env r config l w4) as [[hist|e|] w5] end; simpl in H2k;
    [done|by rewrite H2k, H1k, <-Hoids..].
Qed.
End Failure.

(** ** A concrete store *)

Module PackStoreExample.
Import CryptoExample LargeStoreExample CoreExample.

#[export] Instance ex_pack_json : PackJson := {| pack_index_to_vec i := [px_version i] |}.

Definition ex_P (oid : string) : list Z := if (oid =? "a")%string then [1; 2] else [9].
Definition ex_loose : BlobExport := BlobExport_new "a" 2 "objects/blobs/aa/a".
Definition ex_packed : BlobExport := with_pack_location (BlobExport_new "b" 1 "objects/blobs/bb/b") "old" 0 9.
Definition ex_old_pack : PackExport := {|
  pk_pack_id := "old"; pk_pack_key := "objects/packs/old.mpack.bak"; pk_index_key := "i";
  pk_object_count := 1; pk_size := 9 |}.
Definition ex_pack_world : PackWorld := {|
  pw_store := {| sw_codec := ex_keys : codec_state;
    sw_objects := {["objects/blobs/aa/a" := [1; 2]; "objects/packs/old.mpack.bak" := record_of [9]]};
    sw_chunks := ∅; sw_large_objects := ∅; sw_links := ∅ |};
  pw_blobs := [ex_loose; ex_packed]; pw_packs := {["old" := ex_old_pack]}; pw_payloads := ["a"; "b"];
  pw_ops := []; pw_current := Some "s"; pw_reader := None; pw_tick := 0 |}.
Definition ex_pack_env : PackEnv := {|
  pn_store := ex_store_env; pn_uuid := nat_str; pn_now := λ _, 0; pn_snapshot_blob_oids := λ _, Ok ["a"];
  pn_auto_pack_compact := None; pn_min_reclaim_bytes := None; pn_max_utilization_percent := None |}.
Definition ex_pack_config : PackConfig := {| pc_small_pack_target := 12; pc_normal_pack_target := 12 |}.

Lemma ex_encode b s c s' : oc_encode b s = (Done c, s') → c = b.
Proof. intros Henc. by injection Henc. Qed.

Lemma ex_decodes b : has_magic b = false → decodes_to b b.
Proof.
  intros Hm. destruct (@oc_encode_spec ex_codec ex_codec_laws ex_keys b ex_key_inv) as (c & s' & Henc & _ & Hd).
  - apply plain_crypto_safe; [by right|done].
  - apply ex_encode in Henc as ->. exact Hd.
Qed.

Lemma ex_encodable b : b ∈ pw_blobs ex_pack_world → encodable ex_P b.
Proof.
  intros [->|[->|[]%elem_of_nil]%elem_of_cons]%elem_of_cons; (split;
    [apply plain_crypto_safe; [by right|reflexivity]
    |intros s c s' ->%ex_encode; vm_compute; discriminate]).
Qed.

Lemma digits_no_slash n : contains_char (nat_str n) "/" = false.
Proof.
  apply contains_char_forallb. eapply str_forallb_impl; [|apply string_of_N_digits].
  intros c Hc. destruct (Ascii.eqb_spec "/" c) as [<-|]; [discriminate Hc|reflexivity].
Qed.

Lemma ex_key_new key : pw_files ex_pack_world !! key = None ↔
  key ≠ "objects/blobs/aa/a" ∧ key ≠ "objects/packs/old.mpack.bak".
Proof.
  change (pw_files ex_pack_world) with
    ({["objects/blobs/aa/a" := [1; 2]; "objects/packs/old.mpack.bak" := record_of [9]]} : gmap string (list Z)).
  rewrite lookup_insert_None, lookup_singleton_None. naive_solver.
Qed.

Lemma ex_fresh : fresh_ids ex_pack_env ex_pack_world.
Proof.
  split.
  - intros n m _ _ Heq. simpl in Heq. unfold nat_str in Heq. apply string_of_N_inj in Heq. lia.
  - intros n _. apply digits_no_slash.
  - intros n _. simpl. apply lookup_singleton_ne. discriminate.
  - intros n prefix _. split; apply ex_key_new; unfold pack_key, index_key; rewrite !str_app_assoc;
      split; intros Heq%(f_equal String.rev); rewrite rev_app_distr in Heq; discriminate Heq.
Qed.

Lemma ex_pack_ready : pack_ready ex_pack_env ex_P ex_pack_config ex_pack_world.
Proof.
  split.
  - apply ex_key_inv.
  - reflexivity.
  - apply ex_fresh.
  - apply (bool_decide_unpack _). reflexivity.
  - split; vm_compute; discriminate.
  - apply Forall_forall. apply ex_encodable.
Qed.

Lemma ex_readable b : b ∈ pw_blobs ex_pack_world → readable ex_pack_env ex_pack_world b (ex_P (be_oid b)).
Proof.
  intros [->|[->|[]%elem_of_nil]%elem_of_cons]%elem_of_cons.
  - left. split; [reflexivity|]. split; [reflexivity|]. split; [reflexivity|].
    exists [1; 2]. split; [reflexivity|]. by apply ex_decodes.
  - right. exists "old", ex_old_pack, 0, 9, (record_of [9]). do 5 (split; [reflexivity|]).
    exists [], [9], []. do 3 (split; [reflexivity|]). split; [vm_compute; discriminate|]. by apply ex_decodes.
Qed.

Lemma pack_loose_blobs_keeps_witness :
  ∃ w', pack_loose_blobs ex_pack_env ex_pack_config ex_pack_world = (Done tt, w') ∧
    ∃ c', read_blob_payload ex_pack_env "a" "" w' = (Done [1; 2], with_codec w' c').
Proof.
  destruct (pack_loose_blobs_keeps ex_pack_env ex_P ex_pack_config ex_pack_world ex_pack_ready) as (w' & Hrun & Hread).
  - intros b Hb. right. by apply ex_readable.
  - exists w'. split; [exact Hrun|]. apply (Hread ex_loose); [left|apply ex_readable; left].
Defined.

Lemma pack_compact_keeps_witness :
  ∃ w', pack_compact_cmd ex_pack_env ex_pack_config ex_pack_world = (Done tt, w') ∧
    (∃ c', read_blob_payload ex_pack_env "b" "objects/blobs/bb/b" w' = (Done [9], with_codec w' c')) ∧
    (is_Some (pw_packs w' !! "old") → False).
Proof.
  destruct (pack_compact_keeps ex_pack_env ex_P ex_pack_config ex_pack_world ex_pack_ready) as (w' & Hrun & Hread & Hold).
  - apply ex_readable.
  - intros id _. reflexivity.
  - exists w'. split; [exact Hrun|]. split; [apply (Hread ex_packed); right; left|].
    intros Hs. discriminate (Hold (ex_intro _ ex_packed (conj (list_elem_of_further _ _ _ (list_elem_of_here _ _))
      (mk_is_Some _ _ eq_refl))) "old" Hs).
Defined.
End PackStoreExample.
