(* ===== verification/RestoreJob.v ===== *)
(** * Restore jobs

    The life of a restore job in [src/main.rs] and [src/restore_runtime.rs]: a job is
    prepared from the objects a restore plan needs, archived objects are requested
    and hydrated from the remote, and the plan is applied once nothing is pending.  The
    calls that make directories and write files may fail, also half way. *)

From S2P Require Import Prelude RStr BTree MachInt Core Util Config Large Crypto Store Pack Restore LargeStore RemoteObjects PackStore.

Local Open Scope Z_scope.

Section RestoreJob.
Context `{!ObjectCodec, !Blake3, !Chrono, !PackJson, !Zstd, !Serde TreeNodeManifest, !Serde TreeManifest,
          !Serde PackIndex, !Serde LargeManifest, !Serde SnapshotManifest, !Serde RestoreQueueItem, !ManifestValue}.

(** ** State *)

(** How a call that makes a directory or writes a file fails: before it has changed
    anything, or after the file was opened, which empties it, and some bytes written. *)
Inductive WriteFault := FaultOpen | FaultAfter (n : nat).

(** The store with its tables, the job files under [queue/restores] by job, the events
    recorded, and the faults of the next calls that make directories or write files. *)
Record RestoreWorld := {
  rw_pack : PackWorld;
  rw_jobs : gmap string (list Z);
  rw_events : list (string * string);
  rw_faults : list (option WriteFault);
}.
Definition rw_with_pack (w : RestoreWorld) p : RestoreWorld :=
  {| rw_pack := p; rw_jobs := rw_jobs w; rw_events := rw_events w; rw_faults := rw_faults w |}.
Definition rw_with_jobs (w : RestoreWorld) j : RestoreWorld :=
  {| rw_pack := rw_pack w; rw_jobs := j; rw_events := rw_events w; rw_faults := rw_faults w |}.
Definition rw_with_events (w : RestoreWorld) e : RestoreWorld :=
  {| rw_pack := rw_pack w; rw_jobs := rw_jobs w; rw_events := e; rw_faults := rw_faults w |}.
Definition rw_with_faults (w : RestoreWorld) f : RestoreWorld :=
  {| rw_pack := rw_pack w; rw_jobs := rw_jobs w; rw_events := rw_events w; rw_faults := f |}.

(** The surroundings: the configuration's remote ([Ok None] without one, [Err] when
    the configuration or the remote cannot be opened), the host name, the archive
    settings, the manifest key of each snapshot, and the sources of identifiers and
    times. *)
Record RestoreEnv := {
  rn_remote : result (option Remote) string;
  rn_host_name : option string;
  rn_archive_days : Z;
  rn_archive_tier : string;
  rn_manifest_key : string → option string;
  rn_pack : PackEnv;
}.

Context (env : RestoreEnv).

Abbreviation restore_m := (stm RestoreWorld).

Definition in_pack {A} (m : stm PackWorld A) : restore_m A := λ w,
  let '(r, p) := m (rw_pack w) in (r, rw_with_pack w p).
Definition in_codec {A} (m : stm codec_state A) : restore_m A := in_pack (in_store (codec m)).

Definition exists_here (key : string) : restore_m bool := stm_get (λ w, path_exists (rw_pack w) key).

(** The fault of the next call. *)
Definition next_fault : restore_m (option WriteFault) := λ w,
  match rw_faults w with
  | [] => (Done None, w)
  | f :: l => (Done f, rw_with_faults w l)
  end.
Definition create_dir_all : restore_m unit :=
  let* fault := next_fault in
  match fault with None => stm_ret tt | Some _ => stm_fail "io" end.
(** [fs::write] with the way the bytes are put: a failure may leave the first of them. *)
Definition fs_write (put : list Z → RestoreWorld → RestoreWorld) (bytes : list Z) : restore_m unit :=
  let* fault := next_fault in
  match fault with
  | None => stm_modify (put bytes)
  | Some FaultOpen => stm_fail "io"
  | Some (FaultAfter n) => let* _ := stm_modify (put (take n bytes)) in stm_fail "io"
  end.

Definition put_object (key : string) (bytes : list Z) (w : RestoreWorld) : RestoreWorld :=
  rw_with_pack w (pw_with_files (rw_pack w) (<[key := bytes]> (pw_files (rw_pack w)))).
Definition write_file (key : string) (bytes : list Z) : restore_m unit :=
  let* _ := create_dir_all in fs_write (put_object key) bytes.
Definition record_event (kind detail : string) : restore_m unit :=
  stm_modify (λ w, rw_with_events w (rw_events w ++ [(kind, detail)])).

(** ** Job files *)

Definition put_job (id : string) (bytes : list Z) (w : RestoreWorld) : RestoreWorld :=
  rw_with_jobs w (<[id := bytes]> (rw_jobs w)).
Definition write_restore_job (job : RestoreQueueItem) : restore_m unit :=
  let* _ := create_dir_all in fs_write (put_job (rq_id job)) (json_to_vec_pretty job).
Definition read_restore_job (job_id : string) : restore_m RestoreQueueItem :=
  let* file := stm_get (λ w, rw_jobs w !! job_id) in
  let* bytes := stm_some "read" file in
  stm_some "json" (json_from_slice bytes).

Definition ensure_none (message : option string) : restore_m unit :=
  match message with Some m => stm_fail m | None => stm_ret tt end.
Definition ensure_restore_job_resumable (job : RestoreQueueItem) := ensure_none (non_resumable_message job).
Definition ensure_restore_job_not_blocked (job : RestoreQueueItem) := ensure_none (blocking_resume_message job).
Definition ensure_restore_job_has_no_missing_objects (job : RestoreQueueItem) :=
  ensure_none (missing_objects_message job).

Definition mark_restore_job_done (job_id : string) : restore_m unit :=
  let* job := read_restore_job job_id in
  write_restore_job (mark_done job).

(** ** Preparing a job *)

(** What the command line of a restore says. *)
Record RestoreRequest := {
  rr_snapshot_id : string; rr_root : option string; rr_path : option string; rr_target : option string;
  rr_force : bool; rr_check_conflicts : bool; rr_required : list string }.

(** Failures to reach the remote count as not available. *)
Definition remote_has (key : string) : bool :=
  match rn_remote env with
  | Ok (Some remote) =>
    match remote_object_available_for_paths remote (rn_host_name env) key with Ok b => b | Err _ => false end
  | _ => false
  end.

Definition build_restore_job (args : RestoreRequest) : restore_m RestoreQueueItem :=
  let* here := stm_get (λ w, path_exists (rw_pack w)) in
  let* availability := stm_ok (classify_restore_object_availability (rr_required args)
    (λ key, Ok (here key)) (λ key, Ok (remote_has key))) in
  let* id := in_pack (new_id (rn_pack env) "restore") in
  let* now := in_pack (utc_now (rn_pack env)) in
  stm_ret {| rq_id := id; rq_snapshot_id := rr_snapshot_id args; rq_root := rr_root args;
             rq_path := path_to_slash <$> rr_path args; rq_target := default "original-roots" (rr_target args);
             rq_required_objects := roa_required_objects availability;
             rq_archived_objects := roa_archived_objects availability;
             rq_missing_objects := roa_missing_objects availability;
             rq_archive_requested_objects := []; rq_force := rr_force args;
             rq_check_conflicts := rr_check_conflicts args; rq_created_at := now; rq_status := "prepared" |}.

Definition validate_restore_archive_config : result unit string :=
  if rn_archive_days env =? 0 then Err "restore archive days must be greater than zero"
  else if is_empty (trim (rn_archive_tier env)) then Err "restore archive tier must not be empty"
  else Ok tt.

(** The keys whose restoration from the archive was accepted. *)
Fixpoint request_loop (remote : Remote) (keys : list string) : result (list string) string :=
  match keys with
  | [] => Ok []
  | key :: rest =>
    let? restore_key := remote_available_key_for_paths remote (rn_host_name env) key in
    let? accepted := rm_ok (rm_restore_archive remote restore_key) in
    let? more := request_loop remote rest in
    Ok (if accepted : bool then key :: more else more)
  end.

Definition request_archive_restore_for_job (job : RestoreQueueItem) : restore_m RestoreQueueItem :=
  if bool_decide (rq_archived_objects job = []) then stm_ret job else
  let* remote := stm_ok (match rn_remote env with
                         | Ok r => let? _ := validate_restore_archive_config in Ok r
                         | Err e => Err e
                         end) in
  match remote with
  | None => stm_ret job
  | Some remote =>
    let* requested := stm_ok (request_loop remote (rq_archived_objects job)) in
    stm_ret (mark_archive_requested job requested)
  end.

(** [mj restore prepare] after the plan has been built. *)
Definition restore_prepare (args : RestoreRequest) : restore_m RestoreQueueItem :=
  let* job := build_restore_job args in
  let* job := request_archive_restore_for_job job in
  let* _ := write_restore_job job in
  let* _ := in_pack (record_op_row "restore-prepare" None (Some (rq_snapshot_id job)) (Some (rq_id job))) in
  stm_ret job.

(** ** Hydrating a job *)

Definition query_packs (w : PackWorld) : list PackExport := map snd (sort_by fst (map_to_list (pw_packs w))).

(** One packed blob: its range is downloaded, checked against its hash and stored as
    a loose object. *)
Definition hydrate_packed_blob (remote : Remote) (remote_pack_key : string) (blob : BlobExport) : restore_m unit :=
  let* here := exists_here (be_object_key blob) in
  if here : bool then stm_ret tt else
  let* offset := stm_some ("missing pack offset for " +:+ be_oid blob) (be_pack_offset blob) in
  let* len := stm_some ("missing pack len for " +:+ be_oid blob) (be_pack_len blob) in
  let* entry := stm_ok (rm_ok (rm_get_range remote remote_pack_key offset len)) in
  let* encoded := stm_ok (pack_entry_payload (be_oid blob) entry) in
  let* decoded := in_codec (oc_decode encoded) in
  if negb (Z.of_nat (length decoded) =? be_size blob) || negb (blake3_hex decoded =? be_oid blob)%string
  then stm_fail ("packed blob range hash mismatch " +:+ be_oid blob)
  else write_file (be_object_key blob) encoded.

Definition hydrate_packed_blobs_from_remote (remote : Remote) (pack_key_ : string) : restore_m bool :=
  let* packs := stm_get (λ w, query_packs (rw_pack w)) in
  match List.find (λ p, (pk_pack_key p =? pack_key_)%string) packs with
  | None => stm_ret false
  | Some pack =>
    let* here := exists_here (pk_pack_key pack) in
    if here : bool then stm_ret false else
    let* remote_pack_key := stm_ok (remote_available_key_for_paths remote (rn_host_name env) (pk_pack_key pack)) in
    let* there := stm_ok (remote_object_available_for_paths remote (rn_host_name env) (pk_pack_key pack)) in
    if negb there then stm_ret false else
    let* rows := stm_get (λ w, pw_blobs (rw_pack w)) in
    let* _ := stm_iter (hydrate_packed_blob remote remote_pack_key)
      (List.filter (λ b, bool_decide (be_pack_id b = Some (pk_pack_id pack))) rows) in
    stm_ret true
  end.

(** One archived object: [true] when it is hydrated, [false] when it stays pending. *)
Definition hydrate_object (remote : Remote) (key : string) : restore_m bool :=
  let* here := exists_here key in
  if here : bool then stm_ret true else
  let* packed := hydrate_packed_blobs_from_remote remote key in
  if packed : bool then stm_ret true else
  let* there := stm_ok (remote_object_available_for_paths remote (rn_host_name env) key) in
  if negb there then stm_ret false else
  let* bytes := try_ok (in_codec (download_local_object_from_remote remote (rn_host_name env) key)) in
  match bytes with
  | Some bytes => let* _ := write_file key bytes in stm_ret true
  | None => stm_ret false
  end.

(** The loop over the archived objects: those hydrated and those still pending. *)
Fixpoint hydrate_loop (remote : Remote) (hydrated pending keys : list string) : restore_m (list string * list string) :=
  match keys with
  | [] => stm_ret (hydrated, pending)
  | key :: rest =>
    let* ok := hydrate_object remote key in
    if ok : bool then hydrate_loop remote (hydrated ++ [key]) pending rest
    else hydrate_loop remote hydrated (pending ++ [key]) rest
  end.

Definition hydrate_restore_job_objects (job : RestoreQueueItem) : restore_m RestoreQueueItem :=
  if bool_decide (rq_archived_objects job = []) then stm_ret job else
  let* found := stm_ok (rn_remote env) in
  match found with
  | None => stm_ret job
  | Some remote =>
    let* lists := hydrate_loop remote [] [] (rq_archived_objects job) in
    let '(hydrated, still_pending) := lists in
    let job' := mark_ready_if_archives_hydrated
      (rq_with_archived job still_pending (rq_archive_requested_objects job)) in
    let* _ := write_restore_job job' in
    let* _ := (if bool_decide (hydrated = []) then stm_ret tt
               else record_event "restore-hydrate" (rq_id job' +:+ " hydrated_objects=" +:+ count_str hydrated)) in
    stm_ret job'
  end.

Definition hydrate_restore_job_snapshot_manifest (job : RestoreQueueItem) : restore_m unit :=
  let* manifest_key := stm_some "Query returned no rows" (rn_manifest_key env (rq_snapshot_id job)) in
  let* here := exists_here manifest_key in
  if here : bool then stm_ret tt else
  let* found := stm_ok (rn_remote env) in
  match found with
  | None => stm_ret tt
  | Some remote =>
    let* there := stm_ok (remote_object_available_for_paths remote (rn_host_name env) manifest_key) in
    if negb there then stm_ret tt else
    let* bytes := in_codec (download_local_object_from_remote remote (rn_host_name env) manifest_key) in
    write_file manifest_key bytes
  end.

(** [mj restore resume] up to the point where the plan is rebuilt and applied, the
    application of the plan being an argument. *)
Definition resume_ready (job_id : string) : restore_m RestoreQueueItem :=
  let* job := read_restore_job job_id in
  let* _ := ensure_restore_job_resumable job in
  let* _ := ensure_restore_job_has_no_missing_objects job in
  let* _ := hydrate_restore_job_snapshot_manifest job in
  let* job := hydrate_restore_job_objects job in
  let* _ := ensure_restore_job_not_blocked job in
  stm_ret job.

Definition restore_resume (apply_plan : RestoreQueueItem → restore_m unit) (job_id : string) : restore_m unit :=
  let* job := resume_ready job_id in
  let* _ := apply_plan job in
  let* _ := mark_restore_job_done (rq_id job) in
  in_pack (record_op_row "restore-resume" None (Some (rq_snapshot_id job)) (Some (rq_id job))).
End RestoreJob.

(** ** Object files only grow *)

Lemma elem_of_keys {V} (m : gmap string V) k : k ∈ map fst (map_to_list m) ↔ is_Some (m !! k).
Proof.
  rewrite list_elem_of_fmap. split.
  - intros ([k' v] & -> & Hin). apply elem_of_map_to_list in Hin. by exists v.
  - intros [v Hv]. exists (k, v). split; [done|]. by apply elem_of_map_to_list.
Qed.

Section Growth.
Context `{!ObjectCodec}.

Lemma path_exists_iff w key :
  path_exists w key = true ↔
  key = "" ∨ is_Some (pw_files w !! key) ∨ ∃ k, is_Some (pw_files w !! k) ∧ starts_with k (key +:+ "/") = true.
Proof.
  unfold path_exists, is_file. rewrite !orb_true_iff, bool_decide_eq_true, existsb_elem_of, is_empty_true.
  setoid_rewrite elem_of_keys. naive_solver.
Qed.

Lemma path_exists_mono w w' key :
  (∀ k, is_Some (pw_files w !! k) → is_Some (pw_files w' !! k)) → path_exists w key = true → path_exists w' key = true.
Proof. rewrite !path_exists_iff. naive_solver. Qed.

(** The tables stay as they are and no object file disappears. *)
Record grown (w w' : PackWorld) : Prop := {
  gr_files k : is_Some (pw_files w !! k) → is_Some (pw_files w' !! k);
  gr_blobs : pw_blobs w' = pw_blobs w;
  gr_packs : pw_packs w' = pw_packs w;
}.
#[export] Instance grown_preorder : PreOrder grown.
Proof.
  split; [by intros w|]. intros x y z [Hf Hb Hp] [Hf' Hb' Hp']. split; [auto|congruence|congruence].
Qed.

(** What a restore needs of an object: its file, or, for a pack, the loose file of
    every blob in it. *)
Definition key_local (w : PackWorld) (key : string) : Prop :=
  path_exists w key = true ∨
  ∃ pack, pack ∈ query_packs w ∧ pk_pack_key pack = key ∧
    ∀ b, b ∈ pw_blobs w → be_pack_id b = Some (pk_pack_id pack) → path_exists w (be_object_key b) = true.

Lemma key_local_grown w w' key : grown w w' → key_local w key → key_local w' key.
Proof.
  intros [Hf Hb Hp] [He|(pack & Hin & Hk & Hall)].
  - left. by eapply path_exists_mono.
  - right. exists pack. unfold query_packs. rewrite Hp, Hb. split; [done|]. split; [done|].
    intros b Hbb Hid. eapply path_exists_mono; [done|]. by apply Hall.
Qed.

(** And no faults come up when none are to come. *)
Definition wgrown (w w' : RestoreWorld) : Prop :=
  grown (rw_pack w) (rw_pack w') ∧ (rw_faults w = [] → rw_faults w' = []).
#[export] Instance wgrown_preorder : PreOrder wgrown.
Proof.
  split; [by intros w|]. intros x y z [Hxy Hf] [Hyz Hf']. split; [by etrans|auto].
Qed.

Lemma next_fault_grown : always wgrown next_fault.
Proof. intros w. unfold next_fault. destruct (rw_faults w) as [|f l] eqn:Hf; split; simpl; by rewrite ?Hf. Qed.
Hint Resolve next_fault_grown : mj.
Lemma create_dir_all_grown : always wgrown create_dir_all.
Proof. unfold create_dir_all. always_solve. Qed.
Hint Resolve create_dir_all_grown : mj.
Lemma fs_write_grown put bytes : (∀ b w, wgrown w (put b w)) → always wgrown (fs_write put bytes).
Proof.
  intros Hp. assert (Hm : ∀ b, always wgrown (stm_modify (put b))) by (intros b w; apply Hp).
  unfold fs_write. always_solve.
Qed.
Lemma put_object_grown key bytes w : wgrown w (put_object key bytes w).
Proof.
  split; [|done]. split; [|done|done]. intros k Hk. simpl. change (pw_files _) with (<[key:=bytes]> (pw_files (rw_pack w))).
  destruct (decide (key = k)) as [->|]; [by rewrite lookup_insert_eq|by rewrite lookup_insert_ne].
Qed.
Lemma write_file_grown key bytes : always wgrown (write_file key bytes).
Proof.
  unfold write_file. pose proof (fs_write_grown (put_object key) bytes (put_object_grown key)). always_solve.
Qed.

Lemma next_fault_run w f w' : next_fault w = (Done f, w') → rw_pack w' = rw_pack w ∧ rw_jobs w' = rw_jobs w.
Proof. unfold next_fault. destruct (rw_faults w); by intros [= <- <-]. Qed.
(** A write that succeeds has put all the bytes; one that fails a part of them, or none. *)
Lemma create_write_run put bytes w r w' :
  (let* _ := create_dir_all in fs_write put bytes) w = (r, w') →
  ∃ w0, rw_pack w0 = rw_pack w ∧ rw_jobs w0 = rw_jobs w ∧ (rw_faults w = [] → rw_faults w0 = [] ∧ r = Done tt) ∧
    (r = Done tt ∧ w' = put bytes w0 ∨ r = Fails "io" ∧ (w' = w0 ∨ ∃ n, w' = put (take n bytes) w0)).
Proof.
  unfold create_dir_all, fs_write, stm_bind, next_fault. destruct (rw_faults w) as [|[f|] l] eqn:Hf; simpl.
  - rewrite Hf. intros [= <- <-]. exists w. split_and!; [done..|]. by left.
  - intros [= <- <-]. exists (rw_with_faults w l). split_and!; [done..|]. right. split; [done|]. by left.
  - destruct l as [|[[|n]|] l]; simpl; intros [= <- <-]; (eexists (rw_with_faults w _); split_and!; [done..|]); simpl;
      [by left|right..|by left]; (split; [done|]); [by left|right; by exists n].
Qed.
Lemma in_codec_grown {A} (m : stm codec_state A) : always wgrown (in_codec m).
Proof.
  intros w. unfold in_codec, in_pack, in_store, codec.
  destruct (m (sw_codec (pw_store (rw_pack w)))) as [r c]. split; [by split|done].
Qed.
Lemma try_ok_always {S A} (R : S → S → Prop) (m : stm S A) : always R m → always R (try_ok m).
Proof. intros Hm s. specialize (Hm s). unfold try_ok. by destruct (m s) as [[]]. Qed.

Lemma write_file_exists key bytes w w' :
  write_file key bytes w = (Done tt, w') → path_exists (rw_pack w') key = true.
Proof.
  intros (w0 & _ & _ & _ & [[_ ->]|[? _]])%create_write_run; [|done]. apply path_exists_iff. right. left.
  change (pw_files _) with (<[key:=bytes]> (pw_files (rw_pack w0))). by rewrite lookup_insert_eq.
Qed.
End Growth.
#[export] Hint Resolve write_file_grown in_codec_grown try_ok_always : mj.

(** ** Hydration *)

Section Hydration.
Context `{!ObjectCodec, !Blake3, !Chrono, !PackJson, !Zstd, !Serde TreeNodeManifest, !Serde TreeManifest,
          !Serde PackIndex, !Serde LargeManifest, !Serde SnapshotManifest, !Serde RestoreQueueItem, !ManifestValue}.
Context (env : RestoreEnv).

Lemma exists_here_grown key : always wgrown (exists_here key).
Proof. unfold exists_here. always_solve. Qed.
Hint Resolve exists_here_grown : mj.

Lemma hydrate_packed_blob_grown remote rk blob : always wgrown (hydrate_packed_blob remote rk blob).
Proof. unfold hydrate_packed_blob. always_solve. Qed.
Hint Resolve hydrate_packed_blob_grown : mj.

Lemma hydrate_packed_blobs_grown remote key : always wgrown (hydrate_packed_blobs_from_remote env remote key).
Proof. unfold hydrate_packed_blobs_from_remote. always_solve. Qed.
Hint Resolve hydrate_packed_blobs_grown : mj.

Lemma hydrate_object_grown remote key : always wgrown (hydrate_object env remote key).
Proof. unfold hydrate_object. always_solve. Qed.
Hint Resolve hydrate_object_grown : mj.

Lemma hydrate_loop_grown remote hydrated pending keys :
  always wgrown (hydrate_loop env remote hydrated pending keys).
Proof.
  revert hydrated pending; induction keys as [|k keys IH]; intros; cbn [hydrate_loop]; always_solve.
Qed.

Lemma hydrate_packed_blob_here remote rk blob w w' :
  hydrate_packed_blob remote rk blob w = (Done tt, w') → path_exists (rw_pack w') (be_object_key blob) = true.
Proof.
  unfold hydrate_packed_blob, exists_here. unfold stm_bind at 1, stm_get at 1.
  destruct (path_exists (rw_pack w) (be_object_key blob)) eqn:He; [by intros [= <-]|].
  intros Hrun. stm_inv. destruct (_ || _); [done|]. by eapply write_file_exists.
Qed.

Lemma query_packs_grown w w' : grown w w' → query_packs w' = query_packs w.
Proof. intros [_ _ Hp]. unfold query_packs. by rewrite Hp. Qed.

Lemma hydrate_packed_blobs_here remote key w w' :
  hydrate_packed_blobs_from_remote env remote key w = (Done true, w') → key_local (rw_pack w') key.
Proof.
  unfold hydrate_packed_blobs_from_remote. unfold stm_bind at 1, stm_get at 1.
  destruct (List.find _ _) as [pack|] eqn:Hfind; [|done].
  apply find_some in Hfind as [Hin%list_elem_of_In Hk%String.eqb_eq].
  intros Hrun. unfold exists_here in Hrun. unfold stm_bind at 1, stm_get at 1 in Hrun.
  destruct (path_exists (rw_pack w) (pk_pack_key pack)); [done|].
  apply stm_bind_Done in Hrun as (rk & w1 & Hrk & Hrun). unfold stm_ok, stm_lift in Hrk. injection Hrk as _ <-.
  apply stm_bind_Done in Hrun as (there & w2 & Ht & Hrun). unfold stm_ok, stm_lift in Ht. injection Ht as _ <-.
  destruct there; [|done]. simpl in Hrun. unfold stm_bind at 1, stm_get at 1 in Hrun.
  apply stm_bind_Done in Hrun as ([] & w3 & Hit & Hrun). injection Hrun as <-.
  assert (Hg : wgrown w w3).
  { set (rows := List.filter _ _) in Hit.
    pose proof (always_iter wgrown (hydrate_packed_blob remote rk) rows (hydrate_packed_blob_grown remote rk) w) as Hg.
    by rewrite Hit in Hg. }
  destruct Hg as [Hg _]. right. exists pack. rewrite (query_packs_grown _ _ Hg). split; [done|]. split; [done|].
  rewrite (gr_blobs _ _ Hg). intros b Hb Hid.
  eapply (stm_iter_each wgrown (hydrate_packed_blob remote rk)
    (λ b w, path_exists (rw_pack w) (be_object_key b) = true)); [|..|exact Hit|].
  - auto with mj.
  - apply hydrate_packed_blob_here.
  - intros x s1 s2 [[Hf _ _] _]. by apply path_exists_mono.
  - apply list_elem_of_In, filter_In. split; [by apply list_elem_of_In|]. by rewrite bool_decide_true.
Qed.

Lemma hydrate_object_here remote key w w' :
  hydrate_object env remote key w = (Done true, w') → key_local (rw_pack w') key.
Proof.
  unfold hydrate_object, exists_here. unfold stm_bind at 1, stm_get at 1.
  destruct (path_exists (rw_pack w) key) eqn:He; [intros [= <-]; by left|].
  intros Hrun. apply stm_bind_Done in Hrun as (packed & w1 & Hp & Hrun).
  destruct packed; [injection Hrun as <-; by eapply hydrate_packed_blobs_here|].
  apply stm_bind_Done in Hrun as (there & w2 & Ht & Hrun). destruct there; [|done]. simpl in Hrun.
  apply stm_bind_Done in Hrun as ([bytes|] & w3 & Hd & Hrun); [|done].
  apply stm_bind_Done in Hrun as ([] & w4 & Hwr & [= <-]). left. by eapply write_file_exists.
Qed.

Lemma hydrate_loop_spec remote hydrated pending keys w w' h p :
  hydrate_loop env remote hydrated pending keys w = (Done (h, p), w') →
  (∀ k, k ∈ p → k ∈ pending ∨ k ∈ keys) ∧
  (∀ k, k ∈ pending → k ∈ p) ∧ (∀ k, k ∈ keys → k ∈ p ∨ key_local (rw_pack w') k).
Proof.
  revert hydrated pending w; induction keys as [|key keys IH]; intros hydrated pending w; cbn [hydrate_loop].
  { intros [= <- <- <-]. set_solver. }
  intros Hrun. apply stm_bind_Done in Hrun as (ok & w1 & Ho & Hrun). destruct ok.
  - pose proof (hydrate_loop_grown remote (hydrated ++ [key]) pending keys w1) as Hg. rewrite Hrun in Hg.
    apply IH in Hrun as (H1' & H2' & H3'). split; [set_solver|]. split; [done|].
    intros k [->|Hk]%elem_of_cons; [|auto]. right. eapply key_local_grown; [apply Hg|]. by eapply hydrate_object_here.
  - apply IH in Hrun as (H1' & H2' & H3'). split; [set_solver|]. split; set_solver.
Qed.
End Hydration.

(** ** What hydration stores *)

(** Holds between the states before and after a call that returns. *)
Definition on_done {S A} (R : S → S → Prop) (m : stm S A) : Prop := ∀ w a w', m w = (Done a, w') → R w w'.

Lemma on_done_bind {S A B} (R : S → S → Prop) `{!Transitive R} (m : stm S A) (k : A → stm S B) :
  on_done R m → (∀ a, on_done R (k a)) → on_done R (stm_bind m k).
Proof. intros Hm Hk w b w' (a & w1 & Ha & Hb)%stm_bind_Done. etrans; [by eapply Hm|by eapply Hk]. Qed.
Lemma on_done_iter {S A} (R : S → S → Prop) `{!PreOrder R} (f : A → stm S unit) l :
  (∀ x, x ∈ l → on_done R (f x)) → on_done R (stm_iter f l).
Proof.
  induction l as [|x l IH]; intros Hf; cbn [stm_iter]; [by intros w a w' [= _ <-]|].
  apply on_done_bind; [typeclasses eauto|apply Hf; left|]. intros _. apply IH. intros y Hy. apply Hf. by right.
Qed.

Section Fetched.
Context `{!ObjectCodec, !Blake3, !Chrono, !PackJson, !Zstd, !Serde TreeNodeManifest, !Serde TreeManifest,
          !Serde PackIndex, !Serde LargeManifest, !Serde SnapshotManifest, !Serde RestoreQueueItem, !ManifestValue}.
Context (env : RestoreEnv).

(** The bytes of an object as the remote has them: those of the download, or, for a blob
    out of a pack, bytes whose contents have the size and the hash of the blob. *)
Definition fetched (key : string) (b : list Z) : Prop :=
  (∃ remote s s', rn_remote env = Ok (Some remote) ∧
     download_local_object_from_remote remote (rn_host_name env) key s = (Done b, s')) ∨
  (∃ blob decoded s s', be_object_key blob = key ∧ oc_decode b s = (Done decoded, s') ∧
     Z.of_nat (length decoded) = be_size blob ∧ blake3_hex decoded = be_oid blob).

(** Every file that was not there before is whole. *)
Definition fetches (w w' : RestoreWorld) : Prop :=
  ∀ k b, pw_files (rw_pack w') !! k = Some b → pw_files (rw_pack w) !! k = Some b ∨ fetched k b.
#[local] Instance fetches_preorder : PreOrder fetches.
Proof.
  split; [by intros w k b ?; left|]. intros x y z Hxy Hyz k b Hk. destruct (Hyz k b Hk) as [Hy|]; [by apply Hxy|by right].
Qed.

Lemma fetches_keeps {A} (m : stm RestoreWorld A) : keeps (λ w, pw_files (rw_pack w)) m → on_done fetches m.
Proof. intros Hm w a w' Hrun k b Hk. specialize (Hm w). rewrite Hrun in Hm. left. by rewrite <-Hm. Qed.
Lemma codec_keeps {A} (m : stm codec_state A) : keeps (λ w, pw_files (rw_pack w)) (in_codec m).
Proof. intros w. unfold in_codec, in_pack, in_store, codec. by destruct (m (sw_codec (pw_store (rw_pack w)))). Qed.
Lemma write_file_fetches key bytes : fetched key bytes → on_done fetches (write_file key bytes).
Proof.
  intros Hf w [] w' (w0 & Hp & _ & _ & [[_ ->]|[? _]])%create_write_run k b; [|done].
  change (pw_files (rw_pack (put_object key bytes w0))) with (<[key:=bytes]> (pw_files (rw_pack w0))). rewrite Hp.
  destruct (decide (key = k)) as [->|]; [rewrite lookup_insert_eq; intros [= <-]; by right|].
  rewrite lookup_insert_ne by done. by left.
Qed.

Lemma hydrate_packed_blob_fetches remote rk blob : on_done fetches (hydrate_packed_blob remote rk blob).
Proof.
  unfold hydrate_packed_blob, exists_here. apply on_done_bind; [typeclasses eauto|by apply fetches_keeps|]. intros [].
  { by apply fetches_keeps. }
  do 4 (apply on_done_bind; [typeclasses eauto|apply fetches_keeps; auto with mj|]; intros ?).
  intros w [] w' (decoded & w1 & Hdec & Hrun)%stm_bind_Done.
  assert (Hs : ∃ s s', oc_decode a2 s = (Done decoded, s')).
  { unfold in_codec, in_pack, in_store, codec in Hdec. exists (sw_codec (pw_store (rw_pack w))).
    destruct (oc_decode a2 _) as [r c]. injection Hdec as -> _. by exists c. }
  destruct (_ || _) eqn:Hc; [done|]. apply orb_false_iff in Hc as [Hl%negb_false_iff%Z.eqb_eq Hh%negb_false_iff%String.eqb_eq].
  etrans; [by eapply (fetches_keeps _ (codec_keeps _))|]. eapply write_file_fetches; [|exact Hrun].
  right. destruct Hs as (s & s' & Hs). by exists blob, decoded, s, s'.
Qed.

Lemma hydrate_packed_blobs_fetches remote key : on_done fetches (hydrate_packed_blobs_from_remote env remote key).
Proof.
  unfold hydrate_packed_blobs_from_remote, exists_here. apply on_done_bind; [typeclasses eauto|by apply fetches_keeps|]. intros packs.
  destruct (List.find _ _); [|by apply fetches_keeps].
  apply on_done_bind; [typeclasses eauto|by apply fetches_keeps|]. intros []; [by apply fetches_keeps|].
  do 2 (apply on_done_bind; [typeclasses eauto|by apply fetches_keeps|]; intros ?). destruct (negb _); [by apply fetches_keeps|].
  apply on_done_bind; [typeclasses eauto|by apply fetches_keeps|]. intros rows.
  apply on_done_bind; [typeclasses eauto| |intros _; by apply fetches_keeps].
  apply on_done_iter; [typeclasses eauto|]. intros x _. apply hydrate_packed_blob_fetches.
Qed.

(** A download that is stored. *)
Lemma download_fetches remote key bytes w w1 :
  rn_remote env = Ok (Some remote) →
  in_codec (download_local_object_from_remote remote (rn_host_name env) key) w = (Done bytes, w1) → fetched key bytes.
Proof.
  intros Hr Hd. unfold in_codec, in_pack, in_store, codec in Hd. left. exists remote, (sw_codec (pw_store (rw_pack w))).
  destruct (download_local_object_from_remote _ _ _ _) as [r c]. injection Hd as -> _. by exists c.
Qed.

Lemma hydrate_object_fetches remote key : rn_remote env = Ok (Some remote) → on_done fetches (hydrate_object env remote key).
Proof.
  intros Hr. unfold hydrate_object, exists_here. apply on_done_bind; [typeclasses eauto|by apply fetches_keeps|].
  intros []; [by apply fetches_keeps|]. apply on_done_bind; [typeclasses eauto|apply hydrate_packed_blobs_fetches|].
  intros []; [by apply fetches_keeps|]. apply on_done_bind; [typeclasses eauto|by apply fetches_keeps|]. intros there.
  destruct (negb there); [by apply fetches_keeps|]. intros w a w' (found & w1 & Hd & Hrun)%stm_bind_Done.
  assert (Hk : fetches w w1).
  { intros k b Hk. left. pose proof (codec_keeps (download_local_object_from_remote remote (rn_host_name env) key) w) as Hc.
    unfold try_ok in Hd. destruct (in_codec _ w) as [[] w2]; simplify_eq/=; by rewrite <-Hc. }
  etrans; [exact Hk|]. destruct found as [bytes|]; [|by injection Hrun as _ <-].
  apply stm_bind_Done in Hrun as ([] & w2 & Hw & [= _ <-]). eapply write_file_fetches; [|exact Hw].
  unfold try_ok in Hd. destruct (in_codec _ w) as [[] w3] eqn:Hc; simplify_eq/=.
  eapply download_fetches; [exact Hr|exact Hc].
Qed.

Lemma hydrate_loop_fetches remote h p keys :
  rn_remote env = Ok (Some remote) → on_done fetches (hydrate_loop env remote h p keys).
Proof.
  intros Hr. revert h p. induction keys as [|k keys IH]; intros h p; cbn [hydrate_loop]; [by apply fetches_keeps|].
  apply on_done_bind; [typeclasses eauto|by apply hydrate_object_fetches|]. intros []; apply IH.
Qed.

Lemma write_job_keeps job : keeps (λ w, pw_files (rw_pack w)) (write_restore_job job).
Proof.
  intros w. destruct (write_restore_job job w) as [r w'] eqn:Hrun.
  apply create_write_run in Hrun as (w0 & Hp & _ & _ & [[_ ->]|[_ [->|[n ->]]]]); simpl; by rewrite Hp.
Qed.

Lemma resume_ready_fetches id : on_done fetches (resume_ready env id).
Proof.
  unfold resume_ready, ensure_restore_job_resumable, ensure_restore_job_has_no_missing_objects, ensure_restore_job_not_blocked, ensure_none.
  apply on_done_bind; [typeclasses eauto|apply fetches_keeps; unfold read_restore_job; keeps_solve|]. intros job.
  do 2 (apply on_done_bind; [typeclasses eauto|apply fetches_keeps; keeps_solve|]; intros _).
  apply on_done_bind; [typeclasses eauto| |intros _; apply on_done_bind; [typeclasses eauto| |intros job'; apply fetches_keeps; keeps_solve]].
  - unfold hydrate_restore_job_snapshot_manifest, exists_here. apply on_done_bind; [typeclasses eauto|apply fetches_keeps; auto with mj|].
    intros key. apply on_done_bind; [typeclasses eauto|by apply fetches_keeps|]. intros []; [by apply fetches_keeps|].
    destruct (rn_remote env) as [[remote|]|] eqn:Hr; [|by apply fetches_keeps..]. intros w a w' (found & w1 & [= <- <-] & Hrun)%stm_bind_Done.
    apply stm_bind_Done in Hrun as (there & w1 & [_ ->]%stm_ok_Done & Hrun). destruct (negb there); [by injection Hrun as _ <-|].
    apply stm_bind_Done in Hrun as (bytes & w1 & Hd & Hrun). etrans; [by eapply (fetches_keeps _ (codec_keeps _))|].
    eapply write_file_fetches; [|exact Hrun]. by eapply download_fetches.
  - unfold hydrate_restore_job_objects. destruct (bool_decide _); [by apply fetches_keeps|].
    intros w a w' (found & w1 & [Hr ->]%stm_ok_Done & Hrun)%stm_bind_Done. destruct found as [remote|]; [|by injection Hrun as _ <-].
    apply stm_bind_Done in Hrun as ([h p] & w1 & Hl & Hrun). etrans; [by eapply hydrate_loop_fetches|].
    revert Hrun. apply fetches_keeps. apply keeps_bind; [apply write_job_keeps|]. intros _. unfold record_event. keeps_solve; done.
Qed.
End Fetched.

(** ** The invariant of jobs *)

Section Jobs.
Context `{!ObjectCodec, !Blake3, !Chrono, !PackJson, !Zstd, !Serde TreeNodeManifest, !Serde TreeManifest,
          !Serde PackIndex, !Serde LargeManifest, !Serde SnapshotManifest, !Serde RestoreQueueItem, !ManifestValue,
          !SerdeLaws RestoreQueueItem}.
Context (env : RestoreEnv).
(** The text of a job that was cut short is not JSON. *)
Hypothesis truncated_json : ∀ (job : RestoreQueueItem) n,
  (n < length (json_to_vec_pretty job))%nat → json_from_slice (T := RestoreQueueItem) (take n (json_to_vec_pretty job)) = None.

(** Every required object is local, archived or missing, nothing else is listed, and a
    job that is done has nothing pending. *)
Record job_inv (w : PackWorld) (job : RestoreQueueItem) : Prop := {
  ji_required k : k ∈ rq_required_objects job →
    k ∈ rq_archived_objects job ∨ k ∈ rq_missing_objects job ∨ key_local w k;
  ji_archived k : k ∈ rq_archived_objects job → k ∈ rq_required_objects job;
  ji_missing k : k ∈ rq_missing_objects job → k ∈ rq_required_objects job;
  ji_requested k : k ∈ rq_archive_requested_objects job → k ∈ rq_archived_objects job;
  ji_status : has_valid_status job = true;
  ji_done : rq_status job = "done" → rq_archived_objects job = [] ∧ rq_missing_objects job = [];
}.

Lemma job_inv_grown w w' job : grown w w' → job_inv w job → job_inv w' job.
Proof.
  intros Hg [Hr Ha Hm Hq Hs Hd]. split; try done. intros k Hk.
  destruct (Hr k Hk) as [?|[?|?]]; [by left|by right; left|]. right; right. by eapply key_local_grown.
Qed.

(** The job files: each is that of a good job; when writes may fail ([torn]), it may also
    be one that cannot be read. *)
Context (torn : Prop).
Record jobs_inv (w : RestoreWorld) : Prop := {
  jv_faults : torn ∨ rw_faults w = [];
  jv_jobs id bytes : rw_jobs w !! id = Some bytes →
    (∃ job, json_from_slice bytes = Some job ∧ rq_id job = id ∧ job_inv (rw_pack w) job) ∨
    (torn ∧ json_from_slice (T := RestoreQueueItem) bytes = None);
}.

Lemma jobs_inv_grown w w' : wgrown w w' → rw_jobs w' = rw_jobs w → jobs_inv w → jobs_inv w'.
Proof.
  intros [Hg Hf] Hj [Hfaults Hinv]. split; [naive_solver|]. intros id bytes. rewrite Hj. intros Hb.
  destruct (Hinv id bytes Hb) as [(job & ? & ? & ?)|?]; [left|by right].
  exists job. split; [done|]. split; [done|]. by eapply job_inv_grown.
Qed.

(** The file of a job holds it. *)
Definition on_disk (w : RestoreWorld) (job : RestoreQueueItem) : Prop :=
  ∃ bytes, rw_jobs w !! rq_id job = Some bytes ∧ json_from_slice bytes = Some job.

Lemma read_job_spec id :
  triple jobs_inv (read_restore_job id) (λ job w, jobs_inv w ∧ rq_id job = id ∧ job_inv (rw_pack w) job ∧ on_disk w job) jobs_inv.
Proof.
  intros w r w' Hinv. unfold read_restore_job, stm_bind, stm_get, stm_some, stm_fail, stm_ret.
  destruct (rw_jobs w !! id) as [bytes|] eqn:Hb; [|by intros [= <- <-]].
  destruct (jv_jobs _ Hinv id bytes Hb) as [(j & Hj & Hid & Hji)|[_ Hn]]; [rewrite Hj|rewrite Hn]; intros [= <- <-]; [|done].
  split_and!; [done..|]. exists bytes. by rewrite Hid.
Qed.

(** A write of a job leaves the job, what was there before, or nothing that can be read. *)
Lemma write_job_spec job :
  triple (λ w, jobs_inv w ∧ job_inv (rw_pack w) job) (write_restore_job job)
    (λ _ w, jobs_inv w ∧ job_inv (rw_pack w) job ∧ on_disk w job) jobs_inv.
Proof.
  intros w r w' [[Hfaults Hinv] Hji] (w0 & Hp & Hj & Hf & Hcase)%create_write_run.
  assert (Hf0 : torn ∨ rw_faults w0 = []) by naive_solver.
  assert (Hput : ∀ b, ((∃ job', json_from_slice b = Some job' ∧ rq_id job' = rq_id job ∧ job_inv (rw_pack w0) job') ∨
      (torn ∧ json_from_slice (T := RestoreQueueItem) b = None)) → jobs_inv (put_job (rq_id job) b w0)).
  { intros b Hb. split; [done|]. intros id bytes. simpl. rewrite Hj, Hp in *. destruct (decide (rq_id job = id)) as [<-|Hne].
    - rewrite lookup_insert_eq. by intros [= <-].
    - rewrite lookup_insert_ne by done. apply Hinv. }
  assert (Hgood : jobs_inv (put_job (rq_id job) (json_to_vec_pretty job) w0)).
  { apply Hput. left. exists job. rewrite Hp. split; [apply json_pretty_roundtrip|done]. }
  destruct Hcase as [[-> ->]|[-> [->|[n ->]]]].
  - split_and!; [done|simpl; by rewrite Hp|]. exists (json_to_vec_pretty job). simpl. rewrite lookup_insert_eq.
    split; [done|apply json_pretty_roundtrip].
  - split; [done|]. intros id bytes. rewrite Hj, Hp. apply Hinv.
  - destruct (decide (n < length (json_to_vec_pretty job)))%nat as [Hn|Hn]; [|by rewrite take_ge by lia].
    apply Hput. right. split; [|by apply truncated_json]. destruct Hfaults as [?|Hnil]; [done|]. by destruct (Hf Hnil).
Qed.

(** Parts of a call that leave the job files alone. *)
Lemma create_write_jobs put b : (∀ b w, rw_jobs (put b w) = rw_jobs w) → keeps rw_jobs (let* _ := create_dir_all in fs_write put b).
Proof.
  intros Hput w. destruct ((let* _ := create_dir_all in fs_write put b) w) as [r w'] eqn:Hrun.
  apply create_write_run in Hrun as (w0 & _ & Hj & _ & [[_ ->]|[_ [->|[n ->]]]]); simpl; by rewrite ?Hput, Hj.
Qed.
Lemma write_file_jobs k b : keeps rw_jobs (write_file k b).
Proof. by apply create_write_jobs. Qed.
Lemma in_codec_jobs {A} (m : stm codec_state A) : keeps rw_jobs (in_codec m).
Proof. intros w. unfold in_codec, in_pack. by destruct (in_store (codec m) (rw_pack w)). Qed.
Hint Resolve write_file_jobs in_codec_jobs : mj.

Lemma hydrate_loop_jobs remote h p keys : keeps rw_jobs (hydrate_loop env remote h p keys).
Proof.
  assert (Ht : ∀ A (m : stm RestoreWorld A), keeps rw_jobs m → keeps rw_jobs (try_ok m)).
  { intros A m Hm w. specialize (Hm w). unfold try_ok. by destruct (m w) as [[]]. }
  assert (Hi : ∀ rk l, keeps rw_jobs (stm_iter (hydrate_packed_blob remote rk) l)).
  { intros rk l. induction l as [|x l IH]; simpl; [apply keeps_ret|]. apply keeps_bind; [|done].
    unfold hydrate_packed_blob, exists_here. keeps_solve. }
  revert h p; induction keys as [|k keys IH]; intros; cbn [hydrate_loop]; [apply keeps_ret|].
  apply keeps_bind; [|intros []; apply IH].
  unfold hydrate_object, hydrate_packed_blobs_from_remote, exists_here. keeps_solve.
Qed.

Lemma stays_jobs {A} (m : stm RestoreWorld A) (P : RestoreWorld → Prop) :
  always wgrown m → keeps rw_jobs m → (∀ w w', wgrown w w' → rw_jobs w' = rw_jobs w → P w → P w') →
  triple (λ w, jobs_inv w ∧ P w) m (λ _ w, jobs_inv w ∧ P w) jobs_inv.
Proof.
  intros Hm Hk HP w r w' [Hinv Hp] Hrun. specialize (Hm w). specialize (Hk w). rewrite Hrun in Hm, Hk. simpl in *.
  assert (jobs_inv w') by by eapply jobs_inv_grown. destruct r; [split; [done|by eapply HP]|done..].
Qed.

Lemma wrun_grown {A} (m : stm RestoreWorld A) w r w' : always wgrown m → m w = (r, w') → wgrown w w'.
Proof. intros Hm Hrun. specialize (Hm w). by rewrite Hrun in Hm. Qed.

(** Hydrating keeps the invariant on every way out; when it returns, so does the job
    in memory, and the job in memory is the one on disk. *)
Lemma mark_ready_inv w job pending :
  job_inv w job → rq_status job ≠ "done" →
  (∀ k, k ∈ pending → k ∈ rq_archived_objects job) →
  (∀ k, k ∈ rq_archived_objects job → k ∈ pending ∨ key_local w k) →
  job_inv w (mark_ready_if_archives_hydrated (rq_with_archived job pending (rq_archive_requested_objects job))).
Proof.
  intros [Hr Ha Hm Hq Hs Hd] Hnd Hsub Hcov. unfold mark_ready_if_archives_hydrated. simpl rq_archived_objects.
  assert (Hreq : ∀ k, k ∈ rq_required_objects job → k ∈ pending ∨ k ∈ rq_missing_objects job ∨ key_local w k).
  { intros k Hk. destruct (Hr k Hk) as [Hk'|[?|?]]; [destruct (Hcov k Hk')|..]; auto. }
  assert (Hfil : ∀ k, k ∈ List.filter (λ key, existsb (String.eqb key) pending) (rq_archive_requested_objects job) → k ∈ pending).
  { intros k [_ Hk]%list_elem_of_In%filter_In. apply existsb_elem_of in Hk as (y & Hy & ->%String.eqb_eq). done. }
  destruct pending as [|p0 ps]; (split; simpl; auto; try done).
Qed.

(** A good job in memory that is the one on disk. *)
Definition at_hand (job : RestoreQueueItem) (w : RestoreWorld) : Prop := job_inv (rw_pack w) job ∧ on_disk w job.
Lemma at_hand_grown job w w' : wgrown w w' → rw_jobs w' = rw_jobs w → at_hand job w → at_hand job w'.
Proof.
  intros [Hg _] Hj [Hji (b & Hb & Hjb)]. split; [by eapply job_inv_grown|]. exists b. by rewrite Hj.
Qed.

Lemma triple_pure {S A} (phi : Prop) (P : S → Prop) (m : stm S A) Q E :
  (phi → triple P m Q E) → triple (λ w, phi ∧ P w) m Q E.
Proof. intros Hm w r w' [Hphi HP]. by apply Hm. Qed.

Lemma hydrate_job_spec job :
  rq_status job ≠ "done" →
  triple (λ w, jobs_inv w ∧ at_hand job w) (hydrate_restore_job_objects env job)
    (λ job' w, jobs_inv w ∧ at_hand job' w ∧ rq_id job' = rq_id job) jobs_inv.
Proof.
  intros Hnd. unfold hydrate_restore_job_objects. destruct (bool_decide_reflect (rq_archived_objects job = [])) as [Ha|Ha].
  { apply triple_ret. naive_solver. }
  intros w r w' [Hinv [Hji Hdisk]]. unfold stm_bind at 1, stm_ok, stm_lift. destruct (rn_remote env) as [[remote|]|e]; simpl.
  2:{ intros [= <- <-]. done. }
  2:{ intros [= <- <-]. done. }
  unfold stm_bind at 1. destruct (hydrate_loop env remote [] [] (rq_archived_objects job) w) as [rl w1] eqn:Hl.
  assert (Hg : wgrown w w1) by (eapply wrun_grown; [apply hydrate_loop_grown|exact Hl]).
  assert (Hj : rw_jobs w1 = rw_jobs w).
  { pose proof (hydrate_loop_jobs remote [] [] (rq_archived_objects job) w) as Hk. by rewrite Hl in Hk. }
  assert (Hinv1 : jobs_inv w1) by by eapply jobs_inv_grown.
  destruct rl as [[h p]|e|]; [|intros [= <- <-]; done..].
  apply hydrate_loop_spec in Hl as (Hp1 & _ & Hp3). set (job' := mark_ready_if_archives_hydrated _).
  assert (Hji' : job_inv (rw_pack w1) job').
  { apply mark_ready_inv; [eapply job_inv_grown; [apply Hg|done]|done|set_solver|done]. }
  assert (Hid : rq_id job' = rq_id job) by (unfold job', mark_ready_if_archives_hydrated; simpl; by destruct p).
  assert (Hrest : triple (λ w, jobs_inv w ∧ job_inv (rw_pack w) job') (let* _ := write_restore_job job' in
    let* _ := (if bool_decide (h = []) then stm_ret tt
               else record_event "restore-hydrate" (rq_id job' +:+ " hydrated_objects=" +:+ count_str h)) in stm_ret job')
    (λ job' w, jobs_inv w ∧ at_hand job' w ∧ rq_id job' = rq_id job) jobs_inv).
  { eapply triple_bind; [apply write_job_spec|]. intros _ w2 r2 w2' ([Hf2 Hinv2] & Hji2 & Hd2).
    destruct (bool_decide _); intros [= <- <-]; by split. }
  intros Hrun. exact (Hrest w1 r w' (conj Hinv1 Hji') Hrun).
Qed.

Lemma ops_grown w ops : wgrown w (rw_with_pack w (pw_with_ops (rw_pack w) ops)).
Proof. split; [by split|done]. Qed.
Lemma record_op_jobs k a b c : triple jobs_inv (in_pack (record_op_row k a b c)) (λ _, jobs_inv) jobs_inv.
Proof. intros w r w' Hinv [= <- <-]. eapply jobs_inv_grown; [apply ops_grown|done|exact Hinv]. Qed.

(** *** Preparing *)

Lemma request_loop_sub remote keys requested :
  request_loop env remote keys = Ok requested → ∀ k, k ∈ requested → k ∈ keys.
Proof.
  revert requested; induction keys as [|key keys IH]; intros requested; simpl.
  { intros [= <-]. set_solver. }
  intros (rk & _ & (acc & _ & (more & Hm & [= <-])%result_bind_Ok)%result_bind_Ok)%result_bind_Ok k Hk.
  specialize (IH more Hm). destruct acc; set_solver.
Qed.

Lemma build_job_inv args w job w' :
  build_restore_job env args w = (Done job, w') →
  wgrown w w' ∧ rw_jobs w' = rw_jobs w ∧ job_inv (rw_pack w') job ∧ rq_status job = "prepared" ∧
  rq_required_objects job = rr_required args.
Proof.
  unfold build_restore_job. unfold stm_bind at 1, stm_get at 1. intros Hrun.
  apply stm_bind_Done in Hrun as (a & w1 & Ha & Hrun). unfold stm_ok, stm_lift in Ha.
  destruct (classify_restore_object_availability _ _ _) as [a'|] eqn:Hcl; simplify_eq/=.
  apply classify_restore_object_availability_Ok in Hcl as (Hreq & Hall & Hsub).
  unfold stm_bind, in_pack, new_id, utc_now, tick, stm_bind, stm_ret in Hrun. injection Hrun as <- <-.
  split; [split; [by split|done]|]. split; [done|]. split; [|done]. split; simpl; rewrite ?Hreq; try done.
  - intros k Hk. destruct (Hall k Hk) as [[= Hl]|[[? _]|[? _]]]; auto. right. right. left. exact Hl.
  - intros k Hk. apply Hsub. set_solver.
  - intros k Hk. apply Hsub. set_solver.
  - intros k Hk. set_solver.
Qed.

Lemma request_job_inv job w job' w' :
  request_archive_restore_for_job env job w = (Done job', w') → job_inv (rw_pack w) job →
  rq_status job ≠ "done" →
  w' = w ∧ job_inv (rw_pack w) job'.
Proof.
  intros Hrun Hji Hnd. unfold request_archive_restore_for_job in Hrun.
  destruct (bool_decide _); [by injection Hrun as <- <-|].
  apply stm_bind_Done in Hrun as (remote & w1 & Hr & Hrun). unfold stm_ok, stm_lift in Hr. injection Hr as Hr <-.
  destruct remote as [remote|]; [|by injection Hrun as <- <-].
  apply stm_bind_Done in Hrun as (requested & w2 & Hq & Hrun). unfold stm_ok, stm_lift in Hq. injection Hq as Hq <-.
  injection Hrun as <- <-. split; [done|]. destruct (request_loop env remote (rq_archived_objects job)) as [req|] eqn:Hl; [|done].
  injection Hq as <-. pose proof (request_loop_sub _ _ _ Hl) as Hsub.
  destruct req as [|r0 rs]; [done|]. destruct Hji as [? ? ? ? ? ?]. by split.
Qed.

Lemma request_state job : always eq (request_archive_restore_for_job env job).
Proof.
  intros w. unfold request_archive_restore_for_job. destruct (bool_decide _); [done|].
  unfold stm_bind, stm_ok, stm_lift. destruct (outcome_of_result _) as [[remote|]|e|]; [|done..].
  by destruct (request_loop env remote _).
Qed.

Lemma prepare_spec args : triple jobs_inv (restore_prepare env args) (λ _, jobs_inv) jobs_inv.
Proof.
  apply (triple_bind _ _ _ (λ job w, jobs_inv w ∧ job_inv (rw_pack w) job ∧ rq_status job = "prepared")).
  - intros w r w' Hinv Hb.
    assert (Hg : wgrown w w' ∧ rw_jobs w' = rw_jobs w).
    { revert Hb. unfold build_restore_job. unfold stm_bind at 1, stm_get at 1. unfold stm_bind at 1, stm_ok, stm_lift.
      destruct (classify_restore_object_availability _ _ _); simpl; [|intros [= <- <-]; done].
      unfold stm_bind, in_pack, new_id, utc_now, tick, stm_bind, stm_ret. intros [= <- <-]. by repeat split. }
    destruct Hg as [Hg Hj]. assert (Hinv1 : jobs_inv w') by by eapply jobs_inv_grown. destruct r as [job|e|]; [|done..].
    by apply build_job_inv in Hb as (_ & _ & Hji & Hst & _).
  - intros job. apply (triple_bind _ _ _ (λ job w, jobs_inv w ∧ job_inv (rw_pack w) job)).
    + intros w r w' (Hinv & Hji & Hst) Hq. pose proof (request_state job w) as He. rewrite Hq in He. simpl in He. subst w'.
      destruct r as [job'|e|]; [|done..]. apply request_job_inv in Hq as [_ Hji']; [done|done|by rewrite Hst].
    + intros job'. eapply triple_bind; [apply write_job_spec|]. intros ?.
      eapply triple_bind; [|intros ?; apply (triple_ret jobs_inv); done].
      eapply triple_mono; [apply record_op_jobs|by intros w (? & _)|done|done].
Qed.

(** *** Resuming *)

Lemma manifest_grown job : always wgrown (hydrate_restore_job_snapshot_manifest env job).
Proof.
  pose proof exists_here_grown. unfold hydrate_restore_job_snapshot_manifest. always_solve.
Qed.
Lemma manifest_jobs job : keeps rw_jobs (hydrate_restore_job_snapshot_manifest env job).
Proof. unfold hydrate_restore_job_snapshot_manifest, exists_here. keeps_solve. Qed.

Lemma ensure_spec m (P : RestoreWorld → Prop) E : (∀ w, P w → E w) → triple P (ensure_none m) (λ _ w, m = None ∧ P w) E.
Proof. intros HE w r w' HP. unfold ensure_none. destruct m; intros [= <- <-]; [by apply HE|done]. Qed.

Lemma blocking_none job :
  blocking_resume_message job = None ↔ rq_missing_objects job = [] ∧ rq_archived_objects job = [].
Proof.
  unfold blocking_resume_message, missing_objects_message.
  destruct (rq_missing_objects job), (rq_archived_objects job); naive_solver.
Qed.

Lemma resumable_not_done job : non_resumable_message job = None → rq_status job ≠ "done".
Proof. unfold non_resumable_message, is_resumable. intros Hn Hd. by rewrite Hd in Hn. Qed.

Lemma resume_ready_spec id :
  triple jobs_inv (resume_ready env id)
    (λ job w, jobs_inv w ∧ at_hand job w ∧ rq_id job = id ∧ rq_missing_objects job = [] ∧ rq_archived_objects job = []) jobs_inv.
Proof.
  unfold resume_ready. apply (triple_bind _ _ _ (λ job w, rq_id job = id ∧ jobs_inv w ∧ at_hand job w)).
  { eapply triple_mono; [apply (read_job_spec id)|done| |done]. unfold at_hand. naive_solver. }
  intros job. apply triple_pure. intros Hid.
  eapply triple_bind; [apply ensure_spec; by intros w [? _]|]. intros ?. apply triple_pure. intros Hnd%resumable_not_done.
  eapply triple_bind; [apply ensure_spec; by intros w [? _]|]. intros ?. apply triple_pure. intros _.
  eapply triple_bind.
  { apply (stays_jobs _ (at_hand job)); [apply manifest_grown|apply manifest_jobs|apply at_hand_grown]. }
  intros ?. eapply triple_bind; [by apply hydrate_job_spec|]. intros job'.
  eapply triple_bind; [apply ensure_spec; by intros w [? _]|]. intros ?. apply triple_pure. intros Hb%blocking_none.
  apply triple_ret. naive_solver.
Qed.

Section Steps.
(** Applying a plan may add objects but leaves the job files alone. *)
Context (apply_plan : RestoreQueueItem → stm RestoreWorld unit).
Hypothesis apply_grown : ∀ job, always wgrown (apply_plan job).
Hypothesis apply_jobs : ∀ job, keeps rw_jobs (apply_plan job).

Lemma mark_done_inv w job : job_inv w job → rq_missing_objects job = [] → rq_archived_objects job = [] → job_inv w (mark_done job).
Proof. intros [] ? ?. by split. Qed.

Lemma resume_spec id : triple jobs_inv (restore_resume env apply_plan id) (λ _, jobs_inv) jobs_inv.
Proof.
  unfold restore_resume. eapply triple_bind; [apply resume_ready_spec|]. intros job.
  apply (triple_bind _ _ _ (λ _ w, (jobs_inv w ∧ at_hand job w) ∧ rq_missing_objects job = [] ∧ rq_archived_objects job = [])).
  { intros w r w' (Hinv & Hat & _ & Hnone) Hrun.
    pose proof (stays_jobs _ (at_hand job) (apply_grown job) (apply_jobs job) (at_hand_grown job) w r w' (conj Hinv Hat) Hrun) as Hs.
    by destruct r. }
  intros ?. eapply triple_bind; [|intros ?; apply record_op_jobs]. unfold mark_restore_job_done.
  apply (triple_bind _ _ _ (λ job' w, jobs_inv w ∧ job_inv (rw_pack w) (mark_done job'))).
  - intros w r w' ((Hinv & Hji & b & Hb & Hjb) & Hmi & Har).
    unfold read_restore_job, stm_bind, stm_get. rewrite Hb. simpl. unfold stm_ret. rewrite Hjb. intros [= <- <-].
    split; [done|]. by apply mark_done_inv.
  - intros job'. eapply triple_mono; [apply write_job_spec|done| |done]. by intros _ w (? & _).
Qed.

(** The commands, however they end, and anything else that only adds objects. *)
Inductive job_step : RestoreWorld → RestoreWorld → Prop :=
| step_prepare args w r w' : restore_prepare env args w = (r, w') → job_step w w'
| step_resume id w r w' : restore_resume env apply_plan id w = (r, w') → job_step w w'
| step_other w w' : wgrown w w' → rw_jobs w' = rw_jobs w → job_step w w'.

Lemma job_step_inv w w' : job_step w w' → jobs_inv w → jobs_inv w'.
Proof.
  intros [args w1 r w2 Hrun|id w1 r w2 Hrun|w1 w2 Hg Hj] Hinv.
  - pose proof (prepare_spec args w1 r w2 Hinv Hrun) as Hs. by destruct r.
  - pose proof (resume_spec id w1 r w2 Hinv Hrun) as Hs. by destruct r.
  - by eapply jobs_inv_grown.
Qed.

Lemma reachable_jobs_inv w w' : jobs_inv w → rtc job_step w w' → jobs_inv w'.
Proof. intros Hinv. induction 1 as [|x y z Hs _ IH]; [done|]. apply IH. by eapply job_step_inv. Qed.
End Steps.
End Jobs.

Section Resumed.
Context `{!ObjectCodec, !Blake3, !Chrono, !PackJson, !Zstd, !Serde TreeNodeManifest, !Serde TreeManifest,
          !Serde PackIndex, !Serde LargeManifest, !Serde SnapshotManifest, !Serde RestoreQueueItem, !ManifestValue,
          !SerdeLaws RestoreQueueItem}.
Context (env : RestoreEnv) (apply_plan : RestoreQueueItem → stm RestoreWorld unit).
Hypothesis truncated_json : ∀ (job : RestoreQueueItem) n,
  (n < length (json_to_vec_pretty job))%nat → json_from_slice (T := RestoreQueueItem) (take n (json_to_vec_pretty job)) = None.
Hypothesis apply_grown : ∀ job, always wgrown (apply_plan job).
Hypothesis apply_jobs : ∀ job, keeps rw_jobs (apply_plan job).

End Resumed.

(** ** A concrete job *)

Module RestoreJobExample.
Import CryptoExample LargeStoreExample CoreExample PackStoreExample RemoteExample.

#[export] Instance RestoreQueueItem_eq_dec : EqDecision RestoreQueueItem.
Proof. solve_decision. Defined.
#[export] Instance RestoreQueueItem_countable : Countable RestoreQueueItem.
Proof.
  refine (inj_countable'
    (λ j, ((rq_id j, rq_snapshot_id j, rq_root j, rq_path j, rq_target j, rq_required_objects j, rq_archived_objects j),
           (rq_missing_objects j, rq_archive_requested_objects j, rq_force j, rq_check_conflicts j, rq_created_at j, rq_status j)))
    (λ '((a, b, c, d, e, f, g), (h, i, j, k, l, m)),
      {| rq_id := a; rq_snapshot_id := b; rq_root := c; rq_path := d; rq_target := e; rq_required_objects := f;
         rq_archived_objects := g; rq_missing_objects := h; rq_archive_requested_objects := i; rq_force := j;
         rq_check_conflicts := k; rq_created_at := l; rq_status := m |}) _). by intros [].
Defined.

(** A job as one number behind a line break. *)
#[export] Instance ex_jobs : Serde RestoreQueueItem := {|
  cbor_to_vec v := [Zpos (encode v)];
  cbor_from_slice b := match b with [Zpos n] => decode n | _ => None end;
  json_to_vec v := [0; Zpos (encode v)];
  json_to_vec_pretty v := [0; Zpos (encode v)];
  json_from_slice b := match b with [0; Zpos n] => decode n | _ => None end;
|}.
#[export] Instance ex_jobs_laws : SerdeLaws RestoreQueueItem.
Proof. split; intros x; simpl; apply decode_encode. Qed.

(** One object is in the store, the other only on the remote. *)
Definition ex_restore_world : RestoreWorld :=
  {| rw_pack := ex_pack_world; rw_jobs := ∅; rw_events := []; rw_faults := [] |}.
Definition ex_restore_env : RestoreEnv := {|
  rn_remote := Ok (Some (ex_bucket false false "objects/blobs/cc/c")); rn_host_name := Some "h";
  rn_archive_days := 3; rn_archive_tier := "Bulk"; rn_manifest_key := λ _, Some "objects/blobs/aa/a";
  rn_pack := ex_pack_env |}.
Definition ex_request : RestoreRequest := {|
  rr_snapshot_id := "s"; rr_root := None; rr_path := None; rr_target := None; rr_force := false;
  rr_check_conflicts := false; rr_required := ["objects/blobs/aa/a"; "objects/blobs/cc/c"] |}.
Definition ex_prepared : RestoreWorld := snd (restore_prepare ex_restore_env ex_request ex_restore_world).
Definition ex_job : RestoreQueueItem := {|
  rq_id := "restore-0"; rq_snapshot_id := "s"; rq_root := None; rq_path := None; rq_target := "original-roots";
  rq_required_objects := ["objects/blobs/aa/a"; "objects/blobs/cc/c"]; rq_archived_objects := [];
  rq_missing_objects := []; rq_archive_requested_objects := []; rq_force := false; rq_check_conflicts := false;
  rq_created_at := 0; rq_status := "ready" |}.

Lemma ex_truncated (job : RestoreQueueItem) n :
  (n < length (json_to_vec_pretty job))%nat → json_from_slice (T := RestoreQueueItem) (take n (json_to_vec_pretty job)) = None.
Proof. simpl. intros Hn. destruct n as [|[|n]]; [reflexivity..|lia]. Qed.


(** A write of an object that fails leaves a part of it, and the next [resume] takes it for
    the object. *)
Definition ex_torn : RestoreWorld :=
  snd (resume_ready ex_restore_env "restore-0" (rw_with_faults ex_prepared [None; Some (FaultAfter 0)])).
Example torn_object_counts :
  (resume_ready ex_restore_env "restore-0" (rw_with_faults ex_prepared [None; Some (FaultAfter 0)])).1 = Fails "io" ∧
  pw_files (rw_pack ex_torn) !! "objects/blobs/cc/c" = Some [] ∧
  (resume_ready ex_restore_env "restore-0" ex_torn).1 = Done ex_job.
Proof. vm_compute. done. Qed.
End RestoreJobExample.
