(* ===== verification/Gc.v ===== *)
(** * Garbage collection

    [gc_cmd] of [src/prune_runtime.rs] with what it calls: the objects referenced by
    the snapshots ([ObjectKeys]) and by queued work are kept, every other file below
    [objects/] is removed, and the manifests of the snapshots are rewritten in their
    compact form.  The reading of manifests is from [src/snapshot_state.rs]. *)

From S2P Require Import Prelude RStr BTree MachInt Core Util Config Large Crypto Store Db Pack LargeStore RemoteObjects Trees ObjectKeys PackStore RestoreJob.

Local Open Scope Z_scope.

(** ** Interfaces *)

(** [serde_json::Value]: the fields of a document ([None] when it is not JSON, none
    when it is not an object), [as_bool], and the size of an object. *)
Class ValueRead `{!ManifestValue} := {
  value_fields : list Z → option (list (string * jvalue));
  jv_as_bool : jvalue → option bool;
  jv_object_len : jvalue → option nat;
}.

(** [WalkDir] lists every file once, in some order. *)
Class WalkDir := {
  walk_order : list string → list string;
  walk_order_perm l : walk_order l ≡ₚ l;
}.

Definition sm_without_roots (m : SnapshotManifest) : SnapshotManifest :=
  {| sm_snapshot_id := sm_snapshot_id m; sm_parent := sm_parent m; sm_op_id := sm_op_id m;
     sm_timestamp := sm_timestamp m; sm_root_trees := sm_root_trees m; sm_roots := [] |}.

Section Gc.
Context `{!ObjectCodec, !Chrono, !Zstd, !Serde TreeNodeManifest, !Serde TreeManifest, !Serde PackIndex,
          !Serde LargeManifest, !Serde SnapshotManifest, !ManifestValue, !ValueRead, !WalkDir}.

(** ** State *)

(** The store with its tables, and the table [snapshots]. *)
Record GcWorld := {
  gw_pack : PackWorld;
  gw_snapshots : list SnapshotExport;
}.
Definition gw_with_pack (w : GcWorld) p : GcWorld := {| gw_pack := p; gw_snapshots := gw_snapshots w |}.
Definition gw_with_snapshots (w : GcWorld) s : GcWorld := {| gw_pack := gw_pack w; gw_snapshots := s |}.
Definition gw_store (w : GcWorld) : StoreWorld := pw_store (gw_pack w).
Definition gw_files (w : GcWorld) : gmap string (list Z) := pw_files (gw_pack w).

(** The surroundings: the stack, the object layer, the home directory, the remote, the
    items of the upload queue and the records of the event journal (or the failure to
    list them), and the files whose removal the system refuses. *)
Record GcEnv := {
  gn_depth : nat;
  gn_tree : TreeEnv;
  gn_home : string;
  gn_remote : result (option Remote) string;
  gn_host_name : option string;
  gn_queue : result (list UploadQueueItem) string;
  gn_events : result (list EventJournalRecord) string;
  gn_unremovable : string → bool;
}.
Context (env : GcEnv).

Abbreviation gc_m := (stm GcWorld).
Abbreviation store_m := (stm StoreWorld).

Definition in_gc_pack {A} (m : stm PackWorld A) : gc_m A := λ w,
  let '(r, p) := m (gw_pack w) in (r, gw_with_pack w p).
Definition in_gc_store {A} (m : store_m A) : gc_m A := in_gc_pack (in_store m).

(** ** Reading the manifest of a snapshot *)

Fixpoint hydrate_roots (roots : list (string * list FileRecord)) (root_trees : list (string * RootSnapshot))
    : store_m (option (list (string * list FileRecord))) :=
  match root_trees with
  | [] => stm_ret (Some roots)
  | (root_id, root_tree) :: rest =>
    let* found := try_ok (read_object_raw (te_store (gn_tree env)) (rs_tree_key root_tree)) in
    match found with
    | None => stm_ret None
    | Some tree_bytes =>
      let* tree := stm_some "parse root tree" (json_from_slice tree_bytes) in
      let* entries := tree_entries_from_manifest (gn_tree env) (gn_depth env) tree in
      hydrate_roots (bmap_insert root_id entries.*2 roots) rest
    end
  end.

Definition hydrate_known_compact_snapshot_manifest_payload (bytes : list Z) : store_m (list Z) :=
  match json_from_slice bytes with
  | None => stm_ret bytes
  | Some manifest =>
    if negb (is_plausible_snapshot_manifest manifest) then stm_ret bytes
    else if bool_decide (sm_roots manifest ≠ []) || bool_decide (sm_root_trees manifest = []) then stm_ret bytes
    else
    let* roots := hydrate_roots (sm_roots manifest) (sm_root_trees manifest) in
    match roots with
    | None => stm_ret bytes
    | Some roots => stm_ret (json_to_vec_pretty
        {| sm_snapshot_id := sm_snapshot_id manifest; sm_parent := sm_parent manifest; sm_op_id := sm_op_id manifest;
           sm_timestamp := sm_timestamp manifest; sm_root_trees := sm_root_trees manifest; sm_roots := roots |})
    end
  end.

Definition hydrate_snapshot_manifest_from_remote (manifest_key : string) : store_m unit :=
  let* found := stm_ok (gn_remote env) in
  match found with
  | None => stm_ret tt
  | Some remote =>
    let* there := stm_ok (remote_object_available_for_paths remote (gn_host_name env) manifest_key) in
    if negb there then stm_ret tt else
    let* bytes := codec (download_local_object_from_remote remote (gn_host_name env) manifest_key) in
    stm_modify (λ w, sw_with_objects w (<[manifest_key := bytes]> (sw_objects w)))
  end.

Definition snapshot_manifest_from_parts (manifest_key manifest_json : string) : store_m SnapshotManifest :=
  if negb (is_empty (trim manifest_json))
  then stm_some "parse snapshot manifest metadata" (json_from_slice (bytes_of_string manifest_json)) else
  let* local := try_ok (read_object_raw (te_store (gn_tree env)) manifest_key) in
  let* bytes := match local with
                | Some bytes => stm_ret bytes
                | None => let* _ := hydrate_snapshot_manifest_from_remote manifest_key in
                          read_object_raw (te_store (gn_tree env)) manifest_key
                end in
  let* hydrated := hydrate_known_compact_snapshot_manifest_payload bytes in
  stm_some "parse snapshot manifest object" (json_from_slice hydrated).

(** ** The objects to keep *)

Definition export_metadata (w : GcWorld) : MetadataExport :=
  {| mx_snapshots := sort_by se_created_at (gw_snapshots w); mx_blobs := pw_blobs (gw_pack w);
     mx_packs := query_packs (gw_pack w) |}.

Definition normalize_queue_source_path (source : string) : string :=
  if starts_with source "/" then "/" +:+ trim_start_matches (Ascii.eqb slash) source
  else path_join (gn_home env) source.

(** [Path::strip_prefix] on components. *)
Fixpoint strip_components (prefix path : list Component) : option (list Component) :=
  match prefix, path with
  | [], _ => Some path
  | p :: prefix', c :: path' => if bool_decide (p = c) then strip_components prefix' path' else None
  | _ :: _, [] => None
  end.

Definition queued_item_key (item : UploadQueueItem) : list string :=
  match uq_source item with
  | None => []
  | Some source =>
    match strip_components (path_components (gn_home env)) (path_components (normalize_queue_source_path source)) with
    | None => []
    | Some relative =>
      let key := join "/" (map component_str relative) in
      if is_ok (validate_local_object_key key) then [key] else []
    end
  end.

Definition event_keys (event : EventJournalRecord) : list string :=
  List.filter (λ key, is_ok (validate_local_object_key key))
    (option_list (ej_durable_payload_key event) ++ option_list (ej_durable_large_manifest_key event)).

Definition queued_local_object_keys : result (list string) string :=
  let? items := gn_queue env in
  let? events := gn_events env in
  Ok (bset_of_list (flat_map queued_item_key items ++ flat_map event_keys events)).

Definition all_local_object_keys (w : GcWorld) : list string :=
  walk_order (List.filter (λ key, starts_with key "objects/") (map fst (map_to_list (gw_files w)))).

(** ** Removing the rest *)

Definition gw_remove (key : string) (w : GcWorld) : GcWorld :=
  gw_with_pack w (pw_with_files (gw_pack w) (delete key (gw_files w))).

(** The loop over all files: how many were removed. *)
Fixpoint remove_unreferenced (dry_run : bool) (referenced : list string) (removed : nat) (keys : list string)
    : gc_m nat :=
  match keys with
  | [] => stm_ret removed
  | key :: rest =>
    if bset_contains referenced key || dry_run then remove_unreferenced dry_run referenced removed rest
    else if gn_unremovable env key then stm_fail "remove_file"
    else let* _ := stm_modify (gw_remove key) in remove_unreferenced dry_run referenced (S removed) rest
  end.

(** ** Compacting the manifests *)

Definition local_snapshot_manifest_object_is_compact (manifest_key : string) : store_m bool :=
  let* file := stm_get (λ w, sw_objects w !! manifest_key) in
  let* bytes := stm_some "read" file in
  let* decoded := codec (oc_decode bytes) in
  let* fields := stm_some "json" (value_fields decoded) in
  let roots_omitted := default false (bmap_get fields "roots_omitted" ≫= jv_as_bool) in
  let roots_empty := bool_decide (bmap_get fields "roots" ≫= jv_object_len = Some 0%nat) in
  stm_ret (roots_omitted && roots_empty).

Definition clear_manifest_json (id : string) (rows : list SnapshotExport) : list SnapshotExport :=
  map (λ s, if (se_id s =? id)%string then se_clear_manifest_json s else s) rows.

(** The rewriting of one manifest. *)
Definition compact_row (s : SnapshotExport) : gc_m unit :=
  let* manifest := in_gc_store (snapshot_manifest_from_parts (se_manifest_key s) (se_manifest_json s)) in
  let* bytes := in_gc_store (codec (encode_compact_snapshot_manifest_for_local manifest)) in
  let* _ := stm_modify (λ w, gw_with_pack w
    (pw_with_files (gw_pack w) (<[se_manifest_key s := bytes]> (gw_files w)))) in
  stm_modify (λ w, gw_with_snapshots w (clear_manifest_json (se_id s) (gw_snapshots w))).

Fixpoint compact_rows (metadata objects : nat) (rows : list SnapshotExport) : gc_m (nat * nat) :=
  match rows with
  | [] => stm_ret (metadata, objects)
  | s :: rest =>
    let* skip := (if is_empty (se_manifest_json s)
                  then in_gc_store (local_snapshot_manifest_object_is_compact (se_manifest_key s))
                  else stm_ret false) in
    if skip : bool then compact_rows metadata objects rest else
    let* _ := compact_row s in
    compact_rows (S metadata) (S objects) rest
  end.

Definition compact_snapshot_manifest_metadata : gc_m (nat * nat) :=
  let* rows := stm_get (λ w, sort_by se_created_at (gw_snapshots w)) in
  compact_rows 0 0 rows.

(** ** [mj gc] *)

Definition gc_cmd (dry_run : bool) : gc_m unit :=
  let* export := stm_get export_metadata in
  let* referenced := in_gc_store (local_object_keys (te_store (gn_tree env)) (gn_depth env) export) in
  let* queued := stm_ok queued_local_object_keys in
  let* all_objects := stm_get all_local_object_keys in
  let* removed := remove_unreferenced dry_run (bset_extend referenced queued) 0 all_objects in
  if dry_run then stm_ret tt else
  let* compacted := compact_snapshot_manifest_metadata in
  in_gc_pack (record_op "gc" ("removed " +:+ nat_str removed +:+ " unreferenced objects; compacted "
    +:+ nat_str compacted.1 +:+ " manifests and " +:+ nat_str compacted.2 +:+ " manifest objects")).
End Gc.

(** ** What queued work needs *)

(** A path names an object of the store below [home]: taken from there, it is the path of
    the file of that object. *)
Definition names_object (home source key : string) : Prop :=
  validate_local_object_key key = Ok tt ∧ path_components (path_join home source) = path_components (path_join home key).

(** The sources of the queued uploads, and the payloads and large manifests of the journal. *)
Definition queue_needs (home : string) (items : list UploadQueueItem) (events : list EventJournalRecord) (key : string) : Prop :=
  (∃ item source, item ∈ items ∧ uq_source item = Some source ∧ names_object home source key) ∨
  (validate_local_object_key key = Ok tt ∧
   ∃ event, event ∈ events ∧ (ej_durable_payload_key event = Some key ∨ ej_durable_large_manifest_key event = Some key)).

Lemma strip_components_Some prefix path rest : strip_components prefix path = Some rest ↔ path = prefix ++ rest.
Proof.
  revert path; induction prefix as [|p prefix IH]; intros path; simpl; [naive_solver|].
  destruct path as [|c path]; [naive_solver|]. case_bool_decide as Hp; [|naive_solver]. rewrite IH. naive_solver.
Qed.

(** Leading separators count once. *)
Lemma absolute_components s : path_is_absolute s = true →
  path_components ("/" +:+ trim_start_matches (Ascii.eqb slash) s) = path_components s.
Proof.
  intros Habs. change ("/" +:+ ?t) with ("" +:+ "/" +:+ t). rewrite path_components_sep. cbn [is_empty]. unfold path_components at 1.
  rewrite Habs. f_equal. clear Habs. induction s as [|c s IH]; [done|]. cbn [trim_start_matches].
  destruct (Ascii.eqb_spec slash c) as [<-|]; [|done]. rewrite IH. done.
Qed.
Lemma normalize_components env source :
  path_components (normalize_queue_source_path env source) = path_components (path_join (gn_home env) source).
Proof.
  unfold normalize_queue_source_path. change (starts_with source "/") with (path_is_absolute source).
  destruct (path_is_absolute source) eqn:Habs; [|done]. rewrite absolute_components by done. unfold path_join. by rewrite Habs.
Qed.

Lemma key_parts key : validate_local_object_key key = Ok tt →
  plain_rel key (split slash key) ∧ Forall (λ n, plain_part n ∧ contains_char n slash = false) (split slash key).
Proof.
  unfold validate_local_object_key. intros ([] & (_ & Habs & Hall)%validate_slash_relative_key_Ok & _)%result_bind_Ok.
  split; [split; [by apply plain_components|apply split_by_not_nil]|]. rewrite Forall_forall in *. intros n Hn.
  split; [by apply Hall|by eapply split_elem_no_sep].
Qed.

(** The names of a path below the home directory, when they make the key of an object. *)
Lemma key_components cs : validate_local_object_key (join "/" (map component_str cs)) = Ok tt →
  (∀ n, Normal n ∈ cs → contains_char n slash = false) → (RootDir ∉ cs) →
  cs = map Normal (split slash (join "/" (map component_str cs))).
Proof.
  intros Hv Hn Hroot. destruct (key_parts _ Hv) as [[_ Hne] Hplain].
  assert (map component_str cs ≠ []) as Hcs. { intros Hnil. rewrite Hnil in Hv. by vm_compute in Hv. }
  assert (split slash (join "/" (map component_str cs)) = map component_str cs) as Hsplit.
  { apply split_join_names; [|done]. apply Forall_map, Forall_forall. intros [| | |n] Hc; try done. by apply Hn. }
  rewrite Hsplit in *. clear -Hplain Hroot. induction cs as [|c cs IH]; [done|]. simpl in *.
  apply Forall_cons in Hplain as [[Hc _] Hplain]. f_equal; [|apply IH; [set_solver|done]].
  apply plain_part_iff in Hc. destruct c; naive_solver set_solver.
Qed.

(** One root directory, in front. *)
Lemma root_in_front s a b : path_components s = a ++ b → a ≠ [] → RootDir ∉ b.
Proof.
  unfold path_components. assert (RootDir ∉ flat_map component_of (split slash s)) as Hflat.
  { intros (part & _ & Hin)%elem_of_flat_map. unfold component_of in Hin. repeat case_match; set_solver. }
  revert Hflat. generalize (flat_map component_of (split slash s)). intros rest Hflat Heq Ha Hb. apply Hflat.
  destruct a as [|x a]; [done|]. simpl in Heq. destruct (path_is_absolute s); [injection Heq as _ ->; set_solver|].
  destruct (split slash s) as [|p ps]; simpl in Heq; [subst; set_solver|].
  destruct (p =? ".")%string; simpl in Heq; [injection Heq as _ ->; set_solver|subst; set_solver].
Qed.

Lemma queued_item_spec env item key : path_components (gn_home env) ≠ [] →
  key ∈ queued_item_key env item ↔ ∃ source, uq_source item = Some source ∧ names_object (gn_home env) source key.
Proof.
  intros Hhome. unfold queued_item_key. destruct (uq_source item) as [source|]; [|set_solver].
  rewrite normalize_components. split.
  - destruct (strip_components _ _) as [rest|] eqn:Hs; [|set_solver]. apply strip_components_Some in Hs.
    set (k := join "/" _). destruct (validate_local_object_key k) as [[]|e] eqn:Hv; simpl; [|set_solver].
    intros ->%list_elem_of_singleton. exists source. split; [done|]. split; [done|].
    destruct (key_parts _ Hv) as [Hrel _]. rewrite (path_components_join _ _ _ Hrel), Hs. f_equal.
    apply key_components; [done| |by eapply root_in_front].
    intros n Hn. apply (normal_component (path_join (gn_home env) source)). rewrite Hs. set_solver.
  - intros (? & [= <-] & Hv & Hcs). destruct (key_parts _ Hv) as [Hrel _]. rewrite (path_components_join _ _ _ Hrel) in Hcs.
    rewrite (proj2 (strip_components_Some _ _ _) Hcs), map_map, map_id, join_split, Hv. simpl. set_solver.
Qed.

Lemma queued_keys_spec env items events :
  path_components (gn_home env) ≠ [] → gn_queue env = Ok items → gn_events env = Ok events →
  ∃ queued, queued_local_object_keys env = Ok queued ∧ ∀ k, k ∈ queued ↔ queue_needs (gn_home env) items events k.
Proof.
  intros Hhome Hi He. unfold queued_local_object_keys. rewrite Hi, He. eexists. split; [reflexivity|]. intros k.
  rewrite elem_of_bset_of_list, elem_of_app, !elem_of_flat_map. unfold queue_needs. f_equiv.
  - setoid_rewrite queued_item_spec; [|done]. naive_solver.
  - unfold event_keys. setoid_rewrite elem_of_filter_bool. setoid_rewrite elem_of_app.
    assert (∀ o, k ∈ option_list o ↔ o = Some k) as Ho by (intros [x|]; simpl; set_solver). setoid_rewrite Ho.
    destruct (validate_local_object_key k) as [[]|e]; naive_solver.
Qed.

(** ** The state garbage collection keeps *)

(** What the documents of manifests promise: a compact manifest reads as the manifest
    without its records, and what reads as a manifest is a JSON document. *)
Class CompactLaws `{!Serde SnapshotManifest, !ManifestValue, !ValueRead} : Prop := {
  compact_value_reads (m : SnapshotManifest) :
    json_from_slice (value_to_json_pretty (compact_snapshot_manifest_value m)) = Some (sm_without_roots m);
  manifest_is_value b (m : SnapshotManifest) : json_from_slice b = Some m → is_Some (value_fields b);
}.

Section Kept.
Context `{!ObjectCodec, !ObjectCodecLaws, !Chrono, !Blake3, !Zstd, !Serde TreeNodeManifest, !Serde TreeManifest, !Serde PackIndex,
          !Serde LargeManifest, !Serde SnapshotManifest, !SerdeLaws SnapshotManifest, !ManifestValue, !ValueRead, !WalkDir, !CompactLaws}.

Definition sw_without (keys : list string) (w : StoreWorld) : StoreWorld :=
  sw_with_objects w (base.filter (λ kv, kv.1 ∉ keys) (sw_objects w)).

Lemma without_lookup keys w k : k ∉ keys → sw_objects (sw_without keys w) !! k = sw_objects w !! k.
Proof.
  intros Hk. apply option_eq. intros v. simpl. rewrite map_lookup_filter_Some. naive_solver.
Qed.
Lemma without_lookup_Some keys w k v : sw_objects (sw_without keys w) !! k = Some v → (k ∉ keys) ∧ sw_objects w !! k = Some v.
Proof. simpl. rewrite map_lookup_filter_Some. naive_solver. Qed.
Lemma without_extends keys w : extends (sw_without keys w) w.
Proof. intros k v Hk. by apply without_lookup_Some in Hk as []. Qed.

(** The manifest objects of the rows. *)
Definition manifest_keys (rows : list SnapshotExport) : list string := map se_manifest_key rows.

(** A row: its manifest can be read, and its roots are complete without relying on
    the manifest objects. *)
Definition row_ok (depth : nat) (M : list string) (w : StoreWorld) (s : SnapshotExport) : Prop :=
  validate_local_object_key (se_manifest_key s) = Ok tt ∧
  ∃ m, snapshot_manifest_is w s m ∧ Forall (root_complete depth (sw_without M w)) (sm_root_trees m).*2.

Record gc_ok (depth : nat) (w : GcWorld) : Prop := {
  go_codec : oc_inv (sw_codec (gw_store w));
  go_ids : NoDup (map se_id (gw_snapshots w));
  go_keys : NoDup (manifest_keys (gw_snapshots w));
  go_rows : Forall (row_ok depth (manifest_keys (gw_snapshots w)) (gw_store w)) (gw_snapshots w);
}.

Definition gc_reached (depth : nat) (w : GcWorld) (k : string) : Prop := reached depth (gw_store w) (export_metadata w) k.
Definition gc_needed (depth : nat) (w : GcWorld) (k : string) : Prop := needed depth (gw_store w) (export_metadata w) k.

(** *** Completeness depends only on the objects needed *)

Lemma holds_json_frame {T} `{!Serde T} w w' key (v : T) :
  sw_objects w' !! key = sw_objects w !! key → holds_json w key v → holds_json w' key v.
Proof. intros He (Hv & enc & b & Ho & Hr). split; [done|]. exists enc, b. by rewrite He. Qed.

Lemma node_at_frame d w w' key es :
  node_at d w key es → (∀ k, k = key ∨ node_below w key k → sw_objects w' !! k = sw_objects w !! k) → node_at d w' key es.
Proof.
  revert key es. induction d as [|d IH]; intros key es; [done|].
  intros (node & parts & Hh & Hf & ->) Hk. exists node, parts. split_and!; [| |done].
  - eapply holds_json_frame; [|done]. apply Hk. by left.
  - apply Forall2_same_length_lookup. split; [by eapply Forall2_length|].
    intros i child part Hc Hp. eapply IH; [by eapply Forall2_lookup_lr in Hf|].
    intros k Hb. apply Hk. right. assert (child.2 ∈ (tn_child_nodes node).*2).
    { apply list_elem_of_fmap. exists child. split; [done|]. by eapply list_elem_of_lookup_2. }
    destruct Hb as [-> | Hb]; [by econstructor|by eapply node_below_deeper].
Qed.

Lemma tree_at_frame d w w' key es :
  tree_at d w key es → (∀ k, (k = key ∨ ∃ (tree : TreeManifest) n, holds_json w key tree ∧ n ∈ tree_nodes tree ∧
    (k = tnr_node_key n ∨ node_below w (tnr_node_key n) k)) → sw_objects w' !! k = sw_objects w !! k) → tree_at d w' key es.
Proof.
  intros (tree & Hh & Ht) Hk. exists tree. split; [eapply holds_json_frame; [apply Hk; by left|done]|].
  destruct (tm_entries tree); [|done]. destruct (tm_root_node tree) as [rn|] eqn:Hrn; [|done].
  eapply node_at_frame; [done|]. intros k Hb. apply Hk. right. exists tree, rn. split_and!; [done| |done].
  unfold tree_nodes. rewrite Hrn. set_solver.
Qed.

Lemma root_complete_frame d w w' rt :
  root_complete d w rt → (∀ k, root_needs d w [] [] rt k → sw_objects w' !! k = sw_objects w !! k) → root_complete d w' rt.
Proof.
  intros (tree & es & Hh & Hn & Ht & Hr) Hk. exists tree, es. split_and!.
  - eapply holds_json_frame; [|done]. apply Hk. constructor.
  - rewrite Forall_forall in Hn |- *. intros n Hin. destruct (Hn n Hin) as (es' & Hn'). exists es'.
    eapply node_at_frame; [done|]. intros k [-> | Hb]; apply Hk; [by eapply ron_node|by eapply ron_below].
  - eapply tree_at_frame; [done|]. intros k [-> | (tree' & n & Hh' & Hin & Hb)]; apply Hk; [constructor|].
    destruct Hb as [-> | Hb]; [by eapply ron_node|by eapply ron_below].
  - rewrite Forall_forall in Hr |- *. intros r Hin oid mk n Hl. destruct (Hr r Hin oid mk n Hl) as (m & Hm).
    exists m. eapply holds_json_frame; [|done]. apply Hk. eapply ron_record; [done..|]. by eapply rk_manifest.
Qed.

Lemma root_complete_extends d w w' rt : extends w w' → root_complete d w rt → root_complete d w' rt.
Proof.
  intros He (tree & es & Hh & Hn & Ht & Hr). exists tree, es. split_and!.
  - by eapply holds_json_extends.
  - eapply Forall_impl; [done|]. intros n (es' & Hn'). exists es'. by eapply node_at_extends.
  - by eapply tree_at_extends.
  - eapply Forall_impl; [done|]. intros r Hc oid mk n Hl. destruct (Hc oid mk n Hl) as (m & Hm). exists m.
    by eapply holds_json_extends.
Qed.

(** *** Runs *)

Context (env : GcEnv).
Hypothesis compact_safe : ∀ m, oc_safe (value_to_json_pretty (compact_snapshot_manifest_value m)).

Definition gw_with_store (w : GcWorld) (s : StoreWorld) : GcWorld := gw_with_pack w (pw_with_store (gw_pack w) s).
Definition gw_with_files (w : GcWorld) (f : gmap string (list Z)) : GcWorld :=
  gw_with_store w (sw_with_objects (gw_store w) f).

Lemma in_gc_store_eq {A} (m : stm StoreWorld A) w r s :
  m (gw_store w) = (r, s) → in_gc_store m w = (r, gw_with_store w s).
Proof. intros Hm. unfold in_gc_store, in_gc_pack, in_store. unfold gw_store in Hm. by rewrite Hm. Qed.

Lemma in_gc_store_reads {A} (m : stm StoreWorld A) w a :
  reads (gw_store w) m a → oc_inv (sw_codec (gw_store w)) →
  ∃ c, oc_inv c ∧ in_gc_store m w = (Done a, gw_with_store w (sw_with_codec (gw_store w) c)).
Proof. intros Hr Hc. destruct (reads_run _ _ _ Hr Hc) as (c & Hc' & Hrun). exists c. split; [done|]. by apply in_gc_store_eq. Qed.

(** The removal touches only files that are not referenced. *)
Lemma remove_run referenced n keys w :
  ∃ r f, remove_unreferenced env false referenced n keys w = (r, gw_with_files w f) ∧
    (∀ k, f !! k = gw_files w !! k ∨ f !! k = None ∧ k ∈ keys ∧ k ∉ referenced) ∧
    match r with
    | Done _ => ∀ k, k ∈ keys → k ∉ referenced → f !! k = None
    | Fails _ => ∃ k, gn_unremovable env k = true
    | Panics => False
    end.
Proof.
  revert n w. induction keys as [|key keys IH]; intros n w; simpl.
  - exists (Done n), (gw_files w). split_and!; [by destruct w as [[[]]]|auto|set_solver].
  - destruct (bset_contains referenced key) eqn:Href; simpl.
    + apply bset_contains_true in Href. destruct (IH n w) as (r & f & Hrun & Hf & Hr). exists r, f.
      split_and!; [done| |].
      * intros k. destruct (Hf k) as [?|(? & ? & ?)]; [by left|right; set_solver].
      * destruct r; [|done..]. intros k Hk Hn. apply Hr; [set_solver|done].
    + apply bset_contains_false in Href. destruct (gn_unremovable env key) eqn:Hu.
      * exists (Fails "remove_file"), (gw_files w). split_and!; [by destruct w as [[[]]]|auto|eauto].
      * unfold stm_bind, stm_modify. destruct (IH (S n) (gw_remove key w)) as (r & f & Hrun & Hf & Hr).
        exists r, f. rewrite Hrun. split_and!; [by destruct w as [[[]]]| |].
        -- intros k. change (gw_files (gw_remove key w)) with (delete key (gw_files w)) in Hf.
           destruct (decide (k = key)) as [->|Hne].
           ++ right. split_and!; [|set_solver|done]. destruct (Hf key) as [->|(? & _)]; [by rewrite lookup_delete_eq|done].
           ++ destruct (Hf k) as [->|(? & ? & ?)]; [left; by rewrite lookup_delete_ne|right; set_solver].
        -- destruct r; [|done..]. intros k [-> | Hk]%elem_of_cons Hn; [|by apply Hr].
           destruct (Hf key) as [->|(? & _)]; [|done].
           change (gw_files (gw_remove key w)) with (delete key (gw_files w)). by rewrite lookup_delete_eq.
Qed.

(** *** Reading a manifest *)

Lemma read_object_raw_reads {T} `{!Serde T} w key (v : T) :
  holds_json w key v → ∃ b, reads w (read_object_raw (te_store (gn_tree env)) key) b ∧ json_from_slice b = Some v.
Proof.
  intros (Hv & enc & b & Ho & Hd & Hj). exists b. split; [|done]. intros c Hc.
  destruct (Hd _ Hc) as (c' & Hdec & Hc'). exists c'. split; [done|].
  assert (Ho' : sw_objects (sw_with_codec w c) !! key = Some enc) by exact Ho.
  unfold read_object_raw, stm_bind, stm_ok, stm_lift, outcome_of_result, stm_get. rewrite Hv, Ho'.
  unfold stm_ret. cbn [negb]. rewrite Ho'. unfold stm_some, stm_ret, codec. simpl sw_codec. by rewrite Hdec.
Qed.

Lemma reads_try {A} w (m : stm StoreWorld A) a : reads w m a → reads w (try_ok m) (Some a).
Proof. intros Hm c Hc. destruct (Hm c Hc) as (c' & Hc' & E). exists c'. split; [done|]. unfold try_ok. by rewrite E. Qed.

Lemma reads_some {A} w e (o : option A) a : o = Some a → reads w (stm_some e o) a.
Proof. intros ->. apply reads_ret. Qed.

Lemma tree_entries_reads d w key es :
  tree_at d w key es → ∃ b (tree : TreeManifest), reads w (read_object_raw (te_store (gn_tree env)) key) b ∧
    json_from_slice b = Some tree ∧ reads w (tree_entries_from_manifest (gn_tree env) d tree) es.
Proof.
  intros Ht. pose proof Ht as (tree & Hh & Hm). destruct (read_object_raw_reads w key tree Hh) as (b & Hr & Hj).
  exists b, tree. split_and!; [done..|]. clear Hr Hj Hh Ht. unfold tree_entries_from_manifest.
  destruct (tm_entries tree); [|subst; apply reads_ret]. destruct (tm_root_node tree) as [rn|]; [|subst; apply reads_ret].
  intros c Hc. assert (Hn : node_at d (sw_with_codec w c) (tnr_node_key rn) es) by (revert Hm; by apply node_at_extends, extends_same).
  destruct (tree_entries_from_node_run (gn_tree env) d (sw_with_codec w c) _ _ Hc Hn) as (node & Hnode & _).
  destruct (read_json (te_store (gn_tree env)) (sw_with_codec w c) _ _ Hc Hnode) as (b2 & c2 & Hc2 & Hr2 & Hj2).
  assert (Hn2 : node_at d (sw_with_codec w c2) (tnr_node_key rn) es) by (revert Hm; by apply node_at_extends, extends_same).
  destruct (tree_entries_from_node_run (gn_tree env) d (sw_with_codec w c2) _ _ Hc2 Hn2) as (node' & Hnode' & c3 & Hc3 & Hrun).
  apply (holds_json_unique (sw_with_codec w c) _ _ _ _ Hc eq_refl Hnode) in Hnode' as ->.
  exists c3. split; [done|]. unfold stm_bind. rewrite Hr2, Hj2. unfold stm_some, stm_ret.
  change (sw_with_codec (sw_with_codec w c) c2) with (sw_with_codec w c2). by rewrite Hrun.
Qed.

(** The records of the trees. *)
Definition tree_record (w : StoreWorld) (trees : list (string * RootSnapshot)) (r : FileRecord) : Prop :=
  ∃ rt es, rt ∈ trees.*2 ∧ tree_at (gn_depth env) w (rs_tree_key rt) es ∧ r ∈ es.*2.

Lemma elem_of_concat_insert {A} id (l : list A) roots x :
  x ∈ concat (bmap_insert id l roots).*2 → x ∈ l ∨ x ∈ concat roots.*2.
Proof.
  induction roots as [|[k v] roots IH]; simpl; [set_solver|]. destruct (String.compare id k); simpl; set_solver.
Qed.

Lemma hydrate_roots_reads w roots trees :
  Forall (λ rt, ∃ es, tree_at (gn_depth env) w (rs_tree_key rt) es) trees.*2 →
  ∃ roots', reads w (hydrate_roots env roots trees) (Some roots') ∧
    ∀ r, r ∈ concat roots'.*2 → r ∈ concat roots.*2 ∨ tree_record w trees r.
Proof.
  revert roots. induction trees as [|[id rt] trees IH]; intros roots Ht; simpl; [eexists; split; [apply reads_ret|by left]|].
  apply Forall_cons in Ht as [(es & Hes) Ht]. destruct (tree_entries_reads _ _ _ _ Hes) as (b & tree & Hr & Hj & He).
  destruct (IH (bmap_insert id es.*2 roots) Ht) as (roots' & IHr & Hsub). exists roots'. split.
  - eapply reads_bind; [by apply reads_try|]. simpl. eapply reads_bind; [by apply reads_some|].
    eapply reads_bind; [exact He|exact IHr].
  - intros r [Hin|(rt' & es' & ? & ?)]%Hsub; [|right; exists rt', es'; set_solver].
    apply elem_of_concat_insert in Hin as [?|?]; [|by left]. right. exists rt, es. set_solver.
Qed.

Lemma manifest_from_parts_reads w s m :
  snapshot_manifest_is w s m → Forall (λ rt, ∃ es, tree_at (gn_depth env) w (rs_tree_key rt) es) (sm_root_trees m).*2 →
  ∃ m', reads w (snapshot_manifest_from_parts env (se_manifest_key s) (se_manifest_json s)) m' ∧
    sm_without_roots m' = sm_without_roots m ∧
    ∀ r, r ∈ concat (sm_roots m').*2 → r ∈ concat (sm_roots m).*2 ∨ tree_record w (sm_root_trees m) r.
Proof.
  unfold snapshot_manifest_is, snapshot_manifest_from_parts. intros Hm Ht.
  destruct (is_empty (trim (se_manifest_json s))); cbn [negb]; [|exists m; split_and!; [by apply reads_some|done|by left]].
  destruct (read_object_raw_reads w _ m Hm) as (b & Hr & Hj).
  enough (∃ b' m', reads w (hydrate_known_compact_snapshot_manifest_payload env b) b' ∧ json_from_slice b' = Some m' ∧
    sm_without_roots m' = sm_without_roots m ∧
    ∀ r, r ∈ concat (sm_roots m').*2 → r ∈ concat (sm_roots m).*2 ∨ tree_record w (sm_root_trees m) r) as (b' & m' & Hb & Hj' & He).
  { exists m'. split; [|done]. eapply reads_bind; [by apply reads_try|]. simpl. eapply reads_bind; [apply reads_ret|].
    eapply reads_bind; [exact Hb|]. by apply reads_some. }
  unfold hydrate_known_compact_snapshot_manifest_payload. rewrite Hj.
  destruct (negb _); [exists b, m; split_and!; [apply reads_ret|done|done|by left]|].
  destruct (_ || _); [exists b, m; split_and!; [apply reads_ret|done|done|by left]|].
  destruct (hydrate_roots_reads w (sm_roots m) (sm_root_trees m) Ht) as (roots' & Hroots & Hsub).
  eexists _, _. split; [eapply reads_bind; [exact Hroots|apply reads_ret]|]. split_and!; [apply json_pretty_roundtrip|done|exact Hsub].
Qed.

Lemma is_compact_reads w key (m : SnapshotManifest) :
  holds_json w key m → ∃ b, reads w (local_snapshot_manifest_object_is_compact key) b.
Proof.
  intros (Hv & enc & d & Ho & Hd & Hj). destruct (manifest_is_value d m Hj) as [fields Hf].
  eexists. intros c Hc. destruct (Hd _ Hc) as (c' & Hdec & Hc'). exists c'. split; [done|].
  assert (Ho' : sw_objects (sw_with_codec w c) !! key = Some enc) by exact Ho.
  unfold local_snapshot_manifest_object_is_compact, stm_bind, stm_get. rewrite Ho'.
  unfold stm_some at 1, stm_ret, codec. simpl sw_codec. rewrite Hdec, Hf. reflexivity.
Qed.

(** *** Compacting *)

Definition clear_ids (C : list string) (rows : list SnapshotExport) : list SnapshotExport :=
  map (λ s, if bool_decide (se_id s ∈ C) then se_clear_manifest_json s else s) rows.

Lemma clear_ids_cons id C rows : clear_ids C (clear_manifest_json id rows) = clear_ids (id :: C) rows.
Proof.
  unfold clear_ids, clear_manifest_json. rewrite map_map. apply map_ext. intros s.
  destruct (String.eqb_spec (se_id s) id) as [->|Hne]; simpl; repeat case_bool_decide; set_solver.
Qed.
Lemma clear_ids_nil rows : clear_ids [] rows = rows.
Proof. unfold clear_ids. rewrite <-(map_id rows) at 2. apply map_ext. intros s. case_bool_decide; set_solver. Qed.

Definition clear_if (C : list string) (s : SnapshotExport) : SnapshotExport :=
  if bool_decide (se_id s ∈ C) then se_clear_manifest_json s else s.

Lemma manifest_is_frame w w' s m :
  sw_objects w' !! se_manifest_key s = sw_objects w !! se_manifest_key s → snapshot_manifest_is w s m → snapshot_manifest_is w' s m.
Proof. unfold snapshot_manifest_is. destruct (is_empty _); [apply holds_json_frame|done]. Qed.

Lemma trees_of_row depth M w s m :
  row_ok depth M w s → oc_inv (sw_codec w) → snapshot_manifest_is w s m →
  Forall (λ rt, ∃ es, tree_at depth w (rs_tree_key rt) es) (sm_root_trees m).*2.
Proof.
  intros (_ & m' & Hm' & Hall) Hc Hm. rewrite (snapshot_manifest_fun w Hc s m' m Hm' Hm).
  eapply Forall_impl; [exact Hall|]. intros rt (tree & es & _ & _ & Ht & _). exists es.
  eapply tree_at_extends; [apply (without_extends M)|done].
Qed.

Lemma without_agree M w w' :
  (∀ k, k ∉ M → sw_objects w' !! k = sw_objects w !! k) → extends (sw_without M w) (sw_without M w').
Proof. intros Hk k v [Hn Hv]%without_lookup_Some. rewrite without_lookup by done. by rewrite Hk. Qed.

Lemma row_ok_frame depth M w w' s :
  row_ok depth M w s → se_manifest_key s ∈ M → sw_objects w' !! se_manifest_key s = sw_objects w !! se_manifest_key s →
  (∀ k, k ∉ M → sw_objects w' !! k = sw_objects w !! k) → row_ok depth M w' s.
Proof.
  intros (Hv & m & Hm & Hall) _ Hk Hoff. split; [done|]. exists m. split; [by eapply manifest_is_frame|].
  eapply Forall_impl; [exact Hall|]. intros rt. apply root_complete_extends. by apply without_agree.
Qed.

(** The state after the manifests of [rows] have been compacted. *)
Record compacted (w : GcWorld) (rows : list SnapshotExport) (w' : GcWorld) (C : list string) : Prop := {
  co_world : ∃ c f, w' = gw_with_snapshots (gw_with_store w (sw_with_objects (sw_with_codec (gw_store w) c) f))
                           (clear_ids C (gw_snapshots w));
  co_codec : oc_inv (sw_codec (gw_store w'));
  co_ids id : id ∈ C → ∃ s, s ∈ rows ∧ id = se_id s;
  co_files k : k ∉ manifest_keys rows → gw_files w' !! k = gw_files w !! k;
  co_manifests s : s ∈ rows → ∃ m m', snapshot_manifest_is (gw_store w) s m ∧
    snapshot_manifest_is (gw_store w') (clear_if C s) m' ∧ sm_root_trees m' = sm_root_trees m;
}.

(** One row that is not skipped. *)
Lemma compact_row_run w s m c :
  oc_inv (sw_codec (gw_store w)) → oc_inv c → validate_local_object_key (se_manifest_key s) = Ok tt →
  snapshot_manifest_is (gw_store w) s m →
  Forall (λ rt, ∃ es, tree_at (gn_depth env) (gw_store w) (rs_tree_key rt) es) (sm_root_trees m).*2 →
  ∃ w1, compact_row env s (gw_with_store w (sw_with_codec (gw_store w) c)) = (Done tt, w1) ∧
    compacted w [s] w1 [se_id s].
Proof.
  intros Hcw Hc Hv Hm Ht. destruct (manifest_from_parts_reads _ s m Hm Ht) as (m' & Hr & He & _).
  destruct (Hr c Hc) as (c1 & Hc1 & Hrun1).
  destruct (oc_encode_spec c1 _ Hc1 (compact_safe m')) as (enc & c2 & Henc & Hc2 & Hdec).
  unfold compact_row, stm_bind. rewrite (in_gc_store_eq _ (gw_with_store w (sw_with_codec (gw_store w) c)) _ _ Hrun1). unfold encode_compact_snapshot_manifest_for_local.
  erewrite in_gc_store_eq; [|unfold codec; simpl sw_codec; by rewrite Henc].
  unfold stm_modify. eexists. split; [reflexivity|].
  set (w1 := gw_with_snapshots _ _).
  assert (Hfile : gw_files w1 = <[se_manifest_key s := enc]> (gw_files w)) by done.
  assert (Hh : holds_json (gw_store w1) (se_manifest_key s) (sm_without_roots m)).
  { split; [done|]. exists enc, (value_to_json_pretty (compact_snapshot_manifest_value m')).
    split_and!; [|exact Hdec|by rewrite compact_value_reads, He].
    change (sw_objects (gw_store w1)) with (gw_files w1). by rewrite Hfile, lookup_insert_eq. }
  split.
  - exists c2, (<[se_manifest_key s := enc]> (gw_files w)). unfold w1. f_equal.
    rewrite <-(clear_ids_nil (clear_manifest_json _ _)), clear_ids_cons. reflexivity.
  - done.
  - intros id Hid%list_elem_of_singleton. exists s. split; [set_solver|done].
  - intros k Hk. rewrite Hfile, lookup_insert_ne; [done|]. unfold manifest_keys in Hk. set_solver.
  - intros s' ->%list_elem_of_singleton. exists m, (sm_without_roots m). split_and!; [done| |done].
    unfold clear_if. rewrite bool_decide_true by set_solver. exact Hh.
Qed.

Lemma clear_if_cons id C s : se_id s ≠ id → clear_if (id :: C) s = clear_if C s.
Proof. intros Hne. unfold clear_if. repeat case_bool_decide; set_solver. Qed.

Lemma compacted_nil w : oc_inv (sw_codec (gw_store w)) → compacted w [] w [].
Proof.
  intros Hc. split; [|done|set_solver|done|set_solver].
  exists (sw_codec (gw_store w)), (gw_files w). rewrite clear_ids_nil. by destruct w as [[[]]].
Qed.

Lemma manifest_is_key w s m : snapshot_manifest_is w (se_clear_manifest_json s) m → holds_json w (se_manifest_key s) m.
Proof. done. Qed.

(** Processing one row and then the others. *)
Lemma compacted_step w s w1 C1 rest w2 C2 :
  compacted w [s] w1 C1 → compacted w1 rest w2 C2 →
  se_id s ∉ map se_id rest → se_manifest_key s ∉ manifest_keys rest →
  compacted w (s :: rest) w2 (C1 ++ C2).
Proof.
  intros [(c1 & f1 & Hw1) Hc1 Hi1 Hf1 Hm1] [(c2 & f2 & Hw2) Hc2 Hi2 Hf2 Hm2] Hid Hkey. split.
  - exists c2, f2. rewrite Hw2, Hw1. unfold gw_with_snapshots, gw_with_store. simpl. f_equal.
    unfold clear_ids. rewrite map_map. apply map_ext. intros x.
    repeat case_bool_decide; try done; simpl in *; set_solver.
  - done.
  - intros id [Hid1|Hid2]%elem_of_app.
    + destruct (Hi1 id Hid1) as (x & Hx & ->). exists x. set_solver.
    + destruct (Hi2 id Hid2) as (x & Hx & ->). exists x. set_solver.
  - intros k Hk. unfold manifest_keys in *. simpl in Hk. rewrite Hf2, Hf1; set_solver.
  - intros x [-> | Hx]%elem_of_cons.
    + destruct (Hm1 s) as (m & m' & Hm & Hm' & He); [set_solver|]. exists m, m'. split_and!; [done| |done].
      replace (clear_if (C1 ++ C2) s) with (clear_if C1 s).
      * eapply manifest_is_frame; [|exact Hm']. change (gw_files w2 !! se_manifest_key (clear_if C1 s) = gw_files w1 !! se_manifest_key (clear_if C1 s)).
        apply Hf2. unfold clear_if. by case_bool_decide.
      * unfold clear_if. assert (se_id s ∉ C2) by (intros (y & Hy & He')%Hi2; rewrite He' in Hid; set_solver).
        repeat case_bool_decide; set_solver.
    + destruct (Hm2 x Hx) as (m & m' & Hm & Hm' & He). exists m, m'. split_and!; [| |done].
      * eapply manifest_is_frame; [|exact Hm]. change (gw_files w !! se_manifest_key x = gw_files w1 !! se_manifest_key x).
        symmetry. apply Hf1. unfold manifest_keys in *. simpl. intros [He'|]%elem_of_cons; [|set_solver].
        apply Hkey. rewrite <-He'. apply list_elem_of_fmap. by exists x.
      * replace (clear_if (C1 ++ C2) x) with (clear_if C2 x); [done|]. unfold clear_if.
        assert (se_id x ∉ C1).
        { intros (y & Hy%list_elem_of_singleton & He')%Hi1. subst y. apply Hid. rewrite <-He'. apply list_elem_of_fmap. by exists x. }
        repeat case_bool_decide; set_solver.
Qed.

(** Skipping a row that is compact already. *)
Lemma compacted_skip w s c m :
  oc_inv c → snapshot_manifest_is (gw_store w) s m →
  compacted w [s] (gw_with_store w (sw_with_codec (gw_store w) c)) [].
Proof.
  intros Hc Hm. split; [|done|set_solver|done|].
  - exists c, (gw_files w). rewrite clear_ids_nil. by destruct w as [[[]]].
  - intros x ->%list_elem_of_singleton. exists m, m. by split_and!.
Qed.

Lemma compact_rows_run M rows md ob w :
  oc_inv (sw_codec (gw_store w)) → Forall (row_ok (gn_depth env) M (gw_store w)) rows → (∀ k, k ∈ manifest_keys rows → k ∈ M) →
  NoDup (map se_id rows) → NoDup (manifest_keys rows) →
  ∃ n w' C, compact_rows env md ob rows w = (Done n, w') ∧ compacted w rows w' C.
Proof.
  revert md ob w. induction rows as [|s rest IH]; intros md ob w Hc Hall HM Hids Hkeys.
  { exists (md, ob), w, []. split; [done|]. by apply compacted_nil. }
  apply Forall_cons in Hall as [Hs Hall]. apply NoDup_cons in Hids as [Hid Hids]. apply NoDup_cons in Hkeys as [Hkey Hkeys].
  pose proof Hs as (Hv & m & Hm & Hroots). pose proof (trees_of_row _ _ _ _ _ Hs Hc Hm) as Ht.
  assert (Hnext : ∀ w1 C1 md ob, compacted w [s] w1 C1 → ∃ n w' C, compact_rows env md ob rest w1 = (Done n, w') ∧ compacted w (s :: rest) w' C).
  { intros w1 C1 md' ob' Hst. destruct (IH md' ob' w1) as (n & w' & C & Hrun & Hco); [by apply Hst| |set_solver|done|done|].
    - rewrite Forall_forall in Hall |- *. intros x Hx. eapply row_ok_frame; [by apply Hall|apply HM, list_elem_of_fmap; exists x; set_solver| |].
      + apply (co_files _ _ _ _ Hst). intros Hin%list_elem_of_singleton. apply Hkey. rewrite <-Hin. apply list_elem_of_fmap. by exists x.
      + intros k Hk. apply (co_files _ _ _ _ Hst). intros ->%list_elem_of_singleton. apply Hk, HM. set_solver.
    - exists n, w', (C1 ++ C). split; [done|]. by eapply compacted_step. }
  assert (Hrow : ∀ c md ob, oc_inv c → ∃ n w' C,
    (let* _ := compact_row env s in compact_rows env md ob rest) (gw_with_store w (sw_with_codec (gw_store w) c)) = (Done n, w') ∧
    compacted w (s :: rest) w' C).
  { intros c md' ob' Hc'. destruct (compact_row_run w s m c Hc Hc' Hv Hm Ht) as (w1 & Hrun & Hst).
    unfold stm_bind. rewrite Hrun. by eapply Hnext. }
  simpl. destruct (is_empty (se_manifest_json s)) eqn:He.
  - assert (Hh : holds_json (gw_store w) (se_manifest_key s) m).
    { revert Hm. unfold snapshot_manifest_is. destruct (se_manifest_json s); [done|discriminate He]. }
    destruct (is_compact_reads _ _ m Hh) as (b & Hb). destruct (in_gc_store_reads _ w _ Hb Hc) as (c & Hc' & Hrun).
    unfold stm_bind at 1. rewrite Hrun. destruct b; [by eapply Hnext, compacted_skip|by apply Hrow].
  - pose proof (Hrow (sw_codec (gw_store w)) (S md) (S ob) Hc) as Hr.
    replace (gw_with_store w (sw_with_codec (gw_store w) (sw_codec (gw_store w)))) with w in Hr by (by destruct w as [[[]]]).
    exact Hr.
Qed.

(** *** Needs grow with the store *)

Lemma node_below_extends w w' key k : extends w w' → node_below w key k → node_below w' key k.
Proof.
  intros He. induction 1 as [key node child Hh Hc|key node child k Hh Hc _ IH].
  - eapply node_below_child; [by eapply holds_json_extends|done].
  - eapply node_below_deeper; [by eapply holds_json_extends|done|done].
Qed.

Lemma root_needs_extends d w w' blobs packs rt k :
  extends w w' → root_needs d w blobs packs rt k → root_needs d w' blobs packs rt k.
Proof.
  intros He [|tree n Hh Hin|tree n key Hh Hin Hb|es r key Ht Hin Hr].
  - constructor.
  - eapply ron_node; [by eapply holds_json_extends|done].
  - eapply ron_below; [by eapply holds_json_extends|done|by eapply node_below_extends].
  - eapply ron_record; [by eapply tree_at_extends|done|].
    destruct Hr; [by eapply rk_loose|by eapply rk_pack|by eapply rk_pack_index|by eapply rk_manifest|].
    eapply rk_chunk; [done|by eapply holds_json_extends|done].
Qed.

Lemma root_needs_tables d w blobs packs rt k : root_needs d w [] [] rt k → root_needs d w blobs packs rt k.
Proof.
  intros [|tree n Hh Hin|tree n key Hh Hin Hb|es r key Ht Hin Hr];
    [constructor|by eapply ron_node|by eapply ron_below|]. eapply ron_record; [done..|].
  apply record_needs_split. by left.
Qed.

Lemma row_complete depth M w s : row_ok depth M w s → snapshot_complete depth w s.
Proof.
  intros (_ & m & Hm & Hall). exists m. split; [done|]. eapply Forall_impl; [exact Hall|].
  intros rt. apply root_complete_extends, without_extends.
Qed.

(** A row stays fine when the objects it needs stay. *)
Lemma row_ok_kept depth M w w' s :
  row_ok depth M w s → sw_objects w' !! se_manifest_key s = sw_objects w !! se_manifest_key s →
  (∀ m rt k, snapshot_manifest_is w s m → rt ∈ (sm_root_trees m).*2 → root_needs depth w [] [] rt k → k ∉ M →
     sw_objects w' !! k = sw_objects w !! k) → row_ok depth M w' s.
Proof.
  intros (Hv & m & Hm & Hall) Hk Hkeep. split; [done|]. exists m. split; [by eapply manifest_is_frame|].
  rewrite Forall_forall in Hall |- *. intros rt Hrt. eapply root_complete_frame; [by apply Hall|]. intros k Hn.
  destruct (decide (k ∈ M)) as [Hin|Hout].
  - assert (Hnone : ∀ w0, sw_objects (sw_without M w0) !! k = None).
    { intros w0. apply eq_None_not_Some. intros [v [Hn' _]%without_lookup_Some]. done. }
    by rewrite !Hnone.
  - rewrite !without_lookup by done. eapply Hkeep; [done..| |done].
    eapply root_needs_extends; [apply (without_extends M)|done].
Qed.

(** *** The two phases *)

(** The tables of large objects and of chunks. *)
Definition large_tables (w : GcWorld) : gmap string (Z * Z * string) * gmap string (Z * string) :=
  (sw_large_objects (gw_store w), sw_chunks (gw_store w)).

Definition same_tables (w w' : GcWorld) : Prop :=
  gw_snapshots w' = gw_snapshots w ∧ pw_blobs (gw_pack w') = pw_blobs (gw_pack w) ∧
  pw_packs (gw_pack w') = pw_packs (gw_pack w) ∧ large_tables w' = large_tables w.

(** Collecting: everything needed or queued stays, and when nothing resists, nothing
    else does. *)
Lemma collect_run w queued :
  gc_ok (gn_depth env) w → queued_local_object_keys env = Ok queued →
  ∃ r w2, (let* export := stm_get export_metadata in
    let* referenced := in_gc_store (local_object_keys (te_store (gn_tree env)) (gn_depth env) export) in
    let* queued := stm_ok (queued_local_object_keys env) in
    let* all_objects := stm_get all_local_object_keys in
    remove_unreferenced env false (bset_extend referenced queued) 0 all_objects) w = (r, w2) ∧
  same_tables w w2 ∧ gc_ok (gn_depth env) w2 ∧
  (∀ k, gc_reached (gn_depth env) w k ∨ k ∈ queued → gw_files w2 !! k = gw_files w !! k) ∧
  match r with
  | Done _ => ∀ k, starts_with k "objects/" = true → is_Some (gw_files w2 !! k) →
      is_Some (gw_files w !! k) ∧ (gc_reached (gn_depth env) w k ∨ k ∈ queued)
  | Fails _ => ∃ k, gn_unremovable env k = true
  | Panics => False
  end.
Proof.
  intros [Hc Hids Hkeys Hrows] Hq.
  assert (Hall : Forall (snapshot_complete (gn_depth env) (gw_store w)) (mx_snapshots (export_metadata w))).
  { simpl. rewrite sort_by_perm. eapply Forall_impl; [exact Hrows|]. intros s. apply row_complete. }
  destruct (local_object_keys_read (gw_store w) (te_store (gn_tree env)) Hc _ _ Hall) as (keys & Hr & Hk).
  destruct (in_gc_store_reads _ w _ Hr Hc) as (c & Hc' & Hrun). set (w1 := gw_with_store w (sw_with_codec (gw_store w) c)) in *.
  destruct (remove_run (bset_extend keys queued) 0 (all_local_object_keys w1) w1) as (r & f & Hrem & Hf & Hr2).
  exists r, (gw_with_files w1 f). unfold stm_bind, stm_get. rewrite Hrun. unfold stm_ok, stm_lift, outcome_of_result. rewrite Hq, Hrem.
  assert (Hkeep : ∀ k, gc_reached (gn_depth env) w k ∨ k ∈ queued → f !! k = gw_files w !! k).
  { intros k Hn. destruct (Hf k) as [->|(_ & _ & Hout)]; [done|]. exfalso. apply Hout. rewrite elem_of_bset_extend.
    destruct Hn; [left; by apply Hk|by right]. }
  split_and!; [done|done| |exact Hkeep|].
  - split; [done..|]. change (gw_snapshots (gw_with_files w1 f)) with (gw_snapshots w).
    rewrite Forall_forall in Hrows |- *. intros s Hs. assert (Hs' : s ∈ mx_snapshots (export_metadata w)) by (simpl; by rewrite sort_by_perm).
    eapply row_ok_kept; [by apply Hrows| |].
    + apply Hkeep. left. by apply reach_manifest.
    + intros m rt k Hm Hrt Hn _. apply Hkeep. left. eapply reach_root; [done..|]. by apply root_needs_tables.
  - destruct r; [|done..]. intros k Hobj Hk2. change (gw_files (gw_with_files w1 f)) with f in Hk2.
    destruct (Hf k) as [Heq|(Hnone & _)]; [|rewrite Hnone in Hk2; by destruct Hk2].
    rewrite Heq in Hk2. split; [done|]. destruct (decide (k ∈ bset_extend keys queued)) as [Hin|Hout].
    + apply elem_of_bset_extend in Hin as [Hin|Hin]; [left; by apply Hk|by right].
    + exfalso. rewrite (Hr2 k) in Heq; [|unfold all_local_object_keys; rewrite walk_order_perm, elem_of_filter_bool, elem_of_keys; by split|done].
      rewrite <-Heq in Hk2. by destruct Hk2.
Qed.

(** Compacting: the rows keep their roots, and only manifest objects change. *)
Definition same_roots (w w' : GcWorld) : Prop :=
  Forall2 (λ s s', se_id s' = se_id s ∧ se_manifest_key s' = se_manifest_key s ∧
    ∃ m m', snapshot_manifest_is (gw_store w) s m ∧ snapshot_manifest_is (gw_store w') s' m' ∧
            sm_root_trees m' = sm_root_trees m) (gw_snapshots w) (gw_snapshots w').

Lemma clear_ids_keys C rows :
  map se_id (clear_ids C rows) = map se_id rows ∧ manifest_keys (clear_ids C rows) = manifest_keys rows.
Proof.
  unfold manifest_keys, clear_ids. rewrite !map_map. split; apply map_ext; intros s; by case_bool_decide.
Qed.

Lemma compact_manifests_run w :
  gc_ok (gn_depth env) w → ∃ n w', compact_snapshot_manifest_metadata env w = (Done n, w') ∧
    gc_ok (gn_depth env) w' ∧ same_roots w w' ∧ pw_blobs (gw_pack w') = pw_blobs (gw_pack w) ∧
    pw_packs (gw_pack w') = pw_packs (gw_pack w) ∧ large_tables w' = large_tables w ∧
    ∀ k, k ∉ manifest_keys (gw_snapshots w) → gw_files w' !! k = gw_files w !! k.
Proof.
  intros [Hc Hids Hkeys Hrows]. unfold compact_snapshot_manifest_metadata, stm_bind, stm_get.
  set (M := manifest_keys (gw_snapshots w)) in *.
  assert (Hp : ∀ A (g : SnapshotExport → A), map g (sort_by se_created_at (gw_snapshots w)) ≡ₚ map g (gw_snapshots w)).
  { intros A g. by rewrite sort_by_perm. }
  destruct (compact_rows_run M (sort_by se_created_at (gw_snapshots w)) 0 0 w Hc) as (n & w' & C & Hrun & Hco).
  { by rewrite sort_by_perm. }
  { intros k Hk. unfold manifest_keys in Hk. by rewrite Hp in Hk. }
  { by rewrite Hp. }
  { unfold manifest_keys. by rewrite Hp. }
  exists n, w'. split; [done|]. destruct Hco as [(c & f & Hw') Hc' _ Hf Hm].
  assert (Hoff : ∀ k, k ∉ M → gw_files w' !! k = gw_files w !! k).
  { intros k Hk. apply Hf. unfold manifest_keys. by rewrite Hp. }
  assert (Hsn : gw_snapshots w' = clear_ids C (gw_snapshots w)) by (by rewrite Hw').
  assert (Hrow : ∀ s, s ∈ gw_snapshots w → ∃ m m', snapshot_manifest_is (gw_store w) s m ∧
    snapshot_manifest_is (gw_store w') (clear_if C s) m' ∧ sm_root_trees m' = sm_root_trees m).
  { intros s Hs. apply Hm. by rewrite sort_by_perm. }
  destruct (clear_ids_keys C (gw_snapshots w)) as [Hid1 Hkey1]. split_and!; [| |by rewrite Hw'..|done].
  - split; [done|by rewrite Hsn, Hid1|by rewrite Hsn, Hkey1|]. rewrite Hsn, Hkey1. fold M.
    unfold clear_ids. apply Forall_map. rewrite Forall_forall in Hrows |- *. intros s Hs.
    destruct (Hrow s Hs) as (m & m' & Hsm & Hsm' & He). destruct (Hrows s Hs) as (Hv & m0 & Hm0 & Hall).
    fold (clear_if C s). split; [by unfold clear_if; case_bool_decide|]. exists m'. split; [done|]. rewrite He.
    rewrite (snapshot_manifest_fun _ Hc _ _ _ Hm0 Hsm). eapply Forall_impl; [exact Hall|].
    intros rt. apply root_complete_extends. by apply without_agree.
  - unfold same_roots. rewrite Hsn. unfold clear_ids. apply Forall2_fmap_r, Forall_Forall2_diag. apply Forall_forall. intros s Hs.
    fold (clear_if C s). split_and!; [by unfold clear_if; case_bool_decide..|]. by apply Hrow.
Qed.

Lemma same_roots_refl w : gc_ok (gn_depth env) w → same_roots w w.
Proof.
  intros [_ _ _ Hrows]. apply Forall_Forall2_diag. eapply Forall_impl; [exact Hrows|].
  intros s (_ & m & Hm & _). split_and!; [done..|]. by exists m, m.
Qed.

Lemma gc_run w queued :
  gc_ok (gn_depth env) w → queued_local_object_keys env = Ok queued →
  ∃ r w', gc_cmd env false w = (r, w') ∧ gc_ok (gn_depth env) w' ∧
    pw_blobs (gw_pack w') = pw_blobs (gw_pack w) ∧ pw_packs (gw_pack w') = pw_packs (gw_pack w) ∧
    large_tables w' = large_tables w ∧
    (r = Done tt → same_roots w w') ∧ (r ≠ Done tt → gw_snapshots w' = gw_snapshots w) ∧
    (∀ k, gc_reached (gn_depth env) w k ∨ k ∈ queued → k ∉ manifest_keys (gw_snapshots w) →
      gw_files w' !! k = gw_files w !! k) ∧
    ((∀ k, gn_unremovable env k = false) → r = Done tt ∧
      ∀ k, starts_with k "objects/" = true → is_Some (gw_files w' !! k) → gc_reached (gn_depth env) w k ∨ k ∈ queued).
Proof.
  intros Hok Hq. destruct (collect_run w queued Hok Hq) as (r & w2 & Hrun & (Hsn & Hb & Hp & Hlt) & Hok2 & Hkeep & Hr).
  assert (Hgc : gc_cmd env false w = match r with
    | Done removed => (let* compacted := compact_snapshot_manifest_metadata env in
        in_gc_pack (record_op "gc" ("removed " +:+ nat_str removed +:+ " unreferenced objects; compacted "
          +:+ nat_str compacted.1 +:+ " manifests and " +:+ nat_str compacted.2 +:+ " manifest objects"))) w2
    | Fails e => (Fails e, w2)
    | Panics => (Panics, w2)
    end).
  { revert Hrun. unfold gc_cmd, stm_bind, stm_get. destruct (in_gc_store _ w) as [[keys|e|] w1]; [|by intros [= <- <-]..].
    destruct (stm_ok _ w1) as [[q|e|] w1']; [|by intros [= <- <-]..]. by intros ->. }
  rewrite Hgc. destruct r as [removed|e|]; [| |done].
  - destruct (compact_manifests_run w2 Hok2) as (n & w3 & Hc & Hok3 & Hsame & Hb3 & Hp3 & Hlt3 & Hoff). unfold stm_bind at 1. rewrite Hc.
    exists (Done tt). eexists. split; [reflexivity|].
    assert (Hsr : same_roots w w3).
    { unfold same_roots in *. rewrite <-Hsn. apply Forall2_same_length_lookup. split; [by eapply Forall2_length|].
      intros i s s' Hs Hs'. destruct (Forall2_lookup_lr _ _ _ _ _ _ Hsame Hs Hs') as (? & ? & m & m' & Hm & ? & ?).
      split_and!; [done..|]. exists m, m'. split_and!; [|done..]. revert Hm. apply manifest_is_frame. symmetry. apply Hkeep. left.
      apply reach_manifest. simpl. rewrite sort_by_perm, <-Hsn. by eapply list_elem_of_lookup_2. }
    assert (Hsn' : manifest_keys (gw_snapshots w2) = manifest_keys (gw_snapshots w)) by (by rewrite Hsn).
    split_and!; [by destruct Hok3; split|by rewrite <-Hb, <-Hb3|by rewrite <-Hp, <-Hp3|by rewrite <-Hlt, <-Hlt3|done|done| |].
    + intros k Hn Hk. etrans; [|by apply Hkeep]. apply Hoff. by rewrite Hsn'.
    + intros _. split; [done|]. intros k Hobj Hfile.
      destruct (decide (k ∈ manifest_keys (gw_snapshots w))) as [(s & -> & Hs)%list_elem_of_fmap|Hout].
      * left. apply reach_manifest. simpl. by rewrite sort_by_perm.
      * apply Hr; [done|]. rewrite <-Hsn' in Hout. rewrite <-(Hoff k Hout). exact Hfile.
  - exists (Fails e), w2. split_and!; [done|done|done|done|done|done|done|by auto|].
    intros Hun. exfalso. destruct Hr as [k Hk]. by rewrite Hun in Hk.
Qed.


(** C38. Garbage collection reads only the trees of a snapshot.  When the one snapshot of
    a store has its records in the manifest itself, as old snapshots have, and no trees,
    [mj gc] reports success and removes every object that is not queued, the contents of
    all files of the snapshot included; only the manifest is left. *)
Theorem gc_drops_flat_roots w queued s m :
  gc_ok (gn_depth env) w → queued_local_object_keys env = Ok queued → (∀ k, gn_unremovable env k = false) →
  gw_snapshots w = [s] → snapshot_manifest_is (gw_store w) s m → sm_root_trees m = [] →
  ∃ w', gc_cmd env false w = (Done tt, w') ∧
    ∀ k, starts_with k "objects/" = true → k ∉ queued → k ≠ se_manifest_key s → gw_files w' !! k = None.
Proof.
  intros Hok Hq Hun Hs Hm Hnone. destruct (gc_run w queued Hok Hq) as (r & w' & Hrun & _ & _ & _ & _ & _ & _ & _ & Hexact).
  destruct (Hexact Hun) as [-> Hleft]. exists w'. split; [done|]. intros k Hobj Hout Hkey.
  apply eq_None_not_Some. intros Hfile. destruct (Hleft k Hobj Hfile) as [Hn|]; [|done].
  assert (Hsnaps : mx_snapshots (export_metadata w) = [s]) by (simpl; by rewrite Hs).
  destruct Hn as [s' Hs'|s' m' rt k Hs' Hm' Hrt _]; rewrite Hsnaps in Hs'; apply list_elem_of_singleton in Hs' as ->; [done|].
  rewrite (snapshot_manifest_fun _ (go_codec _ _ Hok) _ _ _ Hm Hm'), Hnone in Hrt. by apply elem_of_nil in Hrt.
Qed.
End Kept.

(** ** Concrete stores *)

Module GcExample.
Import CryptoExample LargeStoreExample CoreExample PackStoreExample RemoteExample TreesExample.

(** Documents: a compact manifest prints as the manifest without its records. *)
#[export] Instance gc_value : ManifestValue := {|
  jvalue := (SnapshotManifest + bool + unit)%type; jv_empty_object := inr tt; jv_true := inl (inr true);
  manifest_to_value m := [("manifest", inl (inl m))];
  value_to_cbor o := [];
  value_to_json_pretty o := match bmap_get o "manifest" with
    | Some (inl (inl m)) => [Zpos (encode (sm_without_roots m)); 10] | _ => [] end;
|}.
#[export] Instance gc_value_read : ValueRead := {|
  value_fields b := match (json_from_slice b : option SnapshotManifest) with
    | Some m => Some (if bool_decide (sm_roots m = []) then [("roots", inr tt); ("roots_omitted", inl (inr true))] else [])
    | None => None end;
  jv_as_bool v := match v with inl (inr b) => Some b | _ => None end;
  jv_object_len v := match v with inr _ => Some 0%nat | _ => None end;
|}.
#[export] Instance gc_compact_laws : CompactLaws.
Proof.
  split.
  - intros m. change (json_from_slice [Zpos (encode (sm_without_roots m)); 10] = Some (sm_without_roots m)).
    simpl. apply decode_encode.
  - intros b m Hj. unfold value_fields, gc_value_read. rewrite Hj. by eexists.
Qed.
#[export] Instance gc_walk : WalkDir := {| walk_order l := l; walk_order_perm l := reflexivity l |}.

Definition gc_manifest (trees : list (string * RootSnapshot)) (roots : list (string * list FileRecord)) : SnapshotManifest :=
  {| sm_snapshot_id := "snap-1"; sm_parent := None; sm_op_id := "op-1"; sm_timestamp := 0;
     sm_root_trees := trees; sm_roots := roots |}.
Definition gc_file : FileRecord := ex_record "f".
Definition gc_tree : TreeManifest := {|
  tm_version := 1; tm_tree_id := "tree-1"; tm_root_id := "r"; tm_created_at := 0; tm_root_node := None;
  tm_subtree_nodes := []; tm_entries := [("f", gc_file)] |}.
Definition gc_trees : list (string * RootSnapshot) :=
  [("r", {| rs_tree_id := "tree-1"; rs_tree_key := "objects/trees/cc/dd"; rs_file_count := 1 |})].
Definition gc_row : SnapshotExport := {|
  se_id := "snap-1"; se_parent_id := None; se_op_id := "op-1"; se_created_at := "now";
  se_manifest_key := "objects/blobs/mm/m"; se_manifest_json := "" |}.
(** A snapshot, its tree, the blob of its one file, and a file nothing refers to. *)
Definition gc_world (m : SnapshotManifest) : GcWorld := {|
  gw_pack := {|
    pw_store := sw_with_objects ex_empty (<["objects/blobs/mm/m" := json_to_vec m]>
      (<["objects/trees/cc/dd" := json_to_vec gc_tree]> (<["objects/blobs/aa/bb" := [1; 2]]> {["objects/blobs/zz/z" := [3]]})));
    pw_blobs := [BlobExport_new "o" 2 "objects/blobs/aa/bb"]; pw_packs := ∅; pw_payloads := []; pw_ops := [];
    pw_current := Some "snap-1"; pw_reader := None; pw_tick := 0 |};
  gw_snapshots := [gc_row] |}.
Definition gc_env : GcEnv := {|
  gn_depth := 3; gn_tree := ex_tree_env; gn_home := "/home/u/.majutsu"; gn_remote := Ok None; gn_host_name := None;
  gn_queue := Ok []; gn_events := Ok []; gn_unremovable := λ _, false |}.

Lemma gc_holds {T} `{Countable T} w key (v : T) :
  sw_objects w !! key = Some (json_to_vec v) → validate_local_object_key key = Ok tt → holds_json w key v.
Proof.
  intros Ho Hv. split; [done|]. exists (json_to_vec v), (json_to_vec v). split_and!; [done| |apply json_roundtrip].
  apply ex_decodes. unfold has_magic, bytes_starts_with. by rewrite !bool_decide_eq_false_2 by discriminate.
Qed.

Lemma gc_blob_file m : gw_files (gc_world m) !! "objects/blobs/aa/bb" = Some [1; 2].
Proof. reflexivity. Qed.

Lemma gc_world_ok trees roots : trees = gc_trees ∨ trees = [] → gc_ok 3 (gc_world (gc_manifest trees roots)).
Proof.
  intros Ht. split.
  - apply ex_key_inv.
  - repeat constructor. set_solver.
  - repeat constructor. set_solver.
  - repeat constructor. exists (gc_manifest trees roots). split.
    + apply (gc_holds (T := SnapshotManifest)); reflexivity.
    + destruct Ht as [-> | ->]; repeat constructor. simpl.
      assert (Htree : ∀ M, "objects/trees/cc/dd" ∉ M →
        holds_json (sw_without M (gw_store (gc_world (gc_manifest gc_trees roots)))) "objects/trees/cc/dd" gc_tree).
      { intros M HM. apply gc_holds; [|reflexivity]. rewrite without_lookup by done. reflexivity. }
      exists gc_tree, [("f", gc_file)]. split_and!.
      * apply Htree. unfold manifest_keys. simpl. set_solver.
      * constructor.
      * exists gc_tree. split; [|done]. apply Htree. unfold manifest_keys. simpl. set_solver.
      * repeat constructor. discriminate.
Qed.

Lemma gc_manifest_is m : snapshot_manifest_is (gw_store (gc_world m)) gc_row m.
Proof. apply (gc_holds (T := SnapshotManifest)); reflexivity. Qed.

Lemma gc_tree_at m : tree_at 3 (gw_store (gc_world m)) "objects/trees/cc/dd" [("f", gc_file)].
Proof. exists gc_tree. split; [|done]. apply gc_holds; reflexivity. Qed.

(** The manifest holds the record of its tree as well. *)
Definition gc_both : SnapshotManifest := gc_manifest gc_trees [("r", [gc_file])].
Lemma gc_blob_needed : gc_needed 3 (gc_world gc_both) "objects/blobs/aa/bb".
Proof.
  eapply (need_record _ _ _ gc_row gc_both "r" [gc_file] gc_file).
  - apply list_elem_of_here.
  - apply gc_manifest_is.
  - apply list_elem_of_here.
  - apply list_elem_of_here.
  - apply (rk_loose _ _ _ _ "o" "objects/blobs/aa/bb" (BlobExport_new "o" 2 "objects/blobs/aa/bb")); [done| |done|done].
    apply list_elem_of_here.
Qed.
Lemma gc_in_trees : Forall (records_in_trees 3 (gw_store (gc_world gc_both))) [gc_row].
Proof.
  repeat constructor. intros m root_id records r Hm Hroot Hr.
  assert (oc_inv (sw_codec (gw_store (gc_world gc_both)))) as Hc by apply ex_key_inv.
  rewrite (snapshot_manifest_fun _ Hc _ _ _ (gc_manifest_is gc_both) Hm) in Hroot |- *.
  apply list_elem_of_singleton in Hroot. injection Hroot as -> ->. apply list_elem_of_singleton in Hr as ->.
  exists {| rs_tree_id := "tree-1"; rs_tree_key := "objects/trees/cc/dd"; rs_file_count := 1 |}, [("f", gc_file)].
  split_and!; [apply list_elem_of_here|apply gc_tree_at|apply list_elem_of_here].
Qed.


(** The file nothing refers to waits for its upload. *)
Definition gc_item : UploadQueueItem := UploadQueueItem_file "i" "k" "/home/u/.majutsu/objects/blobs/zz/z" 0.
Definition gc_busy_env : GcEnv := {|
  gn_depth := 3; gn_tree := ex_tree_env; gn_home := "/home/u/.majutsu"; gn_remote := Ok None; gn_host_name := None;
  gn_queue := Ok [gc_item]; gn_events := Ok []; gn_unremovable := λ _, false |}.
Lemma gc_queued_needed : queue_needs "/home/u/.majutsu" [gc_item] [] "objects/blobs/zz/z".
Proof. left. exists gc_item, "/home/u/.majutsu/objects/blobs/zz/z". split; [apply list_elem_of_here|]. done. Qed.


Lemma gc_drops_flat_roots_witness : let w := gc_world (gc_manifest [] [("r", [gc_file])]) in
  gw_files w !! "objects/blobs/aa/bb" = Some [1; 2] ∧
  ∃ w', gc_cmd gc_env false w = (Done tt, w') ∧ gw_files w' !! "objects/blobs/aa/bb" = None.
Proof.
  intros w. split; [apply gc_blob_file|].
  destruct (gc_drops_flat_roots (H := ex_codec) gc_env) with (w := w) (queued := @nil string) (s := gc_row)
    (m := gc_manifest [] [("r", [gc_file])]) as (w' & Hrun & Hgone).
  - intros m. apply ex_safe2. simpl. lia.
  - apply gc_world_ok. by right.
  - reflexivity.
  - reflexivity.
  - reflexivity.
  - apply gc_manifest_is.
  - reflexivity.
  - exists w'. split; [exact Hrun|]. apply Hgone; [reflexivity|apply not_elem_of_nil|discriminate].
Defined.
End GcExample.
