(* ===== verification/Prune.v ===== *)
(** * Pruning snapshots

    [prune_cmd] of [src/prune_runtime.rs]: the plan of the retention policy ([Policy]) is
    corrected by the references and by the first snapshot of every root, the snapshots of
    the plan are deleted with the rows of the catalogue nothing refers to any more, in one
    transaction, and garbage collection ([Gc]) then removes their objects.  The listing of
    the remote is from [src/cache_runtime.rs]. *)

From S2P Require Import Prelude RStr BTree MachInt Core Util Config Policy Large Crypto Store Db Pack Restore LargeStore RemoteObjects Trees ObjectKeys PackStore RestoreJob Gc.

Local Open Scope Z_scope.

Record PruneArgs := {
  pa_keep_daily : Z; pa_keep_monthly : Z; pa_dry_run : bool;
  pa_drop_missing_remote_history : bool; pa_remote_cleanup : bool }.

Record PrunePlan := {
  pl_keep : list string; pl_delete : list string; pl_missing_remote_history : list (string * nat) }.

Record PrunedMetadata := {
  pm_blobs : nat; pm_large_objects : nat; pm_chunks : nat; pm_packs : nat; pm_pack_indexes : nat;
  pm_snapshot_payload_indexes : nat; pm_snapshot_payload_rows : nat; pm_large_pins : nat }.

(** A row of [snapshot_payloads]. *)
Record PayloadRow := { py_snapshot_id : string; py_kind : string; py_oid : string }.

(** Newest first; rows of the same time in the order of the table. *)
Definition newest_first (rows : list SnapshotExport) : list SnapshotExport :=
  rev (sort_by se_created_at (rev rows)).
Definition oldest_first (rows : list SnapshotExport) : list SnapshotExport :=
  sort_by se_created_at (sort_by se_id rows).

Definition contains_key {V} (m : list (string * V)) (k : string) : bool := bset_contains m.*1 k.

Definition snapshot_manifest_contains_root (snapshot : SnapshotManifest) (root : string) : bool :=
  contains_key (sm_root_trees snapshot) root || contains_key (sm_roots snapshot) root.

Section Prune.
Context `{!ObjectCodec, !Chrono, !Blake3, !Zstd, !Serde TreeNodeManifest, !Serde TreeManifest, !Serde PackIndex,
          !Serde LargeManifest, !Serde SnapshotManifest, !ManifestValue, !ValueRead, !WalkDir}.

(** ** State *)

(** The store with its tables; the references other than [current]; the identifiers of
    the roots; the pinned large objects; the payload index of the snapshots. *)
Record PruneWorld := {
  uw_gc : GcWorld;
  uw_refs : list (string * string);
  uw_roots : list string;
  uw_pins : list string;
  uw_indexed : list string;
  uw_payloads : list PayloadRow;
}.
Definition uw_with_gc (w : PruneWorld) g : PruneWorld :=
  {| uw_gc := g; uw_refs := uw_refs w; uw_roots := uw_roots w; uw_pins := uw_pins w;
     uw_indexed := uw_indexed w; uw_payloads := uw_payloads w |}.
Definition uw_with_pins (w : PruneWorld) p : PruneWorld :=
  {| uw_gc := uw_gc w; uw_refs := uw_refs w; uw_roots := uw_roots w; uw_pins := p;
     uw_indexed := uw_indexed w; uw_payloads := uw_payloads w |}.
(** [pw_payloads] is the column [oid] of the rows of kind [blob]. *)
Definition blob_payloads (payloads : list PayloadRow) : list string :=
  map py_oid (List.filter (λ row, (py_kind row =? "blob")%string) payloads).
Definition pw_with_payloads (w : PackWorld) p : PackWorld :=
  {| pw_store := pw_store w; pw_blobs := pw_blobs w; pw_packs := pw_packs w; pw_payloads := p;
     pw_ops := pw_ops w; pw_current := pw_current w; pw_reader := pw_reader w; pw_tick := pw_tick w |}.
Definition uw_with_index (w : PruneWorld) indexed payloads : PruneWorld :=
  {| uw_gc := gw_with_pack (uw_gc w) (pw_with_payloads (gw_pack (uw_gc w)) (blob_payloads payloads)); uw_refs := uw_refs w; uw_roots := uw_roots w; uw_pins := uw_pins w;
     uw_indexed := indexed; uw_payloads := payloads |}.

Definition uw_pack (w : PruneWorld) : PackWorld := gw_pack (uw_gc w).
Definition uw_store (w : PruneWorld) : StoreWorld := gw_store (uw_gc w).
Definition uw_snapshots (w : PruneWorld) : list SnapshotExport := gw_snapshots (uw_gc w).
Definition uw_with_pack (w : PruneWorld) p : PruneWorld := uw_with_gc w (gw_with_pack (uw_gc w) p).
Definition uw_with_store (w : PruneWorld) s : PruneWorld := uw_with_pack w (pw_with_store (uw_pack w) s).

(** The surroundings: those of garbage collection, the listing of a prefix of the remote,
    and the synchronisation that may follow. *)
Record PruneEnv := {
  un_gc : GcEnv;
  un_list : string → result (list string) string;
  un_remote_is_cluster : bool;
  un_sync : stm PruneWorld unit;
}.
Context (env : PruneEnv).

Abbreviation prune_m := (stm PruneWorld).
Abbreviation store_m := (stm StoreWorld).
Abbreviation store_env := (te_store (gn_tree (un_gc env))).
Abbreviation depth := (gn_depth (un_gc env)).

Definition in_gc {A} (m : stm GcWorld A) : prune_m A := λ w,
  let '(r, g) := m (uw_gc w) in (r, uw_with_gc w g).
Definition in_prune_store {A} (m : store_m A) : prune_m A := in_gc (in_gc_store m).

(** ** Headers and first snapshots *)

Definition current_snapshot (w : PruneWorld) : option string := pw_current (uw_pack w).

Definition find_snapshot (id : string) (rows : list SnapshotExport) : option SnapshotExport :=
  List.find (λ s, (se_id s =? id)%string) rows.

Definition load_snapshot_header_by_id (id : string) : prune_m SnapshotManifest :=
  let* row := stm_get (λ w, find_snapshot id (uw_snapshots w)) in
  let* row := stm_some "Query returned no rows" row in
  if negb (is_empty (trim (se_manifest_json row)))
  then stm_some "parse snapshot manifest metadata" (json_from_slice (bytes_of_string (se_manifest_json row))) else
  let* bytes := in_prune_store (read_object_raw store_env (se_manifest_key row)) in
  stm_some "parse snapshot manifest object" (json_from_slice bytes).

(** The roots of one snapshot that have none yet. *)
Definition note_roots (snapshot_id : string) (snapshot : SnapshotManifest) (root_ids : list string)
    (found : list (string * string)) : list (string * string) :=
  fold_left (λ found root_id,
    if contains_key found root_id || negb (snapshot_manifest_contains_root snapshot root_id) then found
    else bmap_insert root_id snapshot_id found) root_ids found.

Fixpoint first_snapshots_loop (root_ids : list string) (found : list (string * string)) (ids : list string)
    : prune_m (list (string * string)) :=
  match ids with
  | [] => stm_ret found
  | snapshot_id :: rest =>
    let* snapshot := load_snapshot_header_by_id snapshot_id in
    let found := note_roots snapshot_id snapshot root_ids found in
    if (length found =? length root_ids)%nat then stm_ret found
    else first_snapshots_loop root_ids found rest
  end.

Definition first_snapshots_for_roots (root_ids : list string) : prune_m (list (string * string)) :=
  if bool_decide (root_ids = []) then stm_ret [] else
  let* ids := stm_get (λ w, map se_id (oldest_first (uw_snapshots w))) in
  first_snapshots_loop root_ids [] ids.

(** ** The plan *)

(** The snapshots a reference or the first state of a root needs. *)
Definition protected_ref_snapshots (snapshot_ids : list string) : prune_m (list string) :=
  let* values := stm_get (λ w, option_list (current_snapshot w) ++ (uw_refs w).*2) in
  let* root_ids := stm_get (λ w, bset_of_list (uw_roots w)) in
  let* firsts := first_snapshots_for_roots root_ids in
  stm_ret (bset_of_list (List.filter (bset_contains (bset_of_list snapshot_ids)) (values ++ firsts.*2))).

(** *** What the remote holds *)

Definition payload_prefixes : list string :=
  ["objects/blobs/"; "blobs/loose/"; "objects/packs/"; "packs/"; "objects/indexes/pack/"; "indexes/pack-index/";
   "objects/large/chunks/"; "large/chunks/"; "objects/large/manifests/"; "large/manifests/"; "objects/trees/"; "trees/"].

Fixpoint result_map {A B} (f : A → result B string) (l : list A) : result (list B) string :=
  match l with [] => Ok [] | x :: l' => let? y := f x in let? ys := result_map f l' in Ok (y :: ys) end.

Definition remote_payload_key_index_with_host (host_id : option string) : result (list string) string :=
  let? listed := result_map (λ prefix, un_list env
    (match host_id with Some host_id => host_remote_key host_id prefix | None => prefix end)) payload_prefixes in
  Ok (bset_of_list (match host_id with
                    | Some host_id => omap (strip_prefix (host_id +:+ "/")) (concat listed)
                    | None => concat listed
                    end)).

Definition remote_payload_index_contains (remote_keys : list string) (key : string) : bool :=
  bset_contains remote_keys key
  || match canonical_remote_alias key with Some alias => bset_contains remote_keys alias | None => false end.

Fixpoint missing_loop (export : MetadataExport) (remote_keys : list string) (current : option string)
    (snapshots : list SnapshotExport) : prune_m (list (string * nat)) :=
  match snapshots with
  | [] => stm_ret []
  | snapshot :: rest =>
    if bool_decide (current = Some (se_id snapshot)) then missing_loop export remote_keys current rest else
    let* found := in_prune_store (try_ok (local_object_keys_for_snapshot store_env depth export (se_id snapshot))) in
    match found with
    | None =>
      if remote_payload_index_contains remote_keys (se_manifest_key snapshot)
      then stm_fail ("snapshot " +:+ se_id snapshot +:+ " remote history cannot be verified")
      else let* more := missing_loop export remote_keys current rest in
           stm_ret ((se_id snapshot, 1%nat) :: more)
    | Some keys =>
      let missing_count := length (List.filter (λ key, negb (remote_payload_index_contains remote_keys key)) keys) in
      let* more := missing_loop export remote_keys current rest in
      stm_ret (if (0 <? missing_count)%nat then (se_id snapshot, missing_count) :: more else more)
    end
  end.

Definition missing_remote_history_snapshots (current : option string) : prune_m (list (string * nat)) :=
  let* remote := stm_ok (gn_remote (un_gc env)) in
  match remote with
  | None => stm_ret []
  | Some remote =>
    if rm_is_master_proxy remote then stm_fail "cluster remote" else
    let* host_id := (if rm_is_s3_like remote then
                       let* name := stm_some config_failure (gn_host_name (un_gc env)) in
                       stm_ret (Some (remote_host_label name))
                     else stm_ret None) in
    let* remote_keys := stm_ok (remote_payload_key_index_with_host host_id) in
    let* export := stm_get (λ w, export_metadata (uw_gc w)) in
    missing_loop export remote_keys current (mx_snapshots export)
  end.

(** The loop over the missing snapshots: out of [keep], into [delete]. *)
Definition drop_missing (plan : list string * list string) (missing : string * nat) : list string * list string :=
  let '(keep, delete) := plan in
  (if binary_search keep missing.1 then List.filter (λ id, negb (id =? missing.1)%string) keep else keep,
   if existsb (String.eqb missing.1) delete then delete else delete ++ [missing.1]).

Definition build_prune_plan (args : PruneArgs) : prune_m PrunePlan :=
  let* current := stm_get current_snapshot in
  let* rows := stm_get (λ w, newest_first (uw_snapshots w)) in
  let* snapshots := stm_map (λ row, let* created_at := stm_ok (parse_db_time (se_created_at row)) in
    stm_ret {| spi_id := se_id row; spi_created_at := created_at |}) rows in
  let plan := build_snapshot_prune_plan snapshots current (pa_keep_daily args) (pa_keep_monthly args) in
  let* protected := protected_ref_snapshots (map spi_id snapshots) in
  let keep := sort_dedup (spp_keep plan ++ List.filter (bset_contains protected) (spp_delete plan)) in
  let delete := List.filter (λ id, negb (bset_contains protected id)) (spp_delete plan) in
  if pa_drop_missing_remote_history args then
    let* missing := missing_remote_history_snapshots current in
    let '(keep, delete) := fold_left drop_missing missing (keep, delete) in
    stm_ret {| pl_keep := keep; pl_delete := sort_dedup delete; pl_missing_remote_history := sort_by fst missing |}
  else stm_ret {| pl_keep := keep; pl_delete := delete; pl_missing_remote_history := [] |}.

(** ** Large manifests *)

Definition rm_get (remote : Remote) (key : string) : result (list Z) string :=
  let? found := rm_ok (rm_get_optional remote key) in
  match found with Some bytes => Ok bytes | None => Err "not found" end.

Fixpoint s3_variants (remote : Remote) (key : string) (candidates : list string) : store_m (list (list Z)) :=
  match candidates with
  | [] => stm_ret []
  | remote_key :: rest =>
    let* here := stm_ok (rm_ok (rm_exists remote remote_key)) in
    if here : bool then
      let* bytes := stm_ok (rm_get remote remote_key) in
      let* local_bytes := (if existsb (ends_with remote_key) (canonical_remote_aliases key)
                           then codec (canonical_remote_object_to_local_bytes key bytes) else stm_ret bytes) in
      let* more := s3_variants remote key rest in
      stm_ret (local_bytes :: more)
    else s3_variants remote key rest
  end.

Fixpoint alias_variants (remote : Remote) (key : string) (aliases : list string) : store_m (list (list Z)) :=
  match aliases with
  | [] => stm_ret []
  | alias :: rest =>
    let* here := stm_ok (rm_ok (rm_exists remote alias)) in
    if here : bool then
      let* bytes := stm_ok (rm_get remote alias) in
      let* local_bytes := codec (canonical_remote_object_to_local_bytes key bytes) in
      let* more := alias_variants remote key rest in
      stm_ret (local_bytes :: more)
    else alias_variants remote key rest
  end.

Definition remote_local_object_variants (remote : Remote) (key : string) : store_m (list (list Z)) :=
  if rm_is_s3_like remote then
    let* candidates := stm_ok (remote_key_candidates_for_paths (gn_host_name (un_gc env)) key) in
    s3_variants remote key candidates
  else
  let* here := stm_ok (rm_ok (rm_exists remote key)) in
  let* plain := (if here : bool then let* bytes := stm_ok (rm_get remote key) in stm_ret [bytes] else stm_ret []) in
  let* more := alias_variants remote key (canonical_remote_aliases key) in
  stm_ret (plain ++ more).

Fixpoint first_manifest (variants : list (list Z)) : store_m (option LargeManifest) :=
  match variants with
  | [] => stm_ret None
  | bytes :: rest =>
    let* decoded := codec (oc_decode bytes) in
    match json_from_slice decoded with
    | Some manifest => stm_ret (Some manifest)
    | None => first_manifest rest
    end
  end.

Definition read_large_manifest_for_prune (remote : option Remote) (manifest_key : string) : store_m LargeManifest :=
  let* local := try_ok (read_object store_env manifest_key) in
  match local with
  | Some bytes => stm_some "json" (json_from_slice bytes)
  | None =>
    let* remote := stm_some ("large manifest is not cached locally: " +:+ manifest_key) remote in
    let* variants := remote_local_object_variants remote manifest_key in
    let* found := first_manifest variants in
    stm_some ("large manifest unavailable: " +:+ manifest_key) found
  end.

(** ** Live references *)

(** One row; [None] once a row of an unknown kind was seen. *)
Definition add_payload_row (acc : option LiveMetadataReferences) (row : PayloadRow) : option LiveMetadataReferences :=
  live ← acc;
  if (py_kind row =? "blob")%string
  then Some {| live_blobs := bset_insert (py_oid row) (live_blobs live);
               live_large_objects := live_large_objects live; live_chunks := live_chunks live |}
  else if (py_kind row =? "large")%string
  then Some {| live_blobs := live_blobs live;
               live_large_objects := bset_insert (py_oid row) (live_large_objects live);
               live_chunks := live_chunks live |}
  else None.

(** Every snapshot indexed, and no row of an unknown kind. *)
Definition indexed_live_metadata_references (w : PruneWorld) : option LiveMetadataReferences :=
  let ids := map se_id (uw_snapshots w) in
  if negb (length (List.filter (λ id, existsb (String.eqb id) (uw_indexed w)) ids) =? length ids)%nat then None else
  fold_left add_payload_row
    (List.filter (λ row, existsb (String.eqb (py_snapshot_id row)) ids) (uw_payloads w))
    (Some live_default).

(** Adds a large manifest, or notes that it could not be read. *)
Definition add_manifest (remote : option Remote) (acc : LiveMetadataReferences * bool) (manifest_key : string)
    : store_m (LiveMetadataReferences * bool) :=
  let* found := try_ok (read_large_manifest_for_prune remote manifest_key) in
  stm_ret (match found with
           | Some large_manifest => (add_large_manifest acc.1 large_manifest, acc.2)
           | None => (acc.1, true)
           end).

Definition visit_record (remote : option Remote) (acc : LiveMetadataReferences * bool) (record : FileRecord)
    : store_m (LiveMetadataReferences * bool) :=
  match payload_blob_ref (fr_payload record) with
  | Some (oid, _) =>
    stm_ret ({| live_blobs := bset_insert oid (live_blobs acc.1); live_large_objects := live_large_objects acc.1;
                live_chunks := live_chunks acc.1 |}, acc.2)
  | None =>
    match payload_large_ref (fr_payload record) with
    | Some (oid, manifest_key, _) =>
      add_manifest remote ({| live_blobs := live_blobs acc.1;
        live_large_objects := bset_insert oid (live_large_objects acc.1); live_chunks := live_chunks acc.1 |}, acc.2)
        manifest_key
    | None => stm_ret acc
    end
  end.

Fixpoint stm_fold {S A B} (f : A → B → stm S A) (acc : A) (l : list B) : stm S A :=
  match l with [] => stm_ret acc | x :: l' => let* acc' := f acc x in stm_fold f acc' l' end.

(** The visitor is called on the entries of a node, then on those below; the recursion
    is bounded by the stack. *)
Fixpoint visit_tree_node_records {A} (visitor : A → FileRecord → store_m A) (depth : nat) (acc : A) (node_key : string)
    : store_m A :=
  match depth with
  | O => stm_lift Panics
  | S depth' =>
    let* node_bytes := read_object_raw store_env node_key in
    let* node := stm_some "parse tree node" (json_from_slice (T := TreeNodeManifest) node_bytes) in
    let* acc := stm_fold visitor acc (tn_entries node).*2 in
    stm_fold (λ acc child, visit_tree_node_records visitor depth' acc (tnr_node_key child)) acc (tn_child_nodes node).*2
  end.

Definition visit_tree_records {A} (visitor : A → FileRecord → store_m A) (acc : A) (root_tree : RootSnapshot)
    : store_m A :=
  let* tree_bytes := read_object_raw store_env (rs_tree_key root_tree) in
  let* tree := stm_some "parse root tree" (json_from_slice (T := TreeManifest) tree_bytes) in
  match tm_entries tree, tm_root_node tree with
  | [], Some root_node => visit_tree_node_records visitor depth acc (tnr_node_key root_node)
  | entries, _ => stm_fold visitor acc entries.*2
  end.

Definition scan_snapshot (remote : option Remote) (acc : LiveMetadataReferences * bool) (s : SnapshotExport)
    : store_m (LiveMetadataReferences * bool) :=
  let* manifest := snapshot_manifest_from_parts (un_gc env) (se_manifest_key s) (se_manifest_json s) in
  let '(live, manifest_keys) := add_snapshot_manifest acc.1 manifest in
  let* acc := stm_fold (add_manifest remote) (live, acc.2) manifest_keys in
  stm_fold (visit_tree_records (visit_record remote)) acc (sm_root_trees manifest).*2.

Definition scan_live_metadata_references (remote : option Remote) (rows : list SnapshotExport)
    : store_m (LiveMetadataReferences * bool) :=
  stm_fold (scan_snapshot remote) (live_default, false) rows.

(** ** Deleting rows *)

(** [delete_rows_not_in] for a table in the order of its rows and for a table by key. *)
Definition rows_in {A} (oid : A → string) (live : list string) (rows : list A) : list A :=
  List.filter (λ row, bset_contains live (oid row)) rows.
Definition keys_in {A} (live : list string) (rows : gmap string A) : gmap string A :=
  base.filter (λ kv, kv.1 ∈ live) rows.

Definition delete_blobs_not_in (live : list string) : prune_m nat := λ w,
  let blobs := rows_in be_oid live (pw_blobs (uw_pack w)) in
  (Done (length (pw_blobs (uw_pack w)) - length blobs)%nat,
   uw_with_pack w (pw_with_tables (uw_pack w) blobs (pw_packs (uw_pack w)))).
Definition delete_large_objects_not_in (live : list string) : prune_m nat := λ w,
  let rows := keys_in live (sw_large_objects (uw_store w)) in
  (Done (size (sw_large_objects (uw_store w)) - size rows)%nat, uw_with_store w (sw_with_large_objects (uw_store w) rows)).
Definition delete_pins_not_in (live : list string) : prune_m nat := λ w,
  let pins := rows_in id live (uw_pins w) in
  (Done (length (uw_pins w) - length pins)%nat, uw_with_pins w pins).
Definition delete_chunks_not_in (live : list string) : prune_m nat := λ w,
  let rows := keys_in live (sw_chunks (uw_store w)) in
  (Done (size (sw_chunks (uw_store w)) - size rows)%nat, uw_with_store w (sw_with_chunks (uw_store w) rows)).

(** The chunks of the large objects left, unless one of their manifests is unavailable. *)
Fixpoint live_chunks_loop (remote : option Remote) (live_chunks : list string) (manifest_keys : list string)
    : store_m (option (list string)) :=
  match manifest_keys with
  | [] => stm_ret (Some live_chunks)
  | manifest_key :: rest =>
    let* found := try_ok (read_large_manifest_for_prune remote manifest_key) in
    match found with
    | Some large_manifest => live_chunks_loop remote (bset_extend live_chunks (lc_oid <$> lm_chunks large_manifest)) rest
    | None => stm_ret None
    end
  end.

(** [order by oid] *)
Definition large_manifest_keys (rows : gmap string (Z * Z * string)) : list string :=
  (sort_by fst (map_to_list rows)).*2.*2.

Definition live_chunks_from_remaining_large_objects (remote : option Remote) : prune_m (option (list string)) :=
  let* keys := stm_get (λ w, large_manifest_keys (sw_large_objects (uw_store w))) in
  in_prune_store (live_chunks_loop remote [] keys).

Definition pack_used (blobs : list BlobExport) (pack_id : string) : bool :=
  existsb (λ b, bool_decide (be_pack_id b = Some pack_id)) blobs.

Definition delete_packs_without_blobs : prune_m nat := λ w,
  let packs := base.filter (λ kv, pack_used (pw_blobs (uw_pack w)) kv.1 = true) (pw_packs (uw_pack w)) in
  (Done (size (pw_packs (uw_pack w)) - size packs)%nat,
   uw_with_pack w (pw_with_tables (uw_pack w) (pw_blobs (uw_pack w)) packs)).

(** *** Pack indexes *)

Definition stale_index_key (pack_id : string) (bytes : list Z) : string :=
  "objects/indexes/pack/" +:+ pack_id +:+ "-" +:+ blake3_hex bytes +:+ ".json".

Definition pruned_index (pack : PackExport) (live_oids : list string) (index : PackIndex) : PackIndex :=
  {| px_version := px_version index; px_pack_id := pk_pack_id pack; px_pack_key := pk_pack_key pack;
     px_entries := List.filter (λ entry, bset_contains live_oids (pe_oid entry)) (px_entries index) |}.

(** The writing of the new generation of an index and the update of its row. *)
Definition rewrite_index (pack : PackExport) (index : PackIndex) : prune_m unit :=
  let bytes := json_to_vec_pretty index in
  let key := stale_index_key (pk_pack_id pack) bytes in
  stm_modify (λ w,
    let w := uw_with_store w (sw_with_objects (uw_store w) (<[key := bytes]> (sw_objects (uw_store w)))) in
    uw_with_pack w (pw_with_tables (uw_pack w) (pw_blobs (uw_pack w))
      (<[pk_pack_id pack := {| pk_pack_id := pk_pack_id pack; pk_pack_key := pk_pack_key pack; pk_index_key := key;
           pk_object_count := Z.of_nat (length (px_entries index)); pk_size := pk_size pack |}]> (pw_packs (uw_pack w))))).

Definition prune_pack_index (pack : PackExport) : prune_m bool :=
  let* live_oids := stm_get (λ w, bset_of_list (map be_oid
    (List.filter (λ b, bool_decide (be_pack_id b = Some (pk_pack_id pack))) (pw_blobs (uw_pack w))))) in
  if bool_decide (live_oids = []) then stm_ret false else
  let* bytes := in_prune_store (read_object store_env (pk_index_key pack)) in
  let* index := stm_some "prune pack index" (json_from_slice (T := PackIndex) bytes) in
  let index' := pruned_index pack live_oids index in
  if (length (px_entries index') =? length (px_entries index))%nat
     && (pk_object_count pack =? Z.of_nat (length (px_entries index')))
  then stm_ret false
  else let* _ := rewrite_index pack index' in stm_ret true.

Definition prune_stale_pack_indexes : prune_m nat :=
  let* packs := stm_get (λ w, query_packs (uw_pack w)) in
  stm_fold (λ rewritten pack, let* changed := prune_pack_index pack in
    stm_ret (if changed : bool then S rewritten else rewritten)) 0%nat packs.

(** *** The payload index *)

Definition delete_snapshot_payload_indexes_without_snapshots : prune_m (nat * nat) := λ w,
  let ids := map se_id (uw_snapshots w) in
  let orphan id := negb (existsb (String.eqb id) ids) in
  let snapshot_ids := sort_dedup (List.filter orphan (map py_snapshot_id (uw_payloads w)) ++ List.filter orphan (uw_indexed w)) in
  let gone id := bset_contains snapshot_ids id in
  let payloads := List.filter (λ row, negb (gone (py_snapshot_id row))) (uw_payloads w) in
  (Done (length snapshot_ids, (length (uw_payloads w) - length payloads)%nat),
   uw_with_index w (List.filter (λ id, negb (gone id)) (uw_indexed w)) payloads).

Definition prune_unreferenced_metadata : prune_m PrunedMetadata :=
  let* remote := stm_ok (gn_remote (un_gc env)) in
  let* indexed := stm_get indexed_live_metadata_references in
  let* live := match indexed with
               | Some live => stm_ret live
               | None => let* rows := stm_get uw_snapshots in
                         let* scanned := in_prune_store (scan_live_metadata_references remote rows) in
                         stm_ret scanned.1
               end in
  let* blobs := delete_blobs_not_in (live_blobs live) in
  let* large_objects := delete_large_objects_not_in (live_large_objects live) in
  let* large_pins := delete_pins_not_in (live_large_objects live) in
  let* found := live_chunks_from_remaining_large_objects remote in
  let* chunks := match found with Some live_chunks => delete_chunks_not_in live_chunks | None => stm_ret 0%nat end in
  let* packs := delete_packs_without_blobs in
  let* pack_indexes := prune_stale_pack_indexes in
  let* payloads := delete_snapshot_payload_indexes_without_snapshots in
  stm_ret {| pm_blobs := blobs; pm_large_objects := large_objects; pm_chunks := chunks; pm_packs := packs;
             pm_pack_indexes := pack_indexes; pm_snapshot_payload_indexes := payloads.1;
             pm_snapshot_payload_rows := payloads.2; pm_large_pins := large_pins |}.

(** ** [mj prune] *)

Definition delete_snapshots (ids : list string) : prune_m unit := stm_modify (λ w,
  uw_with_gc w (gw_with_snapshots (uw_gc w)
    (List.filter (λ s, negb (existsb (String.eqb (se_id s)) ids)) (uw_snapshots w)))).

(** A transaction that does not commit leaves the rows as they were; files written in the
    meantime stay. *)
Definition rolled_back (before after : PruneWorld) : PruneWorld :=
  uw_with_store before (sw_with_objects (sw_with_codec (uw_store before) (sw_codec (uw_store after)))
    (sw_objects (uw_store after))).
Definition transaction {A} (m : prune_m A) : prune_m A := λ w,
  match m w with
  | (Done a, w') => (Done a, w')
  | (r, w') => (r, rolled_back w w')
  end.

Definition prune_transaction (delete : list string) : prune_m PrunedMetadata :=
  transaction (let* _ := delete_snapshots delete in prune_unreferenced_metadata).

Definition prune_cmd (args : PruneArgs) : prune_m unit :=
  let* plan := build_prune_plan args in
  if pa_dry_run args then stm_ret tt else
  let* _ := prune_transaction (pl_delete plan) in
  let* _ := in_gc (in_gc_pack (record_op "prune" ("deleted " +:+ nat_str (length (pl_delete plan)) +:+ " snapshots"))) in
  let* remote_cleanup := (if pa_remote_cleanup args then
      let* remote := stm_ok (gn_remote (un_gc env)) in
      stm_ret (bool_decide (is_Some remote) && negb (un_remote_is_cluster env))
    else stm_ret false) in
  let* _ := (if (0 <? length (pl_delete plan))%nat then in_gc (gc_cmd (un_gc env) false) else stm_ret tt) in
  if remote_cleanup : bool then un_sync env else stm_ret tt.
End Prune.

(** ** Reading changes only the state of the codec *)

Section Kept.
Context `{!ObjectCodec, !ObjectCodecLaws, !Chrono, !Blake3, !Blake3Laws, !Zstd, !Serde TreeNodeManifest, !Serde TreeManifest, !Serde PackIndex,
          !Serde LargeManifest, !Serde SnapshotManifest, !SerdeLaws SnapshotManifest, !ManifestValue, !ValueRead, !WalkDir, !CompactLaws}.
Context (env : PruneEnv).

Abbreviation store_env := (te_store (gn_tree (un_gc env))).
Abbreviation depth := (gn_depth (un_gc env)).

Definition uw_with_codec (w : PruneWorld) c : PruneWorld := uw_with_store w (sw_with_codec (uw_store w) c).

(** A call that ends in [a] and leaves everything but the codec as it is. *)
Definition preads {A} (w : PruneWorld) (m : stm PruneWorld A) (a : A) : Prop :=
  ∀ c, oc_inv c → ∃ c', oc_inv c' ∧ m (uw_with_codec w c) = (Done a, uw_with_codec w c').

Lemma preads_ret {A} w (a : A) : preads w (stm_ret a) a.
Proof. intros c Hc. by exists c. Qed.
Lemma preads_get {A} w (g : PruneWorld → A) : (∀ c, g (uw_with_codec w c) = g w) → preads w (stm_get g) (g w).
Proof. intros Hg c Hc. exists c. split; [done|]. unfold stm_get. by rewrite Hg. Qed.
Lemma preads_some {A} w e (o : option A) a : o = Some a → preads w (stm_some e o) a.
Proof. intros ->. apply preads_ret. Qed.
Lemma preads_ok {A} w (o : result A string) a : o = Ok a → preads w (stm_ok o) a.
Proof. intros ->. intros c Hc. by exists c. Qed.
Lemma preads_bind {A B} w (m : stm PruneWorld A) (k : A → stm PruneWorld B) a b :
  preads w m a → preads w (k a) b → preads w (stm_bind m k) b.
Proof.
  intros Hm Hk c Hc. destruct (Hm c Hc) as (c1 & Hc1 & E1), (Hk c1 Hc1) as (c2 & Hc2 & E2).
  exists c2. split; [done|]. unfold stm_bind. by rewrite E1.
Qed.
Lemma preads_store {A} w (m : stm StoreWorld A) a : reads (uw_store w) m a → preads w (in_prune_store m) a.
Proof.
  intros Hm c Hc. destruct (Hm c Hc) as (c' & Hc' & E). exists c'. split; [done|].
  unfold in_prune_store, in_gc. erewrite in_gc_store_eq; [|exact E]. by destruct w as [[[[]]]].
Qed.
Lemma preads_map {A B} w (f : A → stm PruneWorld B) (g : A → B) l :
  (∀ x, x ∈ l → preads w (f x) (g x)) → preads w (stm_map f l) (map g l).
Proof.
  induction l as [|x l IH]; intros Hf; simpl; [apply preads_ret|].
  eapply preads_bind; [apply Hf; set_solver|]. eapply preads_bind; [apply IH; set_solver|]. apply preads_ret.
Qed.

(** ** The plan *)

Definition snapshot_has_root (w : PruneWorld) (s : SnapshotExport) (root : string) : Prop :=
  ∃ m, snapshot_manifest_is (uw_store w) s m ∧ snapshot_manifest_contains_root m root = true.

(** The oldest snapshot that has a root. *)
Definition first_with_root (w : PruneWorld) (root id : string) : Prop :=
  ∃ before s after, oldest_first (uw_snapshots w) = before ++ s :: after ∧ se_id s = id ∧
    snapshot_has_root w s root ∧ Forall (λ s', ¬ snapshot_has_root w s' root) before.

Lemma find_snapshot_NoDup rows s : NoDup (map se_id rows) → s ∈ rows → find_snapshot (se_id s) rows = Some s.
Proof.
  unfold find_snapshot. induction rows as [|x rows IH]; simpl; [set_solver|].
  intros [Hx Hnd]%NoDup_cons [->|Hs]%elem_of_cons; [by rewrite String.eqb_refl|].
  destruct (String.eqb_spec (se_id x) (se_id s)) as [He|]; [|auto].
  destruct Hx. rewrite He. by apply list_elem_of_fmap_2.
Qed.

Lemma oldest_first_perm rows : oldest_first rows ≡ₚ rows.
Proof. unfold oldest_first. by rewrite !sort_by_perm. Qed.
Lemma newest_first_perm rows : newest_first rows ≡ₚ rows.
Proof. unfold newest_first. rewrite <-Permutation_rev, sort_by_perm. symmetry. apply Permutation_rev. Qed.

Lemma header_reads w s m :
  NoDup (map se_id (uw_snapshots w)) → s ∈ uw_snapshots w → snapshot_manifest_is (uw_store w) s m →
  preads w (load_snapshot_header_by_id env (se_id s)) m.
Proof.
  intros Hnd Hs Hm. eapply preads_bind; [apply preads_get; by destruct w as [[[[]]]]|].
  eapply preads_bind; [apply preads_some; by apply find_snapshot_NoDup|].
  unfold snapshot_manifest_is in Hm. destruct (is_empty (trim (se_manifest_json s))); cbn [negb].
  - destruct (read_object_raw_reads (un_gc env) _ _ m Hm) as (b & Hr & Hj).
    eapply preads_bind; [by apply preads_store|]. by apply preads_some.
  - by apply preads_some.
Qed.

Lemma contains_key_true {V} (m : list (string * V)) k : contains_key m k = true ↔ k ∈ m.*1.
Proof. apply bset_contains_true. Qed.
Lemma contains_key_get {V} (m : list (string * V)) k : contains_key m k = bool_decide (is_Some (bmap_get m k)).
Proof.
  apply eq_bool_prop_intro. rewrite !Is_true_true, bool_decide_eq_true, contains_key_true, <-not_eq_None_Some, bmap_get_None.
  destruct (decide (k ∈ m.*1)); tauto.
Qed.

Lemma note_roots_get id m root_ids found root :
  bmap_get (note_roots id m root_ids found) root
  = match bmap_get found root with
    | Some v => Some v
    | None => if bool_decide (root ∈ root_ids) && snapshot_manifest_contains_root m root then Some id else None
    end.
Proof.
  unfold note_roots. revert found. induction root_ids as [|r ids IH]; intros found; cbn [fold_left].
  - rewrite bool_decide_false by set_solver. by destruct (bmap_get found root).
  - rewrite IH, contains_key_get. destruct (decide (r = root)) as [->|Hne].
    + rewrite (bool_decide_true (root ∈ root :: ids)) by set_solver. cbn [andb].
      destruct (bmap_get found root) as [v|] eqn:Hg; cbn [orb].
      * rewrite bool_decide_true by done. cbn [orb]. by rewrite Hg.
      * rewrite bool_decide_false by (by intros [? ?]). cbn [orb].
        destruct (snapshot_manifest_contains_root m root) eqn:Hc; cbn [negb].
        -- by rewrite bmap_get_insert, String.eqb_refl.
        -- rewrite Hg. by rewrite andb_false_r.
    + assert (bool_decide (root ∈ r :: ids) = bool_decide (root ∈ ids)) as ->.
      { apply bool_decide_ext. set_solver. }
      destruct (_ || _); [done|]. rewrite bmap_get_insert.
      destruct (String.eqb_spec root r); [congruence|done].
Qed.

Lemma note_roots_sorted id m root_ids found :
  bsorted found.*1 → bsorted (note_roots id m root_ids found).*1.
Proof.
  intros Hs. unfold note_roots. revert found Hs. induction root_ids as [|r ids IH]; intros found Hs; [done|]. cbn [fold_left].
  apply IH. destruct (_ || _); [done|]. rewrite bmap_insert_keys. by apply bset_insert_sorted.
Qed.

(** A map with as many keys as there are roots, all of them roots, has every root. *)
Lemma all_found (root_ids : list string) (found : list (string * string)) root :
  NoDup root_ids → bsorted found.*1 → found.*1 ⊆ root_ids → length found = length root_ids →
  root ∈ root_ids → is_Some (bmap_get found root).
Proof.
  intros Hnd Hs Hsub Hlen Hr. apply not_eq_None_Some. rewrite bmap_get_None. intros Hn. apply Hn.
  assert (Hp : found.*1 ≡ₚ root_ids).
  { apply submseteq_length_Permutation; [|rewrite length_fmap; lia].
    apply NoDup_submseteq; [by apply bsorted_NoDup|]. intros x. apply Hsub. }
  by rewrite Hp.
Qed.

Lemma note_roots_sub id m root_ids found : found.*1 ⊆ root_ids → (note_roots id m root_ids found).*1 ⊆ root_ids.
Proof.
  intros Hsub k Hk. rewrite <-contains_key_true, contains_key_get, note_roots_get in Hk. apply bool_decide_eq_true in Hk.
  destruct (bmap_get found k) eqn:Hg.
  - apply Hsub. rewrite <-contains_key_true, contains_key_get. apply bool_decide_eq_true. rewrite Hg. eauto.
  - destruct (bool_decide (k ∈ root_ids)) eqn:Hb; [by apply bool_decide_eq_true in Hb|]. by destruct Hk.
Qed.

Section Plan.
Context (w : PruneWorld) (codec_ok : oc_inv (sw_codec (uw_store w))) (ids_ok : NoDup (map se_id (uw_snapshots w))).
Context (manifests_ok : Forall (λ s, ∃ m, snapshot_manifest_is (uw_store w) s m) (uw_snapshots w)).

Lemma first_snapshots_loop_reads root_ids found rows :
  NoDup root_ids → bsorted found.*1 → found.*1 ⊆ root_ids → (∀ s, s ∈ rows → s ∈ uw_snapshots w) →
  ∃ found', preads w (first_snapshots_loop env root_ids found (map se_id rows)) found' ∧ bsorted found'.*1 ∧
    (∀ root v, bmap_get found root = Some v → bmap_get found' root = Some v) ∧
    (∀ root before s after, root ∈ root_ids → bmap_get found root = None → rows = before ++ s :: after →
      snapshot_has_root w s root → Forall (λ s', ¬ snapshot_has_root w s' root) before →
      bmap_get found' root = Some (se_id s)) ∧
    (∀ root v, bmap_get found' root = Some v → bmap_get found root = Some v ∨ root ∈ root_ids ∧
      ∃ before s after, rows = before ++ s :: after ∧ se_id s = v ∧ snapshot_has_root w s root ∧
        Forall (λ s', ¬ snapshot_has_root w s' root) before).
Proof.
  intros Hnd. revert found. induction rows as [|s0 rows IH]; intros found Hs Hsub Hin; cbn [map first_snapshots_loop].
  { exists found. split_and!; [apply preads_ret|done|done|intros root [|] ? ? _ _ [=]|by left]. }
  pose proof (Hin s0 ltac:(set_solver)) as Hs0. destruct (proj1 (Forall_forall _ _) manifests_ok s0 Hs0) as (m0 & Hm0).
  pose proof (note_roots_get (se_id s0) m0 root_ids found) as Hget.
  set (found1 := note_roots (se_id s0) m0 root_ids found) in *.
  assert (Hhas : ∀ root, snapshot_has_root w s0 root ↔ snapshot_manifest_contains_root m0 root = true).
  { intros root. split; [|by exists m0]. intros (m & Hm & Hc). by rewrite (snapshot_manifest_fun _ codec_ok _ _ _ Hm0 Hm) in Hc. }
  assert (Hold : ∀ root v, bmap_get found root = Some v → bmap_get found1 root = Some v)
    by (intros root v Hv; by rewrite Hget, Hv).
  assert (Hfirst : ∀ root, root ∈ root_ids → bmap_get found root = None → snapshot_has_root w s0 root →
    bmap_get found1 root = Some (se_id s0)).
  { intros root Hr Hn Hc. rewrite Hget, Hn, bool_decide_true by done. apply Hhas in Hc. by rewrite Hc. }
  assert (Hs1 : bsorted found1.*1) by by apply note_roots_sorted.
  assert (Hsub1 : found1.*1 ⊆ root_ids) by by apply note_roots_sub.
  assert (Hnot : ∀ root, bmap_get found root = None → ¬ snapshot_has_root w s0 root → bmap_get found1 root = None).
  { intros root Hn Hc. rewrite Hget, Hn. rewrite Hhas, not_true_iff_false in Hc. by rewrite Hc, andb_false_r. }
  assert (Hsound : ∀ root v, bmap_get found1 root = Some v → bmap_get found root = Some v ∨ root ∈ root_ids ∧
    ∃ before s after, s0 :: rows = before ++ s :: after ∧ se_id s = v ∧ snapshot_has_root w s root ∧
      Forall (λ s', ¬ snapshot_has_root w s' root) before).
  { intros root v. rewrite Hget. destruct (bmap_get found root); [by left|].
    destruct (bool_decide (root ∈ root_ids) && snapshot_manifest_contains_root m0 root) eqn:Hb; [|done]. intros [= <-].
    apply andb_true_iff in Hb as [Hb%bool_decide_eq_true Hc]. right. split; [done|]. exists [], s0, rows.
    split_and!; [done|done|by apply Hhas|done]. }
  destruct (length found1 =? length root_ids)%nat eqn:Hlen.
  - apply Nat.eqb_eq in Hlen. exists found1. split_and!; [|done|done| |exact Hsound].
    { eapply preads_bind; [by apply header_reads|]. fold found1. rewrite (proj2 (Nat.eqb_eq _ _) Hlen). apply preads_ret. }
    intros root before s after Hr Hn Heq Hc Hbefore.
    destruct before as [|s1 before]; simplify_eq/=; [by apply Hfirst|].
    apply Forall_cons in Hbefore as [Hno _]. destruct (all_found root_ids found1 root) as [v Hv]; [done..|].
    by rewrite Hnot in Hv.
  - destruct (IH found1 Hs1 Hsub1) as (found' & Hrun & Hs' & Hkeep & Hspec & Hsnd); [set_solver|].
    exists found'. split_and!; [|done|by auto| |].
    { eapply preads_bind; [by apply header_reads|]. fold found1. by rewrite Hlen. }
    + intros root before s after Hr Hn Heq Hc Hbefore.
      destruct before as [|s1 before]; simplify_eq/=; [by apply Hkeep, Hfirst|].
      apply Forall_cons in Hbefore as [Hno Hbefore]. by eapply Hspec; [|apply Hnot| | |].
    + intros root v Hv. destruct (bmap_get found1 root) as [v1|] eqn:Hg1.
      { rewrite (Hkeep _ _ Hg1) in Hv. simplify_eq. by apply Hsound. }
      destruct (Hsnd root v Hv) as [Hx|(Hr & before & s & after & -> & <- & Hc & Hb)]; [congruence|].
      right. split; [done|]. exists (s0 :: before), s, after. split_and!; [done|done|done|]. constructor; [|done].
      intros Hs0r. destruct (bmap_get found root) as [v0|] eqn:Hg; [by rewrite (Hold _ _ Hg) in Hg1|].
      by rewrite Hfirst in Hg1.
Qed.

Lemma first_snapshots_reads root_ids :
  NoDup root_ids → ∃ found, preads w (first_snapshots_for_roots env root_ids) found ∧
    ∀ id, id ∈ found.*2 ↔ ∃ root, root ∈ root_ids ∧ first_with_root w root id.
Proof.
  intros Hnd. unfold first_snapshots_for_roots. case_bool_decide as Hr.
  { exists []. split; [apply preads_ret|]. subst. set_solver. }
  destruct (first_snapshots_loop_reads root_ids [] (oldest_first (uw_snapshots w)) Hnd) as (found & Hrun & Hs & _ & Hspec & Hsound);
    [constructor|set_solver|intros s; by rewrite oldest_first_perm|].
  exists found. split.
  - eapply preads_bind; [apply preads_get; by destruct w as [[[[]]]]|exact Hrun].
  - intros id. split.
    { intros ([root v] & -> & Hin)%list_elem_of_fmap. apply bmap_get_elem_of, Hsound in Hin as [|(Hr' & Hf)]; [done| |done].
      by exists root. }
    intros (root & Hroot & before & s & after & Heq & <- & Hc & Hb).
    pose proof (Hspec root before s after Hroot eq_refl Heq Hc Hb) as Hg. apply bmap_get_elem_of in Hg; [|done].
    apply list_elem_of_fmap. by exists (root, se_id s).
Qed.

(** The snapshots no plan deletes: those a reference names, and the first of each root. *)
Definition protected (id : string) : Prop :=
  current_snapshot w = Some id ∨ id ∈ (uw_refs w).*2 ∨ ∃ root, root ∈ uw_roots w ∧ first_with_root w root id.

Lemma protected_reads snapshot_ids :
  ∃ ids, preads w (protected_ref_snapshots env snapshot_ids) ids ∧
    ∀ id, bset_contains ids id = true ↔ id ∈ snapshot_ids ∧ protected id.
Proof.
  destruct (first_snapshots_reads (bset_of_list (uw_roots w))) as (firsts & Hrun & Hfirst).
  { apply bsorted_NoDup, bset_of_list_sorted. }
  eexists. split.
  - eapply preads_bind; [apply preads_get; by destruct w as [[[[]]]]|].
    eapply preads_bind; [apply preads_get; by destruct w as [[[[]]]]|].
    eapply preads_bind; [exact Hrun|]. apply preads_ret.
  - intros id. rewrite bset_contains_true, elem_of_bset_of_list, list_elem_of_In, List.filter_In, <-list_elem_of_In.
    rewrite bset_contains_true, elem_of_bset_of_list, !elem_of_app, Hfirst. unfold protected.
    setoid_rewrite elem_of_bset_of_list. destruct (current_snapshot w) as [c|]; simpl; set_solver.
Qed.

Context (times_ok : Forall (λ s, is_ok (parse_db_time (se_created_at s)) = true) (uw_snapshots w)).

Definition prune_input (s : SnapshotExport) : SnapshotPruneInput :=
  {| spi_id := se_id s;
     spi_created_at := match parse_db_time (se_created_at s) with Ok t => t | Err _ => 0 end |}.

(** The rows of the policy, newest first. *)
Definition prune_inputs : list SnapshotPruneInput := map prune_input (newest_first (uw_snapshots w)).

Lemma inputs_read : preads w (stm_map (λ row, let* created_at := stm_ok (parse_db_time (se_created_at row)) in
    stm_ret {| spi_id := se_id row; spi_created_at := created_at |}) (newest_first (uw_snapshots w))) prune_inputs.
Proof.
  apply preads_map. intros s Hs. rewrite newest_first_perm in Hs. apply (proj1 (Forall_forall _ _) times_ok) in Hs.
  unfold prune_input. destruct (parse_db_time (se_created_at s)) as [t|e] eqn:Ht; [|done].
  eapply preads_bind; [by apply preads_ok|]. apply preads_ret.
Qed.

Lemma prune_inputs_ids id : id ∈ map spi_id prune_inputs ↔ id ∈ map se_id (uw_snapshots w).
Proof. unfold prune_inputs. rewrite map_map. simpl. by rewrite newest_first_perm. Qed.

(** Without [--drop-missing-remote-history] the plan is computed without a change, and
    deletes exactly the snapshots that neither the policy keeps nor anything protects. *)
Lemma build_prune_plan_reads args :
  0 <= pa_keep_daily args → 0 <= pa_keep_monthly args → pa_drop_missing_remote_history args = false →
  ∃ plan, preads w (build_prune_plan env args) plan ∧
    ∀ id, id ∈ pl_delete plan ↔ id ∈ map se_id (uw_snapshots w) ∧ (¬ protected id) ∧
      ¬ ∃ before x after, prune_inputs = before ++ x :: after ∧ spi_id x = id ∧
          retained (pa_keep_daily args) (pa_keep_monthly args) before x.
Proof.
  intros Hd Hm Hflag. destruct (protected_reads (map spi_id prune_inputs)) as (ids & Hids & Hprot).
  destruct (prune_plan_members prune_inputs (current_snapshot w) _ _ Hd Hm) as (Hkeep & Hdel & _).
  eexists. split.
  - eapply preads_bind; [apply preads_get; by destruct w as [[[[]]]]|].
    eapply preads_bind; [apply preads_get; by destruct w as [[[[]]]]|].
    eapply preads_bind; [exact inputs_read|]. eapply preads_bind; [exact Hids|].
    rewrite Hflag. apply preads_ret.
  - cbn [pl_delete]. intros id. rewrite list_elem_of_In, List.filter_In, <-list_elem_of_In, Hdel, Hkeep.
    rewrite negb_true_iff, <-not_true_iff_false, Hprot, prune_inputs_ids. unfold protected. tauto.
Qed.
End Plan.

(** ** Live references *)

(** An object that [read_object] returns as it is. *)
Definition plain_key (key : string) : Prop :=
  (starts_with key "objects/blobs/" && se_is_snapshot_manifest_object_key store_env key) = false.

Lemma read_plain_reads {T} `{!Serde T} w key (v : T) :
  holds_json w key v → plain_key key → ∃ b, reads w (read_object store_env key) b ∧ json_from_slice b = Some v.
Proof.
  intros Hh Hp. destruct (read_object_raw_reads (un_gc env) w key v Hh) as (b & Hr & Hj). exists b. split; [|done].
  eapply reads_bind; [exact Hr|]. rewrite Hp. apply reads_ret.
Qed.

Lemma large_manifest_reads w remote key (m : LargeManifest) :
  holds_json w key m → plain_key key → reads w (read_large_manifest_for_prune env remote key) m.
Proof.
  intros Hh Hp. destruct (read_plain_reads w key m Hh Hp) as (b & Hr & Hj).
  eapply reads_bind; [by apply reads_try|]. by apply reads_some.
Qed.

(** A record whose large manifest, if it has one, can be read. *)
Definition record_ok (w : StoreWorld) (r : FileRecord) : Prop :=
  ∀ oid mk n, payload_large_ref (fr_payload r) = Some (oid, mk, n) → plain_key mk ∧ ∃ m : LargeManifest, holds_json w mk m.

(** The references include those of a record. *)
Definition record_live (live : LiveMetadataReferences) (r : FileRecord) : Prop :=
  (∀ oid key, payload_blob_ref (fr_payload r) = Some (oid, key) → oid ∈ live_blobs live) ∧
  (∀ oid mk n, payload_large_ref (fr_payload r) = Some (oid, mk, n) → oid ∈ live_large_objects live).

Definition live_le (a b : LiveMetadataReferences) : Prop :=
  live_blobs a ⊆ live_blobs b ∧ live_large_objects a ⊆ live_large_objects b.

#[local] Instance live_le_preorder : PreOrder live_le.
Proof. split; [by intros a|]. intros a b c [] []. split; set_solver. Qed.

Lemma record_live_mono a b r : live_le a b → record_live a r → record_live b r.
Proof. intros [Hb Hl] [Hr1 Hr2]. split; eauto. Qed.

(** A loop whose steps add to the references. *)
Lemma fold_live {B} w (f : LiveMetadataReferences * bool → B → stm StoreWorld (LiveMetadataReferences * bool))
    (Q : LiveMetadataReferences → B → Prop) l acc :
  (∀ a b x, live_le a b → Q a x → Q b x) →
  (∀ x a, x ∈ l → ∃ a', reads w (f a x) a' ∧ live_le a.1 a'.1 ∧ Q a'.1 x) →
  ∃ acc', reads w (stm_fold f acc l) acc' ∧ live_le acc.1 acc'.1 ∧ Forall (Q acc'.1) l.
Proof.
  intros Hmono. revert acc. induction l as [|x l IH]; intros acc Hf; simpl.
  - exists acc. split_and!; [apply reads_ret|done|constructor].
  - destruct (Hf x acc) as (a1 & Hr1 & Hle1 & HQ1); [set_solver|].
    destruct (IH a1) as (a2 & Hr2 & Hle2 & HQ2); [intros; apply Hf; set_solver|].
    exists a2. split_and!; [by eapply reads_bind|by etrans|]. constructor; [by eapply Hmono|done].
Qed.

Lemma add_manifest_reads w remote acc key (m : LargeManifest) :
  holds_json w key m → plain_key key →
  ∃ acc', reads w (add_manifest env remote acc key) acc' ∧ live_blobs acc'.1 = live_blobs acc.1 ∧
    live_large_objects acc'.1 = live_large_objects acc.1.
Proof.
  intros Hh Hp. eexists. split; [eapply reads_bind; [by apply reads_try, large_manifest_reads|apply reads_ret]|done].
Qed.

Lemma visit_record_reads w remote acc r :
  record_ok w r → ∃ acc', reads w (visit_record env remote acc r) acc' ∧ live_le acc.1 acc'.1 ∧ record_live acc'.1 r.
Proof.
  intros Hr. unfold visit_record, record_live. destruct (payload_blob_ref (fr_payload r)) as [[oid key]|] eqn:Hb.
  - assert (Hl : payload_large_ref (fr_payload r) = None) by (by destruct (fr_payload r)).
    eexists. split; [apply reads_ret|]. split; [split; simpl; [intros x; rewrite elem_of_bset_insert; tauto|done]|].
    rewrite Hl. split; [|done]. intros ? ? [= -> _]. simpl. rewrite elem_of_bset_insert. by left.
  - destruct (payload_large_ref (fr_payload r)) as [[[oid mk] n]|] eqn:Hl.
    + destruct (Hr _ _ _ Hl) as (Hp & m & Hm).
      destruct (add_manifest_reads w remote ({| live_blobs := live_blobs acc.1;
        live_large_objects := bset_insert oid (live_large_objects acc.1); live_chunks := live_chunks acc.1 |}, acc.2) mk m Hm Hp)
        as (acc' & Hrun & Hb' & Hl').
      exists acc'. split; [done|]. simpl in Hb', Hl'. split; [split; rewrite ?Hb', ?Hl'; [done|]|].
      * intros x. rewrite elem_of_bset_insert. tauto.
      * split; [done|]. intros ? ? ? [= -> _ _]. rewrite Hl', elem_of_bset_insert. by left.
    + exists acc. split; [apply reads_ret|]. by split.
Qed.

(** The records a visit of the nodes of a tree meets. *)
Fixpoint node_visits (d : nat) (w : StoreWorld) (key : string) (rs : list FileRecord) : Prop :=
  match d with
  | O => False
  | S d' => ∃ (node : TreeNodeManifest) parts, holds_json w key node ∧
      Forall2 (λ child part, node_visits d' w (tnr_node_key child.2) part) (tn_child_nodes node) parts ∧
      rs = (tn_entries node).*2 ++ concat parts
  end.
Definition tree_visits (w : StoreWorld) (key : string) (rs : list FileRecord) : Prop :=
  ∃ tree : TreeManifest, holds_json w key tree ∧
    match tm_entries tree, tm_root_node tree with
    | [], Some root_node => node_visits depth w (tnr_node_key root_node) rs
    | entries, _ => rs = entries.*2
    end.

Lemma node_visits_fun w d key rs rs' :
  oc_inv (sw_codec w) → node_visits d w key rs → node_visits d w key rs' → rs' = rs.
Proof.
  intros Hc. revert key rs rs'. induction d as [|d IH]; intros key rs rs'; [done|].
  intros (node & parts & Hh & Hf & ->) (node' & parts' & Hh' & Hf' & ->).
  apply (holds_json_fun _ _ _ _ Hc Hh) in Hh' as ->. do 2 f_equal.
  clear Hh. revert parts' Hf'. induction Hf as [|child part cs parts Hp _ IHf]; intros parts' Hf'; inversion Hf'; subst; [done|].
  f_equal; [by eapply IH|by apply IHf].
Qed.

Lemma visit_node_reads w remote d key rs acc :
  oc_inv (sw_codec w) → node_visits d w key rs → Forall (record_ok w) rs →
  ∃ acc', reads w (visit_tree_node_records env (visit_record env remote) d acc key) acc' ∧ live_le acc.1 acc'.1 ∧
    Forall (record_live acc'.1) rs.
Proof.
  intros Hc. revert key rs acc. induction d as [|d IH]; intros key rs acc; [done|].
  intros (node & parts & Hh & Hf & ->) [Hown Hbelow]%Forall_app. cbn [visit_tree_node_records].
  destruct (read_object_raw_reads (un_gc env) w key node Hh) as (b & Hr & Hj).
  destruct (fold_live w (visit_record env remote) record_live (tn_entries node).*2 acc) as (acc1 & Hr1 & Hle1 & Hl1).
  { intros ? ? ?. apply record_live_mono. }
  { intros r a Hin. apply visit_record_reads. by apply (proj1 (Forall_forall _ _) Hown). }
  destruct (fold_live w (λ acc child, visit_tree_node_records env (visit_record env remote) d acc (tnr_node_key child))
    (λ live child, ∀ part, node_visits d w (tnr_node_key child) part → Forall (record_live live) part) (tn_child_nodes node).*2 acc1)
    as (acc2 & Hr2 & Hle2 & Hl2).
  { intros x y child Hle Hq part Hp. eapply Forall_impl; [by apply Hq|]. intros r. by apply record_live_mono. }
  { intros child a ([name child'] & -> & Hin)%list_elem_of_fmap. simpl.
    apply list_elem_of_lookup in Hin as [i Hi]. destruct (Forall2_lookup_l _ _ _ _ _ Hf Hi) as (part & Hpi & Hpart). simpl in Hpart.
    assert (Hok : Forall (record_ok w) part).
    { apply Forall_forall. intros r Hr'. apply (proj1 (Forall_forall _ _) Hbelow). apply list_elem_of_In, in_concat.
      exists part. split; [|by apply list_elem_of_In]. apply list_elem_of_In. by eapply list_elem_of_lookup_2. }
    destruct (IH _ _ a Hpart Hok) as (a' & Hra & Hlea & Hla). exists a'. split_and!; [done..|].
    intros part' Hp'. by rewrite (node_visits_fun _ _ _ _ _ Hc Hpart Hp'). }
  exists acc2. split_and!.
  - eapply reads_bind; [exact Hr|]. eapply reads_bind; [by apply reads_some|]. eapply reads_bind; [exact Hr1|exact Hr2].
  - by etrans.
  - apply Forall_app. split; [eapply Forall_impl; [exact Hl1|]; intros r; by apply record_live_mono|].
    apply Forall_concat. apply Forall_forall. intros part [i Hi]%list_elem_of_lookup.
    destruct (Forall2_lookup_r _ _ _ _ _ Hf Hi) as ([name child] & Hci & Hpart). simpl in Hpart.
    refine (proj1 (Forall_forall _ _) Hl2 child _ part Hpart). apply list_elem_of_fmap. exists (name, child). split; [done|].
    by eapply list_elem_of_lookup_2.
Qed.

Lemma visit_tree_reads w remote key rs acc rt :
  oc_inv (sw_codec w) → rs_tree_key rt = key → tree_visits w key rs → Forall (record_ok w) rs →
  ∃ acc', reads w (visit_tree_records env (visit_record env remote) acc rt) acc' ∧ live_le acc.1 acc'.1 ∧
    Forall (record_live acc'.1) rs.
Proof.
  intros Hc <- (tree & Hh & Ht) Hok. destruct (read_object_raw_reads (un_gc env) w _ tree Hh) as (b & Hr & Hj).
  assert (Hflat : ∀ entries : entries_map, rs = entries.*2 → ∃ acc', reads w (stm_fold (visit_record env remote) acc entries.*2) acc' ∧
    live_le acc.1 acc'.1 ∧ Forall (record_live acc'.1) rs).
  { intros entries ->. apply (fold_live w (visit_record env remote) record_live).
    - intros ? ? ?. apply record_live_mono.
    - intros r a Hin. apply visit_record_reads. by apply (proj1 (Forall_forall _ _) Hok). }
  assert (Hrest : ∃ acc', reads w (match tm_entries tree, tm_root_node tree with
      | [], Some root_node => visit_tree_node_records env (visit_record env remote) depth acc (tnr_node_key root_node)
      | entries, _ => stm_fold (visit_record env remote) acc entries.*2 end) acc' ∧ live_le acc.1 acc'.1 ∧
      Forall (record_live acc'.1) rs).
  { destruct (tm_entries tree); [destruct (tm_root_node tree)|]; [by eapply visit_node_reads|by apply Hflat..]. }
  destruct Hrest as (acc' & Hr' & Hle & Hl). exists acc'. split_and!; [|done..].
  eapply reads_bind; [exact Hr|]. eapply reads_bind; [by apply reads_some|exact Hr'].
Qed.

(** Every record a load of the tree returns is met. *)
Lemma node_at_visits d w key es :
  node_at d w key es → ∃ rs, node_visits d w key rs ∧ ∀ r, r ∈ es.*2 → r ∈ rs.
Proof.
  revert key es. induction d as [|d IH]; intros key es; [done|]. intros (node & parts & Hh & Hf & ->).
  assert (Hex : ∃ rss, Forall2 (λ child part, node_visits d w (tnr_node_key child.2) part) (tn_child_nodes node) rss ∧
    ∀ r, r ∈ concat (map (λ p : entries_map, p.*2) parts) → r ∈ concat rss).
  { clear Hh. induction Hf as [|child part cs parts Hp _ (rss & Hrss & Hsub)]; [exists []; split; [constructor|done]|].
    destruct (IH _ _ Hp) as (rs & Hrs & Hin). exists (rs :: rss). split; [by constructor|]. simpl. set_solver. }
  destruct Hex as (rss & Hrss & Hsub). eexists. split; [by exists node, rss|].
  assert (Hfold : ∀ (parts : list entries_map) m r, r ∈ (fold_left bmap_extend parts m).*2 →
    r ∈ m.*2 ∨ r ∈ concat (map (λ p : entries_map, p.*2) parts)).
  { clear. induction parts as [|p parts IH]; intros m r; simpl; [by left|].
    intros [Hr|Hr]%IH; [|set_solver]. enough (r ∈ m.*2 ∨ r ∈ p.*2) by set_solver. clear IH. revert m Hr. unfold bmap_extend.
    induction p as [|[k v] p IH]; intros m; simpl; [by left|]. intros [Hr|Hr]%IH; [|set_solver].
    enough (r = v ∨ r ∈ m.*2) by set_solver. clear -Hr. induction m as [|[j x] m IH]; simpl in *; [set_solver|].
    destruct (String.compare k j); set_solver. }
  intros r [Hr|Hr]%Hfold; set_solver.
Qed.

Lemma tree_visits_all w rt es rs :
  oc_inv (sw_codec w) → tree_at depth w (rs_tree_key rt) es → tree_visits w (rs_tree_key rt) rs → ∀ r, r ∈ es.*2 → r ∈ rs.
Proof.
  intros Hc (tree & Hh & Ht) (tree' & Hh' & Hv). apply (holds_json_fun _ _ _ _ Hc Hh) in Hh' as ->.
  destruct (tm_entries tree); [destruct (tm_root_node tree)|]; [|by subst..].
  destruct (node_at_visits _ _ _ _ Ht) as (rs' & Hrs' & Hin). by rewrite (node_visits_fun _ _ _ _ _ Hc Hv Hrs') in Hin.
Qed.

(** A snapshot whose records can all be met. *)
Definition snapshot_ok (w : StoreWorld) (s : SnapshotExport) : Prop :=
  ∃ m, snapshot_manifest_is w s m ∧ Forall (record_ok w) (concat (sm_roots m).*2) ∧
    Forall (λ rt, (∃ es, tree_at depth w (rs_tree_key rt) es) ∧
                  ∃ rs, tree_visits w (rs_tree_key rt) rs ∧ Forall (record_ok w) rs) (sm_root_trees m).*2.

(** The records of a snapshot. *)
Definition snapshot_record (w : StoreWorld) (s : SnapshotExport) (r : FileRecord) : Prop :=
  ∃ m rt es, snapshot_manifest_is w s m ∧ rt ∈ (sm_root_trees m).*2 ∧ tree_at depth w (rs_tree_key rt) es ∧ r ∈ es.*2.

Lemma live_add_records_le rs refs :
  live_le refs (live_add_records refs rs).1 ∧
  ∀ k, k ∈ (live_add_records refs rs).2 → ∃ r oid n, r ∈ rs ∧ payload_large_ref (fr_payload r) = Some (oid, k, n).
Proof.
  destruct (live_add_records refs rs) as [refs' keys] eqn:Hrun.
  destruct (live_add_records_spec _ _ _ _ Hrun) as (Hb & Hl & _ & Hk). simpl. split.
  - split; intros oid Hoid; [apply Hb|apply Hl]; by left.
  - intros k (r & oid & Hr & Hlarge)%Hk. destruct Hlarge as [n Hn]. eauto.
Qed.

Hypothesis compact_safe : ∀ m, oc_safe (value_to_json_pretty (compact_snapshot_manifest_value m)).

Lemma scan_snapshot_reads w remote acc s :
  oc_inv (sw_codec w) → snapshot_ok w s →
  ∃ acc', reads w (scan_snapshot env remote acc s) acc' ∧ live_le acc.1 acc'.1 ∧
    ∀ r, snapshot_record w s r → record_live acc'.1 r.
Proof.
  intros Hc (m & Hm & Hflat & Htrees).
  destruct (manifest_from_parts_reads (un_gc env) compact_safe w s m Hm) as (m' & Hr & He & Hroots).
  { eapply Forall_impl; [exact Htrees|]. by intros rt [? _]. }
  assert (Htr : sm_root_trees m' = sm_root_trees m) by exact (f_equal sm_root_trees He).
  assert (Hrec : ∀ r, r ∈ concat (sm_roots m').*2 → record_ok w r).
  { intros r [Hin|(rt & es & Hrt & Hes & Hin)]%Hroots; [by apply (proj1 (Forall_forall _ _) Hflat)|].
    destruct (proj1 (Forall_forall _ _) Htrees rt Hrt) as (_ & rs & Hv & Hok).
    apply (proj1 (Forall_forall _ _) Hok). by eapply tree_visits_all. }
  destruct (live_add_records_le (concat (sm_roots m').*2) acc.1) as [Hle1 Hkeys].
  destruct (add_snapshot_manifest acc.1 m') as [live keys] eqn:Ha. unfold add_snapshot_manifest in Ha. rewrite Ha in Hle1, Hkeys.
  simpl in Hle1, Hkeys.
  destruct (fold_live w (add_manifest env remote) (λ _ _, True) keys (live, acc.2)) as (acc1 & Hr1 & Hle2 & _); [done| |].
  { intros k a (r & oid & n & Hin & Hl)%Hkeys. destruct (Hrec r Hin _ _ _ Hl) as (Hp & lm & Hlm).
    destruct (add_manifest_reads w remote a k lm Hlm Hp) as (a' & Hra & Hb & Hlo). exists a'. split_and!; [done| |done].
    split; [by rewrite Hb|by rewrite Hlo]. }
  destruct (fold_live w (visit_tree_records env (visit_record env remote))
    (λ live rt, ∀ es r, tree_at depth w (rs_tree_key rt) es → r ∈ es.*2 → record_live live r) (sm_root_trees m).*2 acc1)
    as (acc2 & Hr2 & Hle3 & Hl2).
  { intros a b rt Hle Hq es r Hes Hin. eapply record_live_mono; [exact Hle|]. by eapply Hq. }
  { intros rt a Hrt. destruct (proj1 (Forall_forall _ _) Htrees rt Hrt) as (_ & rs & Hv & Hok).
    destruct (visit_tree_reads w remote _ rs a rt Hc eq_refl Hv Hok) as (a' & Hra & Hlea & Hla). exists a'. split_and!; [done..|].
    intros es r Hes Hin. apply (proj1 (Forall_forall _ _) Hla). by eapply tree_visits_all. }
  exists acc2. split_and!.
  - eapply reads_bind; [exact Hr|]. unfold add_snapshot_manifest. rewrite Ha. eapply reads_bind; [exact Hr1|]. by rewrite Htr.
  - etrans; [exact Hle1|]. by etrans.
  - intros r (m1 & rt & es & Hm1 & Hrt & Hes & Hin). rewrite (snapshot_manifest_fun _ Hc _ _ _ Hm Hm1) in Hrt.
    by eapply (proj1 (Forall_forall _ _) Hl2 rt).
Qed.

(** ** The transaction *)

(** Generations of an index are named by their contents. *)
Definition generations (w : StoreWorld) : Prop :=
  ∀ id bytes v, sw_objects w !! stale_index_key id bytes = Some v → v = bytes.

Lemma last_part x h : contains_char h "-" = false → last (split "-" (x +:+ String "-" h)) = Some h.
Proof. intros Hh. rewrite split_app_sep, (split_no_sep _ h Hh). by rewrite last_snoc. Qed.

Lemma stale_index_key_inj id id' b b' : stale_index_key id b = stale_index_key id' b' → b = b'.
Proof.
  unfold stale_index_key. intros Heq.
  assert (Hcut : ∀ id h, "objects/indexes/pack/" +:+ id +:+ "-" +:+ h +:+ ".json"
                         = (("objects/indexes/pack/" +:+ id) +:+ String "-" h) +:+ ".json").
  { intros i h. rewrite <-!str_app_assoc. by rewrite str_app_cons. }
  rewrite !Hcut in Heq. apply str_app_inj_r in Heq. apply blake3_inj.
  assert (Hno : ∀ c, contains_char (blake3_hex c) "-" = false).
  { intros c. apply contains_char_forallb. eapply str_forallb_impl; [|apply (blake3_good c)].
    intros d Hd. apply negb_true_iff, Ascii.eqb_neq. intros <-. done. }
  pose proof (last_part ("objects/indexes/pack/" +:+ id) _ (Hno b)) as H1'.
  rewrite Heq, last_part in H1' by apply Hno. by injection H1'.
Qed.

Record prune_ok (w : PruneWorld) : Prop := {
  po_gc : gc_ok depth (uw_gc w);
  po_times : Forall (λ s, is_ok (parse_db_time (se_created_at s)) = true) (uw_snapshots w);
  po_snapshots : Forall (snapshot_ok (uw_store w)) (uw_snapshots w);
  (** the rows of large objects and packs name objects that can be read *)
  po_large oid row : sw_large_objects (uw_store w) !! oid = Some row →
    plain_key row.2 ∧ ∃ m : LargeManifest, holds_json (uw_store w) row.2 m;
  po_packs id pack : pw_packs (uw_pack w) !! id = Some pack →
    pk_pack_id pack = id ∧ plain_key (pk_index_key pack) ∧ ∃ index : PackIndex, holds_json (uw_store w) (pk_index_key pack) index;
  (** the payload index of a snapshot has all its records *)
  po_index s r : s ∈ uw_snapshots w → se_id s ∈ uw_indexed w → snapshot_record (uw_store w) s r →
    (∀ oid key, payload_blob_ref (fr_payload r) = Some (oid, key) →
      {| py_snapshot_id := se_id s; py_kind := "blob"; py_oid := oid |} ∈ uw_payloads w) ∧
    (∀ oid mk n, payload_large_ref (fr_payload r) = Some (oid, mk, n) →
      {| py_snapshot_id := se_id s; py_kind := "large"; py_oid := oid |} ∈ uw_payloads w);
  po_generations : generations (uw_store w);
}.

Lemma existsb_elem x l : existsb (String.eqb x) l = true ↔ x ∈ l.
Proof. apply bset_contains_true. Qed.

Lemma payload_rows_live rows a live :
  fold_left add_payload_row rows a = Some live → ∃ a0, a = Some a0 ∧ live_le a0 live ∧
    (∀ row, row ∈ rows → py_kind row = "blob" → py_oid row ∈ live_blobs live) ∧
    (∀ row, row ∈ rows → py_kind row = "large" → py_oid row ∈ live_large_objects live).
Proof.
  revert a. induction rows as [|row rows IH]; intros a; cbn [fold_left].
  { intros ->. exists live. split_and!; [done|done|set_solver|set_solver]. }
  intros (a1 & Ha & Hle & Hb & Hl)%IH. destruct a as [a0|]; [|done]. exists a0. split; [done|]. simpl in Ha.
  destruct (String.eqb_spec (py_kind row) "blob") as [Hk|Hk]; [|destruct (String.eqb_spec (py_kind row) "large") as [Hk'|Hk']; [|done]];
    simplify_eq; destruct Hle as [Hle1 Hle2]; simpl in *.
  - split_and!; [split; [|done]; intros x ?; apply Hle1; rewrite elem_of_bset_insert; by right| |].
    + intros row' [->|Hr]%elem_of_cons ?; [|by apply Hb]. apply Hle1. rewrite elem_of_bset_insert. by left.
    + intros row' [->|Hr]%elem_of_cons ?; [congruence|by apply Hl].
  - split_and!; [split; [done|]; intros x ?; apply Hle2; rewrite elem_of_bset_insert; by right| |].
    + intros row' [->|Hr]%elem_of_cons ?; [congruence|by apply Hb].
    + intros row' [->|Hr]%elem_of_cons ?; [|by apply Hl]. apply Hle2. rewrite elem_of_bset_insert. by left.
Qed.

(** A table of references that has every snapshot has every record of every snapshot. *)
Lemma indexed_live w s r live :
  indexed_live_metadata_references w = Some live → s ∈ uw_snapshots w →
  (se_id s ∈ uw_indexed w →
    (∀ oid key, payload_blob_ref (fr_payload r) = Some (oid, key) →
      {| py_snapshot_id := se_id s; py_kind := "blob"; py_oid := oid |} ∈ uw_payloads w) ∧
    (∀ oid mk n, payload_large_ref (fr_payload r) = Some (oid, mk, n) →
      {| py_snapshot_id := se_id s; py_kind := "large"; py_oid := oid |} ∈ uw_payloads w)) →
  record_live live r.
Proof.
  unfold indexed_live_metadata_references. set (ids := map se_id (uw_snapshots w)).
  destruct (_ =? _)%nat eqn:Hlen; cbn [negb]; [|done]. intros Hfold Hs Hidx.
  assert (Hid : se_id s ∈ ids) by (by apply list_elem_of_fmap_2).
  assert (Hall : ∀ (f : string → bool) (l : list string), length (List.filter f l) = length l → ∀ x, x ∈ l → f x = true).
  { clear. induction l as [|y l IH]; simpl; [set_solver|]. pose proof (List.filter_length_le f l).
    destruct (f y) eqn:Hy; simpl; [|lia]. intros [= Hl] x [->|Hx]%elem_of_cons; auto. }
  apply Nat.eqb_eq in Hlen. specialize (Hall _ _ Hlen _ Hid). apply existsb_elem in Hall. destruct (Hidx Hall) as [Hb Hl].
  set (rows := List.filter _ (uw_payloads w)) in Hfold.
  assert (Hrows : ∀ kind oid, {| py_snapshot_id := se_id s; py_kind := kind; py_oid := oid |} ∈ uw_payloads w →
    {| py_snapshot_id := se_id s; py_kind := kind; py_oid := oid |} ∈ rows).
  { intros kind oid Hin. apply elem_of_filter_bool. split; [done|]. by apply existsb_elem. }
  destruct (payload_rows_live _ _ _ Hfold) as (_ & _ & _ & Hb' & Hl'). split.
  - intros oid key Hk. by apply (Hb' _ (Hrows _ _ (Hb _ _ Hk))).
  - intros oid mk n Hk. by apply (Hl' _ (Hrows _ _ (Hl _ _ _ Hk))).
Qed.

Lemma live_chunks_reads w remote acc keys :
  oc_inv (sw_codec w) → Forall (λ k, plain_key k ∧ ∃ m : LargeManifest, holds_json w k m) keys →
  ∃ live, reads w (live_chunks_loop env remote acc keys) (Some live) ∧ acc ⊆ live ∧
    ∀ k (m : LargeManifest) c, k ∈ keys → holds_json w k m → c ∈ lm_chunks m → lc_oid c ∈ live.
Proof.
  intros Hc. revert acc. induction keys as [|k keys IH]; intros acc Hk; simpl.
  { exists acc. split_and!; [apply reads_ret|done|set_solver]. }
  apply Forall_cons in Hk as [(Hp & m & Hm) Hk]. destruct (IH (bset_extend acc (lc_oid <$> lm_chunks m)) Hk) as (live & Hr & Hsub & Hin).
  exists live. split_and!.
  - eapply reads_bind; [by apply reads_try, large_manifest_reads|exact Hr].
  - intros x Hx. apply Hsub. rewrite elem_of_bset_extend. by left.
  - intros k' m' c [->|Hk']%elem_of_cons Hm' Hch; [|by eapply Hin].
    rewrite (holds_json_fun _ _ _ _ Hc Hm Hm') in Hch. apply Hsub. rewrite elem_of_bset_extend. right.
    by apply list_elem_of_fmap_2.
Qed.

(** *** Rewriting the pack indexes *)

Definition same_keys (packs packs' : gmap string PackExport) : Prop :=
  ∀ id, (λ p, (pk_pack_id p, pk_pack_key p)) <$> packs' !! id = (λ p, (pk_pack_id p, pk_pack_key p)) <$> packs !! id.

(** What the loop over the packs leaves as it was. *)
Record reindexed (w w' : PruneWorld) : Prop := {
  ri_world : w' = uw_with_pack w (pw_with_tables (pw_with_store (uw_pack w) (uw_store w')) (pw_blobs (uw_pack w)) (pw_packs (uw_pack w')));
  ri_store : uw_store w' = sw_with_codec (sw_with_objects (uw_store w) (sw_objects (uw_store w'))) (sw_codec (uw_store w'));
  ri_objects : extends (uw_store w) (uw_store w');
  ri_packs : same_keys (pw_packs (uw_pack w)) (pw_packs (uw_pack w'));
  ri_codec : oc_inv (sw_codec (uw_store w'));
  ri_generations : generations (uw_store w) → generations (uw_store w');
}.

Lemma reindexed_refl w : oc_inv (sw_codec (uw_store w)) → reindexed w w.
Proof. intros Hc. by split; destruct w as [[[[]]]]. Qed.
Lemma reindexed_trans w1 w2 w3 : reindexed w1 w2 → reindexed w2 w3 → reindexed w1 w3.
Proof.
  intros [Hw Hs Ho Hp Hc Hg] [Hw' Hs' Ho' Hp' Hc' Hg']. split; [| |by etrans|intros id; by rewrite Hp', Hp|done|auto];
    clear Ho Ho' Hp Hp' Hc Hc' Hg Hg'; destruct w1 as [[[[]]]], w2 as [[[[]]]], w3 as [[[[]]]]; cbv in *; by simplify_eq.
Qed.
Lemma reindexed_codec w c : oc_inv c → reindexed w (uw_with_codec w c).
Proof. intros Hc. split; [by destruct w as [[[[]]]]..|by apply extends_same|by intros id|done|done]. Qed.

Lemma rewrite_index_run w pack (index : PackIndex) :
  oc_inv (sw_codec (uw_store w)) →
  generations (uw_store w) →
  (λ p, (pk_pack_id p, pk_pack_key p)) <$> pw_packs (uw_pack w) !! pk_pack_id pack = Some (pk_pack_id pack, pk_pack_key pack) →
  reindexed w (rewrite_index pack index w).2.
Proof.
  intros Hc Hfresh Hrow. set (w' := (rewrite_index pack index w).2).
  set (bytes := json_to_vec_pretty index). set (key := stale_index_key (pk_pack_id pack) bytes).
  assert (Ho : sw_objects (uw_store w') = <[key := bytes]> (sw_objects (uw_store w))) by done.
  assert (Hp : ∃ row, pw_packs (uw_pack w') = <[pk_pack_id pack := row]> (pw_packs (uw_pack w)) ∧
    pk_pack_id row = pk_pack_id pack ∧ pk_pack_key row = pk_pack_key pack) by (eexists; split; [reflexivity|done]).
  split; [by destruct w as [[[[]]]]..| | |done|].
  - intros k v Hk. rewrite Ho. destruct (decide (k = key)) as [->|Hne]; [|by rewrite lookup_insert_ne].
    rewrite lookup_insert_eq. f_equal. symmetry. by apply (Hfresh _ _ _ Hk).
  - destruct Hp as (row & Hp & Hid & Hkey). intros id. rewrite Hp.
    destruct (decide (id = pk_pack_id pack)) as [->|Hne]; [|by rewrite lookup_insert_ne].
    rewrite lookup_insert_eq. simpl. by rewrite Hrow, Hid, Hkey.
  - intros _ id b v. rewrite Ho. destruct (decide (stale_index_key id b = key)) as [He|Hne].
    + rewrite He, lookup_insert_eq. intros [= <-]. symmetry. by apply (stale_index_key_inj _ _ _ _ He).
    + rewrite lookup_insert_ne by done. apply Hfresh.
Qed.

Lemma prune_pack_index_run w pack (index : PackIndex) :
  oc_inv (sw_codec (uw_store w)) → plain_key (pk_index_key pack) → holds_json (uw_store w) (pk_index_key pack) index →
  generations (uw_store w) →
  (λ p, (pk_pack_id p, pk_pack_key p)) <$> pw_packs (uw_pack w) !! pk_pack_id pack = Some (pk_pack_id pack, pk_pack_key pack) →
  ∃ changed w', prune_pack_index env pack w = (Done changed, w') ∧ reindexed w w'.
Proof.
  intros Hc Hp Hh Hfresh Hrow. unfold prune_pack_index. unfold stm_bind at 1, stm_get.
  case_bool_decide as Hlive; [exists false, w; split; [done|by apply reindexed_refl]|].
  destruct (read_plain_reads (uw_store w) (pk_index_key pack) index Hh Hp) as (b & Hr & Hj).
  destruct (preads_store w _ _ Hr _ Hc) as (c & Hc' & Hrun).
  assert (Hw : uw_with_codec w (sw_codec (uw_store w)) = w) by by destruct w as [[[[]]]].
  rewrite Hw in Hrun. unfold stm_bind at 1. rewrite Hrun. unfold stm_bind at 1, stm_some. rewrite Hj. unfold stm_ret at 1.
  destruct (_ && _); [exists false; eexists; split; [reflexivity|by apply reindexed_codec]|].
  exists true. eexists. split; [reflexivity|].
  eapply reindexed_trans; [by apply (reindexed_codec w c)|]. by apply rewrite_index_run.
Qed.

Lemma stale_indexes_run w packs n :
  oc_inv (sw_codec (uw_store w)) →
  generations (uw_store w) →
  (∀ pack, pack ∈ packs → plain_key (pk_index_key pack) ∧ (∃ index : PackIndex, holds_json (uw_store w) (pk_index_key pack) index) ∧
    (λ p, (pk_pack_id p, pk_pack_key p)) <$> pw_packs (uw_pack w) !! pk_pack_id pack = Some (pk_pack_id pack, pk_pack_key pack)) →
  ∃ n' w', stm_fold (λ rewritten pack, let* changed := prune_pack_index env pack in
    stm_ret (if changed : bool then S rewritten else rewritten)) n packs w = (Done n', w') ∧ reindexed w w'.
Proof.
  intros Hc Hg. revert w n Hc Hg. induction packs as [|pack packs IH]; intros w n Hc Hg Hp; cbn [stm_fold].
  { exists n, w. split; [done|by apply reindexed_refl]. }
  destruct (Hp pack) as (Hk & (index & Hi) & Hrow); [set_solver|].
  destruct (prune_pack_index_run w pack index Hc Hk Hi Hg Hrow) as (changed & w1 & Hrun & Hre).
  destruct (IH w1 (if changed then S n else n)) as (n' & w' & Hrun' & Hre'); [apply Hre|by apply Hre| |].
  { intros pack' Hin. destruct (Hp pack') as (Hk' & (index' & Hi') & Hrow'); [set_solver|]. split_and!; [done| |].
    - exists index'. eapply holds_json_extends; [apply Hre|done].
    - etrans; [apply Hre|done]. }
  exists n', w'. split; [|by eapply reindexed_trans]. unfold stm_bind at 1, stm_bind at 1. rewrite Hrun. exact Hrun'.
Qed.

(** *** All of it *)

Definition remaining (D : list string) (rows : list SnapshotExport) : list SnapshotExport :=
  List.filter (λ s, negb (existsb (String.eqb (se_id s)) D)) rows.

Lemma elem_of_remaining D rows s : s ∈ remaining D rows ↔ s ∈ rows ∧ se_id s ∉ D.
Proof. unfold remaining. by rewrite elem_of_filter_bool, negb_true_iff, <-not_true_iff_false, existsb_elem. Qed.

(** What the transaction does to the snapshots it keeps: nothing. *)
Record pruned (w : PruneWorld) (D : list string) (w' : PruneWorld) : Prop := {
  pd_snapshots : uw_snapshots w' = remaining D (uw_snapshots w);
  pd_objects : extends (uw_store w) (uw_store w');
  pd_codec : oc_inv (sw_codec (uw_store w'));
  pd_blobs row : row ∈ pw_blobs (uw_pack w') → row ∈ pw_blobs (uw_pack w);
  pd_kept s r : s ∈ uw_snapshots w' → snapshot_record (uw_store w) s r →
    (∀ oid key row, payload_blob_ref (fr_payload r) = Some (oid, key) → row ∈ pw_blobs (uw_pack w) → be_oid row = oid →
      row ∈ pw_blobs (uw_pack w')) ∧
    (∀ oid mk n, payload_large_ref (fr_payload r) = Some (oid, mk, n) →
      sw_large_objects (uw_store w') !! oid = sw_large_objects (uw_store w) !! oid);
  pd_packs row id : row ∈ pw_blobs (uw_pack w') → be_pack_id row = Some id →
    (λ p, (pk_pack_id p, pk_pack_key p)) <$> pw_packs (uw_pack w') !! id
    = (λ p, (pk_pack_id p, pk_pack_key p)) <$> pw_packs (uw_pack w) !! id;
  pd_chunks oid row (m : LargeManifest) c : sw_large_objects (uw_store w') !! oid = Some row → holds_json (uw_store w) row.2 m →
    c ∈ lm_chunks m → sw_chunks (uw_store w') !! lc_oid c = sw_chunks (uw_store w) !! lc_oid c;
  pd_current : pw_current (uw_pack w') = pw_current (uw_pack w);
  pd_refs : uw_refs w' = uw_refs w;
}.

Definition without_snapshots (D : list string) (w : PruneWorld) : PruneWorld :=
  uw_with_gc w (gw_with_snapshots (uw_gc w) (remaining D (uw_snapshots w))).

Lemma live_stage w D remote :
  prune_ok w → ∃ live, (∃ c, oc_inv c ∧ (match indexed_live_metadata_references (without_snapshots D w) with
      | Some live => stm_ret live
      | None => let* rows := stm_get uw_snapshots in
                let* scanned := in_prune_store (scan_live_metadata_references env remote rows) in
                stm_ret scanned.1
      end) (without_snapshots D w) = (Done live, uw_with_codec (without_snapshots D w) c)) ∧
    ∀ s r, s ∈ remaining D (uw_snapshots w) → snapshot_record (uw_store w) s r → record_live live r.
Proof.
  intros Hok. pose proof (go_codec _ _ (po_gc _ Hok)) as Hc. change (gw_store (uw_gc w)) with (uw_store w) in Hc.
  assert (Hw : uw_with_codec (without_snapshots D w) (sw_codec (uw_store w)) = without_snapshots D w) by by destruct w as [[[[]]]].
  destruct (indexed_live_metadata_references (without_snapshots D w)) as [live|] eqn:Hidx.
  - exists live. split.
    { exists (sw_codec (uw_store w)). split; [done|]. by rewrite Hw. }
    intros s r Hs Hr. apply (indexed_live _ s r _ Hidx Hs). intros Hin.
    apply elem_of_remaining in Hs as [Hs _]. by apply (po_index _ Hok).
  - destruct (fold_live (uw_store w) (scan_snapshot env remote) (λ live s, ∀ r, snapshot_record (uw_store w) s r → record_live live r)
      (remaining D (uw_snapshots w)) (live_default, false)) as (acc & Hr & _ & Hl).
    { intros a b s Hle Hq r Hrec. eapply record_live_mono; [exact Hle|by apply Hq]. }
    { intros s a Hs. apply scan_snapshot_reads; [done|]. apply elem_of_remaining in Hs as [Hs _].
      by apply (proj1 (Forall_forall _ _) (po_snapshots _ Hok)). }
    exists acc.1. split; [|intros s r Hs; by apply (proj1 (Forall_forall _ _) Hl)].
    destruct (preads_store (without_snapshots D w) _ _ Hr _ Hc) as (c & Hc' & Hrun). exists c. split; [done|].
    rewrite Hw in Hrun. unfold stm_bind, stm_get. unfold scan_live_metadata_references.
    change (uw_snapshots (without_snapshots D w)) with (remaining D (uw_snapshots w)). by rewrite Hrun.
Qed.

Lemma bind_run {S A B} (m : stm S A) (k : A → stm S B) s a s1 r : m s = (Done a, s1) → k a s1 = r → stm_bind m k s = r.
Proof. intros Hm Hk. unfold stm_bind. by rewrite Hm. Qed.

Lemma elem_of_large_manifest_keys rows k :
  k ∈ large_manifest_keys rows ↔ ∃ oid row, rows !! oid = Some row ∧ k = row.2.
Proof.
  unfold large_manifest_keys. rewrite list_elem_of_fmap. setoid_rewrite list_elem_of_fmap. split.
  - intros (row & -> & [oid row'] & -> & Hin). rewrite sort_by_perm in Hin. apply elem_of_map_to_list in Hin. by exists oid, row'.
  - intros (oid & row & Hr & ->). exists row. split; [done|]. exists (oid, row). split; [done|]. rewrite sort_by_perm. by apply elem_of_map_to_list.
Qed.

Lemma elem_of_query_packs w pack : pack ∈ query_packs w ↔ ∃ id, pw_packs w !! id = Some pack.
Proof.
  unfold query_packs. rewrite sort_by_perm, list_elem_of_fmap. setoid_rewrite elem_of_map_to_list'. split.
  - intros ([id p] & -> & Hp). by exists id.
  - intros [id Hp]. by exists (id, pack).
Qed.

(** The tables after the rows that are not live were deleted, chunks by [C]. *)
Definition tables_pruned (live : LiveMetadataReferences) (C : list string) (w : PruneWorld) : PruneWorld :=
  (delete_packs_without_blobs (delete_chunks_not_in C (delete_pins_not_in (live_large_objects live)
    (delete_large_objects_not_in (live_large_objects live) (delete_blobs_not_in (live_blobs live) w).2).2).2).2).2.

Lemma keys_in_lookup {A} live (rows : gmap string A) k : k ∈ live → keys_in live rows !! k = rows !! k.
Proof.
  intros Hk. apply option_eq. intros v. unfold keys_in. rewrite map_lookup_filter_Some. naive_solver.
Qed.
Lemma keys_in_Some {A} live (rows : gmap string A) k v : keys_in live rows !! k = Some v → k ∈ live ∧ rows !! k = Some v.
Proof. unfold keys_in. rewrite map_lookup_filter_Some. naive_solver. Qed.

Lemma tables_pruned_blobs live C w row :
  row ∈ pw_blobs (uw_pack (tables_pruned live C w)) ↔ row ∈ pw_blobs (uw_pack w) ∧ be_oid row ∈ live_blobs live.
Proof.
  change (pw_blobs (uw_pack (tables_pruned live C w))) with (rows_in be_oid (live_blobs live) (pw_blobs (uw_pack w))).
  unfold rows_in. by rewrite elem_of_filter_bool, bset_contains_true.
Qed.

Lemma tables_pruned_packs live C w row id :
  row ∈ pw_blobs (uw_pack (tables_pruned live C w)) → be_pack_id row = Some id →
  pw_packs (uw_pack (tables_pruned live C w)) !! id = pw_packs (uw_pack w) !! id.
Proof.
  intros Hrow Hid.
  change (pw_packs (uw_pack (tables_pruned live C w))) with
    (base.filter (λ kv, pack_used (pw_blobs (uw_pack (tables_pruned live C w))) kv.1 = true) (pw_packs (uw_pack w))).
  apply option_eq. intros p. rewrite map_lookup_filter_Some. split; [by intros [? _]|]. intros Hp. split; [done|]. simpl.
  apply existsb_exists. exists row. split; [by apply list_elem_of_In|]. by apply bool_decide_eq_true.
Qed.

Lemma transaction_done {A} (m : stm PruneWorld A) w a w' : m w = (Done a, w') → transaction m w = (Done a, w').
Proof. intros Hm. unfold transaction. by rewrite Hm. Qed.

Lemma pruned_facts w D live C c w' :
  (∀ s r, s ∈ remaining D (uw_snapshots w) → snapshot_record (uw_store w) s r → record_live live r) →
  (∀ oid row (m : LargeManifest) ch, keys_in (live_large_objects live) (sw_large_objects (uw_store w)) !! oid = Some row →
    holds_json (uw_store w) row.2 m → ch ∈ lm_chunks m → lc_oid ch ∈ C) →
  reindexed (tables_pruned live C (uw_with_codec (without_snapshots D w) c)) w' →
  pruned w D (delete_snapshot_payload_indexes_without_snapshots w').2.
Proof.
  intros Hrec HC Hre. set (w3 := tables_pruned live C _) in *.
  set (w5 := (delete_snapshot_payload_indexes_without_snapshots w').2).
  assert (Hst : uw_store w5 = uw_store w') by done.
  assert (Hbl : pw_blobs (uw_pack w5) = pw_blobs (uw_pack w3)) by (unfold w5; simpl; by rewrite (ri_world _ _ Hre)).
  assert (Hlg : sw_large_objects (uw_store w5) = keys_in (live_large_objects live) (sw_large_objects (uw_store w)))
    by (rewrite Hst, (ri_store _ _ Hre); done).
  assert (Hch : sw_chunks (uw_store w5) = keys_in C (sw_chunks (uw_store w))) by (rewrite Hst, (ri_store _ _ Hre); done).
  assert (Hsn : uw_snapshots w5 = remaining D (uw_snapshots w)) by (unfold w5; simpl; by rewrite (ri_world _ _ Hre)).
  split; [done| | | | | | | |].
  - rewrite Hst. etrans; [|exact (ri_objects _ _ Hre)]. by apply extends_same.
  - rewrite Hst. apply Hre.
  - intros row. rewrite Hbl. by intros [? _]%tables_pruned_blobs.
  - intros s r Hs Hr. rewrite Hsn in Hs. destruct (Hrec s r Hs Hr) as [Hb Hl]. split.
    + intros oid key row Hp Hrow <-. rewrite Hbl. apply tables_pruned_blobs. split; [done|]. by eapply Hb.
    + intros oid mk k Hp. rewrite Hlg. apply keys_in_lookup. by eapply Hl.
  - intros row id Hrow Hid. rewrite Hbl in Hrow. pose proof (ri_packs _ _ Hre id) as Hkeys.
    assert (Hp3 : pw_packs (uw_pack w3) !! id = pw_packs (uw_pack w) !! id) by exact (tables_pruned_packs _ _ _ _ _ Hrow Hid).
    by rewrite Hp3 in Hkeys.
  - intros oid row m ch Hrow Hm Hin. rewrite Hch. apply keys_in_lookup. rewrite Hlg in Hrow. by eapply HC.
  - unfold w5; simpl; by rewrite (ri_world _ _ Hre).
  - unfold w5; simpl; by rewrite (ri_world _ _ Hre).
Qed.

Lemma tables_indexes_run w D live C c :
  prune_ok w → oc_inv c → let w3 := tables_pruned live C (uw_with_codec (without_snapshots D w) c) in
  ∃ n w4, prune_stale_pack_indexes env w3 = (Done n, w4) ∧ reindexed w3 w4.
Proof.
  intros Hok Hc w3. apply (stale_indexes_run w3 (query_packs (uw_pack w3)) 0); [done|exact (po_generations _ Hok)|].
  intros pack (id & Hp)%elem_of_query_packs.
  assert (Hpw : pw_packs (uw_pack w) !! id = Some pack).
  { revert Hp. change (pw_packs (uw_pack w3)) with
      (base.filter (λ kv, pack_used (pw_blobs (uw_pack w3)) kv.1 = true) (pw_packs (uw_pack w))).
    rewrite map_lookup_filter_Some. by intros [? _]. }
  destruct (po_packs _ Hok _ _ Hpw) as (<- & Hk & index & Hi). split_and!; [done| |by rewrite Hp].
  exists index. eapply holds_json_extends; [|exact Hi]. by apply extends_same.
Qed.

Lemma transaction_run w D remote :
  prune_ok w → gn_remote (un_gc env) = Ok remote →
  ∃ stats w', prune_transaction env D w = (Done stats, w') ∧ pruned w D w'.
Proof.
  intros Hok Hremote. destruct (live_stage w D remote Hok) as (live & (c & Hc & Hlive) & Hrec).
  set (w1 := uw_with_codec (without_snapshots D w) c) in *.
  set (w2 := (delete_pins_not_in (live_large_objects live)
    (delete_large_objects_not_in (live_large_objects live) (delete_blobs_not_in (live_blobs live) w1).2).2).2).
  assert (Hbase : ∀ k (m : LargeManifest), holds_json (uw_store w) k m → holds_json (uw_store w2) k m)
    by (intros k m; by apply holds_json_extends, extends_same).
  assert (Hlarge2 : sw_large_objects (uw_store w2) = keys_in (live_large_objects live) (sw_large_objects (uw_store w))) by done.
  destruct (live_chunks_reads (uw_store w2) remote [] (large_manifest_keys (sw_large_objects (uw_store w2)))) as (C & HCr & _ & HC).
  { done. }
  { apply Forall_forall. intros k (oid & row & Hrow & ->)%elem_of_large_manifest_keys. rewrite Hlarge2 in Hrow.
    apply keys_in_Some in Hrow as [_ Hrow]. destruct (po_large _ Hok _ _ Hrow) as (Hp & m & Hm). split; [done|]. exists m. by apply Hbase. }
  destruct (preads_store w2 _ _ HCr c Hc) as (c2 & Hc2 & HCrun).
  assert (Hw2 : uw_with_codec w2 c = w2) by by destruct w as [[[[]]]]. rewrite Hw2 in HCrun.
  destruct (tables_indexes_run w D live C c2 Hok Hc2) as (n & w4 & Hidx & Hre).
  eexists _, (delete_snapshot_payload_indexes_without_snapshots w4).2. split.
  - apply transaction_done. eapply bind_run; [reflexivity|]. fold (without_snapshots D w).
    unfold prune_unreferenced_metadata. rewrite Hremote.
    eapply bind_run; [reflexivity|]. eapply bind_run; [reflexivity|]. eapply bind_run; [exact Hlive|].
    do 3 (eapply bind_run; [reflexivity|]). eapply bind_run; [eapply bind_run; [reflexivity|exact HCrun]|].
    cbv iota beta. do 2 (eapply bind_run; [reflexivity|]). eapply bind_run; [exact Hidx|].
    eapply bind_run; [reflexivity|]. reflexivity.
  - eapply pruned_facts; [exact Hrec| |exact Hre]. intros oid row m ch Hrow Hm Hin.
    eapply (HC row.2 m); [|by apply Hbase|done]. apply elem_of_large_manifest_keys. exists oid, row. by rewrite Hlarge2.
Qed.

(** ** [mj prune] keeps what the snapshots left need *)

Lemma manifest_is_extends w w' s m : extends w w' → snapshot_manifest_is w s m → snapshot_manifest_is w' s m.
Proof. intros He. unfold snapshot_manifest_is. destruct (is_empty _); [by apply holds_json_extends|done]. Qed.

Lemma pruned_gc_ok w D w' : prune_ok w → pruned w D w' → gc_ok depth (uw_gc w').
Proof.
  intros Hok Hpr. destruct (po_gc _ Hok) as [_ Hids Hkeys Hrows].
  assert (Hsn : gw_snapshots (uw_gc w') = remaining D (gw_snapshots (uw_gc w))) by apply Hpr.
  split; rewrite ?Hsn; [apply Hpr|by apply NoDup_map_filter..|].
  apply Forall_forall. intros s [Hs _]%elem_of_remaining.
  destruct (proj1 (Forall_forall _ _) Hrows s Hs) as (Hv & m & Hm & Hall). split; [done|]. exists m. split.
  - eapply manifest_is_extends; [apply Hpr|done].
  - eapply Forall_impl; [exact Hall|]. intros rt. apply root_complete_extends.
    intros k v [Hout Hk]%without_lookup_Some. rewrite without_lookup; [by apply (pd_objects _ _ _ Hpr)|].
    intros (s' & -> & [Hs' _]%elem_of_remaining)%list_elem_of_fmap. apply Hout. by apply list_elem_of_fmap_2.
Qed.

Section Records.
Context (w : PruneWorld) (D : list string).

Definition file_kept (w' : PruneWorld) (k : string) : Prop :=
  k ∉ manifest_keys (uw_snapshots w) → ∀ v, sw_objects (uw_store w) !! k = Some v → sw_objects (uw_store w') !! k = Some v.

(** The rows and objects of a record are as they were: of a blob its row and its file or
    pack, of a large object its row, its manifest and its chunks. *)
Definition record_kept (w' : PruneWorld) (r : FileRecord) : Prop :=
  (∀ oid key row, payload_blob_ref (fr_payload r) = Some (oid, key) → row ∈ pw_blobs (uw_pack w) → be_oid row = oid →
    row ∈ pw_blobs (uw_pack w') ∧ (be_pack_id row = None → file_kept w' (be_object_key row)) ∧
    ∀ id pack, be_pack_id row = Some id → pw_packs (uw_pack w) !! id = Some pack →
      file_kept w' (pk_pack_key pack) ∧ pk_pack_key <$> pw_packs (uw_pack w') !! id = Some (pk_pack_key pack)) ∧
  (∀ oid mk n, payload_large_ref (fr_payload r) = Some (oid, mk, n) →
    sw_large_objects (uw_store w') !! oid = sw_large_objects (uw_store w) !! oid ∧ file_kept w' mk ∧
    ∀ (m : LargeManifest) c, holds_json (uw_store w) mk m → c ∈ lm_chunks m → file_kept w' (lc_object_key c)).

(** The state after garbage collection. *)
Record collected (w1 w' : PruneWorld) : Prop := {
  cl_blobs : pw_blobs (uw_pack w') = pw_blobs (uw_pack w1);
  cl_packs : pw_packs (uw_pack w') = pw_packs (uw_pack w1);
  cl_tables : large_tables (uw_gc w') = large_tables (uw_gc w1);
  cl_files k : gc_reached depth (uw_gc w1) k → k ∉ manifest_keys (uw_snapshots w1) →
    sw_objects (uw_store w') !! k = sw_objects (uw_store w1) !! k;
}.

Lemma collected_keeps w1 w' s r :
  prune_ok w → pruned w D w1 → collected w1 w' → s ∈ remaining D (uw_snapshots w) → snapshot_record (uw_store w) s r →
  record_kept w' r.
Proof.
  intros Hok Hpr Hcl Hs Hr.
  assert (Hsn : s ∈ uw_snapshots w1) by (by rewrite (pd_snapshots _ _ _ Hpr)).
  destruct (pd_kept _ _ _ Hpr s r Hsn Hr) as [Hblob Hlarge].
  destruct Hr as (m & rt & es & Hm & Hrt & Hes & Hin). pose proof (pd_objects _ _ _ Hpr) as He.
  assert (Hneed : ∀ k, record_needs (uw_store w1) (pw_blobs (uw_pack w1)) (query_packs (uw_pack w1)) r k → file_kept w' k).
  { intros k Hk Hout v Hv. rewrite (cl_files _ _ Hcl); [by apply He| |].
    - eapply reach_root; [simpl; rewrite sort_by_perm; exact Hsn|by eapply manifest_is_extends|exact Hrt|].
      eapply ron_record; [by eapply tree_at_extends|exact Hin|exact Hk].
    - rewrite (pd_snapshots _ _ _ Hpr). intros (s' & -> & [Hs' _]%elem_of_remaining)%list_elem_of_fmap.
      apply Hout. by apply list_elem_of_fmap_2. }
  split.
  - intros oid key row Hp Hrow Hoid. pose proof (Hblob _ _ _ Hp Hrow Hoid) as Hrow1.
    rewrite (cl_blobs _ _ Hcl). split_and!; [done| |].
    + intros Hid. apply Hneed. by eapply rk_loose.
    + intros id pack Hid Hpack. pose proof (pd_packs _ _ _ Hpr row id Hrow1 Hid) as Hkeys. rewrite Hpack in Hkeys.
      destruct (pw_packs (uw_pack w1) !! id) as [pack1|] eqn:Hpack1; [|done]. injection Hkeys as Hid1 Hkey1.
      destruct (po_packs _ Hok _ _ Hpack) as (Hpid & _). split; [|by rewrite (cl_packs _ _ Hcl), Hpack1; simpl; f_equal].
      rewrite <-Hkey1. apply Hneed. eapply rk_pack; [done..| |congruence]. apply elem_of_query_packs. by exists id.
  - intros oid mk n Hp. split_and!.
    + rewrite <-(Hlarge _ _ _ Hp). exact (f_equal (λ t : _ * _, t.1 !! oid) (cl_tables _ _ Hcl)).
    + apply Hneed. by eapply rk_manifest.
    + intros lm c Hlm Hc. apply Hneed. eapply rk_chunk; [done| |done]. by eapply holds_json_extends.
Qed.
End Records.

(** *** The state of the codec does not matter *)

Lemma node_visits_extends d w w' key rs : extends w w' → node_visits d w key rs → node_visits d w' key rs.
Proof.
  revert key rs. induction d as [|d IH]; intros key rs He; simpl; [done|].
  intros (node & parts & Hh & Hf & ->). exists node, parts.
  split_and!; [by eapply holds_json_extends| |done]. eapply Forall2_impl; [done|]. eauto.
Qed.
Lemma tree_visits_extends w w' key rs : extends w w' → tree_visits w key rs → tree_visits w' key rs.
Proof.
  intros He (tree & Hh & Ht). exists tree. split; [by eapply holds_json_extends|].
  destruct (tm_entries tree), (tm_root_node tree); eauto using node_visits_extends.
Qed.
Lemma record_ok_extends w w' r : extends w w' → record_ok w r → record_ok w' r.
Proof. intros He Hr oid mk n Hp. destruct (Hr _ _ _ Hp) as (Hk & m & Hm). split; [done|]. exists m. by eapply holds_json_extends. Qed.
Lemma snapshot_ok_extends w w' s : extends w w' → snapshot_ok w s → snapshot_ok w' s.
Proof.
  intros He (m & Hm & Hflat & Htrees). exists m. split_and!; [by eapply manifest_is_extends|eapply Forall_impl; [exact Hflat|]; intros r; by apply record_ok_extends|].
  eapply Forall_impl; [exact Htrees|]. intros rt ((es & Hes) & rs & Hv & Hok).
  split; [exists es; by eapply tree_at_extends|]. exists rs. split; [by eapply tree_visits_extends|].
  eapply Forall_impl; [exact Hok|]. intros r. by apply record_ok_extends.
Qed.
Lemma snapshot_record_extends w w' s r : extends w w' → snapshot_record w s r → snapshot_record w' s r.
Proof.
  intros He (m & rt & es & Hm & Hrt & Hes & Hr). exists m, rt, es.
  split_and!; [by eapply manifest_is_extends|done|by eapply tree_at_extends|done].
Qed.

Lemma prune_ok_codec w c : oc_inv c → prune_ok w → prune_ok (uw_with_codec w c).
Proof.
  intros Hc [[Hgc Hids Hkeys Hrows] Ht Hs Hl Hp Hi Hg].
  assert (He : extends (uw_store w) (uw_store (uw_with_codec w c))) by by apply extends_same.
  split; [|done| | | | |done].
  - split; [done..|]. eapply Forall_impl; [exact Hrows|]. intros s (Hv & m & Hm & Hall). split; [done|]. exists m. split; [done|].
    eapply Forall_impl; [exact Hall|]. intros rt. apply root_complete_extends. by apply without_agree.
  - eapply Forall_impl; [exact Hs|]. intros s. by apply snapshot_ok_extends.
  - exact Hl.
  - exact Hp.
  - intros s r Hin Hidx Hr. apply Hi; [done..|]. eapply snapshot_record_extends; [|exact Hr]. by apply extends_same.
Qed.

Lemma prune_cmd_run w args queued remote :
  prune_ok w → 0 <= pa_keep_daily args → 0 <= pa_keep_monthly args →
  pa_dry_run args = false → pa_drop_missing_remote_history args = false → pa_remote_cleanup args = false →
  gn_remote (un_gc env) = Ok remote → queued_local_object_keys (un_gc env) = Ok queued →
  ∃ D r w', prune_cmd env args w = (r, w') ∧
    (∀ id, id ∈ D ↔ id ∈ map se_id (uw_snapshots w) ∧ (¬ protected w id) ∧
      ¬ ∃ before x after, prune_inputs w = before ++ x :: after ∧ spi_id x = id ∧
          retained (pa_keep_daily args) (pa_keep_monthly args) before x) ∧
    map se_id (uw_snapshots w') = map se_id (remaining D (uw_snapshots w)) ∧ gc_ok depth (uw_gc w') ∧
    (∀ s r, s ∈ remaining D (uw_snapshots w) → snapshot_record (uw_store w) s r → record_kept w w' r) ∧
    ((∀ k, gn_unremovable (un_gc env) k = false) → r = Done tt).
Proof.
  intros Hok Hkd Hkm Hdry Hdrop Hclean Hremote Hq. pose proof (po_gc _ Hok) as [Hc Hids _ Hrows].
  destruct (build_prune_plan_reads w Hc Hids) with (args := args) as (plan & Hplan & Hdel); [|exact (po_times _ Hok)|done..|].
  { eapply Forall_impl; [exact Hrows|]. intros s (_ & m & Hm & _). by exists m. }
  destruct (Hplan _ Hc) as (c & Hc' & Hrun). set (w0 := uw_with_codec w c) in *.
  assert (Hw : uw_with_codec w (sw_codec (gw_store (uw_gc w))) = w) by by destruct w as [[[[]]]]. rewrite Hw in Hrun.
  destruct (transaction_run w0 (pl_delete plan) remote) as (stats & w1 & Htx & Hpr); [by apply prune_ok_codec|done|].
  set (w2 := (in_gc (in_gc_pack (record_op "prune" ("deleted " +:+ nat_str (length (pl_delete plan)) +:+ " snapshots"))) w1).2).
  assert (Hpr2 : pruned w0 (pl_delete plan) w2) by by destruct Hpr; split.
  assert (Hgc2 : gc_ok depth (uw_gc w2)) by (eapply pruned_gc_ok; [|exact Hpr2]; by apply prune_ok_codec).
  assert (Hcmd : prune_cmd env args w = (if (0 <? length (pl_delete plan))%nat then in_gc (gc_cmd (un_gc env) false) w2
                                         else (Done tt, w2))).
  { unfold prune_cmd. eapply bind_run; [exact Hrun|]. rewrite Hdry. eapply bind_run; [exact Htx|].
    apply (bind_run _ _ _ tt w2); [reflexivity|]. rewrite Hclean. apply (bind_run _ _ _ false w2); [reflexivity|]. unfold stm_bind.
    destruct (0 <? _)%nat; [|done]. by destruct (in_gc _ w2) as [[[]|e|] w3]. }
  assert (Hkeep : ∀ w', collected w2 w' → ∀ s r, s ∈ remaining (pl_delete plan) (uw_snapshots w) →
    snapshot_record (uw_store w) s r → record_kept w w' r).
  { intros w' Hcl s r Hs Hr. refine (collected_keeps w0 (pl_delete plan) w2 w' s r _ Hpr2 Hcl Hs _); [by apply prune_ok_codec|].
    eapply snapshot_record_extends; [|exact Hr]. by apply extends_same. }
  exists (pl_delete plan). rewrite Hcmd. destruct (0 <? length (pl_delete plan))%nat.
  - destruct (gc_run (un_gc env) compact_safe (uw_gc w2) queued Hgc2 Hq) as (r & g & Hgc & Hok' & Hb & Hp & Hl & Hdone & Hfail & Hfiles & Hall).
    exists r, (uw_with_gc w2 g). split_and!; [unfold in_gc; by rewrite Hgc|exact Hdel| |exact Hok'| |].
    + change (remaining (pl_delete plan) (uw_snapshots w)) with (remaining (pl_delete plan) (uw_snapshots w0)).
      rewrite <-(pd_snapshots _ _ _ Hpr2). change (uw_snapshots (uw_with_gc w2 g)) with (gw_snapshots g).
      destruct r as [[]|e|]; [|by rewrite Hfail..]. pose proof (Hdone eq_refl) as Hsame. unfold same_roots in Hsame.
      change (gw_snapshots (uw_gc w2)) with (uw_snapshots w2) in Hsame.
      clear -Hsame. induction Hsame as [|s s' l l' (He & _) _ IH]; [done|]. simpl. by rewrite He, IH.
    + apply Hkeep. split; [done..|]. intros k Hk Hout. apply Hfiles; [by left|done].
    + intros Hun. by destruct (Hall Hun).
  - exists (Done tt), w2. split_and!; [done|exact Hdel|by rewrite (pd_snapshots _ _ _ Hpr2)|done| |done].
    apply Hkeep. by split.
Qed.
(** C9. Pruning keeps what the remaining snapshots need.  Let the catalogue be in order (the
    times, manifests and trees of the snapshots, and the objects that rows of large objects and
    packs name, can be read), the payload index of every snapshot marked as indexed be complete
    (which [forget_loses_other_roots] shows the program can break), and [mj prune] run without
    [--dry-run], without [--drop-missing-remote-history] and without the cleanup of the remote.
    Then it deletes exactly the snapshots that the policy does not retain and that neither a
    reference names nor are the first of a root; the snapshots left are complete, for every
    record in their trees the blob keeps its row and its file or pack, the large object its
    row, its manifest and its chunks, and the command succeeds when no file resists removal. *)
Theorem prune_keeps_snapshots w args queued remote :
  prune_ok w → 0 <= pa_keep_daily args → 0 <= pa_keep_monthly args →
  pa_dry_run args = false → pa_drop_missing_remote_history args = false → pa_remote_cleanup args = false →
  gn_remote (un_gc env) = Ok remote → queued_local_object_keys (un_gc env) = Ok queued →
  ∃ D r w', prune_cmd env args w = (r, w') ∧
    (∀ id, id ∈ D ↔ id ∈ map se_id (uw_snapshots w) ∧ (¬ protected w id) ∧
      ¬ ∃ before x after, prune_inputs w = before ++ x :: after ∧ spi_id x = id ∧
          retained (pa_keep_daily args) (pa_keep_monthly args) before x) ∧
    map se_id (uw_snapshots w') = map se_id (remaining D (uw_snapshots w)) ∧ gc_ok depth (uw_gc w') ∧
    (∀ s r, s ∈ remaining D (uw_snapshots w) → snapshot_record (uw_store w) s r → record_kept w w' r) ∧
    ((∀ k, gn_unremovable (un_gc env) k = false) → r = Done tt).
Proof. apply prune_cmd_run. Qed.

End Kept.

(** ** The current snapshot *)

Section Current.
Context `{!ObjectCodec, !Chrono, !Blake3, !Zstd, !Serde TreeNodeManifest, !Serde TreeManifest, !Serde PackIndex,
          !Serde LargeManifest, !Serde SnapshotManifest, !ManifestValue, !ValueRead, !WalkDir}.
Context (env : PruneEnv).

Lemma missing_loop_not_current export keys c rows w missing w' :
  missing_loop env export keys (Some c) rows w = (Done missing, w') → c ∉ missing.*1.
Proof.
  revert w missing w'. induction rows as [|s rows IH]; intros w missing w'; cbn [missing_loop].
  { intros [= <- _]. set_solver. }
  case_bool_decide as Hcur; [apply IH|]. intros (found & w1 & _ & Hrun)%stm_bind_Done. destruct found as [ks|].
  - apply stm_bind_Done in Hrun as (more & w2 & Hmore & Hret). injection Hret as <- _. apply IH in Hmore.
    destruct (0 <? _)%nat; [|done]. simpl. intros [Hs|?]%elem_of_cons; [congruence|done].
  - destruct (remote_payload_index_contains keys _); [done|].
    apply stm_bind_Done in Hrun as (more & w2 & Hmore & Hret). injection Hret as <- _. apply IH in Hmore.
    simpl. intros [Hs|?]%elem_of_cons; [congruence|done].
Qed.

Lemma missing_not_current c w missing w' :
  missing_remote_history_snapshots env (Some c) w = (Done missing, w') → c ∉ missing.*1.
Proof.
  unfold missing_remote_history_snapshots. intros (remote & w1 & _ & H1')%stm_bind_Done.
  destruct remote as [remote|]; [|injection H1' as <- _; set_solver].
  destruct (rm_is_master_proxy remote); [done|].
  do 3 (apply stm_bind_Done in H1' as (? & ? & _ & H1')). by apply missing_loop_not_current in H1'.
Qed.

Lemma drop_missing_delete missing keep delete id :
  id ∈ (fold_left drop_missing missing (keep, delete)).2 → id ∈ delete ∨ id ∈ missing.*1.
Proof.
  revert keep delete. induction missing as [|[x n] missing IH]; intros keep delete; simpl; [by left|].
  intros [Hin|?]%IH; [|set_solver]. destruct (existsb _ delete); [by left|]. set_solver.
Qed.

(** C34. The current snapshot is always kept: whatever the policy, the references and the
    remote are, and with [--drop-missing-remote-history] as without, no plan deletes it. *)
Theorem prune_never_deletes_current args w plan w' c :
  0 <= pa_keep_daily args → 0 <= pa_keep_monthly args → current_snapshot w = Some c →
  build_prune_plan env args w = (Done plan, w') → c ∉ pl_delete plan.
Proof.
  intros Hd Hm Hcur. unfold build_prune_plan.
  intros (cur & w1 & [= <- <-] & Hrun)%stm_bind_Done. apply stm_bind_Done in Hrun as (rows & w2 & [= <- <-] & Hrun).
  apply stm_bind_Done in Hrun as (inputs & w3 & _ & Hrun). apply stm_bind_Done in Hrun as (prot & w4 & _ & Hrun).
  rewrite Hcur in Hrun. set (plan0 := build_snapshot_prune_plan inputs (Some c) _ _) in Hrun.
  assert (Hout : c ∉ List.filter (λ id, negb (bset_contains prot id)) (spp_delete plan0)).
  { intros [Hin _]%elem_of_filter_bool. destruct (prune_plan_members inputs (Some c) _ _ Hd Hm) as (Hkeep & Hdel & _).
    apply Hdel in Hin as [_ Hno]. apply Hno, Hkeep. by left. }
  destruct (pa_drop_missing_remote_history args); [|by injection Hrun as <- _].
  apply stm_bind_Done in Hrun as (missing & w5 & Hmiss & Hrun). apply missing_not_current in Hmiss.
  destruct (fold_left drop_missing missing _) as [keep delete] eqn:Hfold. injection Hrun as <- _. simpl.
  unfold sort_dedup. rewrite elem_of_dedup, sort_by_perm. intros Hin.
  change delete with ((keep, delete).2) in Hin. rewrite <-Hfold in Hin. by apply drop_missing_delete in Hin as [].
Qed.
End Current.

(** ** A concrete store *)

Module PruneExample.
Import CryptoExample LargeStoreExample CoreExample PackStoreExample RemoteExample TreesExample GcExample.

Definition old_manifest : SnapshotManifest :=
  {| sm_snapshot_id := "snap-0"; sm_parent := None; sm_op_id := "op-0"; sm_timestamp := 0; sm_root_trees := []; sm_roots := [] |}.
Definition old_row : SnapshotExport := {|
  se_id := "snap-0"; se_parent_id := None; se_op_id := "op-0"; se_created_at := to_rfc3339 0;
  se_manifest_key := "objects/blobs/nn/n"; se_manifest_json := "" |}.
Definition new_row : SnapshotExport := {|
  se_id := "snap-1"; se_parent_id := None; se_op_id := "op-1"; se_created_at := to_rfc3339 1;
  se_manifest_key := "objects/blobs/mm/m"; se_manifest_json := "" |}.

(** The store of [GcExample] with an older, empty snapshot. *)
Definition prune_world : PruneWorld := {|
  uw_gc := {|
    gw_pack := {|
      pw_store := sw_with_objects ex_empty (<["objects/blobs/nn/n" := json_to_vec old_manifest]>
        (gw_files (gc_world (gc_manifest gc_trees []))));
      pw_blobs := [BlobExport_new "o" 2 "objects/blobs/aa/bb"]; pw_packs := ∅; pw_payloads := []; pw_ops := [];
      pw_current := Some "snap-1"; pw_reader := None; pw_tick := 0 |};
    gw_snapshots := [new_row; old_row] |};
  uw_refs := []; uw_roots := []; uw_pins := []; uw_indexed := []; uw_payloads := [] |}.
Definition prune_env : PruneEnv := {|
  un_gc := gc_env; un_list := λ _, Ok []; un_remote_is_cluster := false; un_sync := stm_ret tt |}.
Definition prune_args : PruneArgs := {|
  pa_keep_daily := 0; pa_keep_monthly := 0; pa_dry_run := false; pa_drop_missing_remote_history := false;
  pa_remote_cleanup := false |}.

Lemma prune_tree_at M : "objects/trees/cc/dd" ∉ M → holds_json (sw_without M (uw_store prune_world)) "objects/trees/cc/dd" gc_tree.
Proof. intros HM. apply gc_holds; [|reflexivity]. rewrite without_lookup by done. reflexivity. Qed.

Lemma prune_world_ok : prune_ok prune_env prune_world.
Proof.
  assert (Hnew : snapshot_manifest_is (uw_store prune_world) new_row (gc_manifest gc_trees [])) by (apply (gc_holds (T := SnapshotManifest)); reflexivity).
  assert (Hold : snapshot_manifest_is (uw_store prune_world) old_row old_manifest) by (apply (gc_holds (T := SnapshotManifest)); reflexivity).
  assert (Htree : holds_json (uw_store prune_world) "objects/trees/cc/dd" gc_tree) by (apply gc_holds; reflexivity).
  assert (Hrec : ∀ w, record_ok prune_env w gc_file) by (intros w ? ? ?; discriminate).
  split.
  - split; [apply ex_key_inv|repeat constructor; set_solver|repeat constructor; set_solver|].
    repeat constructor; [exists (gc_manifest gc_trees [])|exists old_manifest]; (split; [done|]); repeat constructor.
    exists gc_tree, [("f", gc_file)].
    assert (HM : "objects/trees/cc/dd" ∉ manifest_keys (gw_snapshots (uw_gc prune_world))) by (unfold manifest_keys; simpl; set_solver).
    split_and!; [by apply prune_tree_at|constructor|exists gc_tree; split; [by apply prune_tree_at|done]|].
    repeat constructor. discriminate.
  - by repeat constructor.
  - repeat constructor; [exists (gc_manifest gc_trees [])|exists old_manifest]; (split; [done|]); repeat constructor.
    + exists [("f", gc_file)], gc_tree. by split.
    + exists [gc_file]. split; [exists gc_tree; by split|]. apply Forall_singleton, Hrec.
  - intros oid row Hrow. change ((∅ : gmap string (Z * Z * string)) !! oid = Some row) in Hrow. by rewrite lookup_empty in Hrow.
  - intros id pack Hp. change ((∅ : gmap string PackExport) !! id = Some pack) in Hp. by rewrite lookup_empty in Hp.
  - intros s r _ Hin. by apply elem_of_nil in Hin.
  - intros id bytes v Hv. exfalso.
    change (sw_objects (uw_store prune_world)) with (<["objects/blobs/nn/n" := json_to_vec old_manifest]>
      (<["objects/blobs/mm/m" := json_to_vec (gc_manifest gc_trees [])]> (<["objects/trees/cc/dd" := json_to_vec gc_tree]>
      (<["objects/blobs/aa/bb" := [1; 2]]> ({["objects/blobs/zz/z" := [3]]} : gmap string (list Z)))))) in Hv.
    rewrite !lookup_insert_ne, lookup_singleton_ne in Hv by discriminate. discriminate Hv.
Qed.

Lemma prune_blob_record : snapshot_record prune_env (uw_store prune_world) new_row gc_file.
Proof.
  exists (gc_manifest gc_trees []), {| rs_tree_id := "tree-1"; rs_tree_key := "objects/trees/cc/dd"; rs_file_count := 1 |}, [("f", gc_file)].
  split_and!; [apply (gc_holds (T := SnapshotManifest)); reflexivity|apply list_elem_of_here| |apply list_elem_of_here].
  exists gc_tree. split; [|done]. apply gc_holds; reflexivity.
Qed.

Lemma prune_keeps_snapshots_witness :
  ∃ w', prune_cmd prune_env prune_args prune_world = (Done tt, w') ∧ map se_id (uw_snapshots w') = ["snap-1"] ∧
    sw_objects (uw_store w') !! "objects/blobs/aa/bb" = Some [1; 2].
Proof.
  destruct (prune_keeps_snapshots (H := ex_codec) prune_env) with (w := prune_world) (args := prune_args)
    (queued := @nil string) (remote := @None Remote) as (D & r & w' & Hrun & HD & Hids & _ & Hkeep & Hdone).
  - intros m. apply ex_safe2. simpl. lia.
  - apply prune_world_ok.
  - reflexivity.
  - reflexivity.
  - reflexivity.
  - reflexivity.
  - reflexivity.
  - reflexivity.
  - reflexivity.
  - assert (Hnew : "snap-1" ∉ D) by (intros (_ & Hno & _)%HD; apply Hno; left; reflexivity).
    assert (Hold : "snap-0" ∈ D).
    { apply HD. split_and!; [apply list_elem_of_further, list_elem_of_here| |].
      - intros [Hc|[Hr|(root & Hr & _)]]; [discriminate Hc|by apply elem_of_nil in Hr..].
      - intros (before & x & after & _ & _ & [[_ Hlt]|[_ Hlt]]); simpl in Hlt; lia. }
    rewrite (Hdone (λ _, eq_refl)) in Hrun. exists w'. split; [exact Hrun|].
    assert (Hrem : remaining D (uw_snapshots prune_world) = [new_row]).
    { unfold remaining. change (uw_snapshots prune_world) with [new_row; old_row]. cbn [List.filter].
      change (se_id new_row) with "snap-1". change (se_id old_row) with "snap-0". rewrite (proj2 (existsb_elem "snap-0" D) Hold).
      destruct (existsb (String.eqb "snap-1") D) eqn:He; [destruct (Hnew (proj1 (existsb_elem _ _) He))|reflexivity]. }
    split; [by rewrite Hids, Hrem|].
    destruct (Hkeep new_row gc_file) as [Hblob _]; [rewrite Hrem; apply list_elem_of_here|apply prune_blob_record|].
    destruct (Hblob "o" "objects/blobs/aa/bb" (BlobExport_new "o" 2 "objects/blobs/aa/bb") eq_refl) as (_ & Hfile & _);
      [apply list_elem_of_here|reflexivity|]. apply Hfile; [reflexivity| |reflexivity].
    intros Hin. apply elem_of_cons in Hin as [Hin|Hin%list_elem_of_singleton]; discriminate Hin.
Defined.

Lemma prune_plan_computed : ∃ plan w', build_prune_plan prune_env prune_args prune_world = (Done plan, w').
Proof.
  destruct (po_gc _ _ prune_world_ok) as [Hc Hids _ Hrows].
  destruct (build_prune_plan_reads (H := ex_codec) prune_env prune_world Hc Hids) with (args := prune_args) as (plan & Hplan & _).
  - eapply Forall_impl; [exact Hrows|]. intros s (_ & m & Hm & _). by exists m.
  - exact (po_times _ _ prune_world_ok).
  - reflexivity.
  - reflexivity.
  - reflexivity.
  - destruct (Hplan _ Hc) as (c & _ & Hrun). eauto.
Qed.

Lemma prune_never_deletes_current_witness :
  ∃ plan w', build_prune_plan prune_env prune_args prune_world = (Done plan, w') ∧ "snap-1" ∉ pl_delete plan.
Proof.
  destruct prune_plan_computed as (plan & w' & Hrun). exists plan, w'. split; [exact Hrun|].
  apply (prune_never_deletes_current (H := ex_codec) prune_env prune_args prune_world plan w'); [reflexivity..|exact Hrun].
Defined.
End PruneExample.
