(* ===== verification/RestoreApply.v ===== *)
(** * Applying a restore plan

    [src/restore_apply.rs] and the part of [src/restore_runtime.rs] that carries a plan
    out: deleting what the snapshot does not have, making directories, files, links and
    special files below the bases of the plan, refusing to go through symbolic links,
    and setting metadata.  The file system is that of [LinkFs]; the contents of blobs and
    large files come from the object store through [RestoreSource]. *)

From S2P Require Import Prelude RStr BTree Util Core AtomicIo LinkFs.

(** ** Plans *)

Record RestoreDelete := { rd_root_id : string; rd_path : string }.
Record RestorePlan := {
  rp_to : option string;
  rp_root_paths : list (string * string);
  rp_files : list FileRecord;
  rp_deletes : list RestoreDelete;
}.

(** What the object store gives a restore, base64, and the fetching of objects that
    are only on the remote. *)
Class RestoreSource := {
  read_blob_payload : string → string → result (list Z) string;
  read_manifest : string → result LargeManifest string;
  read_large_chunk : LargeChunk → result (list Z) string;
  base64_decode : string → result (list Z) string;
  prefetch : RestorePlan → result unit string;
}.

Definition validate_restore_relative_path (path : string) : result unit string :=
  if existsb (λ c, match c with Normal _ => false | _ => true end) (path_components path)
  then Err ("restore path must stay inside its root: " +:+ path)
  else match path_components path with [] => Err "restore path must not be empty" | _ => Ok tt end.

Definition restore_root_base (to : option string) (root_paths : list (string * string)) (root_id : string) :
    result string string :=
  match to with
  | Some to => Ok (path_join to root_id)
  | None => match bmap_get root_paths root_id with
            | Some root => Ok root
            | None => Err ("snapshot root is not configured locally: " +:+ root_id) end
  end.

Definition restore_destination (plan : RestorePlan) (record : FileRecord) : result string string :=
  let? _ := validate_restore_relative_path (fr_path record) in
  match rp_to plan with
  | Some to => Ok (path_join (path_join to (fr_root_id record)) (fr_path record))
  | None => match bmap_get (rp_root_paths plan) (fr_root_id record) with
            | Some root => Ok (path_join root (fr_path record))
            | None => Err ("snapshot root is not configured locally: " +:+ fr_root_id record) end
  end.

Definition restore_delete_destination (plan : RestorePlan) (delete : RestoreDelete) : result string string :=
  let? _ := validate_restore_relative_path (rd_path delete) in
  match rp_to plan with
  | Some to => Ok (path_join (path_join to (rd_root_id delete)) (rd_path delete))
  | None => match bmap_get (rp_root_paths plan) (rd_root_id delete) with
            | Some root => Ok (path_join root (rd_path delete))
            | None => Err ("snapshot root is not configured locally: " +:+ rd_root_id delete) end
  end.

Definition restore_plan_output_roots (plan : RestorePlan) : list string :=
  sort_dedup (map fr_root_id (rp_files plan) ++ map rd_root_id (rp_deletes plan)).

(** [Path::strip_prefix] and [Path::starts_with] *)
Fixpoint strip_comps (base cs : list Component) : option (list Component) :=
  match base, cs with
  | [], _ => Some cs
  | b :: base', c :: cs' => if bool_decide (b = c) then strip_comps base' cs' else None
  | _, [] => None
  end.

Definition special_file_kind (meta : Entry) : option string :=
  match en_node meta with NSpecial k => Some k | _ => None end.
Definition restore_special_matches (meta : Entry) (special_kind : string) : bool :=
  bool_decide (special_file_kind meta = Some special_kind).

(** The tests of [symlink_metadata(dest).map(test).unwrap_or(false)]. *)
Definition entry_is (cwd : Loc) (test : Entry → bool) (p : KPath) : lf_m bool :=
  stm_or false (let* meta := symlink_metadata cwd p in stm_ret (test meta)).
(** [if let Ok(meta) = call] *)
Definition stm_try {S A} (m : stm S A) : stm S (option A) := stm_or None (let* a := m in stm_ret (Some a)).

Section Apply.
Context `{!RestoreSource}.
(** The working directory, the mode mask and identity of the process, the random part of
    temporary names. *)
Context (cwd : Loc) (umask euid egid : Z) (uuid : nat → string).

Abbreviation lstat := (symlink_metadata cwd).

(** ** Directories above a destination *)

Definition ensure_directory_path_leaf_without_symlinks (path : list Component) : lf_m unit := λ s,
  match lstat (of_comps path) s with
  | (Done meta, s1) =>
    (if is_link_entry meta then stm_fail "restore path component is a symlink"
     else if negb (is_dir_entry meta) then stm_fail "restore path component is not a directory"
     else stm_ret tt) s1
  | (Fails err, s1) =>
    (if (err =? "NotFound")%string then
       let* _ := create_dir cwd umask euid egid (of_comps path) in
       let* meta := lstat (of_comps path) in
       if is_link_entry meta || negb (is_dir_entry meta) then stm_fail "created restore path is not a directory"
       else stm_ret tt
     else stm_fail err) s1
  | (Panics, s1) => (Panics, s1)
  end.

Fixpoint ensure_components (current rest : list Component) : lf_m unit :=
  match rest with
  | [] => stm_ret tt
  | c :: rest' =>
    let current' := current ++ [c] in
    let* _ := match c with RootDir => stm_ret tt | _ => ensure_directory_path_leaf_without_symlinks current' end in
    ensure_components current' rest'
  end.
Definition ensure_directory_path_without_symlinks (path : string) : lf_m unit :=
  ensure_components [] (path_components path).

Fixpoint ensure_beneath (current rel : list Component) : lf_m unit :=
  match rel with
  | [] => stm_ret tt
  | Normal part :: rel' =>
    let current' := current ++ [Normal part] in
    let* _ := ensure_directory_path_leaf_without_symlinks current' in
    ensure_beneath current' rel'
  | _ => stm_fail "restore parent escapes base"
  end.
Definition ensure_restore_parent_beneath (base dest : string) : lf_m unit :=
  match fs_parent (path_components dest) with
  | None => stm_ret tt
  | Some parent =>
    let* _ := ensure_directory_path_without_symlinks base in
    if bool_decide (parent = path_components base) then stm_ret tt else
    match strip_comps (path_components base) parent with
    | None => stm_fail "restore destination escapes base"
    | Some rel => ensure_beneath (path_components base) rel
    end
  end.

Fixpoint existing_components (current rest : list Component) : lf_m unit :=
  match rest with
  | [] => stm_ret tt
  | c :: rest' =>
    let current' := current ++ [c] in
    match c with
    | RootDir => existing_components current' rest'
    | _ => λ s, match lstat (of_comps current') s with
      | (Done meta, s1) =>
        (if is_link_entry meta then stm_fail "restore path component is a symlink"
         else if negb (is_dir_entry meta) then stm_fail "restore path component is not a directory"
         else existing_components current' rest') s1
      | (Fails err, s1) => if (err =? "NotFound")%string then (Done tt, s1) else (Fails err, s1)
      | (Panics, s1) => (Panics, s1)
      end
    end
  end.
Definition ensure_restore_existing_path_without_symlinks (path : string) : lf_m unit :=
  existing_components [] (path_components path).

Definition validate_restore_plan_destinations (plan : RestorePlan) : lf_m unit :=
  stm_iter (λ root_id, let* base := stm_ok (restore_root_base (rp_to plan) (rp_root_paths plan) root_id) in
                       ensure_restore_existing_path_without_symlinks base) (restore_plan_output_roots plan).

(** ** The destination itself *)

Definition ensure_restore_target_not_symlink (dest : KPath) : lf_m unit :=
  let* link := entry_is cwd is_link_entry dest in
  if link : bool then stm_fail "restore target is a symlink" else stm_ret tt.

Definition prepare_file_restore_destination (dest : KPath) (force : bool) : lf_m unit :=
  let* dir := entry_is cwd is_dir_entry dest in
  if dir : bool then
    if negb force then stm_fail "restore target is a directory" else remove_dir cwd dest
  else stm_ret tt.

Definition prepare_directory_restore_destination (dest : KPath) (force : bool) : lf_m unit :=
  let* meta := stm_try (lstat dest) in
  match meta with
  | None => stm_ret tt
  | Some meta =>
    if is_dir_entry meta then stm_ret tt
    else if negb force then stm_fail "directory restore target exists" else remove_file cwd dest
  end.

Definition restore_symlink (dest : KPath) (target : string) (force : bool) : lf_m unit :=
  let* meta := stm_try (lstat dest) in
  let* _ := match meta with
    | None => stm_ret tt
    | Some meta =>
      if negb force then stm_fail "symlink restore target exists"
      else if is_dir_entry meta then stm_fail "symlink restore target is a directory"
      else remove_file cwd dest
    end in
  symlink cwd umask euid egid target dest.

(** ** Metadata *)

Definition apply_xattrs (dest : KPath) (xattrs : list (string * string)) : lf_m unit :=
  stm_iter (λ '(name, encoded), let* value := stm_ok (base64_decode encoded) in
                                stm_ignore (set_xattr cwd dest name value)) xattrs.

Definition apply_file_owner (dest : KPath) (record : FileRecord) : lf_m unit :=
  match fr_uid record, fr_gid record with
  | Some uid, Some gid => λ s,
    match lchown cwd dest uid gid s with
    | (Fails e, s') => if (e =? "PermissionDenied")%string || (e =? "Unsupported")%string
                       then (Done tt, s') else (Fails e, s')
    | x => x
    end
  | _, _ => stm_ret tt
  end.

Definition set_path_mtime (dest : KPath) (seconds : Z) : lf_m unit := utimens cwd dest seconds.

Definition apply_file_metadata (dest : KPath) (record : FileRecord) : lf_m unit :=
  let* _ := apply_xattrs dest (fr_xattrs record) in
  let* _ := apply_file_owner dest record in
  let* _ := if (fr_mode record =? 0)%Z then stm_ret tt
            else set_permissions cwd dest (Z.land (fr_mode record) 4095) in
  match fr_modified record with Some seconds => set_path_mtime dest seconds | None => stm_ret tt end.

Definition restore_special_file (dest : KPath) (record : FileRecord) (special_kind : string) (force : bool) : lf_m unit :=
  if negb (special_kind =? "fifo")%string then stm_fail "restore of special file kind is not supported" else
  let* meta := stm_try (lstat dest) in
  let make :=
    let mode := if (fr_mode record =? 0)%Z then 438%Z else Z.land (fr_mode record) 4095 in
    let* _ := mkfifo cwd umask euid egid dest mode in
    apply_file_metadata dest record in
  match meta with
  | None => make
  | Some meta =>
    if restore_special_matches meta special_kind then apply_file_metadata dest record
    else if force then let* _ := remove_file cwd dest in make
    else stm_fail "special file restore target exists"
  end.

(** ** Writing a file *)

Definition atomic_temp_path (dest : list Component) : lf_m KPath := λ s,
  let parent := default [CurDir] (fs_parent dest) in
  let file_name := default "restore" (fs_file_name dest) in
  (Done (of_comps (fs_join parent ("." +:+ file_name +:+ ".mjtmp-" +:+ uuid (lf_names s)))), lf_tick s).

Fixpoint create_temp_loop (attempts : nat) (dest : list Component) : lf_m (KPath * Loc) :=
  match attempts with
  | O => stm_fail "failed to allocate temporary restore file"
  | S attempts' =>
    let* tmp := atomic_temp_path dest in
    λ s, match open_new cwd umask euid egid tmp s with
         | (Done file, s') => (Done (tmp, file), s')
         | (Fails e, s') => if (e =? "AlreadyExists")%string then create_temp_loop attempts' dest s' else (Fails e, s')
         | (Panics, s') => (Panics, s')
         end
  end.
Definition create_atomic_temp (dest : list Component) : lf_m (KPath * Loc) := create_temp_loop 16 dest.

(** Pieces of the contents, each read when its turn comes. *)
Definition write_pieces (pieces : list (result (list Z) string)) (file : Loc) : lf_m unit :=
  stm_iter (λ piece, let* bytes := stm_ok piece in write_all file bytes) pieces.

Definition write_atomic_body (pieces : list (result (list Z) string)) (tmp : KPath) (file : Loc) (dest : KPath) : lf_m unit :=
  let* _ := write_pieces pieces file in
  let* _ := sync_all in
  let* _ := rename cwd tmp dest in
  (** [fsync_parent_dir] *)
  sync_all.

Definition write_atomic_with (dest : KPath) (pieces : list (result (list Z) string)) : lf_m unit :=
  let* dir := entry_is cwd is_dir_entry dest in
  if dir : bool then stm_fail "restore target is a directory" else
  let* (tmp, file) := create_atomic_temp (kp_comps dest) in
  λ s, match write_atomic_body pieces tmp file dest s with
       | (Fails e, s') => (Fails e, (stm_ignore (remove_file cwd tmp) s').2)
       | x => x
       end.
Definition write_atomic (dest : KPath) (bytes : list Z) : lf_m unit := write_atomic_with dest [Ok bytes].
Definition write_large_chunks_atomic (dest : KPath) (manifest : LargeManifest) : lf_m unit :=
  write_atomic_with dest (map read_large_chunk (lm_chunks manifest)).

(** ** Conflicts *)

(** The chunks compared with what is left of the file. *)
Fixpoint chunks_match (chunks : list LargeChunk) (current : list Z) : result bool string :=
  match chunks with
  | [] => Ok true
  | chunk :: chunks' =>
    let? expected := read_large_chunk chunk in
    if (length current <? length expected)%nat then Err "UnexpectedEof" else
    if bool_decide (take (length expected) current = expected)
    then chunks_match chunks' (drop (length expected) current) else Ok false
  end.

(** [fs::read] *)
Definition read_file (p : KPath) : lf_m (list Z) :=
  let* e := metadata cwd p in
  match en_node e with NFile b => stm_ret b | _ => stm_fail "IsADirectory" end.

Definition restore_record_matches_path (record : FileRecord) (dest : KPath) : lf_m bool :=
  let* meta := lstat dest in
  match fr_payload record with
  | Directory => stm_ret (is_dir_entry meta)
  | Special special_kind => stm_ret (restore_special_matches meta special_kind)
  | Symlink target => stm_ret (match en_node meta with NLink t => (t =? target)%string | _ => false end)
  | payload =>
    match payload_blob_ref payload with
    | Some (oid, object_key) =>
      if negb (is_file_entry meta) then stm_ret false else
      let* found := read_file dest in
      let* expected := stm_ok (read_blob_payload oid object_key) in
      stm_ret (bool_decide (found = expected))
    | None =>
      match payload_large_ref payload with
      | Some (_, manifest_key, _) =>
        match en_node meta with
        | NFile current =>
          if negb (Z.of_nat (length current) =? fr_size record)%Z then stm_ret false else
          let* manifest := stm_ok (read_manifest manifest_key) in
          stm_ok (chunks_match (lm_chunks manifest) current)
        | _ => stm_ret false
        end
      | None => stm_ret false
      end
    end
  end.

Fixpoint restore_conflicts_loop (plan : RestorePlan) (files : list FileRecord) (conflicts : list string) :
    lf_m (list string) :=
  match files with
  | [] => stm_ret conflicts
  | record :: files' =>
    let* dest := stm_ok (restore_destination plan record) in
    let* exists_ := try_exists cwd (kpath dest) in
    if negb exists_ then restore_conflicts_loop plan files' conflicts else
    let* matches := restore_record_matches_path record (kpath dest) in
    restore_conflicts_loop plan files'
      (if matches : bool then conflicts
       else conflicts ++ [fr_root_id record +:+ String (ascii_of_nat 9) "" +:+ fr_path record])
  end.
Definition restore_conflicts (plan : RestorePlan) : lf_m (list string) :=
  restore_conflicts_loop plan (rp_files plan) [].

(** ** Carrying the plan out *)

Fixpoint remove_empty_loop (n : nat) (stop current : list Component) : lf_m unit :=
  match n with
  | O => stm_ret tt
  | S n' =>
    if bool_decide (stop `prefix_of` current ∧ current ≠ stop) then
      λ s, match remove_dir cwd (of_comps current) s with
           | (Done _, s') => match fs_parent current with
                             | None => (Done tt, s')
                             | Some parent => remove_empty_loop n' stop parent s' end
           | (Fails _, s') => (Done tt, s')
           | (Panics, s') => (Panics, s')
           end
    else stm_ret tt
  end.
Definition remove_empty_restore_parents (plan : RestorePlan) (delete : RestoreDelete) (path : string) : lf_m unit :=
  match fs_parent (path_components path) with
  | None => stm_ret tt
  | Some current =>
    let stop := match rp_to plan with
      | Some to => path_join to (rd_root_id delete)
      | None => default "/" (bmap_get (rp_root_paths plan) (rd_root_id delete)) end in
    remove_empty_loop (S (length current)) (path_components stop) current
  end.

Definition apply_delete (plan : RestorePlan) (delete : RestoreDelete) : lf_m unit :=
  let* dest := stm_ok (restore_delete_destination plan delete) in
  let* base := stm_ok (restore_root_base (rp_to plan) (rp_root_paths plan) (rd_root_id delete)) in
  let* _ := ensure_restore_parent_beneath base dest in
  let* _ := ensure_restore_target_not_symlink (kpath dest) in
  let* meta := stm_try (lstat (kpath dest)) in
  match meta with
  | Some _ => let* _ := remove_file cwd (kpath dest) in remove_empty_restore_parents plan delete dest
  | None => stm_ret tt
  end.

(** The body for one record at its destination. *)
Definition apply_payload (record : FileRecord) (dest : KPath) (force : bool) : lf_m unit :=
  match fr_payload record with
  | Directory =>
    let* _ := ensure_restore_target_not_symlink dest in
    let* _ := prepare_directory_restore_destination dest force in
    create_dir_all cwd umask euid egid dest
  | Special special_kind =>
    let* _ := ensure_restore_target_not_symlink dest in
    restore_special_file dest record special_kind force
  | Symlink target => restore_symlink dest target force
  | payload =>
    match payload_blob_ref payload with
    | Some (oid, object_key) =>
      let* _ := ensure_restore_target_not_symlink dest in
      let* _ := prepare_file_restore_destination dest force in
      let* bytes := stm_ok (read_blob_payload oid object_key) in
      let* _ := write_atomic dest bytes in
      apply_file_metadata dest record
    | None =>
      match payload_large_ref payload with
      | Some (_, manifest_key, _) =>
        let* _ := ensure_restore_target_not_symlink dest in
        let* _ := prepare_file_restore_destination dest force in
        let* manifest := stm_ok (read_manifest manifest_key) in
        let* _ := write_large_chunks_atomic dest manifest in
        apply_file_metadata dest record
      | None => stm_ret tt
      end
    end
  end.

(** A record; the destination, when its metadata is to be set at the end. *)
Definition apply_record (plan : RestorePlan) (force : bool) (record : FileRecord) :
    lf_m (option (KPath * FileRecord)) :=
  let* dest := stm_ok (restore_destination plan record) in
  let* base := stm_ok (restore_root_base (rp_to plan) (rp_root_paths plan) (fr_root_id record)) in
  let* _ := ensure_restore_parent_beneath base dest in
  let* _ := apply_payload record (kpath dest) force in
  stm_ret (match fr_payload record with Directory => Some (kpath dest, record) | _ => None end).

Definition apply_restore_plan (plan : RestorePlan) (force check_conflicts : bool) : lf_m unit :=
  let* _ := stm_ok (prefetch plan) in
  let* _ :=
    (if check_conflicts && negb force then
       let* conflicts := restore_conflicts plan in
       if negb (bool_decide (conflicts = [])) then stm_fail "restore has conflicts; rerun with --force to overwrite" else
       if negb (bool_decide (map rd_path (rp_deletes plan) = []))
       then stm_fail "restore would delete extra files; rerun with --force to delete them" else stm_ret tt
     else stm_ret tt) in
  let* _ := stm_iter (apply_delete plan) (rp_deletes plan) in
  let* directory_metadata := stm_map (apply_record plan force) (rp_files plan) in
  stm_iter (λ '(dest, record), apply_file_metadata dest record) (omap id directory_metadata).
End Apply.
