(* ===== verification/RestorePlanning.v ===== *)
(** * Building a restore plan

    [build_restore_plan] of [src/main.rs] and the functions it calls: the records of the
    selected snapshot, overlaid with the journal of later changes, and the files below the
    bases that the plan has to delete; and the selection of the snapshot in
    [src/snapshot_state.rs].  The tables, the stored snapshots and trees, the journal and the
    traversal of a directory come through [PlanSource]. *)

From S2P Require Import Prelude RStr BTree Util Core Db Restore AtomicIo LinkFs RestoreApply.

Local Open Scope Z_scope.

Record RestoreArgs := {
  ra_snapshot : option string;
  ra_op : option string;
  ra_at : option string;
  ra_ago : option string;
  ra_root : option string;
  ra_path : option string;
  ra_to : option string;
  ra_force : bool;
  ra_check_conflicts : bool;
}.

(** The tables of the database (the snapshots with their times, the reference to the current
    one, the operations, the roots), a stored snapshot, the records of a stored tree in the
    order they are visited, the journal, the clock; and [walkdir]: the names of the entries
    below a directory, itself included. *)
Class PlanSource := {
  table_snapshots : list (string * string);
  current_snapshot : option string;
  (** the snapshots before and after an operation *)
  query_operation_resolved : string → result (option string * option string) string;
  load_snapshot_header_by_id : string → result SnapshotManifest string;
  table_roots : result (list (string * string)) string;
  visit_tree_records : RootSnapshot → result (list FileRecord) string;
  event_journal_records : result (list EventJournalRecord) string;
  utc_now : DateTime;
  walk_dir : FsTree → Loc → result (list (list string)) string;
}.

(** [Path::starts_with] *)
Definition path_starts_with (path base : string) : bool :=
  bool_decide (path_components base `prefix_of` path_components path).
Definition outside_filter (filter : option string) (path : string) : bool :=
  match filter with Some f => negb (path_starts_with path f) | None => false end.
Definition other_root (filter : option string) (root_id : string) : bool :=
  match filter with Some f => negb (f =? root_id)%string | None => false end.

(** ** Maps by root and path, in order *)

Definition pair_compare (a b : string * string) : comparison :=
  match String.compare a.1 b.1 with Eq => String.compare a.2 b.2 | c => c end.

Definition PathMap : Type := list ((string * string) * FileRecord).
Fixpoint pm_insert (k : string * string) (r : FileRecord) (m : PathMap) : PathMap :=
  match m with
  | [] => [(k, r)]
  | (k', r') :: m' =>
    match pair_compare k k' with
    | Lt => (k, r) :: m
    | Eq => (k, r) :: m'
    | Gt => (k', r') :: pm_insert k r m'
    end
  end.
Definition pm_remove (k : string * string) (m : PathMap) : PathMap :=
  List.filter (λ x, negb (bool_decide (x.1 = k))) m.
Definition record_key (r : FileRecord) : string * string := (fr_root_id r, fr_path r).
Definition pm_collect (files : list FileRecord) : PathMap :=
  fold_left (λ m r, pm_insert (record_key r) r m) files [].

Section Planning.
Context `{!Chrono, !ChronoLocal, !PlanSource} (cwd : Loc).

(** ** The selected snapshot *)

(** [select id from snapshots where created_at <= at order by created_at desc limit 1]: of
    rows with the same time the first. *)
Definition latest_at (at_ : string) (rows : list (string * string)) : option (string * string) :=
  foldr (λ row best, if negb (String.leb row.2 at_) then best else
    match best with
    | None => Some row
    | Some b => if String.leb b.2 row.2 then Some row else best
    end) None rows.

Definition parse_time (input : string) : outcome string string := parse_restore_time_rfc3339 input utc_now.

Definition snapshot_id_at (at_ : string) : outcome string string :=
  let! time := parse_time at_ in
  match latest_at time table_snapshots with
  | Some row => Done row.1
  | None => Fails ("no snapshot at or before " +:+ at_)
  end.

Definition selected_snapshot_id (args : RestoreArgs) : outcome string string :=
  match ra_snapshot args, ra_op args, ra_at args, ra_ago args with
  | Some id, _, _, _ => Done id
  | None, Some op_id, _, _ =>
    let! op := outcome_of_result (query_operation_resolved op_id) in
    match op.2, op.1 with
    | Some after, _ => Done after
    | None, Some before => Done before
    | None, None => Fails ("operation has no snapshot to restore: " +:+ op_id)
    end
  | None, None, Some at_, _ => snapshot_id_at at_
  | None, None, None, Some ago =>
    let! time := parse_duration_ago ago utc_now in
    snapshot_id_at (to_rfc3339 time)
  | None, None, None, None =>
    match current_snapshot with Some id => Done id | None => Fails "no current snapshot" end
  end.

Definition load_snapshot_header (args : RestoreArgs) : outcome SnapshotManifest string :=
  let count {A} (o : option A) : nat := match o with Some _ => 1%nat | None => 0%nat end in
  if (1 <? count (ra_snapshot args) + count (ra_op args) + count (ra_at args) + count (ra_ago args))%nat
  then Fails "use only one of --snapshot, --op, --at, or --ago" else
  let! id := selected_snapshot_id args in
  outcome_of_result (load_snapshot_header_by_id id).

(** ** The records of the snapshot *)

Definition restore_plan_root_ids (snapshot : SnapshotManifest) : list string :=
  bset_of_list ((sm_root_trees snapshot).*1 ++ (sm_roots snapshot).*1).

Definition collect_restore_plan_records (snapshot : SnapshotManifest) (root_id : string) (path_filter : option string)
    (files : list FileRecord) : result (list FileRecord) string :=
  let push records := Ok (files ++ List.filter (λ r, negb (outside_filter path_filter (fr_path r))) records) in
  match bmap_get (sm_roots snapshot) root_id with
  | Some records => push records
  | None =>
    match bmap_get (sm_root_trees snapshot) root_id with
    | Some root_tree => let? records := visit_tree_records root_tree in push records
    | None => Ok files
    end
  end.

(** ** The journal of later changes *)

Definition event_record (event : EventJournalRecord) (root_id path kind : string) (size : Z) (payload : Payload) :
    FileRecord := {|
  fr_root_id := root_id; fr_path := path; fr_kind := kind; fr_size := size;
  fr_mode := default 0 (ej_durable_mode event);
  fr_modified := match ej_durable_modified event with
                 | Some m => Some m | None => Some (ej_observed_at event / 1000000000) end;
  fr_uid := ej_durable_uid event; fr_gid := ej_durable_gid event; fr_xattrs := []; fr_payload := payload |}.

(** What an event does to the record of its path: nothing, removal, or a new record. *)
Definition event_change (event : EventJournalRecord) (root_id path : string) : option (option FileRecord) :=
  if bool_decide (ej_durable_tombstone event = Some true) then Some None else
  if bool_decide (ej_durable_entry_kind event = Some "symlink") then
    match ej_durable_symlink_target event with
    | None => None
    | Some target => Some (Some (event_record event root_id path "symlink" 0 (Symlink target)))
    end
  else if bool_decide (ej_durable_entry_kind event = Some "special") then
    match ej_durable_special_kind event with
    | None => None
    | Some kind => Some (Some (event_record event root_id path "special" 0 (Special kind)))
    end
  else
    let size := default 0 (ej_durable_payload_size event) in
    match ej_durable_payload_oid event, ej_durable_large_manifest_key event, ej_durable_large_chunk_count event with
    | Some oid, Some manifest_key, Some chunk_count =>
      Some (Some (event_record event root_id path "file" size (ChunkedBlob oid manifest_key chunk_count)))
    | _, _, _ =>
      match ej_durable_payload_oid event, ej_durable_payload_key event with
      | Some oid, Some object_key => Some (Some (event_record event root_id path "file" size (NormalBlob oid object_key)))
      | _, _ => None
      end
    end.

(** The key an event concerns, when the plan takes it into account. *)
Definition event_key (args : RestoreArgs) (timestamp target_time : DateTime) (event : EventJournalRecord) :
    option (string * string) :=
  if bool_decide (ej_remote_journal_synced_at event = None) then None else
  if (ej_observed_at event <=? timestamp) || (target_time <? ej_observed_at event) then None else
  match ej_root_id event, ej_path event with
  | Some root_id, Some path =>
    if other_root (ra_root args) root_id then None
    else if outside_filter (ra_path args) path then None else Some (root_id, path)
  | _, _ => None
  end.

Definition overlay_event (args : RestoreArgs) (timestamp target_time : DateTime) (by_path : PathMap)
    (event : EventJournalRecord) : PathMap :=
  match event_key args timestamp target_time event with
  | None => by_path
  | Some key =>
    match event_change event key.1 key.2 with
    | None => by_path
    | Some None => pm_remove key by_path
    | Some (Some record) => pm_insert key record by_path
    end
  end.

Definition overlay_time (args : RestoreArgs) : outcome DateTime string :=
  match ra_at args with
  | Some at_ => let! time := parse_time at_ in outcome_of_result (parse_db_time time)
  | None => Done utc_now
  end.

Definition overlay_durable_journal_records (args : RestoreArgs) (snapshot : SnapshotManifest) (files : list FileRecord) :
    outcome (list FileRecord) string :=
  match ra_snapshot args with
  | Some _ => Done files
  | None =>
    let! target_time := overlay_time args in
    let! events := outcome_of_result event_journal_records in
    Done (fold_left (overlay_event args (sm_timestamp snapshot) target_time) events (pm_collect files)).*2
  end.

(** ** What has to be deleted *)

Definition delete_le (a b : RestoreDelete) : bool :=
  match String.compare (rd_root_id a) (rd_root_id b) with
  | Lt => true
  | Gt => false
  | Eq =>
    match Nat.compare (String.length (rd_path b)) (String.length (rd_path a)) with
    | Lt => true
    | Gt => false
    | Eq => match String.compare (rd_path a) (rd_path b) with Gt => false | _ => true end
    end
  end.
Fixpoint insert_delete (x : RestoreDelete) (l : list RestoreDelete) : list RestoreDelete :=
  match l with
  | [] => [x]
  | y :: l' => if delete_le x y then x :: l else y :: insert_delete x l'
  end.
Definition sort_deletes (l : list RestoreDelete) : list RestoreDelete := foldr insert_delete [] l.

(** The entries [WalkDir::new(scan_base).follow_links(false)] yields: their names below the
    base, and whether they are directories. *)
Definition scan_entries (base : list Component) (scan : KPath) (fs : FsTree) : result (list (list string * bool)) string :=
  let? root := locate cwd true fs scan in
  let? entries := walk_dir fs root in
  let? top := lookup_path cwd false scan fs in
  Ok (map (λ ns, (map component_str (default [] (strip_comps base (kp_comps scan))) ++ ns,
                  match ns with
                  | [] => is_dir_entry top
                  | _ => match entry_at fs (root ++ ns) with Some e => is_dir_entry e | None => false end
                  end)) entries).

Definition scan_base (args : RestoreArgs) (base : string) : string :=
  match ra_path args with Some path => path_join base path | None => base end.

Definition root_deletes (args : RestoreArgs) (root_paths : list (string * string)) (snapshot_paths : list (string * string))
    (root_id : string) : lf_m (list RestoreDelete) :=
  if other_root (ra_root args) root_id then stm_ret [] else
  let* base := stm_ok (restore_root_base (ra_to args) root_paths root_id) in
  let* here := try_exists cwd (kpath (scan_base args base)) in
  if negb here then stm_ret [] else
  let* found := stm_get (λ s, scan_entries (path_components base) (kpath (scan_base args base)) (lf_tree s)) in
  let* entries := stm_ok found in
  stm_ret (omap (λ '(names, is_dir), let rel := join "/" names in
    if (is_dir : bool) || bool_decide ((root_id, rel) ∈ snapshot_paths) then None
    else Some {| rd_root_id := root_id; rd_path := rel |}) entries).

Definition build_restore_deletes (args : RestoreArgs) (root_paths : list (string * string)) (root_ids : list string)
    (files : list FileRecord) : lf_m (list RestoreDelete) :=
  let snapshot_paths := map record_key files in
  let* found := stm_map (root_deletes args root_paths snapshot_paths) root_ids in
  stm_ret (sort_deletes (concat found)).

(** ** The plan *)

Fixpoint collect_roots (args : RestoreArgs) (snapshot : SnapshotManifest) (root_ids plan_roots : list string)
    (files : list FileRecord) : result (list string * list FileRecord) string :=
  match root_ids with
  | [] => Ok (plan_roots, files)
  | root_id :: rest =>
    if other_root (ra_root args) root_id then collect_roots args snapshot rest plan_roots files else
    let? files' := collect_restore_plan_records snapshot root_id (ra_path args) files in
    collect_roots args snapshot rest (plan_roots ++ [root_id]) files'
  end.

Definition build_restore_plan (args : RestoreArgs) : lf_m RestorePlan :=
  let* _ := match ra_path args with
            | Some path => stm_ok (validate_relative_filter_path path "restore --path")
            | None => stm_ret tt end in
  let* snapshot := stm_lift (load_snapshot_header args) in
  let* root_rows := stm_ok table_roots in
  let root_paths := bmap_of_list root_rows in
  let* (plan_roots, collected) := stm_ok (collect_roots args snapshot (restore_plan_root_ids snapshot) [] []) in
  let* files := stm_lift (overlay_durable_journal_records args snapshot collected) in
  let* deletes := build_restore_deletes args root_paths plan_roots files in
  let plan := {| rp_to := ra_to args; rp_root_paths := root_paths; rp_files := files; rp_deletes := deletes |} in
  let* _ := validate_restore_plan_destinations cwd plan in
  stm_ret plan.
End Planning.
