(* ===== verification/RestoreOverlay.v ===== *)
(** * The journal overlaid on a snapshot

    What a restore plan holds after the journal of later changes has been applied to the
    records of the snapshot: for each root and path, what the last change says. *)

From S2P Require Import Prelude RStr BTree Util Core Db Restore LinkFs RestoreApply RestorePlanning.

(** ** Maps by root and path *)

Abbreviation Key := (string * string)%type.
Definition klt (a b : Key) : Prop := pair_compare a b = Lt.

Lemma pair_compare_spec a b :
  CompareSpec (a = b) (klt a b) (klt b a) (pair_compare a b).
Proof.
  destruct a as [a1 a2], b as [b1 b2]. unfold klt, pair_compare. simpl.
  destruct (String.compare a1 b1) eqn:E1; [|by constructor|].
  - apply String.compare_eq_iff in E1 as <-. rewrite str_compare_refl.
    destruct (String.compare a2 b2) eqn:E2; constructor; [|done|by apply compare_Gt in E2].
    by apply String.compare_eq_iff in E2 as <-.
  - constructor. apply compare_Gt in E1. unfold slt in E1. by rewrite E1.
Qed.
Lemma klt_iff a b : klt a b ↔ slt a.1 b.1 ∨ a.1 = b.1 ∧ slt a.2 b.2.
Proof.
  unfold klt, pair_compare, slt. destruct (String.compare a.1 b.1) eqn:E.
  - apply String.compare_eq_iff in E. naive_solver.
  - naive_solver.
  - split; [done|]. intros [?|[Heq _]]; [done|]. by rewrite Heq, str_compare_refl in E.
Qed.
#[export] Instance klt_irreflexive : Irreflexive klt.
Proof. intros k. unfold complement. rewrite klt_iff. intros [?|[_ ?]]; by eapply (irreflexivity slt). Qed.
#[export] Instance klt_transitive : Transitive klt.
Proof.
  intros a b c. rewrite !klt_iff. intros [H1|[E1 H1]] [H2|[E2 H2]].
  - left. by etrans.
  - left. by rewrite <-E2.
  - left. by rewrite E1.
  - right. split; [congruence|by etrans].
Qed.

Definition ksorted (m : PathMap) : Prop := StronglySorted klt m.*1.

Lemma elem_of_pm_insert k r m k' r' : ksorted m →
  (k', r') ∈ pm_insert k r m ↔ (k' = k ∧ r' = r) ∨ (k' ≠ k ∧ (k', r') ∈ m).
Proof.
  unfold ksorted. induction m as [|[k0 r0] m IH]; intros Hs; simpl; [set_solver|].
  apply StronglySorted_cons in Hs as [Hlt Hs]. rewrite Forall_forall in Hlt.
  assert (∀ x, (k, x) ∈ m → klt k0 k) as Hin by (intros x Hx; apply Hlt; by apply (list_elem_of_fmap_2 fst _ _ Hx)).
  assert (klt k k → False) as Hirr by apply klt_irreflexive.
  destruct (pair_compare_spec k k0) as [<-|Hk|Hk]; rewrite !elem_of_cons.
  - split; [|set_solver]. intros [[= -> ->]|Hm]; [by left|]. right. split; [|by right]. intros ->. eauto.
  - split; [|set_solver]. intros [[= -> ->]|Hm]; [by left|]. right. split; [|done]. intros ->.
    destruct Hm as [[= -> _]|Hm]; [done|]. apply Hirr. etrans; [exact Hk|by eapply Hin].
  - rewrite IH by done. split; [|naive_solver]. intros [[= -> ->]|[?|[? ?]]]; [|by left|by right; auto].
    right. split; [|by left]. by intros ->.
Qed.

Lemma pm_insert_sorted k r m : ksorted m → ksorted (pm_insert k r m).
Proof.
  unfold ksorted. induction m as [|[k0 r0] m IH]; intros Hs; simpl; [repeat constructor|].
  pose proof Hs as Hs'. apply StronglySorted_cons in Hs as [Hlt Hs].
  destruct (pair_compare_spec k k0) as [<-|Hk|Hk]; simpl; [done| |].
  - constructor; [done|]. constructor; [done|]. eapply Forall_impl; [exact Hlt|]. intros x ?. by etrans.
  - constructor; [by apply IH|]. rewrite Forall_forall in *. intros x ([k' r'] & -> & Hx)%list_elem_of_fmap. simpl.
    apply elem_of_pm_insert in Hx as [[-> _]|[_ Hx]]; [done| |done]. apply Hlt. by apply (list_elem_of_fmap_2 fst _ _ Hx).
Qed.

Lemma elem_of_pm_remove k m k' r' : (k', r') ∈ pm_remove k m ↔ k' ≠ k ∧ (k', r') ∈ m.
Proof.
  unfold pm_remove. rewrite !list_elem_of_In, filter_In. simpl. rewrite negb_true_iff, bool_decide_eq_false. tauto.
Qed.
Lemma pm_remove_sorted k m : ksorted m → ksorted (pm_remove k m).
Proof.
  unfold ksorted, pm_remove. induction m as [|x m IH]; intros Hs; simpl; [done|].
  apply StronglySorted_cons in Hs as [Hlt Hs]. destruct (bool_decide (x.1 = k)); simpl; [by apply IH|].
  constructor; [by apply IH|]. rewrite Forall_forall in *. intros y (z & -> & Hz)%list_elem_of_fmap.
  apply Hlt, list_elem_of_fmap_2. apply list_elem_of_In, filter_In in Hz as [Hz _]. by apply list_elem_of_In.
Qed.

(** ** What the map holds for a key *)

Definition holds_at (m : PathMap) (k : Key) (o : option FileRecord) : Prop := ∀ r, (k, r) ∈ m ↔ o = Some r.
(** In order, each record under its own key. *)
Definition keyed (m : PathMap) : Prop := ksorted m ∧ Forall (λ x, record_key x.2 = x.1) m.

Lemma keyed_insert k r m : record_key r = k → keyed m → keyed (pm_insert k r m).
Proof.
  intros Hr [Hs Hk]. split; [by apply pm_insert_sorted|]. rewrite Forall_forall in *.
  intros [k' r'] [[-> ->]|[_ Hx]]%elem_of_pm_insert; [done| |done]. by apply (Hk _ Hx).
Qed.
Lemma keyed_remove k m : keyed m → keyed (pm_remove k m).
Proof.
  intros [Hs Hk]. split; [by apply pm_remove_sorted|]. rewrite Forall_forall in *.
  intros [k' r'] [_ Hx]%elem_of_pm_remove. by apply (Hk _ Hx).
Qed.
Lemma holds_insert k r m k' o : ksorted m → holds_at m k' o →
  holds_at (pm_insert k r m) k' (if decide (k' = k) then Some r else o).
Proof. intros Hs Ho r'. rewrite elem_of_pm_insert by done. specialize (Ho r'). case_decide; naive_solver. Qed.
Lemma holds_remove k m k' o : holds_at m k' o → holds_at (pm_remove k m) k' (if decide (k' = k) then None else o).
Proof. intros Ho r'. rewrite elem_of_pm_remove. specialize (Ho r'). case_decide; naive_solver. Qed.

Lemma pm_collect_go files k m o : keyed m → holds_at m k o →
  keyed (fold_left (λ m r, pm_insert (record_key r) r m) files m) ∧
  holds_at (fold_left (λ m r, pm_insert (record_key r) r m) files m) k
    (match last (filter (λ r, record_key r = k) files) with Some r => Some r | None => o end).
Proof.
  revert m o; induction files as [|r files IH]; intros m o Hk Ho; [done|].
  cbn [fold_left]. destruct (IH (pm_insert (record_key r) r m) _ (keyed_insert _ _ _ eq_refl Hk)
    (holds_insert _ r _ _ _ (proj1 Hk) Ho)) as [Hk' Ho']. split; [done|].
  rewrite filter_cons. destruct (decide (k = record_key r)) as [Hr|Hr].
  - rewrite decide_True, last_cons by done. by destruct (last _).
  - by rewrite decide_False by congruence.
Qed.
Lemma pm_collect_spec files k :
  keyed (pm_collect files) ∧ holds_at (pm_collect files) k (last (filter (λ r, record_key r = k) files)).
Proof.
  destruct (pm_collect_go files k [] None) as [Hk Ho].
  - split; constructor.
  - intros r. set_solver.
  - split; [exact Hk|]. unfold pm_collect. by destruct (last _).
Qed.

(** ** The last change decides *)

Section Overlay.
Context (args : RestoreArgs) (timestamp target_time : DateTime).

(** What an event of the journal does to the record of a key: [None] nothing, [Some None]
    removal. *)
Definition change_for (k : Key) (event : EventJournalRecord) : option (option FileRecord) :=
  if bool_decide (event_key args timestamp target_time event = Some k) then event_change event k.1 k.2 else None.
Definition last_change (events : list EventJournalRecord) (k : Key) : option (option FileRecord) :=
  last (omap (change_for k) events).

Lemma event_change_key event root_id path r : event_change event root_id path = Some (Some r) → record_key r = (root_id, path).
Proof. unfold event_change. repeat case_match; intros; simplify_eq/=; done. Qed.

Lemma overlay_event_step m event k o : keyed m → holds_at m k o →
  keyed (overlay_event args timestamp target_time m event) ∧
  holds_at (overlay_event args timestamp target_time m event) k (default o (change_for k event)).
Proof.
  intros Hk Ho. unfold overlay_event, change_for.
  destruct (event_key _ _ _ event) as [key|]; [|done].
  destruct (decide (key = k)) as [->|Hne].
  - rewrite bool_decide_true by done. destruct (event_change event k.1 k.2) as [[r|]|] eqn:E; simpl; [| |done].
    + apply event_change_key in E. split; [apply keyed_insert; [by destruct k|done]|].
      pose proof (holds_insert k r m k o (proj1 Hk) Ho) as H. by rewrite decide_True in H.
    + split; [by apply keyed_remove|]. pose proof (holds_remove k m k o Ho) as H. by rewrite decide_True in H.
  - rewrite bool_decide_false by congruence. simpl.
    destruct (event_change event key.1 key.2) as [[r|]|] eqn:E; [| |done].
    + apply event_change_key in E. split; [apply keyed_insert; [by destruct key|done]|].
      pose proof (holds_insert key r m k o (proj1 Hk) Ho) as H. by rewrite decide_False in H by done.
    + split; [by apply keyed_remove|]. pose proof (holds_remove key m k o Ho) as H. by rewrite decide_False in H by done.
Qed.

Lemma overlay_events_spec events m k o : keyed m → holds_at m k o →
  keyed (fold_left (overlay_event args timestamp target_time) events m) ∧
  holds_at (fold_left (overlay_event args timestamp target_time) events m) k (default o (last_change events k)).
Proof.
  revert m o; induction events as [|event events IH]; intros m o Hk Ho; [done|].
  cbn [fold_left]. destruct (overlay_event_step m event k o Hk Ho) as [Hk' Ho'].
  destruct (IH _ _ Hk' Ho') as [Hk'' Ho'']. split; [done|]. unfold last_change in *. cbn [omap list_omap].
  destruct (change_for k event) as [c|]; [|done]. rewrite last_cons. by destruct (last _).
Qed.
End Overlay.

