(* ===== verification/RestoreSafety.v ===== *)
(** * What the steps of a restore do to the file system

    Lemmas on [RestoreApply]: every call changes the tree by a sequence of moves, whatever
    fails.  The directories above a destination are made and free of links; a record then
    moves only its destination and, when a removal fails, a temporary file beside it. *)

From S2P Require Import Prelude RStr BTree Util Core AtomicIo LinkFs RestoreApply.

(** ** Runs as sequences of moves

    [runs M P m Q]: from a tree in [P] the call [m] changes the tree by moves of [M] only,
    however it ends, and when it returns the tree is in [Q]. *)

Definition runs {A : Type} (M : relation FsTree) (P : FsTree → Prop) (m : lf_m A) (Q : A → FsTree → Prop) : Prop :=
  ∀ s r s', P (lf_tree s) → m s = (r, s') →
    rtc M (lf_tree s) (lf_tree s') ∧ (∀ a, r = Done a → Q a (lf_tree s')).

Section Runs.
Context (M : relation FsTree).

Lemma runs_bind {A B : Type} (P : FsTree → Prop) (m : lf_m A) (Q : A → FsTree → Prop) (k : A → lf_m B) (R : B → FsTree → Prop) :
  runs M P m Q → (∀ a, runs M (Q a) (k a) R) → runs M P (stm_bind m k) R.
Proof.
  intros Hm Hk s r s' HP Hrun. unfold stm_bind in Hrun. destruct (m s) as [r1 s1] eqn:H1.
  destruct (Hm _ _ _ HP H1) as [Hr1 HQ]. destruct r1 as [a|e|]; simplify_eq; [|by split..].
  destruct (Hk a s1 r s' (HQ _ eq_refl) Hrun) as [Hr2 HR]. split; [by etrans|done].
Qed.
Lemma runs_ret {A : Type} (P : FsTree → Prop) (a : A) : runs M P (stm_ret a) (λ b fs, b = a ∧ P fs).
Proof. intros s r s' HP [= <- <-]. split; [done|]. by intros ? [= <-]. Qed.
Lemma runs_fail {A : Type} (P : FsTree → Prop) (e : string) (Q : A → FsTree → Prop) : runs M P (stm_fail e) Q.
Proof. intros s r s' HP [= <- <-]. by split. Qed.
Lemma runs_ok {A : Type} (P : FsTree → Prop) (x : result A string) : runs M P (stm_ok x) (λ a fs, x = Ok a ∧ P fs).
Proof. intros s r s' HP [= <- <-]. split; [done|]. destruct x; intros ? Ha; by simplify_eq/=. Qed.
Lemma runs_ok_bind {A B : Type} (P : FsTree → Prop) (x : result A string) (k : A → lf_m B) (R : B → FsTree → Prop) :
  (∀ a, x = Ok a → runs M P (k a) R) → runs M P (let* a := stm_ok x in k a) R.
Proof.
  intros Hk s r s' HP Hrun. destruct x as [a|e]; [by eapply Hk|]. injection Hrun as <- <-. by split.
Qed.
Lemma runs_post {A : Type} (P : FsTree → Prop) (m : lf_m A) (Q Q' : A → FsTree → Prop) : runs M P m Q → (∀ a fs, Q a fs → Q' a fs) → runs M P m Q'.
Proof. intros Hm HQ s r s' HP Hrun. destruct (Hm _ _ _ HP Hrun). naive_solver. Qed.
Lemma runs_pre {A : Type} (P P' : FsTree → Prop) (m : lf_m A) (Q : A → FsTree → Prop) : runs M P m Q → (∀ fs, P' fs → P fs) → runs M P' m Q.
Proof. intros Hm HP s r s' HP' Hrun. by apply (Hm s r s'); [apply HP|]. Qed.
Lemma runs_moves {A : Type} (M' : relation FsTree) (P : FsTree → Prop) (m : lf_m A) (Q : A → FsTree → Prop) :
  (∀ fs fs', M fs fs' → M' fs fs') → runs M P m Q → runs M' P m Q.
Proof.
  intros HM Hm s r s' HP Hrun. destruct (Hm _ _ _ HP Hrun) as [Hr HQ]. split; [|done].
  clear -HM Hr. induction Hr; [done|]. eapply rtc_l; eauto.
Qed.
Lemma runs_iter {A : Type} (P : FsTree → Prop) (f : A → lf_m unit) l :
  (∀ x, x ∈ l → runs M P (f x) (λ _, P)) → runs M P (stm_iter f l) (λ _, P).
Proof.
  induction l as [|x l IH]; intros Hf; simpl.
  - eapply runs_post; [apply runs_ret|]. by intros ? ? [_ ?].
  - eapply runs_bind; [apply Hf; set_solver|]. intros []. apply IH. set_solver.
Qed.

(** A property no move breaks. *)
Definition stable (P : FsTree → Prop) : Prop := ∀ fs fs', P fs → M fs fs' → P fs'.
Lemma stable_rtc (P : FsTree → Prop) (fs fs' : FsTree) : stable P → rtc M fs fs' → P fs → P fs'.
Proof. intros HP. induction 1; eauto. Qed.

Lemma runs_or {A : Type} (P : FsTree → Prop) (d : A) (m : lf_m A) (Q : A → FsTree → Prop) :
  stable P → runs M P m Q → runs M P (stm_or d m) (λ a fs, Q a fs ∨ a = d ∧ P fs).
Proof.
  intros HP Hm s r s' Hs. unfold stm_or. destruct (m s) as [r1 s1] eqn:H1.
  destruct (Hm _ _ _ Hs H1) as [Hr HQ]. pose proof (stable_rtc _ _ _ HP Hr Hs).
  destruct r1; intros [= <- <-]; (split; [done|]); intros ? [= <-]; eauto.
Qed.
Lemma runs_ignore {A : Type} (P : FsTree → Prop) (m : lf_m A) (Q : A → FsTree → Prop) : stable P → runs M P m Q → runs M P (stm_ignore m) (λ _, P).
Proof.
  intros HP Hm s r s' Hs. unfold stm_ignore, stm_or, stm_bind. destruct (m s) as [r1 s1] eqn:H1.
  destruct (Hm _ _ _ Hs H1) as [Hr HQ]. pose proof (stable_rtc _ _ _ HP Hr Hs).
  destruct r1; intros [= <- <-]; by split.
Qed.

(** A call that is over after at most one move. *)
Lemma runs_call {A : Type} (P : FsTree → Prop) (m : lf_m A) :
  stable P → (∀ s r s', P (lf_tree s) → m s = (r, s') → lf_tree s' = lf_tree s ∨ M (lf_tree s) (lf_tree s')) →
  runs M P m (λ _, P).
Proof.
  intros HP Hm s r s' Hs Hrun. destruct (Hm _ _ _ Hs Hrun) as [->|Hmv]; [by split|].
  split; [by apply rtc_once|]. intros _ _. by eapply HP.
Qed.
End Runs.

Lemma runs_pure {A : Type} (M : relation FsTree) (P : FsTree → Prop) (m : lf_m A) :
  (∀ s, (m s).2 = s) → runs M P m (λ _, P).
Proof. intros Hm s r s' HP Hrun. specialize (Hm s). rewrite Hrun in Hm. simpl in Hm. by subst. Qed.

Lemma entry_is_run cwd test p s :
  entry_is cwd test p s = (Done (from_option test false (result_ok (lookup_path cwd false p (lf_tree s)))), s).
Proof.
  unfold entry_is, stm_or, stm_bind. destruct (symlink_metadata cwd p s) as [r s'] eqn:E.
  apply symlink_metadata_run in E as [-> ->]. by destruct (lookup_path _ _ _ _).
Qed.
Lemma stm_try_lstat cwd p s :
  stm_try (symlink_metadata cwd p) s = (Done (result_ok (lookup_path cwd false p (lf_tree s))), s).
Proof.
  unfold stm_try, stm_or, stm_bind. destruct (symlink_metadata cwd p s) as [r s'] eqn:E.
  apply symlink_metadata_run in E as [-> ->]. by destruct (lookup_path _ _ _ _).
Qed.

Lemma not_symlink_same cwd p s r s' : ensure_restore_target_not_symlink cwd p s = (r, s') → s' = s.
Proof.
  unfold ensure_restore_target_not_symlink, stm_bind. rewrite entry_is_run.
  destruct (from_option _ _ _); by intros [= <- <-].
Qed.

(** ** The moves of one record

    At the destination [dir ++ [n]]: metadata is set, an entry is made where there is
    none, a file is written in place of anything but a directory, and with [force] a file
    or an empty directory is removed; beside it a temporary file may be left behind. *)
Inductive move (force : bool) (new : Node → Prop) (dir : Loc) (n : string) (fs : FsTree) : FsTree → Prop :=
| mv_meta e m : fs !! (dir ++ [n]) = Some e →
    move force new dir n fs (<[dir ++ [n] := {| en_node := en_node e; en_meta := m |}]> fs)
| mv_new e : fs !! (dir ++ [n]) = None → new (en_node e) → move force new dir n fs (<[dir ++ [n] := e]> fs)
| mv_write e : is_file_entry e = true → new (en_node e) →
    (∀ e', fs !! (dir ++ [n]) = Some e' → is_dir_entry e' = false) → move force new dir n fs (<[dir ++ [n] := e]> fs)
| mv_remove e : force = true → fs !! (dir ++ [n]) = Some e → is_dir_entry e = false →
    move force new dir n fs (delete (dir ++ [n]) fs)
| mv_rmdir : force = true → is_dir fs (dir ++ [n]) → occupied fs (dir ++ [n]) = false →
    move force new dir n fs (delete (dir ++ [n]) fs)
| mv_litter t e : fs !! (dir ++ [t]) = None → is_file_entry e = true → move force new dir n fs (<[dir ++ [t] := e]> fs).

(** A move that touches nothing but the destination. *)
Definition quiet (force : bool) (new : Node → Prop) (dir : Loc) (n : string) (fs fs' : FsTree) : Prop :=
  move force new dir n fs fs' ∧ ∀ q, q ≠ dir ++ [n] → fs' !! q = fs !! q.

Lemma quiet_move force new dir n fs fs' : quiet force new dir n fs fs' → move force new dir n fs fs'.
Proof. by intros [? _]. Qed.
Lemma quiet_insert force new dir n fs e :
  move force new dir n fs (<[dir ++ [n] := e]> fs) → quiet force new dir n fs (<[dir ++ [n] := e]> fs).
Proof. intros Hm. split; [done|]. intros q Hq. by apply lookup_insert_ne. Qed.
Lemma quiet_delete force new dir n fs :
  move force new dir n fs (delete (dir ++ [n]) fs) → quiet force new dir n fs (delete (dir ++ [n]) fs).
Proof. intros Hm. split; [done|]. intros q Hq. by apply lookup_delete_ne. Qed.
Lemma rtc_quiet_other force new dir n fs fs' q :
  rtc (quiet force new dir n) fs fs' → q ≠ dir ++ [n] → fs' !! q = fs !! q.
Proof. intros Hr Hq. induction Hr as [|f1 f2 f3 [_ Ho] _ IH]; [done|]. by rewrite IH, Ho. Qed.

Definition no_links (new : Node → Prop) : Prop := ∀ t, ¬ new (NLink t).

Lemma snoc_ne {A : Type} (l : list A) (x : A) : l ++ [x] ≠ [].
Proof. by destruct l. Qed.

Lemma move_nonlink force new dir n fs fs' q :
  no_links new → move force new dir n fs fs' → nonlink fs q → nonlink fs' q.
Proof.
  intros Hnew Hm Hq e'. assert (∀ x, dir ++ [x] ≠ []) as Hne by (intros x; by destruct dir).
  destruct Hm as [e m He|e He Hn|e Hf Hn Hd|e _ He Hd|_ Hd Ho|t e He Hf];
    rewrite ?entry_at_insert, ?entry_at_delete by done;
    (destruct (decide (q = _)) as [->|]; [|apply Hq]); try done.
  - intros [= <-]. apply (Hq e). by rewrite entry_at_ne.
  - intros [= <-]. unfold is_link_entry. destruct (en_node e) eqn:E; [done..|by destruct (Hnew target)|done].
  - intros [= <-]. unfold is_file_entry, is_link_entry in *. by destruct (en_node e).
  - intros [= <-]. unfold is_file_entry, is_link_entry in *. by destruct (en_node e).
Qed.

Lemma move_linkfree cwd force new dir n cs :
  no_links new → stable (move force new dir n) (λ fs, linkfree cwd fs cs).
Proof.
  intros Hnew fs fs' Hl Hm. unfold linkfree in *. rewrite Forall_forall in *. intros q Hq.
  eapply move_nonlink; eauto.
Qed.

Lemma quiet_linkfree cwd force new dir n cs :
  no_links new → stable (quiet force new dir n) (λ fs, linkfree cwd fs cs).
Proof. intros Hnew fs fs' Hl [Hm _]. by eapply move_linkfree. Qed.

(** Metadata at a destination that no link leads to: only the entry there changes, and only
    its metadata. *)
Section Metadata.
Context `{!RestoreSource} (cwd : Loc) (cs : list Component) (n : string).
Let dest := of_comps (cs ++ [Normal n]).
Let here := lex cwd cs ++ [n].
Let I := λ fs, linkfree cwd fs (cs ++ [Normal n]).
Context (M : relation FsTree).
Hypothesis M_keeps : stable M I.
Hypothesis M_meta : ∀ fs e m, fs !! here = Some e → M fs (<[here := {| en_node := en_node e; en_meta := m |}]> fs).

Lemma change_meta_gen follow f : runs M I (change_meta cwd follow dest f) (λ _, I).
Proof.
  apply runs_call; [done|]. intros s r s' Hs Hrun.
  apply (change_meta_run cwd follow dest here) in Hrun as [[_ ->]|(_ & e & He & ->)]; [by left| |].
  - right. apply M_meta. by rewrite entry_at_ne in He by apply snoc_ne.
  - replace here with (lex cwd (cs ++ [Normal n])) by (by rewrite lex_app). by apply names_linkfree.
Qed.

Lemma apply_xattrs_gen xattrs : runs M I (apply_xattrs cwd dest xattrs) (λ _, I).
Proof.
  apply runs_iter. intros [name encoded] _. apply runs_ok_bind. intros value _.
  eapply runs_ignore; [done|apply change_meta_gen].
Qed.
Lemma apply_file_owner_gen record : runs M I (apply_file_owner cwd dest record) (λ _, I).
Proof.
  unfold apply_file_owner. destruct (fr_uid record) as [uid|], (fr_gid record) as [gid|];
    try (by apply runs_pure).
  intros s r s' Hs. destruct (lchown cwd dest uid gid s) as [r1 s1] eqn:E.
  destruct (change_meta_gen _ _ _ _ _ Hs E) as [Hr HQ]. pose proof (stable_rtc _ _ _ _ M_keeps Hr Hs).
  destruct r1 as [?|e|]; [|destruct (_ || _)|]; intros [= <- <-]; by split.
Qed.
Lemma apply_file_metadata_gen record : runs M I (apply_file_metadata cwd dest record) (λ _, I).
Proof.
  unfold apply_file_metadata. eapply runs_bind; [apply apply_xattrs_gen|]. intros [].
  eapply runs_bind; [apply apply_file_owner_gen|]. intros []. eapply runs_bind.
  - destruct (_ =? 0)%Z; [by apply runs_pure|apply change_meta_gen].
  - intros []. destruct (fr_modified record); [apply change_meta_gen|by apply runs_pure].
Qed.

End Metadata.

Section Leaf.
Context `{!RestoreSource} (cwd : Loc) (umask euid egid : Z) (uuid : nat → string).
Context (force : bool) (new : Node → Prop) (cs : list Component) (n : string).
Hypothesis new_nolinks : no_links new.

Let dest := of_comps (cs ++ [Normal n]).
Let here := lex cwd cs ++ [n].
Let M := quiet force new (lex cwd cs) n.
Let I := λ fs, linkfree cwd fs (cs ++ [Normal n]).

Local Lemma I_stable : stable M I.
Proof. by apply quiet_linkfree. Qed.
Local Lemma I_names follow fs : I fs → names cwd follow fs dest here.
Proof. intros Hl. replace here with (lex cwd (cs ++ [Normal n])) by (by rewrite lex_app). by apply names_linkfree. Qed.
Local Lemma here_ne : here ≠ [].
Proof. unfold here. by destruct (lex cwd cs). Qed.
Local Hint Resolve I_stable I_names here_ne : core.

Local Lemma meta_is_move fs e m : fs !! here = Some e → M fs (<[here := {| en_node := en_node e; en_meta := m |}]> fs).
Proof. intros He. by apply quiet_insert, mv_meta. Qed.

Lemma change_meta_runs follow f : runs M I (change_meta cwd follow dest f) (λ _, I).
Proof. apply (change_meta_gen cwd cs n M I_stable meta_is_move). Qed.
Lemma apply_xattrs_runs xattrs : runs M I (apply_xattrs cwd dest xattrs) (λ _, I).
Proof. apply (apply_xattrs_gen cwd cs n M I_stable meta_is_move). Qed.
Lemma apply_file_owner_runs record : runs M I (apply_file_owner cwd dest record) (λ _, I).
Proof. apply (apply_file_owner_gen cwd cs n M I_stable meta_is_move). Qed.
Lemma apply_file_metadata_runs record : runs M I (apply_file_metadata cwd dest record) (λ _, I).
Proof. apply (apply_file_metadata_gen cwd cs n M I_stable meta_is_move). Qed.

Lemma remove_file_runs : force = true → runs M I (remove_file cwd dest) (λ _, I).
Proof.
  intros Hf. apply runs_call; [done|]. intros s r s' Hs Hrun.
  apply (remove_file_run cwd dest here) in Hrun as [[_ ->]|(_ & (e & He & Hd) & ->)]; [by left| |auto].
  right. eapply quiet_delete, mv_remove; [done| |done]. by rewrite entry_at_ne in He.
Qed.
Lemma remove_dir_runs : force = true → runs M I (remove_dir cwd dest) (λ _, I).
Proof.
  intros Hf. apply runs_call; [done|]. intros s r s' Hs Hrun.
  apply (remove_dir_run cwd (cs ++ [Normal n]) here) in Hrun as [[_ ->]|(_ & Hd & Ho & ->)]; [by left| |by apply I_names].
  right. by apply quiet_delete, mv_rmdir.
Qed.
Lemma create_entry_runs nd mode : new nd → runs M I (create_entry cwd umask euid egid dest nd mode) (λ _, I).
Proof.
  intros Hn. apply runs_call; [done|]. intros s r s' Hs Hrun.
  apply (create_entry_run _ _ _ _ dest here) in Hrun as [[_ ->]|(_ & [_ He]%entry_at_None & ->)]; [by left| |auto].
  right. by apply quiet_insert, mv_new.
Qed.

(** *** Writing the file *)

Local Lemma append_insert (fs0 : FsTree) t b m x :
  alter (append x) t (<[t := {| en_node := NFile b; en_meta := m |}]> fs0) =
  <[t := {| en_node := NFile (b ++ x); en_meta := m |}]> fs0.
Proof. by rewrite alter_insert_eq. Qed.

Lemma write_pieces_run pieces t m fs0 b s r s' :
  lf_tree s = <[t := {| en_node := NFile b; en_meta := m |}]> fs0 → write_pieces pieces t s = (r, s') →
  (r = Done tt ∧ ∃ bs, result_map id pieces = Ok bs ∧
     lf_tree s' = <[t := {| en_node := NFile (b ++ concat bs); en_meta := m |}]> fs0) ∨
  ((∃ e, r = Fails e) ∧ ∃ b', lf_tree s' = <[t := {| en_node := NFile b'; en_meta := m |}]> fs0).
Proof.
  unfold write_pieces. revert s b. induction pieces as [|piece pieces IH]; intros s b Hs; cbn [stm_iter].
  - intros [= <- <-]. left. split; [done|]. exists []. simpl. by rewrite app_nil_r.
  - destruct piece as [x|e]; unfold stm_bind at 1; [|intros [= <- <-]; right; eauto].
    unfold stm_bind at 1. cbn [stm_ok stm_lift outcome_of_result]. 
    destruct (write_all t x s) as [r1 s1] eqn:H1.
    apply write_all_run in H1 as [[-> H1]|(e & k & -> & H1)]; rewrite Hs, append_insert in H1;
      [|intros [= <- <-]; right; split; eauto].
    intros [(-> & bs & Hbs & Hs')|[He Hs']]%(IH _ _ H1); [left|by right].
    split; [done|]. exists (x :: bs). simpl. rewrite Hbs. split; [done|]. by rewrite app_assoc.
Qed.

(** Either the destination now holds the pieces, or it is as it was. *)
Definition written (pieces : list (result (list Z) string)) (fs fs' : FsTree) : Prop :=
  ∃ bs m, result_map id pieces = Ok bs ∧ (∀ e, fs !! here = Some e → is_dir_entry e = false) ∧
    fs' = <[here := {| en_node := NFile (concat bs); en_meta := m |}]> fs.
Definition littered (fs fs' : FsTree) : Prop :=
  ∃ t e, fs !! (lex cwd cs ++ [t]) = None ∧ is_file_entry e = true ∧ fs' = <[lex cwd cs ++ [t] := e]> fs.

Lemma create_temp_runs k s r s' :
  I (lf_tree s) → create_temp_loop cwd umask euid egid uuid k (cs ++ [Normal n]) s = (r, s') →
  failed r (lf_tree s) (lf_tree s') ∨
  ∃ t m, r = Done (of_comps (cs ++ [Normal t]), lex cwd cs ++ [t]) ∧ t ≠ n ∧ lf_tree s !! (lex cwd cs ++ [t]) = None ∧
    lf_tree s' = <[lex cwd cs ++ [t] := {| en_node := NFile []; en_meta := m |}]> (lf_tree s).
Proof.
  revert s; induction k as [|k IH]; intros s Hs; cbn [create_temp_loop]; [intros [= <- <-]; left; split; eauto|].
  unfold stm_bind, atomic_temp_path, fs_parent, fs_file_name, fs_join. rewrite last_snoc, removelast_last.
  cbn [default]. set (t := "." +:+ n +:+ ".mjtmp-" +:+ uuid (lf_names s)).
  destruct (open_new _ _ _ _ _ _) as [r1 s1] eqn:H1.
  apply (open_new_run _ _ _ _ _ (lex cwd cs ++ [t])) in H1; [|apply names_leaf; by eapply linkfree_app].
  destruct H1 as [[(e & ->) H1]|(-> & [_ He]%entry_at_None & H1)].
  - destruct (e =? _)%string; [|intros [= <- <-]; left; split; eauto].
    intros Hrun. specialize (IH s1). rewrite H1 in IH. by apply IH.
  - intros [= <- <-]. right. exists t. eexists. split_and!; [done| |done|done].
    intros Heq%(f_equal String.length). unfold t in Heq. rewrite !str_length_app in Heq. simpl in Heq. lia.
Qed.

Lemma write_atomic_body_runs pieces t m fs s r s' :
  I fs → t ≠ n → fs !! (lex cwd cs ++ [t]) = None →
  lf_tree s = <[lex cwd cs ++ [t] := {| en_node := NFile []; en_meta := m |}]> fs →
  write_atomic_body cwd pieces (of_comps (cs ++ [Normal t])) (lex cwd cs ++ [t]) dest s = (r, s') →
  (r = Done tt ∧ written pieces fs (lf_tree s')) ∨
  ((∃ e, r = Fails e) ∧ (written pieces fs (lf_tree s') ∨
     ∃ b, lf_tree s' = <[lex cwd cs ++ [t] := {| en_node := NFile b; en_meta := m |}]> fs)).
Proof.
  intros HI Htn Hnone Hs. set (T := lex cwd cs ++ [t]) in *.
  assert (T ≠ here) as HT by (unfold T, here; by intros [= ->]%(inj (lex cwd cs ++.))).
  assert (∀ b, I (<[T := {| en_node := NFile b; en_meta := m |}]> fs)) as HI'
    by (intros b; eapply (move_linkfree cwd force new (lex cwd cs) n); [done|exact HI|by apply mv_litter]).
  unfold write_atomic_body. unfold stm_bind at 1. destruct (write_pieces _ _ s) as [r1 s1] eqn:H1.
  apply (write_pieces_run _ _ m fs []) in H1 as [(-> & bs & Hbs & H1)|[(e & ->) H1]]; [|intros [= <- <-]; by eauto|done].
  unfold stm_bind at 1. destruct (sync_all s1) as [r2 s2] eqn:H2.
  apply sync_all_run in H2 as [H2 [-> | (e & ->)]]; [|intros [= <- <-]; right; split; [by eauto|right; eexists; by rewrite H2, H1]].
  unfold stm_bind at 1. destruct (rename cwd _ dest s2) as [r3 s3] eqn:H3. rewrite H1 in H2.
  apply (rename_run _ _ _ T here) in H3; [|rewrite H2; apply names_leaf, (linkfree_app _ _ _ [Normal n]), HI'|rewrite H2; auto].
  destruct H3 as [[(e & ->) H3]|(-> & e & He & Hd & H3)]; [intros [= <- <-]; right; split; [by eauto|right; eexists; by rewrite H3, H2]|].
  assert (written pieces fs (lf_tree s3)) as Hw.
  { rewrite H2 in He, Hd, H3. rewrite entry_at_ne in He by apply snoc_ne.
    rewrite lookup_insert_eq in He. injection He as <-. exists bs, m. split_and!; [done| |].
    - intros e' He'. apply Hd. rewrite entry_at_ne by done. by rewrite lookup_insert_ne.
    - by rewrite H3, delete_insert_id. }
  intros Hrun. apply sync_all_run in Hrun as [Hs' Hr]. rewrite Hs'. destruct Hr as [-> | (e' & ->)]; eauto.
Qed.

Lemma write_atomic_with_runs pieces s r s' :
  I (lf_tree s) → write_atomic_with cwd umask euid egid uuid dest pieces s = (r, s') →
  (r = Done tt ∧ written pieces (lf_tree s) (lf_tree s')) ∨
  ((∃ e, r = Fails e) ∧ (lf_tree s' = lf_tree s ∨ littered (lf_tree s) (lf_tree s') ∨ written pieces (lf_tree s) (lf_tree s'))).
Proof.
  intros HI. unfold write_atomic_with. unfold stm_bind at 1. rewrite entry_is_run.
  destruct (from_option _ _ _); [intros [= <- <-]; by eauto|].
  unfold stm_bind at 1. destruct (create_atomic_temp _ _ _ _ _ _ s) as [r1 s1] eqn:H1.
  apply create_temp_runs in H1 as [[(e & ->) H1]|(t & m & -> & Htn & Hnone & H1)]; [intros [= <- <-]; by eauto| |done].
  destruct (write_atomic_body _ _ _ _ _ s1) as [r2 s2] eqn:H2.
  apply (write_atomic_body_runs pieces t m (lf_tree s)) in H2; [|done..].
  destruct H2 as [[-> Hw]|[(e & ->) H2]]; [intros [= <- <-]; by left|].
  unfold stm_ignore, stm_or, stm_bind. destruct (remove_file _ _ s2) as [r3 s3] eqn:H3. set (T := lex cwd cs ++ [t]) in *.
  assert (linkfree cwd (lf_tree s2) (cs ++ [Normal n])) as HI2.
  { eapply (move_linkfree cwd force (λ nd, ∀ t, nd ≠ NLink t) (lex cwd cs) n); [intros x Hx; by apply (Hx x)|exact HI|].
    destruct H2 as [(bs & m' & _ & Hd & ->)|(b & ->)]; [by apply mv_write|by apply mv_litter]. }
  apply (remove_file_run _ _ T) in H3; [|by apply names_leaf, (linkfree_app _ _ _ [Normal n])].
  assert (T ≠ []) as HT by apply snoc_ne.
  intros Hrun. assert (r = Fails e ∧ s' = s3) as [-> ->]
    by (destruct H3 as [[(e3 & ->) _]|[-> _]]; by injection Hrun as <- <-).
  right. split; [by eauto|]. destruct H3 as [[_ ->]|(_ & (e' & He' & _) & ->)].
  - destruct H2 as [Hw|(b & ->)]; [by right; right|right; left]. by exists t, {| en_node := NFile b; en_meta := m |}.
  - rewrite entry_at_ne in He' by done. destruct H2 as [(bs & m' & _ & Hd & H2)|(b & ->)].
    + exfalso. rewrite H2, lookup_insert_ne, Hnone in He'; [done|]. unfold T, here.
      intros [= ->]%(inj (lex cwd cs ++.)). done.
    + left. by rewrite delete_insert_id.
Qed.

(** *** One payload *)

Let chain := λ fs, Forall (is_dir fs) (steps cwd cs).

Local Lemma I_iff fs : I fs ↔ linkfree cwd fs cs ∧ nonlink fs here.
Proof. apply linkfree_snoc. Qed.
Local Lemma chain_linkfree fs : chain fs → linkfree cwd fs cs.
Proof. intros Hc. eapply Forall_impl; [exact Hc|]. apply is_dir_nonlink. Qed.
Lemma chain_lookup fs : chain fs → lookup_path cwd false dest fs =
  match fs !! here with Some e => Ok e | None => Err "NotFound" end.
Proof.
  intros Hc. unfold lookup_path, dest. rewrite locate_leaf, lex_app by done. simpl. by rewrite entry_at_snoc.
Qed.

Lemma not_symlink_runs : runs M chain (ensure_restore_target_not_symlink cwd dest) (λ _ fs, chain fs ∧ I fs).
Proof.
  intros s r s' Hc. unfold ensure_restore_target_not_symlink, stm_bind. rewrite entry_is_run, (chain_lookup _ Hc).
  destruct (from_option _ _ _) eqn:E; intros [= <- <-]; (split; [done|]); [done|]. intros _ _. split; [done|].
  apply I_iff. split; [by apply chain_linkfree|]. intros e. rewrite entry_at_ne by done. intros He.
  by rewrite He in E.
Qed.

Lemma prepare_file_runs : runs M I (prepare_file_restore_destination cwd dest force) (λ _, I).
Proof.
  unfold prepare_file_restore_destination. eapply runs_bind; [apply runs_pure|].
  { intros s. by rewrite entry_is_run. }
  intros []; [|by apply runs_pure]. case_eq force; intros Hf; simpl; [|by apply runs_fail].
  by apply remove_dir_runs.
Qed.

Lemma prepare_directory_runs :
  runs M (λ fs, chain fs ∧ I fs) (prepare_directory_restore_destination cwd dest force) (λ _ fs, chain fs ∧ I fs).
Proof.
  intros s r s' [Hc HI]. unfold prepare_directory_restore_destination. unfold stm_bind at 1. rewrite stm_try_lstat.
  destruct (result_ok _) as [meta|]; [|intros [= <- <-]; by split].
  destruct (is_dir_entry meta); [intros [= <- <-]; by split|].
  case_eq force; intros Hf; simpl; [|intros [= <- <-]; by split].
  intros Hrun. destruct (remove_file_runs Hf s r s' HI Hrun) as [Hr HQ]. split; [done|].
  intros a ->. split; [|by apply (HQ a)].
  apply (remove_file_run cwd dest here) in Hrun as [[[] _]|(_ & (e & He & Hd) & ->)]; [done| |auto].
  eapply Forall_impl; [exact Hc|]. intros q (e' & He' & Hd'). exists e'. split; [|done].
  rewrite entry_at_delete by done. rewrite decide_False; [done|]. intros Hq. rewrite Hq, He in He'. congruence.
Qed.

Lemma create_dir_all_runs :
  new NDir → runs M (λ fs, chain fs ∧ I fs) (create_dir_all cwd umask euid egid dest)
    (λ _ fs, I fs ∧ is_dir fs here).
Proof.
  intros Hn s r s' [Hc HI]. unfold create_dir_all. cbn [kp_comps dest of_comps].
  assert (∃ k, length (cs ++ [Normal n]) = S k) as [k ->] by (rewrite length_app; simpl; exists (length cs); lia).
  cbn [create_dir_all_go]. destruct (create_dir _ _ _ _ dest s) as [r1 s1] eqn:H1.
  unfold create_dir in H1. cbn [strip_slash dest of_comps kp_tail] in H1.
  destruct (create_entry_runs _ _ Hn s r1 s1 HI H1) as [Hr HQ].
  destruct r1 as [a|e|]; [| |intros [= <- <-]; by split].
  { intros [= <- <-]. split; [done|]. intros _ _. split; [by apply (HQ a)|].
    apply (create_entry_run _ _ _ _ dest here) in H1 as [[[] _]|(_ & _ & ->)]; [done| |auto].
    eexists. rewrite entry_at_insert, decide_True by done. done. }
  pose proof H1 as Hk. eapply create_entry_kind in Hk; [|by apply locate_leaf].
  apply String.eqb_neq in Hk. rewrite Hk.
  pose proof (stable_rtc _ _ _ _ I_stable Hr HI) as HI1. destruct (path_is_dir cwd dest s1) as [[b|e'|] s2] eqn:Hb;
    apply path_is_dir_run in Hb as (b' & Hb & -> & Ht); simplify_eq.
  destruct b'; intros [= <- <-]; (split; [done|]); [|done]. intros _ _. split; [done|].
  destruct (Ht eq_refl) as (e0 & He0 & Hd0). exists e0. split; [|done].
  eapply lookup_path_names; [|exact He0]. auto.
Qed.

Lemma write_atomic_runs pieces :
  (∀ bs, result_map id pieces = Ok bs → new (NFile (concat bs))) →
  runs (move force new (lex cwd cs) n) I (write_atomic_with cwd umask euid egid uuid dest pieces) (λ _, I).
Proof.
  intros Hn. apply runs_call; [by apply move_linkfree|]. intros s r s' HI Hrun.
  assert (∀ fs', written pieces (lf_tree s) fs' → move force new (lex cwd cs) n (lf_tree s) fs') as Hw.
  { intros fs' (bs & m & Hbs & Hd & ->). apply mv_write; [done|by apply Hn|done]. }
  apply write_atomic_with_runs in Hrun as [[_ ?]|[_ [-> | [(t & e & He & Hf & ->)|?]]]]; [auto|auto| |auto|done].
  right. by apply mv_litter.
Qed.
End Leaf.

Lemma result_map_id {A B : Type} (f : A → result B string) l : result_map id (map f l) = result_map f l.
Proof. induction l as [|x l IH]; simpl; [done|]. by rewrite IH. Qed.

(** What a record puts at its destination. *)
Definition produces `{!RestoreSource} (record : FileRecord) (nd : Node) : Prop :=
  match fr_payload record with
  | Directory => nd = NDir
  | Special _ => nd = NSpecial "fifo"
  | Symlink target => nd = NLink target
  | payload =>
    match payload_blob_ref payload with
    | Some (oid, key) => ∃ b, read_blob_payload oid key = Ok b ∧ nd = NFile b
    | None =>
      match payload_large_ref payload with
      | Some (_, key, _) => ∃ manifest bs, read_manifest key = Ok manifest ∧
          result_map read_large_chunk (lm_chunks manifest) = Ok bs ∧ nd = NFile (concat bs)
      | None => False
      end
    end
  end.
Definition is_symlink_record (record : FileRecord) : Prop := ∃ target, fr_payload record = Symlink target.

Section Payload.
Context `{!RestoreSource} (cwd : Loc) (umask euid egid : Z) (uuid : nat → string) (force : bool).

Lemma produces_no_links record : ¬ is_symlink_record record → no_links (produces record).
Proof.
  intros Hl t. unfold produces. destruct (fr_payload record) eqn:E; simpl; try naive_solver.
  by destruct Hl; eexists.
Qed.

Lemma restore_special_runs cs n record kind new :
  no_links new → new (NSpecial "fifo") →
  runs (quiet force new (lex cwd cs) n) (λ fs, linkfree cwd fs (cs ++ [Normal n]))
    (restore_special_file cwd umask euid egid (of_comps (cs ++ [Normal n])) record kind force)
    (λ _ fs, linkfree cwd fs (cs ++ [Normal n])).
Proof.
  intros Hno Hn. unfold restore_special_file. destruct (negb _); [apply runs_fail|].
  eapply runs_bind; [apply runs_pure; intros s; by rewrite stm_try_lstat|].
  assert (∀ mode, runs (quiet force new (lex cwd cs) n) (λ fs, linkfree cwd fs (cs ++ [Normal n]))
    (let* _ := mkfifo cwd umask euid egid (of_comps (cs ++ [Normal n])) mode in
     apply_file_metadata cwd (of_comps (cs ++ [Normal n])) record) (λ _ fs, linkfree cwd fs (cs ++ [Normal n]))) as Hmake.
  { intros mode. eapply runs_bind; [by apply create_entry_runs|]. intros []. by apply apply_file_metadata_runs. }
  intros [meta|]; [|by apply Hmake]. destruct (restore_special_matches _ _); [by apply apply_file_metadata_runs|].
  destruct force; [|apply runs_fail]. eapply runs_bind; [by apply remove_file_runs|]. intros []. by apply Hmake.
Qed.

Lemma restore_contents_runs cs n new (m : lf_m unit) :
  no_links new →
  runs (move force new (lex cwd cs) n) (λ fs, linkfree cwd fs (cs ++ [Normal n])) m (λ _ fs, linkfree cwd fs (cs ++ [Normal n])) →
  runs (move force new (lex cwd cs) n) (λ fs, Forall (is_dir fs) (steps cwd cs))
    (let* _ := ensure_restore_target_not_symlink cwd (of_comps (cs ++ [Normal n])) in
     let* _ := prepare_file_restore_destination cwd (of_comps (cs ++ [Normal n])) force in m)
    (λ _ fs, linkfree cwd fs (cs ++ [Normal n])).
Proof.
  intros Hno Hm. eapply runs_bind; [eapply runs_moves; [apply quiet_move|by apply not_symlink_runs]|]. intros [].
  eapply runs_bind; [eapply runs_moves; [apply quiet_move|eapply runs_pre; [by apply prepare_file_runs|by intros ? [_ ?]]]|].
  by intros [].
Qed.

Lemma write_contents_runs cs n new record pieces :
  no_links new → (∀ bs, result_map id pieces = Ok bs → new (NFile (concat bs))) →
  runs (move force new (lex cwd cs) n) (λ fs, linkfree cwd fs (cs ++ [Normal n]))
    (let* _ := write_atomic_with cwd umask euid egid uuid (of_comps (cs ++ [Normal n])) pieces in
     apply_file_metadata cwd (of_comps (cs ++ [Normal n])) record) (λ _ fs, linkfree cwd fs (cs ++ [Normal n])).
Proof.
  intros Hno Hn. eapply runs_bind; [by apply write_atomic_runs|]. intros [].
  eapply runs_moves; [apply quiet_move|by apply apply_file_metadata_runs].
Qed.

Lemma apply_payload_runs cs n record :
  ¬ is_symlink_record record →
  runs (move force (produces record) (lex cwd cs) n) (λ fs, Forall (is_dir fs) (steps cwd cs))
    (apply_payload cwd umask euid egid uuid record (of_comps (cs ++ [Normal n])) force)
    (λ _ fs, linkfree cwd fs (cs ++ [Normal n])).
Proof.
  intros Hsym. pose proof (produces_no_links _ Hsym) as Hno. revert Hno. unfold apply_payload, produces.
  destruct (fr_payload record) eqn:E; cbn [payload_blob_ref payload_large_ref]; intros Hno;
    try (apply restore_contents_runs; [done|]; apply runs_ok_bind; intros x Hx; apply write_contents_runs; [done|];
         intros bs; rewrite ?result_map_id; intros Hbs; simplify_eq/=; rewrite ?app_nil_r; by eauto).
  - eapply runs_moves; [apply quiet_move|]. eapply runs_bind; [by apply not_symlink_runs|]. intros [].
    eapply runs_bind; [by apply prepare_directory_runs|]. intros [].
    eapply runs_post; [by apply create_dir_all_runs|]. by intros ? ? [? _].
  - by destruct Hsym; eexists.
  - eapply runs_moves; [apply quiet_move|]. eapply runs_bind; [by apply not_symlink_runs|]. intros [].
    eapply runs_pre; [by apply restore_special_runs|]. by intros ? [_ ?].
Qed.

(** A link is made by name, without following one. *)
Lemma restore_symlink_runs cs n target :
  runs (quiet force (λ nd, nd = NLink target) (lex cwd cs) n) (λ fs, Forall (is_dir fs) (steps cwd cs))
    (restore_symlink cwd umask euid egid (of_comps (cs ++ [Normal n])) target force) (λ _ _, True).
Proof.
  intros s r s' Hc. assert (linkfree cwd (lf_tree s) cs) as Hl by (eapply Forall_impl; [exact Hc|apply is_dir_nonlink]).
  set (M := quiet _ _ _ _). set (here := lex cwd cs ++ [n]).
  assert (here ≠ []) as Hne by apply snoc_ne.
  unfold restore_symlink. unfold stm_bind at 1. rewrite stm_try_lstat.
  assert (∀ s1 r1 s2, linkfree cwd (lf_tree s1) cs →
    symlink cwd umask euid egid target (of_comps (cs ++ [Normal n])) s1 = (r1, s2) →
    rtc M (lf_tree s1) (lf_tree s2)) as Hlink.
  { intros s1 r1 s2 Hl1. unfold symlink. destruct (is_empty target); [by intros [= <- <-]|].
    intros [[_ ->]|(_ & [_ He]%entry_at_None & ->)]%(create_entry_run _ _ _ _ _ here); [done| |by apply names_leaf].
    apply rtc_once. by apply quiet_insert, mv_new. }
  unfold stm_bind. destruct (result_ok _) as [meta|]; [|intros Hrun; split; [by eapply Hlink|done]].
  destruct force eqn:Hf; simpl; [|intros [= <- <-]; by split].
  destruct (is_dir_entry meta); [intros [= <- <-]; by split|].
  destruct (remove_file cwd _ s) as [r1 s1] eqn:H1.
  apply (remove_file_run _ _ here) in H1 as [[(e & ->) H1]|(-> & (e & He & Hd) & H1)]; [| |by apply names_leaf].
  { intros [= <- <-]. rewrite H1. by split. }
  intros Hrun. split; [|done]. eapply rtc_l; [|eapply Hlink; [|exact Hrun]]; rewrite H1.
  - eapply quiet_delete, mv_remove; [done| |done]. by rewrite entry_at_ne in He.
  - eapply Forall_impl; [exact Hl|]. intros q Hq e'. rewrite entry_at_delete by done.
    case_decide; [done|apply Hq].
Qed.
End Payload.

(** ** The directories above a destination *)

(** A missing directory is made at one of the given locations. *)
Inductive grow (L : list Loc) (fs : FsTree) : FsTree → Prop :=
| grow_dir l m : l ∈ L → l ≠ [] → fs !! l = None → grow L fs (<[l := {| en_node := NDir; en_meta := m |}]> fs).

Section Parents.
Context (cwd : Loc) (umask euid egid : Z).

Definition dirs (fs : FsTree) (cs : list Component) : Prop := Forall (is_dir fs) (steps cwd cs).

Lemma dirs_snoc fs cs c : dirs fs (cs ++ [c]) ↔ dirs fs cs ∧ is_dir fs (lex cwd (cs ++ [c])).
Proof. unfold dirs. rewrite steps_app, Forall_app, lex_app. simpl. by rewrite Forall_singleton. Qed.

Lemma is_dir_insert fs l e q : entry_at fs l = None → is_dir fs q → is_dir (<[l := e]> fs) q.
Proof.
  intros Hl (e' & He' & Hd). destruct (entry_at_None _ _ Hl) as [Hne _].
  exists e'. split; [|done]. rewrite entry_at_insert by done. case_decide; [|done]. subst. congruence.
Qed.

Lemma ensure_leaf_runs L cs c :
  lex cwd (cs ++ [c]) ∈ L →
  runs (grow L) (λ fs, dirs fs cs)
    (ensure_directory_path_leaf_without_symlinks cwd umask euid egid (cs ++ [c])) (λ _ fs, dirs fs (cs ++ [c])).
Proof.
  intros HL s r s' Hc. set (q := lex cwd (cs ++ [c])) in *.
  assert (∀ s1 r1 s2, dirs (lf_tree s1) cs → symlink_metadata cwd (of_comps (cs ++ [c])) s1 = (r1, s2) →
     s2 = s1 ∧ r1 = match entry_at (lf_tree s1) q with Some e => Done e | None => Fails "NotFound" end) as Hstat.
  { intros s1 r1 s2 H1 [-> ->]%symlink_metadata_run. split; [done|]. unfold lookup_path.
    rewrite locate_leaf by done. simpl. fold q. by destruct (entry_at _ q). }
  assert (∀ fs e, dirs fs cs → entry_at fs q = Some e → is_link_entry e = false → is_dir_entry e = true →
    dirs fs (cs ++ [c])) as Hdir.
  { intros fs e H1 H2 _ H3. apply dirs_snoc. split; [done|]. by exists e. }
  unfold ensure_directory_path_leaf_without_symlinks. destruct (symlink_metadata _ _ s) as [r1 s1] eqn:H1.
  apply Hstat in H1 as [-> ->]; [|done]. destruct (entry_at (lf_tree s) q) as [e|] eqn:Eq.
  { destruct (is_link_entry e) eqn:El; [intros [= <- <-]; by split|].
    destruct (is_dir_entry e) eqn:Ed; simpl; intros [= <- <-]; (split; [done|]); [|done]. intros _ _. by eapply Hdir. }
  simpl. unfold stm_bind. destruct (create_dir _ _ _ _ _ s) as [r2 s2] eqn:H2.
  unfold create_dir in H2. cbn [strip_slash of_comps kp_tail] in H2.
  apply (create_entry_run _ _ _ _ _ q) in H2; [|intros x; rewrite locate_leaf by done; by intros [= <-]].
  destruct H2 as [[(e & ->) H2]|(-> & _ & H2)]; [intros [= <- <-]; rewrite H2; by split|].
  destruct (entry_at_None _ _ Eq) as [Hne Hq].
  assert (rtc (grow L) (lf_tree s) (lf_tree s2)) as Hr by (rewrite H2; apply rtc_once; by apply grow_dir).
  assert (dirs (lf_tree s2) cs) as Hc2.
  { rewrite H2. eapply Forall_impl; [exact Hc|]. intros x. by apply is_dir_insert. }
  destruct (symlink_metadata _ _ s2) as [r3 s3] eqn:H3. apply Hstat in H3 as [-> ->]; [|done].
  rewrite H2, entry_at_insert, decide_True by done. simpl. intros [= <- <-]. split; [done|].
  intros _ _. eapply Hdir; [done|rewrite H2, entry_at_insert, decide_True by done; done|done|done].
Qed.

Lemma ensure_components_runs L rest cs :
  (∀ q, q ∈ steps (lex cwd cs) rest → q ∈ L) →
  runs (grow L) (λ fs, dirs fs cs) (ensure_components cwd umask euid egid cs rest) (λ _ fs, dirs fs (cs ++ rest)).
Proof.
  revert cs; induction rest as [|c rest IH]; intros cs HL; cbn [ensure_components].
  { rewrite app_nil_r. by apply runs_pure. }
  assert (lex cwd (cs ++ [c]) = loc_step (lex cwd cs) c) as Hstep by (by rewrite lex_app).
  eapply runs_bind with (Q := λ _ fs, dirs fs (cs ++ [c])).
  - destruct c; try (apply ensure_leaf_runs; rewrite Hstep; set_solver).
    eapply runs_post; [by apply runs_pure|]. intros a fs Hc. apply dirs_snoc. split; [done|].
    rewrite lex_app. simpl. eexists. split; done.
  - intros []. replace (cs ++ c :: rest) with ((cs ++ [c]) ++ rest) by (by rewrite <-app_assoc).
    apply IH. rewrite Hstep. set_solver.
Qed.

Lemma ensure_beneath_runs L rel cs :
  (∀ q, q ∈ steps (lex cwd cs) (map Normal rel) → q ∈ L) →
  runs (grow L) (λ fs, dirs fs cs) (ensure_beneath cwd umask euid egid cs (map Normal rel))
    (λ _ fs, dirs fs (cs ++ map Normal rel)).
Proof.
  revert cs; induction rel as [|n rel IH]; intros cs HL; simpl.
  { rewrite app_nil_r. by apply runs_pure. }
  assert (lex cwd (cs ++ [Normal n]) = lex cwd cs ++ [n]) as Hstep by (by rewrite lex_app).
  simpl in HL. eapply runs_bind; [apply ensure_leaf_runs; rewrite Hstep; set_solver|]. intros [].
  replace (cs ++ Normal n :: map Normal rel) with ((cs ++ [Normal n]) ++ map Normal rel) by (by rewrite <-app_assoc).
  apply IH. rewrite Hstep. set_solver.
Qed.

Lemma strip_comps_app base rel : strip_comps base (base ++ rel) = Some rel.
Proof. induction base as [|b base IH]; [done|]. simpl. by rewrite bool_decide_true. Qed.

(** The destination [bc ++ names ++ [n]] below the base [bc]. *)
Lemma ensure_parent_runs base dest names n :
  path_components dest = path_components base ++ map Normal (names ++ [n]) →
  runs (grow (steps cwd (path_components base ++ map Normal names))) (λ _, True)
    (ensure_restore_parent_beneath cwd umask euid egid base dest)
    (λ _ fs, dirs fs (path_components base ++ map Normal names)).
Proof.
  intros Hd. unfold ensure_restore_parent_beneath. rewrite Hd, map_app, app_assoc. unfold fs_parent.
  simpl. rewrite last_snoc, removelast_last. rewrite steps_app.
  eapply runs_bind.
  { eapply runs_pre; [apply (ensure_components_runs _ (path_components base) [])|by constructor].
    simpl. set_solver. }
  intros []. simpl. case_bool_decide as Heq.
  - rewrite Heq. by apply runs_pure.
  - rewrite strip_comps_app. apply ensure_beneath_runs. set_solver.
Qed.
End Parents.
