(* ===== verification/RestoreBounds.v ===== *)
(** * A restore stays inside its bases

    Whatever links the file system or the snapshot holds, and whatever calls fail, applying
    a plan changes nothing outside the directories it restores into, except that missing
    directories on the way to them are made. *)

From S2P Require Import Prelude RStr BTree Util Core AtomicIo LinkFs RestoreApply RestoreSafety.

(** ** Where a plan writes *)

Section Places.
Context (cwd : Loc) (plan : RestorePlan).

Definition plan_base (id b : string) : Prop :=
  id ∈ map fr_root_id (rp_files plan) ++ map rd_root_id (rp_deletes plan) ∧
  restore_root_base (rp_to plan) (rp_root_paths plan) id = Ok b.

(** Strictly below a base, and on the way to one. *)
Definition beneath (base : list Component) (l : Loc) : Prop := ∃ ns, ns ≠ [] ∧ l = lex cwd base ++ ns.
Definition inside (l : Loc) : Prop := ∃ id b, plan_base id b ∧ beneath (path_components b) l.
Definition on_the_way (l : Loc) : Prop := ∃ id b, plan_base id b ∧ l ∈ steps cwd (path_components b).

(** Outside the bases nothing changes but that directories on the way to them appear. *)
Definition confined (fs fs' : FsTree) : Prop := ∀ l, ¬ inside l →
  fs' !! l = fs !! l ∨
  fs !! l = None ∧ on_the_way l ∧ ∃ m, fs' !! l = Some {| en_node := NDir; en_meta := m |}.

(** Where a record goes. *)
Definition record_loc (record : FileRecord) : option Loc :=
  match restore_destination plan record with Ok d => Some (lex cwd (path_components d)) | Err _ => None end.

(** The names in records and deletions carry no trailing separator. *)
Definition plain_plan : Prop :=
  Forall (λ r, path_tail (fr_path r) = NoTail) (rp_files plan) ∧
  Forall (λ d, path_tail (rd_path d) = NoTail) (rp_deletes plan).
(** No two records go to the same place. *)
Definition distinct_plan : Prop :=
  ∀ i j r1 r2 l, rp_files plan !! i = Some r1 → rp_files plan !! j = Some r2 →
    record_loc r1 = Some l → record_loc r2 = Some l → i = j.
(** When a base goes up by [..], the part it leaves again is not replaced by a link. *)
Definition detours_apart : Prop := ∀ r l id b,
  r ∈ rp_files plan → is_symlink_record r → record_loc r = Some l → plan_base id b →
  l ∈ steps cwd (path_components b) → l `prefix_of` lex cwd (path_components b).

#[global] Instance confined_preorder : PreOrder confined.
Proof.
  split; [by intros fs l; left|]. intros f1 f2 f3 H12 H23 l Hl.
  destruct (H12 l Hl) as [E12|(H1 & Hw & m & H2)], (H23 l Hl) as [E23|(H2' & Hw' & m' & H3)].
  - left. congruence.
  - right. rewrite <-E12. eauto.
  - right. rewrite E23. eauto.
  - congruence.
Qed.

Lemma rtc_confined fs fs' : rtc confined fs fs' → confined fs fs'.
Proof. induction 1; [reflexivity|by etrans]. Qed.

Lemma confined_insert fs l e : inside l → confined fs (<[l := e]> fs).
Proof. intros Hl q Hq. left. apply lookup_insert_ne. by intros ->. Qed.
Lemma confined_delete fs l : inside l → confined fs (delete l fs).
Proof. intros Hl q Hq. left. apply lookup_delete_ne. by intros ->. Qed.
End Places.

(** A destination: its base and the names below it. *)
Lemma restore_path_names base path d :
  validate_restore_relative_path path = Ok tt → d = path_join base path →
  ∃ ns n, path_components d = path_components base ++ map Normal (ns ++ [n]) ∧
    (path_tail path = NoTail → kpath d = of_comps ((path_components base ++ map Normal ns) ++ [Normal n])).
Proof.
  unfold validate_restore_relative_path. intros Hv ->. destruct (existsb _ _) eqn:Hn; [done|].
  apply all_normal in Hn as (names & Hn).
  destruct names as [|n ns _] using rev_ind; [by rewrite Hn in Hv|].
  assert (plain_rel path (ns ++ [n])) as Hp by (split; [done|by destruct ns]).
  exists ns, n. rewrite (path_components_join base path _ Hp). split; [done|]. intros Ht.
  unfold kpath, of_comps. rewrite (path_components_join base path _ Hp), (path_tail_join base path _ Hp Ht).
  by rewrite map_app, app_assoc.
Qed.

Lemma record_destination plan record d :
  restore_destination plan record = Ok d →
  ∃ b, restore_root_base (rp_to plan) (rp_root_paths plan) (fr_root_id record) = Ok b ∧
    validate_restore_relative_path (fr_path record) = Ok tt ∧ d = path_join b (fr_path record).
Proof.
  unfold restore_destination, restore_root_base. intros ([] & Hv & Hd)%result_bind_Ok.
  destruct (rp_to plan); [|destruct (bmap_get _ _); [|done]]; injection Hd as <-; eauto.
Qed.
Lemma delete_destination plan delete d :
  restore_delete_destination plan delete = Ok d →
  ∃ b, restore_root_base (rp_to plan) (rp_root_paths plan) (rd_root_id delete) = Ok b ∧
    validate_restore_relative_path (rd_path delete) = Ok tt ∧ d = path_join b (rd_path delete).
Proof.
  unfold restore_delete_destination, restore_root_base. intros ([] & Hv & Hd)%result_bind_Ok.
  destruct (rp_to plan); [|destruct (bmap_get _ _); [|done]]; injection Hd as <-; eauto.
Qed.

Lemma lex_below cwd bc ns n : lex cwd (bc ++ map Normal ns) ++ [n] = lex cwd bc ++ (ns ++ [n]).
Proof. by rewrite lex_app, lex_normals, app_assoc. Qed.

Lemma steps_normals cur ns q : q ∈ steps cur (map Normal ns) →
  ∃ ms, ms ≠ [] ∧ q = cur ++ ms ∧ ms `prefix_of` ns.
Proof.
  revert cur; induction ns as [|n ns IH]; intros cur; simpl; [set_solver|].
  intros [->|(ms & Hms & -> & Hp)%IH]%elem_of_cons.
  - exists [n]. split_and!; [done|done|]. by exists ns.
  - exists (n :: ms). split_and!; [done| |by apply prefix_cons]. by rewrite <-app_assoc.
Qed.

Section Bounds.
Context `{!RestoreSource} (cwd : Loc) (umask euid egid : Z) (uuid : nat → string).
Context (plan : RestorePlan).

Lemma inside_below id b ns n :
  plan_base plan id b → inside cwd plan (lex cwd (path_components b ++ map Normal ns) ++ [n]).
Proof. intros Hb. exists id, b. split; [done|]. exists (ns ++ [n]). rewrite lex_below. split; [by destruct ns|done]. Qed.

Lemma move_confined force new id b ns n fs fs' :
  plan_base plan id b →
  move force new (lex cwd (path_components b ++ map Normal ns)) n fs fs' → confined cwd plan fs fs'.
Proof.
  intros Hb. pose proof (λ x, inside_below id b ns x Hb) as Hin.
  destruct 1; first [by apply confined_insert|by apply confined_delete].
Qed.

Lemma grow_confined id b ns fs fs' :
  plan_base plan id b → grow (steps cwd (path_components b ++ map Normal ns)) fs fs' → confined cwd plan fs fs'.
Proof.
  intros Hb [l m Hl Hne Hnone]. rewrite steps_app in Hl. apply elem_of_app in Hl as [Hl|Hl].
  - intros q Hq. destruct (decide (q = l)) as [->|]; [|left; by apply lookup_insert_ne].
    right. split_and!; [done|by exists id, b|]. exists m. apply lookup_insert_eq.
  - apply confined_insert. exists id, b. split; [done|].
    apply steps_normals in Hl as (ms & Hms & -> & _). by exists ms.
Qed.

(** ** Deletions *)

Inductive removal (base : list Component) (fs : FsTree) : FsTree → Prop :=
| removal_at l : beneath cwd base l → removal base fs (delete l fs).

Lemma removal_linkfree base cs : stable (removal base) (λ fs, linkfree cwd fs cs).
Proof.
  intros fs fs' Hl [l (ns & Hns & ->)]. eapply Forall_impl; [exact Hl|]. intros q Hq e.
  rewrite entry_at_delete by (by intros [_ ?]%app_eq_nil). case_decide; [done|apply Hq].
Qed.

Lemma remove_dir_removal base ns n cs :
  cs = (base ++ map Normal ns) ++ [Normal n] →
  runs (removal base) (λ fs, linkfree cwd fs cs) (remove_dir cwd (of_comps cs)) (λ _ fs, linkfree cwd fs cs).
Proof.
  intros ->. apply runs_call; [apply removal_linkfree|]. intros s r s' Hl Hrun.
  apply (remove_dir_run _ _ (lex cwd (base ++ map Normal ns) ++ [n])) in Hrun as [[_ ->]|(_ & _ & _ & ->)];
    [by left| |by apply names_leaf, (linkfree_app _ _ _ [Normal n])].
  right. apply removal_at. exists (ns ++ [n]). rewrite lex_below. split; [by destruct ns|done].
Qed.

Lemma remove_empty_runs base k ns :
  runs (removal base) (λ fs, linkfree cwd fs (base ++ map Normal ns))
    (remove_empty_loop cwd k base (base ++ map Normal ns)) (λ _ _, True).
Proof.
  revert ns; induction k as [|k IH]; intros ns; cbn [remove_empty_loop].
  { eapply runs_post; [by apply runs_pure|done]. }
  case_bool_decide as Hp; [|eapply runs_post; [by apply runs_pure|done]].
  destruct ns as [|n ns _] using rev_ind; [destruct Hp as [_ []]; by rewrite app_nil_r|].
  rewrite map_app, app_assoc. intros s r s' Hl. cbn [map].
  destruct (remove_dir cwd _ s) as [r1 s1] eqn:H1.
  destruct (remove_dir_removal base ns n _ eq_refl s r1 s1 Hl H1) as [Hr HQ].
  destruct r1 as [a|e|]; [|intros [= <- <-]; by split..].
  unfold fs_parent. rewrite last_snoc, removelast_last. intros Hrun.
  destruct (IH ns s1 r s' (linkfree_app _ _ _ [Normal n] (HQ a eq_refl)) Hrun). split; [by etrans|done].
Qed.

Lemma remove_parents_runs delete b d ns n :
  restore_root_base (rp_to plan) (rp_root_paths plan) (rd_root_id delete) = Ok b →
  path_components d = path_components b ++ map Normal (ns ++ [n]) →
  runs (removal (path_components b)) (λ fs, linkfree cwd fs ((path_components b ++ map Normal ns) ++ [Normal n]))
    (remove_empty_restore_parents cwd plan delete d) (λ _ _, True).
Proof.
  intros Hb Hc. unfold remove_empty_restore_parents. rewrite Hc, map_app, app_assoc. unfold fs_parent.
  cbn [map]. rewrite last_snoc, removelast_last.
  assert (match rp_to plan with Some to => path_join to (rd_root_id delete)
          | None => default "/" (bmap_get (rp_root_paths plan) (rd_root_id delete)) end = b) as ->.
  { unfold restore_root_base in Hb. destruct (rp_to plan); [by injection Hb|].
    destruct (bmap_get _ _); [by injection Hb|done]. }
  eapply runs_pre; [apply remove_empty_runs|intros fs; apply linkfree_app].
Qed.

Lemma apply_delete_runs delete :
  delete ∈ rp_deletes plan → path_tail (rd_path delete) = NoTail →
  runs (confined cwd plan) (λ _, True) (apply_delete cwd umask euid egid plan delete) (λ _ _, True).
Proof.
  intros Hin Ht. unfold apply_delete. apply runs_ok_bind. intros d Hd. apply runs_ok_bind. intros b Hb.
  apply delete_destination in Hd as (b' & Hb' & Hv & ->). rewrite Hb in Hb'. injection Hb' as <-.
  assert (plan_base plan (rd_root_id delete) b) as Hpb.
  { split; [|done]. apply elem_of_app. right. apply list_elem_of_fmap. eauto. }
  destruct (restore_path_names b (rd_path delete) _ Hv eq_refl) as (ns & n & Hc & Hk). rewrite (Hk Ht).
  set (cs := path_components b ++ map Normal ns) in *.
  eapply runs_bind.
  { eapply runs_moves; [|by apply (ensure_parent_runs _ _ _ _ _ _ ns n)]. intros ? ?. by eapply grow_confined. }
  intros []. eapply runs_bind.
  { eapply runs_moves; [|apply (not_symlink_runs _ true (λ _, False)); by intros ?]. intros ? ? [? _]. by eapply move_confined. }
  intros [].
  eapply runs_bind; [apply runs_pure; intros s; by rewrite stm_try_lstat|].
  intros [meta|]; [|eapply runs_post; [by apply runs_pure|done]].
  eapply runs_bind with (Q := λ _ fs, linkfree cwd fs (cs ++ [Normal n])).
  { eapply runs_pre; [|intros ? [_ HI]; exact HI].
    eapply runs_moves; [|apply (remove_file_runs _ true (λ _, False)); [by intros ? []|done]].
    intros ? ? [? _]. by eapply move_confined. }
  intros []. eapply runs_moves; [|by eapply remove_parents_runs].
  intros ? ? [l Hl]. apply confined_delete. by exists (rd_root_id delete), b.
Qed.

(** ** Directories whose metadata is set at the end

    The path of such a directory meets no link; what lies above it is a directory, which
    cannot be removed while the directory exists. *)
Definition guarded (fs : FsTree) (ds : list Component) : Prop :=
  linkfree cwd fs ds ∧
  (∀ q, q ∈ steps cwd ds → q `prefix_of` lex cwd ds → q ≠ lex cwd ds → is_dir fs q) ∧
  fs !! lex cwd ds ≠ None.

Lemma occupied_true (fs : FsTree) l q : fs !! q ≠ None → l `prefix_of` q → q ≠ l → occupied fs l = true.
Proof.
  intros Hq Hp Hne. apply bool_decide_eq_true.
  destruct (fs !! q) as [e|] eqn:E; [|done]. by exists q, e.
Qed.

(** What is there and not at the destination stays. *)
Lemma move_other force new dir n fs fs' q e :
  move force new dir n fs fs' → q ≠ dir ++ [n] → fs !! q = Some e → fs' !! q = Some e.
Proof.
  intros Hm Hq He. destruct Hm; rewrite ?lookup_insert_ne, ?lookup_delete_ne by done; try done.
  rewrite lookup_insert_ne; [done|]. intros <-. congruence.
Qed.
Lemma move_is_dir force new dir n fs fs' q l :
  move force new dir n fs fs' → fs !! l ≠ None → q `prefix_of` l → q ≠ l → is_dir fs q → is_dir fs' q.
Proof.
  intros Hm Hl Hp Hne (e & He & Hd). assert (∀ x, dir ++ [x] ≠ []) as Hx by (intros x; apply snoc_ne).
  destruct Hm as [e' m He'|e' He' _|e' _ _ Hd'|e' _ He' Hd'|_ _ Ho|t e' He' _].
  - unfold is_dir. rewrite entry_at_insert by done. case_decide as Hq; [|by exists e].
    subst q. rewrite entry_at_ne, He' in He by done. injection He as ->. by eexists.
  - apply is_dir_insert; [by rewrite entry_at_ne|by exists e].
  - exists e. split; [|done]. rewrite entry_at_insert by done. rewrite decide_False; [done|].
    intros ->. rewrite entry_at_ne in He by done. apply Hd' in He. congruence.
  - exists e. split; [|done]. rewrite entry_at_delete by done. rewrite decide_False; [done|].
    intros ->. rewrite entry_at_ne, He' in He by done. congruence.
  - exists e. split; [|done]. rewrite entry_at_delete by done. rewrite decide_False; [done|].
    intros ->. rewrite (occupied_true _ _ l) in Ho; [done..|by apply not_eq_sym].
  - apply is_dir_insert; [by rewrite entry_at_ne|by exists e].
Qed.

Lemma move_guarded force new dir n ds fs fs' :
  dir ++ [n] ≠ lex cwd ds →
  (no_links new ∨ (dir ++ [n] ∈ steps cwd ds → dir ++ [n] `prefix_of` lex cwd ds)) →
  move force new dir n fs fs' → guarded fs ds → guarded fs' ds.
Proof.
  intros Hne Hnew Hm (Hl & Hd & Hex). split_and!.
  - apply Forall_forall. intros q Hq. unfold linkfree in Hl. rewrite Forall_forall in Hl.
    destruct (decide (q = dir ++ [n])) as [->|Hqn].
    + destruct Hnew as [Hno|Hpre]; [by eapply move_nonlink, Hl|].
      apply is_dir_nonlink. eapply move_is_dir; [done|done|by apply Hpre|done|]. by apply Hd; [|apply Hpre|].
    + intros e He. assert (∀ x, dir ++ [x] ≠ []) as Hx by (intros x; apply snoc_ne).
      destruct Hm; rewrite ?entry_at_insert, ?entry_at_delete in He by done; rewrite ?decide_False in He by done;
        try (by apply (Hl q Hq)).
      case_decide; [|by apply (Hl q Hq)]. injection He as ->. unfold is_file_entry, is_link_entry in *. by destruct (en_node e).
  - intros q Hq Hp Hqne. eapply move_is_dir; [done|done|done|done|by apply Hd].
  - destruct (fs !! lex cwd ds) as [e|] eqn:E; [|done]. by rewrite (move_other _ _ _ _ _ _ _ _ Hm (not_eq_sym Hne) E).
Qed.

Lemma grow_guarded L ds fs fs' : grow L fs fs' → guarded fs ds → guarded fs' ds.
Proof.
  intros [l m _ Hne Hnone] (Hl & Hd & Hex). split_and!.
  - eapply Forall_impl; [exact Hl|]. intros q Hq e. rewrite entry_at_insert by done.
    case_decide; [by intros [= <-]|apply Hq].
  - intros q ? ? ?. apply is_dir_insert; [by rewrite entry_at_ne|by apply Hd].
  - destruct (decide (l = lex cwd ds)) as [->|]; [by rewrite lookup_insert_eq|by rewrite lookup_insert_ne].
Qed.

(** ** Records *)

(** A directory put off: its record is the [i]th of the plan. *)
Definition put_off (fs : FsTree) (k : nat) (x : KPath * FileRecord) : Prop :=
  ∃ i id b ns n, (i < k)%nat ∧ rp_files plan !! i = Some x.2 ∧ plan_base plan id b ∧
    x.1 = of_comps ((path_components b ++ map Normal ns) ++ [Normal n]) ∧
    record_loc cwd plan x.2 = Some (lex cwd (kp_comps x.1)) ∧ guarded fs (kp_comps x.1).

Lemma in_plan_base record b : record ∈ rp_files plan →
  restore_root_base (rp_to plan) (rp_root_paths plan) (fr_root_id record) = Ok b → plan_base plan (fr_root_id record) b.
Proof. intros Hin Hb. split; [|done]. apply elem_of_app. left. apply list_elem_of_fmap. eauto. Qed.

(** A link of the plan lies on the path of a directory only above it. *)
Lemma link_above record l id b names :
  detours_apart cwd plan → record ∈ rp_files plan → is_symlink_record record → record_loc cwd plan record = Some l →
  plan_base plan id b → l ∈ steps cwd (path_components b ++ map Normal names) →
  l `prefix_of` lex cwd (path_components b ++ map Normal names).
Proof.
  intros Hdet Hin Hsym Hl Hb. rewrite steps_app, lex_app, lex_normals. intros [Hs|Hs]%elem_of_app.
  - apply prefix_app_r. by eapply Hdet.
  - apply steps_normals in Hs as (ms & _ & -> & [rest ->]). exists rest. by rewrite app_assoc.
Qed.

Lemma apply_payload_any force record cs n :
  runs (move force (produces record) (lex cwd cs) n) (λ fs, dirs cwd fs cs)
    (apply_payload cwd umask euid egid uuid record (of_comps (cs ++ [Normal n])) force) (λ _ _, True).
Proof.
  destruct (fr_payload record) as [| | | | | | |target|] eqn:E;
    try (eapply runs_post; [apply apply_payload_runs; intros [t Ht]; congruence|done]).
  unfold apply_payload, produces. rewrite E. eapply runs_moves; [apply quiet_move|apply restore_symlink_runs].
Qed.

Lemma rtc_impl {A : Type} (R R' : relation A) x y : (∀ x y, R x y → R' x y) → rtc R x y → rtc R' x y.
Proof. intros HR. induction 1; [done|]. eapply rtc_l; eauto. Qed.

Lemma directory_made force record cs n s s' :
  fr_payload record = Directory → dirs cwd (lf_tree s) cs →
  apply_payload cwd umask euid egid uuid record (of_comps (cs ++ [Normal n])) force s = (Done tt, s') →
  ∃ e, lf_tree s' !! (lex cwd cs ++ [n]) = Some e ∧ is_dir_entry e = true.
Proof.
  intros E Hc Hrun. unfold apply_payload in Hrun. rewrite E in Hrun.
  apply stm_bind_Done in Hrun as ([] & s1 & H1 & Hrun). apply stm_bind_Done in Hrun as ([] & s2 & H2 & Hrun).
  destruct (not_symlink_runs cwd force (λ _, False) cs n s _ s1 Hc H1) as [_ H1'].
  destruct (prepare_directory_runs cwd force (λ _, False) cs n (λ _ H, H) s1 _ s2 (H1' tt eq_refl) H2) as [_ H2'].
  assert (no_links (λ nd, nd = NDir)) as Hno by (by intros ?).
  destruct (create_dir_all_runs cwd umask euid egid force _ cs n Hno eq_refl s2 _ s' (H2' tt eq_refl) Hrun) as [_ H3].
  destruct (H3 tt eq_refl) as [_ (e & He & Hd)]. rewrite entry_at_snoc in He. eauto.
Qed.

(** A directory record that is done is guarded. *)
Lemma directory_guarded force record bc ns n s s' :
  fr_payload record = Directory → dirs cwd (lf_tree s) (bc ++ map Normal ns) →
  apply_payload cwd umask euid egid uuid record (of_comps ((bc ++ map Normal ns) ++ [Normal n])) force s = (Done tt, s') →
  guarded (lf_tree s') ((bc ++ map Normal ns) ++ [Normal n]).
Proof.
  intros E Hc Hrun. set (cs := bc ++ map Normal ns) in *.
  assert (¬ is_symlink_record record) as Hsym by (intros [t Ht]; congruence).
  destruct (apply_payload_runs cwd umask euid egid uuid force cs n record Hsym s _ s' Hc Hrun) as [Hr HQ].
  unfold guarded. rewrite lex_app. change (lex (lex cwd cs) [Normal n]) with (lex cwd cs ++ [n]). split_and!.
  - by apply (HQ tt).
  - intros q Hq Hp Hne. rewrite steps_app in Hq. apply elem_of_app in Hq as [Hq|Hq]; [|simpl in Hq; set_solver].
    unfold dirs in Hc. rewrite Forall_forall in Hc. destruct (Hc q Hq) as (e & He & Hd).
    destruct q as [|x q]; [by eexists|]. exists e. split; [|done]. simpl in *. clear -Hr He Hne.
    induction Hr as [|f1 f2 f3 Hm _ IH]; [done|]. apply IH. by eapply move_other.
  - destruct (directory_made force record cs n s s' E Hc Hrun) as (e & -> & _). done.
Qed.

Section Records.
Hypothesis plain : plain_plan plan.
Hypothesis distinct : distinct_plan cwd plan.
Hypothesis detours : detours_apart cwd plan.

(** The place of a record: its base [b], and the names [ns ++ [n]] below it. *)
Definition record_place (record : FileRecord) (b d : string) (ns : list string) (n : string) : Prop :=
  plan_base plan (fr_root_id record) b ∧
  path_components d = path_components b ++ map Normal (ns ++ [n]) ∧
  kpath d = of_comps ((path_components b ++ map Normal ns) ++ [Normal n]) ∧
  record_loc cwd plan record = Some (lex cwd (path_components b ++ map Normal ns) ++ [n]).

Lemma record_has_place record d :
  record ∈ rp_files plan → restore_destination plan record = Ok d →
  ∃ b ns n, restore_root_base (rp_to plan) (rp_root_paths plan) (fr_root_id record) = Ok b ∧ record_place record b d ns n.
Proof.
  intros Hin Hd. pose proof (record_destination _ _ _ Hd) as (b & Hb & Hv & Hdj).
  destruct (restore_path_names b (fr_path record) d Hv Hdj) as (ns & n & Hc & Hkp).
  destruct plain as [Hplain _]. rewrite Forall_forall in Hplain.
  exists b, ns, n. split; [done|]. split_and!; [by apply in_plan_base|done|by apply Hkp, Hplain|].
  unfold record_loc. rewrite Hd, Hc, lex_below. f_equal. by rewrite lex_app, lex_normals.
Qed.

(** What the moves of a record keep: everything outside, and the directories put off. *)
Definition kept (defs : list (KPath * FileRecord)) (fs fs' : FsTree) : Prop :=
  confined cwd plan fs fs' ∧ ∀ x, x ∈ defs → guarded fs (kp_comps x.1) → guarded fs' (kp_comps x.1).

Lemma kept_put_off k defs : stable (kept defs) (λ fs, Forall (put_off fs k) defs).
Proof.
  intros fs fs' Hg [_ Hkept]. rewrite Forall_forall in *. intros x Hx.
  destruct (Hg x Hx) as (i & id & b & ns & n & ? & ? & ? & ? & ? & ?). exists i, id, b, ns, n. split_and!; auto.
Qed.
Lemma put_off_mono fs k k' x : (k ≤ k')%nat → put_off fs k x → put_off fs k' x.
Proof. intros Hle (i & id & b & ns & n & ? & ?). exists i, id, b, ns, n. split; [lia|done]. Qed.

Lemma record_move_kept force k record b d ns n defs fs0 fs fs' :
  rp_files plan !! k = Some record → record_place record b d ns n → Forall (put_off fs0 k) defs →
  move force (produces record) (lex cwd (path_components b ++ map Normal ns)) n fs fs' → kept defs fs fs'.
Proof.
  intros Hk (Hpb & _ & _ & Hloc) Hdefs Hm. split; [by eapply move_confined|]. intros x Hx.
  rewrite Forall_forall in Hdefs. destruct (Hdefs x Hx) as (i & id & b' & ns' & n' & Hi & Hri & Hb' & Hx1 & Hlx & _).
  eapply move_guarded; [| |exact Hm].
  - intros Heq. rewrite <-Heq in Hlx. pose proof (distinct _ _ _ _ _ Hri Hk Hlx Hloc). lia.
  - destruct (fr_payload record) eqn:E; try (left; apply produces_no_links; intros [? ?]; congruence).
    right. rewrite Hx1. cbn [kp_comps of_comps]. rewrite <-app_assoc. change [Normal n'] with (map Normal [n']).
    rewrite <-map_app. eapply (link_above record); [done|by eapply list_elem_of_lookup_2|by exists target|done|done].
Qed.

Lemma apply_record_runs force k record (defs : list (KPath * FileRecord)) :
  rp_files plan !! k = Some record →
  runs (confined cwd plan) (λ fs, Forall (put_off fs k) defs)
    (apply_record cwd umask euid egid uuid plan force record)
    (λ out fs, Forall (put_off fs (S k)) (defs ++ option_list out)).
Proof.
  intros Hk. unfold apply_record. apply runs_ok_bind. intros d Hd. apply runs_ok_bind. intros b' Hb'.
  destruct (record_has_place record d (list_elem_of_lookup_2 _ _ _ Hk) Hd) as (b & ns & n & Hb & Hplace).
  rewrite Hb in Hb'. injection Hb' as <-. pose proof Hplace as (Hpb & Hc & Hkp & Hloc). rewrite Hkp.
  set (cs := path_components b ++ map Normal ns) in *.
  intros s r s' Hdefs Hrun. unfold stm_bind at 1 in Hrun.
  destruct (ensure_restore_parent_beneath _ _ _ _ b d s) as [r1 s1] eqn:H1.
  assert (∀ fs fs', grow (steps cwd cs) fs fs' → kept defs fs fs') as Hgrow.
  { intros fs fs' Hgr. split; [by eapply grow_confined|]. intros x _. by eapply grow_guarded. }
  destruct (ensure_parent_runs _ _ _ _ _ _ ns n Hc s r1 s1 I H1) as [Hr1 HQ1].
  apply (rtc_impl _ _ _ _ Hgrow) in Hr1. pose proof (stable_rtc _ _ _ _ (kept_put_off k defs) Hr1 Hdefs) as Hdefs1.
  assert (∀ fs fs', rtc (kept defs) fs fs' → rtc (confined cwd plan) fs fs') as Hconf by (intros ? ?; apply rtc_impl; by intros ? ? []).
  destruct r1 as [a|e|]; [|injection Hrun as <- <-; split; [by apply Hconf|done]..].
  unfold stm_bind at 1 in Hrun. destruct (apply_payload _ _ _ _ _ record _ force s1) as [r2 s2] eqn:H2.
  destruct (apply_payload_any force record cs n s1 r2 s2 (HQ1 a eq_refl) H2) as [Hr2 _].
  apply (rtc_impl _ (kept defs)) in Hr2; [|intros ? ?; by eapply record_move_kept].
  pose proof (stable_rtc _ _ _ _ (kept_put_off k defs) Hr2 Hdefs1) as Hdefs2.
  assert (rtc (confined cwd plan) (lf_tree s) (lf_tree s2)) as Hr by (apply Hconf; by etrans).
  destruct r2 as [[]|e|]; [|injection Hrun as <- <-; by split..].
  injection Hrun as <- <-. split; [done|]. intros out [= <-]. apply Forall_app. split.
  { eapply Forall_impl; [exact Hdefs2|]. intros x. apply put_off_mono. lia. }
  destruct (fr_payload record) eqn:E; simpl; try constructor; [|constructor].
  exists k, (fr_root_id record), b, ns, n. cbn [fst snd kp_comps of_comps]. split_and!; [lia|done..| |].
  - rewrite Hloc. f_equal. by rewrite lex_app.
  - by eapply directory_guarded; [|by apply (HQ1 a)|].
Qed.

Lemma apply_records_runs force todo k defs :
  drop k (rp_files plan) = todo →
  runs (confined cwd plan) (λ fs, Forall (put_off fs k) defs)
    (stm_map (apply_record cwd umask euid egid uuid plan force) todo)
    (λ out fs, ∃ k', Forall (put_off fs k') (defs ++ omap id out)).
Proof.
  revert k defs. induction todo as [|record todo IH]; intros k defs Hdrop; simpl.
  { eapply runs_post; [apply runs_ret|]. intros out fs [-> ?]. exists k. simpl. by rewrite app_nil_r. }
  assert (rp_files plan !! k = Some record) as Hk.
  { rewrite <-(Nat.add_0_r k), <-lookup_drop, Hdrop. done. }
  eapply runs_bind; [by apply apply_record_runs|]. intros out.
  eapply runs_bind; [apply (IH (S k))|].
  { replace (S k) with (k + 1)%nat by lia. by rewrite <-drop_drop, Hdrop. }
  intros outs. eapply runs_post; [apply runs_ret|]. intros l fs [-> (k' & Hk')]. exists k'.
  rewrite <-app_assoc in Hk'. by destruct out.
Qed.

(** The metadata of directories reaches the directories themselves. *)
Lemma directory_metadata_runs (xs : list (KPath * FileRecord)) :
  (∀ x, x ∈ xs → ∃ id b ns n, plan_base plan id b ∧
     x.1 = of_comps ((path_components b ++ map Normal ns) ++ [Normal n])) →
  runs (confined cwd plan) (λ fs, Forall (λ x, linkfree cwd fs (kp_comps x.1)) xs)
    (stm_iter (λ '(dest, record), apply_file_metadata cwd dest record) xs) (λ _ _, True).
Proof.
  intros Hxs. set (M := λ fs fs' : FsTree, confined cwd plan fs fs' ∧ ∀ cs, linkfree cwd fs cs → linkfree cwd fs' cs).
  eapply runs_moves with (M := M); [by intros ? ? []|].
  eapply runs_post; [apply runs_iter|done]. intros [dest record] Hx.
  destruct (Hxs _ Hx) as (id & b & ns & n & Hb & Heq). simpl in Heq. subst dest.
  assert (stable M (λ fs, Forall (λ x, linkfree cwd fs (kp_comps x.1)) xs)) as HM.
  { intros fs fs' Hall [_ Hl]. eapply Forall_impl; [exact Hall|]. intros x. apply Hl. }
  intros s r s' Hall Hrun. pose proof Hall as Hall'. rewrite Forall_forall in Hall'.
  destruct (apply_file_metadata_runs cwd false (λ _, False) _ n (λ _ H, H) record s r s' (Hall' _ Hx) Hrun) as [Hr _].
  apply (rtc_impl _ M) in Hr.
  - split; [done|]. intros _ _. exact (stable_rtc _ _ _ _ HM Hr Hall).
  - intros fs fs' [Hm _]. split; [by eapply move_confined|]. intros cs Hl.
    eapply (move_linkfree cwd false (λ _, False)); [by intros ? []|exact Hl|exact Hm].
Qed.
End Records.

Lemma lstat_keeps p : keeps (λ s, s) (symlink_metadata cwd p).
Proof. intros s. destruct (symlink_metadata cwd p s) eqn:E. by apply symlink_metadata_run in E as [-> _]. Qed.
Lemma metadata_keeps p : keeps (λ s, s) (metadata cwd p).
Proof. intros s. unfold metadata, stm_bind, stm_get. by destruct (lookup_path _ _ _ _). Qed.
Lemma try_exists_keeps p : keeps (λ s, s) (try_exists cwd p).
Proof.
  intros s. unfold try_exists. pose proof (metadata_keeps p s) as Hm.
  destruct (metadata cwd p s) as [[]]; simpl in *; repeat case_match; by subst.
Qed.

Lemma matches_keeps record dest : keeps (λ s, s) (restore_record_matches_path cwd record dest).
Proof.
  unfold restore_record_matches_path. apply keeps_bind; [apply lstat_keeps|]. intros meta.
  assert (∀ key, keeps (λ s : LfState, s) (match en_node meta with
    | NFile current => if negb (Z.of_nat (length current) =? fr_size record)%Z then stm_ret false else
        let* manifest := stm_ok (read_manifest key) in stm_ok (chunks_match (lm_chunks manifest) current)
    | _ => stm_ret false end)) as Hlarge.
  { intros key. destruct (en_node meta) as [|current| |]; try apply keeps_ret.
    destruct (negb _); [apply keeps_ret|]. apply keeps_bind; [apply keeps_ok|]. intros ?. apply keeps_ok. }
  assert (∀ oid key, keeps (λ s : LfState, s) (if negb (is_file_entry meta) then stm_ret false else
      let* found := read_file cwd dest in
      let* expected := stm_ok (read_blob_payload oid key) in stm_ret (bool_decide (found = expected)))) as Hblob.
  { intros oid key. destruct (negb _); [apply keeps_ret|]. unfold read_file. apply keeps_bind; [apply keeps_bind|].
    - apply metadata_keeps.
    - intros e. destruct (en_node e); [apply keeps_fail|apply keeps_ret|apply keeps_fail..].
    - intros found. apply keeps_bind; [apply keeps_ok|]. intros ?. apply keeps_ret. }
  destruct (fr_payload record); cbn [payload_blob_ref payload_large_ref]; first [apply keeps_ret|apply Hblob|apply Hlarge].
Qed.

Lemma conflicts_keeps files acc : keeps (λ s, s) (restore_conflicts_loop cwd plan files acc).
Proof.
  revert acc; induction files as [|r files IH]; intros acc; simpl; [apply keeps_ret|].
  apply keeps_bind; [apply keeps_ok|]. intros d. apply keeps_bind; [apply try_exists_keeps|]. intros ex.
  destruct (negb ex); [apply IH|]. apply keeps_bind; [apply matches_keeps|]. intros ?. apply IH.
Qed.

(** C4. Applying a restore plan, with or without [force], with any of its calls failing and
    with any symbolic links in the file system or among the records, changes nothing outside
    the directories the plan restores into: at every other location the file system is as it
    was, except that a missing directory on the way to such a directory may have been made.
    These directories are the one of [--to] with the root identifier of a record appended, or
    the directory of the root; a root identifier that goes up leads elsewhere
    ([root_id_leaves_target]). The plan is one without trailing separators in its paths
    (otherwise [trailing_separator_reaches_link_target]), no two records of which go to the
    same place, and no link of which lies on a detour a base takes over a [..]. *)
Theorem restore_stays_inside force check_conflicts s :
  plain_plan plan → distinct_plan cwd plan → detours_apart cwd plan →
  confined cwd plan (lf_tree s)
    (lf_tree (apply_restore_plan cwd umask euid egid uuid plan force check_conflicts s).2).
Proof.
  intros Hplain Hdist Hdet. apply rtc_confined.
  enough (runs (confined cwd plan) (λ _, True)
    (apply_restore_plan cwd umask euid egid uuid plan force check_conflicts) (λ _ _, True)) as Hruns.
  { destruct (apply_restore_plan _ _ _ _ _ _ _ _ s) as [r s'] eqn:E. by destruct (Hruns _ _ _ I E). }
  unfold apply_restore_plan. apply runs_ok_bind. intros _ _.
  eapply runs_bind with (Q := λ _ _, True).
  { destruct (check_conflicts && negb force); [|by apply runs_pure].
    eapply runs_bind; [apply runs_pure, conflicts_keeps|]. intros c. destruct (negb _); [apply runs_fail|].
    destruct (negb _); [apply runs_fail|by apply runs_pure]. }
  intros []. eapply runs_bind.
  { apply runs_iter. intros delete Hin. destruct Hplain as [_ Hp]. rewrite Forall_forall in Hp. by apply apply_delete_runs, Hp. }
  intros []. eapply runs_bind.
  { eapply runs_pre; [by apply (apply_records_runs Hplain Hdist Hdet force _ 0 [])|by constructor]. }
  intros out. simpl. intros s1 r s' (k & Hoff) Hrun. rewrite Forall_forall in Hoff.
  eapply directory_metadata_runs; [| |exact Hrun].
  - intros x Hx. destruct (Hoff x Hx) as (i & id & b & ns & n & _ & _ & ? & ? & _). eauto 10.
  - apply Forall_forall. intros x Hx. destruct (Hoff x Hx) as (i & id & b & ns & n & _ & _ & _ & _ & _ & Hg). apply Hg.
Qed.
End Bounds.
