(* ===== verification/RestoreFaults.v ===== *)
(** * Restores without faults

    Faults are never added: a restore that starts with no fault to come runs without one.
    What the system may refuse without failing the restore, the owner and the extended
    attributes of a file, is then set. *)

From S2P Require Import Prelude RStr BTree Util Core AtomicIo LinkFs RestoreApply RestoreSafety RestoreBounds.

(** ** No call fails *)

(** No fault is left: what fails then fails because of the tree. *)
Definition undisturbed (s s' : LfState) : Prop := lf_faults s = [] → lf_faults s' = [].
#[export] Instance undisturbed_preorder : PreOrder undisturbed.
Proof. split; [intros s H; exact H|]. intros s1 s2 s3 H1 H2 H. auto. Qed.

#[local] Create HintDb still discriminated.
#[local] Hint Constants Opaque : still.
Ltac still_solve :=
  repeat lazymatch goal with
  | |- always _ (stm_bind _ _) => apply always_bind; [typeclasses eauto| |intros ?]
  | |- always _ (match ?x with _ => _ end) => destruct x
  | |- always _ (stm_ret _) => apply always_ret; typeclasses eauto
  | |- always _ (stm_fail _) => apply always_fail; typeclasses eauto
  | |- always _ (stm_get _) => apply always_get; typeclasses eauto
  | |- always _ (stm_ok _) => apply always_ok; typeclasses eauto
  | |- always _ (stm_iter _ _) => apply always_iter; [typeclasses eauto|intros ?]
  | |- _ => solve [auto with still]
  end.

Section Undisturbed.
Context `{!RestoreSource} (cwd : Loc) (umask euid egid : Z) (uuid : nat → string).
Abbreviation still := (always undisturbed).

Lemma still_sys {A} (op : FsTree → outcome A string * FsTree) : still (sys op).
Proof. intros s Hs. unfold sys. rewrite Hs. by destruct (op (lf_tree s)). Qed.
Lemma still_write file bytes : still (write_all file bytes).
Proof. intros s Hs. unfold write_all. by rewrite Hs. Qed.
Lemma still_or {A} (x : A) (m : lf_m A) : still m → still (stm_or x m).
Proof. intros Hm s. unfold stm_or. specialize (Hm s). by destruct (m s) as [[]]. Qed.
Lemma still_map {A B} (f : A → lf_m B) l : (∀ x, still (f x)) → still (stm_map f l).
Proof.
  intros Hf. induction l as [|x l IH]; simpl; [apply always_ret; apply _|].
  apply always_bind; [apply _|done|intros y]. apply always_bind; [apply _|done|intros ys]. apply always_ret; apply _.
Qed.
Lemma still_lstat p : still (symlink_metadata cwd p).
Proof. unfold symlink_metadata. still_solve. Qed.
Lemma still_metadata p : still (metadata cwd p).
Proof. unfold metadata. still_solve. Qed.
Lemma still_ignore {A} (m : lf_m A) : still m → still (stm_ignore m).
Proof. intros Hm. apply still_or. still_solve. Qed.
#[local] Hint Resolve still_ignore still_sys still_write still_or still_map still_lstat still_metadata : still.

(** Looks at the outcome of a call. *)
Ltac still_case H s :=
  let Hs := fresh "Hs" in pose proof (H s) as Hs; unfold undisturbed in Hs |- *;
  match type of Hs with _ → lf_faults (?m s).2 = [] => destruct (m s) as [[?|?|] ?] end; simpl in *.

Lemma still_exists p : still (try_exists cwd p).
Proof. intros s. unfold try_exists. still_case (still_metadata p) s; [done|by destruct (_ =? _)%string|done]. Qed.
Lemma still_try {A} (m : lf_m A) : still m → still (stm_try m).
Proof. intros Hm. unfold stm_try. apply still_or. still_solve. Qed.
Lemma still_entry_is test p : still (entry_is cwd test p).
Proof. unfold entry_is. apply still_or. still_solve. Qed.
Lemma still_is_dir p : still (path_is_dir cwd p).
Proof. unfold path_is_dir. apply still_or. still_solve. Qed.
Lemma still_create p nd mode : still (create_entry cwd umask euid egid p nd mode).
Proof. apply still_sys. Qed.
Lemma still_create_dir p : still (create_dir cwd umask euid egid p).
Proof. apply still_sys. Qed.
Lemma still_symlink t p : still (symlink cwd umask euid egid t p).
Proof. unfold symlink. still_solve. apply still_sys. Qed.
Lemma still_remove p : still (remove_file cwd p).
Proof. apply still_sys. Qed.
Lemma still_rmdir p : still (remove_dir cwd p).
Proof. unfold remove_dir. still_solve; apply still_sys. Qed.
Lemma still_change_meta follow p f : still (change_meta cwd follow p f).
Proof. apply still_sys. Qed.
#[local] Hint Resolve still_exists still_try still_entry_is still_is_dir still_create still_create_dir still_symlink still_remove still_rmdir
  still_change_meta : still.

Lemma still_create_or_exists p : still (create_dir_or_exists cwd umask euid egid p).
Proof.
  intros s. unfold create_dir_or_exists. still_case (still_create_dir p) s; [done| |done].
  intros Hf. specialize (Hs Hf). match goal with |- context [path_is_dir cwd p ?s1] => pose proof (still_is_dir p s1 Hs) as H1;
    destruct (path_is_dir cwd p s1) as [[[]|?|] ?] end; done.
Qed.
Lemma still_create_all_go k p : still (create_dir_all_go cwd umask euid egid k p).
Proof.
  revert p. induction k as [|k IH]; intros p s; cbn [create_dir_all_go]; (still_case (still_create_dir p) s; [done| |done]);
    intros Hf; specialize (Hs Hf); (destruct (_ =? _)%string;
      [|match goal with |- context [path_is_dir cwd p ?s1] => pose proof (still_is_dir p s1 Hs) as H1;
        destruct (path_is_dir cwd p s1) as [[[]|?|] ?] end; done]); [done|].
  destruct (fs_parent (kp_comps p)) as [parent|]; [|done].
  revert Hs. match goal with |- lf_faults ?s1 = [] → lf_faults (?m ?s1).2 = [] => enough (still m) as Hm by apply Hm end.
  apply always_bind; [apply _|destruct parent; [apply always_ret; apply _|apply IH]|intros _; apply still_create_or_exists].
Qed.
Lemma still_create_all p : still (create_dir_all cwd umask euid egid p).
Proof. apply still_create_all_go. Qed.
Lemma still_leaf path : still (ensure_directory_path_leaf_without_symlinks cwd umask euid egid path).
Proof.
  intros s. unfold ensure_directory_path_leaf_without_symlinks. still_case (still_lstat (of_comps path)) s; [| |done].
  - repeat (case_match; try done).
  - destruct (_ =? _)%string; [|done]. intros Hf. specialize (Hs Hf). revert Hs.
    match goal with |- lf_faults ?s1 = [] → lf_faults (?m ?s1).2 = [] => enough (still m) as Hm by apply Hm end. still_solve.
Qed.
#[local] Hint Resolve still_create_all still_leaf : still.
Lemma still_components current rest : still (ensure_components cwd umask euid egid current rest).
Proof. revert current; induction rest as [|c rest IH]; intros current; cbn [ensure_components]; still_solve; apply IH. Qed.
Lemma still_beneath current rel : still (ensure_beneath cwd umask euid egid current rel).
Proof. revert current; induction rel as [|c rel IH]; intros current; cbn [ensure_beneath]; still_solve; apply IH. Qed.
#[local] Hint Resolve still_components still_beneath : still.
Lemma still_parent base dest : still (ensure_restore_parent_beneath cwd umask euid egid base dest).
Proof. unfold ensure_restore_parent_beneath, ensure_directory_path_without_symlinks. still_solve. Qed.
Lemma still_not_symlink dest : still (ensure_restore_target_not_symlink cwd dest).
Proof. unfold ensure_restore_target_not_symlink. still_solve. Qed.
Lemma still_prepare_file dest force : still (prepare_file_restore_destination cwd dest force).
Proof. unfold prepare_file_restore_destination. still_solve. Qed.
Lemma still_prepare_dir dest force : still (prepare_directory_restore_destination cwd dest force).
Proof. unfold prepare_directory_restore_destination. still_solve. Qed.
Lemma still_restore_symlink dest target force : still (restore_symlink cwd umask euid egid dest target force).
Proof. unfold restore_symlink. still_solve. Qed.
Lemma still_xattrs dest xs : still (apply_xattrs cwd dest xs).
Proof. apply always_iter; [apply _|]. intros [name enc]. still_solve. apply still_ignore, still_change_meta. Qed.
Lemma still_owner dest record : still (apply_file_owner cwd dest record).
Proof.
  unfold apply_file_owner. destruct (fr_uid record) as [uid|], (fr_gid record) as [gid|]; try (apply always_ret; apply _).
  intros s. unfold lchown. still_case (still_change_meta false dest (λ m, Build_Meta (mt_mode m) uid gid (mt_mtime m) (mt_xattrs m))) s;
    [done|by destruct (_ || _)|done].
Qed.
#[local] Hint Resolve still_parent still_not_symlink still_prepare_file still_prepare_dir still_restore_symlink still_xattrs still_owner : still.
Lemma still_file_metadata dest record : still (apply_file_metadata cwd dest record).
Proof. unfold apply_file_metadata, set_path_mtime. still_solve; apply still_change_meta. Qed.
#[local] Hint Resolve still_file_metadata : still.
Lemma still_special dest record kind force : still (restore_special_file cwd umask euid egid dest record kind force).
Proof. unfold restore_special_file, mkfifo. still_solve. Qed.
Lemma still_temp k dest : still (create_temp_loop cwd umask euid egid uuid k dest).
Proof.
  induction k as [|k IH]; cbn [create_temp_loop]; [still_solve|]. apply always_bind; [apply _|intros s Hf; exact Hf|intros tmp s].
  unfold open_new. match goal with |- context [sys ?op s] => still_case (still_sys op) s end; [done|destruct (_ =? _)%string; [|done]|done].
  intros Hf. by apply IH, Hs.
Qed.
Lemma still_body pieces tmp file dest : still (write_atomic_body cwd pieces tmp file dest).
Proof. unfold write_atomic_body, write_pieces, sync_all, rename. still_solve. Qed.
Lemma still_write_atomic dest pieces : still (write_atomic_with cwd umask euid egid uuid dest pieces).
Proof.
  unfold write_atomic_with, create_atomic_temp. apply always_bind; [apply _|apply still_entry_is|intros dir].
  destruct dir; [still_solve|]. apply always_bind; [apply _|apply still_temp|]. intros [tmp file] s.
  still_case (still_body pieces tmp file dest) s; [done| |done]. intros Hf. apply still_ignore; [apply still_remove|by apply Hs].
Qed.
#[local] Hint Resolve still_special still_write_atomic : still.
Lemma still_payload record dest force : still (apply_payload cwd umask euid egid uuid record dest force).
Proof. unfold apply_payload, write_atomic, write_large_chunks_atomic. still_solve. Qed.
#[local] Hint Resolve still_payload : still.
Lemma still_record plan force record : still (apply_record cwd umask euid egid uuid plan force record).
Proof. unfold apply_record. still_solve. Qed.
Lemma still_matches record dest : still (restore_record_matches_path cwd record dest).
Proof. unfold restore_record_matches_path, read_file. still_solve. Qed.
#[local] Hint Resolve still_record still_matches : still.
Lemma still_conflicts plan files conflicts : still (restore_conflicts_loop cwd plan files conflicts).
Proof.
  revert conflicts; induction files as [|r files IH]; intros conflicts; cbn [restore_conflicts_loop]; still_solve; apply IH.
Qed.
Lemma still_remove_empty k stop current : still (remove_empty_loop cwd k stop current).
Proof.
  revert current; induction k as [|k IH]; intros current; cbn [remove_empty_loop]; [still_solve|].
  destruct (bool_decide _); [|still_solve]. intros s. still_case (still_rmdir (of_comps current)) s; [|done..].
  destruct (fs_parent current); [|done]. intros Hf. by apply IH, Hs.
Qed.
#[local] Hint Resolve still_conflicts still_remove_empty : still.
Lemma still_delete plan delete : still (apply_delete cwd umask euid egid plan delete).
Proof. unfold apply_delete, remove_empty_restore_parents. still_solve. Qed.
(** The check for conflicts in front of a restore. *)
Definition checked (plan : RestorePlan) (check : bool) : lf_m unit :=
  if check then
    let* conflicts := restore_conflicts cwd plan in
    if negb (bool_decide (conflicts = [])) then stm_fail "restore has conflicts; rerun with --force to overwrite" else
    if negb (bool_decide (map rd_path (rp_deletes plan) = []))
    then stm_fail "restore would delete extra files; rerun with --force to delete them" else stm_ret tt
  else stm_ret tt.
Lemma still_checked plan check : still (checked plan check).
Proof. unfold checked, restore_conflicts. still_solve. Qed.
End Undisturbed.

(** ** The metadata of a record *)

(** The extended attributes of a record, the last of a name counting. *)
Definition add_xattr `{!RestoreSource} (m : gmap string (list Z)) (x : string * string) : gmap string (list Z) :=
  match base64_decode x.2 with Ok value => <[x.1 := value]> m | Err _ => m end.
Definition record_xattrs `{!RestoreSource} (record : FileRecord) : gmap string (list Z) := foldl add_xattr ∅ (fr_xattrs record).

(** The metadata of a record is in effect: its mode and modification time, and, when no call
    fails and the record has a mode, its owner and its extended attributes. *)
Record meta_set `{!RestoreSource} (undisturbed : Prop) (record : FileRecord) (m : Meta) : Prop := {
  ms_mode : fr_mode record ≠ 0%Z → mt_mode m = Z.land (fr_mode record) 4095;
  ms_mtime t : fr_modified record = Some t → mt_mtime m = Some t;
  ms_owner uid gid : undisturbed → fr_mode record ≠ 0%Z → fr_uid record = Some uid → fr_gid record = Some gid →
    mt_uid m = uid ∧ mt_gid m = gid;
  ms_xattrs : undisturbed → fr_mode record ≠ 0%Z → record_xattrs record ⊆ mt_xattrs m;
}.

(** Only metadata differs. *)
Definition same_nodes (fs fs' : FsTree) : Prop := ∀ q, en_node <$> fs' !! q = en_node <$> fs !! q.
#[local] Instance same_nodes_preorder : PreOrder same_nodes.
Proof. split; [by intros fs q|]. intros f1 f2 f3 H1 H2 q. by rewrite H2. Qed.

Lemma walk_same_nodes k fs fs' follow follow' cur cs :
  same_nodes fs fs' → Forall (nonlink fs) (steps cur cs) → walk k fs' follow' cur cs = walk k fs follow cur cs.
Proof.
  intros Hsame. revert cur; induction cs as [|c cs IH]; intros cur; [by destruct k|]. cbn [steps]. intros [Hc Hcs]%Forall_cons_1.
  specialize (IH _ Hcs). destruct c as [| | |n]; [by destruct k; exact IH..|]. cbn [loc_step] in IH, Hc.
  unfold nonlink in Hc. rewrite entry_at_snoc in Hc. specialize (Hsame (cur ++ [n])).
  destruct k; cbn [walk]; rewrite Hsame; (destruct (fs !! (cur ++ [n])) as [[nd m]|]; [|done]); simpl;
    (destruct nd; [exact IH|..]; try done; by specialize (Hc _ eq_refl)).
Qed.

Section Metadata.
Context `{!RestoreSource} (cwd : Loc) (cs : list Component) (n : string).
Let dest := of_comps (cs ++ [Normal n]).
Let here := lex cwd cs ++ [n].
Abbreviation free fs := (linkfree cwd fs (cs ++ [Normal n])).
Abbreviation found fs := (locate cwd true fs dest = Ok here).

Lemma dest_locate follow fs : locate cwd follow fs dest = walk 40 fs follow cwd (cs ++ [Normal n]).
Proof. unfold dest. destruct (cs ++ [Normal n]) eqn:E; [by destruct cs|]. apply locate_of_comps. Qed.
Lemma found_same fs fs' follow : same_nodes fs fs' → free fs → locate cwd follow fs' dest = locate cwd true fs dest.
Proof. intros Hs Hl. rewrite !dest_locate. by apply walk_same_nodes. Qed.
Lemma free_names follow fs : free fs → names cwd follow fs dest here.
Proof. intros Hl. unfold here. replace (lex cwd cs ++ [n]) with (lex cwd (cs ++ [Normal n])) by (by rewrite lex_app). by apply names_linkfree. Qed.
Lemma free_same fs fs' : same_nodes fs fs' → free fs → free fs'.
Proof.
  intros Hs Hl. eapply Forall_impl; [exact Hl|]. intros q Hq e He. destruct q as [|x q]; [by injection He as <-|].
  simpl in *. specialize (Hs (x :: q)). rewrite He in Hs. destruct (fs !! (x :: q)) as [e0|] eqn:E; [|done].
  injection Hs as Hn. specialize (Hq e0 E). unfold is_link_entry in *. by rewrite Hn.
Qed.

Lemma put_meta_nodes (fs : FsTree) e m : fs !! here = Some e → same_nodes fs (<[here := {| en_node := en_node e; en_meta := m |}]> fs).
Proof.
  intros He q. destruct (decide (q = here)) as [->|]; [by rewrite lookup_insert_eq, He|by rewrite lookup_insert_ne].
Qed.
Lemma change_meta_same_nodes follow f s r s' : free (lf_tree s) → change_meta cwd follow dest f s = (r, s') →
  same_nodes (lf_tree s) (lf_tree s').
Proof.
  intros Hl [[_ ->]|(_ & e & He & ->)]%(change_meta_run cwd follow dest here); [done| |by apply free_names].
  apply put_meta_nodes. by rewrite entry_at_ne in He by apply snoc_ne.
Qed.
(** Undisturbed, a call changes the metadata of a file that is found. *)
Lemma change_meta_sets follow f s e : lf_faults s = [] → free (lf_tree s) → found (lf_tree s) → lf_tree s !! here = Some e →
  change_meta cwd follow dest f s =
  (Done tt, lf_with_tree s (<[here := {| en_node := en_node e; en_meta := f (en_meta e) |}]> (lf_tree s))).
Proof.
  intros Hf Hl Hfound He. unfold change_meta, at_path, sys. rewrite Hf, (found_same (lf_tree s)), Hfound by done.
  rewrite entry_at_ne by apply snoc_ne. by rewrite He.
Qed.
Lemma change_meta_found f s s' : lf_faults s = [] → free (lf_tree s) →
  change_meta cwd true dest f s = (Done tt, s') → found (lf_tree s).
Proof.
  intros Hf Hl. unfold change_meta, at_path, sys. rewrite Hf. destruct (locate cwd true (lf_tree s) dest) as [l|e] eqn:E; [|done].
  intros _. by rewrite (free_names _ _ Hl _ E).
Qed.

Lemma xattrs_nodes xs s r s' : free (lf_tree s) → apply_xattrs cwd dest xs s = (r, s') → same_nodes (lf_tree s) (lf_tree s').
Proof.
  revert s; induction xs as [|[name enc] xs IH]; intros s Hl; [by intros [= _ <-]|]. unfold apply_xattrs. simpl.
  unfold stm_bind at 1. assert (∀ r1 s1, (let* value := stm_ok (base64_decode enc) in stm_ignore (set_xattr cwd dest name value)) s = (r1, s1) →
    same_nodes (lf_tree s) (lf_tree s1)) as Hone.
  { intros r1 s1. unfold stm_bind, stm_ok, stm_lift. destruct (base64_decode enc) as [value|e]; simpl; [|by intros [= _ <-]].
    unfold stm_ignore, stm_or, stm_bind, set_xattr. destruct (change_meta cwd false dest _ s) as [rc sc] eqn:E.
    apply change_meta_same_nodes in E; [|done]. by destruct rc; intros [= _ <-]. }
  destruct (stm_bind _ _ s) as [r1 s1]. pose proof (Hone _ _ eq_refl) as E. destruct r1 as [[]|e|]; [|by intros [= _ <-]..].
  intros Hrun. etrans; [exact E|]. apply (IH s1); [by eapply free_same|exact Hrun].
Qed.
Lemma owner_nodes record s r s' : free (lf_tree s) → apply_file_owner cwd dest record s = (r, s') → same_nodes (lf_tree s) (lf_tree s').
Proof.
  intros Hl. unfold apply_file_owner. destruct (fr_uid record) as [uid|], (fr_gid record) as [gid|]; try by intros [= _ <-].
  unfold lchown. destruct (change_meta cwd false dest _ s) as [rc sc] eqn:E. apply change_meta_same_nodes in E; [|done].
  destruct rc as [|e|]; [|destruct (_ || _)|]; by intros [= _ <-].
Qed.

Lemma xattrs_set xs base s s' e : lf_faults s = [] → free (lf_tree s) → found (lf_tree s) → lf_tree s !! here = Some e →
  base ⊆ mt_xattrs (en_meta e) → apply_xattrs cwd dest xs s = (Done tt, s') →
  ∃ e', lf_tree s' !! here = Some e' ∧ foldl add_xattr base xs ⊆ mt_xattrs (en_meta e').
Proof.
  revert base s e; induction xs as [|[name enc] xs IH]; intros base s e Hf Hl Hfound He Hbase; [intros [= <-]; by exists e|].
  unfold apply_xattrs. simpl. intros Hrun. apply stm_bind_Done in Hrun as ([] & s1 & H1 & Hrun).
  apply stm_bind_Done in H1 as (value & s0 & [Hv ->]%stm_ok_Done & H1). unfold stm_ignore, stm_or, stm_bind, set_xattr in H1.
  rewrite (change_meta_sets _ _ _ e Hf Hl Hfound He) in H1. injection H1 as <-. set (e1 := {| en_node := en_node e |}) in Hrun.
  pose proof (put_meta_nodes (lf_tree s) e (en_meta e1) He) as Hn.
  apply (IH (add_xattr base (name, enc)) _ e1) in Hrun; [done|done|by eapply free_same| | |].
  - by rewrite (found_same (lf_tree s)).
  - apply lookup_insert_eq.
  - unfold add_xattr. simpl. rewrite Hv. by apply insert_mono.
Qed.

Lemma change_meta_done follow f s s' :
  free (lf_tree s) → change_meta cwd follow dest f s = (Done tt, s') →
  free (lf_tree s') ∧
  ∃ e, lf_tree s !! here = Some e ∧ lf_tree s' = <[here := {| en_node := en_node e; en_meta := f (en_meta e) |}]> (lf_tree s).
Proof.
  intros Hl Hrun. split; [by eapply free_same; [eapply change_meta_same_nodes|]|].
  apply (change_meta_run cwd follow dest here) in Hrun as [[[] _]|(_ & e & He & ->)]; [done| |by apply free_names].
  exists e. split; [|done]. by rewrite entry_at_ne in He by apply snoc_ne.
Qed.

Lemma owner_and_xattrs record mode s s1 s2 s3 e :
  lf_faults s = [] → free (lf_tree s) → lf_tree s !! here = Some e →
  apply_xattrs cwd dest (fr_xattrs record) s = (Done tt, s1) → apply_file_owner cwd dest record s1 = (Done tt, s2) →
  set_permissions cwd dest mode s2 = (Done tt, s3) →
  ∃ e2, lf_tree s2 !! here = Some e2 ∧ record_xattrs record ⊆ mt_xattrs (en_meta e2) ∧
    ∀ uid gid, fr_uid record = Some uid → fr_gid record = Some gid → mt_uid (en_meta e2) = uid ∧ mt_gid (en_meta e2) = gid.
Proof.
  intros Hf Hl He H1 H2 H3. pose proof (still_xattrs cwd dest (fr_xattrs record) s Hf) as Hf1. rewrite H1 in Hf1. simpl in Hf1.
  pose proof (still_owner cwd dest record s1 Hf1) as Hf2. rewrite H2 in Hf2. simpl in Hf2.
  pose proof (xattrs_nodes _ _ _ _ Hl H1) as N1. pose proof (free_same _ _ N1 Hl) as Hl1.
  pose proof (owner_nodes _ _ _ _ Hl1 H2) as N2. pose proof (free_same _ _ N2 Hl1) as Hl2.
  apply change_meta_found in H3; [|done..].
  assert (found (lf_tree s1)) as Hfound1 by (by rewrite (found_same (lf_tree s1)) in H3).
  assert (found (lf_tree s)) as Hfound by (by rewrite (found_same (lf_tree s)) in Hfound1).
  destruct (xattrs_set _ ∅ _ _ _ Hf Hl Hfound He (map_empty_subseteq _) H1) as (e1 & He1 & Hx).
  unfold apply_file_owner in H2. destruct (fr_uid record) as [uid|] eqn:Eu, (fr_gid record) as [gid|] eqn:Eg;
    try (injection H2 as <-; exists e1; split_and!; [done..|intros; congruence]).
  unfold lchown in H2. rewrite (change_meta_sets _ _ _ e1 Hf1 Hl1 Hfound1 He1) in H2. injection H2 as <-. simpl.
  rewrite lookup_insert_eq. eexists. split_and!; [done|exact Hx|]. by intros ? ? [= <-] [= <-].
Qed.

(** What is in effect but for the modification time. *)
Definition meta_before_mtime (Q : Prop) (record : FileRecord) (m3 : Meta) : Prop := ∀ m,
  mt_mode m = mt_mode m3 → mt_uid m = mt_uid m3 → mt_gid m = mt_gid m3 → mt_xattrs m = mt_xattrs m3 →
  (∀ t, fr_modified record = Some t → mt_mtime m = Some t) → meta_set Q record m.

Lemma mode_done record s s1 s2 s3 e (Q : Prop) :
  (Q → lf_faults s = []) → free (lf_tree s) → lf_tree s !! here = Some e →
  apply_xattrs cwd dest (fr_xattrs record) s = (Done tt, s1) → apply_file_owner cwd dest record s1 = (Done tt, s2) →
  (if (fr_mode record =? 0)%Z then stm_ret tt else set_permissions cwd dest (Z.land (fr_mode record) 4095)) s2 = (Done tt, s3) →
  free (lf_tree s3) ∧ ∃ e3, lf_tree s3 !! here = Some e3 ∧ en_node e3 = en_node e ∧ meta_before_mtime Q record (en_meta e3).
Proof.
  intros HQ Hl He H1 H2 H3.
  pose proof (xattrs_nodes _ _ _ _ Hl H1) as N1. pose proof (free_same _ _ N1 Hl) as Hl1.
  pose proof (owner_nodes _ _ _ _ Hl1 H2) as N2. pose proof (free_same _ _ N2 Hl1) as Hl2.
  assert (∃ e2, lf_tree s2 !! here = Some e2 ∧ en_node e2 = en_node e) as (e2 & He2 & Hn2).
  { pose proof (N2 here) as Hn2. rewrite (N1 here), He in Hn2. destruct (lf_tree s2 !! here) as [e2|]; [|done].
    exists e2. split; [done|]. by injection Hn2. }
  destruct (Z.eqb_spec (fr_mode record) 0) as [Hz|Hz].
  { injection H3 as <-. split; [done|]. exists e2. split_and!; [done..|]. intros m _ _ _ _ Ht. by split. }
  pose proof H3 as H3'. apply change_meta_done in H3' as [Hl3 (e2' & He2' & Hs3)]; [|done].
  rewrite He2 in He2'. injection He2' as <-. split; [done|]. eexists. rewrite Hs3, lookup_insert_eq. split_and!; [done|done|].
  intros m Hmode Huid Hgid Hxattrs Ht. simpl in *. split; [done|done| |]; [intros uid gid Hq _ Hu Hg|intros Hq _];
    destruct (owner_and_xattrs record _ s s1 s2 s3 e (HQ Hq) Hl He H1 H2 H3) as (e2' & He2' & Hx & Ho);
    rewrite He2 in He2'; injection He2' as <-; [rewrite Huid, Hgid; by apply Ho|by rewrite Hxattrs].
Qed.

Lemma apply_file_metadata_done record s s' e (Q : Prop) :
  (Q → lf_faults s = []) → free (lf_tree s) → lf_tree s !! here = Some e →
  apply_file_metadata cwd dest record s = (Done tt, s') →
  ∃ e', lf_tree s' !! here = Some e' ∧ en_node e' = en_node e ∧ meta_set Q record (en_meta e').
Proof.
  intros HQ Hl He Hrun. unfold apply_file_metadata in Hrun. apply stm_bind_Done in Hrun as ([] & s1 & H1 & Hrun).
  apply stm_bind_Done in Hrun as ([] & s2 & H2 & Hrun). apply stm_bind_Done in Hrun as ([] & s3 & H3 & Hrun).
  destruct (mode_done record s s1 s2 s3 e Q HQ Hl He H1 H2 H3) as (Hl3 & e3 & He3 & Hn3 & Hm3).
  destruct (fr_modified record) as [t|] eqn:Et.
  - apply change_meta_done in Hrun as [_ (e3' & He3' & Hs')]; [|done]. rewrite He3 in He3'. injection He3' as <-.
    eexists. rewrite Hs', lookup_insert_eq. split_and!; [done|done|]. apply Hm3; [done..|]. by rewrite Et.
  - injection Hrun as <-. exists e3. split_and!; [done..|]. apply Hm3; [done..|]. by rewrite Et.
Qed.
End Metadata.
