(* ===== verification/RestoreResult.v ===== *)
(** * What a successful restore leaves

    A plan that is carried out to its end leaves every record of the plan at its
    destination, with its contents and its metadata. *)

From S2P Require Import Prelude RStr BTree Util Core AtomicIo LinkFs RestoreApply RestoreSafety RestoreBounds RestoreFaults.

(** ** One record *)

Section Done.
Context `{!RestoreSource} (cwd : Loc) (umask euid egid : Z) (uuid : nat → string) (force : bool).
Context (cs : list Component) (n : string).
Let dest := of_comps (cs ++ [Normal n]).
Let here := lex cwd cs ++ [n].

Context (Q : Prop).
Abbreviation calm s := (Q → lf_faults s = []).
Lemma calm_after {A} (m : lf_m A) s r s' : always undisturbed m → m s = (r, s') → calm s → calm s'.
Proof. intros Hm Hrun Hc Hq. specialize (Hm s (Hc Hq)). by rewrite Hrun in Hm. Qed.

(** The record is at its place, its metadata set unless that is put off or the record is
    a link. *)
Definition in_place (record : FileRecord) (fs : FsTree) (l : Loc) : Prop :=
  ∃ e, fs !! l = Some e ∧ produces record (en_node e) ∧
    (fr_payload record ≠ Directory → ¬ is_symlink_record record → meta_set Q record (en_meta e)).

Lemma with_metadata record s s' e :
  calm s → linkfree cwd (lf_tree s) (cs ++ [Normal n]) → lf_tree s !! here = Some e → produces record (en_node e) →
  apply_file_metadata cwd dest record s = (Done tt, s') → in_place record (lf_tree s') here.
Proof.
  intros Hc Hl He Hp Hrun. destruct (apply_file_metadata_done cwd cs n record s s' e Q Hc Hl He Hrun) as (e' & ? & Hn & Hm).
  exists e'. rewrite Hn. auto.
Qed.

Lemma contents_in_place record pieces s s' :
  calm s → ¬ is_symlink_record record → linkfree cwd (lf_tree s) (cs ++ [Normal n]) →
  (∀ bs, result_map id pieces = Ok bs → produces record (NFile (concat bs))) →
  (let* _ := write_atomic_with cwd umask euid egid uuid dest pieces in apply_file_metadata cwd dest record) s = (Done tt, s') →
  in_place record (lf_tree s') here.
Proof.
  intros Hcalm Hsym Hl Hp Hrun. apply stm_bind_Done in Hrun as ([] & s1 & H1 & Hrun).
  pose proof (calm_after _ _ _ _ (still_write_atomic cwd umask euid egid uuid dest pieces) H1 Hcalm) as Hcalm1.
  pose proof (produces_no_links _ Hsym) as Hno.
  destruct (write_atomic_runs cwd umask euid egid uuid force _ cs n Hno pieces Hp s _ s1 Hl H1) as [_ Hl1].
  apply (write_atomic_with_runs cwd umask euid egid uuid force _ cs n Hno) in H1 as
    [[_ (bs & m & Hbs & _ & Hs1)]|[[] _]]; [|done|done].
  eapply with_metadata; [done|by apply (Hl1 tt)|by rewrite Hs1, lookup_insert_eq|by apply Hp, Hbs|done].
Qed.

Lemma special_in_place record kind s s' :
  calm s → fr_payload record = Special kind → linkfree cwd (lf_tree s) (cs ++ [Normal n]) →
  restore_special_file cwd umask euid egid dest record kind force s = (Done tt, s') → in_place record (lf_tree s') here.
Proof.
  intros Hcalm E Hl. assert (¬ is_symlink_record record) as Hsym by (intros [? ?]; congruence).
  assert (produces record (NSpecial "fifo")) as Hp by (unfold produces; by rewrite E).
  assert (no_links (produces record)) as Hno by (by apply produces_no_links).
  unfold restore_special_file. destruct (String.eqb_spec kind "fifo") as [->|]; simpl; [|done].
  assert (∀ s1 mode, calm s1 → linkfree cwd (lf_tree s1) (cs ++ [Normal n]) →
    (let* _ := mkfifo cwd umask euid egid dest mode in apply_file_metadata cwd dest record) s1 = (Done tt, s') →
    in_place record (lf_tree s') here) as Hmake.
  { intros s1 mode Hc1 Hl1 Hrun. apply stm_bind_Done in Hrun as ([] & s2 & H2 & Hrun). unfold mkfifo in H2.
    pose proof (calm_after _ _ _ _ (still_create cwd umask euid egid dest _ mode) H2 Hc1) as Hc2.
    destruct (create_entry_runs cwd umask euid egid force _ cs n Hno _ mode Hp s1 _ s2 Hl1 H2) as [_ Hl2].
    apply (create_entry_run _ _ _ _ _ here) in H2 as [[[] _]|(_ & _ & Hs2)]; [done| |].
    - eapply with_metadata; [done|by apply (Hl2 tt)|by rewrite Hs2, lookup_insert_eq|done|done].
    - apply names_leaf. by eapply linkfree_app. }
  unfold stm_bind at 1. rewrite stm_try_lstat. destruct (result_ok _) as [meta|] eqn:Em; [|by apply Hmake].
  destruct (restore_special_matches meta "fifo") eqn:Hmt.
  - intros Hrun. apply bool_decide_eq_true in Hmt. unfold special_file_kind in Hmt.
    destruct (en_node meta) eqn:En; simplify_eq. apply (with_metadata record s s' meta); [done|done| |by rewrite En|done].
    destruct (lookup_path _ _ _ _) as [e|] eqn:Ep; simplify_eq/=.
    apply (lookup_path_names _ _ _ _ here) in Ep; [by rewrite entry_at_ne in Ep by apply snoc_ne|]. apply names_leaf. by eapply linkfree_app.
  - destruct force eqn:Ef; [|done]. intros Hrun. apply stm_bind_Done in Hrun as ([] & s1 & H1 & Hrun).
    destruct (remove_file_runs cwd true _ cs n Hno eq_refl s _ s1 Hl H1) as [_ Hl1].
    by eapply Hmake; [eapply calm_after, Hcalm; [apply still_remove|exact H1]|apply (Hl1 tt)|].
Qed.

Lemma symlink_in_place target s s' :
  dirs cwd (lf_tree s) cs → restore_symlink cwd umask euid egid dest target force s = (Done tt, s') →
  ∃ e, lf_tree s' !! here = Some e ∧ en_node e = NLink target.
Proof.
  intros Hc. assert (linkfree cwd (lf_tree s) cs) as Hl by (eapply Forall_impl; [exact Hc|apply is_dir_nonlink]).
  assert (∀ s1, linkfree cwd (lf_tree s1) cs → symlink cwd umask euid egid target dest s1 = (Done tt, s') →
    ∃ e, lf_tree s' !! here = Some e ∧ en_node e = NLink target) as Hmake.
  { intros s1 Hl1. unfold symlink. destruct (is_empty target); [done|].
    intros [[[] _]|(_ & _ & ->)]%(create_entry_run _ _ _ _ _ here); [done| |by apply names_leaf].
    eexists. rewrite lookup_insert_eq. by split. }
  unfold restore_symlink. unfold stm_bind at 1. rewrite stm_try_lstat. intros Hrun.
  apply stm_bind_Done in Hrun as ([] & s1 & H1 & Hrun). apply (Hmake s1); [|done].
  destruct (result_ok _) as [meta|]; [|injection H1 as <-; done].
  destruct force; simpl in H1; [|done]. destruct (is_dir_entry meta); [done|].
  apply (remove_file_run _ _ here) in H1 as [[[] _]|(_ & _ & ->)]; [done| |by apply names_leaf].
  eapply Forall_impl; [exact Hl|]. intros q Hq e. rewrite entry_at_delete by apply snoc_ne.
  case_decide; [done|apply Hq].
Qed.

Lemma prepared (m : lf_m unit) s s' :
  dirs cwd (lf_tree s) cs →
  (let* _ := ensure_restore_target_not_symlink cwd dest in
   let* _ := prepare_file_restore_destination cwd dest force in m) s = (Done tt, s') →
  ∃ s1, undisturbed s s1 ∧ linkfree cwd (lf_tree s1) (cs ++ [Normal n]) ∧ m s1 = (Done tt, s') ∧
    ∀ q, q ≠ here → lf_tree s1 !! q = lf_tree s !! q.
Proof.
  intros Hc Hrun. apply stm_bind_Done in Hrun as ([] & s1 & H1 & Hrun).
  destruct (not_symlink_runs cwd force (λ _, False) cs n s _ s1 Hc H1) as [Hr1 H1'].
  apply stm_bind_Done in Hrun as ([] & s2 & H2 & Hrun). exists s2. destruct (H1' tt eq_refl) as [_ Hl1].
  destruct (prepare_file_runs cwd force (λ _, False) cs n (λ _ H, H) s1 _ s2 Hl1 H2) as [Hr2 H2'].
  split_and!; [|by apply (H2' tt)|done|].
  { pose proof (still_not_symlink cwd dest s) as U1. pose proof (still_prepare_file cwd dest force s1) as U2.
    rewrite H1 in U1. rewrite H2 in U2. by etrans. }
  intros q Hq.
  by rewrite (rtc_quiet_other _ _ _ _ _ _ _ Hr2 Hq), (rtc_quiet_other _ _ _ _ _ _ _ Hr1 Hq).
Qed.

Lemma payload_in_place record s s' :
  calm s → dirs cwd (lf_tree s) cs → apply_payload cwd umask euid egid uuid record dest force s = (Done tt, s') →
  in_place record (lf_tree s') here.
Proof.
  intros Hcalm Hc Hrun. pose proof Hrun as Hdir. unfold apply_payload in Hrun. destruct (fr_payload record) eqn:E;
    cbn [payload_blob_ref payload_large_ref] in Hrun;
    try (apply prepared in Hrun as (s1 & Hu & Hl & Hrun & _); [|done]; apply stm_bind_Done in Hrun as (x & s2 & Hx & Hrun);
         apply stm_ok_Done in Hx as [Hx ->]; eapply contents_in_place; [intros Hq; by apply Hu, Hcalm| |done| |exact Hrun];
         [intros [? ?]; congruence|]; intros bs; rewrite ?result_map_id; unfold produces; rewrite E; intros Hbs;
         simplify_eq/=; rewrite ?app_nil_r; by eauto).
  - destruct (directory_made cwd umask euid egid uuid force record cs n s s' E Hc Hdir) as (e & He & Hd).
    exists e. split_and!; [done| |congruence]. unfold produces. rewrite E. unfold is_dir_entry in Hd. by destruct (en_node e).
  - destruct (symlink_in_place _ _ _ Hc Hrun) as (e & He & Hn). exists e. split_and!; [done| |].
    + unfold produces. by rewrite E.
    + intros _ []. by eexists.
  - apply stm_bind_Done in Hrun as ([] & s1 & H1 & Hrun).
    destruct (not_symlink_runs cwd force (λ _, False) cs n s _ s1 Hc H1) as [_ H1'].
    by eapply special_in_place; [eapply calm_after, Hcalm; [apply still_not_symlink|exact H1]| |apply (H1' tt)|].
Qed.
End Done.

(** ** The whole plan *)

Section Result.
Context `{!RestoreSource} (cwd : Loc) (umask euid egid : Z) (uuid : nat → string) (plan : RestorePlan).
Hypothesis plain : plain_plan plan.
Hypothesis distinct : distinct_plan cwd plan.
Context (Q : Prop).
Abbreviation calm s := (Q → lf_faults s = []).

Lemma rtc_move_other force new dir n fs fs' q e :
  rtc (move force new dir n) fs fs' → q ≠ dir ++ [n] → fs !! q = Some e → fs' !! q = Some e.
Proof. intros Hr Hq. induction Hr as [|f1 f2 f3 Hm _ IH]; [done|]. intros He. by eapply IH, move_other. Qed.
Lemma rtc_grow_other L fs fs' q e : rtc (grow L) fs fs' → fs !! q = Some e → fs' !! q = Some e.
Proof.
  induction 1 as [|f1 f2 f3 [l m _ _ Hnone] _ IH]; [done|]. intros He. apply IH.
  rewrite lookup_insert_ne; [done|]. intros <-. congruence.
Qed.

Lemma apply_record_done force record out s s' :
  calm s → record ∈ rp_files plan → apply_record cwd umask euid egid uuid plan force record s = (Done out, s') →
  ∃ l, record_loc cwd plan record = Some l ∧ in_place Q record (lf_tree s') l ∧
    (∀ q e, q ≠ l → lf_tree s !! q = Some e → lf_tree s' !! q = Some e) ∧
    (fr_payload record = Directory → ∃ p, out = Some (p, record)).
Proof.
  intros Hcalm Hin Hrun. unfold apply_record in Hrun. apply stm_bind_Done in Hrun as (d & s0 & [Hd ->]%stm_ok_Done & Hrun).
  apply stm_bind_Done in Hrun as (b' & s0 & [Hb' ->]%stm_ok_Done & Hrun).
  destruct (record_has_place cwd plan plain record d Hin Hd) as (b & ns & n & Hb & _ & Hc & Hkp & Hloc).
  rewrite Hb in Hb'. injection Hb' as <-. rewrite Hkp in Hrun. set (cs := path_components b ++ map Normal ns) in *.
  apply stm_bind_Done in Hrun as ([] & s1 & H1 & Hrun).
  destruct (ensure_parent_runs _ _ _ _ _ _ ns n Hc s _ s1 I H1) as [Hr1 HQ1]. specialize (HQ1 tt eq_refl).
  pose proof (calm_after _ _ _ _ _ (still_parent cwd umask euid egid b d) H1 Hcalm) as Hcalm1.
  apply stm_bind_Done in Hrun as ([] & s2 & H2 & Hrun). injection Hrun as <- <-.
  destruct (apply_payload_any cwd umask euid egid uuid force record cs n s1 _ s2 HQ1 H2) as [Hr2 _].
  exists (lex cwd cs ++ [n]). split_and!; [done|by eapply payload_in_place| |].
  - intros q e Hq He. eapply rtc_move_other; [done|done|]. by eapply rtc_grow_other.
  - intros ->. eauto.
Qed.

Lemma apply_records_done force todo k out s s' :
  calm s → drop k (rp_files plan) = todo →
  stm_map (apply_record cwd umask euid egid uuid plan force) todo s = (Done out, s') →
  (∀ q e, (∀ i r, (k ≤ i)%nat → rp_files plan !! i = Some r → record_loc cwd plan r ≠ Some q) →
     lf_tree s !! q = Some e → lf_tree s' !! q = Some e) ∧
  (∀ i r, (k ≤ i)%nat → rp_files plan !! i = Some r →
     ∃ l, record_loc cwd plan r = Some l ∧ in_place Q r (lf_tree s') l ∧
       (fr_payload r = Directory → ∃ p, (p, r) ∈ omap id out)).
Proof.
  revert k s out. induction todo as [|record todo IH]; intros k s out Hcalm Hdrop Hrun; simpl in Hrun.
  { injection Hrun as <- <-. split; [done|]. intros i r Hi Hr. replace i with (k + (i - k))%nat in Hr by lia.
    by rewrite <-lookup_drop, Hdrop in Hr. }
  assert (rp_files plan !! k = Some record) as Hk by (by rewrite <-(Nat.add_0_r k), <-lookup_drop, Hdrop).
  apply stm_bind_Done in Hrun as (o & s1 & H1 & Hrun). apply stm_bind_Done in Hrun as (outs & s2 & H2 & Hrun).
  injection Hrun as <- <-. apply (IH (S k)) in H2 as [Hkeep Hall];
    [|eapply calm_after, Hcalm; [apply still_record|exact H1]|replace (S k) with (k + 1)%nat by lia; by rewrite <-drop_drop, Hdrop].
  apply apply_record_done in H1 as (l & Hl & Hin & Hother & Hout); [|done|by eapply list_elem_of_lookup_2]. split.
  - intros q e Hq He. apply Hkeep; [intros i r Hi; apply Hq; lia|]. apply Hother; [|done].
    intros ->. by apply (Hq k record).
  - intros i r Hi Hr. destruct (decide (i = k)) as [->|].
    + rewrite Hk in Hr. injection Hr as <-. exists l. split_and!; [done| |].
      * destruct Hin as (e & He & Hp). exists e. split; [|done]. apply Hkeep; [|done].
        intros i r Hi' Hr Heq. pose proof (distinct _ _ _ _ _ Hk Hr Hl Heq). lia.
      * intros Hd. destruct (Hout Hd) as [p ->]. exists p. simpl. set_solver.
    + destruct (Hall i r) as (l' & Hl' & Hin' & Hp'); [lia|done|]. exists l'. split_and!; [done..|].
      intros Hd. destruct (Hp' Hd) as [p Hp]. exists p. destruct o; simpl; set_solver.
Qed.

(** *** Metadata of directories *)

Definition leaf_path (x : KPath * FileRecord) : Prop := ∃ cs n, x.1 = of_comps (cs ++ [Normal n]).
Abbreviation place x := (lex cwd (kp_comps (fst x))).

(** One directory: its entry gets its metadata, every other entry stays. *)
Lemma one_metadata x s s' :
  calm s → leaf_path x → linkfree cwd (lf_tree s) (kp_comps x.1) → apply_file_metadata cwd x.1 x.2 s = (Done tt, s') →
  (∀ cs, linkfree cwd (lf_tree s) cs → linkfree cwd (lf_tree s') cs) ∧
  (∀ q, q ≠ place x → lf_tree s' !! q = lf_tree s !! q) ∧
  (∀ e, lf_tree s !! place x = Some e →
     ∃ e', lf_tree s' !! place x = Some e' ∧ en_node e' = en_node e ∧ meta_set Q x.2 (en_meta e')).
Proof.
  intros Hcalm (cs & n & ->). cbn [kp_comps of_comps]. intros Hl Hrun. rewrite lex_app. simpl.
  destruct (apply_file_metadata_runs cwd false (λ _, False) cs n (λ _ H, H) x.2 s _ s' Hl Hrun) as [Hr _]. split_and!.
  - intros ds Hds. apply (stable_rtc _ (λ fs, linkfree cwd fs ds) _ _ (quiet_linkfree cwd _ _ _ _ ds (λ _ H, H)) Hr Hds).
  - intros q Hq. by eapply rtc_quiet_other.
  - intros e He. by eapply apply_file_metadata_done.
Qed.

Lemma metadata_done xs s s' l r nd (P : Meta → Prop) :
  (∀ m, meta_set Q r m → P m) → calm s →
  Forall leaf_path xs → Forall (λ x, linkfree cwd (lf_tree s) (kp_comps x.1)) xs →
  (∀ x, x ∈ xs → place x = l → x.2 = r) →
  (∃ e, lf_tree s !! l = Some e ∧ en_node e = nd ∧ ((∀ x, x ∈ xs → place x ≠ l) → P (en_meta e))) →
  stm_iter (λ '(dest, record), apply_file_metadata cwd dest record) xs s = (Done tt, s') →
  ∃ e, lf_tree s' !! l = Some e ∧ en_node e = nd ∧ P (en_meta e).
Proof.
  intros HQ. revert s. induction xs as [|x xs IH]; intros s Hcalm Hleaf Hlink Hown (e & He & Hn & Hm) Hrun.
  { injection Hrun as <-. exists e. split_and!; [done..|]. apply Hm. set_solver. }
  simpl in Hrun. apply stm_bind_Done in Hrun as ([] & s1 & H1 & Hrun).
  apply Forall_cons_1 in Hleaf as [Hx Hleaf]. apply Forall_cons_1 in Hlink as [Hlx Hlink].
  destruct x as [dest record]. destruct (one_metadata (dest, record) s s1 Hcalm Hx Hlx H1) as (Hkeep & Hother & Hset).
  cbn [fst snd] in *. apply (IH s1); [eapply calm_after, Hcalm; [apply still_file_metadata|exact H1]|done| |intros y Hy; apply Hown; set_solver| |done].
  { eapply Forall_impl; [exact Hlink|]. intros y. apply Hkeep. }
  destruct (decide (lex cwd (kp_comps dest) = l)) as [Heq|Hne].
  - rewrite Heq in Hset. destruct (Hset e He) as (e' & He' & Hn' & Hm'). exists e'. split_and!; [done|congruence|].
    intros _. apply HQ. pose proof (Hown (dest, record)) as Hr. simpl in Hr. by rewrite <-Hr by set_solver.
  - exists e. split_and!; [by rewrite Hother by (by apply not_eq_sym)|done|]. intros Hxs. apply Hm. intros y [->|Hy]%elem_of_cons; [done|by apply Hxs].
Qed.

Lemma put_off_facts fs k x : put_off cwd plan fs k x →
  leaf_path x ∧ linkfree cwd fs (kp_comps x.1) ∧ record_loc cwd plan x.2 = Some (place x) ∧
  ∃ i, rp_files plan !! i = Some x.2.
Proof.
  intros (i & id & b & ns & n & _ & Hi & _ & Hx & Hl & Hg). split_and!; [by eexists _, _|apply Hg|done|by exists i].
Qed.

Lemma records_then_metadata force out s s1 s' i r :
  calm s → detours_apart cwd plan →
  stm_map (apply_record cwd umask euid egid uuid plan force) (rp_files plan) s = (Done out, s1) →
  stm_iter (λ '(dest, record), apply_file_metadata cwd dest record) (omap id out) s1 = (Done tt, s') →
  rp_files plan !! i = Some r →
  ∃ l e, record_loc cwd plan r = Some l ∧ lf_tree s' !! l = Some e ∧ produces r (en_node e) ∧
    (¬ is_symlink_record r → meta_set Q r (en_meta e)).
Proof.
  intros Hcalm Hdet H1 H2 Hr.
  destruct (apply_records_runs cwd umask euid egid uuid plan plain distinct Hdet force _ 0 [] (drop_0 _) s _ s1
    (Forall_nil_2 _) H1) as [_ HQ]. destruct (HQ out eq_refl) as [k Hoff]. simpl in Hoff.
  destruct (apply_records_done force _ 0 out s s1 Hcalm (drop_0 _) H1) as [_ Hall].
  destruct (Hall i r (Nat.le_0_l _) Hr) as (l & Hl & (e & He & Hp & Hmeta) & Hdir).
  assert (∀ x, x ∈ omap id out → place x = l → x.2 = r) as Hown.
  { intros x Hx Hxl. rewrite Forall_forall in Hoff. destruct (put_off_facts _ _ _ (Hoff x Hx)) as (_ & _ & Hlx & j & Hj).
    rewrite Hxl in Hlx. pose proof (distinct _ _ _ _ _ Hj Hr Hlx Hl) as ->. congruence. }
  assert (Forall leaf_path (omap id out)) as Hleaf.
  { eapply Forall_impl; [exact Hoff|]. intros x Hx. apply (put_off_facts _ _ _ Hx). }
  assert (Forall (λ x, linkfree cwd (lf_tree s1) (kp_comps x.1)) (omap id out)) as Hlink.
  { eapply Forall_impl; [exact Hoff|]. intros x Hx. apply (put_off_facts _ _ _ Hx). }
  destruct (metadata_done (omap id out) s1 s' l r (en_node e) (λ m, ¬ is_symlink_record r → meta_set Q r m))
    as (e' & He' & Hn' & Hm'); [by auto|by apply (calm_after Q _ _ _ _ (still_map _ _ (still_record cwd umask euid egid uuid plan force)) H1)|done..| |done|exists l, e'; rewrite Hn'; by auto].
  exists e. split_and!; [done..|]. intros Hno Hsym. destruct (decide (fr_payload r = Directory)) as [Hd|]; [|by apply Hmeta].
  destruct (Hdir Hd) as [p Hpr]. exfalso. apply (Hno _ Hpr).
  rewrite Forall_forall in Hoff. destruct (put_off_facts _ _ _ (Hoff _ Hpr)) as (_ & _ & Hlx & _).
  cbn [fst snd] in *. rewrite Hl in Hlx. by injection Hlx.
Qed.

End Result.

(** C6. A restore that succeeds leaves every record of the plan in its place: a directory,
    the bytes of a blob or of the chunks of a large file, a link with its target or a fifo.
    For every record but links, which get no metadata, directories included, the recorded mode
    and modification time are those in effect at the end; the owner and the extended
    attributes, whose refusal by the system the program tolerates, are those of the record too
    when no call fails and the record has a mode.  The places are where the components of the
    paths lead.  The paths of the plan have no trailing separator, no two records go to the
    same place, and no link lies on a detour a base takes over a [..] (there is none for bases
    without [..]). *)
Theorem restore_puts_records_in_place `{!RestoreSource} (cwd : Loc) (umask euid egid : Z) (uuid : nat → string)
    (plan : RestorePlan) force check_conflicts s s' record :
  plain_plan plan → distinct_plan cwd plan → detours_apart cwd plan →
  apply_restore_plan cwd umask euid egid uuid plan force check_conflicts s = (Done tt, s') →
  record ∈ rp_files plan →
  ∃ l e, record_loc cwd plan record = Some l ∧ lf_tree s' !! l = Some e ∧ produces record (en_node e) ∧
    (¬ is_symlink_record record → meta_set (lf_faults s = []) record (en_meta e)).
Proof.
  intros Hplain Hdistinct Hdet Hrun [i Hi]%list_elem_of_lookup. unfold apply_restore_plan in Hrun.
  apply stm_bind_Done in Hrun as ([] & s1 & [_ ->]%stm_ok_Done & Hrun). apply stm_bind_Done in Hrun as ([] & s2 & H2 & Hrun).
  apply stm_bind_Done in Hrun as ([] & s3 & H3 & Hrun). apply stm_bind_Done in Hrun as (out & s4 & H4 & Hrun).
  eapply (records_then_metadata _ _ _ _ _ plan Hplain Hdistinct); [|done..|exact Hrun|exact Hi]. intros Hs.
  pose proof (still_checked cwd plan (check_conflicts && negb force) s Hs) as Hs2.
  unfold checked in Hs2. rewrite H2 in Hs2.
  assert (always undisturbed (stm_iter (apply_delete cwd umask euid egid plan) (rp_deletes plan))) as Hd.
  { apply always_iter; [apply _|]. intros x. apply still_delete. }
  specialize (Hd s2 Hs2). by rewrite H3 in Hd.
Qed.
