(* ===== verification/RestoreConflicts.v ===== *)
(** * A checked restore loses nothing

    A restore that checks for conflicts and is not forced, the default, keeps the contents
    of everything that was there, however it ends. *)

From S2P Require Import Prelude RStr BTree Util Core AtomicIo LinkFs RestoreApply RestoreSafety RestoreBounds RestoreResult.

(** What was there below the root is still there, with the same contents. *)
Definition keeps_nodes (fs fs' : FsTree) : Prop :=
  ∀ l e, l ≠ [] → fs !! l = Some e → ∃ e', fs' !! l = Some e' ∧ en_node e' = en_node e.

#[export] Instance keeps_nodes_preorder : PreOrder keeps_nodes.
Proof.
  split; [by intros fs l e; eauto|]. intros f1 f2 f3 H12 H23 l e Hl He.
  destruct (H12 l e Hl He) as (e' & He' & Hn'). destruct (H23 l e' Hl He') as (e'' & He'' & Hn''). exists e''. split; [done|congruence].
Qed.

Lemma keeps_nodes_new fs fs' l e : keeps_nodes fs fs' → fs' !! l = None → keeps_nodes fs (<[l := e]> fs').
Proof.
  intros Hk Hn q e0 Hq He0. destruct (Hk q e0 Hq He0) as (e' & He' & ?). exists e'. split; [|done].
  rewrite lookup_insert_ne; [done|]. intros <-. congruence.
Qed.
Lemma keeps_nodes_same fs fs' l e : keeps_nodes fs fs' →
  (∀ e0, l ≠ [] → fs !! l = Some e0 → en_node e = en_node e0) → keeps_nodes fs (<[l := e]> fs').
Proof.
  intros Hk Hn q e0 Hq He0. destruct (decide (l = q)) as [->|].
  - exists e. rewrite lookup_insert_eq. auto.
  - destruct (Hk q e0 Hq He0) as (e' & He' & ?). exists e'. by rewrite lookup_insert_ne.
Qed.

(** ** Trees and bases *)

(** Everything lies in a directory. *)
Definition tree_wf (fs : FsTree) : Prop := ∀ l n, is_Some (fs !! (l ++ [n])) → is_dir fs l.

Lemma wf_above fs q ns : tree_wf fs → ns ≠ [] → is_Some (fs !! (q ++ ns)) → is_dir fs q.
Proof.
  intros Hwf. induction ns as [|n ns IH] using rev_ind; [done|]. intros _. rewrite app_assoc. intros Hd%Hwf.
  destruct (decide (ns = [])) as [->|Hne]; [by rewrite app_nil_r in Hd|]. apply IH; [done|].
  destruct Hd as (e & He & _). rewrite entry_at_ne in He; [by eexists|]. by intros [_ ?]%app_eq_nil.
Qed.

(** The base goes nowhere up. *)
Definition straight (base : string) : Prop := ParentDir ∉ path_components base.

Lemma straight_components base : straight base →
  ∃ h names, path_components base = h ++ map Normal names ∧ (h = [] ∨ h = [RootDir] ∨ h = [CurDir]).
Proof.
  unfold straight, path_components. set (h := if path_is_absolute base then _ else _). intros Hp.
  assert (∃ names, flat_map component_of (split slash base) = map Normal names) as [names ->].
  { rewrite not_elem_of_app in Hp. destruct Hp as [_ Hq]. revert Hq. clear.
    induction (split slash base) as [|p ps IH]; simpl; [by exists []|]. rewrite not_elem_of_app. intros [Hp Hq].
    destruct (IH Hq) as [names ->]. unfold component_of in *.
    destruct (_ || _); [by exists names|]. destruct (p =? "..")%string; [set_solver|]. by exists (p :: names). }
  exists h, names. split; [done|]. unfold h. destruct (path_is_absolute base); [by auto|].
  destruct (split slash base) as [|p ps]; [by auto|]. destruct (p =? ".")%string; auto.
Qed.

Lemma straight_dirs cwd fs base ns n :
  tree_wf fs → straight base → is_Some (fs !! (lex cwd (path_components base ++ map Normal ns) ++ [n])) →
  dirs cwd fs (path_components base ++ map Normal ns).
Proof.
  intros Hwf (h & names & Hc & Hh)%straight_components. rewrite Hc, <-app_assoc, <-map_app.
  set (root := lex cwd h). rewrite lex_app, lex_normals. fold root. intros Hex.
  assert (∀ q rest, root ++ (names ++ ns) ++ [n] = q ++ rest → rest ≠ [] → is_dir fs q) as Hup.
  { intros q rest Heq Hne. eapply wf_above; [done|exact Hne|]. rewrite <-Heq, !app_assoc. rewrite !app_assoc in Hex. exact Hex. }
  unfold dirs. rewrite steps_app. apply Forall_app. split.
  - assert (is_dir fs root) by (eapply Hup; [done|apply snoc_ne]).
    unfold root in *. destruct Hh as [->|[->| ->]]; repeat constructor; done.
  - apply Forall_forall. intros q (ms & _ & -> & [rest Hr])%steps_normals. fold root.
    eapply (Hup _ (rest ++ [n])); [by rewrite Hr, !app_assoc|apply snoc_ne].
Qed.

(** ** What the check establishes *)

(** What holds of every change of metadata holds of setting the metadata of a record. *)
Section MetadataCalls.
Context `{!RestoreSource} (cwd : Loc) (R : relation LfState) `{!PreOrder R}.
Hypothesis metadata_call : ∀ follow p f, always R (change_meta cwd follow p f).

Lemma always_ignore {A : Type} (m : lf_m A) : always R m → always R (stm_ignore m).
Proof. intros Hm s. specialize (Hm s). unfold stm_ignore, stm_or, stm_bind. by destruct (m s) as [[]]. Qed.

Lemma apply_file_metadata_always p record : always R (apply_file_metadata cwd p record).
Proof.
  unfold apply_file_metadata. apply always_bind; [apply _| |intros _; apply always_bind; [apply _| |intros _; apply always_bind; [apply _| |intros _]]].
  - apply always_iter; [apply _|]. intros [name encoded]. apply always_bind; [apply _|apply always_ok; apply _|].
    intros v. apply always_ignore, metadata_call.
  - unfold apply_file_owner. destruct (fr_uid record) as [u|], (fr_gid record) as [g|]; try (apply always_ret; apply _).
    intros s. pose proof (metadata_call false p (λ m, Build_Meta (mt_mode m) u g (mt_mtime m) (mt_xattrs m)) s) as Hm.
    unfold lchown. destruct (change_meta _ _ _ _ s) as [[] s']; [done| |done]. by destruct (_ || _).
  - destruct (_ =? 0)%Z; [apply always_ret; apply _|apply metadata_call].
  - destruct (fr_modified record); [apply metadata_call|apply always_ret; apply _].
Qed.
End MetadataCalls.

Section Conflicts.
Context `{!RestoreSource} (cwd : Loc) (umask euid egid : Z) (uuid : nat → string) (plan : RestorePlan).

Lemma conflicts_nil files acc s s' :
  restore_conflicts_loop cwd plan files acc s = (Done [], s') → acc = [] ∧
  ∀ r, r ∈ files → ∃ d, restore_destination plan r = Ok d ∧
    (try_exists cwd (kpath d) s = (Done false, s) ∨ restore_record_matches_path cwd r (kpath d) s = (Done true, s)).
Proof.
  revert acc. induction files as [|r files IH]; intros acc Hrun; simpl in Hrun.
  { injection Hrun as <- <-. split; [done|set_solver]. }
  apply stm_bind_Done in Hrun as (d & s0 & [Hd ->]%stm_ok_Done & Hrun).
  apply stm_bind_Done in Hrun as (ex & s1 & H1 & Hrun).
  pose proof (try_exists_keeps cwd (kpath d) s) as Hk1. rewrite H1 in Hk1. simpl in Hk1. subst s1.
  destruct ex; simpl in Hrun.
  - apply stm_bind_Done in Hrun as (m & s2 & H2 & Hrun).
    pose proof (matches_keeps cwd r (kpath d) s) as Hk2. rewrite H2 in Hk2. simpl in Hk2. subst s2.
    apply IH in Hrun as [Hacc Hall]. destruct m; [|by destruct acc]. split; [done|].
    intros r' [->|Hr']%elem_of_cons; [eauto|by apply Hall].
  - apply IH in Hrun as [Hacc Hall]. split; [done|]. intros r' [->|Hr']%elem_of_cons; [eauto|by apply Hall].
Qed.

(** The size of a large file in a record is that of its chunks. *)
Definition sized (record : FileRecord) : Prop := ∀ oid key k manifest bs,
  payload_large_ref (fr_payload record) = Some (oid, key, k) → read_manifest key = Ok manifest →
  result_map read_large_chunk (lm_chunks manifest) = Ok bs → fr_size record = Z.of_nat (length (concat bs)).

Lemma chunks_match_true chunks current bs :
  chunks_match chunks current = Ok true → result_map read_large_chunk chunks = Ok bs →
  ∃ rest, current = concat bs ++ rest.
Proof.
  revert current bs. induction chunks as [|c chunks IH]; intros current bs; simpl.
  { intros _ [= <-]. by exists current. }
  intros (x & Hx & Hm)%result_bind_Ok. rewrite Hx.
  intros (y & [= <-] & (ys & Hys & [= <-])%result_bind_Ok)%result_bind_Ok.
  destruct (_ <? _)%nat; [done|]. case_bool_decide as Ht; [|done].
  destruct (IH _ _ Hm Hys) as [rest Hr]. exists rest. simpl. rewrite <-app_assoc, <-Hr, <-Ht at 1. by rewrite take_drop.
Qed.

Lemma large_match e key size manifest bs (s : LfState) :
  match en_node e with
  | NFile current =>
    if negb (Z.of_nat (length current) =? size)%Z then stm_ret false else
    let* manifest := stm_ok (read_manifest key) in stm_ok (chunks_match (lm_chunks manifest) current)
  | _ => stm_ret false
  end s = (Done true, s) →
  read_manifest key = Ok manifest → result_map read_large_chunk (lm_chunks manifest) = Ok bs →
  size = Z.of_nat (length (concat bs)) → en_node e = NFile (concat bs).
Proof.
  destruct (en_node e) as [|current| |]; try done. intros Hm Hman Hbs Hsz.
  destruct (Z.eqb_spec (Z.of_nat (length current)) size) as [Hlen|]; simpl in Hm; [|done].
  apply stm_bind_Done in Hm as (m & s1 & [Hx ->]%stm_ok_Done & [Hm _]%stm_ok_Done). rewrite Hman in Hx. injection Hx as <-.
  destruct (chunks_match_true _ _ _ Hm Hbs) as [rest ->]. rewrite length_app in Hlen.
  destruct rest as [|? ?]; [by rewrite app_nil_r|]. simpl in Hlen. lia.
Qed.

Lemma blob_match e p oid key b (s : LfState) :
  lookup_path cwd true p (lf_tree s) = Ok e →
  (if negb (is_file_entry e) then stm_ret false else
   let* found := read_file cwd p in
   let* expected := stm_ok (read_blob_payload oid key) in stm_ret (bool_decide (found = expected))) s = (Done true, s) →
  read_blob_payload oid key = Ok b → en_node e = NFile b.
Proof.
  intros Hlook Hrun Hb. destruct (is_file_entry e) eqn:Ef; simpl in Hrun; [|done].
  apply stm_bind_Done in Hrun as (found & s1 & H1 & Hrun). apply stm_bind_Done in Hrun as (ex & s2 & [Hx ->]%stm_ok_Done & Hrun).
  injection Hrun as Hrun _. apply bool_decide_eq_true in Hrun as ->. rewrite Hb in Hx. injection Hx as <-.
  unfold read_file, metadata, stm_bind, stm_get in H1. rewrite Hlook in H1. simpl in H1.
  destruct (en_node e); unfold stm_ret, stm_fail in H1; by simplify_eq.
Qed.

(** A file that is there matches what the record would write. *)
Lemma match_contents record cs n s e b :
  dirs cwd (lf_tree s) cs → lf_tree s !! (lex cwd cs ++ [n]) = Some e → is_link_entry e = false → sized record →
  (try_exists cwd (of_comps (cs ++ [Normal n])) s = (Done false, s) ∨
   restore_record_matches_path cwd record (of_comps (cs ++ [Normal n])) s = (Done true, s)) →
  produces record (NFile b) → en_node e = NFile b.
Proof.
  intros Hc He Hl Hsz Hcheck Hp.
  assert (∀ follow, lookup_path cwd follow (of_comps (cs ++ [Normal n])) (lf_tree s) = Ok e) as Hlook.
  { intros follow. unfold lookup_path.
    assert (locate cwd follow (lf_tree s) (of_comps (cs ++ [Normal n])) = Ok (lex cwd cs ++ [n])) as ->.
    { destruct (cs ++ [Normal n]) as [|c cs'] eqn:E; [by destruct cs|]. rewrite locate_of_comps, <-E, walk_dirs by done.
      simpl. rewrite He. simpl. destruct e as [[] ?]; done. }
    simpl. by rewrite entry_at_snoc, He. }
  destruct Hcheck as [Hex|Hm].
  { unfold try_exists, metadata, stm_bind, stm_get in Hex. by rewrite Hlook in Hex. }
  unfold restore_record_matches_path in Hm. apply stm_bind_Done in Hm as (meta & s1 & H1 & Hm).
  apply symlink_metadata_run in H1 as [-> H1]. rewrite Hlook in H1. injection H1 as ->.
  unfold produces in Hp. unfold sized in Hsz.
  destruct (fr_payload record) eqn:E; try done; cbn [payload_blob_ref payload_large_ref] in *;
    try (destruct Hp as (b' & Hb & [= <-]); by eapply blob_match; [apply Hlook|..]);
    destruct Hp as (manifest & bs & Hman & Hbs & [= ->]); by eapply large_match; [..|eapply Hsz].
Qed.

(** ** Records keep what was there *)

Section Records.
Context (s0 : LfState).
Hypothesis plain : plain_plan plan.
Hypothesis wf : tree_wf (lf_tree s0).
Hypothesis bases_straight : ∀ id b, plan_base plan id b → straight b.
Hypothesis records_sized : Forall sized (rp_files plan).
Hypothesis checked : restore_conflicts cwd plan s0 = (Done [], s0).

Let K := keeps_nodes (lf_tree s0).

(** Without [force] a move keeps what was there, unless it writes over something else. *)
Lemma move_keeps new dir n fs fs' :
  (∀ e0 b, lf_tree s0 !! (dir ++ [n]) = Some e0 → is_link_entry e0 = false → new (NFile b) → en_node e0 = NFile b) →
  (nonlink fs (dir ++ [n]) ∨ ∀ b, ¬ new (NFile b)) →
  move false new dir n fs fs' → K fs → K fs'.
Proof.
  intros Hsame Hnl Hm HK.
  destruct Hm as [e m He|e Hnone Hn|e Hf Hn Hd|e ? _ _|? _ _|t e Hnone Hf]; try done.
  - apply keeps_nodes_same; [done|]. intros e0 Hne He0. destruct (HK _ _ Hne He0) as (e' & He' & Hn'). simpl. congruence.
  - by apply keeps_nodes_new.
  - apply keeps_nodes_same; [done|]. intros e0 Hne He0. unfold is_file_entry in Hf. destruct (en_node e) as [|b| |] eqn:Ee; try done.
    destruct Hnl as [Hnl|Hno]; [|by destruct (Hno b)]. symmetry. apply (Hsame e0 b); [done| |done].
    destruct (HK _ _ Hne He0) as (e' & He' & Hn'). specialize (Hnl e'). rewrite entry_at_snoc in Hnl.
    specialize (Hnl He'). unfold is_link_entry in *. by rewrite <-Hn'.
  - by apply keeps_nodes_new.
Qed.

Definition has_contents (record : FileRecord) : Prop :=
  payload_blob_ref (fr_payload record) ≠ None ∨ payload_large_ref (fr_payload record) ≠ None.

Lemma no_contents record b : ¬ has_contents record → ¬ produces record (NFile b).
Proof. unfold has_contents, produces. destruct (fr_payload record); simpl; naive_solver. Qed.
Lemma contents_not_link record : has_contents record → ¬ is_symlink_record record.
Proof. unfold has_contents. intros Hc [t Ht]. rewrite Ht in Hc. naive_solver. Qed.

(** The contents of a file are not written through a link. *)
Lemma link_refused record cs n s1 r s2 e :
  dirs cwd (lf_tree s1) cs → lf_tree s1 !! (lex cwd cs ++ [n]) = Some e → is_link_entry e = true →
  has_contents record →
  apply_payload cwd umask euid egid uuid record (of_comps (cs ++ [Normal n])) false s1 = (r, s2) → s2 = s1.
Proof.
  intros Hc He Hl Hp. unfold has_contents in Hp.
  assert (∀ m : lf_m unit, (let* _ := ensure_restore_target_not_symlink cwd (of_comps (cs ++ [Normal n])) in m) s1 = (r, s2) →
    s2 = s1) as Href.
  { intros m. unfold ensure_restore_target_not_symlink, stm_bind. rewrite entry_is_run. unfold lookup_path.
    rewrite locate_leaf, lex_app by done. simpl. rewrite entry_at_snoc, He. simpl. rewrite Hl. by intros [= <- <-]. }
  unfold apply_payload. destruct (fr_payload record); try (simpl in Hp; naive_solver); apply Href.
Qed.

Lemma payload_keeps record cs n s1 r s2 :
  (∀ e0 b, lf_tree s0 !! (lex cwd cs ++ [n]) = Some e0 → is_link_entry e0 = false → produces record (NFile b) → en_node e0 = NFile b) →
  dirs cwd (lf_tree s1) cs → K (lf_tree s1) →
  apply_payload cwd umask euid egid uuid record (of_comps (cs ++ [Normal n])) false s1 = (r, s2) → K (lf_tree s2).
Proof.
  intros Hsame Hc HK Hrun.
  destruct (apply_payload_any cwd umask euid egid uuid false record cs n s1 r s2 Hc Hrun) as [Hr _].
  destruct (decide (payload_blob_ref (fr_payload record) = None ∧ payload_large_ref (fr_payload record) = None)) as [Hno|Hcon].
  { refine (stable_rtc _ K _ _ _ Hr HK). intros fs fs' HK' Hm. eapply move_keeps; [done| |done|done].
    right. intros b. apply no_contents. unfold has_contents. naive_solver. }
  assert (has_contents record) as Hhas by (unfold has_contents; destruct (payload_blob_ref _), (payload_large_ref _); naive_solver).
  destruct (lf_tree s1 !! (lex cwd cs ++ [n])) as [e|] eqn:He; [destruct (is_link_entry e) eqn:Hl|].
  { by rewrite (link_refused record cs n s1 r s2 e Hc He Hl Hhas Hrun). }
  all: assert (linkfree cwd (lf_tree s1) (cs ++ [Normal n])) as HI by
    (apply linkfree_snoc; split; [eapply Forall_impl; [exact Hc|apply is_dir_nonlink]|];
     intros e'; rewrite entry_at_snoc, He; congruence).
  all: pose proof (produces_no_links _ (contents_not_link _ Hhas)) as Hnl;
    refine (proj2 (stable_rtc _ (λ fs, linkfree cwd fs (cs ++ [Normal n]) ∧ K fs) _ _ _ Hr (conj HI HK)));
    intros fs fs' [HI' HK'] Hm; (split; [by eapply (move_linkfree cwd false)|]);
    (eapply move_keeps; [done|left; by apply linkfree_snoc in HI' as [_ ?]|done|done]).
Qed.

Lemma record_contents record b d ns n e0 c :
  record ∈ rp_files plan → restore_destination plan record = Ok d → record_place cwd plan record b d ns n →
  lf_tree s0 !! (lex cwd (path_components b ++ map Normal ns) ++ [n]) = Some e0 → is_link_entry e0 = false →
  produces record (NFile c) → en_node e0 = NFile c.
Proof.
  intros Hin Hd (Hpb & _ & Hkp & _) He0 Hl Hp.
  destruct (conflicts_nil _ _ _ _ checked) as [_ Hall]. destruct (Hall _ Hin) as (d' & Hd' & Hcheck).
  rewrite Hd in Hd'. injection Hd' as <-. rewrite Hkp in Hcheck.
  pose proof records_sized as Hsz. rewrite Forall_forall in Hsz.
  eapply match_contents; [|exact He0|done|by apply Hsz|done|done].
  eapply straight_dirs; [done|by eapply bases_straight|by eexists].
Qed.

Lemma apply_record_keeps record :
  record ∈ rp_files plan → ∀ s r s', K (lf_tree s) →
  apply_record cwd umask euid egid uuid plan false record s = (r, s') → K (lf_tree s').
Proof.
  intros Hin s r s' HK. unfold apply_record. unfold stm_bind at 1.
  destruct (restore_destination plan record) as [d|] eqn:Hd; simpl; [|by intros [= <- <-]].
  destruct (record_has_place cwd plan plain record d Hin Hd) as (b & ns & n & Hb & Hplace).
  unfold stm_bind at 1. rewrite Hb. simpl. pose proof Hplace as (_ & Hc & Hkp & _). rewrite Hkp.
  unfold stm_bind at 1. destruct (ensure_restore_parent_beneath _ _ _ _ b d s) as [r1 s1] eqn:H1.
  destruct (ensure_parent_runs _ _ _ _ _ _ ns n Hc s r1 s1 I H1) as [Hr1 HQ1].
  assert (K (lf_tree s1)) as HK1.
  { refine (stable_rtc _ K _ _ _ Hr1 HK). intros fs fs' HK' [l m _ _ Hnone]. by apply keeps_nodes_new. }
  destruct r1 as [a|e|]; [|by intros [= <- <-]..].
  unfold stm_bind at 1. destruct (apply_payload _ _ _ _ _ record _ false s1) as [r2 s2] eqn:H2.
  assert (K (lf_tree s2)) as HK2.
  { eapply payload_keeps; [|by apply (HQ1 a)|done|done]. intros e0 c. by eapply record_contents. }
  destruct r2; by intros [= <- <-].
Qed.

Lemma apply_records_keep files :
  (∀ r, r ∈ files → r ∈ rp_files plan) → ∀ s r s', K (lf_tree s) →
  stm_map (apply_record cwd umask euid egid uuid plan false) files s = (r, s') → K (lf_tree s').
Proof.
  induction files as [|record files IH]; intros Hin s r s' HK Hrun; simpl in Hrun; [by injection Hrun as <- <-|].
  unfold stm_bind at 1 in Hrun. destruct (apply_record _ _ _ _ _ _ _ _ s) as [r1 s1] eqn:H1.
  apply apply_record_keeps in H1; [|by apply Hin; set_solver|done].
  destruct r1; [|by injection Hrun as <- <-..]. unfold stm_bind in Hrun.
  destruct (stm_map _ files s1) as [r2 s2] eqn:H2. apply IH in H2; [|intros ? ?; apply Hin; set_solver|done].
  destruct r2; by injection Hrun as <- <-.
Qed.
End Records.

(** *** Metadata changes no contents *)

Abbreviation same_nodes := (λ s s' : LfState, keeps_nodes (lf_tree s) (lf_tree s')).
#[local] Instance same_nodes_preorder : PreOrder same_nodes.
Proof. split; [intros s; reflexivity|intros a b c ? ?; by etrans]. Qed.

Lemma change_meta_nodes follow p f : always same_nodes (change_meta cwd follow p f).
Proof.
  intros s. destruct (change_meta cwd follow p f s) as [r s'] eqn:E. simpl.
  apply sys_run in E as [[_ ->]|E]; [reflexivity|].
  destruct (locate cwd follow (lf_tree s) p) as [l|]; [|injection E as _ <-; reflexivity].
  destruct (entry_at (lf_tree s) l) as [e|] eqn:He; [|injection E as _ <-; reflexivity]. injection E as _ <-.
  apply keeps_nodes_same; [reflexivity|]. intros e0 Hne He0. rewrite entry_at_ne in He by done. simpl. congruence.
Qed.

Lemma apply_file_metadata_nodes p record : always same_nodes (apply_file_metadata cwd p record).
Proof. apply (apply_file_metadata_always cwd same_nodes change_meta_nodes). Qed.

(** C5. A restore that checks for conflicts and is not forced, which is the default, never
    loses data: whatever it does and wherever it stops, everything that was there before is
    there afterwards, files with the same bytes and links with the same target; it has only
    added entries and set metadata. This is for directories to restore into without [..] in
    their paths (the check looks through a [..] behind a missing directory differently than
    the restore that has made it), a plan without trailing separators, and records of large
    files whose size is that of their chunks; and everything in the file system lies in a
    directory. *)
Theorem checked_restore_keeps_contents s :
  plain_plan plan → tree_wf (lf_tree s) → (∀ id b, plan_base plan id b → straight b) → Forall sized (rp_files plan) →
  keeps_nodes (lf_tree s) (lf_tree (apply_restore_plan cwd umask euid egid uuid plan false true s).2).
Proof.
  intros Hplain Hwf Hstr Hsz. set (K := λ s' : LfState, keeps_nodes (lf_tree s) (lf_tree s')).
  change (K (apply_restore_plan cwd umask euid egid uuid plan false true s).2).
  assert (K s) as HK by (unfold K; reflexivity).
  enough (triple (λ s', s' = s) (apply_restore_plan cwd umask euid egid uuid plan false true) (λ _, K) K) as Ht.
  { specialize (Ht s). destruct (apply_restore_plan _ _ _ _ _ _ _ _ s) as [r s'].
    specialize (Ht r s' eq_refl eq_refl). by destruct r. }
  unfold apply_restore_plan. simpl andb. apply (triple_bind _ _ _ (λ _ s', s' = s)).
  { intros s1 r s2 -> [= <- <-]. by destruct (prefetch plan). }
  intros []. apply (triple_bind _ _ _ (λ _ s', s' = s ∧ restore_conflicts cwd plan s = (Done [], s) ∧ rp_deletes plan = [])).
  { intros s1 r s2 -> Hrun. unfold stm_bind in Hrun. pose proof (conflicts_keeps cwd plan (rp_files plan) [] s) as Hk.
    unfold restore_conflicts in *. destruct (restore_conflicts_loop _ _ _ _ s) as [r1 s3]. simpl in Hk. subst s3.
    destruct r1 as [c|e|]; [|by injection Hrun as <- <-..].
    case_bool_decide as Hc; simpl in Hrun; [|by injection Hrun as <- <-]. subst c.
    case_bool_decide as Hd; simpl in Hrun; injection Hrun as <- <-; [|done]. split_and!; [done..|by destruct (rp_deletes plan)]. }
  intros []. intros s1 r s2 (-> & Hcheck & Hdel). rewrite Hdel. cbn [stm_iter]. unfold stm_bind at 1. cbn [stm_ret].
  intros Hrun. assert (K s2) as HK2; [|by destruct r]. unfold stm_bind in Hrun.
  destruct (stm_map _ _ s) as [r1 s3] eqn:H1. apply (apply_records_keep s) in H1; [|done..].
  destruct r1 as [out|e|]; [|by injection Hrun as <- <-..].
  pose proof (always_iter same_nodes (λ '(dest, record), apply_file_metadata cwd dest record) (omap id out)) as Hmeta.
  specialize (Hmeta ltac:(intros [dest record]; apply apply_file_metadata_nodes) s3). rewrite Hrun in Hmeta. simpl in Hmeta.
  unfold K. by etrans.
Qed.
End Conflicts.
