(* ===== verification/RestoreMirror.v ===== *)
(** * A restore mirrors the snapshot

    A plan built from a snapshot and carried out to its end leaves, below the directories it
    restores, no file that the plan does not put there. *)

From S2P Require Import Prelude RStr BTree Util Core Db Restore AtomicIo LinkFs RestoreApply RestorePlanning RestoreSafety RestoreBounds RestoreResult RestoreConflicts.

(** ** Nothing appears *)

(** Outside [L] no file, link or special file appears. *)
Definition no_new (L : Loc → Prop) (fs fs' : FsTree) : Prop := ∀ q e,
  ¬ L q → q ≠ [] → fs' !! q = Some e → is_dir_entry e = false →
  ∃ e0, fs !! q = Some e0 ∧ is_dir_entry e0 = false.

#[export] Instance no_new_preorder L : PreOrder (no_new L).
Proof.
  split; [by intros fs q e; eauto|]. intros f1 f2 f3 H12 H23 q e Hq Hne He Hd.
  destruct (H23 q e Hq Hne He Hd) as (e2 & He2 & Hd2). by eapply H12.
Qed.
Lemma no_new_mono (L L' : Loc → Prop) fs fs' : (∀ q, L q → L' q) → no_new L fs fs' → no_new L' fs fs'.
Proof. intros HL Hn q e Hq. apply Hn. auto. Qed.
Lemma no_new_other l fs fs' : (∀ q, q ≠ l → fs' !! q = fs !! q) → no_new (λ q, q = l) fs fs'.
Proof. intros Ho q e Hq _ He Hd. rewrite Ho in He by done. eauto. Qed.
Lemma no_new_delete L fs l : no_new L fs (delete l fs).
Proof. intros q e _ _ He Hd. apply lookup_delete_Some in He as [_ He]. eauto. Qed.
Lemma no_new_grow L' fs fs' : rtc (grow L') fs fs' → no_new (λ _, False) fs fs'.
Proof.
  induction 1 as [|f1 f2 f3 [l m _ _ _] _ IH]; [reflexivity|]. etrans; [|exact IH].
  intros q e _ _ He Hd. apply lookup_insert_Some in He as [[<- <-]|[_ He]]; [done|eauto].
Qed.

Section NoNew.
Context `{!RestoreSource} (cwd : Loc) (umask euid egid : Z) (uuid : nat → string).

Lemma contents_exact record cs n pieces s s' q :
  linkfree cwd (lf_tree s) (cs ++ [Normal n]) → q ≠ lex cwd cs ++ [n] →
  (let* _ := write_atomic_with cwd umask euid egid uuid (of_comps (cs ++ [Normal n])) pieces in
   apply_file_metadata cwd (of_comps (cs ++ [Normal n])) record) s = (Done tt, s') →
  lf_tree s' !! q = lf_tree s !! q.
Proof.
  intros Hl Hq Hw. apply stm_bind_Done in Hw as ([] & s2 & H2 & Hw).
  assert (no_links (λ nd, ∀ t, nd ≠ NLink t)) as Hno by (intros t Ht; by apply (Ht t)).
  destruct (write_atomic_runs cwd umask euid egid uuid false _ cs n Hno pieces ltac:(done) s _ s2 Hl H2) as [_ Hl2].
  destruct (apply_file_metadata_runs cwd false (λ _, False) cs n (λ _ H, H) record s2 _ s' (Hl2 tt eq_refl) Hw) as [Hr _].
  apply (write_atomic_with_runs cwd umask euid egid uuid false _ cs n Hno) in H2 as
    [[_ (bs & m & _ & _ & Hs2)]|[[] _]]; [|done|done].
  by rewrite (rtc_quiet_other _ _ _ _ _ _ _ Hr Hq), Hs2, lookup_insert_ne by (by apply not_eq_sym).
Qed.

(** A record that is done has touched nothing but its place. *)
Lemma payload_exact force record cs n s s' q :
  dirs cwd (lf_tree s) cs → q ≠ lex cwd cs ++ [n] →
  apply_payload cwd umask euid egid uuid record (of_comps (cs ++ [Normal n])) force s = (Done tt, s') →
  lf_tree s' !! q = lf_tree s !! q.
Proof.
  intros Hc Hq Hrun. unfold apply_payload in Hrun. destruct (fr_payload record) eqn:E;
    cbn [payload_blob_ref payload_large_ref] in Hrun;
    try (apply prepared in Hrun as (s1 & _ & Hl & Hrun & Ho); [|done]; rewrite <-(Ho q Hq);
         apply stm_bind_Done in Hrun as (x & s2 & [_ ->]%stm_ok_Done & Hrun); by eapply contents_exact).
  - assert (no_links (λ nd, nd = NDir)) as Hno by (by intros ?).
    eapply (rtc_quiet_other force (λ nd, nd = NDir)); [|exact Hq].
    refine (proj1 (runs_bind _ _ _ _ _ _ _ _ s _ s' Hc Hrun)); [by apply not_symlink_runs|intros []].
    eapply runs_bind; [by apply prepare_directory_runs|]. intros []. by apply create_dir_all_runs.
  - eapply rtc_quiet_other; [|exact Hq]. exact (proj1 (restore_symlink_runs cwd umask euid egid force cs n _ s _ s' Hc Hrun)).
  - assert (no_links (λ nd, nd = NSpecial "fifo")) as Hno by (by intros ?).
    eapply (rtc_quiet_other force (λ nd, nd = NSpecial "fifo")); [|exact Hq].
    refine (proj1 (runs_bind _ _ _ _ _ _ _ _ s _ s' Hc Hrun)); [by apply not_symlink_runs|intros []].
    eapply runs_pre; [by apply restore_special_runs|]. by intros ? [_ ?].
Qed.

Section Plan.
Context (plan : RestorePlan).
Hypothesis plain : plain_plan plan.

Lemma apply_record_no_new force record out s s' :
  record ∈ rp_files plan → apply_record cwd umask euid egid uuid plan force record s = (Done out, s') →
  no_new (λ q, record_loc cwd plan record = Some q) (lf_tree s) (lf_tree s').
Proof.
  intros Hin Hrun. unfold apply_record in Hrun. apply stm_bind_Done in Hrun as (d & s0 & [Hd ->]%stm_ok_Done & Hrun).
  apply stm_bind_Done in Hrun as (b' & s0 & [Hb' ->]%stm_ok_Done & Hrun).
  destruct (record_has_place cwd plan plain record d Hin Hd) as (b & ns & n & Hb & _ & Hc & Hkp & Hloc).
  rewrite Hb in Hb'. injection Hb' as <-. rewrite Hkp in Hrun. apply stm_bind_Done in Hrun as ([] & s1 & H1 & Hrun).
  destruct (ensure_parent_runs _ _ _ _ _ _ ns n Hc s _ s1 I H1) as [Hr1 HQ1]. specialize (HQ1 tt eq_refl).
  apply stm_bind_Done in Hrun as ([] & s2 & H2 & Hrun). injection Hrun as _ <-.
  etrans; [eapply no_new_mono; [|by eapply no_new_grow]; done|].
  eapply no_new_mono; [|apply no_new_other; intros q Hq; by eapply payload_exact]. intros q ->. exact Hloc.
Qed.

Lemma apply_records_no_new force files out s s' :
  (∀ r, r ∈ files → r ∈ rp_files plan) →
  stm_map (apply_record cwd umask euid egid uuid plan force) files s = (Done out, s') →
  no_new (λ q, ∃ r, r ∈ rp_files plan ∧ record_loc cwd plan r = Some q) (lf_tree s) (lf_tree s').
Proof.
  revert s out. induction files as [|record files IH]; intros s out Hin Hrun; simpl in Hrun.
  { injection Hrun as _ <-. reflexivity. }
  apply stm_bind_Done in Hrun as (o & s1 & H1 & Hrun). apply stm_bind_Done in Hrun as (outs & s2 & H2 & Hrun).
  injection Hrun as _ <-. etrans; [|eapply IH; [|exact H2]; intros ? ?; apply Hin; set_solver].
  eapply no_new_mono; [|eapply apply_record_no_new; [|exact H1]]; [|apply Hin; set_solver].
  intros q Hq. exists record. split; [apply Hin; set_solver|done].
Qed.

(** *** Deletions *)

Definition delete_loc (d : RestoreDelete) : option Loc :=
  match restore_delete_destination plan d with Ok p => Some (lex cwd (path_components p)) | Err _ => None end.

Lemma removal_no_new base fs fs' : rtc (removal cwd base) fs fs' → no_new (λ _, False) fs fs'.
Proof. induction 1 as [|f1 f2 f3 [l _] _ IH]; [reflexivity|]. etrans; [apply no_new_delete|exact IH]. Qed.
Lemma removal_gone base fs fs' q : rtc (removal cwd base) fs fs' → fs !! q = None → fs' !! q = None.
Proof. induction 1 as [|f1 f2 f3 [l _] _ IH]; [done|]. intros Hn. apply IH, lookup_delete_None. auto. Qed.

(** A deletion that is done: nothing new, and nothing at its place. *)
Lemma apply_delete_gone delete s s' :
  delete ∈ rp_deletes plan → apply_delete cwd umask euid egid plan delete s = (Done tt, s') →
  ∃ l, delete_loc delete = Some l ∧ no_new (λ _, False) (lf_tree s) (lf_tree s') ∧ lf_tree s' !! l = None.
Proof.
  intros Hin Hrun. unfold apply_delete in Hrun. apply stm_bind_Done in Hrun as (d & s0 & [Hd ->]%stm_ok_Done & Hrun).
  apply stm_bind_Done in Hrun as (b' & s0 & [Hb' ->]%stm_ok_Done & Hrun).
  exists (lex cwd (path_components d)). split; [unfold delete_loc; by rewrite Hd|].
  destruct (delete_destination _ _ _ Hd) as (b & Hb & Hv & ->). rewrite Hb in Hb'. injection Hb' as <-.
  destruct (restore_path_names b (rd_path delete) _ Hv eq_refl) as (ns & n & Hc & Hk).
  destruct plain as [_ Hplain]. rewrite Forall_forall in Hplain. rewrite (Hk (Hplain _ Hin)) in Hrun.
  set (cs := path_components b ++ map Normal ns) in *. set (here := lex cwd cs ++ [n]).
  assert (lex cwd (path_components (path_join b (rd_path delete))) = here) as ->.
  { rewrite Hc. unfold here, cs. rewrite lex_below. by rewrite lex_app, lex_normals. }
  apply stm_bind_Done in Hrun as ([] & s1 & H1 & Hrun).
  destruct (ensure_parent_runs _ _ _ _ _ _ ns n Hc s _ s1 I H1) as [Hr1 HQ1]. specialize (HQ1 tt eq_refl).
  apply no_new_grow in Hr1. apply stm_bind_Done in Hrun as ([] & s2 & H2 & Hrun).
  destruct (not_symlink_runs cwd true (λ _, False) cs n s1 _ s2 HQ1 H2) as [_ HQ2]. destruct (HQ2 tt eq_refl) as [Hc2 Hl2].
  apply not_symlink_same in H2 as ->.
  apply stm_bind_Done in Hrun as (meta & s3 & H3 & Hrun). rewrite stm_try_lstat, chain_lookup in H3 by done.
  injection H3 as <- <-.
  destruct (lf_tree s1 !! (lex cwd cs ++ [n])) as [e|] eqn:He; simpl in Hrun; [|injection Hrun as <-; by split].
  apply stm_bind_Done in Hrun as ([] & s3 & H3 & Hrun).
  destruct (remove_file_runs cwd true (λ _, False) cs n (λ _ H, H) eq_refl s1 _ s3 Hl2 H3) as [_ Hl3].
  apply (remove_file_run _ _ here) in H3 as [[[] _]|(_ & _ & Hs3)]; [done| |by apply names_leaf, (linkfree_app _ _ _ [Normal n])].
  destruct (remove_parents_runs cwd plan delete b _ ns n Hb Hc s3 _ s' (Hl3 tt eq_refl) Hrun) as [Hr _]. split.
  - etrans; [exact Hr1|]. etrans; [|by eapply removal_no_new]. rewrite Hs3. apply no_new_delete.
  - eapply removal_gone; [done|]. rewrite Hs3. apply lookup_delete_eq.
Qed.

(** After the deletions no file is left at any of their places. *)
Definition no_file (fs : FsTree) (q : Loc) : Prop := ∀ e, fs !! q = Some e → is_dir_entry e = true.

Lemma no_new_no_file L fs fs' q : no_new L fs fs' → ¬ L q → q ≠ [] → no_file fs q → no_file fs' q.
Proof.
  intros Hn Hq Hne Hf e He. destruct (is_dir_entry e) eqn:Hd; [done|].
  destruct (Hn q e Hq Hne He Hd) as (e0 & He0 & Hd0). by rewrite (Hf e0 He0) in Hd0.
Qed.

Lemma apply_deletes_gone deletes s s' :
  (∀ d, d ∈ deletes → d ∈ rp_deletes plan) →
  stm_iter (apply_delete cwd umask euid egid plan) deletes s = (Done tt, s') →
  no_new (λ _, False) (lf_tree s) (lf_tree s') ∧
  ∀ d, d ∈ deletes → ∃ l, delete_loc d = Some l ∧ (l ≠ [] → no_file (lf_tree s') l).
Proof.
  revert s; induction deletes as [|d deletes IH]; intros s Hin Hrun; simpl in Hrun.
  { injection Hrun as <-. split; [reflexivity|set_solver]. }
  apply stm_bind_Done in Hrun as ([] & s1 & H1 & Hrun).
  apply apply_delete_gone in H1 as (l & Hl & Hn1 & Hg); [|apply Hin; set_solver].
  destruct (IH s1) as [Hn2 Hrest]; [intros ? ?; apply Hin; set_solver|done|]. split; [by etrans|].
  intros d' [->|Hd]%elem_of_cons; [|by apply Hrest]. exists l. split; [done|]. intros Hne.
  eapply no_new_no_file; [exact Hn2|tauto|done|]. intros e He. congruence.
Qed.

Abbreviation nothing_new := (λ s s' : LfState, no_new (λ _, False) (lf_tree s) (lf_tree s')).
#[local] Instance nothing_new_preorder : PreOrder nothing_new.
Proof. split; [intros s; reflexivity|intros a b c ? ?; by etrans]. Qed.

Lemma metadata_no_new p record : always nothing_new (apply_file_metadata cwd p record).
Proof.
  apply (apply_file_metadata_always cwd nothing_new). intros follow q f s.
  destruct (change_meta cwd follow q f s) as [r s'] eqn:E. simpl.
  apply sys_run in E as [[_ ->]|E]; [reflexivity|].
  destruct (locate cwd follow (lf_tree s) q) as [l|]; [|injection E as _ <-; reflexivity].
  destruct (entry_at (lf_tree s) l) as [e|] eqn:He; [|injection E as _ <-; reflexivity]. injection E as _ <-.
  intros x e' _ Hne [[<- <-]|[_ ?]]%lookup_insert_Some Hd; [|eauto]. rewrite entry_at_ne in He by done. eauto.
Qed.

(** A plan carried out to its end: no file is at a place of a deletion, and every file is
    at the place of a record or was there before. *)
Lemma apply_plan_files force check_conflicts s s' q e :
  apply_restore_plan cwd umask euid egid uuid plan force check_conflicts s = (Done tt, s') →
  q ≠ [] → lf_tree s' !! q = Some e → is_dir_entry e = false →
  (∃ r, r ∈ rp_files plan ∧ record_loc cwd plan r = Some q) ∨
  ((∃ e0, lf_tree s !! q = Some e0 ∧ is_dir_entry e0 = false) ∧ ∀ d, d ∈ rp_deletes plan → delete_loc d ≠ Some q).
Proof.
  intros Hrun Hne He Hd. unfold apply_restore_plan in Hrun.
  apply stm_bind_Done in Hrun as ([] & s0 & [_ ->]%stm_ok_Done & Hrun).
  apply stm_bind_Done in Hrun as ([] & s0 & H0 & Hrun).
  assert (s0 = s) as ->.
  { destruct (check_conflicts && negb force); [|by injection H0 as <-].
    apply stm_bind_Done in H0 as (c & s1 & Hc & H0). pose proof (conflicts_keeps cwd plan (rp_files plan) [] s) as Hk.
    unfold restore_conflicts in Hc. rewrite Hc in Hk. simpl in Hk. subst s1.
    destruct (negb _); [done|]. destruct (negb _); [done|by injection H0 as <-]. }
  apply stm_bind_Done in Hrun as ([] & s1 & H1 & Hrun). apply stm_bind_Done in Hrun as (out & s2 & H2 & Hrun).
  apply apply_deletes_gone in H1 as [Hn1 Hgone]; [|done]. apply apply_records_no_new in H2; [|done].
  assert (no_new (λ _, False) (lf_tree s2) (lf_tree s')) as H3.
  { pose proof (always_iter nothing_new
      (λ '(dest, record), apply_file_metadata cwd dest record) (omap id out)) as Hm.
    specialize (Hm ltac:(intros [dest record]; apply metadata_no_new) s2). by rewrite Hrun in Hm. }
  destruct (H3 q e ltac:(tauto) Hne He Hd) as (e2 & He2 & Hd2).
  destruct (decide (q ∈ omap (record_loc cwd plan) (rp_files plan))) as [Hq|Hq].
  { left. by apply list_elem_of_omap in Hq. }
  right. assert (¬ ∃ r, r ∈ rp_files plan ∧ record_loc cwd plan r = Some q) as Hq'
    by (intros Hr; apply Hq; by apply list_elem_of_omap).
  destruct (H2 q e2 Hq' Hne He2 Hd2) as (e1 & He1 & Hd1). split; [by apply (Hn1 q e1); [intros []|..]|].
  intros d Hin Hl. destruct (Hgone d Hin) as (l & Hl' & Hf). rewrite Hl in Hl'. injection Hl' as <-.
  by rewrite (Hf Hne e1 He1) in Hd1.
Qed.
End Plan.
End NoNew.


(** ** The plan that was built *)

(** A name as the system allows it. *)
Definition name_ok (n : string) : Prop := n ≠ "" ∧ n ≠ "." ∧ n ≠ ".." ∧ contains_char n slash = false.
Definition well_named (fs : FsTree) : Prop := ∀ q e, fs !! q = Some e → Forall name_ok q.

Lemma split_join names : names ≠ [] → Forall name_ok names → split slash (join "/" names) = names.
Proof.
  induction names as [|n names IH]; [done|]. intros _ [(_ & _ & _ & Hn) Hns]%Forall_cons_1.
  destruct names as [|m names]; [by apply split_no_sep|].
  change (join "/" (n :: m :: names)) with (n +:+ String slash (join "/" (m :: names))).
  by rewrite split_app, IH.
Qed.

Lemma join_names names : names ≠ [] → Forall name_ok names →
  plain_rel (join "/" names) names ∧ path_tail (join "/" names) = NoTail.
Proof.
  intros Hne Hok. pose proof (split_join names Hne Hok) as Hs.
  assert (path_is_absolute (join "/" names) = false) as Habs.
  { destruct (path_is_absolute _) eqn:E; [|done]. unfold path_is_absolute in E. apply starts_with_true in E as [r Hr].
    rewrite Hr in Hs. change ("/" +:+ r) with (String slash r) in Hs. unfold split in Hs. cbn [split_by] in Hs.
    rewrite Ascii.eqb_refl in Hs. subst names. by apply Forall_cons_1 in Hok as [[] _]. }
  split.
  - split; [|done]. rewrite plain_components; rewrite ?Hs; [done|done|].
    eapply Forall_impl; [exact Hok|]. intros n (? & ? & ? & _). by apply plain_part_iff.
  - unfold path_tail. rewrite Hs. destruct names as [|n names _] using rev_ind; [done|].
    rewrite List.rev_app_distr. simpl. apply Forall_app in Hok as [_ [(? & ? & _) _]%Forall_cons_1].
    repeat case_match; simplify_eq; done.
Qed.

(** What the code relies on of a traversal that succeeds: it has found exactly what is there. *)
Class WalkLaws `{!PlanSource} : Prop :=
  walk_dir_exact : ∀ fs root l, walk_dir fs root = Ok l → ∀ ns, ns ∈ l ↔ is_Some (entry_at fs (root ++ ns)).

Section Built.
Context `{CH : !Chrono, CL : !ChronoLocal, PS : !PlanSource, WL : !WalkLaws} (cwd : Loc).

Lemma insert_delete_perm x l : insert_delete x l ≡ₚ x :: l.
Proof. induction l as [|y l IH]; simpl; [done|]. destruct (delete_le x y); [done|]. rewrite IH. by constructor. Qed.
Lemma sort_deletes_perm l : sort_deletes l ≡ₚ l.
Proof. induction l as [|x l IH]; simpl; [done|]. by rewrite insert_delete_perm, IH. Qed.

Lemma root_deletes_keeps args root_paths known id : keeps (λ s, s) (root_deletes cwd args root_paths known id).
Proof.
  unfold root_deletes. destruct (other_root _ _); [apply keeps_ret|]. apply keeps_bind; [apply keeps_ok|]. intros b.
  apply keeps_bind; [apply try_exists_keeps|]. intros []; [|apply keeps_ret].
  apply keeps_bind; [apply keeps_get|]. intros f. apply keeps_bind; [apply keeps_ok|]. intros l. apply keeps_ret.
Qed.

Lemma stm_map_keeps {A B : Type} (f : A → lf_m B) l s out s' :
  (∀ x, keeps (λ s, s) (f x)) → stm_map f l s = (Done out, s') →
  s' = s ∧ (∀ x, x ∈ l → ∃ y, y ∈ out ∧ f x s = (Done y, s)) ∧ (∀ y, y ∈ out → ∃ x, x ∈ l ∧ f x s = (Done y, s)).
Proof.
  intros Hk. revert out; induction l as [|x l IH]; intros out Hrun; simpl in Hrun.
  { injection Hrun as <- <-. set_solver. }
  apply stm_bind_Done in Hrun as (y & s1 & H1 & Hrun). apply stm_bind_Done in Hrun as (ys & s2 & H2 & Hrun).
  injection Hrun as <- <-. pose proof (Hk x s) as Hs. rewrite H1 in Hs. simpl in Hs. subst s1.
  destruct (IH ys H2) as (-> & Hl & Ho). split_and!; [done| |].
  - intros z [->|Hz]%elem_of_cons; [exists y; set_solver|]. destruct (Hl z Hz) as (w & ? & ?). exists w. set_solver.
  - intros w [->|Hw]%elem_of_cons; [exists x; set_solver|]. destruct (Ho w Hw) as (z & ? & ?). exists z. set_solver.
Qed.

(** *** The entries a traversal yields *)

Definition filter_ok (args : RestoreArgs) : Prop :=
  ∀ path, ra_path args = Some path → validate_relative_filter_path path "restore --path" = Ok tt.

Lemma scan_base_below args b : filter_ok args →
  ∃ pre, Forall name_ok pre ∧ path_components (scan_base args b) = path_components b ++ map Normal pre.
Proof.
  intros Hf. unfold scan_base. destruct (ra_path args) as [path|] eqn:E.
  - destruct (validate_relative_filter_path_safe _ _ (Hf path E)) as (_ & names & Hne & Hc & Hok).
    exists names. split; [exact Hok|]. by apply path_components_join.
  - exists []. by rewrite app_nil_r.
Qed.

(** The names of an entry found: proper ones. *)
Lemma scan_entries_names args b fs entries names d :
  filter_ok args → well_named fs →
  scan_entries cwd (path_components b) (kpath (scan_base args b)) fs = Ok entries →
  (names, d) ∈ entries → Forall name_ok names.
Proof.
  intros Hf Hwn Hsc Hin. destruct (scan_base_below args b Hf) as (pre & Hpre & Hc).
  unfold scan_entries in Hsc. apply result_bind_Ok in Hsc as (root & _ & Hsc).
  apply result_bind_Ok in Hsc as (l & Hl & Hsc). apply result_bind_Ok in Hsc as (top & _ & Hsc). injection Hsc as <-.
  apply list_elem_of_fmap in Hin as (ns & [= -> _] & Hns). cbn [kp_comps kpath]. rewrite Hc, strip_comps_app. simpl.
  rewrite map_map, map_id. apply Forall_app. split; [done|].
  apply (walk_dir_exact _ _ _ Hl) in Hns as [e He]. destruct ns as [|n ns]; [done|].
  rewrite entry_at_ne in He by (by intros [_ ?]%app_eq_nil). by apply Hwn, Forall_app in He as [_ ?].
Qed.

(** A path along directories leads there, whatever its tail. *)
Lemma locate_dirs follow fs p : dirs cwd fs (kp_comps p) → kp_comps p ≠ [] →
  locate cwd follow fs p = Ok (lex cwd (kp_comps p)).
Proof.
  intros Hd Hne. unfold locate, kp_full.
  set (tl := match kp_tail p with NoTail => [] | _ => [CurDir] end).
  assert (walk 40 fs follow cwd (kp_comps p ++ tl) = Ok (lex cwd (kp_comps p))) as Hw.
  { rewrite walk_dirs by done. unfold tl. by destruct (kp_tail p). }
  destruct (kp_comps p) as [|c cs]; [done|exact Hw].
Qed.

(** A file below a base: the way there is along directories. *)
Lemma dirs_above fs b pre ns : tree_wf fs → straight b → ns ≠ [] →
  is_Some (fs !! (lex cwd (path_components b) ++ pre ++ ns)) → dirs cwd fs (path_components b ++ map Normal pre).
Proof.
  intros Hwf Hs Hne Hex. destruct ns as [|n ns _] using rev_ind; [done|].
  assert (dirs cwd fs (path_components b ++ map Normal (pre ++ ns))) as Hd.
  { eapply straight_dirs; [done|done|]. rewrite lex_below. by rewrite <-(app_assoc pre). }
  unfold dirs in *. rewrite map_app, app_assoc, steps_app in Hd. by apply Forall_app in Hd as [? _].
Qed.

Section Scan.
Context (args : RestoreArgs) (b : string) (fs : FsTree) (pre ns : list string) (e : Entry).
Hypothesis wf : tree_wf fs.
Hypothesis nonempty : path_components b ≠ [].
Hypothesis goes_down : straight b.
Hypothesis below : path_components (scan_base args b) = path_components b ++ map Normal pre.
Hypothesis ns_ne : ns ≠ [].
Hypothesis there : fs !! (lex cwd (path_components b) ++ pre ++ ns) = Some e.

Lemma scan_located follow : locate cwd follow fs (kpath (scan_base args b)) = Ok (lex cwd (path_components b) ++ pre).
Proof.
  rewrite locate_dirs; cbn [kp_comps kpath]; rewrite below; [by rewrite lex_app, lex_normals| |].
  - eapply dirs_above; eauto.
  - by intros [? _]%app_eq_nil.
Qed.

Lemma scan_exists s : lf_tree s = fs → try_exists cwd (kpath (scan_base args b)) s = (Done true, s).
Proof.
  intros Hs. unfold try_exists, metadata, stm_bind, stm_get, stm_ok, stm_lift, lookup_path. rewrite Hs, scan_located. simpl.
  assert (is_dir fs (lex cwd (path_components b) ++ pre)) as (d & -> & _); [|done].
  eapply wf_above; [done|exact ns_ne|]. rewrite <-app_assoc. by exists e.
Qed.

(** Every file below a directory that no link leads to is found. *)
Lemma scan_entries_found entries :
  scan_entries cwd (path_components b) (kpath (scan_base args b)) fs = Ok entries → (pre ++ ns, is_dir_entry e) ∈ entries.
Proof.
  unfold scan_entries. rewrite scan_located. cbn [result_bind]. intros (l & Hl & Hsc)%result_bind_Ok.
  apply result_bind_Ok in Hsc as (top & _ & Hsc). injection Hsc as <-.
  cbn [kp_comps kpath]. rewrite below, strip_comps_app. simpl. rewrite map_map, map_id.
  assert (entry_at fs ((lex cwd (path_components b) ++ pre) ++ ns) = Some e) as He.
  { rewrite entry_at_ne, <-app_assoc; [done|]. by intros [_ ?]%app_eq_nil. }
  apply list_elem_of_fmap. exists ns. split; [|apply (walk_dir_exact _ _ _ Hl); by rewrite He].
  f_equal. destruct ns as [|n ns']; [done|]. by rewrite He.
Qed.

(** It is then deleted, unless the records of the plan have its path. *)
Lemma root_deletes_found root_paths known id s out s' :
  lf_tree s = fs → other_root (ra_root args) id = false → restore_root_base (ra_to args) root_paths id = Ok b →
  is_dir_entry e = false → root_deletes cwd args root_paths known id s = (Done out, s') →
  (id, join "/" (pre ++ ns)) ∈ known ∨ {| rd_root_id := id; rd_path := join "/" (pre ++ ns) |} ∈ out.
Proof.
  intros Hs Hid Hb Hd Hrun. unfold root_deletes in Hrun. rewrite Hid in Hrun.
  apply stm_bind_Done in Hrun as (b' & s1 & [Hb' ->]%stm_ok_Done & Hrun). rewrite Hb in Hb'. injection Hb' as <-.
  apply stm_bind_Done in Hrun as (here & s1 & H1 & Hrun). rewrite scan_exists in H1 by done. injection H1 as <- <-.
  simpl in Hrun. apply stm_bind_Done in Hrun as (found & s1 & H1 & Hrun). injection H1 as <- <-. rewrite Hs in Hrun.
  apply stm_bind_Done in Hrun as (entries & s1 & [Hsc ->]%stm_ok_Done & Hrun). injection Hrun as <- _.
  apply scan_entries_found in Hsc. rewrite Hd in Hsc.
  destruct (decide ((id, join "/" (pre ++ ns)) ∈ known)) as [Hk|Hk]; [by left|right].
  apply list_elem_of_omap. exists (pre ++ ns, false). split; [done|]. simpl. by rewrite bool_decide_false.
Qed.
End Scan.

(** *** The parts of a plan *)

Lemma collect_roots_ids args snapshot ids acc files roots files' :
  collect_roots args snapshot ids acc files = Ok (roots, files') →
  roots = acc ++ List.filter (λ id, negb (other_root (ra_root args) id)) ids.
Proof.
  revert acc files; induction ids as [|id ids IH]; intros acc files; simpl.
  { intros [= <- _]. by rewrite app_nil_r. }
  destruct (other_root _ _); simpl; [apply IH|]. intros (f & _ & Hr)%result_bind_Ok. apply IH in Hr. by rewrite Hr, <-app_assoc.
Qed.

(** A plan that was built: its deletions are what the traversals of the selected roots gave. *)
Record built (args : RestoreArgs) (s : LfState) (plan : RestorePlan) (snapshot : SnapshotManifest) : Prop := {
  built_filter : filter_ok args;
  built_to : rp_to plan = ra_to args;
  built_found : ∀ id, id ∈ restore_plan_root_ids snapshot → other_root (ra_root args) id = false →
    ∃ out, root_deletes cwd args (rp_root_paths plan) (map record_key (rp_files plan)) id s = (Done out, s) ∧
      ∀ d, d ∈ out → d ∈ rp_deletes plan;
  built_deletes : ∀ d, d ∈ rp_deletes plan → ∃ id out,
    root_deletes cwd args (rp_root_paths plan) (map record_key (rp_files plan)) id s = (Done out, s) ∧ d ∈ out;
}.

Lemma plan_built args snapshot s plan s' :
  load_snapshot_header args = Done snapshot → build_restore_plan cwd args s = (Done plan, s') → built args s plan snapshot.
Proof.
  intros Hsnap Hrun. unfold build_restore_plan in Hrun. apply stm_bind_Done in Hrun as ([] & s1 & H1 & Hrun).
  assert (s1 = s ∧ filter_ok args) as [-> Hf].
  { unfold filter_ok. destruct (ra_path args) as [path|]; [|by injection H1 as <-].
    apply stm_ok_Done in H1 as [? ->]. split; [done|]. by intros ? [= <-]. }
  apply stm_bind_Done in Hrun as (sn & s1 & Hsn & Hrun). unfold stm_lift in Hsn. rewrite Hsnap in Hsn. injection Hsn as <- <-.
  apply stm_bind_Done in Hrun as (rows & s1 & [_ ->]%stm_ok_Done & Hrun).
  apply stm_bind_Done in Hrun as ([roots collected] & s1 & [Hroots%collect_roots_ids ->]%stm_ok_Done & Hrun).
  apply stm_bind_Done in Hrun as (files & s1 & Hfiles & Hrun). injection Hfiles as _ <-.
  apply stm_bind_Done in Hrun as (deletes & s1 & H1' & Hrun). apply stm_bind_Done in Hrun as ([] & s2 & _ & Hrun).
  injection Hrun as <- _. unfold build_restore_deletes in H1'. apply stm_bind_Done in H1' as (found & s3 & H3 & H1').
  injection H1' as <- _. apply stm_map_keeps in H3 as (_ & Hin & Hout); [|intros ?; apply root_deletes_keeps].
  split; simpl; [done|done| |].
  - intros id Hid Hother. destruct (Hin id) as (out & Ho & Hrun).
    { rewrite Hroots. simpl. apply list_elem_of_In, filter_In. rewrite <-list_elem_of_In. by rewrite Hother. }
    exists out. split; [done|]. intros d Hd. rewrite sort_deletes_perm. apply list_elem_of_In, in_concat. exists out. by rewrite <-!list_elem_of_In.
  - intros d Hd. rewrite sort_deletes_perm in Hd. apply list_elem_of_In, in_concat in Hd as (out & Ho & Hd).
    apply list_elem_of_In in Ho, Hd.
    destruct (Hout out Ho) as (id & _ & Hrun). by exists id, out.
Qed.

(** Building a plan only looks. *)
Lemma existing_components_keeps current rest : keeps (λ s, s) (existing_components cwd current rest).
Proof.
  revert current; induction rest as [|c rest IH]; intros current; simpl; [apply keeps_ret|].
  assert (keeps (λ s : LfState, s) (λ s, match symlink_metadata cwd (of_comps (current ++ [c])) s with
    | (Done meta, s1) => (if is_link_entry meta then stm_fail "restore path component is a symlink"
        else if negb (is_dir_entry meta) then stm_fail "restore path component is not a directory"
        else existing_components cwd (current ++ [c]) rest) s1
    | (Fails err, s1) => if (err =? "NotFound")%string then (Done tt, s1) else (Fails err, s1)
    | (Panics, s1) => (Panics, s1) end)) as Hk; [|by destruct c].
  intros s. pose proof (lstat_keeps cwd (of_comps (current ++ [c])) s) as Hl.
  destruct (symlink_metadata _ _ s) as [[meta|err|] s1]; simpl in Hl; subst s1; [|by destruct (_ =? _)%string|done].
  destruct (is_link_entry meta); [done|]. destruct (negb _); [done|apply IH].
Qed.
Lemma stm_iter_keeps {A : Type} (f : A → lf_m unit) l : (∀ x, keeps (λ s, s) (f x)) → keeps (λ s, s) (stm_iter f l).
Proof. intros Hf. induction l as [|x l IH]; simpl; [apply keeps_ret|]. by apply keeps_bind. Qed.
Lemma stm_map_keeps_all {A B : Type} (f : A → lf_m B) l : (∀ x, keeps (λ s, s) (f x)) → keeps (λ s, s) (stm_map f l).
Proof.
  intros Hf. induction l as [|x l IH]; simpl; [apply keeps_ret|]. apply keeps_bind; [done|]. intros y.
  apply keeps_bind; [done|]. intros ys. apply keeps_ret.
Qed.
Lemma build_keeps args : keeps (λ s, s) (build_restore_plan cwd args).
Proof.
  unfold build_restore_plan. apply keeps_bind; [destruct (ra_path args); [apply keeps_ok|apply keeps_ret]|]. intros _.
  apply keeps_bind; [apply keeps_lift|]. intros snapshot. apply keeps_bind; [apply keeps_ok|]. intros rows.
  apply keeps_bind; [apply keeps_ok|]. intros [roots collected]. apply keeps_bind; [apply keeps_lift|]. intros files.
  apply keeps_bind; [|intros deletes; apply keeps_bind; [|intros _; apply keeps_ret]].
  - apply keeps_bind; [apply stm_map_keeps_all, root_deletes_keeps|intros found; apply keeps_ret].
  - apply stm_iter_keeps. intros id. apply keeps_bind; [apply keeps_ok|]. intros b. apply existing_components_keeps.
Qed.

(** A deletion of the plan has a proper path, or none. *)
Lemma built_delete_plain args s plan snapshot d :
  built args s plan snapshot → well_named (lf_tree s) → d ∈ rp_deletes plan →
  validate_restore_relative_path (rd_path d) = Ok tt → path_tail (rd_path d) = NoTail.
Proof.
  intros Hbuilt Hwn Hd Hv. destruct (built_deletes _ _ _ _ Hbuilt d Hd) as (id & out & Hrun & Hin).
  unfold root_deletes in Hrun. destruct (other_root _ _); [injection Hrun as <-; set_solver|].
  apply stm_bind_Done in Hrun as (b & s1 & [_ ->]%stm_ok_Done & Hrun).
  apply stm_bind_Done in Hrun as (here & s1 & H1 & Hrun). pose proof (try_exists_keeps cwd (kpath (scan_base args b)) s) as Hk.
  rewrite H1 in Hk. simpl in Hk. subst s1. destruct (negb here); [injection Hrun as <-; set_solver|].
  apply stm_bind_Done in Hrun as (found & s1 & H2 & Hrun). injection H2 as <- <-.
  apply stm_bind_Done in Hrun as (entries & s1 & [Hsc ->]%stm_ok_Done & Hrun). injection Hrun as <-.
  apply list_elem_of_omap in Hin as ([names dir] & Hin & Hsel).
  assert (rd_path d = join "/" names) as Hp by (destruct (_ || _); [done|by injection Hsel as <-]).
  rewrite Hp in *. apply join_names; [|by eapply scan_entries_names, Hin; [apply Hbuilt|..]].
  intros ->. done.
Qed.
End Built.

(** ** The restored directories mirror the plan *)

Section Mirror.
Context `{RS : !RestoreSource, CH : !Chrono, CL : !ChronoLocal, PS : !PlanSource, WL : !WalkLaws} (cwd : Loc) (umask euid egid : Z) (uuid : nat → string).

Lemma deletes_validated plan deletes s s' :
  stm_iter (apply_delete cwd umask euid egid plan) deletes s = (Done tt, s') →
  ∀ d, d ∈ deletes → validate_restore_relative_path (rd_path d) = Ok tt.
Proof.
  revert s; induction deletes as [|x deletes IH]; intros s Hrun d Hd; [set_solver|].
  simpl in Hrun. apply stm_bind_Done in Hrun as ([] & s1 & Hx & Hrun). apply elem_of_cons in Hd as [->|Hd]; [|by eapply IH].
  unfold apply_delete in Hx. apply stm_bind_Done in Hx as (p & s2 & [Hp _]%stm_ok_Done & _).
  by apply delete_destination in Hp as (b & _ & ? & _).
Qed.

(** The place of a path made of proper names. *)
Lemma join_place b names : names ≠ [] → Forall name_ok names →
  validate_restore_relative_path (join "/" names) = Ok tt ∧
  lex cwd (path_components (path_join b (join "/" names))) = lex cwd (path_components b) ++ names.
Proof.
  intros Hne Hok. destruct (join_names names Hne Hok) as [Hrel _]. split.
  - unfold validate_restore_relative_path. destruct Hrel as [-> _].
    assert (existsb (λ c, match c with Normal _ => false | _ => true end) (map Normal names) = false) as ->;
      [|by destruct names].
    clear. by induction names.
  - by rewrite (path_components_join _ _ _ Hrel), lex_app, lex_normals.
Qed.

Section Place.
Context (plan : RestorePlan) (id b : string) (names : list string).
Hypothesis base : restore_root_base (rp_to plan) (rp_root_paths plan) id = Ok b.
Hypothesis names_ne : names ≠ [].
Hypothesis names_proper : Forall name_ok names.

Lemma record_place_of r : record_key r = (id, join "/" names) → record_loc cwd plan r = Some (lex cwd (path_components b) ++ names).
Proof.
  intros [= Hid Hp]. destruct (join_place b names names_ne names_proper) as [Hv <-].
  unfold record_loc, restore_destination. rewrite Hp, Hid, Hv. cbn [result_bind]. unfold restore_root_base in base.
  destruct (rp_to plan); [by injection base as ->|]. destruct (bmap_get _ _); [by injection base as ->|done].
Qed.
Lemma delete_place_of :
  delete_loc cwd plan {| rd_root_id := id; rd_path := join "/" names |} = Some (lex cwd (path_components b) ++ names).
Proof.
  destruct (join_place b names names_ne names_proper) as [Hv <-].
  unfold delete_loc, restore_delete_destination. cbn [rd_path rd_root_id]. rewrite Hv. cbn [result_bind]. unfold restore_root_base in base.
  destruct (rp_to plan); [by injection base as ->|]. destruct (bmap_get _ _); [by injection base as ->|done].
Qed.
End Place.

Lemma components_nonempty b : b ≠ "" → path_components b ≠ [].
Proof.
  destruct b as [|c b]; [done|]. intros _. unfold path_components.
  destruct (path_is_absolute (String c b)) eqn:Habs; [done|]. unfold path_is_absolute in Habs.
  assert (slash ≠ c) as Hc by (intros <-; simpl in Habs; by destruct b).
  unfold split. cbn [split_by]. apply Ascii.eqb_neq in Hc. rewrite Hc.
  destruct (split_by _ b) as [|w ws] eqn:E; [by apply split_by_not_nil in E|].
  destruct (String.eqb_spec (String c w) "."); [done|]. intros [_ Hn]%app_eq_nil. cbn [flat_map] in Hn.
  apply app_eq_nil in Hn as [Hn _]. unfold component_of in Hn.
  destruct (String.eqb_spec (String c w) "."); [done|]. by destruct (String c w =? "..")%string.
Qed.

(** C7. Building a restore plan and carrying it out makes each restored directory a mirror of
    the plan, when its path has no [..]: when both succeed, every file, link or special file
    below a directory that was restored (or below the selected path in it) is at the place of
    a record of the plan. Whatever else was there before the plan was built is gone. The paths
    of the records have no trailing separator; in the file system everything lies in a
    directory and has a proper name. (With a [..] behind a directory that is missing when the
    plan is built, the scan finds nothing to delete.) *)
Theorem restore_mirrors_plan args snapshot plan force check_conflicts id b s s1 s' ns e :
  load_snapshot_header args = Done snapshot →
  build_restore_plan cwd args s = (Done plan, s1) →
  apply_restore_plan cwd umask euid egid uuid plan force check_conflicts s1 = (Done tt, s') →
  Forall (λ r, path_tail (fr_path r) = NoTail) (rp_files plan) →
  tree_wf (lf_tree s) → well_named (lf_tree s) →
  id ∈ restore_plan_root_ids snapshot → other_root (ra_root args) id = false →
  restore_root_base (rp_to plan) (rp_root_paths plan) id = Ok b → b ≠ "" → straight b →
  ns ≠ [] → lf_tree s' !! (lex cwd (path_components (scan_base args b)) ++ ns) = Some e → is_dir_entry e = false →
  ∃ r, r ∈ rp_files plan ∧ record_loc cwd plan r = Some (lex cwd (path_components (scan_base args b)) ++ ns).
Proof.
  intros Hsnap Hplan Hrun Hplain Hwf Hwn Hid Hother Hb Hbne Hstr Hns He Hd.
  pose proof (build_keeps cwd args s) as Hs. rewrite Hplan in Hs. simpl in Hs. subst s1.
  pose proof (plan_built cwd args snapshot s plan s Hsnap Hplan) as Hbuilt.
  destruct (scan_base_below args b (built_filter _ _ _ _ _ Hbuilt)) as (pre & Hpre & Hscan).
  rewrite Hscan, lex_app, lex_normals, <-app_assoc in He |- *.
  assert (plain_plan plan) as Hpp.
  { split; [done|]. apply Forall_forall. intros d Hdel. eapply built_delete_plain; [done|done|done|].
    unfold apply_restore_plan in Hrun. apply stm_bind_Done in Hrun as ([] & ? & _ & Hrun).
    apply stm_bind_Done in Hrun as ([] & ? & _ & Hrun). apply stm_bind_Done in Hrun as ([] & ? & Hdels & _).
    by eapply deletes_validated. }
  destruct (apply_plan_files cwd umask euid egid uuid plan Hpp _ _ _ _ _ _ Hrun ltac:(by intros [_ [_ ?]%app_eq_nil]%app_eq_nil) He Hd)
    as [?|((e0 & He0 & Hd0) & Hdel)]; [done|].
  destruct (built_found _ _ _ _ _ Hbuilt id Hid Hother) as (out & Hout & Hsub).
  assert (pre ++ ns ≠ []) as Hne by (by intros [_ ?]%app_eq_nil).
  assert (Forall name_ok (pre ++ ns)) as Hok by (by apply Hwn, Forall_app in He0 as [_ ?]).
  rewrite (built_to _ _ _ _ _ Hbuilt) in Hb. pose proof Hb as Hb'. rewrite <-(built_to _ _ _ _ _ Hbuilt) in Hb'.
  pose proof (root_deletes_found cwd args b (lf_tree s) pre ns e0 Hwf (components_nonempty b Hbne) Hstr Hscan Hns He0
    _ _ id s out s eq_refl Hother Hb Hd0 Hout) as [(r & Hr & Hin)%list_elem_of_fmap|Hin].
  - exists r. split; [done|]. by eapply record_place_of.
  - destruct (Hdel _ (Hsub _ Hin)). by apply delete_place_of.
Qed.
End Mirror.
