(* ===== verification/RestoreExample.v ===== *)
(** * Restores evaluated

    The theorems on restores at a concrete file system and plan, and three behaviours of the
    code that go against its intention. *)

From S2P Require Import Prelude RStr BTree Util Core Db Restore AtomicIo LinkFs EventJournal RestoreApply RestorePlanning RestoreOverlay RestoreSafety RestoreBounds RestoreFaults RestoreResult RestoreConflicts RestoreMirror.

(** ** Checking the hypotheses *)

Lemma distinct_from_NoDup cwd plan : NoDup (map (record_loc cwd plan) (rp_files plan)) → distinct_plan cwd plan.
Proof.
  intros Hnd i j r1 r2 l H1 H2 Hl1 Hl2. eapply (NoDup_lookup _ _ _ (Some l) Hnd);
    rewrite list_lookup_fmap; [rewrite H1|rewrite H2]; simpl; by f_equal.
Qed.

(** Bases that go nowhere up make no detours. *)
Lemma straight_no_detours cwd plan : (∀ id b, plan_base plan id b → straight b) → detours_apart cwd plan.
Proof.
  intros Hs r l id b _ _ _ Hb. destruct (straight_components b (Hs id b Hb)) as (h & ns & -> & Hh).
  rewrite steps_app, lex_app, lex_normals. intros [Hl|(ms & _ & -> & [rest ->])%steps_normals]%elem_of_app.
  - destruct Hh as [->|[->| ->]]; simpl in *; [by apply elem_of_nil in Hl|..];
      apply list_elem_of_singleton in Hl as ->; [apply prefix_nil|by apply prefix_app_r].
  - exists rest. by rewrite app_assoc.
Qed.

(** A traversal of the tree: the names below a directory. *)
Fixpoint names_below (root q : Loc) : option Loc :=
  match root, q with
  | [], _ => Some q
  | n :: root', m :: q' => if (n =? m)%string then names_below root' q' else None
  | _, [] => None
  end.
Lemma names_below_Some root q ns : names_below root q = Some ns ↔ q = root ++ ns.
Proof.
  revert q; induction root as [|n root IH]; intros q; [naive_solver|]. destruct q as [|m q]; [done|]. simpl.
  destruct (String.eqb_spec n m) as [->|Hne]; [rewrite IH|]; naive_solver.
Qed.
Definition list_below (fs : FsTree) (root : Loc) : list Loc :=
  match entry_at fs root with Some _ => [[]] | None => [] end ++
  omap (λ q, match names_below root q with Some (n :: ns) => Some (n :: ns) | _ => None end) (map_to_list fs).*1.
Lemma elem_of_list_below fs root ns : ns ∈ list_below fs root ↔ is_Some (entry_at fs (root ++ ns)).
Proof.
  unfold list_below. rewrite elem_of_app, list_elem_of_omap. destruct ns as [|n ns].
  - rewrite app_nil_r. destruct (entry_at fs root) eqn:E.
    + split; [done|]. intros _. left. set_solver.
    + split; [|by intros [? ?]]. intros [H|(q & _ & Hq)]; [set_solver|]. by repeat case_match.
  - rewrite (entry_at_ne fs (root ++ _)) by (by intros [_ ?]%app_eq_nil). split.
    + intros [H|(q & ([q' e] & -> & Hq)%list_elem_of_fmap & Hn)]; [by destruct (entry_at fs root); set_solver|].
      simpl in Hn. destruct (names_below root q') as [[|m ms]|] eqn:E; simplify_eq.
      apply names_below_Some in E as ->. apply elem_of_map_to_list in Hq. by eexists.
    + intros [e He]. right. exists (root ++ n :: ns). split.
      * apply elem_of_map_to_list in He. by apply (list_elem_of_fmap_2 fst _ _ He).
      * by rewrite (proj2 (names_below_Some root _ (n :: ns)) eq_refl).
Qed.

Module RestoreExample.
Import CoreExample Restore.RestoreExample.

#[local] Instance source : RestoreSource := {|
  read_blob_payload oid key := Ok [1; 2]%Z;
  read_manifest key := Ok (Build_LargeManifest 1 key 3 None false "fixed" 2
    [Build_LargeChunk 0 0 2 None "none" "c0" "objects/c0"; Build_LargeChunk 1 2 1 None "none" "c1" "objects/c1"]);
  read_large_chunk c := if (lc_oid c =? "c0")%string then Ok [7; 8]%Z else Ok [9]%Z;
  base64_decode _ := Ok [];
  prefetch _ := Ok tt;
|}.

Definition uuid (n : nat) : string := String (ascii_of_nat (48 + n)) "".
Definition entry (nd : Node) : Entry := {| en_node := nd; en_meta := Build_Meta 493 0 0 None ∅ |}.
Definition record (root path : string) (size : Z) (p : Payload) : FileRecord :=
  Build_FileRecord root path "" size 420 (Some 1700000000%Z) (Some 7%Z) (Some 8%Z) [] p.

(** A directory [out] below the working directory [/w], with a link out of it, and [/etc]. *)
Definition tree : FsTree := list_to_map [
  (["w"], entry NDir); (["etc"], entry NDir); (["w"; "out"], entry NDir); (["w"; "out"; "r"], entry NDir);
  (["w"; "out"; "r"; "way"], entry (NLink "/etc")); (["w"; "out"; "r"; "same"], entry (NFile [1; 2]%Z));
  (["w"; "out"; "r"; "old"], entry (NFile [3]%Z))].
(** The third call that changes the tree fails. *)
Definition start : LfState := {| lf_tree := tree; lf_faults := [None; None; Some {| ft_kind := OtherFault; ft_written := 1 |}]; lf_names := 0 |}.
Definition calm : LfState := {| lf_tree := tree; lf_faults := []; lf_names := 0 |}.

Abbreviation apply plan force check s := (apply_restore_plan ["w"] 18 1 1 uuid plan force check s).

Definition files : list FileRecord := [
  record "r" "d" 0 Directory; record "r" "d/f" 2 (Blob "b" "objects/b"); record "r" "big" 3 (Large "l" "objects/l" 2);
  record "r" "same" 2 (Blob "b" "objects/b"); record "r" "d/link" 0 (Symlink "/etc")].
Definition plan : RestorePlan :=
  {| rp_to := Some "out"; rp_root_paths := []; rp_files := files; rp_deletes := [{| rd_root_id := "r"; rd_path := "old" |}] |}.
(** The same without deletions. *)
Definition careful : RestorePlan := {| rp_to := Some "out"; rp_root_paths := []; rp_files := files; rp_deletes := [] |}.

Lemma plan_plain : plain_plan plan ∧ plain_plan careful.
Proof. split; split; repeat constructor. Qed.
Lemma plan_straight id b : plan_base plan id b ∨ plan_base careful id b → straight b.
Proof.
  intros H. assert (id = "r" ∧ b = path_join "out" id) as [-> ->].
  { destruct H as [[Hid Hb]|[Hid Hb]]; (split; [|by injection Hb]); apply list_elem_of_In in Hid; simpl in Hid; naive_solver. }
  unfold straight. change (path_components (path_join "out" "r")) with [Normal "out"; Normal "r"]. set_solver.
Qed.
Lemma plan_distinct : distinct_plan ["w"] plan ∧ distinct_plan ["w"] careful.
Proof. split; apply distinct_from_NoDup; apply (bool_decide_unpack _); vm_compute; exact I. Qed.

Lemma restore_stays_inside_witness :
  confined ["w"] plan (lf_tree start) (lf_tree (apply plan true true start).2).
Proof.
  apply restore_stays_inside; [apply plan_plain|apply plan_distinct|].
  apply straight_no_detours. intros id b Hb. apply (plan_straight id b). by left.
Defined.

Lemma restore_puts_records_in_place_witness :
  ∃ l e, record_loc ["w"] plan (record "r" "big" 3 (Large "l" "objects/l" 2)) = Some l ∧
    lf_tree (apply plan true true calm).2 !! l = Some e ∧
    produces (record "r" "big" 3 (Large "l" "objects/l" 2)) (en_node e) ∧
    (¬ is_symlink_record (record "r" "big" 3 (Large "l" "objects/l" 2)) →
     meta_set (lf_faults calm = []) (record "r" "big" 3 (Large "l" "objects/l" 2)) (en_meta e)).
Proof.
  apply (restore_puts_records_in_place ["w"] 18 1 1 uuid plan true true calm).
  - exact (proj1 plan_plain).
  - exact (proj1 plan_distinct).
  - apply straight_no_detours. intros id b Hb. apply (plan_straight id b). by left.
  - vm_compute. reflexivity.
  - do 2 right. left.
Defined.

(** The tree is in order. *)
Lemma tree_ok : tree_wf tree.
Proof.
  intros l n [e He]. apply elem_of_list_to_map_2, list_elem_of_In in He. simpl in He.
  assert (Hl : l ∈ [[]; ["w"]; ["w"; "out"]; ["w"; "out"; "r"]]).
  { repeat (destruct He as [He|He]; [injection He as He _|]); [..|done];
      destruct l as [|? [|? [|? [|? l]]]]; simplify_eq/=; try (apply list_elem_of_In; simpl; by auto 10); by destruct l. }
  apply list_elem_of_In in Hl. simpl in Hl.
  destruct Hl as [<-|[<-|[<-|[<-|[]]]]]; by eexists.
Qed.
Lemma files_sized : Forall sized files.
Proof.
  repeat constructor; intros oid key k m bs Hk Hm Hbs; simpl in Hk; try done. injection Hk as <- <- <-.
  injection Hm as <-. vm_compute in Hbs. injection Hbs as <-. done.
Qed.

Lemma checked_restore_keeps_contents_witness :
  keeps_nodes tree (lf_tree (apply careful false true start).2).
Proof.
  apply (checked_restore_keeps_contents ["w"] 18 1 1 uuid careful start); [apply plan_plain|apply tree_ok| |apply files_sized].
  intros id b Hb. apply (plan_straight id b). by right.
Defined.

(** *** Planning *)

Definition hours (n : Z) : DateTime := (n * 3600 * nanos)%Z.
(** A snapshot with a link and three files; later one of them is changed and one deleted, and
    a new one made. *)
Definition event (time : DateTime) (path : string) : EventJournalRecord :=
  Build_EventJournalRecord "" "fs-event" time "" (Some "r") (Some path) None None None (Some time)
    None None (Some "b2") (Some "objects/b2") (Some 2%Z) None None None None None None None None.
Definition tombstone (time : DateTime) (path : string) : EventJournalRecord :=
  Build_EventJournalRecord "" "fs-event" time "" (Some "r") (Some path) None None None (Some time)
    (Some true) None None None None None None None None None None None None.
Definition snapshot : SnapshotManifest := {| sm_snapshot_id := "s1"; sm_parent := None; sm_op_id := "op1";
  sm_timestamp := hours 3; sm_root_trees := []; sm_roots := [("r", [
    record "r" "way" 0 (Symlink "/etc"); record "r" "same" 2 (Blob "b" "objects/b");
    record "r" "gone" 2 (Blob "b" "objects/b"); record "r" "d/f" 2 (Blob "b" "objects/b")])] |}.

#[local] Instance plan_source : PlanSource := {|
  table_snapshots := [("s1", to_rfc3339 (hours 3))];
  current_snapshot := Some "s1";
  query_operation_resolved _ := Ok (None, Some "s1");
  load_snapshot_header_by_id _ := Ok snapshot;
  table_roots := Ok [];
  visit_tree_records _ := Ok [];
  event_journal_records := Ok [event (hours 5) "d/f"; tombstone (hours 6) "gone"; event (hours 7) "new"];
  utc_now := hours 8;
  walk_dir fs root := Ok (list_below fs root);
|}.
#[local] Instance plan_walk : WalkLaws.
Proof. intros fs root l [= <-] ns. apply elem_of_list_below. Qed.

Definition args : RestoreArgs := {| ra_snapshot := None; ra_op := None; ra_at := None; ra_ago := None; ra_root := Some "r";
  ra_path := None; ra_to := Some "out"; ra_force := true; ra_check_conflicts := true |}.
Definition built_plan : RestorePlan :=
  match (build_restore_plan ["w"] args calm).1 with Done p => p | _ => plan end.


Lemma tree_named : well_named tree.
Proof.
  intros q e He. apply elem_of_list_to_map_2, list_elem_of_In in He. simpl in He.
  repeat (destruct He as [He|He]; [injection He as <- _; repeat constructor; done|]). done.
Qed.

Lemma restore_mirrors_plan_witness :
  rp_deletes built_plan = [{| rd_root_id := "r"; rd_path := "old" |}] ∧
  ∃ r, r ∈ rp_files built_plan ∧ record_loc ["w"] built_plan r = Some ["w"; "out"; "r"; "d"; "f"].
Proof.
  split; [vm_compute; reflexivity|].
  apply (restore_mirrors_plan ["w"] 18 1 1 uuid args snapshot built_plan true true "r" "out/r" calm calm
    (apply built_plan true true calm).2 ["d"; "f"]
    (default (entry NDir) (lf_tree (apply built_plan true true calm).2 !! ["w"; "out"; "r"; "d"; "f"])));
    try (vm_compute; reflexivity); [|apply tree_ok|apply tree_named|..].
  - vm_compute. repeat constructor.
  - apply (bool_decide_unpack _). vm_compute. exact I.
  - done.
  - unfold straight. change (path_components "out/r") with [Normal "out"; Normal "r"]. set_solver.
  - done.
Defined.

(** *** Where the code does not do what it means to *)

(** Selected by [--ago 4h], or by an operation, the state of then is not what is restored: the
    journal is applied to it up to the present. *)
Theorem past_state_has_later_changes :
  let args op ago := {| ra_snapshot := None; ra_op := op; ra_at := None; ra_ago := ago; ra_root := Some "r";
    ra_path := None; ra_to := Some "out"; ra_force := true; ra_check_conflicts := true |} in
  ∀ a, a = args None (Some "4h") ∨ a = args (Some "op1") None →
  load_snapshot_header a = Done snapshot ∧
  ∃ plan, (build_restore_plan ["w"] a calm).1 = Done plan ∧
    record_key <$> rp_files plan = [("r", "d/f"); ("r", "new"); ("r", "same"); ("r", "way")].
Proof. intros args a [-> | ->]; vm_compute; eauto. Qed.

(** A file that is changed and changed back: both contents are durable, and because some event
    has the contents of now, the second change gets no event; the journal says the first. *)
Theorem reverted_change_not_recorded :
  let change time oid := Build_EventJournalRecord "" "fs-event" time "" (Some "r") (Some "f") None None None (Some time)
    None (Some "file") (Some oid) (Some ("objects/" +:+ oid)) (Some 2%Z) None None None None None None None None in
  let old := record "r" "f" 2 (Blob "x" "objects/x") in
  let live := record "r" "f" 2 (Blob "a" "objects/a") in
  let journal := [change 1%Z "a"; change 2%Z "b"] in
  live_diff_event_kind (Some old) (Some live) = Some "modify" ∧
  live_diff_event_already_covered journal "r" "f" 0%Z (Some live) = true ∧
  fr_payload <$> (fold_left (overlay_event args 0%Z 10%Z) journal (pm_collect [old])).*2 = [NormalBlob "b" "objects/b"].
Proof. vm_compute. auto. Qed.

(** A link that the plan does not have is to be deleted, and stops the restore. *)
Theorem extra_link_stops_restore :
  let plan := {| rp_to := Some "out"; rp_root_paths := []; rp_files := [];
                 rp_deletes := [{| rd_root_id := "r"; rd_path := "way" |}] |} in
  (apply plan true true calm).1 = Fails "restore target is a symlink".
Proof. vm_compute. auto. Qed.

(** The root id of a record is joined to the target unchecked: a record of the root
    [../../etc] goes outside the directory given with [--to]. *)
Theorem root_id_leaves_target :
  let plan := {| rp_to := Some "out"; rp_root_paths := [];
                 rp_files := [record "../../etc" "cron" 2 (Blob "b" "objects/b")]; rp_deletes := [] |} in
  let (r, s) := apply plan false true calm in
  r = Done tt ∧ tree !! ["etc"; "cron"] = None ∧ en_node <$> lf_tree s !! ["etc"; "cron"] = Some (NFile [1; 2]%Z).
Proof. vm_compute. auto. Qed.

(** A trailing separator hides a link from the check for links: the mode of the directory
    the link leads to is changed. *)
Theorem trailing_separator_reaches_link_target :
  let plan := {| rp_to := Some "out"; rp_root_paths := [];
                 rp_files := [record "r" "way/" 0 Directory]; rp_deletes := [] |} in
  let (r, s) := apply plan false true calm in
  r = Done tt ∧ (mt_mode ∘ en_meta <$> tree !! ["etc"]) = Some 493%Z ∧
  (mt_mode ∘ en_meta <$> lf_tree s !! ["etc"]) = Some 420%Z.
Proof. vm_compute. auto. Qed.

(** A link that is there already, with the right target, is no conflict, but stops a restore
    that is not forced. *)
Theorem unchanged_link_stops_restore :
  let plan := {| rp_to := Some "out"; rp_root_paths := [];
                 rp_files := [record "r" "way" 0 (Symlink "/etc")]; rp_deletes := [] |} in
  restore_conflicts ["w"] plan calm = (Done [], calm) ∧
  (apply plan false true calm).1 = Fails "symlink restore target exists".
Proof. vm_compute. auto. Qed.
End RestoreExample.
