(* ===== verification/SnapshotRules.v ===== *)
(** * Which files of a root are in a snapshot

    [src/snapshot_rules.rs]: the patterns of a root (include, exclude, explicitly
    tracked and untracked paths, volatile paths), the decision whether a path is managed
    and whether a directory is entered, the presets, the settings of large files.  The
    matchers of the crates [globset] and [ignore] are parameters. *)

From S2P Require Import Prelude RStr Util Large Config.

Local Open Scope Z_scope.

(** [is_match] of the glob [GlobBuilder] builds with [literal_separator] and
    [backslash_escape]; [None] when the pattern is not a glob. *)
Class GlobSet := { glob_is_match : string → string → option bool }.

(** [GitignoreBuilder] for a directory and the lines added to it, and
    [matched_path_or_any_parents(path, is_dir).is_ignore()]. *)
Class IgnoreCrate := {
  Gitignore : Type;
  gitignore_build : string → list string → result Gitignore string;
  gitignore_is_ignore : Gitignore → string → bool → bool;
}.

(** ** Pattern lists *)

Definition is_slash (c : ascii) : bool := Ascii.eqb slash c.

Definition push_unique (out : list string) (value : string) : list string :=
  if negb (is_empty value) && negb (existsb (String.eqb value) out) then out ++ [value] else out.

Definition dedup_patterns (patterns : list string) : list string := fold_left push_unique patterns [].

Definition expanded_directory_exclude_patterns (pattern : string) : list string :=
  let pattern := trim pattern in
  match strip_suffix "/**" pattern with
  | None => []
  | Some dir_pattern =>
    let base := trim_end_matches is_slash dir_pattern in
    if is_empty base then [] else
    let out := push_unique [] (base +:+ "/") in
    let unanchored := trim_start_matches is_slash base in
    let out := if negb (is_empty unanchored) then push_unique out (unanchored +:+ "/") else out in
    match strip_prefix "**/" unanchored with
    | Some inner =>
      if negb (is_empty inner)
      then push_unique (push_unique out (inner +:+ "/")) ("/" +:+ inner +:+ "/")
      else out
    | None =>
      if negb (is_empty unanchored) then push_unique out ("**/" +:+ unanchored +:+ "/") else out
    end
  end.

(** The lines [build_ignore] adds, in order. *)
Definition ignore_lines (exclude : list string) : list string :=
  flat_map (λ pattern, pattern :: expanded_directory_exclude_patterns pattern) exclude.

Definition default_root_excludes : list string :=
  [
    ".git"; "/.git"; "**/.git"; ".git/**"; "/.git/**"; "**/.git/**"; ".hg/**"; "/.hg/**";
    "**/.hg/**"; ".svn/**"; "/.svn/**"; "**/.svn/**"; ".jj/**"; "/.jj/**"; "**/.jj/**";
    ".majutsu/**"; "/.majutsu/**"; "**/.majutsu/**"; "node_modules/**"; "/node_modules/**";
    "**/node_modules/**"; "target/**"; "/target/**"; "**/target/**"; "build/**"; "/build/**";
    "**/build/**"; "build-*/**"; "/build-*/**"; "**/build-*/**"; "dist/**"; "/dist/**";
    "**/dist/**"; "out/**"; "/out/**"; "**/out/**"; "tmp/**"; "/tmp/**"; "**/tmp/**"; "*.tmp";
    "**/*.tmp"; "tmp_*"; "**/tmp_*"; "temp/**"; "/temp/**"; "**/temp/**"; "log/**"; "/log/**";
    "**/log/**"; "logs/**"; "/logs/**"; "**/logs/**"; "*.log"; "**/*.log"; "artifacts/**";
    "/artifacts/**"; "**/artifacts/**"; "shell_snapshots/**"; "/shell_snapshots/**";
    "**/shell_snapshots/**"; "*.sqlite-wal"; "**/*.sqlite-wal"; "*.sqlite-shm";
    "**/*.sqlite-shm"; "*.db-wal"; "**/*.db-wal"; "*.db-shm"; "**/*.db-shm";
    "*.sqlite-journal"; "**/*.sqlite-journal"; ".cache/**"; "/.cache/**"; "**/.cache/**";
    "cache/**"; "/cache/**"; "**/cache/**"; "Cache/**"; "/Cache/**"; "**/Cache/**";
    "Caches/**"; "/Caches/**"; "**/Caches/**"; "gke_gcloud_auth_plugin_cache*";
    "/gke_gcloud_auth_plugin_cache*"; "**/gke_gcloud_auth_plugin_cache*";
    "AppData/Local/Temp/**"; "/AppData/Local/Temp/**"; "**/AppData/Local/Temp/**";
    "AppData/Local/Microsoft/Windows/INetCache/**";
    "/AppData/Local/Microsoft/Windows/INetCache/**";
    "**/AppData/Local/Microsoft/Windows/INetCache/**"; "AppData/Local/Packages/**";
    "/AppData/Local/Packages/**"; "**/AppData/Local/Packages/**";
    "AppData/Local/Packages/**/INetCache/**"; "/AppData/Local/Packages/**/INetCache/**";
    "**/AppData/Local/Packages/**/INetCache/**"; "AppData/Local/Packages/*/AC/INetCache/**";
    "/AppData/Local/Packages/*/AC/INetCache/**"; "**/AppData/Local/Packages/*/AC/INetCache/**";
    ".vagrant.d/data/checkpoint_cache/**"; "/.vagrant.d/data/checkpoint_cache/**";
    "**/.vagrant.d/data/checkpoint_cache/**"; ".vagrant.d/data/*.lock";
    "/.vagrant.d/data/*.lock"; "**/.vagrant.d/data/*.lock"; ".vagrant.d/insecure_private_key";
    "/.vagrant.d/insecure_private_key"; "**/.vagrant.d/insecure_private_key";
    ".vagrant.d/insecure_private_keys/**"; "/.vagrant.d/insecure_private_keys/**";
    "**/.vagrant.d/insecure_private_keys/**"; ".next/**"; "/.next/**"; "**/.next/**";
    ".nuxt/**"; "/.nuxt/**"; "**/.nuxt/**"; ".svelte-kit/**"; "/.svelte-kit/**";
    "**/.svelte-kit/**"; ".turbo/**"; "/.turbo/**"; "**/.turbo/**"; ".parcel-cache/**";
    "/.parcel-cache/**"; "**/.parcel-cache/**"; ".vite/**"; "/.vite/**"; "**/.vite/**";
    "coverage/**"; "/coverage/**"; "**/coverage/**"; "__pycache__/**"; "/__pycache__/**";
    "**/__pycache__/**"; "*.pyc"; "**/*.pyc"; "*.pyo"; "**/*.pyo"; ".pytest_cache/**";
    "/.pytest_cache/**"; "**/.pytest_cache/**"; ".mypy_cache/**"; "/.mypy_cache/**";
    "**/.mypy_cache/**"; ".ruff_cache/**"; "/.ruff_cache/**"; "**/.ruff_cache/**"; ".tox/**";
    "/.tox/**"; "**/.tox/**"; ".venv/**"; "/.venv/**"; "**/.venv/**"; ".venv-*/**";
    "/.venv-*/**"; "**/.venv-*/**"; "venv/**"; "/venv/**"; "**/venv/**";
    ".config/coc/extensions/**"; "/.config/coc/extensions/**"; "**/.config/coc/extensions/**";
    ".config/yarn/global/node_modules/**"; "/.config/yarn/global/node_modules/**";
    "**/.config/yarn/global/node_modules/**"; ".config/yarn/global/.yarn*";
    "/.config/yarn/global/.yarn*"; "**/.config/yarn/global/.yarn*";
    ".config/gcloud/virtenv/**"; "/.config/gcloud/virtenv/**"; "**/.config/gcloud/virtenv/**";
    "DerivedData/**"; "/DerivedData/**"; "**/DerivedData/**"; ".build/**"; "/.build/**";
    "**/.build/**"; "SourcePackages/**"; "/SourcePackages/**"; "**/SourcePackages/**";
    "*.xcarchive/**"; "**/*.xcarchive/**"; "*.dSYM/**"; "**/*.dSYM/**"; "*.notarized.pkg";
    "**/*.notarized.pkg"; "*notarized*.zip"; "**/*notarized*.zip"; ".DS_Store"; "**/.DS_Store";
    "Thumbs.db"; "**/Thumbs.db" ].

Definition root_preset_excludes (preset : string) : result (list string) string :=
  if (preset =? "default")%string || (preset =? "best-practice")%string then Ok default_root_excludes
  else if (preset =? "git")%string || (preset =? "git-working-tree")%string then
    Ok [
          ".git"; "/.git"; "**/.git"; ".git/**"; "/.git/**"; "**/.git/**"; "node_modules/**";
          "/node_modules/**"; "**/node_modules/**"; "target/**"; "/target/**"; "**/target/**";
          "tmp/**"; "/tmp/**"; ".infracost/**"; "/.infracost/**"; ".backup-kubeconfig/**";
          "/.backup-kubeconfig/**"; ".kubeconfig*"; "/.kubeconfig*"; "etc/keys/**";
          "/etc/keys/**" ]
  else if (preset =? "rust")%string then Ok ["target/**"; "/target/**"; "**/target/**"]
  else if (preset =? "node")%string
  then Ok ["node_modules/**"; "/node_modules/**"; "**/node_modules/**"]
  else Err ("unknown root preset " +:+ preset +:+
            "; supported presets: default, git-working-tree, rust, node").

Definition apply_default_root_excludes (excludes : list string) : list string :=
  dedup_patterns (fold_left push_unique default_root_excludes excludes).

Fixpoint apply_presets (excludes presets : list string) : result (list string) string :=
  match presets with
  | [] => Ok excludes
  | preset :: presets' =>
    let? patterns := root_preset_excludes preset in
    apply_presets (fold_left push_unique patterns excludes) presets'
  end.

Definition apply_root_presets (excludes presets : list string) : result (list string) string :=
  let? excludes := apply_presets excludes presets in
  Ok (dedup_patterns excludes).

(** ** Matching one pattern *)

Section Rules.
Context `{!GlobSet, !IgnoreCrate}.

Definition glob_meta (c : ascii) : bool :=
  Ascii.eqb c "*" || Ascii.eqb c "?" || Ascii.eqb c "[" || Ascii.eqb c "{".

Definition pattern_has_glob_meta (pattern : string) : bool := str_existsb glob_meta pattern.

Definition glob_path_match (pattern rel : string) : bool := default false (glob_is_match pattern rel).

Definition path_pattern_match (pattern rel : string) : bool :=
  let pattern := trim_start_matches is_slash (trim pattern) in
  if is_empty pattern then false
  else if (pattern =? "**")%string || (pattern =? "*")%string then true
  else match strip_suffix "/**" pattern with
  | Some prefix =>
    if pattern_has_glob_meta prefix then glob_path_match pattern rel
    else (rel =? prefix)%string || starts_with rel (prefix +:+ "/")
  | None =>
  match strip_prefix "*." pattern with
  | Some ext => ends_with (to_ascii_lowercase rel) ("." +:+ to_ascii_lowercase ext)
  | None =>
    if pattern_has_glob_meta pattern && glob_path_match pattern rel then true
    else match strip_prefix "**/" pattern with
    | Some suffix =>
      match strip_suffix "/**" suffix with
      | Some middle =>
        (rel =? middle)%string || starts_with rel (middle +:+ "/") || contains rel ("/" +:+ middle +:+ "/")
      | None => (rel =? suffix)%string || ends_with rel ("/" +:+ suffix)
      end
    | None => (rel =? pattern)%string || starts_with rel (pattern +:+ "/")
    end
  end
  end.

(** The characters [split(['*', '?', '['])] cuts at: braces are not among them. *)
Definition prefix_meta (c : ascii) : bool :=
  Ascii.eqb c "*" || Ascii.eqb c "?" || Ascii.eqb c "[".

Definition literal_prefix (pattern : string) : string :=
  trim_end_matches is_slash (trim_start_matches is_slash (hd "" (split_by prefix_meta pattern))).

Definition related_to_dir (literal_prefix dir : string) : bool :=
  (literal_prefix =? dir)%string || starts_with literal_prefix (dir +:+ "/")
  || starts_with dir (literal_prefix +:+ "/").

Definition nonempty_parts (s : string) : list string :=
  List.filter (λ part, negb (is_empty part)) (split slash s).

(** The loop over the zipped parts. *)
Fixpoint parts_may_match (pattern_parts dir_parts : list string) : bool :=
  match pattern_parts, dir_parts with
  | pattern_part :: pattern_parts', dir_part :: dir_parts' =>
    if (pattern_part =? "**")%string then true
    else if negb (glob_path_match pattern_part dir_part) then false
    else parts_may_match pattern_parts' dir_parts'
  | _, _ => true
  end.

Definition glob_pattern_may_match_inside_dir (pattern dir : string) : bool :=
  let pattern_parts := nonempty_parts pattern in
  let dir_parts := nonempty_parts dir in
  if (length pattern_parts <=? length dir_parts)%nat then false
  else parts_may_match pattern_parts dir_parts.

Definition include_pattern_may_match_inside_dir (pattern dir : string) : bool :=
  let pattern := trim_start_matches is_slash (trim pattern) in
  if is_empty pattern then false
  else if (pattern =? "**")%string || (pattern =? "*")%string || starts_with pattern "**/" then true
  else if path_pattern_match pattern dir then true
  else if pattern_has_glob_meta pattern && glob_pattern_may_match_inside_dir pattern dir then true
  else if is_empty (literal_prefix pattern) then true
  else related_to_dir (literal_prefix pattern) dir.

Definition is_catch_all_include_pattern (pattern : string) : bool :=
  let p := trim_start_matches is_slash (trim pattern) in
  (p =? "**")%string || (p =? "*")%string.

Definition include_pattern_can_override_exclude (pattern : string) : bool :=
  let pattern := trim_start_matches is_slash (trim pattern) in
  if is_empty pattern || is_catch_all_include_pattern pattern then false
  else if negb (pattern_has_glob_meta pattern) then true
  else match split_once pattern "/" with
  | None => false
  | Some (first, _) => negb (pattern_has_glob_meta first)
  end.

Definition include_pattern_can_descend_excluded_dir (pattern dir : string) : bool :=
  let pattern := trim_start_matches is_slash (trim pattern) in
  if is_empty pattern || is_catch_all_include_pattern pattern then false
  else
    let first := default "" (head (nonempty_parts pattern)) in
    if is_empty first || (first =? "**")%string || pattern_has_glob_meta first then false
    else negb (is_empty (literal_prefix pattern)) && related_to_dir (literal_prefix pattern) dir.

(** ** Lists of patterns *)

Definition is_included (patterns : list string) (rel : string) : bool :=
  match patterns with
  | [] => true
  | _ => let rel := path_to_slash rel in existsb (λ pattern, path_pattern_match pattern rel) patterns
  end.

(** [patterns.is_empty() || patterns.iter().all(is_catch_all)] *)
Definition only_catch_all (patterns : list string) : bool :=
  match patterns with [] => true | _ => forallb is_catch_all_include_pattern patterns end.

Definition include_may_match_inside_dir (patterns : list string) (rel : string) : bool :=
  if only_catch_all patterns then false
  else
    let dir := trim_matches is_slash (path_to_slash rel) in
    if is_empty dir then true
    else existsb (λ pattern, include_pattern_may_match_inside_dir pattern dir) patterns.

Definition include_allows_descend (patterns : list string) (rel : string) : bool :=
  if only_catch_all patterns then true
  else is_included patterns rel || include_may_match_inside_dir patterns rel.

Definition include_override_matches_path (patterns : list string) (rel : string) : bool :=
  let rel := path_to_slash rel in
  existsb (λ pattern, include_pattern_can_override_exclude pattern && path_pattern_match pattern rel) patterns.

Definition explicit_non_catchall_include_matches_path (patterns : list string) (rel : string) : bool :=
  let rel := path_to_slash rel in
  existsb (λ pattern, negb (is_catch_all_include_pattern pattern) && path_pattern_match pattern rel) patterns.

Definition include_override_may_match_inside_dir (patterns : list string) (rel : string) : bool :=
  let dir := trim_matches is_slash (path_to_slash rel) in
  negb (is_empty dir) &&
  existsb (λ pattern, include_pattern_can_descend_excluded_dir pattern dir
                      && include_pattern_may_match_inside_dir pattern dir) patterns.

(** [strip_prefix(prefix).is_some_and(|suffix| suffix.starts_with('/'))] *)
Definition below (prefix s : string) : bool :=
  match strip_prefix prefix s with Some suffix => starts_with suffix "/" | None => false end.

Definition path_list_covers (patterns : list string) (rel : string) : bool :=
  match patterns with
  | [] => false
  | _ =>
    let rel := trim_matches is_slash (path_to_slash rel) in
    existsb (λ pattern,
      let pattern := trim_matches is_slash (trim pattern) in
      negb (is_empty pattern) &&
      ((pattern =? rel)%string || below pattern rel || path_pattern_match pattern rel)) patterns
  end.

Definition path_list_may_match_inside_dir (patterns : list string) (rel : string) : bool :=
  match patterns with
  | [] => false
  | _ =>
    let dir := trim_matches is_slash (path_to_slash rel) in
    existsb (λ pattern,
      let pattern := trim_matches is_slash (trim pattern) in
      negb (is_empty pattern) &&
      (below dir pattern || include_pattern_may_match_inside_dir pattern dir)) patterns
  end.

Definition exclude_covers_path (excludes : list string) (rel : string) : bool :=
  existsb (λ pattern,
    let pattern := trim pattern in
    (pattern =? rel)%string || (pattern =? "/" +:+ rel)%string || (pattern =? rel +:+ "/**")%string
    || (pattern =? "/" +:+ rel +:+ "/**")%string || (pattern =? "**/" +:+ rel +:+ "/**")%string
    || path_pattern_match pattern rel) excludes.

(** The warnings printed for a root: [exists_] tells which paths below it exist,
    [names] are the names in it that are text, none when it cannot be read. *)
Definition warn_sensitive_root_defaults (exists_ : string → bool) (names excludes : list string)
    : list string :=
  flat_map (λ sensitive,
    if exists_ sensitive && negb (exclude_covers_path excludes sensitive)
    then ["warning: root contains " +:+ sensitive +:+
          "; use encryption or add an explicit --exclude if this should not be backed up"]
    else []) [".git"; ".infracost"; ".backup-kubeconfig"; "etc/keys"]
  ++ (if negb (exclude_covers_path excludes ".kubeconfig")
         && existsb (λ name, starts_with name ".kubeconfig") names
      then ["warning: root contains .kubeconfig*; use encryption or add an explicit --exclude if this should not be backed up"]
      else []).

(** ** Decisions about a path *)

Definition build_ignore (root : RootConfig) : result Gitignore string :=
  gitignore_build (rc_path root) (ignore_lines (rc_exclude root)).

Definition is_ignored (ignore : Gitignore) (rel : string) (is_dir : bool) : bool :=
  gitignore_is_ignore ignore rel is_dir.

Definition explicitly_tracked (root : RootConfig) (rel : string) : bool :=
  path_list_covers (rc_explicit_track root) rel.

Definition explicitly_untracked (root : RootConfig) (rel : string) : bool :=
  path_list_covers (rc_explicit_untrack root) rel.

Definition explicit_track_may_match_inside_dir (root : RootConfig) (rel : string) : bool :=
  path_list_may_match_inside_dir (rc_explicit_track root) rel.

Definition is_volatile (root : RootConfig) (rel : string) : bool :=
  match rc_volatile root with
  | None => false
  | Some volatile =>
    let rel := path_to_slash rel in
    existsb (λ pattern, path_pattern_match pattern rel) (rv_patterns volatile)
  end.

Definition is_volatile_excluded (root : RootConfig) (rel : string) : bool :=
  match rc_volatile root with
  | Some volatile => (rv_mode volatile =? "exclude")%string
  | None => false
  end && is_volatile root rel.

Definition volatile_allows_watch_snapshot (root : RootConfig) (rel : string) : bool :=
  negb (is_volatile root rel).

(** The path whose components are given: [Path::parent] drops the last one. *)
Definition path_of_components (cs : list Component) : string :=
  match cs with
  | RootDir :: cs' => "/" +:+ join "/" (map component_str cs')
  | _ => join "/" (map component_str cs)
  end.

(** The loop over [path.parent()]; the components of the path are given last first. *)
Fixpoint has_ignored_parent_loop (ignore : Gitignore) (rev_path : list Component) : bool :=
  match rev_path with
  | [] | RootDir :: _ => false
  | _ :: parent =>
    match parent with
    | [] => false
    | _ =>
      if gitignore_is_ignore ignore (path_of_components (rev parent)) true then true
      else has_ignored_parent_loop ignore parent
    end
  end.

Definition has_ignored_parent (ignore : Gitignore) (rel : string) : bool :=
  has_ignored_parent_loop ignore (rev (path_components rel)).

Definition root_record_is_managed (root : RootConfig) (ignore : Gitignore) (rel : string) (is_dir : bool)
    : bool :=
  if explicitly_untracked root rel then false
  else if explicitly_tracked root rel then true
  else if negb (is_included (rc_include root) rel) then false
  else if is_volatile_excluded root rel then false
  else if is_ignored ignore rel is_dir then
    include_override_matches_path (rc_include root) rel
    || (negb (has_ignored_parent ignore rel)
        && explicit_non_catchall_include_matches_path (rc_include root) rel)
  else true.

Definition root_dir_allows_descend (root : RootConfig) (ignore : Gitignore) (rel : string) : bool :=
  if explicitly_untracked root rel then false
  else if explicit_track_may_match_inside_dir root rel then true
  else
    let volatile_excluded := is_volatile_excluded root rel in
    if is_ignored ignore rel true then
      negb volatile_excluded && include_override_may_match_inside_dir (rc_include root) rel
    else if include_allows_descend (rc_include root) rel && negb volatile_excluded then true
    else match rc_explicit_track root with [] => false | _ => true end.

End Rules.

(** ** Settings of a root *)

Definition validate_volatile_mode (mode : string) : result unit string :=
  if (mode =? "checkpoint")%string || (mode =? "exclude")%string then Ok tt
  else Err ("unsupported volatile mode " +:+ mode +:+ "; supported modes: checkpoint, exclude").

(** The arguments of [mj root add] and [mj root set] read here. *)
Record RootAddArgs := {
  ra_large_min_size : option Z;
  ra_large_binary_min_size : option Z;
  ra_large_chunked_min_size : option Z;
  ra_large_chunked_chunk_size : option Z;
  ra_large_chunk_size : option Z;
  ra_large_chunking : option string;
  ra_large_always : list string;
  ra_large_never : list string;
  ra_volatile : list string;
  ra_volatile_mode : string;
}.

Record RootSetArgs := {
  rs_large_min_size : option Z;
  rs_large_binary_min_size : option Z;
  rs_large_chunked_min_size : option Z;
  rs_large_chunked_chunk_size : option Z;
  rs_large_chunk_size : option Z;
  rs_large_chunking : option string;
  rs_large_always : list string;
  rs_large_never : list string;
  rs_clear_large_policy : bool;
  rs_clear_large_always : bool;
  rs_clear_large_never : bool;
  rs_volatile : list string;
  rs_volatile_mode : option string;
  rs_clear_volatile : bool;
}.

Definition rc_with_large (root : RootConfig) (large : option RootLargeConfig) : RootConfig := {|
  rc_id := rc_id root; rc_name := rc_name root; rc_path := rc_path root;
  rc_include := rc_include root; rc_exclude := rc_exclude root;
  rc_explicit_track := rc_explicit_track root; rc_explicit_untrack := rc_explicit_untrack root;
  rc_follow_symlinks := rc_follow_symlinks root; rc_require_mount := rc_require_mount root;
  rc_status := rc_status root; rc_degraded := rc_degraded root;
  rc_snapshot_mode := rc_snapshot_mode root; rc_pre_snapshot := rc_pre_snapshot root;
  rc_post_snapshot := rc_post_snapshot root; rc_snapshot_source := rc_snapshot_source root;
  rc_application_plugin := rc_application_plugin root; rc_large := large;
  rc_volatile := rc_volatile root |}.

Definition rc_with_volatile (root : RootConfig) (volatile : option RootVolatileConfig) : RootConfig := {|
  rc_id := rc_id root; rc_name := rc_name root; rc_path := rc_path root;
  rc_include := rc_include root; rc_exclude := rc_exclude root;
  rc_explicit_track := rc_explicit_track root; rc_explicit_untrack := rc_explicit_untrack root;
  rc_follow_symlinks := rc_follow_symlinks root; rc_require_mount := rc_require_mount root;
  rc_status := rc_status root; rc_degraded := rc_degraded root;
  rc_snapshot_mode := rc_snapshot_mode root; rc_pre_snapshot := rc_pre_snapshot root;
  rc_post_snapshot := rc_post_snapshot root; rc_snapshot_source := rc_snapshot_source root;
  rc_application_plugin := rc_application_plugin root; rc_large := rc_large root;
  rc_volatile := volatile |}.

Definition root_volatile_override (args : RootAddArgs) : result (option RootVolatileConfig) string :=
  let? _ := validate_volatile_mode (ra_volatile_mode args) in
  match ra_volatile args with
  | [] =>
    if negb (ra_volatile_mode args =? "checkpoint")%string
    then Err "--volatile-mode requires at least one --volatile pattern"
    else Ok None
  | _ => Ok (Some {| rv_patterns := ra_volatile args; rv_mode := ra_volatile_mode args |})
  end.

Definition no_volatile : RootVolatileConfig := {| rv_patterns := []; rv_mode := "checkpoint" |}.

Definition apply_root_volatile_set (root : RootConfig) (args : RootSetArgs) : result RootConfig string :=
  let volatile := if rs_clear_volatile args then None else rc_volatile root in
  let? volatile :=
    match rs_volatile_mode args with
    | None => Ok volatile
    | Some mode =>
      let? _ := validate_volatile_mode mode in
      Ok (Some {| rv_patterns := rv_patterns (default no_volatile volatile); rv_mode := mode |})
    end in
  let volatile :=
    match rs_volatile args with
    | [] => volatile
    | patterns =>
      let v := default no_volatile volatile in
      Some {| rv_patterns := dedup_patterns (rv_patterns v ++ patterns); rv_mode := rv_mode v |}
    end in
  let volatile :=
    match volatile with
    | Some v => match rv_patterns v with [] => None | _ => Some v end
    | None => None
    end in
  Ok (rc_with_volatile root volatile).

Definition root_large_override (args : RootAddArgs) : option RootLargeConfig :=
  if bool_decide (ra_large_min_size args = None) && bool_decide (ra_large_binary_min_size args = None)
     && bool_decide (ra_large_chunked_min_size args = None)
     && bool_decide (ra_large_chunked_chunk_size args = None)
     && bool_decide (ra_large_chunk_size args = None) && bool_decide (ra_large_chunking args = None)
     && bool_decide (ra_large_always args = []) && bool_decide (ra_large_never args = [])
  then None
  else Some {|
    rl_min_size := ra_large_min_size args;
    rl_binary_min_size := ra_large_binary_min_size args;
    rl_chunked_min_size := ra_large_chunked_min_size args;
    rl_chunked_chunk_size := ra_large_chunked_chunk_size args;
    rl_default_chunking := ra_large_chunking args;
    rl_chunk_size := ra_large_chunk_size args;
    rl_always := ra_large_always args;
    rl_never := ra_large_never args |}.

Definition no_root_large : RootLargeConfig := {|
  rl_min_size := None; rl_binary_min_size := None; rl_chunked_min_size := None;
  rl_chunked_chunk_size := None; rl_default_chunking := None; rl_chunk_size := None;
  rl_always := []; rl_never := [] |}.

(** [if let Some(value) = new { field = Some(value) }] *)
Definition set_if {A} (new old : option A) : option A :=
  match new with Some _ => new | None => old end.

Definition apply_root_large_set (root : RootConfig) (args : RootSetArgs) : result RootConfig string :=
  let? _ := match rs_large_chunking args with
            | Some chunking => validate_chunking chunking
            | None => Ok tt
            end in
  let large := if rs_clear_large_policy args then None else rc_large root in
  let wants_large :=
    bool_decide (is_Some (rs_large_min_size args)) || bool_decide (is_Some (rs_large_binary_min_size args))
    || bool_decide (is_Some (rs_large_chunked_min_size args))
    || bool_decide (is_Some (rs_large_chunked_chunk_size args))
    || bool_decide (is_Some (rs_large_chunk_size args)) || bool_decide (is_Some (rs_large_chunking args))
    || negb (bool_decide (rs_large_always args = [])) || negb (bool_decide (rs_large_never args = []))
    || rs_clear_large_always args || rs_clear_large_never args in
  if negb wants_large then Ok (rc_with_large root large)
  else
    let l := default no_root_large large in
    Ok (rc_with_large root (Some {|
      rl_min_size := set_if (rs_large_min_size args) (rl_min_size l);
      rl_binary_min_size := set_if (rs_large_binary_min_size args) (rl_binary_min_size l);
      rl_chunked_min_size := set_if (rs_large_chunked_min_size args) (rl_chunked_min_size l);
      rl_chunked_chunk_size := set_if (rs_large_chunked_chunk_size args) (rl_chunked_chunk_size l);
      rl_default_chunking := set_if (rs_large_chunking args) (rl_default_chunking l);
      rl_chunk_size := set_if (rs_large_chunk_size args) (rl_chunk_size l);
      rl_always := (if rs_clear_large_always args then [] else rl_always l) ++ rs_large_always args;
      rl_never := (if rs_clear_large_never args then [] else rl_never l) ++ rs_large_never args |})).

(** ** Large files *)

(** [config_large] is the section [large] of the configuration. *)
Definition effective_large_config (config_large : LargeConfig) (root : RootConfig) : LargeConfig :=
  match rc_large root with
  | None => config_large
  | Some r => {|
      lg_enabled := lg_enabled config_large;
      lg_min_size := default (lg_min_size config_large) (rl_min_size r);
      lg_binary_min_size := default (lg_binary_min_size config_large) (rl_binary_min_size r);
      lg_chunked_min_size := default (lg_chunked_min_size config_large) (rl_chunked_min_size r);
      lg_chunked_chunk_size := default (lg_chunked_chunk_size config_large) (rl_chunked_chunk_size r);
      lg_default_chunking := default (lg_default_chunking config_large) (rl_default_chunking r);
      lg_chunk_size := default (lg_chunk_size config_large) (rl_chunk_size r);
      lg_max_parallel_uploads := lg_max_parallel_uploads config_large;
      lg_multipart := lg_multipart config_large;
      lg_always := match rl_always r with [] => lg_always config_large | always => always end;
      lg_never := match rl_never r with [] => lg_never config_large | never => never end;
      lg_compression := lg_compression config_large |}
  end.

Definition glob_match (pattern name : string) : bool :=
  match strip_prefix "*." pattern with
  | Some ext => ends_with (to_ascii_lowercase name) ("." +:+ to_ascii_lowercase ext)
  | None => (pattern =? name)%string
  end.

Definition classify_large (config : LargeConfig) (rel : string) (size : Z) (binary : bool) : bool :=
  if negb (lg_enabled config) then false
  else
    let name := default "" (path_file_name rel) in
    if existsb (λ p, glob_match p name) (lg_never config) then false
    else if existsb (λ p, glob_match p name) (lg_always config) then true
    else (lg_min_size config <=? size) || binary && (lg_binary_min_size config <=? size).

(** [first_read] is what [read] put into the buffer of 8192 bytes. *)
Definition looks_binary (first_read : result (list Z) string) : result bool string :=
  let? buf := first_read in Ok (existsb (Z.eqb 0) buf).

Definition large_pointer_compression (config : LargeConfig) : string :=
  if lcc_enabled (lg_compression config)
  then "per-chunk:" +:+ lcc_algorithm (lg_compression config) else "none".

(** ** Properties of the settings *)

Lemma push_unique_elem out v x : x ∈ push_unique out v ↔ x ∈ out ∨ x = v ∧ v ≠ "".
Proof.
  unfold push_unique. destruct (is_empty v) eqn:He; simpl; [apply is_empty_true in He; naive_solver|].
  apply is_empty_false in He. destruct (existsb (String.eqb v) out) eqn:Hx; simpl.
  - apply existsb_elem_of in Hx as (y & Hy & <-%String.eqb_eq). naive_solver.
  - rewrite elem_of_app, list_elem_of_singleton. naive_solver.
Qed.

Lemma push_unique_NoDup out v : NoDup out → NoDup (push_unique out v).
Proof.
  intros Hd. unfold push_unique. destruct (negb (is_empty v)); simpl; [|done].
  destruct (existsb (String.eqb v) out) eqn:Hx; simpl; [done|]. apply NoDup_app. split_and!; [done| |apply NoDup_singleton].
  intros y Hy ->%list_elem_of_singleton. rewrite existsb_false in Hx. specialize (Hx v Hy). by rewrite String.eqb_refl in Hx.
Qed.

(** [dedup_patterns] keeps the patterns that are not empty, each once. *)
Lemma dedup_patterns_spec patterns :
  NoDup (dedup_patterns patterns) ∧ ∀ x, x ∈ dedup_patterns patterns ↔ x ∈ patterns ∧ x ≠ "".
Proof.
  unfold dedup_patterns.
  assert (Hgo : ∀ out, NoDup out → NoDup (fold_left push_unique patterns out) ∧
    ∀ x, x ∈ fold_left push_unique patterns out ↔ x ∈ out ∨ x ∈ patterns ∧ x ≠ "").
  { induction patterns as [|v patterns IH]; intros out Hd; simpl; [set_solver|].
    destruct (IH (push_unique out v) (push_unique_NoDup out v Hd)) as [Hn Hx]. split; [done|].
    intros x. rewrite Hx, push_unique_elem. set_solver. }
  destruct (Hgo [] (NoDup_nil_2)) as [Hn Hx]. split; [done|]. intros x. rewrite Hx. set_solver.
Qed.

(** A stored setting for volatile paths has patterns and a mode the scan knows. *)
Definition volatile_ok (v : option RootVolatileConfig) : Prop :=
  ∀ c, v = Some c → rv_patterns c ≠ [] ∧ validate_volatile_mode (rv_mode c) = Ok tt.

Lemma apply_root_volatile_set_ok root args root' :
  volatile_ok (rc_volatile root) → apply_root_volatile_set root args = Ok root' → volatile_ok (rc_volatile root').
Proof.
  intros Hok. unfold apply_root_volatile_set. intros (v & Hv & Hr)%result_bind_Ok. injection Hr as <-. simpl.
  assert (Hmode : ∀ c, v = Some c → validate_volatile_mode (rv_mode c) = Ok tt).
  { intros c ->. destruct (rs_volatile_mode args) as [mode|].
    - apply result_bind_Ok in Hv as ([] & Hm & Hc). by injection Hc as <-.
    - injection Hv as Hv. destruct (rs_clear_volatile args); [done|]. by apply Hok in Hv as [_ ?]. }
  assert (Hm' : validate_volatile_mode (rv_mode (default no_volatile v)) = Ok tt) by (destruct v; [by apply Hmode|done]).
  intros c. destruct (rs_volatile args) as [|p ps].
  - destruct v as [v|]; [|done]. destruct (rv_patterns v) eqn:Hp; [done|]. intros [= <-]. rewrite Hp. eauto.
  - simpl. destruct (dedup_patterns _) eqn:Hp; [done|]. intros [= <-]. simpl. by split.
Qed.
