(* ===== verification/SnapshotReach.v ===== *)
(** * The directories a scan enters lead to every managed file

    A scan prunes directories with [root_dir_allows_descend] and keeps files with
    [root_record_is_managed] ([src/snapshot_rules.rs]).  The two decisions are made from
    the same patterns by different means; here they are shown to agree: no directory
    above a managed path is pruned, for the roots [searchable_root] describes. *)

From S2P Require Import Prelude RStr Util Config SnapshotRules.

(** ** Texts *)

Lemma str_app_eq_app a s b t :
  a +:+ s = b +:+ t →
  (∃ u, b = a +:+ u ∧ s = u +:+ t) ∨ (∃ u, a = b +:+ u ∧ t = u +:+ s).
Proof.
  revert b. induction a as [|c a IH]; intros b; rewrite ?str_app_nil_l, ?str_app_cons.
  - intros ->. left. by exists b.
  - destruct b as [|c' b]; rewrite ?str_app_nil_l, ?str_app_cons.
    + intros <-. right. by exists (String c a).
    + intros [= <- [(u & -> & ->)|(u & -> & ->)]%IH]; [left|right]; by exists u.
Qed.

(** Two directories above the same path lie on one line. *)
Lemma prefixes_related a b p :
  starts_with p (a +:+ "/") = true → starts_with p (b +:+ "/") = true → related_to_dir a b = true.
Proof.
  intros [x ->]%starts_with_true [y Hp]%starts_with_true. unfold related_to_dir.
  rewrite <-!str_app_assoc in Hp. rewrite !orb_true_iff, String.eqb_eq, !starts_with_true.
  apply str_app_eq_app in Hp as [(u & -> & Hu)|(u & -> & Hu)]; destruct u as [|c u].
  1,3: left; left; by rewrite str_app_nil_r.
  - injection Hu as <- _. right. exists u. by rewrite <-str_app_assoc.
  - injection Hu as <- _. left; right. exists u. by rewrite <-str_app_assoc.
Qed.

Lemma below_true q s : below q s = true ↔ ∃ r, s = q +:+ "/" +:+ r.
Proof.
  unfold below. destruct (strip_prefix q s) as [suffix|] eqn:Hs.
  - apply strip_prefix_Some in Hs as ->. rewrite starts_with_true.
    split; intros [r Hr]; exists r; [by rewrite Hr|]. by apply str_app_inj_l in Hr.
  - split; [done|]. intros [r ->]. by rewrite strip_prefix_app in Hs.
Qed.

Lemma trim_end_matches_prefix f s : ∃ e, s = trim_end_matches f s +:+ e ∧ str_forallb f e = true.
Proof.
  unfold trim_end_matches. destruct (trim_start_matches_suffix f (String.rev s)) as (e & He & Hf).
  exists (String.rev e). rewrite str_forallb_rev. split; [|done].
  by rewrite <-rev_app_distr, <-He, rev_rev.
Qed.

Lemma trim_start_matches_id f s : (∀ c t, s = String c t → f c = false) → trim_start_matches f s = s.
Proof. destruct s as [|c t]; simpl; [done|]. intros Hh. by rewrite (Hh c t). Qed.

Lemma trim_start_matches_idem f s : trim_start_matches f (trim_start_matches f s) = trim_start_matches f s.
Proof. apply trim_start_matches_id. intros c t. apply trim_start_matches_head. Qed.

Lemma trim_matches_head f s c t : trim_matches f s = String c t → f c = false.
Proof.
  unfold trim_matches. intros Ht. destruct (trim_end_matches_prefix f (trim_start_matches f s)) as (e & He & _).
  rewrite Ht, str_app_cons in He. by apply trim_start_matches_head in He.
Qed.

(** ** Relative paths *)

(** The path of an entry below a root: plain names joined by slashes. *)
Definition rel_path (s : string) : bool :=
  forallb (λ part, negb (is_empty part || (part =? ".")%string || (part =? "..")%string)) (split slash s).

Lemma rel_path_parts s : rel_path s = true ↔ Forall plain_part (split slash s).
Proof.
  unfold rel_path. rewrite <-bad_parts_nil. generalize (split slash s) as l.
  induction l as [|x l IH]; simpl; [done|]. rewrite andb_true_iff, orb_false_iff, negb_true_iff. naive_solver.
Qed.

Lemma rel_path_app d r : rel_path (d +:+ "/" +:+ r) = true ↔ rel_path d = true ∧ rel_path r = true.
Proof. rewrite !rel_path_parts. setoid_rewrite (split_app_sep slash). by rewrite Forall_app. Qed.

Lemma rel_path_relative s : rel_path s = true → path_is_absolute s = false.
Proof.
  rewrite rel_path_parts. unfold path_is_absolute. intros Hs. apply not_true_iff_false.
  intros [r ->]%starts_with_true. simpl in Hs. by apply Forall_cons_1 in Hs as [? _].
Qed.

Lemma rel_path_components s : rel_path s = true → path_components s = map Normal (split slash s).
Proof. intros Hs. apply plain_components; [by apply rel_path_relative|by apply rel_path_parts]. Qed.

Lemma rel_path_slash s : rel_path s = true → path_to_slash s = s.
Proof.
  intros Hs. unfold path_to_slash. rewrite rel_path_components, map_map by done. simpl. rewrite map_id. apply join_split.
Qed.

Lemma rel_path_trim s : rel_path s = true → trim_matches is_slash s = s.
Proof.
  intros Hs. unfold trim_matches. rewrite trim_start_matches_id.
  - unfold trim_end_matches. rewrite trim_start_matches_id; [apply rev_rev|].
    intros c t Ht. apply (f_equal String.rev) in Ht. rewrite rev_rev, rev_cons in Ht. subst s.
    apply not_true_iff_false. intros <-%Ascii.eqb_eq.
    apply (rel_path_app (String.rev t) "") in Hs as [_ ?]. done.
  - intros c t ->. apply not_true_iff_false. intros <-%Ascii.eqb_eq.
    by apply (rel_path_app "" t) in Hs as [? _].
Qed.

Lemma rel_path_nonempty s : rel_path s = true → is_empty s = false.
Proof. by destruct s. Qed.

(** ** What a pattern demands of the paths it matches *)

(** A character a glob matches as it stands. *)
Definition literal_char (c : ascii) : bool := negb (glob_meta c) && negb (Ascii.eqb c "\").

(** The behaviour of [globset] relied on: text before the first special character is
    matched literally, and a pattern that ends in [/**] matches all that is below what
    it matches. *)
Class GlobLaws `{!GlobSet} : Prop := {
  glob_literal lit rest rel : str_forallb literal_char lit = true →
    glob_is_match (lit +:+ rest) rel = Some true → starts_with rel lit = true;
  glob_recursive pat d r :
    glob_is_match (pat +:+ "/**") d = Some true →
    glob_is_match (pat +:+ "/**") (d +:+ "/" +:+ r) = Some true;
}.

(** The behaviour of [ignore] relied on: when no line starts with [!], all that is below
    an ignored directory is ignored. *)
Class IgnoreLaws `{!IgnoreCrate} : Prop := {
  ignored_below dir lines g d r is_dir : gitignore_build dir lines = Ok g →
    forallb (λ line, negb (starts_with line "!")) lines = true →
    gitignore_is_ignore g d true = true → gitignore_is_ignore g (d +:+ "/" +:+ r) is_dir = true;
}.

(** The form in which a pattern is matched. *)
Definition bare (pattern : string) : string := trim_start_matches is_slash (trim pattern).

(** The text before the first special character. *)
Definition text_prefix (pattern : string) : string := hd "" (split_by prefix_meta pattern).

(** The text before the first special character ends at a directory, or is the whole
    pattern: [src], [src/**], [src/**/*.rs], [*.rs], but not [src*/**/*.rs]. *)
Definition searchable (pattern : string) : bool :=
  let t := bare pattern in
  let l := text_prefix t in
  str_forallb literal_char l && (is_empty l || ends_with l "/" || (l =? t)%string).

(** A pattern that matches with a directory all that is below it. *)
Definition covers_below (pattern : string) : bool :=
  let t := bare pattern in
  is_empty t || (t =? "**")%string || (t =? "*")%string || ends_with t "/**"
  || negb (pattern_has_glob_meta t).

Definition tracks_plainly (pattern : string) : bool :=
  let q := trim_matches is_slash (trim pattern) in (trim q =? q)%string && searchable q.

Definition searchable_root (root : RootConfig) : bool :=
  forallb searchable (rc_include root)
  && forallb tracks_plainly (rc_explicit_track root)
  && forallb (λ pattern, covers_below (trim_matches is_slash (trim pattern))) (rc_explicit_untrack root)
  && match rc_volatile root with
     | Some v => negb (rv_mode v =? "exclude")%string || forallb covers_below (rv_patterns v)
     | None => true
     end
  && forallb (λ line, negb (starts_with line "!")) (ignore_lines (rc_exclude root)).

Lemma prefix_meta_glob c : prefix_meta c = true → glob_meta c = true.
Proof. unfold prefix_meta, glob_meta. intros ->. done. Qed.

Lemma text_prefix_split t :
  ∃ rest, t = text_prefix t +:+ rest ∧
    (rest = "" ∨ ∃ c r, rest = String c r ∧ prefix_meta c = true).
Proof.
  unfold text_prefix. induction t as [|c t (rest & Ht & Hr)]; simpl; [by exists ""; eauto|].
  destruct (prefix_meta c) eqn:Hc; simpl; [exists (String c t); eauto 6|].
  destruct (split_by prefix_meta t) as [|w ws] eqn:Hs; [by apply split_by_not_nil in Hs|]. simpl in *.
  exists rest. by rewrite str_app_cons, <-Ht.
Qed.

Lemma text_prefix_meta l c r :
  str_forallb (negb ∘ prefix_meta) l = true → prefix_meta c = true → text_prefix (l +:+ String c r) = l.
Proof.
  unfold text_prefix. intros Hl Hc. induction l as [|c' l IH]; [simpl; by rewrite Hc|].
  rewrite str_app_cons. simpl in *. mj_bool. rewrite H. specialize (IH H0). by destruct (split_by prefix_meta _); simpl in *; subst.
Qed.

Lemma text_prefix_none t : pattern_has_glob_meta t = false → text_prefix t = t.
Proof.
  unfold pattern_has_glob_meta, text_prefix. induction t as [|c t IH]; simpl; [done|]. intros Ht. mj_bool.
  destruct (prefix_meta c) eqn:Hc; [by rewrite prefix_meta_glob in H|]. specialize (IH H0).
  by destruct (split_by prefix_meta t); simpl in *; subst.
Qed.

Lemma bare_head pattern c s : bare pattern = String c s → is_slash c = false.
Proof. apply trim_start_matches_head. Qed.

Lemma text_prefix_starts t : starts_with t (text_prefix t) = true.
Proof.
  destruct (text_prefix_split t) as (rest & Ht & _). apply starts_with_true. by exists rest.
Qed.

Lemma starts_with_trans a b c : starts_with a b = true → starts_with b c = true → starts_with a c = true.
Proof.
  intros [x ->]%starts_with_true [y ->]%starts_with_true. rewrite <-str_app_assoc. apply starts_with_app.
Qed.

(** The literal prefix is the text before the first special character without the
    slashes at its end. *)
Lemma literal_prefix_spec t :
  (∀ c s, t = String c s → is_slash c = false) →
  ∃ e, text_prefix t = literal_prefix t +:+ e ∧ str_forallb is_slash e = true.
Proof.
  intros Hhead. unfold literal_prefix. fold (text_prefix t).
  rewrite trim_start_matches_id; [apply trim_end_matches_prefix|].
  intros c s Hs. destruct (text_prefix_split t) as (rest & Ht & _). rewrite Hs, str_app_cons in Ht. by eapply Hhead.
Qed.

Lemma literal_prefix_empty t :
  (∀ c s, t = String c s → is_slash c = false) → literal_prefix t = "" → text_prefix t = "".
Proof.
  intros Hhead Hl. destruct (literal_prefix_spec t Hhead) as (e & He & Hf). rewrite Hl, str_app_nil_l in He.
  destruct e as [|c e]; [done|]. simpl in Hf. mj_bool.
  destruct (text_prefix_split t) as (rest & Ht & _). rewrite He, str_app_cons in Ht.
  apply Hhead in Ht. congruence.
Qed.

Lemma trim_end_not_end s x : trim_end_matches is_slash s ≠ x +:+ "/".
Proof.
  unfold trim_end_matches. intros Hs. apply (f_equal String.rev) in Hs. rewrite rev_rev, rev_app_distr in Hs.
  by apply trim_start_matches_head in Hs.
Qed.

Definition within (p dir : string) : Prop := p = dir ∨ starts_with p (dir +:+ "/") = true.

Lemma within_slashes dir e p : str_forallb is_slash e = true → within p (dir +:+ e) → within p dir.
Proof.
  destruct e as [|c e]; simpl; [by rewrite str_app_nil_r|]. intros [<-%Ascii.eqb_eq _]%andb_true_iff Hp. right.
  assert (Hd : starts_with (dir +:+ String slash e) (dir +:+ "/") = true).
  { apply starts_with_true. exists e. by rewrite <-str_app_assoc. }
  destruct Hp as [->|Hp]; [done|]. eapply starts_with_trans; [done|]. eapply starts_with_trans; [|done].
  apply starts_with_app.
Qed.

Lemma slash_within p dir : starts_with (p +:+ "/") (dir +:+ "/") = true → within p dir.
Proof.
  intros [x Hp]%starts_with_true. rewrite <-str_app_assoc in Hp. apply str_app_eq_app in Hp as [(u & -> & Hu)|(u & -> & Hu)].
  - left. destruct u as [|c u]; [by rewrite str_app_nil_r|]. rewrite str_app_cons in Hu. injection Hu as _ Hu.
    by destruct u.
  - destruct u as [|c u]; [left; by rewrite str_app_nil_r|]. rewrite str_app_cons in Hu. injection Hu as <- _.
    right. apply starts_with_true. exists u. by rewrite <-str_app_assoc.
Qed.

Lemma starts_with_literal t p :
  (∀ c s, t = String c s → is_slash c = false) → ends_with (text_prefix t) "/" = true →
  starts_with p (text_prefix t) = true → within p (literal_prefix t).
Proof.
  intros Hhead [l Hl]%ends_with_true Hp. destruct (literal_prefix_spec t Hhead) as (e & He & Hf).
  destruct e as [|c e].
  - rewrite str_app_nil_r in He. exfalso. rewrite He in Hl. by apply trim_end_not_end in Hl.
  - right. eapply starts_with_trans; [done|]. rewrite He. simpl in Hf. mj_bool. apply Ascii.eqb_eq in H as <-.
    apply starts_with_true. exists e. by rewrite <-str_app_assoc.
Qed.

Lemma within_literal t p :
  (∀ c s, t = String c s → is_slash c = false) →
  is_empty (text_prefix t) || ends_with (text_prefix t) "/" || (text_prefix t =? t)%string = true →
  text_prefix t ≠ "" → within p t → within p (literal_prefix t).
Proof.
  intros Hhead Hend Hne Hp. rewrite !orb_true_iff in Hend. destruct Hend as [[Hx|Hx]|Hx].
  - by apply is_empty_true in Hx.
  - apply starts_with_literal; [done..|]. destruct Hp as [->|Hp]; [apply text_prefix_starts|].
    eapply starts_with_trans; [done|]. eapply starts_with_trans; [apply starts_with_app|apply text_prefix_starts].
  - destruct (literal_prefix_spec t Hhead) as (e & He & Hf). apply String.eqb_eq in Hx. rewrite Hx in He.
    rewrite He in Hp. by apply within_slashes in Hp.
Qed.

Lemma glob_meta_app s t : pattern_has_glob_meta (s +:+ t) = pattern_has_glob_meta s || pattern_has_glob_meta t.
Proof. apply str_existsb_app. Qed.

Lemma no_glob_meta_literal s : pattern_has_glob_meta s = false → str_forallb (negb ∘ prefix_meta) s = true.
Proof.
  unfold pattern_has_glob_meta. rewrite str_existsb_forallb. intros Hs%negb_false_iff. revert Hs.
  apply str_forallb_impl. intros c Hc. unfold compose in *. mj_bool. apply negb_true_iff, not_true_iff_false.
  intros Hm%prefix_meta_glob. congruence.
Qed.

Lemma literal_no_meta s : str_forallb literal_char s = true → pattern_has_glob_meta s = false.
Proof.
  intros Hs. unfold pattern_has_glob_meta. rewrite str_existsb_forallb. apply negb_false_iff. revert Hs.
  apply str_forallb_impl. intros c Hc. by apply andb_true_iff in Hc as [? _].
Qed.

Section Reach.
Context `{!GlobSet, !IgnoreCrate, !GlobLaws, !IgnoreLaws}.

Lemma glob_path_match_literal lit rest rel :
  str_forallb literal_char lit = true → glob_path_match (lit +:+ rest) rel = true → starts_with rel lit = true.
Proof.
  unfold glob_path_match. intros Hl Hm. eapply (glob_literal lit rest); [done|].
  by destruct (glob_is_match _ _) as [[]|].
Qed.

(** A path a pattern matches is at or below the literal prefix of the pattern. *)
Lemma match_within pattern p :
  searchable pattern = true → path_pattern_match pattern p = true →
  text_prefix (bare pattern) ≠ "" → within p (literal_prefix (bare pattern)).
Proof.
  unfold searchable, path_pattern_match. fold (bare pattern). pose proof (bare_head pattern) as Hhead.
  set (t := bare pattern) in *. intros [Hlit Hend]%andb_true_iff Hm Hne.
  destruct (text_prefix_split t) as (rest & Ht & _).
  assert (Hglob : pattern_has_glob_meta t = true → glob_path_match t p = true → within p (literal_prefix t)).
  { intros Hmeta Hg. rewrite Ht in Hg. apply glob_path_match_literal in Hg; [|done].
    apply starts_with_literal; [done| |done]. rewrite !orb_true_iff in Hend. destruct Hend as [[Hx|Hx]|Hx]; [|done|].
    - by apply is_empty_true in Hx.
    - apply String.eqb_eq in Hx. rewrite <-Hx in Hmeta. by rewrite literal_no_meta in Hmeta. }
  destruct (is_empty t) eqn:Het; [done|].
  destruct ((t =? "**")%string || (t =? "*")%string) eqn:Hall.
  { rewrite orb_true_iff, !String.eqb_eq in Hall. by destruct Hall as [Heq|Heq]; rewrite Heq in Hne. }
  destruct (strip_suffix "/**" t) as [prefix|] eqn:Hsuf.
  { apply strip_suffix_Some in Hsuf. destruct (pattern_has_glob_meta prefix) eqn:Hpm.
    - apply Hglob; [|done]. by rewrite Hsuf, glob_meta_app, Hpm.
    - assert (Htp : text_prefix t = prefix +:+ "/").
      { rewrite Hsuf. change "/**" with ("/" +:+ "**"). rewrite str_app_assoc.
        apply text_prefix_meta; [|done]. rewrite str_forallb_app. by rewrite no_glob_meta_literal. }
      assert (Hw : within p prefix). { apply orb_true_iff in Hm as [->%String.eqb_eq|Hm]; [by left|by right]. }
      destruct Hw as [->|Hw]; [|apply starts_with_literal; rewrite ?Htp; [done|apply ends_with_true; by exists prefix|done]].
      apply slash_within. destruct (starts_with_literal t (prefix +:+ "/") Hhead) as [Hl|Hl].
      + rewrite Htp. apply ends_with_true. by exists prefix.
      + rewrite Htp, <-(str_app_nil_r (prefix +:+ "/")) at 1. apply starts_with_app.
      + exfalso. symmetry in Hl. by apply trim_end_not_end in Hl.
      + done. }
  destruct (strip_prefix "*." t) as [ext|] eqn:Hext.
  { apply strip_prefix_Some in Hext. by rewrite Hext in Hne. }
  destruct (pattern_has_glob_meta t && glob_path_match t p) eqn:Hg; [mj_bool; auto|].
  destruct (strip_prefix "**/" t) as [suffix|] eqn:Hpre.
  { apply strip_prefix_Some in Hpre. by rewrite Hpre in Hne. }
  apply within_literal; [done..|].
  apply orb_true_iff in Hm as [->%String.eqb_eq|Hm]; [by left|by right].
Qed.

(** *** Directories above a path that is matched *)

Lemma within_related d r lit : within (d +:+ "/" +:+ r) lit → related_to_dir lit d = true.
Proof.
  assert (Hd : starts_with (d +:+ "/" +:+ r) (d +:+ "/") = true) by (rewrite str_app_assoc; apply starts_with_app).
  intros [<-|Hp]; [|by eapply prefixes_related].
  unfold related_to_dir. rewrite Hd. by rewrite orb_true_r.
Qed.

Lemma within_may_match pattern d r :
  bare pattern ≠ "" →
  (text_prefix (bare pattern) ≠ "" → within (d +:+ "/" +:+ r) (literal_prefix (bare pattern))) →
  include_pattern_may_match_inside_dir pattern d = true.
Proof.
  unfold include_pattern_may_match_inside_dir. fold (bare pattern). pose proof (bare_head pattern) as Hhead.
  set (t := bare pattern) in *. intros Hne Hw. rewrite (proj2 (is_empty_false t) Hne).
  destruct (_ || _); [done|]. destruct (path_pattern_match t d); [done|]. destruct (_ && _); [done|].
  destruct (is_empty (literal_prefix t)) eqn:Hl; [done|]. eapply within_related, Hw. intros Htp.
  apply is_empty_false in Hl. apply Hl. destruct (literal_prefix_spec t Hhead) as (e & He & _). rewrite Htp in He.
  symmetry in He. by apply str_app_nil in He as [? _].
Qed.

Lemma match_bare pattern p : path_pattern_match pattern p = true → bare pattern ≠ "".
Proof. unfold path_pattern_match. fold (bare pattern). by intros Hm Hb; rewrite Hb in Hm. Qed.

Lemma match_may_match pattern d r :
  searchable pattern = true → path_pattern_match pattern (d +:+ "/" +:+ r) = true →
  include_pattern_may_match_inside_dir pattern d = true.
Proof. intros Hs Hm. eapply within_may_match; [by eapply match_bare|]. by apply match_within. Qed.

Lemma first_part t : (∀ c s, t = String c s → is_slash c = false) → t ≠ "" →
  ∃ first, head (nonempty_parts t) = Some first ∧ first ≠ "" ∧
    ((first = t ∧ split_once t "/" = None) ∨ ∃ rest, t = first +:+ "/" +:+ rest ∧ split_once t "/" = Some (first, rest)).
Proof.
  intros Hhead Hne. pose proof (join_split slash t) as Hj. unfold nonempty_parts.
  destruct (split slash t) as [|first ws] eqn:Hs; [by apply split_by_not_nil in Hs|].
  assert (Hns : contains_char first slash = false) by (apply (split_elem_no_sep slash t); rewrite Hs; set_solver).
  assert (Hf : first ≠ "").
  { intros ->. destruct ws as [|w ws]; simpl in Hj; [done|].
    specialize (Hhead slash (join "/" (w :: ws))). by rewrite <-Hj in Hhead; specialize (Hhead eq_refl). }
  exists first. simpl. rewrite (proj2 (is_empty_false first) Hf). split_and!; [done..|].
  destruct ws as [|w ws]; simpl in Hj; [left|right].
  - split; [done|]. destruct (split_once t "/") as [[a b]|] eqn:Hso; [|done].
    apply split_once_Some in Hso. rewrite Hj, Hso, contains_char_app in Hns. simpl in Hns.
    by rewrite orb_true_r in Hns.
  - exists (join "/" (w :: ws)). split; [done|]. rewrite <-Hj. by apply (split_once_app slash "").
Qed.

Lemma override_may_descend pattern d r :
  searchable pattern = true → include_pattern_can_override_exclude pattern = true →
  path_pattern_match pattern (d +:+ "/" +:+ r) = true →
  include_pattern_can_descend_excluded_dir pattern d = true.
Proof.
  intros Hs Ho Hm. pose proof (match_within _ _ Hs Hm) as Hw. pose proof (match_bare _ _ Hm) as Hne.
  unfold include_pattern_can_override_exclude, include_pattern_can_descend_excluded_dir in *. fold (bare pattern) in *.
  pose proof (bare_head pattern) as Hhead. set (t := bare pattern) in *.
  destruct (is_empty t || is_catch_all_include_pattern t) eqn:Hc; [done|].
  destruct (first_part t Hhead Hne) as (first & Hf & Hfne & Hsplit). rewrite Hf. simpl default.
  assert (Hmeta : pattern_has_glob_meta first = false).
  { destruct (pattern_has_glob_meta t) eqn:Ht; simpl in Ho.
    - destruct Hsplit as [(_ & Hso)|(rest & _ & Hso)]; rewrite Hso in Ho; [done|]. by apply negb_true_iff in Ho.
    - destruct Hsplit as [(-> & _)|(rest & Heq & _)]; [done|]. rewrite Heq, glob_meta_app in Ht. by mj_bool. }
  assert (Htp : text_prefix t ≠ "").
  { destruct first as [|c first]; [done|].
    assert (∃ s, t = String c s) as [s Hts] by (destruct Hsplit as [(<- & _)|(rest & -> & _)]; eauto).
    rewrite Hts. apply orb_false_iff in Hmeta as [Hg _]. unfold text_prefix. simpl.
    destruct (prefix_meta c) eqn:Hpm; [by rewrite (prefix_meta_glob _ Hpm) in Hg|].
    by destruct (split_by prefix_meta s). }
  rewrite (proj2 (is_empty_false first) Hfne), Hmeta.
  assert ((first =? "**")%string = false) as -> by (apply String.eqb_neq; by intros ->).
  apply andb_true_iff. split; [|by eapply within_related, Hw].
  apply negb_true_iff, is_empty_false. intros Hl. by apply Htp, literal_prefix_empty.
Qed.

(** *** Patterns that cover all that is below *)

Lemma starts_with_below d r q : starts_with d q = true → starts_with (d +:+ "/" +:+ r) q = true.
Proof. intros Hd. eapply starts_with_trans; [apply starts_with_app|done]. Qed.

Lemma within_below d r q : within d q → within (d +:+ "/" +:+ r) q.
Proof.
  intros [->|Hd]; right; [|by apply starts_with_below]. rewrite str_app_assoc. apply starts_with_app.
Qed.

Lemma within_bool p q : (p =? q)%string || starts_with p (q +:+ "/") = true ↔ within p q.
Proof. unfold within. by rewrite orb_true_iff, String.eqb_eq. Qed.

Lemma covers_below_match pattern d r :
  covers_below pattern = true → path_pattern_match pattern d = true →
  path_pattern_match pattern (d +:+ "/" +:+ r) = true.
Proof.
  unfold covers_below, path_pattern_match. fold (bare pattern). set (t := bare pattern).
  destruct (is_empty t); [done|]. destruct ((t =? "**")%string || (t =? "*")%string) eqn:Hall; [done|].
  intros Hc. destruct (strip_suffix "/**" t) as [prefix|] eqn:Hsuf.
  { destruct (pattern_has_glob_meta prefix).
    - apply strip_suffix_Some in Hsuf as ->. unfold glob_path_match. intros Hm.
      rewrite glob_recursive; [done|]. by destruct (glob_is_match _ _) as [[]|].
    - rewrite !within_bool. apply within_below. }
  assert (Hn : pattern_has_glob_meta t = false).
  { apply orb_false_iff in Hall as [Ha Hb]. rewrite Ha, Hb in Hc. cbn [orb] in Hc. apply orb_true_iff in Hc as [Hc|Hc]; [|by apply negb_true_iff in Hc].
    apply (ends_with_true t "/**") in Hc as [x ->]. by rewrite strip_suffix_app in Hsuf. }
  assert (Hnone : ∀ q, pattern_has_glob_meta q = true → strip_prefix q t = None).
  { intros q Hq. destruct (strip_prefix q t) as [x|] eqn:Hp; [|done].
    apply strip_prefix_Some in Hp. by rewrite Hp, glob_meta_app, Hq in Hn. }
  rewrite !(Hnone "*."), !(Hnone "**/") by done. rewrite Hn. simpl. rewrite !within_bool. apply within_below.
Qed.

Lemma covers_list_below patterns d r :
  forallb (λ pattern, covers_below (trim_matches is_slash (trim pattern))) patterns = true →
  rel_path (d +:+ "/" +:+ r) = true →
  path_list_covers patterns d = true → path_list_covers patterns (d +:+ "/" +:+ r) = true.
Proof.
  intros Hall Hrel. pose proof Hrel as [Hd _]%rel_path_app. unfold path_list_covers.
  destruct patterns as [|pattern0 patterns0]; [done|]. set (patterns := pattern0 :: patterns0) in *.
  rewrite (rel_path_slash _ Hrel), (rel_path_slash _ Hd), (rel_path_trim _ Hrel), (rel_path_trim _ Hd).
  rewrite !existsb_exists. intros (pattern & Hin & [Hne Hm]%andb_true_iff). exists pattern. split; [done|].
  rewrite forallb_forall in Hall. specialize (Hall _ Hin). cbv beta in Hall.
  set (q := trim_matches is_slash (trim pattern)) in *. rewrite Hne. simpl.
  rewrite !orb_true_iff, String.eqb_eq, !below_true in Hm |- *. destruct Hm as [[Hm|[x Hm]]|Hm].
  - left; right. exists r. by rewrite Hm.
  - left; right. exists (x +:+ "/" +:+ r). by rewrite Hm, <-!str_app_assoc.
  - right. by apply covers_below_match.
Qed.

Lemma volatile_below root d r :
  match rc_volatile root with
  | Some v => negb (rv_mode v =? "exclude")%string || forallb covers_below (rv_patterns v)
  | None => true
  end = true →
  rel_path (d +:+ "/" +:+ r) = true →
  is_volatile_excluded root d = true → is_volatile_excluded root (d +:+ "/" +:+ r) = true.
Proof.
  intros Hv Hrel. pose proof Hrel as [Hd _]%rel_path_app. unfold is_volatile_excluded, is_volatile.
  destruct (rc_volatile root) as [v|]; [|done]. destruct (rv_mode v =? "exclude")%string; [|done]. simpl in *.
  rewrite (rel_path_slash _ Hrel), (rel_path_slash _ Hd), !existsb_exists. intros (x & Hin & Hm).
  exists x. split; [done|]. apply covers_below_match; [|done]. rewrite forallb_forall in Hv. by apply Hv.
Qed.

(** *** Ignored parents *)

Lemma parent_loop_above g xs ys :
  Forall (λ c, c ≠ RootDir) xs → xs ≠ [] → ys ≠ [] →
  has_ignored_parent_loop g (xs ++ ys) = false →
  gitignore_is_ignore g (path_of_components (rev ys)) true = false.
Proof.
  intros Hxs Hx Hy. induction Hxs as [|x xs Hx0 Hxs IH]; [done|]. simpl.
  destruct x; [done|..]; (destruct (xs ++ ys) as [|z zs] eqn:Hz; [by destruct xs, ys|]);
    (destruct (gitignore_is_ignore g (path_of_components (rev (z :: zs))) true) eqn:Hi; [done|]);
    (destruct xs as [|x xs]; [simpl in Hz; by rewrite Hz, Hi|]; by apply IH).
Qed.

Lemma path_of_normal names : path_of_components (map Normal names) = join "/" names.
Proof.
  assert (Hm : map component_str (map Normal names) = names) by (rewrite map_map; apply map_id).
  unfold path_of_components. rewrite Hm. by destruct names.
Qed.

Lemma rev_parts_not_nil s : rev (map Normal (split slash s)) ≠ [].
Proof.
  intros Hr. apply (f_equal (@rev _)) in Hr. rewrite rev_involutive in Hr. apply map_eq_nil in Hr.
  by apply split_by_not_nil in Hr.
Qed.

Lemma ignored_parent_above g d r :
  rel_path (d +:+ "/" +:+ r) = true → has_ignored_parent g (d +:+ "/" +:+ r) = false →
  gitignore_is_ignore g d true = false.
Proof.
  intros Hrel. unfold has_ignored_parent. rewrite rel_path_components by done.
  setoid_rewrite (split_app_sep slash d r). rewrite map_app, List.rev_app_distr. intros Hl.
  apply parent_loop_above in Hl.
  - rewrite rev_involutive, path_of_normal in Hl. by rewrite join_split in Hl.
  - apply Forall_forall. intros c. rewrite list_elem_of_In, <-in_rev, in_map_iff. by intros (? & <- & _).
  - apply rev_parts_not_nil.
  - apply rev_parts_not_nil.
Qed.

(** *** The two decisions agree *)

Lemma tracked_may_match patterns d r :
  forallb tracks_plainly patterns = true → rel_path (d +:+ "/" +:+ r) = true →
  path_list_covers patterns (d +:+ "/" +:+ r) = true → path_list_may_match_inside_dir patterns d = true.
Proof.
  intros Hall Hrel. pose proof Hrel as [Hd _]%rel_path_app.
  unfold path_list_covers, path_list_may_match_inside_dir.
  destruct patterns as [|pattern0 patterns0]; [done|]. set (patterns := pattern0 :: patterns0) in *.
  rewrite (rel_path_slash _ Hrel), (rel_path_slash _ Hd), (rel_path_trim _ Hrel), (rel_path_trim _ Hd).
  rewrite !existsb_exists. intros (pattern & Hin & [Hne Hm]%andb_true_iff). exists pattern. split; [done|].
  rewrite forallb_forall in Hall. specialize (Hall _ Hin) as [Htrim Hs]%andb_true_iff.
  set (q := trim_matches is_slash (trim pattern)) in *. rewrite Hne. simpl. apply orb_true_iff.
  rewrite !orb_true_iff, String.eqb_eq, !below_true in Hm. destruct Hm as [[Hm|[x Hm]]|Hm].
  - left. apply below_true. by exists r.
  - right. assert (Hb : bare q = q).
    { unfold bare. apply String.eqb_eq in Htrim as ->. apply trim_start_matches_id. intros c t Hq.
      by apply trim_matches_head in Hq. }
    eapply (within_may_match q d r); [rewrite Hb; intros ->; done|]. intros Htp.
    apply within_literal; [apply bare_head| |done|].
    + by apply andb_true_iff in Hs as [_ ?].
    + rewrite Hb. right. apply starts_with_true. exists x. by rewrite Hm, <-str_app_assoc.
  - right. by eapply match_may_match.
Qed.

Lemma included_may_enter patterns d r :
  forallb searchable patterns = true → rel_path (d +:+ "/" +:+ r) = true →
  is_included patterns (d +:+ "/" +:+ r) = true → include_allows_descend patterns d = true.
Proof.
  intros Hall Hrel. pose proof Hrel as [Hd _]%rel_path_app. unfold is_included, include_allows_descend.
  destruct (only_catch_all patterns) eqn:Hc; [done|]. unfold include_may_match_inside_dir. rewrite Hc.
  destruct patterns as [|pattern0 patterns0]; [done|]. set (patterns := pattern0 :: patterns0) in *.
  rewrite (rel_path_slash _ Hrel), (rel_path_slash _ Hd), (rel_path_trim _ Hd), (rel_path_nonempty _ Hd).
  intros (pattern & Hin & Hm)%existsb_exists. apply orb_true_iff. right. apply existsb_exists.
  exists pattern. split; [done|]. eapply match_may_match; [|done]. rewrite forallb_forall in Hall. by apply Hall.
Qed.

Lemma override_may_enter patterns d r :
  forallb searchable patterns = true → rel_path (d +:+ "/" +:+ r) = true →
  include_override_matches_path patterns (d +:+ "/" +:+ r) = true →
  include_override_may_match_inside_dir patterns d = true.
Proof.
  intros Hall Hrel. pose proof Hrel as [Hd _]%rel_path_app.
  unfold include_override_matches_path, include_override_may_match_inside_dir.
  rewrite (rel_path_slash _ Hrel), (rel_path_slash _ Hd), (rel_path_trim _ Hd), (rel_path_nonempty _ Hd).
  intros (pattern & Hin & [Ho Hm]%andb_true_iff)%existsb_exists. apply existsb_exists. exists pattern.
  rewrite forallb_forall in Hall. split; [done|]. apply andb_true_iff.
  split; [by eapply override_may_descend; eauto|by eapply match_may_match; eauto].
Qed.

Lemma managed_parent_entered root g d r is_dir :
  searchable_root root = true → build_ignore root = Ok g → rel_path (d +:+ "/" +:+ r) = true →
  root_record_is_managed root g (d +:+ "/" +:+ r) is_dir = true → root_dir_allows_descend root g d = true.
Proof.
  unfold searchable_root, root_record_is_managed, root_dir_allows_descend.
  intros [[[[Hinc Htrack]%andb_true_iff Huntrack]%andb_true_iff Hvol]%andb_true_iff Hlines]%andb_true_iff Hg Hrel Hm.
  unfold explicitly_untracked, explicitly_tracked, explicit_track_may_match_inside_dir in *.
  destruct (path_list_covers (rc_explicit_untrack root) (d +:+ "/" +:+ r)) eqn:Hu; [done|].
  destruct (path_list_covers (rc_explicit_untrack root) d) eqn:Hud;
    [by rewrite (covers_list_below _ d r Huntrack Hrel Hud) in Hu|].
  destruct (path_list_covers (rc_explicit_track root) (d +:+ "/" +:+ r)) eqn:Ht.
  { by rewrite (tracked_may_match _ d r Htrack Hrel Ht). }
  destruct (path_list_may_match_inside_dir (rc_explicit_track root) d); [done|].
  destruct (is_included (rc_include root) (d +:+ "/" +:+ r)) eqn:Hi; [|done]. simpl in Hm.
  destruct (is_volatile_excluded root (d +:+ "/" +:+ r)) eqn:Hv; [done|].
  destruct (is_volatile_excluded root d) eqn:Hvd; [by rewrite (volatile_below root d r Hvol Hrel Hvd) in Hv|].
  rewrite (included_may_enter _ d r Hinc Hrel Hi). simpl. unfold is_ignored in *.
  destruct (gitignore_is_ignore g d true) eqn:Hid; [|done].
  rewrite (ignored_below _ _ g d r is_dir Hg Hlines Hid) in Hm.
  apply orb_true_iff in Hm as [Hm|[Hp _]%andb_true_iff]; [by apply (override_may_enter _ d r)|].
  apply negb_true_iff, ignored_parent_above in Hp; [|done]. congruence.
Qed.
End Reach.
