(* ===== verification/SnapshotScan.v ===== *)
(** * Scanning a root into records

    [scan_root] of [src/main.rs] with what it calls: the walk of a root, the limit on
    files tracked without being asked ([AutoTrackPolicy]), the record of each entry, the
    storing of its contents through [LargeStore]. *)

From S2P Require Import Prelude RStr BTree MachInt Core Util Large Config Pack Crypto LargeStore SnapshotRules SnapshotReach.

Local Open Scope Z_scope.

(** ** The walk *)

(** What iterating over a [WalkDir] yields: entries by their path relative to the walked
    directory (the directory itself is the empty path), and errors met below a path. *)
Inductive WalkItem :=
| WEntry (rel : string) (is_dir : bool)
| WError (rel : string) (error : string).

(** The crate [walkdir]: the items of the walk of a directory (with links followed or
    not, sorted by name) under [filter_entry]. *)
Class WalkCrate := {
  walk_items : string → bool → (string → bool → bool) → list WalkItem;
}.

(** The directories above a relative path, the walked directory excepted. *)
Definition parents (rel : string) : list string :=
  let parts := split slash rel in
  map (λ k, join "/" (take k parts)) (seq 1 (length parts - 1)).

Definition item_path (i : WalkItem) : string := match i with WEntry rel _ | WError rel _ => rel end.
Definition item_is_dir (i : WalkItem) : bool := match i with WEntry _ d => d | WError _ _ => true end.

(** [filter_entry] drops an entry its predicate refuses and all that is below it. *)
Definition item_kept (f : string → bool → bool) (i : WalkItem) : bool :=
  f (item_path i) (item_is_dir i) && forallb (λ d, f d true) (parents (item_path i)).

Class WalkLaws `{!WalkCrate} : Prop := {
  walk_filter base follow f : f "" true = true →
    walk_items base follow f = List.filter (item_kept f) (walk_items base follow (λ _ _, true));
  walk_paths base follow i : i ∈ walk_items base follow (λ _ _, true) →
    item_path i = "" ∨ rel_path (item_path i) = true;
}.

(** ** What a scan sees *)

Inductive MetaKind := MFile | MDir | MSymlink | MSpecial (special_kind : string).

Record Meta := {
  md_kind : MetaKind; md_len : Z; md_mode : Z; md_modified : option Z; md_uid : option Z; md_gid : option Z;
}.

Definition special_file_kind (m : Meta) : option string :=
  match md_kind m with MSpecial k => Some k | _ => None end.
Definition is_symlink (m : Meta) : bool := match md_kind m with MSymlink => true | _ => false end.
Definition is_regular (m : Meta) : bool := match md_kind m with MFile => true | _ => false end.

(** One attempt to stream a file: the metadata when it was opened, the results of
    [read], and how it ended: the metadata afterwards, or the error of a call. *)
Record StreamAttempt := { sa_before : FileMeta; sa_reads : list (list Z); sa_end : result FileMeta string }.

(** The calls on the files of a root, by relative path; [observe] and [stream] are the
    successive attempts to read a file others may be writing to. *)
Record ScanFs := {
  sf_symlink_metadata : string → result Meta string;
  sf_metadata : string → result Meta string;
  sf_read_link : string → result string string;
  sf_read_xattrs : string → list (string * string);
  sf_first_read : string → result (list Z) string;
  sf_observe : string → nat → result ReadAttempt string;
  sf_stream : string → nat → result StreamAttempt string;
}.

(** The rows read of the database: the current snapshot, [remote_refs] (name, value),
    [blobs] (oid, object_key, pack_id). *)
Record ScanDb := {
  sd_current : option string;
  sd_remote_refs : list (string * string);
  sd_blobs : list (string * string * option string);
}.

(** [like] ignores the case of ASCII letters. *)
Definition current_is_remote_synced (db : ScanDb) : bool :=
  match sd_current db with
  | None => false
  | Some current =>
    existsb (λ '(name, value), ends_with (to_ascii_lowercase name) "/refs/current" && (value =? current)%string)
      (sd_remote_refs db)
  end.

Definition reusable_blob_object_keys (db : ScanDb) (remote_current_is_synced : bool) : gmap string string :=
  fold_left (λ keys '(oid, object_key, pack_id),
    if bool_decide (is_Some pack_id) || remote_current_is_synced then <[oid := object_key]> keys else keys)
    (sd_blobs db) ∅.

(** ** Files tracked without being asked *)

(** [MAJUTSU_MAX_AUTO_TRACK_NEW_FILES], when it is set. *)
Definition max_auto_track_new_files (var : option string) : Z :=
  match var with
  | Some value => default 100 (Z.of_N <$> parse_unsigned 18446744073709551615 value)
  | None => 100
  end.

Section Scan.
Context `{!GlobSet, !IgnoreCrate, !WalkCrate}.

(** The predicate of [filter_entry]. *)
Definition enters (root : RootConfig) (ignore : Gitignore) (rel : string) (is_dir : bool) : bool :=
  is_empty rel || negb is_dir || root_dir_allows_descend root ignore rel.

Definition unknown_candidate (root : RootConfig) (ignore : Gitignore) (known_paths : list string)
    (i : WalkItem) : bool :=
  match i with
  | WEntry rel is_dir =>
    negb (is_empty rel || is_dir) && root_record_is_managed root ignore rel false
    && negb (bset_contains known_paths (path_to_slash rel))
  | WError _ _ => false
  end.

Fixpoint count_unknown_loop (root : RootConfig) (ignore : Gitignore) (known_paths : list string)
    (stop_after count : Z) (items : list WalkItem) : result Z string :=
  match items with
  | [] => Ok count
  | WError _ e :: _ => Err e
  | WEntry rel is_dir :: items' =>
    if is_empty rel || is_dir then count_unknown_loop root ignore known_paths stop_after count items'
    else if negb (root_record_is_managed root ignore rel false)
    then count_unknown_loop root ignore known_paths stop_after count items'
    else if negb (bset_contains known_paths (path_to_slash rel)) then
      let count := count + 1 in
      if stop_after <=? count then Ok count
      else count_unknown_loop root ignore known_paths stop_after count items'
    else count_unknown_loop root ignore known_paths stop_after count items'
  end.

Definition count_unknown_file_candidates (root : RootConfig) (known_paths : list string) (stop_after : Z)
    : result Z string :=
  let? ignore := build_ignore root in
  count_unknown_loop root ignore known_paths stop_after 0
    (walk_items (rc_path root) (rc_follow_symlinks root) (enters root ignore)).

Record AutoTrackPolicy := {
  at_known_paths : list string;
  at_initial_root_scan : bool;
  at_unknown_add_count : Z;
  at_max_auto_add : Z;
}.

Definition for_root (var : option string) (root : RootConfig) (known_paths : list string)
    (initial_root_scan : bool) : result AutoTrackPolicy string :=
  let max_auto_add := max_auto_track_new_files var in
  let? unknown_add_count :=
    if initial_root_scan then Ok 0
    else count_unknown_file_candidates root known_paths (saturating_add max_auto_add 1) in
  Ok {| at_known_paths := known_paths; at_initial_root_scan := initial_root_scan;
        at_unknown_add_count := unknown_add_count; at_max_auto_add := max_auto_add |}.

Definition known (p : AutoTrackPolicy) (rel : string) : bool :=
  at_initial_root_scan p || bset_contains (at_known_paths p) rel.

Definition unknown_batch_too_large (p : AutoTrackPolicy) : bool :=
  negb (at_initial_root_scan p) && (at_max_auto_add p <? at_unknown_add_count p).

Definition may_descend (p : AutoTrackPolicy) (root : RootConfig) (rel : string) : bool :=
  if negb (unknown_batch_too_large p) then true
  else if explicitly_tracked root rel || explicit_track_may_match_inside_dir root rel then true
  else
    let prefix := trim_matches is_slash (path_to_slash rel) +:+ "/" in
    existsb (λ known, starts_with known prefix) (at_known_paths p).

(** ** Reading a file *)

Context `{!ObjectCodec, !Blake3, !ManifestJson, !Zstd}.
Context (env : StoreEnv) (fs : ScanFs).

Abbreviation store_m := (stm StoreWorld).

(** On Linux an attempt that fails is repeated as one that sees a change. *)
Fixpoint stable_read_in_root_loop (left attempt : nat) (last_error : option string) (rel : string)
    : result (list Z) string :=
  match left with
  | O => Err (default ("file did not become stable: " +:+ rel) last_error)
  | S left' =>
    match sf_observe fs rel attempt with
    | Ok a =>
      if stable_metadata_matches (ra_before a) (ra_after a) then Ok (ra_bytes a)
      else stable_read_in_root_loop left' (S attempt) (Some ("file changed while reading: " +:+ rel)) rel
    | Err e => stable_read_in_root_loop left' (S attempt) (Some e) rel
    end
  end.

Definition stable_read_in_root (rel mode : string) : result (list Z) string :=
  let? _ := validate_relative_components rel in
  stable_read_in_root_loop (stable_attempts mode) 0 None rel.

Definition is_file_changed_error (e : string) : bool := starts_with e "file changed while reading:".

Definition store_large_file_fixed_streaming_once (rel : string) (config : LargeConfig) (binary reuse : bool)
    (attempt : nat) : store_m (string * string * Z) :=
  let* a := stm_ok (sf_stream fs rel attempt) in
  match sa_end a with
  | Ok after =>
    store_large_file_fixed_streaming_from_file env rel config binary (sa_before a) after (sa_reads a) reuse
  | Err e => let* _ := stream_chunks env config rel reuse 0 0 (sa_reads a) in stm_fail e
  end.

Fixpoint streaming_attempts (left attempt : nat) (last_error : option string) (rel : string)
    (config : LargeConfig) (binary reuse : bool) : store_m (string * string * Z) :=
  match left with
  | O => stm_fail (default ("file changed while reading: " +:+ rel) last_error)
  | S left' => λ w,
    match store_large_file_fixed_streaming_once rel config binary reuse attempt w with
    | (Fails e, w') =>
      if is_file_changed_error e
      then streaming_attempts left' (S attempt) (Some e) rel config binary reuse w'
      else (Fails e, w')
    | other => other
    end
  end.

(** Both ways to reach the file, through its path and below an opened root, are the same
    but for the check of the relative path. *)
Definition store_large_file_fixed_streaming (rel : string) (config : LargeConfig) (binary reuse : bool)
    : store_m (string * string * Z) := streaming_attempts 8 0 None rel config binary reuse.

Definition store_large_file_fixed_streaming_in_root (rel : string) (config : LargeConfig) (binary reuse : bool)
    : store_m (string * string * Z) :=
  let* _ := stm_ok (validate_relative_components rel) in
  streaming_attempts 8 0 None rel config binary reuse.

Definition store_large_file_with_remote_reuse (rel : string) (config : LargeConfig) (binary reuse : bool)
    : store_m (string * string * Z) :=
  if (lg_default_chunking config =? "fixed")%string
  then store_large_file_fixed_streaming rel config binary reuse
  else
    let* bytes := stm_ok (stable_read "strict" (sf_observe fs rel)) in
    store_large_bytes_buffered env rel config binary bytes reuse.

Definition store_large_file_in_root_with_remote_reuse (rel : string) (config : LargeConfig) (binary reuse : bool)
    : store_m (string * string * Z) :=
  if (lg_default_chunking config =? "fixed")%string
  then store_large_file_fixed_streaming_in_root rel config binary reuse
  else
    let* bytes := stm_ok (stable_read_in_root rel "strict") in
    store_large_bytes_buffered env rel config binary bytes reuse.

(** ** Records *)

Record BlobInsert := { bi_oid : string; bi_size : Z; bi_object_key : string }.

Record ScannedRoot := {
  sr_records : list FileRecord;
  sr_blobs : list BlobInsert;
  sr_tracked_paths : list (string * string);
  sr_skipped_auto_track_large : Z;
  sr_skipped_auto_track_batch : Z;
}.

(** What the loop has gathered: records, blobs, the two counters. *)
Record ScanAcc := {
  sc_records : list FileRecord; sc_blobs : list BlobInsert; sc_large : Z; sc_batch : Z;
}.

Definition push_record (acc : ScanAcc) (r : FileRecord) : ScanAcc := {|
  sc_records := sc_records acc ++ [r]; sc_blobs := sc_blobs acc; sc_large := sc_large acc;
  sc_batch := sc_batch acc |}.
Definition push_blob (acc : ScanAcc) (b : BlobInsert) : ScanAcc := {|
  sc_records := sc_records acc; sc_blobs := sc_blobs acc ++ [b]; sc_large := sc_large acc;
  sc_batch := sc_batch acc |}.
Definition skip_large (acc : ScanAcc) : ScanAcc := {|
  sc_records := sc_records acc; sc_blobs := sc_blobs acc; sc_large := sc_large acc + 1;
  sc_batch := sc_batch acc |}.
Definition skip_batch (acc : ScanAcc) : ScanAcc := {|
  sc_records := sc_records acc; sc_blobs := sc_blobs acc; sc_large := sc_large acc;
  sc_batch := sc_batch acc + 1 |}.

Definition record_of_meta (root : RootConfig) (rel_s kind : string) (size : Z) (m : Meta)
    (xattrs : list (string * string)) (payload : Payload) : FileRecord := {|
  fr_root_id := rc_id root; fr_path := rel_s; fr_kind := kind; fr_size := size; fr_mode := md_mode m;
  fr_modified := md_modified m; fr_uid := md_uid m; fr_gid := md_gid m; fr_xattrs := xattrs;
  fr_payload := payload |}.

Definition lg_with_chunk_size (config : LargeConfig) (size : Z) : LargeConfig := {|
  lg_enabled := lg_enabled config; lg_min_size := lg_min_size config;
  lg_binary_min_size := lg_binary_min_size config; lg_chunked_min_size := lg_chunked_min_size config;
  lg_chunked_chunk_size := lg_chunked_chunk_size config; lg_default_chunking := lg_default_chunking config;
  lg_chunk_size := size; lg_max_parallel_uploads := lg_max_parallel_uploads config;
  lg_multipart := lg_multipart config; lg_always := lg_always config; lg_never := lg_never config;
  lg_compression := lg_compression config |}.

Definition store_large (root : RootConfig) (rel : string) (config : LargeConfig) (binary reuse : bool)
    : store_m (string * string * Z) :=
  if rc_follow_symlinks root then store_large_file_with_remote_reuse rel config binary reuse
  else store_large_file_in_root_with_remote_reuse rel config binary reuse.

(** The section of the configuration a scan reads: [large] and [security.encryption]. *)
Record ScanConfig := { cf_large : LargeConfig; cf_encryption : string }.

(** The payload of a regular file of [len] bytes, and the blob it adds. *)
Definition scan_payload (config : ScanConfig) (root : RootConfig) (durable : bool)
    (reusable : gmap string string) (rel : string) (len : Z) (binary : bool)
    : store_m (Payload * option BlobInsert) :=
  let large_config := effective_large_config (cf_large config) root in
  if classify_large large_config rel len binary then
    let* stored := store_large root rel large_config binary durable in
    let '(oid, manifest_key, chunk_count) := stored in
    stm_ret (LargeObject oid manifest_key chunk_count (media_type_for_path rel) binary
               (lg_default_chunking large_config) (large_pointer_compression large_config)
               (cf_encryption config) "hot-manifest-cold-chunks" "on-demand", None)
  else if lg_enabled large_config && (lg_chunked_min_size large_config <=? len) then
    let chunked_config := lg_with_chunk_size large_config (lg_chunked_chunk_size large_config) in
    let* stored := store_large root rel chunked_config binary durable in
    let '(oid, manifest_key, chunk_count) := stored in
    stm_ret (ChunkedBlob oid manifest_key chunk_count, None)
  else
    let* bytes := stm_ok (if rc_follow_symlinks root then stable_read (rc_snapshot_mode root) (sf_observe fs rel)
                          else stable_read_in_root rel (rc_snapshot_mode root)) in
    let oid := blake3_hex bytes in
    let* object_key := match reusable !! oid with
                       | Some object_key => stm_ret object_key
                       | None => store_bytes "objects/blobs" oid bytes
                       end in
    let size := Z.of_nat (length bytes) in
    stm_ret (if size <=? SMALL_BLOB_MAX_SIZE then InlineSmall oid object_key else NormalBlob oid object_key,
             Some {| bi_oid := oid; bi_size := size; bi_object_key := object_key |}).

(** The body of the loop for an entry that is managed. *)
Definition scan_entry (config : ScanConfig) (root : RootConfig) (policy : AutoTrackPolicy) (durable : bool)
    (reusable : gmap string string) (acc : ScanAcc) (rel : string) (is_dir : bool) : store_m ScanAcc :=
  let rel_s := path_to_slash rel in
  let known_path := known policy rel_s in
  let skip_unknown_batch := negb known_path && unknown_batch_too_large policy in
  if is_dir then
    let* meta := stm_ok (sf_symlink_metadata fs rel) in
    stm_ret (push_record acc (record_of_meta root rel_s "directory" 0 meta (sf_read_xattrs fs rel) Directory))
  else
    let* link_meta := stm_ok (sf_symlink_metadata fs rel) in
    if skip_unknown_batch then stm_ret (skip_batch acc)
    else if is_symlink link_meta && negb (rc_follow_symlinks root) then
      let* target := stm_ok (sf_read_link fs rel) in
      stm_ret (push_record acc (record_of_meta root rel_s "symlink" 0 link_meta [] (Symlink target)))
    else match special_file_kind link_meta with
    | Some special_kind =>
      stm_ret (push_record acc
        (record_of_meta root rel_s "special" 0 link_meta (sf_read_xattrs fs rel) (Special special_kind)))
    | None =>
      let* meta := if is_symlink link_meta then stm_ok (sf_metadata fs rel) else stm_ret link_meta in
      if negb (is_regular meta) then stm_ret acc else
      let large_config := effective_large_config (cf_large config) root in
      let binary := default false (result_ok (looks_binary (sf_first_read fs rel))) in
      let large := classify_large large_config rel (md_len meta) binary in
      if negb known_path && (large || lg_enabled large_config && (lg_chunked_min_size large_config <=? md_len meta))
      then stm_ret (skip_large acc)
      else
        let* stored := scan_payload config root durable reusable rel (md_len meta) binary in
        let '(payload, blob) := stored in
        let acc := match blob with Some b => push_blob acc b | None => acc end in
        stm_ret (push_record acc
          (record_of_meta root rel_s "file" (md_len meta) meta (sf_read_xattrs fs rel) payload))
    end.

Fixpoint scan_loop (config : ScanConfig) (root : RootConfig) (ignore : Gitignore) (policy : AutoTrackPolicy)
    (durable : bool) (reusable : gmap string string) (acc : ScanAcc) (items : list WalkItem) : store_m ScanAcc :=
  match items with
  | [] => stm_ret acc
  | WError _ e :: _ => stm_fail e
  | WEntry rel is_dir :: items' =>
    if is_empty rel || negb (root_record_is_managed root ignore rel is_dir)
    then scan_loop config root ignore policy durable reusable acc items'
    else
      let* acc := scan_entry config root policy durable reusable acc rel is_dir in
      scan_loop config root ignore policy durable reusable acc items'
  end.

Definition scan_enters (root : RootConfig) (ignore : Gitignore) (policy : AutoTrackPolicy) (rel : string)
    (is_dir : bool) : bool :=
  is_empty rel || negb is_dir || root_dir_allows_descend root ignore rel && may_descend policy root rel.

Definition scan_root (db : ScanDb) (config : ScanConfig) (root : RootConfig) (policy : AutoTrackPolicy)
    : store_m ScannedRoot :=
  let* ignore := stm_ok (build_ignore root) in
  let durable := current_is_remote_synced db in
  let reusable := reusable_blob_object_keys db durable in
  let* acc := scan_loop config root ignore policy durable reusable
    {| sc_records := []; sc_blobs := []; sc_large := 0; sc_batch := 0 |}
    (walk_items (rc_path root) (rc_follow_symlinks root) (scan_enters root ignore policy)) in
  stm_ret {|
    sr_records := sc_records acc;
    sr_blobs := sc_blobs acc;
    sr_tracked_paths :=
      map (λ r, (fr_root_id r, fr_path r)) (List.filter (λ r, negb (fr_kind r =? "directory")%string) (sc_records acc));
    sr_skipped_auto_track_large := sc_large acc;
    sr_skipped_auto_track_batch := sc_batch acc |}.

End Scan.

(** ** Around the scan *)

(** The paths the scan of a root knows: those tracked or in the parent snapshot, without
    those the user untracked. *)
Definition root_known_paths (tracked : list string) (parent_root_files : option (list string))
    (untracked : list string) : list string :=
  let known := match parent_root_files with Some files => bset_extend tracked files | None => tracked end in
  List.filter (λ path, negb (bset_contains untracked path)) known.

Definition directory_record_matches_except_modified (before after : FileRecord) : bool :=
  (fr_root_id before =? fr_root_id after)%string && (fr_path before =? fr_path after)%string
  && (fr_kind before =? "directory")%string && (fr_kind after =? "directory")%string
  && (fr_size before =? fr_size after) && (fr_mode before =? fr_mode after)
  && bool_decide (fr_uid before = fr_uid after) && bool_decide (fr_gid before = fr_gid after)
  && bool_decide (fr_xattrs before = fr_xattrs after) && bool_decide (fr_payload before = fr_payload after).

Definition fr_with_modified (r : FileRecord) (modified : option Z) : FileRecord := {|
  fr_root_id := fr_root_id r; fr_path := fr_path r; fr_kind := fr_kind r; fr_size := fr_size r;
  fr_mode := fr_mode r; fr_modified := modified; fr_uid := fr_uid r; fr_gid := fr_gid r;
  fr_xattrs := fr_xattrs r; fr_payload := fr_payload r |}.

(** A directory that is as it was keeps the time of the parent snapshot. *)
Definition stabilize_directory_modified_times (records : list FileRecord)
    (previous : option (gmap string FileRecord)) : list FileRecord :=
  match previous with
  | None => records
  | Some previous =>
    map (λ record,
      if negb (fr_kind record =? "directory")%string then record else
      match previous !! fr_path record with
      | Some before =>
        if directory_record_matches_except_modified before record
        then fr_with_modified record (fr_modified before) else record
      | None => record
      end) records
  end.

(** The records of files are left as the scan made them. *)
Lemma stabilize_keeps_files records previous :
  let is_file r := negb (fr_kind r =? "directory")%string in
  List.filter is_file (stabilize_directory_modified_times records previous) = List.filter is_file records.
Proof.
  intros is_file. destruct previous as [previous|]; [|done]. simpl.
  induction records as [|r records IH]; [done|]. simpl.
  destruct (is_file r) eqn:Hr; unfold is_file in Hr; rewrite Hr; simpl.
  - unfold is_file at 1. rewrite Hr. f_equal. exact IH.
  - match goal with |- (if ?b then _ else _) = _ => assert (b = false) as -> end; [|exact IH].
    unfold is_file. destruct (previous !! fr_path r) as [before|]; [|done]. by destruct (directory_record_matches_except_modified before r).
Qed.
