(* ===== verification/SnapshotComplete.v ===== *)
(** * A scan finds what it must

    Properties of [scan_root] and [count_unknown_file_candidates] ([src/main.rs]): pruning
    directories changes nothing of the result, and the records of a scan are those of the
    managed files. *)

From S2P Require Import Prelude RStr BTree MachInt Core Util Large Config Pack Crypto LargeStore SnapshotRules SnapshotReach SnapshotScan.

Local Open Scope Z_scope.

Lemma Forall_filter_bool {A} (P : A → Prop) (f : A → bool) l : Forall P l → Forall P (List.filter f l).
Proof. rewrite !Forall_forall. intros Hl x [Hx _]%elem_of_filter_bool. auto. Qed.

(** ** Directories above an entry *)

Lemma join_app_sep a b : a ≠ [] → b ≠ [] → join "/" (a ++ b) = join "/" a +:+ "/" +:+ join "/" b.
Proof.
  intros Ha Hb. induction a as [|x a IH]; [done|]. destruct a as [|y a].
  - destruct b; [done|]. done.
  - change (join "/" ((x :: y :: a) ++ b)) with (x +:+ "/" +:+ join "/" ((y :: a) ++ b)).
    rewrite IH by done. change (join "/" (x :: y :: a)) with (x +:+ "/" +:+ join "/" (y :: a)).
    by rewrite <-!str_app_assoc.
Qed.

Lemma parents_above d rel : d ∈ parents rel → ∃ r, rel = d +:+ "/" +:+ r.
Proof.
  unfold parents. intros (k & -> & Hk%elem_of_seq)%list_elem_of_fmap.
  exists (join "/" (drop k (split slash rel))).
  rewrite <-join_app_sep, take_drop; [symmetry; apply join_split| |].
  - intros Hn%(f_equal length). rewrite length_take in Hn. simpl in Hn. lia.
  - intros Hn%(f_equal length). rewrite length_drop in Hn. simpl in Hn. lia.
Qed.

Section Complete.
Context `{!GlobSet, !IgnoreCrate, !WalkCrate, !WalkLaws}.

Section Root.
Context `{!GlobLaws, !IgnoreLaws}.
Context (root : RootConfig) (g : Gitignore).
Hypothesis root_searchable : searchable_root root = true.
Hypothesis root_ignore : build_ignore root = Ok g.

Abbreviation all_items := (walk_items (rc_path root) (rc_follow_symlinks root) (λ _ _, true)).

Lemma managed_kept rel :
  WEntry rel false ∈ all_items → rel ≠ "" → root_record_is_managed root g rel false = true →
  item_kept (enters root g) (WEntry rel false) = true.
Proof.
  intros Hin Hne Hm. destruct (walk_paths _ _ _ Hin) as [?|Hrel]; [done|].
  unfold item_kept, enters. simpl. rewrite orb_true_r. simpl. apply forallb_elem_of.
  intros d (r & ->)%parents_above. simpl in Hrel. rewrite (managed_parent_entered root g d r false) by done.
  by rewrite orb_true_r.
Qed.

Lemma count_loop_spec known_paths stop_after count items :
  Forall (λ i, match i with WError _ _ => False | _ => True end) items → count < stop_after →
  count_unknown_loop root g known_paths stop_after count items =
  Ok (Z.min stop_after (count + Z.of_nat (length (List.filter (unknown_candidate root g known_paths) items)))).
Proof.
  intros Hok. revert count. induction Hok as [|i items Hi _ IH]; intros count Hc; simpl; [f_equal; lia|].
  destruct i as [rel is_dir|]; [|done]. simpl.
  destruct (is_empty rel || is_dir); simpl; [by apply IH|].
  destruct (root_record_is_managed root g rel false); simpl; [|by apply IH].
  destruct (bset_contains known_paths (path_to_slash rel)); simpl; [by apply IH|].
  destruct (Z.leb_spec stop_after (count + 1)); [f_equal; lia|]. rewrite IH by lia. f_equal. lia.
Qed.

(** C15. Pruning does not change what is counted, for a root whose rules can be decided per
    directory ([searchable_root]: include patterns whose text before the first wild card ends
    at a directory (not those of [include_glob_not_searched]), the same for tracked paths,
    untrack and volatile patterns that cover what is below what they match, no negated exclude
    line) and a walk without errors: whatever directories the walk skips, the number of new
    files [mj snapshot] finds before it decides whether to track them is the number of unknown
    managed files in the whole tree, up to the limit at which it stops. *)
Theorem count_unknown_exact known_paths stop_after :
  0 < stop_after →
  Forall (λ i, match i with WError _ _ => False | _ => True end) all_items →
  count_unknown_file_candidates root known_paths stop_after =
  Ok (Z.min stop_after
        (Z.of_nat (length (List.filter (unknown_candidate root g known_paths) all_items)))).
Proof.
  intros Hs Hok. unfold count_unknown_file_candidates. rewrite root_ignore. simpl.
  rewrite walk_filter by done. rewrite count_loop_spec; [|by apply Forall_filter_bool|done].
  rewrite filter_filter_sub; [done|].
  intros [rel is_dir|] Hin; simpl; [|done]. intros [[[Hne Hd]%negb_true_iff%orb_false_iff Hm]%andb_true_iff _]%andb_true_iff.
  subst is_dir. apply managed_kept; [done|by apply is_empty_false|done].
Qed.

End Root.

(** ** Records *)

Context `{!ObjectCodec, !Blake3, !ManifestJson, !Zstd}.
Context (env : StoreEnv) (fs : ScanFs).

(** The bytes were read whole from the file between two equal views of its metadata. *)
Definition was_read (rel : string) (bytes : list Z) : Prop :=
  (∃ i a, sf_observe fs rel i = Ok a ∧ ra_bytes a = bytes ∧
     stable_metadata_matches (ra_before a) (ra_after a) = true) ∨
  (∃ i a after, sf_stream fs rel i = Ok a ∧ sa_end a = Ok after ∧ concat (sa_reads a) = bytes ∧
     stable_metadata_matches (sa_before a) after = true).

Lemma stable_read_was_read rel mode bytes : stable_read mode (sf_observe fs rel) = Ok bytes → was_read rel bytes.
Proof. intros (i & a & _ & Ha & Hb & Hm)%stable_read_loop_Ok. left. by exists i, a. Qed.

Lemma stable_read_in_root_was_read rel mode bytes : stable_read_in_root fs rel mode = Ok bytes → was_read rel bytes.
Proof.
  intros (_ & _ & Hl)%result_bind_Ok. revert Hl. generalize (stable_attempts mode), 0%nat, (@None string).
  intros left. induction left as [|left IH]; intros attempt e; simpl; [done|].
  destruct (sf_observe fs rel attempt) as [a|] eqn:Ha; [|apply IH].
  destruct (stable_metadata_matches _ _) eqn:Hm; [|apply IH]. intros [= <-]. left. by exists attempt, a.
Qed.

Lemma buffered_oid rel config binary bytes reuse w oid key n w' :
  store_large_bytes_buffered env rel config binary bytes reuse w = (Done (oid, key, n), w') → oid = blake3_hex bytes.
Proof.
  unfold store_large_bytes_buffered. intros (ex & w1 & _ & Hr)%stm_bind_Done.
  destruct ex as [[k c]|]; [by injection Hr|]. repeat (apply stm_bind_Done in Hr as (? & ? & _ & Hr)). by injection Hr.
Qed.

Lemma streaming_oid rel config binary before after reads reuse w oid key n w' :
  store_large_file_fixed_streaming_from_file env rel config binary before after reads reuse w =
    (Done (oid, key, n), w') →
  oid = blake3_hex (concat reads) ∧ stable_metadata_matches before after = true.
Proof.
  unfold store_large_file_fixed_streaming_from_file. intros (cs & w1 & _ & Hr)%stm_bind_Done.
  destruct (stable_metadata_matches before after); [|done]. split; [|done]. simpl in Hr.
  apply stm_bind_Done in Hr as (ex & w2 & _ & Hr).
  destruct ex as [[k c]|]; [by injection Hr|]. repeat (apply stm_bind_Done in Hr as (? & ? & _ & Hr)). by injection Hr.
Qed.

Lemma attempts_oid left attempt e rel config binary reuse w oid key n w' :
  streaming_attempts env fs left attempt e rel config binary reuse w = (Done (oid, key, n), w') →
  ∃ bytes, was_read rel bytes ∧ oid = blake3_hex bytes.
Proof.
  revert attempt e w. induction left as [|left IH]; intros attempt e w; simpl; [done|].
  destruct (store_large_file_fixed_streaming_once env fs rel config binary reuse attempt w) as [[r|e'|] w1] eqn:Hs;
    [|destruct (is_file_changed_error e'); [apply IH|done]|done].
  intros [= -> ->]. apply stm_bind_Done in Hs as (a & w2 & [Ha _]%stm_ok_Done & Hs).
  destruct (sa_end a) as [after|] eqn:He; [|by apply stm_bind_Done in Hs as (? & ? & _ & ?)].
  apply streaming_oid in Hs as [-> Hm]. exists (concat (sa_reads a)). split; [|done]. right. by exists attempt, a, after.
Qed.

Lemma store_large_oid root rel config binary reuse w oid key n w' :
  store_large env fs root rel config binary reuse w = (Done (oid, key, n), w') →
  ∃ bytes, was_read rel bytes ∧ oid = blake3_hex bytes.
Proof.
  unfold store_large, store_large_file_with_remote_reuse, store_large_file_in_root_with_remote_reuse.
  destruct (rc_follow_symlinks root), (lg_default_chunking config =? "fixed")%string.
  - apply attempts_oid.
  - intros (b & w1 & [Hb _]%stm_ok_Done & ->%buffered_oid)%stm_bind_Done. exists b. split; [|done].
    by eapply stable_read_was_read.
  - intros (? & ? & _ & Hs)%stm_bind_Done. by apply attempts_oid in Hs.
  - intros (b & w1 & [Hb _]%stm_ok_Done & ->%buffered_oid)%stm_bind_Done. exists b. split; [|done].
    by eapply stable_read_in_root_was_read.
Qed.

(** The hash of the contents a payload names. *)
Definition content_oid (p : Payload) : option string :=
  match p with
  | InlineSmall oid _ | NormalBlob oid _ | ChunkedBlob oid _ _ | LargeObject oid _ _ _ _ _ _ _ _ _ => Some oid
  | _ => None
  end.

Lemma scan_payload_oid config root durable reusable rel len binary w p b w' :
  scan_payload env fs config root durable reusable rel len binary w = (Done (p, b), w') →
  ∃ bytes, was_read rel bytes ∧ content_oid p = Some (blake3_hex bytes).
Proof.
  unfold scan_payload. destruct (classify_large _ _ _ _); [|destruct (_ && _)].
  1,2: intros ([[oid key] n] & w1 & Hs & Hr)%stm_bind_Done; injection Hr as <- _ _;
    apply store_large_oid in Hs as (bytes & ? & ->); by exists bytes.
  intros (bytes & w1 & [Hb _]%stm_ok_Done & Hr)%stm_bind_Done. exists bytes. split.
  - destruct (rc_follow_symlinks root); [by eapply stable_read_was_read|by eapply stable_read_in_root_was_read].
  - apply stm_bind_Done in Hr as (key & w2 & _ & Hr). injection Hr as <- _ _. by destruct (_ <=? _).
Qed.

Section ScanRoot.
Context (config : ScanConfig) (root : RootConfig) (policy : AutoTrackPolicy).

(** The metadata that decides how an entry is recorded. *)
Definition followed (rel : string) : result Meta string :=
  let? l := sf_symlink_metadata fs rel in
  if is_symlink l && rc_follow_symlinks root then sf_metadata fs rel else Ok l.

(** A file, a link that is not followed, a link to a file, or a special file. *)
Definition recordable (rel : string) : bool :=
  match sf_symlink_metadata fs rel, followed rel with
  | Ok l, Ok m => is_regular m || bool_decide (is_Some (special_file_kind l)) || is_symlink l && negb (rc_follow_symlinks root)
  | _, _ => false
  end.

(** A file too large to be tracked without being asked. *)
Definition too_large_to_track (rel : string) : bool :=
  let large_config := effective_large_config (cf_large config) root in
  let binary := default false (result_ok (looks_binary (sf_first_read fs rel))) in
  match followed rel with
  | Ok m => is_regular m && (classify_large large_config rel (md_len m) binary
                             || lg_enabled large_config && (lg_chunked_min_size large_config <=? md_len m))
  | Err _ => false
  end.

(** A scan records the entry, when it is known or not, and when there are too many new
    files or not. *)
Definition wanted_by (known_path too_many : bool) (rel : string) : bool :=
  negb (negb known_path && too_many) && negb (negb known_path && too_large_to_track rel).

(** A scan has to record the entry: it is known, or neither the number of new files nor
    its size is beyond the limits. *)
Definition wanted (rel : string) : bool :=
  wanted_by (known policy rel) (unknown_batch_too_large policy) rel.

Lemma not_regular_not_large rel m :
  followed rel = Ok m → is_regular m = false → too_large_to_track rel = false.
Proof. unfold too_large_to_track. by intros -> ->. Qed.

Lemma special_followed rel l k :
  sf_symlink_metadata fs rel = Ok l → special_file_kind l = Some k → followed rel = Ok l ∧ is_regular l = false.
Proof.
  unfold followed, special_file_kind, is_symlink, is_regular. intros ->. simpl. by destruct (md_kind l).
Qed.

Lemma link_followed rel l :
  sf_symlink_metadata fs rel = Ok l → is_symlink l && negb (rc_follow_symlinks root) = true →
  followed rel = Ok l ∧ is_regular l = false.
Proof.
  unfold followed, is_symlink, is_regular. intros ->. simpl. by destruct (md_kind l), (rc_follow_symlinks root).
Qed.

(** The record is the one of the entry: its metadata, and as its payload the target of
    the link, the kind of the special file, or the hash of bytes read whole from the
    file. *)
Definition describes (rel : string) (r : FileRecord) : Prop :=
  ∃ l, sf_symlink_metadata fs rel = Ok l ∧
  ((is_symlink l && negb (rc_follow_symlinks root) = true ∧
    ∃ t, sf_read_link fs rel = Ok t ∧ r = record_of_meta root rel "symlink" 0 l [] (Symlink t)) ∨
   (∃ k, special_file_kind l = Some k ∧
      r = record_of_meta root rel "special" 0 l (sf_read_xattrs fs rel) (Special k)) ∨
   (∃ m p bytes, special_file_kind l = None ∧ followed rel = Ok m ∧ is_regular m = true ∧ was_read rel bytes ∧
      content_oid p = Some (blake3_hex bytes) ∧
      r = record_of_meta root rel "file" (md_len m) m (sf_read_xattrs fs rel) p)).

Context (durable : bool) (reusable : gmap string string).
Abbreviation entry := (scan_entry env fs config root policy durable reusable).

(** What an entry adds: the record of a directory, nothing, or a record that describes it. *)
Lemma scan_entry_pushes acc rel is_dir w acc' w' :
  rel_path rel = true → entry acc rel is_dir w = (Done acc', w') →
  (sc_records acc' = sc_records acc ∧ (is_dir = false → recordable rel && wanted rel = false)) ∨
  ∃ r, sc_records acc' = sc_records acc ++ [r] ∧ fr_path r = rel ∧
    if is_dir then fr_kind r = "directory" else describes rel r ∧ recordable rel && wanted rel = true.
Proof.
  intros Hrel. unfold scan_entry. rewrite (rel_path_slash _ Hrel). destruct is_dir.
  { intros (m & w1 & _ & Hr)%stm_bind_Done. injection Hr as <- _. right. by eexists. }
  intros (l & w1 & [Hl ->]%stm_ok_Done & Hr)%stm_bind_Done.
  assert (Hrec : recordable rel = match followed rel with
    | Ok m => is_regular m || bool_decide (is_Some (special_file_kind l)) || is_symlink l && negb (rc_follow_symlinks root)
    | Err _ => false end) by (unfold recordable; by rewrite Hl).
  assert (Hfol : followed rel = if is_symlink l && rc_follow_symlinks root then sf_metadata fs rel else Ok l)
    by (unfold followed; by rewrite Hl).
  destruct (negb (known policy rel) && unknown_batch_too_large policy) eqn:Hb.
  { injection Hr as <- _. left. split; [done|]. intros _. apply andb_true_iff in Hb as [Hk Hb].
    apply negb_true_iff in Hk. unfold wanted, wanted_by. rewrite Hk, Hb. apply andb_false_r. }
  destruct (is_symlink l && negb (rc_follow_symlinks root)) eqn:Hs.
  { apply stm_bind_Done in Hr as (t & w2 & [Ht _]%stm_ok_Done & Hr). injection Hr as <- _. right.
    destruct (link_followed rel l Hl Hs) as [Hf Hreg].
    eexists. split_and!; [done..|exists l; rewrite Hs; naive_solver|]. unfold wanted, wanted_by.
    rewrite Hrec, Hf, (not_regular_not_large rel l), Hb, andb_false_r by done. by rewrite !orb_true_r. }
  destruct (special_file_kind l) as [k|] eqn:Hk.
  { injection Hr as <- _. right. destruct (special_followed rel l k Hl Hk) as [Hf Hreg].
    eexists. split_and!; [done..|exists l; naive_solver|]. unfold wanted, wanted_by.
    rewrite Hrec, Hf, (not_regular_not_large rel l), Hb, andb_false_r by done.
    by rewrite bool_decide_eq_true_2, orb_true_r by done. }
  apply stm_bind_Done in Hr as (m & w2 & Hm & Hr).
  assert (Hf : followed rel = Ok m).
  { rewrite Hfol. destruct (is_symlink l), (rc_follow_symlinks root); simpl in *; try done;
      [by apply stm_ok_Done in Hm as [? _]|by injection Hm as <- _..]. }
  rewrite Hf in Hrec. destruct (is_regular m) eqn:Hreg; simpl in Hr.
  2:{ injection Hr as <- _. left. split; [done|]. by rewrite Hrec. }
  match type of Hr with (if ?c then _ else _) _ = _ => destruct c eqn:Hskip end.
  { injection Hr as <- _. left. split; [done|]. intros _. apply andb_true_iff in Hskip as [Hkn Hbig].
    unfold wanted, wanted_by, too_large_to_track. rewrite Hf, Hreg, Hkn, Hbig. simpl.
    by rewrite !andb_false_r. }
  apply stm_bind_Done in Hr as ([p b] & w3 & Hp & Hr). injection Hr as <- _.
  apply scan_payload_oid in Hp as (bytes & Hread & Hoid). right.
  assert (Hwant : recordable rel && wanted rel = true).
  { rewrite Hrec. simpl. unfold wanted, wanted_by, too_large_to_track. rewrite Hf, Hreg, Hb. cbn [andb negb]. by rewrite Hskip. }
  destruct b; (eexists; split_and!; [done..| |done]; exists l; split; [done|]; right; right; exists m, p, bytes; by split_and!).
Qed.

(** *** The loop *)

Context (g : Gitignore).
Abbreviation loop := (scan_loop env fs config root g policy durable reusable).

Lemma scan_loop_grows items acc w acc' w' :
  Forall (λ i, item_path i = "" ∨ rel_path (item_path i) = true) items →
  loop acc items w = (Done acc', w') → sc_records acc ⊆ sc_records acc'.
Proof.
  intros Hpaths. revert acc w. induction Hpaths as [|[rel is_dir|rel e] items Hrel _ IH]; intros acc w; simpl; [by intros [= <- _]| |done].
  destruct (is_empty rel || _) eqn:Hskip; [apply IH|]. apply orb_false_iff in Hskip as [Hne%is_empty_false _].
  destruct Hrel as [?|Hrel]; [done|].
  intros (acc1 & w1 & He & Hl)%stm_bind_Done. apply IH in Hl.
  apply scan_entry_pushes in He as [[He _]|(r & He & _)]; [| |done]; rewrite He in Hl; set_solver.
Qed.

Lemma scan_loop_sound items acc w acc' w' r :
  Forall (λ i, item_path i = "" ∨ rel_path (item_path i) = true) items →
  loop acc items w = (Done acc', w') → r ∈ sc_records acc' → r ∈ sc_records acc ∨
  ∃ rel is_dir, WEntry rel is_dir ∈ items ∧ rel ≠ "" ∧ root_record_is_managed root g rel is_dir = true ∧
    fr_path r = rel ∧
    if is_dir then fr_kind r = "directory" else describes rel r ∧ recordable rel && wanted rel = true.
Proof.
  intros Hpaths Hl Hr. revert acc w Hl.
  induction Hpaths as [|[rel is_dir|rel e] items Hrel _ IH]; intros acc w; simpl;
    [intros [= <- _]; by left| |done].
  destruct (is_empty rel || _) eqn:Hskip.
  { intros [?|(rel' & d' & ? & ?)]%IH; [by left|]. right. exists rel', d'. split; [set_solver|done]. }
  apply orb_false_iff in Hskip as [Hne Hm]. apply is_empty_false in Hne. apply negb_false_iff in Hm.
  destruct Hrel as [?|Hrel]; [done|].
  intros (acc1 & w1 & He & Hl)%stm_bind_Done. apply IH in Hl as [Hin|(rel' & d' & ? & ?)];
    [|right; exists rel', d'; split; [set_solver|done]].
  apply scan_entry_pushes in He as [[He _]|(r' & He & Hp)]; [| |done]; rewrite He in Hin; [by left|].
  apply elem_of_app in Hin as [?| ->%list_elem_of_singleton]; [by left|]. right. exists rel, is_dir.
  split; [set_solver|done].
Qed.

Lemma scan_loop_complete items acc w acc' w' rel :
  Forall (λ i, item_path i = "" ∨ rel_path (item_path i) = true) items →
  loop acc items w = (Done acc', w') → WEntry rel false ∈ items → rel_path rel = true →
  root_record_is_managed root g rel false = true → recordable rel = true → wanted rel = true →
  ∃ r, r ∈ sc_records acc' ∧ fr_path r = rel ∧ describes rel r.
Proof.
  intros Hpaths Hl Hin Hrel Hm Hrec Hw. revert acc w Hl.
  induction Hpaths as [|[rel' d'|rel' e] items Hrel' Hpaths IH]; intros acc w; simpl;
    [by apply not_elem_of_nil in Hin| |done].
  apply elem_of_cons in Hin as [[= <- <-]|Hin].
  - rewrite Hm, (rel_path_nonempty _ Hrel). cbn [orb negb]. intros (acc1 & w1 & He & Hl)%stm_bind_Done.
    apply scan_entry_pushes in He as [[_ He]|(r & He & Hd)]; [| |done].
    + specialize (He eq_refl). by rewrite Hrec, Hw in He.
    + exists r. split; [|naive_solver]. apply scan_loop_grows in Hl; [|done]. rewrite He in Hl. set_solver.
  - destruct (_ || _); [by apply IH|]. intros (acc1 & w1 & _ & Hl)%stm_bind_Done. by eapply IH.
Qed.

Lemma may_descend_above d r :
  rel_path (d +:+ "/" +:+ r) = true →
  known policy (d +:+ "/" +:+ r) = true ∨ unknown_batch_too_large policy = false →
  may_descend policy root d = true.
Proof.
  intros Hrel Hk. unfold may_descend. destruct (unknown_batch_too_large policy) eqn:Hb; [|done]. simpl.
  destruct Hk as [Hk|]; [|done]. unfold unknown_batch_too_large, known in *.
  destruct (at_initial_root_scan policy); [done|]. simpl in Hk. destruct (_ || _); [done|].
  apply rel_path_app in Hrel as [Hd _]. rewrite (rel_path_slash _ Hd), (rel_path_trim _ Hd).
  apply existsb_elem_of. exists (d +:+ "/" +:+ r). split; [by apply bset_contains_true|].
  rewrite str_app_assoc. apply starts_with_app.
Qed.

Lemma wanted_known rel : wanted rel = true → known policy rel = true ∨ unknown_batch_too_large policy = false.
Proof.
  unfold wanted, wanted_by. destruct (known policy rel); [by left|]. destruct (unknown_batch_too_large policy); [done|by right].
Qed.

Lemma wanted_kept `{!GlobLaws, !IgnoreLaws} rel :
  searchable_root root = true → build_ignore root = Ok g →
  rel_path rel = true → root_record_is_managed root g rel false = true → wanted rel = true →
  item_kept (scan_enters root g policy) (WEntry rel false) = true.
Proof.
  intros Hs Hg Hrel Hm Hw. unfold item_kept, scan_enters. simpl. rewrite orb_true_r. simpl.
  apply forallb_elem_of. intros d (r & ->)%parents_above.
  rewrite (managed_parent_entered root g d r false), (may_descend_above d r), orb_true_r by
    (done || by apply wanted_known in Hw).
  done.
Qed.
End ScanRoot.

(** What a scan that ends has looked at. *)
Lemma scan_root_run db config root policy w sr w' :
  scan_root env fs db config root policy w = (Done sr, w') →
  ∃ g acc durable reusable items w1,
    build_ignore root = Ok g ∧
    items = List.filter (item_kept (scan_enters root g policy))
              (walk_items (rc_path root) (rc_follow_symlinks root) (λ _ _, true)) ∧
    Forall (λ i, item_path i = "" ∨ rel_path (item_path i) = true) items ∧
    scan_loop env fs config root g policy durable reusable
      {| sc_records := []; sc_blobs := []; sc_large := 0; sc_batch := 0 |} items w = (Done acc, w1) ∧
    sr_records sr = sc_records acc.
Proof.
  intros (g & w1 & [Hg ->]%stm_ok_Done & Hrun)%stm_bind_Done.
  apply stm_bind_Done in Hrun as (acc & w2 & Hl & Hrun). injection Hrun as <- _. simpl.
  rewrite walk_filter in Hl by done. exists g, acc. do 4 eexists. split_and!; [done..| |done|done].
  apply Forall_forall. intros i [Hi _]%elem_of_filter_bool. by apply walk_paths in Hi.
Qed.

(** C13. A scan that succeeds records exactly what it should, for a root whose rules can be
    decided per directory ([searchable_root]: include patterns whose text before the first
    wild card ends at a directory (not those of [include_glob_not_searched]), the same for
    tracked paths, untrack and volatile patterns that cover what is below what they match, no
    negated exclude line). Every record is of an entry the rules of the root manage, and every
    managed file the scan wants (a known one, or a new one within the limits for new files)
    has a record that describes it, with its metadata and the hash of bytes that were read
    whole while the file did not change; no directory above such a file is skipped. *)
Theorem scan_records_managed `{!GlobLaws, !IgnoreLaws} db config root policy g w sr w' :
  searchable_root root = true → build_ignore root = Ok g →
  scan_root env fs db config root policy w = (Done sr, w') →
  let all_items := walk_items (rc_path root) (rc_follow_symlinks root) (λ _ _, true) in
  (∀ r, r ∈ sr_records sr → ∃ rel is_dir, WEntry rel is_dir ∈ all_items ∧
     root_record_is_managed root g rel is_dir = true ∧ fr_path r = rel ∧
     if is_dir then fr_kind r = "directory" else describes root rel r) ∧
  (∀ rel, WEntry rel false ∈ all_items → rel ≠ "" → root_record_is_managed root g rel false = true →
     recordable root rel = true → wanted config root policy rel = true →
     ∃ r, r ∈ sr_records sr ∧ describes root rel r).
Proof.
  intros Hs Hg Hrun all. apply scan_root_run in Hrun as (g' & acc & du & re & items & w1 & Hg' & Hit & Hp & Hl & ->).
  assert (g' = g) as -> by congruence. split.
  - intros r Hr. eapply scan_loop_sound in Hl as [Hn|(rel & d & Hin & _ & Hm & Hd)]; [| |done..];
      [by apply not_elem_of_nil in Hn|].
    rewrite Hit in Hin. apply elem_of_filter_bool in Hin as [Hin _]. exists rel, d. destruct d; naive_solver.
  - intros rel Hin Hne Hm Hrec Hw. destruct (walk_paths _ _ _ Hin) as [?|Hrel]; [done|].
    assert (Hkept : WEntry rel false ∈ items).
    { rewrite Hit. apply elem_of_filter_bool. split; [done|]. by apply (wanted_kept config). }
    eapply scan_loop_complete in Hl as (r & Hr & _ & Hd); [by exists r|done..].
Qed.
End Complete.
