(* ===== verification/SnapshotLive.v ===== *)
(** * Comparing a root with its last snapshot

    The live scan of [src/queue_runtime.rs] ([scan_live_root_for_journal] and
    [count_unknown_journal_file_candidates]), which finds the changes made while nothing
    watched a root.  It is written apart from [scan_root], with its own rules for what is
    read and what is skipped; [unchanged_tree_has_no_events] shows that the two agree. *)

From S2P Require Import Prelude RStr BTree MachInt Core Util Large Config Pack Crypto LargeStore EventJournal SnapshotRules SnapshotReach SnapshotScan SnapshotComplete.

Local Open Scope Z_scope.

(** ** The scan *)

(** [source_exists]: the directory of [snapshot_source] exists. *)
Definition journal_source_base (source_exists : bool) (root : RootConfig) : string :=
  match rc_snapshot_source root with
  | Some source =>
    if (rc_snapshot_mode root =? "transactional")%string && source_exists then source else rc_path root
  | None => rc_path root
  end.

Definition journal_known_paths (tracked : list string) (snapshot_files : gmap string FileRecord) : list string :=
  bset_extend tracked (map fst (map_to_list snapshot_files)).

Section Live.
Context `{!GlobSet, !IgnoreCrate, !WalkCrate, !Blake3}.
Context (fs : ScanFs).

Definition count_unknown_journal_file_candidates (scan_base : string) (root : RootConfig)
    (known_paths : list string) (stop_after : Z) : result Z string :=
  let? ignore := build_ignore root in
  count_unknown_loop root ignore known_paths stop_after 0
    (walk_items scan_base (rc_follow_symlinks root) (enters root ignore)).

(** The record of the snapshot is taken over when the metadata of the file is the same. *)
Definition reuses_record (rel : string) (meta : Meta) (r : FileRecord) : bool :=
  (fr_kind r =? "file")%string && (fr_size r =? md_len meta) && (fr_mode r =? md_mode meta)
  && bool_decide (fr_modified r = md_modified meta) && bool_decide (fr_uid r = md_uid meta)
  && bool_decide (fr_gid r = md_gid meta) && bool_decide (is_Some (journal_payload_oid (fr_payload r)))
  && bool_decide (fr_xattrs r = sf_read_xattrs fs rel).

Section Root.
Context (config : ScanConfig) (root : RootConfig) (snapshot_files : gmap string FileRecord)
        (known_paths : list string) (too_large : bool).

Definition scan_live_entry (records : gmap string FileRecord) (rel : string) (is_dir : bool)
    : result (gmap string FileRecord) string :=
  let rel_s := path_to_slash rel in
  let known_path := bset_contains known_paths rel_s in
  let? link_meta := sf_symlink_metadata fs rel in
  if is_dir then Ok records
  else if negb known_path && too_large then Ok records
  else if is_symlink link_meta && negb (rc_follow_symlinks root) then
    let? target := sf_read_link fs rel in
    Ok (<[rel_s := record_of_meta root rel_s "symlink" 0 link_meta [] (Symlink target)]> records)
  else match special_file_kind link_meta with
  | Some special_kind =>
    Ok (<[rel_s := record_of_meta root rel_s "special" 0 link_meta (sf_read_xattrs fs rel)
                     (Special special_kind)]> records)
  | None =>
    let? meta := if is_symlink link_meta then sf_metadata fs rel else Ok link_meta in
    if negb (is_regular meta) then Ok records else
    let large_config := effective_large_config (cf_large config) root in
    let binary := default false (result_ok (looks_binary (sf_first_read fs rel))) in
    if negb known_path && (classify_large large_config rel (md_len meta) binary
                           || lg_enabled large_config && (lg_chunked_min_size large_config <=? md_len meta))
    then Ok records
    else
      let read :=
        let? bytes := if rc_follow_symlinks root then stable_read (rc_snapshot_mode root) (sf_observe fs rel)
                      else stable_read_in_root fs rel (rc_snapshot_mode root) in
        Ok (<[rel_s := record_of_meta root rel_s "file" (md_len meta) meta (sf_read_xattrs fs rel)
                         (NormalBlob (blake3_hex bytes) "")]> records) in
      match snapshot_files !! rel_s with
      | Some snapshot_record =>
        if reuses_record rel meta snapshot_record then Ok (<[rel_s := snapshot_record]> records) else read
      | None => read
      end
  end.

Fixpoint scan_live_loop (ignore : Gitignore) (records : gmap string FileRecord) (items : list WalkItem)
    : result (gmap string FileRecord) string :=
  match items with
  | [] => Ok records
  | WError _ e :: _ => Err e
  | WEntry rel is_dir :: items' =>
    if is_empty rel || negb (root_record_is_managed root ignore rel is_dir)
    then scan_live_loop ignore records items'
    else
      let? records := scan_live_entry records rel is_dir in
      scan_live_loop ignore records items'
  end.

Definition scan_live_root_for_journal (scan_base : string) : result (gmap string FileRecord) string :=
  let? ignore := build_ignore root in
  scan_live_loop ignore ∅ (walk_items scan_base (rc_follow_symlinks root) (enters root ignore)).
End Root.

(** The changes [enqueue_live_diff_event_journals] finds, by path; it writes an event for
    each that the journal does not cover. *)
Definition live_diff_changes (snapshot_files live_files : gmap string FileRecord) : list (string * string) :=
  let paths_all := bset_extend [] (map fst (map_to_list snapshot_files) ++ map fst (map_to_list live_files)) in
  flat_map (λ rel_path,
    match live_diff_event_kind (snapshot_files !! rel_path) (live_files !! rel_path) with
    | Some event_kind => [(rel_path, event_kind)]
    | None => []
    end) paths_all.

(** The comparison of one root with the files of its snapshot in
    [enqueue_live_diff_event_journals], up to the changes it finds. *)
Definition live_diff_root (var : option string) (source_exists : bool) (config : ScanConfig) (root : RootConfig)
    (tracked : list string) (snapshot_files : gmap string FileRecord) : result (list (string * string)) string :=
  let base := journal_source_base source_exists root in
  let known_paths := journal_known_paths tracked snapshot_files in
  let max_auto_add := max_auto_track_new_files var in
  let? unknown_add_count := count_unknown_journal_file_candidates base root known_paths (wadd max_auto_add 1) in
  let? live_files := scan_live_root_for_journal config root snapshot_files known_paths
                       (max_auto_add <? unknown_add_count) base in
  Ok (live_diff_changes snapshot_files live_files).

End Live.

(** ** The two scans agree *)

Section Agree.
Context `{!GlobSet, !IgnoreCrate, !WalkCrate, !WalkLaws}.
Context `{!ObjectCodec, !Blake3, !ManifestJson, !Zstd}.
Context (env : StoreEnv) (fs : ScanFs).

(** The files of a snapshot by path: what loading the tree built from the records gives. *)
Definition snapshot_file_map (records : list FileRecord) : gmap string FileRecord :=
  fold_left (λ m r, <[fr_path r := r]> m)
    (List.filter (λ r, negb (fr_kind r =? "directory")%string) records) ∅.

(** Nothing changes: whenever a file is read whole it has the same contents. *)
Definition steady : Prop := ∀ rel b b', was_read fs rel b → was_read fs rel b' → b = b'.

Lemma file_map_lookup l (m : gmap string FileRecord) k r :
  fold_left (λ m r, <[fr_path r := r]> m) l m !! k = Some r → m !! k = Some r ∨ (r ∈ l ∧ fr_path r = k).
Proof.
  revert m. induction l as [|x l IH]; intros m; simpl; [by left|]. intros [Hm|?]%IH; [|set_solver].
  destruct (decide (fr_path x = k)) as [<-|Hne]; [|rewrite lookup_insert_ne in Hm by done; by left].
  rewrite lookup_insert_eq in Hm. injection Hm as ->. right. set_solver.
Qed.

Lemma file_map_is_Some l (m : gmap string FileRecord) k :
  is_Some (m !! k) ∨ (∃ r, r ∈ l ∧ fr_path r = k) → is_Some (fold_left (λ m r, <[fr_path r := r]> m) l m !! k).
Proof.
  revert m. induction l as [|x l IH]; intros m; simpl; [intros [?|(r & ?%not_elem_of_nil & _)]; done|].
  intros Hk. apply IH. rewrite lookup_insert_is_Some. destruct (decide (fr_path x = k)); [by left; left|].
  destruct Hk as [Hk|(r & [->|Hr]%elem_of_cons & Hp)]; [by left; right|done|right; eauto].
Qed.

Lemma snapshot_file_map_Some records k r :
  snapshot_file_map records !! k = Some r → r ∈ records ∧ fr_path r = k ∧ fr_kind r ≠ "directory".
Proof.
  intros [Hn|[[Hr Hd]%elem_of_filter_bool Hk]]%file_map_lookup; [by rewrite lookup_empty in Hn|].
  apply negb_true_iff, String.eqb_neq in Hd. done.
Qed.

Lemma snapshot_file_map_has records r :
  r ∈ records → fr_kind r ≠ "directory" → is_Some (snapshot_file_map records !! fr_path r).
Proof.
  intros Hr Hd. apply file_map_is_Some. right. exists r. rewrite elem_of_filter_bool. split_and!; [done| |done].
  by apply negb_true_iff, String.eqb_neq.
Qed.

Lemma describes_file root rel r : describes fs root rel r → fr_path r = rel ∧ fr_kind r ≠ "directory".
Proof.
  intros (l & _ & [(_ & t & _ & ->)|[(k & _ & ->)|(m & p & b & _ & _ & _ & _ & _ & ->)]]); done.
Qed.

(** Two records of one entry that does not change are the same for the journal. *)
Lemma describes_match root rel r r' :
  steady → describes fs root rel r → describes fs root rel r' → journal_records_match r r' = true.
Proof.
  intros Hst (l & Hl & Hr) (l' & Hl' & Hr'). rewrite Hl in Hl'. injection Hl' as <-.
  assert (Hno : ∀ k, is_symlink l && negb (rc_follow_symlinks root) = true → special_file_kind l = Some k → False).
  { unfold is_symlink, special_file_kind. by destruct (md_kind l). }
  assert (Hno' : ∀ m, is_symlink l && negb (rc_follow_symlinks root) = true → followed fs root rel = Ok m → is_regular m = true → False).
  { intros m Hs Hf Hreg. destruct (link_followed fs root rel l Hl Hs) as [Hf' Hreg']. congruence. }
  assert (Hsame : ∀ kind size m xs p p', journal_payloads_match p p' = true →
    journal_records_match (record_of_meta root rel kind size m xs p) (record_of_meta root rel kind size m xs p') = true).
  { intros kind size m xs p p' Hp. unfold journal_records_match. simpl. rewrite Hp, String.eqb_refl, !Z.eqb_refl.
    by rewrite !bool_decide_eq_true_2 by done. }
  destruct Hr as [(Hs & t & Ht & ->)|[(k & Hk & ->)|(m & p & b & Hk & Hf & Hreg & Hb & Hp & ->)]];
    destruct Hr' as [(Hs' & t' & Ht' & ->)|[(k' & Hk' & ->)|(m' & p' & b' & Hk' & Hf' & Hreg' & Hb' & Hp' & ->)]].
  - apply Hsame. simpl. assert (t' = t) as -> by congruence. apply String.eqb_refl.
  - by destruct (Hno k').
  - by destruct (Hno' m').
  - by destruct (Hno k).
  - apply Hsame. simpl. assert (k' = k) as -> by congruence. apply String.eqb_refl.
  - congruence.
  - by destruct (Hno' m).
  - congruence.
  - assert (m' = m) as -> by congruence. apply Hsame. rewrite (Hst rel b' b) in Hp' by done.
    destruct p; try done; destruct p'; try done; simpl in *; simplify_eq; by rewrite bool_decide_eq_true_2.
Qed.

(** *** The live scan *)

Section Root.
Context (config : ScanConfig) (root : RootConfig) (files : gmap string FileRecord).
Context (known_paths : list string) (too_large : bool) (g : Gitignore).

Abbreviation live_loop := (scan_live_loop fs config root files known_paths too_large g).
Abbreviation live_wanted rel :=
  (recordable fs root rel && wanted_by fs config root (bset_contains known_paths rel) too_large rel).

Definition live_ok (rel : string) (r : FileRecord) : Prop := describes fs root rel r ∨ files !! rel = Some r.

Lemma live_entry_spec records rel records' :
  rel_path rel = true →
  scan_live_entry fs config root files known_paths too_large records rel false = Ok records' →
  if live_wanted rel then ∃ r, records' = <[rel := r]> records ∧ live_ok rel r else records' = records.
Proof.
  intros Hrel. unfold scan_live_entry. rewrite (rel_path_slash _ Hrel). intros (l & Hl & Hr)%result_bind_Ok.
  assert (Hrec : recordable fs root rel = match followed fs root rel with
    | Ok m => is_regular m || bool_decide (is_Some (special_file_kind l)) || is_symlink l && negb (rc_follow_symlinks root)
    | Err _ => false end) by (unfold recordable; by rewrite Hl).
  unfold wanted_by. set (k := bset_contains known_paths rel) in *.
  destruct (negb k && too_large) eqn:Hb; [injection Hr as <-; by rewrite andb_false_r|].
  destruct (is_symlink l && negb (rc_follow_symlinks root)) eqn:Hs.
  { apply result_bind_Ok in Hr as (t & Ht & Hr). injection Hr as <-.
    destruct (link_followed fs root rel l Hl Hs) as [Hf Hreg].
    rewrite Hrec, Hf, (not_regular_not_large fs config root rel l), andb_false_r, orb_true_r by done. simpl.
    eexists. split; [done|]. left. exists l. rewrite Hs. eauto 10. }
  destruct (special_file_kind l) as [sk|] eqn:Hk.
  { injection Hr as <-. destruct (special_followed fs root rel l sk Hl Hk) as [Hf Hreg].
    rewrite Hrec, Hf, (not_regular_not_large fs config root rel l), andb_false_r by done.
    rewrite bool_decide_eq_true_2, orb_true_r by done. simpl.
    eexists. split; [done|]. left. exists l. eauto 10. }
  apply result_bind_Ok in Hr as (m & Hm & Hr).
  assert (Hf : followed fs root rel = Ok m).
  { unfold followed. rewrite Hl. simpl. by destruct (is_symlink l), (rc_follow_symlinks root). }
  rewrite Hrec, Hf. destruct (is_regular m) eqn:Hreg; simpl in Hr; [|by injection Hr as <-]. simpl.
  unfold too_large_to_track. rewrite Hf, Hreg. cbn [andb].
  match type of Hr with (if ?c then _ else _) = _ => destruct c eqn:Hskip end; [by injection Hr as <-|]. simpl.
  assert (Hread : (let? bytes := if rc_follow_symlinks root then stable_read (rc_snapshot_mode root) (sf_observe fs rel)
                      else stable_read_in_root fs rel (rc_snapshot_mode root) in
        Ok (<[rel := record_of_meta root rel "file" (md_len m) m (sf_read_xattrs fs rel)
                         (NormalBlob (blake3_hex bytes) "")]> records)) = Ok records' →
    ∃ r, records' = <[rel := r]> records ∧ live_ok rel r).
  { intros (bytes & Hb' & Hr')%result_bind_Ok. injection Hr' as <-. eexists. split; [done|]. left. exists l. split; [done|].
    right; right. exists m, (NormalBlob (blake3_hex bytes) ""), bytes. split_and!; try done.
    destruct (rc_follow_symlinks root); [by eapply stable_read_was_read|by eapply stable_read_in_root_was_read]. }
  destruct (files !! rel) as [s|] eqn:Hfile; [|by apply Hread].
  destruct (reuses_record fs rel m s); [|by apply Hread]. injection Hr as <-. exists s. split; [done|by right].
Qed.

Lemma live_dir_keeps records rel records' :
  scan_live_entry fs config root files known_paths too_large records rel true = Ok records' → records' = records.
Proof. intros (l & _ & Hr)%result_bind_Ok. by injection Hr. Qed.

Lemma live_loop_grows items records live rel :
  Forall (λ i, item_path i = "" ∨ rel_path (item_path i) = true) items →
  live_loop records items = Ok live → is_Some (records !! rel) → is_Some (live !! rel).
Proof.
  intros Hp. revert records. induction Hp as [|[rel' d|rel' e] items Hi _ IH]; intros records; simpl; [by intros [= <-]| |done].
  destruct (is_empty rel' || _) eqn:Hskip; [apply IH|]. apply orb_false_iff in Hskip as [Hne _].
  apply is_empty_false in Hne. destruct Hi as [?|Hi]; [done|]. intros (rs & He & Hl)%result_bind_Ok Hrec.
  eapply IH; [done|]. destruct d; [apply live_dir_keeps in He as ->; done|]. apply live_entry_spec in He; [|done].
  destruct (live_wanted rel'); [|by subst]. destruct He as (r & -> & _). rewrite lookup_insert_is_Some'. by right.
Qed.

Lemma live_loop_sound items records live rel r :
  Forall (λ i, item_path i = "" ∨ rel_path (item_path i) = true) items →
  live_loop records items = Ok live → live !! rel = Some r → records !! rel = Some r ∨
  (WEntry rel false ∈ items ∧ rel_path rel = true ∧ root_record_is_managed root g rel false = true ∧
   live_wanted rel = true ∧ live_ok rel r).
Proof.
  intros Hp Hl Hr. revert records Hl. induction Hp as [|[rel' d|rel' e] items Hi _ IH]; intros records; simpl;
    [intros [= <-]; by left| |done].
  destruct (is_empty rel' || _) eqn:Hskip; [intros [?|[? ?]]%IH; [by left|right; split; [set_solver|done]]|].
  apply orb_false_iff in Hskip as [Hne Hm]. apply is_empty_false in Hne. apply negb_false_iff in Hm.
  destruct Hi as [?|Hi]; [done|].
  intros (rs & He & [Hrs|[? ?]]%IH)%result_bind_Ok; [|right; split; [set_solver|done]].
  destruct d; [apply live_dir_keeps in He as ->; by left|]. apply live_entry_spec in He; [|done]. simpl in Hi.
  destruct (live_wanted rel') eqn:Hw; [|subst; by left]. destruct He as (r' & -> & Hok).
  destruct (decide (rel' = rel)) as [->|Hd]; [|rewrite lookup_insert_ne in Hrs by done; by left].
  rewrite lookup_insert_eq in Hrs. injection Hrs as ->. right. split_and!; [set_solver|done..].
Qed.

Lemma live_loop_complete items records live rel :
  Forall (λ i, item_path i = "" ∨ rel_path (item_path i) = true) items →
  live_loop records items = Ok live → WEntry rel false ∈ items → rel_path rel = true →
  root_record_is_managed root g rel false = true → live_wanted rel = true → is_Some (live !! rel).
Proof.
  intros Hp Hl Hin Hrel Hm Hw. revert records Hl. induction Hp as [|[rel' d|rel' e] items Hi Hp IH]; intros records; simpl;
    [by apply not_elem_of_nil in Hin| |done].
  apply elem_of_cons in Hin as [[= <- <-]|Hin].
  - rewrite Hm, (rel_path_nonempty _ Hrel). cbn [orb negb]. intros (rs & He & Hl)%result_bind_Ok.
    apply live_entry_spec in He; [|done]. rewrite Hw in He. destruct He as (r & -> & _).
    eapply live_loop_grows; [done..|]. rewrite lookup_insert_eq. by eexists.
  - destruct (_ || _); [by apply IH|]. intros (rs & _ & Hl)%result_bind_Ok. by eapply IH.
Qed.
End Root.

(** *** Counting new files *)

Lemma count_loop_le root g known stop_after count items n :
  count < stop_after → count_unknown_loop root g known stop_after count items = Ok n → n <= stop_after.
Proof.
  revert count. induction items as [|[rel d|rel e] items IH]; intros count Hc; simpl; [intros [= <-]; lia| |done].
  destruct (_ || _); [by apply IH|]. destruct (negb _); [by apply IH|]. destruct (negb _); [|by apply IH].
  destruct (Z.leb_spec stop_after (count + 1)); [intros [= <-]; lia|]. apply IH. lia.
Qed.

(** With fewer known paths at least as many are counted. *)
Lemma count_loop_mono root g k1 k2 stop_after c1 c2 items n1 n2 :
  (∀ x, bset_contains k2 x = true → bset_contains k1 x = true) →
  c1 <= c2 → c2 < stop_after →
  count_unknown_loop root g k1 stop_after c1 items = Ok n1 →
  count_unknown_loop root g k2 stop_after c2 items = Ok n2 → n1 <= n2.
Proof.
  intros Hk. revert c1 c2. induction items as [|[rel d|rel e] items IH]; intros c1 c2 Hc Hs; simpl;
    [intros [= <-] [= <-]; lia| |done].
  destruct (_ || _); [by apply IH|]. destruct (negb _); [by apply IH|].
  specialize (Hk (path_to_slash rel)).
  destruct (bset_contains k1 (path_to_slash rel)), (bset_contains k2 (path_to_slash rel)); simpl.
  - by apply IH.
  - destruct (Z.leb_spec stop_after (c2 + 1)).
    + intros Hn [= <-]. apply count_loop_le in Hn; lia.
    + apply IH; lia.
  - by specialize (Hk eq_refl).
  - destruct (Z.leb_spec stop_after (c1 + 1)); [intros [= <-]; destruct (Z.leb_spec stop_after (c2 + 1)); [intros [= <-]; lia|lia]|].
    destruct (Z.leb_spec stop_after (c2 + 1)).
    + intros Hn [= <-]. apply count_loop_le in Hn; lia.
    + apply IH; lia.
Qed.

Lemma max_auto_nonneg var : 0 <= max_auto_track_new_files var.
Proof.
  unfold max_auto_track_new_files. destruct var as [v|]; [|lia]. destruct (parse_unsigned _ v); simpl; lia.
Qed.

Lemma kept_enters root g policy i :
  item_kept (scan_enters root g policy) i = true → item_kept (enters root g) i = true.
Proof.
  unfold item_kept. rewrite !andb_true_iff, !forallb_elem_of.
  assert (Hsub : ∀ rel d, scan_enters root g policy rel d = true → enters root g rel d = true).
  { intros rel d. unfold scan_enters, enters. rewrite !orb_true_iff, andb_true_iff. naive_solver. }
  intros [? Hall]. auto.
Qed.

(** *** Nothing changed *)

Section Unchanged.
Context (var : option string) (db : ScanDb) (config : ScanConfig) (root : RootConfig).
Context (known_paths tracked : list string) (initial : bool) (policy : AutoTrackPolicy).
Context (w w' : StoreWorld) (sr : ScannedRoot).

Abbreviation files := (snapshot_file_map (sr_records sr)).
Abbreviation known_now := (journal_known_paths tracked files).

Hypothesis policy_made : for_root var root known_paths initial = Ok policy.
Hypothesis scanned : scan_root env fs db config root policy w = (Done sr, w').
(** The paths tracked afterwards were known before or are in the snapshot. *)
Hypothesis tracked_known : ∀ rel, bset_contains tracked rel = true →
  bset_contains known_paths rel = true ∨ is_Some (files !! rel).

Lemma known_now_spec rel : bset_contains known_now rel = true ↔ bset_contains tracked rel = true ∨ is_Some (files !! rel).
Proof.
  rewrite !bset_contains_true. unfold journal_known_paths. rewrite elem_of_bset_extend, list_elem_of_fmap.
  apply or_iff_compat_l. split.
  - intros ([k r] & -> & Hk%elem_of_map_to_list). by exists r.
  - intros [r Hr]. exists (rel, r). by rewrite elem_of_map_to_list.
Qed.

(** What the files of the snapshot are. *)
Lemma snapshot_file rel r : files !! rel = Some r →
  ∃ g, build_ignore root = Ok g ∧
  WEntry rel false ∈ walk_items (rc_path root) (rc_follow_symlinks root) (enters root g) ∧
  rel_path rel = true ∧ root_record_is_managed root g rel false = true ∧ describes fs root rel r ∧
  recordable fs root rel && wanted fs config root policy rel = true.
Proof.
  intros (Hr & Hp & Hd)%snapshot_file_map_Some.
  apply scan_root_run in scanned as (g & acc & du & re & items & w1 & Hg & Hit & Hpaths & Hl & Hrs).
  rewrite Hrs in Hr.
  destruct (scan_loop_sound env fs config root policy du re g items _ w acc w1 r Hpaths Hl Hr)
    as [Hn|(rel' & d & Hin & Hne & Hm & Hp' & Hdesc)]; [by apply not_elem_of_nil in Hn|].
  exists g. destruct d; [done|]. destruct Hdesc as [Hdesc Hw]. assert (rel' = rel) as -> by congruence.
  rewrite Forall_forall in Hpaths. destruct (Hpaths _ Hin) as [?|Hrel]; [done|]. rewrite Hit in Hin.
  apply elem_of_filter_bool in Hin as [Hin Hk%kept_enters]. split_and!; try done.
  rewrite walk_filter by done. by apply elem_of_filter_bool.
Qed.

Lemma wanted_in_snapshot g rel :
  build_ignore root = Ok g →
  WEntry rel false ∈ walk_items (rc_path root) (rc_follow_symlinks root) (enters root g) →
  rel_path rel = true → root_record_is_managed root g rel false = true →
  recordable fs root rel = true → wanted fs config root policy rel = true → is_Some (files !! rel).
Proof.
  intros Hg Hin Hrel Hm Hrec Hw.
  apply scan_root_run in scanned as (g' & acc & du & re & items & w1 & Hg' & Hit & Hpaths & Hl & Hrs).
  assert (g' = g) as -> by congruence. rewrite walk_filter in Hin by done. apply elem_of_filter_bool in Hin as [Hin Hk].
  assert (Hkept : WEntry rel false ∈ items).
  { rewrite Hit. apply elem_of_filter_bool. split; [done|]. unfold item_kept in *. apply andb_true_iff in Hk as [_ Hk].
    apply andb_true_iff. split; [unfold scan_enters; simpl; by rewrite orb_true_r|].
    rewrite forallb_elem_of in Hk |- *. intros d Hd. specialize (Hk d Hd). apply parents_above in Hd as (r & Hd).
    simpl in Hd. subst rel. unfold scan_enters. unfold enters in Hk.
    rewrite (may_descend_above root policy d r) by (done || by apply wanted_known in Hw). by rewrite andb_true_r. }
  eapply scan_loop_complete in Hl as (r & Hr & Hp & Hd); [|done..].
  apply describes_file in Hd as [_ Hd]. rewrite <-Hrs in Hr. rewrite <-Hp. by apply snapshot_file_map_has.
Qed.

Lemma still_too_large n :
  max_auto_track_new_files var < u64_max →
  count_unknown_journal_file_candidates (rc_path root) root known_now (wadd (max_auto_track_new_files var) 1) = Ok n →
  unknown_batch_too_large policy = true → max_auto_track_new_files var < n.
Proof.
  intros Hmax Hn Hb. pose proof (max_auto_nonneg var) as Hpos.
  apply result_bind_Ok in policy_made as (c & Hc & Hpol). injection Hpol as Hpol.
  unfold unknown_batch_too_large in Hb. rewrite <-Hpol in Hb. simpl in Hb. apply andb_true_iff in Hb as [Hi Hcm].
  destruct initial; [done|]. apply Z.ltb_lt in Hcm.
  assert (wadd (max_auto_track_new_files var) 1 = saturating_add (max_auto_track_new_files var) 1) as Hstop.
  { unfold wadd, saturating_add. rewrite wrap64_small by (split; lia). lia. }
  rewrite Hstop in Hn. unfold count_unknown_file_candidates in Hc. unfold count_unknown_journal_file_candidates in Hn.
  destruct (build_ignore root) as [g|] eqn:Hg; [|done]. simpl in Hc, Hn.
  enough (c <= n) by lia. eapply (count_loop_mono root g); [|reflexivity| |exact Hc|exact Hn].
  - intros x [Hx|[r Hx]]%known_now_spec; [apply tracked_known in Hx as [?|[r Hx]]; [done|]|];
      apply snapshot_file in Hx as (_ & _ & _ & _ & _ & _ & [_ Hw]%andb_true_iff);
      apply wanted_known in Hw as [Hw|Hw]; rewrite <-Hpol in Hw; try done;
      unfold unknown_batch_too_large in Hw; simpl in Hw; apply Z.ltb_ge in Hw; lia.
  - unfold saturating_add. lia.
Qed.

(** C14. When nothing has changed since a snapshot the live comparison finds nothing: the
    rules by which a scan decides what to record (patterns, new files, large files, links)
    and by which the journal compares the tree with the snapshot later are written twice,
    and agree on every path, so that no event is queued for a file that is as it was. *)
Theorem unchanged_tree_has_no_events source_exists events :
  steady → rc_snapshot_source root = None → max_auto_track_new_files var < u64_max →
  live_diff_root fs var source_exists config root tracked files = Ok events → events = [].
Proof.
  intros Hst Hsrc Hmax. unfold live_diff_root, journal_source_base. rewrite Hsrc.
  intros (n & Hn & (live & Hlive & Hev)%result_bind_Ok)%result_bind_Ok. injection Hev as <-.
  pose proof (still_too_large n Hmax Hn) as Hbig.
  set (too := max_auto_track_new_files var <? n) in *.
  apply result_bind_Ok in Hlive as (g & Hg & Hlive).
  assert (Hpaths : Forall (λ i, item_path i = "" ∨ rel_path (item_path i) = true)
    (walk_items (rc_path root) (rc_follow_symlinks root) (enters root g))).
  { rewrite walk_filter by done. apply Forall_forall. intros i [Hi _]%elem_of_filter_bool. by apply walk_paths in Hi. }
  unfold live_diff_changes. apply flat_map_nil. intros rel _.
  destruct (files !! rel) as [s|] eqn:Hs, (live !! rel) as [r|] eqn:Hr; simpl; [..|done].
  - assert (Hds : describes fs root rel s) by (by apply snapshot_file in Hs as (? & _ & _ & _ & _ & ? & _)).
    eapply live_loop_sound in Hr as [Hr|(_ & _ & _ & _ & [Hd|Hsame])]; [by rewrite lookup_empty in Hr| | |done..].
    + by rewrite (describes_match root rel s r).
    + assert (r = s) as -> by congruence. by rewrite (describes_match root rel s s).
  - exfalso. pose proof Hs as (g' & Hg' & Hin & Hrel & Hm & _ & [Hrec _]%andb_true_iff)%snapshot_file.
    assert (g' = g) as -> by congruence. eapply (live_loop_complete config root) in Hlive as [r' Hr']; [|done..|].
    + congruence.
    + rewrite Hrec. unfold wanted_by. rewrite (proj2 (known_now_spec rel)) by (right; by eexists). done.
  - exfalso. eapply live_loop_sound in Hr as [Hr|(Hin & Hrel & Hm & [Hrec Hw]%andb_true_iff & _)];
      [by rewrite lookup_empty in Hr| |done..].
    assert (Hsome : is_Some (files !! rel)); [|rewrite Hs in Hsome; by destruct Hsome].
    destruct (bset_contains known_now rel) eqn:Hk.
    + apply known_now_spec in Hk as [[Hk|?]%tracked_known|?]; [|done..]. apply (wanted_in_snapshot g); try done.
      apply result_bind_Ok in policy_made as (c & _ & Hpol). injection Hpol as <-. unfold wanted, wanted_by, known. simpl.
      by rewrite Hk, orb_true_r.
    + apply (wanted_in_snapshot g); try done. unfold wanted_by in Hw. simpl in Hw. apply andb_true_iff in Hw as [Ht Hl].
      unfold wanted, wanted_by. destruct (known policy rel); [done|]. simpl.
      destruct (unknown_batch_too_large policy); [|done].
      specialize (Hbig eq_refl). apply Z.ltb_lt in Hbig. fold too in Hbig. by rewrite Hbig in Ht.
Qed.
End Unchanged.
End Agree.
