(* ===== verification/SnapshotExample.v ===== *)
(** * Scans of a small tree

    A glob matcher, an ignore matcher and a walk that satisfy what [SnapshotReach] and
    [SnapshotComplete] rely on, the theorems applied to them, and a tree in which a file
    an include pattern matches is never found. *)

From S2P Require Import Prelude RStr BTree MachInt Core Util Large Config Pack Crypto LargeStore SnapshotRules SnapshotReach SnapshotScan SnapshotComplete SnapshotLive.

Import CryptoExample LargeStoreExample CoreExample.

Local Open Scope Z_scope.

(** ** Globs with [*], [?] and [**] *)

(** [*]: some characters that are not a slash, then [m]. *)
Fixpoint glob_star (m : string → bool) (s : string) : bool :=
  m s || match s with String c s' => negb (is_slash c) && glob_star m s' | EmptyString => false end.

(** [**/]: [m] here or after some slash. *)
Fixpoint after_slash (m : string → bool) (s : string) : bool :=
  match s with String c s' => is_slash c && m s' || after_slash m s' | EmptyString => false end.

Definition any_dirs (m : string → bool) (s : string) : bool := m s || after_slash m s.

Definition glob_char (p : ascii → bool) (m : string → bool) (s : string) : bool :=
  match s with String c s' => p c && m s' | EmptyString => false end.

Fixpoint glob (pat : string) : string → bool :=
  match pat with
  | EmptyString => is_empty
  | String c rest =>
    if Ascii.eqb c "*" then
      match rest with
      | String c2 rest2 =>
        if Ascii.eqb c2 "*" then
          match rest2 with
          | EmptyString => λ _, true
          | String c3 rest3 => if is_slash c3 then any_dirs (glob rest3) else λ _, false
          end
        else glob_star (glob rest)
      | EmptyString => glob_star (glob rest)
      end
    else if Ascii.eqb c "?" then glob_char (λ d, negb (is_slash d)) (glob rest)
    else if glob_meta c || Ascii.eqb c "\" then λ _, false
    else glob_char (Ascii.eqb c) (glob rest)
  end.

(** A matcher that accepts every longer text with a text it accepts. *)
Definition extends_match (m : string → bool) : Prop := ∀ s e, m s = true → m (s +:+ e) = true.

Lemma glob_star_extends m : extends_match m → extends_match (glob_star m).
Proof.
  intros Hm s e. induction s as [|c s IH].
  - rewrite str_app_nil_l. simpl. rewrite orb_false_r. intros Hs%(Hm _ e). rewrite str_app_nil_l in Hs.
    destruct e; simpl; by rewrite Hs.
  - rewrite str_app_cons. simpl. rewrite !orb_true_iff, !andb_true_iff. intros [Hs|[? ?]]; [left|right; split; auto].
    by apply (Hm _ e) in Hs.
Qed.

Lemma after_slash_extends m : extends_match m → extends_match (after_slash m).
Proof.
  intros Hm s e. induction s as [|c s IH]; [done|].
  rewrite str_app_cons. simpl. rewrite !orb_true_iff, !andb_true_iff. naive_solver.
Qed.

Lemma any_dirs_extends m : extends_match m → extends_match (any_dirs m).
Proof.
  intros Hm s e. unfold any_dirs. rewrite !orb_true_iff. intros [?|?]; [left; auto|right; by apply after_slash_extends].
Qed.

Lemma glob_char_extends p m : extends_match m → extends_match (glob_char p m).
Proof.
  intros Hm [|c s] e; [done|]. rewrite str_app_cons. simpl. rewrite !andb_true_iff. naive_solver.
Qed.

Lemma glob_suffix_extends pat : extends_match (glob (pat +:+ "/**")).
Proof.
  remember (String.length pat) as n eqn:Hn. revert pat Hn. induction (lt_wf n) as [n _ IH]. intros pat ->.
  destruct pat as [|c rest].
  { rewrite str_app_nil_l. simpl. apply glob_char_extends. by intros s e. }
  rewrite str_app_cons. cbn [glob].
  assert (Hrest : extends_match (glob (rest +:+ "/**"))) by (eapply IH; [|done]; simpl; lia).
  destruct (Ascii.eqb c "*").
  - destruct rest as [|c2 rest2]; [by apply glob_star_extends|].
    rewrite str_app_cons in *. destruct (Ascii.eqb c2 "*"); [|by apply glob_star_extends].
    destruct rest2 as [|c3 rest3]; [apply any_dirs_extends; by intros s e|].
    rewrite str_app_cons. destruct (is_slash c3); [|by intros s e]. apply any_dirs_extends. eapply IH; [|done]. simpl. lia.
  - destruct (Ascii.eqb c "?"); [by apply glob_char_extends|].
    destruct (_ || _); [by intros s e|]. by apply glob_char_extends.
Qed.

#[export] Instance ex_globset : GlobSet := {| glob_is_match pat rel := Some (glob pat rel) |}.

#[export] Instance ex_glob_laws : GlobLaws.
Proof.
  split.
  - intros lit rest rel Hlit [= Hm]. revert rel Hm. induction lit as [|c lit IH]; intros rel; [by destruct rel|].
    simpl in Hlit. apply andb_true_iff in Hlit as [Hc Hlit]. rewrite str_app_cons. cbn [glob].
    unfold literal_char in Hc. apply andb_true_iff in Hc as [Hc Hbs]. pose proof Hc as Hc'.
    unfold glob_meta in Hc. rewrite !negb_orb, !andb_true_iff, !negb_true_iff in Hc. destruct Hc as [[[-> ->] _] _].
    apply negb_true_iff in Hc'. apply negb_true_iff in Hbs. rewrite Hc', Hbs. simpl.
    destruct rel as [|d rel]; [done|]. simpl. intros [->%Ascii.eqb_eq Hm]%andb_true_iff.
    apply IH in Hm; [|done]. unfold starts_with in *. simpl. rewrite Ascii.eqb_refl. done.
  - intros pat d r [= Hm]. simpl. f_equal. by apply glob_suffix_extends.
Qed.

(** ** Ignored paths *)

(** Lines that name a path: it and all below it are ignored. *)
#[export] Instance ex_ignore : IgnoreCrate := {|
  Gitignore := list string;
  gitignore_build _ lines := Ok lines;
  gitignore_is_ignore lines rel _ :=
    existsb (λ line, let base := trim_matches is_slash line in (rel =? base)%string || below base rel) lines |}.

#[export] Instance ex_ignore_laws : IgnoreLaws.
Proof.
  split. intros dir lines g d r is_dir _ _. simpl. rewrite !existsb_elem_of. intros (line & Hin & Hm).
  exists line. split; [done|]. rewrite !orb_true_iff, !below_true in *. right.
  destruct Hm as [->%String.eqb_eq|(x & ->)]; [by exists r|]. exists (x +:+ "/" +:+ r). by rewrite <-!str_app_assoc.
Qed.

(** ** A tree *)

Definition ex_items : list WalkItem := [
  WEntry "" true; WEntry "notes" true; WEntry "notes/todo.txt" false; WEntry "proj1" true;
  WEntry "proj1/src" true; WEntry "proj1/src/a" true; WEntry "proj1/src/a/b.rs" false;
  WEntry "proj1/src/main.rs" false; WEntry "target" true; WEntry "target/keep.txt" false;
  WEntry "target/out.o" false ].

#[export] Instance ex_walk : WalkCrate := {| walk_items _ _ f := List.filter (item_kept f) ex_items |}.

Lemma all_kept items : List.filter (item_kept (λ _ _, true)) items = items.
Proof.
  induction items as [|i items IH]; [done|]. simpl. rewrite IH. unfold item_kept at 1. simpl.
  by rewrite (proj2 (forallb_elem_of _ _)).
Qed.

#[export] Instance ex_walk_laws : WalkLaws.
Proof.
  split; unfold walk_items, ex_walk.
  - intros _ _ f _. by rewrite all_kept.
  - intros _ _ i. rewrite all_kept. intros Hi. unfold ex_items in Hi.
    repeat (apply elem_of_cons in Hi as [->|Hi]; [by (left; reflexivity) || (right; reflexivity)|]). by apply not_elem_of_nil in Hi.
Qed.

Definition ex_root (include exclude : list string) : RootConfig := {|
  rc_id := "home"; rc_name := "home"; rc_path := "/home"; rc_include := include; rc_exclude := exclude;
  rc_explicit_track := []; rc_explicit_untrack := ["notes/todo.txt"]; rc_follow_symlinks := false;
  rc_require_mount := false; rc_status := "active"; rc_degraded := None; rc_snapshot_mode := "default";
  rc_pre_snapshot := None; rc_post_snapshot := None; rc_snapshot_source := None;
  rc_application_plugin := None; rc_large := None; rc_volatile := None |}.

(** Everything but [target], of which one file is included by its path. *)
Definition ex_searched : RootConfig := ex_root ["**"; "proj1/**/*.rs"; "target/keep.txt"] ["target/**"].
Definition ex_ignored : Gitignore := ignore_lines ["target/**"].

Lemma count_unknown_exact_witness :
  count_unknown_file_candidates ex_searched ["proj1/src/main.rs"] 10 = Ok 2.
Proof.
  erewrite (count_unknown_exact ex_searched ex_ignored).
  - vm_compute. reflexivity.
  - vm_compute. reflexivity.
  - reflexivity.
  - lia.
  - vm_compute. repeat constructor.
Defined.

(** ** A scan *)

Definition ex_file_meta (len : Z) : Meta := {|
  md_kind := MFile; md_len := len; md_mode := 420; md_modified := Some 7; md_uid := Some 1000; md_gid := Some 1000 |}.

Definition ex_stat : FileMeta := {| fm_len := 3; fm_modified := Some 7; fm_ino := Some 9 |}.

(** Every file holds [1; 2; 3] and can be read at once. *)
Definition ex_scan_fs : ScanFs := {|
  sf_symlink_metadata _ := Ok (ex_file_meta 3);
  sf_metadata _ := Ok (ex_file_meta 3);
  sf_read_link _ := Err "not a link";
  sf_read_xattrs _ := [];
  sf_first_read _ := Ok [1; 2; 3];
  sf_observe _ _ := Ok {| ra_before := ex_stat; ra_bytes := [1; 2; 3]; ra_after := ex_stat |};
  sf_stream _ _ := Err "not streamed" |}.

Definition ex_scan_db : ScanDb := {| sd_current := None; sd_remote_refs := []; sd_blobs := [] |}.
Definition ex_scan_config : ScanConfig := {|
  cf_large := {| lg_enabled := true; lg_min_size := 1000; lg_binary_min_size := 1000; lg_chunked_min_size := 100;
    lg_chunked_chunk_size := 4; lg_default_chunking := "fixed"; lg_chunk_size := 4;
    lg_max_parallel_uploads := 1; lg_multipart := false; lg_always := []; lg_never := [];
    lg_compression := ex_compression false |};
  cf_encryption := "none" |}.

Definition ex_policy : AutoTrackPolicy := {|
  at_known_paths := ["proj1/src/a/b.rs"]; at_initial_root_scan := false; at_unknown_add_count := 101;
  at_max_auto_add := 100 |}.

Definition tracked_of (o : outcome ScannedRoot string) : option (list (string * string)) :=
  match o with Done sr => Some (sr_tracked_paths sr) | _ => None end.

Lemma scan_records_managed_witness :
  ∃ sr w' r, scan_root ex_store_env ex_scan_fs ex_scan_db ex_scan_config ex_searched ex_policy ex_empty = (Done sr, w') ∧
    r ∈ sr_records sr ∧ describes ex_scan_fs ex_searched "proj1/src/a/b.rs" r ∧
    sr_tracked_paths sr = [("home", "proj1/src/a/b.rs")].
Proof.
  assert (Htracked : tracked_of (scan_root ex_store_env ex_scan_fs ex_scan_db ex_scan_config ex_searched ex_policy
    ex_empty).1 = Some [("home", "proj1/src/a/b.rs")]) by (vm_compute; reflexivity).
  destruct (scan_root ex_store_env ex_scan_fs ex_scan_db ex_scan_config ex_searched ex_policy ex_empty)
    as [[sr|e|] w'] eqn:Hrun; [|discriminate Htracked..].
  destruct (scan_records_managed ex_store_env ex_scan_fs ex_scan_db ex_scan_config ex_searched ex_policy
    ex_ignored ex_empty sr w') as [_ Hall]; [vm_compute; reflexivity|reflexivity|exact Hrun|].
  destruct (Hall "proj1/src/a/b.rs") as (r & Hr & Hd).
  - apply list_elem_of_In. vm_compute. tauto.
  - discriminate.
  - vm_compute. reflexivity.
  - vm_compute. reflexivity.
  - vm_compute. reflexivity.
  - exists sr, w', r. split; [reflexivity|]. split; [exact Hr|]. split; [exact Hd|].
    by injection Htracked.
Defined.

(** ** A second look at the same tree *)

Lemma ex_steady : steady ex_scan_fs.
Proof.
  assert (Hread : ∀ rel b, was_read ex_scan_fs rel b → b = [1; 2; 3]).
  { intros rel b [(i & a & Ha & Hb & _)|(i & a & after & Ha & _)]; [|done]. by injection Ha as <-. }
  intros rel b b' ->%Hread ->%Hread. done.
Qed.

Definition files_of (o : outcome ScannedRoot string) : gmap string FileRecord :=
  match o with Done sr => snapshot_file_map (sr_records sr) | _ => ∅ end.

Definition ex_known : list string := ["proj1/src/a/b.rs"].

Lemma unchanged_tree_has_no_events_witness :
  ∃ policy sr w',
    for_root None ex_searched ex_known false = Ok policy ∧
    scan_root ex_store_env ex_scan_fs ex_scan_db ex_scan_config ex_searched policy ex_empty = (Done sr, w') ∧
    sr_tracked_paths sr = [("home", "proj1/src/a/b.rs"); ("home", "proj1/src/main.rs"); ("home", "target/keep.txt")] ∧
    live_diff_root ex_scan_fs None false ex_scan_config ex_searched ex_known (snapshot_file_map (sr_records sr)) = Ok [].
Proof.
  pose (policy := {| at_known_paths := ex_known; at_initial_root_scan := false; at_unknown_add_count := 2;
                     at_max_auto_add := 100 |}).
  exists policy. assert (Hpol : for_root None ex_searched ex_known false = Ok policy) by (vm_compute; reflexivity).
  assert (Htracked : tracked_of (scan_root ex_store_env ex_scan_fs ex_scan_db ex_scan_config ex_searched policy
    ex_empty).1 = Some [("home", "proj1/src/a/b.rs"); ("home", "proj1/src/main.rs"); ("home", "target/keep.txt")])
    by (vm_compute; reflexivity).
  assert (Hlive : is_ok (live_diff_root ex_scan_fs None false ex_scan_config ex_searched ex_known
    (files_of (scan_root ex_store_env ex_scan_fs ex_scan_db ex_scan_config ex_searched policy ex_empty).1)) = true)
    by (vm_compute; reflexivity).
  destruct (scan_root ex_store_env ex_scan_fs ex_scan_db ex_scan_config ex_searched policy ex_empty)
    as [[sr|e|] w'] eqn:Hrun; [|discriminate Htracked..].
  exists sr, w'. split; [exact Hpol|]. split; [reflexivity|]. split; [by injection Htracked|]. simpl in Hlive.
  destruct (live_diff_root ex_scan_fs None false ex_scan_config ex_searched ex_known
    (snapshot_file_map (sr_records sr))) as [events|] eqn:Hd; [|discriminate Hlive].
  f_equal. eapply (unchanged_tree_has_no_events ex_store_env ex_scan_fs None ex_scan_db ex_scan_config ex_searched
    ex_known ex_known false policy ex_empty w' sr Hpol Hrun).
  - intros rel Hrel. left. exact Hrel.
  - exact ex_steady.
  - reflexivity.
  - vm_compute. reflexivity.
  - exact Hd.
Defined.

(** A file that has grown since is found. *)
Example grown_file_is_found :
  live_diff_root ex_scan_fs None false ex_scan_config ex_searched ex_known
    {[ "proj1/src/a/b.rs" := record_of_meta ex_searched "proj1/src/a/b.rs" "file" 2 (ex_file_meta 2) []
                               (InlineSmall (blake3_hex [1; 2]) "") ]} =
  Ok [("proj1/src/a/b.rs", "modify"); ("proj1/src/main.rs", "create"); ("target/keep.txt", "create")].
Proof. vm_compute. reflexivity. Qed.

(** ** A pattern that is matched but not searched *)

(** C39. A file an include pattern matches may never be found.  [proj*/**/*.rs] matches
    [proj1/src/a/b.rs], and nothing excludes the file; but the test whether a directory
    can hold matches compares the number of path parts, which says nothing about [**], so
    [proj1/src/a] is not entered and no scan sees the file.  The file is managed by the
    same rules: a snapshot leaves it out without a word. *)
Theorem include_glob_not_searched `{!GlobSet, !IgnoreCrate, !WalkCrate, !WalkLaws} root g :
  let include := "proj*/**/*.rs" in
  rc_include root = [include] → rc_explicit_track root = [] → rc_explicit_untrack root = [] →
  rc_volatile root = None → (∀ rel is_dir, gitignore_is_ignore g rel is_dir = false) →
  glob_is_match include "proj1/src/a/b.rs" = Some true → glob_is_match include "proj1/src/a" = Some false →
  root_record_is_managed root g "proj1/src/a/b.rs" false = true ∧
  WEntry "proj1/src/a/b.rs" false ∉ walk_items (rc_path root) (rc_follow_symlinks root) (enters root g).
Proof.
  intros include Hi Ht Hu Hv Hg Hm Hd. subst include.
  assert (Hfile : path_pattern_match "proj*/**/*.rs" "proj1/src/a/b.rs" = true) by (vm_compute in Hm |- *; by rewrite Hm).
  assert (Hdir : include_allows_descend ["proj*/**/*.rs"] "proj1/src/a" = false) by (vm_compute in Hd |- *; by rewrite Hd).
  split.
  - unfold root_record_is_managed, explicitly_untracked, explicitly_tracked, is_volatile_excluded, is_ignored.
    rewrite Hi, Ht, Hu, Hv, Hg. unfold is_included. change (path_to_slash "proj1/src/a/b.rs") with "proj1/src/a/b.rs".
    cbn [existsb path_list_covers]. by rewrite Hfile.
  - rewrite walk_filter by done. rewrite elem_of_filter_bool. intros [_ Hk]. unfold item_kept in Hk.
    apply andb_true_iff in Hk as [_ Hk]. rewrite forallb_elem_of in Hk. specialize (Hk "proj1/src/a").
    unfold enters, root_dir_allows_descend, explicitly_untracked, explicit_track_may_match_inside_dir,
      is_volatile_excluded, is_ignored in Hk. rewrite Hi, Ht, Hu, Hv, Hg, Hdir in Hk.
    assert ("proj1/src/a" ∈ parents "proj1/src/a/b.rs") as Hin by (apply list_elem_of_In; vm_compute; tauto).
    by specialize (Hk Hin).
Qed.

Definition ex_unsearched : RootConfig := {|
  rc_id := "home"; rc_name := "home"; rc_path := "/home"; rc_include := ["proj*/**/*.rs"]; rc_exclude := [];
  rc_explicit_track := []; rc_explicit_untrack := []; rc_follow_symlinks := false;
  rc_require_mount := false; rc_status := "active"; rc_degraded := None; rc_snapshot_mode := "default";
  rc_pre_snapshot := None; rc_post_snapshot := None; rc_snapshot_source := None;
  rc_application_plugin := None; rc_large := None; rc_volatile := None |}.

Definition ex_nothing : Gitignore := ignore_lines [].

Lemma include_glob_not_searched_witness :
  root_record_is_managed ex_unsearched ex_nothing "proj1/src/a/b.rs" false = true ∧
  WEntry "proj1/src/a/b.rs" false ∉ walk_items "/home" false (enters ex_unsearched ex_nothing).
Proof.
  apply (include_glob_not_searched ex_unsearched ex_nothing).
  1-4: reflexivity.
  - reflexivity.
  - vm_compute. reflexivity.
  - vm_compute. reflexivity.
Defined.

(** ** The behaviour the unit tests of [snapshot_rules.rs] expect *)

Example expands_directory_child_globs :
  expanded_directory_exclude_patterns "**/.git/**" = ["**/.git/"; ".git/"; "/.git/"].
Proof. reflexivity. Qed.

Example git_preset_covers_sensitive_paths :
  match apply_root_presets [] ["git-working-tree"] with
  | Ok excludes => forallb (exclude_covers_path excludes) [".git"; ".infracost"; ".backup-kubeconfig"; "etc/keys"]
  | Err _ => false
  end = true.
Proof. vm_compute. reflexivity. Qed.

Example default_excludes_cover :
  let excludes := apply_default_root_excludes [] in
  forallb (exclude_covers_path excludes)
    [".git"; ".majutsu/config.toml"; "node_modules"; "logs/app.log"; "artifacts/e2e/screen.png";
     "db/app.sqlite-wal"; "gke_gcloud_auth_plugin_cache123456"; "src/__pycache__/worker.cpython-312.pyc";
     "AppData/Local/Packages/Client/AC/INetCache/5HLB4PUV/wdgts_conf.json"; ".vagrant.d/data/index.lock";
     ".venv-local/bin/python"; "work/state.json.123.abc.tmp"; "work/tmp_runtime.1"] = true ∧
  existsb (exclude_covers_path excludes) [".env"; ".kubeconfig"; "model-latest.tgz"] = false.
Proof. vm_compute. done. Qed.

Example explicit_track_enters_excluded_parent :
  let root := {|
    rc_id := "sample"; rc_name := "sample"; rc_path := "/r"; rc_include := ["**"]; rc_exclude := ["ignored/**"];
    rc_explicit_track := ["ignored/keep.txt"]; rc_explicit_untrack := []; rc_follow_symlinks := false;
    rc_require_mount := false; rc_status := "active"; rc_degraded := None; rc_snapshot_mode := "default";
    rc_pre_snapshot := None; rc_post_snapshot := None; rc_snapshot_source := None;
    rc_application_plugin := None; rc_large := None; rc_volatile := None |} in
  ∃ ignore, build_ignore root = Ok ignore ∧ root_dir_allows_descend root ignore "ignored" = true ∧
    root_record_is_managed root ignore "ignored/keep.txt" false = true ∧
    root_record_is_managed root ignore "ignored/other.txt" false = false.
Proof. eexists. split; [reflexivity|]. vm_compute. done. Qed.
