(* ===== verification/Forget.v ===== *)
(** * Forgetting unmanaged records

    [forget_unmanaged_root_history] of [src/root_runtime.rs], which [mj untrack] and
    [mj root set] run: the records of a root that its settings no longer manage are taken
    out of every stored snapshot, the payload index of the snapshot is written anew
    ([insert_snapshot_payload_index] of [src/main.rs]), and the rows nothing refers to are
    deleted ([Prune]).

    The first theorem shows that the snapshots keep what they should; the second that the
    payload index does not: the manifests in the store omit the records of their roots, so
    the index is left with the records of the one root, and the rows of the blobs of every
    other root are deleted. *)

From S2P Require Import Prelude RStr BTree MachInt Core Util Config Policy Large Crypto Store Db Pack Restore LargeStore RemoteObjects Trees ObjectKeys PackStore RestoreJob Gc Prune SnapshotRules.

Local Open Scope Z_scope.

Record ForgetUnmanagedStats := { fu_snapshots : nat; fu_records : nat }.
Definition fu_default : ForgetUnmanagedStats := {| fu_snapshots := 0; fu_records := 0 |}.

(** The result of a call, its error as a value. *)
Definition try_result {S A} (m : stm S A) : stm S (result A string) := λ s,
  match m s with
  | (Done a, s') => (Done (Ok a), s')
  | (Fails e, s') => (Done (Err e), s')
  | (Panics, s') => (Panics, s')
  end.

(** ** The payload index *)

Definition payload_row_of (snapshot_id : string) (record : FileRecord) : option PayloadRow :=
  match payload_blob_ref (fr_payload record) with
  | Some (oid, _) => Some {| py_snapshot_id := snapshot_id; py_kind := "blob"; py_oid := oid |}
  | None =>
    match payload_large_ref (fr_payload record) with
    | Some (oid, _, _) => Some {| py_snapshot_id := snapshot_id; py_kind := "large"; py_oid := oid |}
    | None => None
    end
  end.

#[global] Instance PayloadRow_eq_dec : EqDecision PayloadRow.
Proof. solve_decision. Defined.

(** [insert or ignore]: the three columns are the primary key. *)
Definition insert_payload_row (rows : list PayloadRow) (row : PayloadRow) : list PayloadRow :=
  if bool_decide (row ∈ rows) then rows else rows ++ [row].

Definition payload_rows_of (manifest : SnapshotManifest) (rows : list PayloadRow) : list PayloadRow :=
  fold_left insert_payload_row
    (omap (payload_row_of (sm_snapshot_id manifest)) (concat (sm_roots manifest).*2))
    (List.filter (λ row, negb (py_snapshot_id row =? sm_snapshot_id manifest)%string) rows).

(** [insert or replace]: the row of the snapshot comes last. *)
Definition indexed_with (id : string) (indexed : list string) : list string :=
  List.filter (λ i, negb (i =? id)%string) indexed ++ [id].

Section Forget.
Context `{!ObjectCodec, !Chrono, !Blake3, !Zstd, !Serde TreeNodeManifest, !Serde TreeManifest, !Serde PackIndex,
          !Serde LargeManifest, !Serde SnapshotManifest, !Serde entries_map, !Serde (string * string * entries_map * nodes_map),
          !ManifestValue, !ValueRead, !WalkDir, !GlobSet, !IgnoreCrate}.
Context (env : PruneEnv).

Abbreviation prune_m := (stm PruneWorld).
Abbreviation store_m := (stm StoreWorld).
Abbreviation tree_env := (gn_tree (un_gc env)).

Definition insert_snapshot_payload_index (manifest : SnapshotManifest) (w : PruneWorld) : PruneWorld :=
  uw_with_index w (indexed_with (sm_snapshot_id manifest) (uw_indexed w)) (payload_rows_of manifest (uw_payloads w)).

(** ** Reading metadata *)

Definition decode_local_metadata_manifest {T} `{!Serde T} (key : string) (bytes : list Z) : store_m T :=
  let* decoded := codec (oc_decode bytes) in
  match json_from_slice decoded with
  | Some value => stm_ret value
  | None =>
    match zstd_decode_all_limited decoded REMOTE_METADATA_DECODE_LIMIT key with
    | Ok decompressed =>
      stm_some ("cached metadata object has an unsupported format: " +:+ key) (cbor_from_slice decompressed)
    | Err _ => stm_fail ("cached metadata object has an unsupported format: " +:+ key)
    end
  end.

(** [fs::read] of the cached object: [None] when there is none. *)
Definition read_cached {T} `{!Serde T} (key : string) : store_m (option (result T string)) :=
  let* file := stm_get (λ w, (sw_objects w !! key, object_path_exists w key)) in
  match file with
  | (Some bytes, _) => let* value := try_result (decode_local_metadata_manifest key bytes) in stm_ret (Some value)
  | (None, true) => stm_ret (Some (Err "Is a directory"))
  | (None, false) => stm_ret None
  end.

Definition metadata_remote_key (remote : Remote) (key : string) : result string string :=
  let remote_key := default key (canonical_remote_alias key) in
  if rm_is_s3_like remote then
    match gn_host_name (un_gc env) with
    | None => Err config_failure
    | Some name => Ok (host_remote_key (remote_host_label name) remote_key)
    end
  else Ok remote_key.

Definition read_metadata_manifest {T} `{!Serde T} (remote : option Remote) (key : string) : store_m T :=
  let* cached := read_cached key in
  match cached with
  | Some (Ok value) => stm_ret value
  | _ =>
    match remote with
    | None =>
      match cached with
      | Some (Err _) => stm_fail ("read cached metadata object " +:+ key)
      | _ => stm_fail ("metadata object is not cached locally: " +:+ key)
      end
    | Some remote =>
      let* remote_key := stm_ok (metadata_remote_key remote key) in
      let* value := try_ok (let* bytes := stm_ok (rm_get remote remote_key) in
                            codec (decode_canonical_remote_export bytes)) in
      stm_some ("read remote metadata object " +:+ remote_key) value
    end
  end.

(** The loop over the children of a node. *)
Fixpoint root_size_children (below : TreeNodeManifest → store_m entries_map) (remote : option Remote)
    (entries : entries_map) (children : nodes_map) : store_m entries_map :=
  match children with
  | [] => stm_ret entries
  | (_, child) :: rest =>
    let* child_node := read_metadata_manifest remote (tnr_node_key child) in
    let* more := below child_node in
    root_size_children below remote (bmap_extend entries more) rest
  end.

(** The recursion is bounded by the stack. *)
Fixpoint root_size_tree_entries_from_node (remote : option Remote) (depth : nat) (node : TreeNodeManifest)
    : store_m entries_map :=
  match depth with
  | O => stm_lift Panics
  | S depth' => root_size_children (root_size_tree_entries_from_node remote depth') remote
                  (tn_entries node) (tn_child_nodes node)
  end.

Definition root_size_tree_entries (remote : option Remote) (depth : nat) (tree : TreeManifest) : store_m entries_map :=
  match tm_entries tree, tm_root_node tree with
  | [], Some root_node =>
    let* node := read_metadata_manifest remote (tnr_node_key root_node) in
    root_size_tree_entries_from_node remote depth node
  | entries, _ => stm_ret entries
  end.

(** ** Rewriting the snapshots *)

Definition objects_base : string := "objects/blobs".

Definition record_managed (root : RootConfig) (ignore : Gitignore) (record : FileRecord) : bool :=
  root_record_is_managed root ignore (fr_path record) (fr_kind record =? "directory")%string.

Definition sm_with_root (manifest : SnapshotManifest) (root_id : string) (tree : RootSnapshot) (records : list FileRecord)
    : SnapshotManifest :=
  {| sm_snapshot_id := sm_snapshot_id manifest; sm_parent := sm_parent manifest; sm_op_id := sm_op_id manifest;
     sm_timestamp := sm_timestamp manifest; sm_root_trees := bmap_insert root_id tree (sm_root_trees manifest);
     sm_roots := bmap_insert root_id records (sm_roots manifest) |}.

(** [update snapshots set manifest_key=?2, manifest_json='' where id=?1] *)
Definition set_manifest_key (id key : string) (s : SnapshotExport) : SnapshotExport :=
  if (se_id s =? id)%string then
    {| se_id := se_id s; se_parent_id := se_parent_id s; se_op_id := se_op_id s; se_created_at := se_created_at s;
       se_manifest_key := key; se_manifest_json := "" |}
  else s.

Definition snapshot_manifest_rows (w : PruneWorld) : list SnapshotExport := sort_by se_created_at (uw_snapshots w).

(** What a snapshot keeps of the root is stored: its tree, its manifest, its index. *)
Definition rewrite_root (now : DateTime) (root_id snapshot_id : string) (manifest : SnapshotManifest)
    (kept : list FileRecord) : prune_m unit :=
  let tree := build_tree_manifest now root_id kept in
  let tree_entries := tm_entries tree in
  let* tree := in_prune_store (prepare_tree_manifest_for_storage tree_env tree) in
  let tree_json := json_to_vec tree in
  let* tree_key := in_prune_store (store_bytes trees_base (blake3_hex tree_json) tree_json) in
  let manifest := sm_with_root manifest root_id
    {| rs_tree_id := tm_tree_id tree; rs_tree_key := tree_key; rs_file_count := Z.of_nat (length tree_entries) |}
    tree_entries.*2 in
  let manifest_oid := blake3_hex (json_to_vec_pretty manifest) in
  let* encoded := in_prune_store (codec (encode_compact_snapshot_manifest_for_local manifest)) in
  let* new_manifest_key := in_prune_store (store_encoded_object_bytes objects_base manifest_oid encoded) in
  let* _ := stm_modify (λ w, uw_with_gc w (gw_with_snapshots (uw_gc w)
    (map (set_manifest_key snapshot_id new_manifest_key) (uw_snapshots w)))) in
  stm_modify (insert_snapshot_payload_index manifest).

(** One snapshot; the clock is read once for each that is rewritten. *)
Definition forget_row (now : nat → DateTime) (remote : option Remote) (root : RootConfig) (ignore : Gitignore)
    (stats : ForgetUnmanagedStats) (s : SnapshotExport) : prune_m ForgetUnmanagedStats :=
  let* manifest :=
    (if is_empty (trim (se_manifest_json s)) then in_prune_store (read_metadata_manifest remote (se_manifest_key s))
     else stm_some "decode snapshot manifest" (json_from_slice (bytes_of_string (se_manifest_json s)))) in
  match bmap_get (sm_root_trees manifest) (rc_id root) with
  | None => stm_ret stats
  | Some root_snapshot =>
    let* tree := in_prune_store (read_metadata_manifest remote (rs_tree_key root_snapshot)) in
    let* entries := in_prune_store (root_size_tree_entries remote (gn_depth (un_gc env)) tree) in
    let kept := List.filter (record_managed root ignore) entries.*2 in
    let removed := (length entries - length kept)%nat in
    if (removed =? 0)%nat then stm_ret stats else
    let* _ := rewrite_root (now (fu_snapshots stats)) (rc_id root) (se_id s) manifest kept in
    stm_ret {| fu_snapshots := S (fu_snapshots stats); fu_records := fu_records stats + removed |}
  end.

Definition forget_unmanaged_root_history (now : nat → DateTime) (root : RootConfig) : prune_m ForgetUnmanagedStats :=
  let* ignore := stm_ok (build_ignore root) in
  let* remote := stm_ok (gn_remote (un_gc env)) in
  let* snapshots := stm_get snapshot_manifest_rows in
  stm_fold (forget_row now remote root ignore) fu_default snapshots.

(** What [mj untrack] does for a changed root, and [mj root set] without
    [--skip-history-rewrite]: [continue_on_history_error] goes on after a failure. *)
Definition forget_changed_root (continue_on_history_error : bool) (now : nat → DateTime) (root : RootConfig)
    : prune_m unit :=
  let* forgotten :=
    (if continue_on_history_error then
       let* found := try_ok (forget_unmanaged_root_history now root) in stm_ret (default fu_default found)
     else forget_unmanaged_root_history now root) in
  if (0 <? fu_records forgotten)%nat then let* _ := prune_unreferenced_metadata env in stm_ret tt
  else stm_ret tt.
End Forget.

(** ** Reading what is stored *)

Section Kept.
Context `{!ObjectCodec, !ObjectCodecLaws, !Chrono, !Blake3, !Blake3Laws, !Zstd, !Serde TreeNodeManifest, !SerdeLaws TreeNodeManifest,
          !Serde TreeManifest, !SerdeLaws TreeManifest, !Serde PackIndex, !Serde LargeManifest, !Serde SnapshotManifest,
          !SerdeLaws SnapshotManifest, !Serde entries_map, !SerdeLaws entries_map,
          !Serde (string * string * entries_map * nodes_map), !ManifestValue, !ValueRead, !WalkDir, !CompactLaws,
          !GlobSet, !IgnoreCrate}.
Context (env : PruneEnv).
Hypothesis node_safe : ∀ n : TreeNodeManifest, oc_safe (json_to_vec n).
Hypothesis tree_safe : ∀ t : TreeManifest, oc_safe (json_to_vec t).
Hypothesis compact_safe : ∀ m, oc_safe (value_to_json_pretty (compact_snapshot_manifest_value m)).

Abbreviation tree_env := (gn_tree (un_gc env)).
Abbreviation depth := (gn_depth (un_gc env)).

Lemma metadata_reads {T} `{!Serde T} w remote key (v : T) :
  holds_json w key v → reads w (read_metadata_manifest env remote key) v.
Proof.
  intros (_ & enc & b & Ho & Hd & Hj) c Hc. destruct (Hd c Hc) as (c' & Hdec & Hc').
  exists c'. split; [done|]. unfold read_metadata_manifest, read_cached, decode_local_metadata_manifest, try_result, codec, stm_bind, stm_get.
  simpl. rewrite Ho. simpl. rewrite Hdec. by rewrite Hj.
Qed.

Lemma node_entries_reads w remote d key node es :
  oc_inv (sw_codec w) → holds_json w key node → node_at d w key es →
  reads w (root_size_tree_entries_from_node env remote d node) es.
Proof.
  intros Hc. revert key node es. induction d as [|d IH]; intros key node es Hh; [done|].
  intros (node' & parts & Hh' & Hf & ->). apply (holds_json_fun _ _ _ _ Hc Hh) in Hh' as ->. simpl.
  generalize (tn_entries node) as entries. induction Hf as [|[name child] part cs parts Hp _ IHf]; intros entries; simpl.
  - apply reads_ret.
  - pose proof Hp as Hp0. destruct d as [|d]; [done|]. destruct Hp0 as (cnode & _ & Hcn & _).
    eapply reads_bind; [by apply metadata_reads|]. eapply reads_bind; [by eapply IH|]. apply IHf.
Qed.

Lemma forget_tree_reads w remote key tree es :
  oc_inv (sw_codec w) → holds_json w key tree → tree_at depth w key es →
  reads w (root_size_tree_entries env remote depth tree) es.
Proof.
  intros Hc Hh (tree' & Hh' & Ht). apply (holds_json_fun _ _ _ _ Hc Hh) in Hh' as ->. unfold root_size_tree_entries.
  destruct (tm_entries tree); [|subst; apply reads_ret]. destruct (tm_root_node tree) as [rn|]; [|subst; apply reads_ret].
  pose proof Ht as Ht0. destruct depth as [|d]; [done|]. destruct Ht0 as (node & _ & Hn & _).
  eapply reads_bind; [by apply metadata_reads|]. by eapply node_entries_reads.
Qed.

(** ** Storing a tree leaves the other objects as they are *)

Definition below_trees (k : string) : bool := starts_with k "objects/trees/".

Lemma store_bytes_frame base oid b k :
  base = trees_base ∨ base = tree_nodes_base → below_trees k = false →
  keeps (λ w, sw_objects w !! k) (store_bytes base oid b).
Proof.
  intros Hb Hk. unfold store_bytes, store_encoded_object_bytes, store_encoded_object_bytes_with_storage_id.
  assert (Hcodec : ∀ A (m : stm codec_state A), keeps (λ w, sw_objects w !! k) (codec m)).
  { intros A m w. unfold codec. by destruct (m (sw_codec w)). }
  apply keeps_bind; [done|]. intros enc. apply keeps_bind; [done|]. intros sid.
  apply keeps_bind; [apply keeps_lift|]. intros [x y]. keeps_solve.
  destruct (sw_objects _ !! (base +:+ _)); [done|]. simpl. apply lookup_insert_ne. intros <-.
  destruct Hb as [-> | ->]; discriminate Hk.
Qed.

Lemma store_node_frame root_id path n t k :
  below_trees k = false → keeps (λ w, sw_objects w !! k) (store_tree_node root_id path n t).
Proof.
  intros Hk. revert path. induction n as [entries children count IH] using TreeNodeBuild_ind'. intros path. simpl.
  apply keeps_bind.
  - generalize (@nil (string * TreeNodeRef)) as acc. induction IH as [|[name c] cs Hc _ IHc]; intros acc; simpl; [done|].
    destruct (_ <? _)%nat; [apply IHc|]. apply keeps_bind; [apply Hc|]. intros ref. apply IHc.
  - intros refs. apply keeps_bind; [apply store_bytes_frame; auto|]. intros key. apply keeps_ret.
Qed.

Lemma attach_frame t tree w tree' w' k :
  bsorted (tm_entries tree).*1 → tree_inv w → below_trees k = false →
  attach_subtree_node_index_with_threshold tree_env tree t w = (Done tree', w') → sw_objects w' !! k = sw_objects w !! k.
Proof.
  intros Hs Hinv Hk. unfold attach_subtree_node_index_with_threshold. destruct (_ <? _)%nat; [by intros [= <- <-]|].
  destruct (from_entries_records _ Hs) as [Ht _].
  destruct (store_tree_node_run node_safe (tm_root_id tree) t _ Ht "" w Hinv) as (rn & w1 & Hrun & Hinv1 & _ & Hb & Hn).
  pose proof (store_node_frame (tm_root_id tree) "" (from_entries (tm_entries tree)) t k Hk w) as Hfr. rewrite Hrun in Hfr.
  intros Hall. apply stm_bind_Done in Hall as (rn' & w1' & Hrun' & Hall). rewrite Hrun in Hrun'. injection Hrun' as <- <-.
  destruct (height (from_entries (tm_entries tree))) as [|h]; [done|]. destruct Hn as (node & parts & Hhold & _).
  destruct (read_json (te_store tree_env) w1 _ _ (ti_codec _ Hinv1) Hhold) as (b & c' & _ & Hr & Hj).
  unfold read_object, stm_bind in Hall. rewrite Hr, Hb in Hall. cbn [andb] in Hall. unfold stm_ret at 1 in Hall.
  rewrite Hj in Hall. injection Hall as _ <-. exact Hfr.
Qed.

Lemma prepare_frame tree w tree' w' k :
  bsorted (tm_entries tree).*1 → tree_inv w → below_trees k = false →
  prepare_tree_manifest_for_storage tree_env tree w = (Done tree', w') → sw_objects w' !! k = sw_objects w !! k.
Proof.
  intros Hs Hinv Hk. unfold prepare_tree_manifest_for_storage, attach_subtree_node_index.
  destruct (tree_format_v2_enabled _).
  - intros (tree1 & w1 & Hrun & [= <- <-])%stm_bind_Done. by eapply attach_frame.
  - destruct (tree_subtree_nodes_enabled _); simpl; [by apply attach_frame|]. by intros [= <- <-].
Qed.

(** ** The state *)

Lemma objects_base_dir : object_dir objects_base.
Proof. exists ["blobs"]. split_and!; [done|repeat constructor..|done]. Qed.

Definition manifest_key_of (m : SnapshotManifest) : string := object_key_of objects_base (blake3_hex (json_to_vec_pretty m)).

(** Trees and nodes are named by their content, and what has the name of a manifest is
    its compact form. *)
Record forget_inv (w : StoreWorld) : Prop := {
  fi_trees : tree_inv w;
  fi_manifests m enc : sw_objects w !! manifest_key_of m = Some enc →
    decodes_to enc (value_to_json_pretty (compact_snapshot_manifest_value m));
}.

Lemma manifest_key_form m : ∃ a b, manifest_key_of m = objects_base +:+ "/" +:+ a +:+ "/" +:+ b.
Proof. destruct (object_key_of_form objects_base _ (blake3_good (json_to_vec_pretty m))) as (a & b & H' & _). by exists a, b. Qed.
Lemma manifest_key_below m : below_trees (manifest_key_of m) = false.
Proof. by destruct (manifest_key_form m) as (a & b & ->). Qed.
Lemma tree_key_below base oid : base = trees_base ∨ base = tree_nodes_base → good_name oid → below_trees (object_key_of base oid) = true.
Proof. intros Hb Hg. destruct (object_key_of_form base oid Hg) as (a & b & -> & _). by destruct Hb as [-> | ->]. Qed.

Lemma forget_inv_frame w w' :
  forget_inv w → tree_inv w' → (∀ k, below_trees k = false → sw_objects w' !! k = sw_objects w !! k) → forget_inv w'.
Proof. intros [_ Hm] Ht Hf. split; [done|]. intros m enc. rewrite Hf by apply manifest_key_below. apply Hm. Qed.

Lemma forget_inv_codec w c : forget_inv w → oc_inv c → forget_inv (sw_with_codec w c).
Proof. intros Hi Hc. eapply forget_inv_frame; [exact Hi|by apply tree_inv_codec; [apply Hi|]|done]. Qed.

(** Storing a manifest in its compact form. *)
Lemma store_manifest_run m w :
  forget_inv w → ∃ w', (let* encoded := codec (encode_compact_snapshot_manifest_for_local m) in
      store_encoded_object_bytes objects_base (blake3_hex (json_to_vec_pretty m)) encoded) w = (Done (manifest_key_of m), w') ∧
    forget_inv w' ∧ extends w w' ∧ holds_json w' (manifest_key_of m) (sm_without_roots m).
Proof.
  intros [Ht Hm]. pose proof (ti_codec _ Ht) as Hc.
  destruct (store_bytes_run objects_base (blake3_hex (json_to_vec_pretty m)) _ w (blake3_good _) Hc (compact_safe m))
    as (enc & c' & Hdec & Hc' & Hrun). fold (manifest_key_of m) in Hrun.
  eexists. split; [exact Hrun|]. cbv zeta.
  assert (Hv : validate_local_object_key (manifest_key_of m) = Ok tt)
    by (apply object_dir_key_valid; [exact objects_base_dir|apply blake3_good]).
  destruct (sw_objects w !! manifest_key_of m) as [old|] eqn:Hold.
  - split_and!; [by apply forget_inv_codec; [split|]|by apply extends_same|]. split; [done|].
    eexists old, _. split_and!; [done|by apply Hm|apply compact_value_reads].
  - assert (Hne : ∀ base oid, base = trees_base ∨ base = tree_nodes_base → good_name oid → object_key_of base oid ≠ manifest_key_of m).
    { intros base oid Hb Hg Heq. pose proof (tree_key_below base oid Hb Hg) as Hk. rewrite Heq, manifest_key_below in Hk. done. }
    split_and!.
    + split; [split; [done|..]|].
      * eapply named_by_content_frame; [apply Ht|by intros k Hk; simpl; rewrite lookup_insert_ne|].
        intros v. apply Hne; [by right|apply blake3_good].
      * eapply named_by_content_frame; [apply Ht|by intros k Hk; simpl; rewrite lookup_insert_ne|].
        intros v. apply Hne; [by left|apply blake3_good].
      * intros m' enc'. simpl. destruct (decide (manifest_key_of m' = manifest_key_of m)) as [Heq|Hno].
        { rewrite Heq, lookup_insert_eq. intros [= <-].
          apply object_key_oid_inj, blake3_inj, (f_equal (json_from_slice (T := SnapshotManifest))) in Heq; [|apply blake3_good..].
          rewrite !json_pretty_roundtrip in Heq. by injection Heq as ->. }
        rewrite lookup_insert_ne by done. apply Hm.
    + intros k e Hk. simpl. rewrite lookup_insert_ne; [done|]. intros <-. congruence.
    + split; [done|]. eexists enc, _. simpl. rewrite lookup_insert_eq. split_and!; [done|done|apply compact_value_reads].
Qed.

(** The entries of a root by path. *)
Definition by_path (es : entries_map) : Prop := bsorted es.*1 ∧ Forall (λ e, fr_path e.2 = e.1) es.
Definition managed_entries (root : RootConfig) (ignore : Gitignore) (es : entries_map) : entries_map :=
  List.filter (λ e, record_managed root ignore e.2) es.

Lemma managed_entries_map root ignore es :
  by_path es → bmap_of_list (map (λ r, (fr_path r, r)) (List.filter (record_managed root ignore) es.*2))
    = managed_entries root ignore es.
Proof.
  intros [Hs Hp].
  assert (Heq : map (λ r, (fr_path r, r)) (List.filter (record_managed root ignore) es.*2) = managed_entries root ignore es).
  { clear Hs. unfold managed_entries. induction Hp as [|[k r] es Hk _ IH]; cbn [fmap list_fmap List.filter snd]; [done|].
    simpl in Hk. destruct (record_managed root ignore r); [|done]. cbn [map]. by rewrite IH, Hk. }
  rewrite Heq.
  assert (Hsub : bsorted (managed_entries root ignore es).*1).
  { clear Hp Heq. unfold managed_entries. induction es as [|[k r] es IH]; simpl in *; [done|].
    apply StronglySorted_cons in Hs as [Hk Hs]. destruct (record_managed root ignore r); simpl; [|by apply IH].
    constructor; [by apply IH|]. rewrite Forall_forall in Hk |- *. intros x (y & -> & Hy%elem_of_filter_bool)%list_elem_of_fmap.
    apply Hk, list_elem_of_fmap. exists y. naive_solver. }
  apply bmap_sorted_unique; [apply bmap_of_list_sorted|done|]. by apply (bmap_extend_perm []), bsorted_NoDup.
Qed.

(** ** One snapshot *)

Lemma in_prune_store_eq {A} (m : stm StoreWorld A) w r s :
  m (uw_store w) = (r, s) → in_prune_store m w = (r, uw_with_store w s).
Proof. intros Hm. unfold in_prune_store, in_gc. by rewrite (in_gc_store_eq _ _ _ _ Hm). Qed.

(** The state after a snapshot was rewritten. *)
Definition rewritten (w : PruneWorld) (st : StoreWorld) (id : string) (m : SnapshotManifest) : PruneWorld :=
  insert_snapshot_payload_index m (uw_with_gc (uw_with_store w st) (gw_with_snapshots (uw_gc (uw_with_store w st))
    (map (set_manifest_key id (manifest_key_of m)) (uw_snapshots w)))).

Lemma rewrite_root_run now root_id id m kept w :
  forget_inv (uw_store w) → let es := bmap_of_list (map (λ r, (fr_path r, r)) kept) in
  ∃ rt st, let m' := sm_with_root m root_id rt es.*2 in
    rewrite_root env now root_id id m kept w = (Done tt, rewritten w st id m') ∧ forget_inv st ∧ extends (uw_store w) st ∧
    holds_json st (manifest_key_of m') (sm_without_roots m') ∧ ∃ d, tree_at d st (rs_tree_key rt) es.
Proof.
  intros Hi es. set (tree := build_tree_manifest now root_id kept).
  assert (Hs : bsorted (tm_entries tree).*1) by apply bmap_of_list_sorted.
  destruct (prepare_run tree_env node_safe tree (uw_store w) Hs eq_refl (fi_trees _ Hi))
    as (tree' & s1 & Hrun1 & Ht1 & He1 & _ & Hes). change (tm_entries tree) with es in Hes.
  assert (Hi1 : forget_inv s1) by (eapply forget_inv_frame; [exact Hi|done|]; intros k Hk; by eapply prepare_frame; [exact Hs|apply Hi|done|exact Hrun1]).
  destruct (store_tree_run tree_safe tree' s1 Ht1) as (key & s2 & Hrun2 & Ht2 & He2 & Hh2).
  assert (Hi2 : forget_inv s2).
  { eapply forget_inv_frame; [exact Hi1|done|]. intros k Hk.
    pose proof (store_bytes_frame trees_base (blake3_hex (json_to_vec tree')) (json_to_vec tree') k (or_introl eq_refl) Hk s1) as Hf.
    by rewrite Hrun2 in Hf. }
  set (rt := {| rs_tree_id := tm_tree_id tree'; rs_tree_key := key; rs_file_count := Z.of_nat (length es) |}).
  destruct (store_manifest_run (sm_with_root m root_id rt es.*2) s2 Hi2) as (s3 & Hrun3 & Hi3 & He3 & Hh3).
  exists rt, s3. cbv zeta. split_and!; [|done|by etrans; [|etrans]|done|].
  - apply stm_bind_Done in Hrun3 as (enc & s2' & Henc & Hst). unfold rewrite_root. fold tree. change (tm_entries tree) with es.
    eapply bind_run; [by apply in_prune_store_eq|]. eapply bind_run; [by apply in_prune_store_eq|]. fold rt.
    eapply bind_run; [apply in_prune_store_eq; exact Henc|]. eapply bind_run; [by apply in_prune_store_eq|].
    eapply bind_run; [reflexivity|]. reflexivity.
  - eexists. eapply tree_at_extends; [exact He3|]. exists tree'. split; [done|].
    destruct (tm_entries tree'), (tm_root_node tree'); eauto using node_at_extends.
Qed.

Context (now : nat → DateTime) (remote : option Remote) (root : RootConfig) (ignore : Gitignore).

(** A snapshot whose manifest and root can be read. *)
Definition row_readable (w : StoreWorld) (s : SnapshotExport) : Prop :=
  ∃ m, snapshot_manifest_is w s m ∧ sm_snapshot_id m = se_id s ∧
    ∀ rt, bmap_get (sm_root_trees m) (rc_id root) = Some rt → ∃ es, tree_at depth w (rs_tree_key rt) es ∧ by_path es.

Lemma filter_length_eq {A} (f : A → bool) l : length (List.filter f l) = length l → List.filter f l = l.
Proof.
  induction l as [|x l IH]; simpl; [done|]. pose proof (List.filter_length_le f l).
  destruct (f x); simpl; [|lia]. intros [= Hl]. by rewrite IH.
Qed.
Lemma kept_length es : length (List.filter (record_managed root ignore) es.*2) = length (managed_entries root ignore es).
Proof.
  unfold managed_entries. induction es as [|[k r] es IH]; cbn [fmap list_fmap List.filter snd]; [done|].
  destruct (record_managed root ignore r); cbn [length]; by rewrite ?IH.
Qed.

(** What becomes of a snapshot: nothing when there is nothing to forget, and else the
    root has the entries left. *)
Inductive row_outcome (w : PruneWorld) (stats : ForgetUnmanagedStats) (s : SnapshotExport) (m : SnapshotManifest)
    : ForgetUnmanagedStats → PruneWorld → Prop :=
| row_absent c : oc_inv c → bmap_get (sm_root_trees m) (rc_id root) = None → row_outcome w stats s m stats (uw_with_codec w c)
| row_same c rt es : oc_inv c → bmap_get (sm_root_trees m) (rc_id root) = Some rt → tree_at depth (uw_store w) (rs_tree_key rt) es →
    managed_entries root ignore es = es → row_outcome w stats s m stats (uw_with_codec w c)
| row_rewritten st rt es rt' d n : bmap_get (sm_root_trees m) (rc_id root) = Some rt →
    tree_at depth (uw_store w) (rs_tree_key rt) es → managed_entries root ignore es ≠ es → (0 < n)%nat →
    forget_inv st → extends (uw_store w) st →
    let es' := managed_entries root ignore es in let m' := sm_with_root m (rc_id root) rt' es'.*2 in
    holds_json st (manifest_key_of m') (sm_without_roots m') → tree_at d st (rs_tree_key rt') es' →
    row_outcome w stats s m {| fu_snapshots := S (fu_snapshots stats); fu_records := fu_records stats + n |}
      (rewritten w st (se_id s) m').

Lemma forget_row_run stats s m w :
  forget_inv (uw_store w) → snapshot_manifest_is (uw_store w) s m →
  (∀ rt, bmap_get (sm_root_trees m) (rc_id root) = Some rt → ∃ es, tree_at depth (uw_store w) (rs_tree_key rt) es ∧ by_path es) →
  ∃ stats' w', forget_row env now remote root ignore stats s w = (Done stats', w') ∧ row_outcome w stats s m stats' w'.
Proof.
  intros Hi Hm Hroot. pose proof (ti_codec _ (fi_trees _ Hi)) as Hc.
  assert (Hw : uw_with_codec w (sw_codec (uw_store w)) = w) by by destruct w as [[[[]]]].
  assert (Hread : preads w (if is_empty (trim (se_manifest_json s)) then in_prune_store (read_metadata_manifest env remote (se_manifest_key s))
     else stm_some "decode snapshot manifest" (json_from_slice (bytes_of_string (se_manifest_json s)))) m).
  { unfold snapshot_manifest_is in Hm. destruct (is_empty _); [|by apply preads_some]. by apply preads_store, metadata_reads. }
  destruct (Hread _ Hc) as (c1 & Hc1 & Hrun1). rewrite Hw in Hrun1. unfold forget_row.
  destruct (bmap_get (sm_root_trees m) (rc_id root)) as [rt|] eqn:Hrt.
  2: { eexists _, _. split; [eapply bind_run; [exact Hrun1|]; by rewrite Hrt|]. by apply row_absent. }
  destruct (Hroot rt eq_refl) as (es & Ht & Hp). pose proof Ht as (tree & Hh & _).
  destruct (preads_store w _ _ (metadata_reads (uw_store w) remote _ tree Hh) c1 Hc1) as (c2 & Hc2 & Hrun2).
  destruct (preads_store w _ _ (forget_tree_reads (uw_store w) remote _ tree es Hc Hh Ht) c2 Hc2) as (c3 & Hc3 & Hrun3).
  destruct (Nat.eqb_spec (length es - length (List.filter (record_managed root ignore) es.*2)) 0) as [Hz|Hz].
  - eexists _, _. split.
    { eapply bind_run; [exact Hrun1|]. rewrite Hrt. eapply bind_run; [exact Hrun2|]. eapply bind_run; [exact Hrun3|].
      cbv zeta. rewrite Hz. reflexivity. }
    eapply row_same; [done|done|done|]. apply filter_length_eq. rewrite kept_length in Hz.
    pose proof (List.filter_length_le (λ e, record_managed root ignore e.2) es). unfold managed_entries in *. lia.
  - assert (Hi3 : forget_inv (uw_store (uw_with_codec w c3))) by (by apply forget_inv_codec).
    destruct (rewrite_root_run (now (fu_snapshots stats)) (rc_id root) (se_id s) m (List.filter (record_managed root ignore) es.*2) _ Hi3)
      as (rt' & st & Hrun4 & Hi4 & He4 & Hh4 & d & Ht4). rewrite managed_entries_map in * by done.
    eexists _, _. split.
    { eapply bind_run; [exact Hrun1|]. rewrite Hrt. eapply bind_run; [exact Hrun2|]. eapply bind_run; [exact Hrun3|].
      cbv zeta. rewrite (proj2 (Nat.eqb_neq _ _) Hz). eapply bind_run; [exact Hrun4|]. reflexivity. }
    change (rewritten (uw_with_codec w c3) st (se_id s)) with (rewritten w st (se_id s)).
    eapply row_rewritten; [done|done| |lia|done| |done|done].
    + intros Heq. rewrite kept_length, Heq in Hz. lia.
    + etrans; [|exact He4]. by apply extends_same.
Qed.

(** ** All snapshots *)

Lemma row_outcome_store w stats s m stats' w' :
  forget_inv (uw_store w) → row_outcome w stats s m stats' w' → forget_inv (uw_store w') ∧ extends (uw_store w) (uw_store w').
Proof.
  intros Hi [c Hc _|c rt es Hc _ _ _|st rt es rt' d n _ _ _ _ Hi' He]; [| |by split];
    (split; [by apply forget_inv_codec|by apply extends_same]).
Qed.

Lemma row_readable_extends w w' s : extends w w' → row_readable w s → row_readable w' s.
Proof.
  intros He (m & Hm & Hid & Hr). exists m. split_and!; [by eapply manifest_is_extends|done|].
  intros rt Hrt. destruct (Hr rt Hrt) as (es & Ht & Hp). exists es. split; [by eapply tree_at_extends|done].
Qed.

(** The loop ends, with what every step establishes. *)
Lemma forget_rows_ind (I : list SnapshotExport → ForgetUnmanagedStats → PruneWorld → Prop) rows stats w :
  forget_inv (uw_store w) → Forall (row_readable (uw_store w)) rows → I rows stats w →
  (∀ s rows stats m w stats' w', I (s :: rows) stats w → oc_inv (sw_codec (uw_store w)) →
    snapshot_manifest_is (uw_store w) s m → sm_snapshot_id m = se_id s →
    extends (uw_store w) (uw_store w') → row_outcome w stats s m stats' w' → I rows stats' w') →
  ∃ stats' w', stm_fold (forget_row env now remote root ignore) stats rows w = (Done stats', w') ∧
    forget_inv (uw_store w') ∧ I [] stats' w'.
Proof.
  intros Hi Hr HI Hstep. revert stats w Hi Hr HI. induction rows as [|s rows IH]; intros stats w Hi Hr HI; [by exists stats, w|].
  apply Forall_cons in Hr as [(m & Hm & Hid & Hroot) Hr].
  destruct (forget_row_run stats s m w Hi Hm Hroot) as (stats1 & w1 & Hrun & Hout).
  destruct (row_outcome_store _ _ _ _ _ _ Hi Hout) as [Hi1 He1].
  destruct (IH stats1 w1 Hi1) as (stats2 & w2 & Hrun2 & Hfin).
  { eapply Forall_impl; [exact Hr|]. intros x. by apply row_readable_extends. }
  { eapply Hstep; [exact HI|apply Hi|exact Hm|exact Hid|exact He1|exact Hout]. }
  exists stats2, w2. split; [|done]. cbn [stm_fold]. eapply bind_run; [exact Hrun|exact Hrun2].
Qed.

Definition same_row (s s' : SnapshotExport) : Prop :=
  se_id s' = se_id s ∧ se_parent_id s' = se_parent_id s ∧ se_op_id s' = se_op_id s ∧ se_created_at s' = se_created_at s.

(** The snapshot reads as before but for the root, which has its managed entries. *)
Definition forgotten (w w' : StoreWorld) (s s' : SnapshotExport) : Prop :=
  ∀ m, snapshot_manifest_is w s m → ∃ m', snapshot_manifest_is w' s' m' ∧
    sm_snapshot_id m' = sm_snapshot_id m ∧ sm_parent m' = sm_parent m ∧ sm_op_id m' = sm_op_id m ∧ sm_timestamp m' = sm_timestamp m ∧
    (∀ id, id ≠ rc_id root → bmap_get (sm_root_trees m') id = bmap_get (sm_root_trees m) id) ∧
    match bmap_get (sm_root_trees m) (rc_id root) with
    | None => bmap_get (sm_root_trees m') (rc_id root) = None
    | Some rt => ∀ es, tree_at depth w (rs_tree_key rt) es →
        ∃ rt' d, bmap_get (sm_root_trees m') (rc_id root) = Some rt' ∧ tree_at d w' (rs_tree_key rt') (managed_entries root ignore es)
    end.

Lemma manifest_is_fun w s m m' : oc_inv (sw_codec w) → snapshot_manifest_is w s m → snapshot_manifest_is w s m' → m' = m.
Proof. unfold snapshot_manifest_is. intros Hc. destruct (is_empty _); [by apply holds_json_fun|congruence]. Qed.

Lemma forgotten_extends w w1 w' s s' : extends w1 w' → forgotten w w1 s s' → forgotten w w' s s'.
Proof.
  intros He Hf m Hm. destruct (Hf m Hm) as (m' & Hm' & ? & ? & ? & ? & Ho & Hr). exists m'.
  split_and!; [by eapply manifest_is_extends|done..|]. destruct (bmap_get (sm_root_trees m) (rc_id root)) as [rt|]; [|done].
  intros es Ht. destruct (Hr es Ht) as (rt' & d & ? & ?). exists rt', d. split; [done|]. by eapply tree_at_extends.
Qed.

(** The row of the snapshot after its step. *)
Lemma row_outcome_forgotten w0 w stats s m stats' w' :
  extends w0 (uw_store w) → oc_inv (sw_codec w0) → oc_inv (sw_codec (uw_store w)) → extends (uw_store w) (uw_store w') →
  snapshot_manifest_is (uw_store w) s m → row_outcome w stats s m stats' w' →
  ∃ f, uw_snapshots w' = map f (uw_snapshots w) ∧ (∀ x, same_row x (f x) ∧ (se_id x ≠ se_id s → f x = x)) ∧
    forgotten w0 (uw_store w') s (f s).
Proof.
  intros He0 Hc0 Hc He Hm Hout.
  assert (Hfun : ∀ m0, snapshot_manifest_is w0 s m0 → m0 = m).
  { intros m0 Hm0. eapply manifest_is_fun; [exact Hc|exact Hm|]. by eapply manifest_is_extends. }
  assert (Htree : ∀ rt es es0, tree_at depth (uw_store w) (rs_tree_key rt) es → tree_at depth w0 (rs_tree_key rt) es0 → es0 = es).
  { intros rt es es0 Ht Ht0. eapply (tree_at_fun (uw_store w)); [exact Hc|exact Ht|]. by eapply tree_at_extends. }
  destruct Hout as [c _ Hrt|c rt es _ Hrt Ht Heq|st rt es rt' d n Hrt Ht _ _ _ He' es' m' Hh Ht'].
  - exists id. split; [by rewrite map_id|]. split; [done|]. intros m0 Hm0. rewrite (Hfun _ Hm0). exists m.
    split_and!; [by eapply manifest_is_extends|done..|]. by rewrite Hrt.
  - exists id. split; [by rewrite map_id|]. split; [done|]. intros m0 Hm0. rewrite (Hfun _ Hm0). exists m.
    split_and!; [by eapply manifest_is_extends|done..|]. rewrite Hrt. intros es0 Ht0. rewrite (Htree _ _ _ Ht Ht0), Heq.
    exists rt, depth. split; [done|]. by eapply tree_at_extends.
  - exists (set_manifest_key (se_id s) (manifest_key_of m')). split; [done|]. split.
    { intros x. unfold set_manifest_key. destruct (String.eqb_spec (se_id x) (se_id s)); by split. }
    intros m0 Hm0. rewrite (Hfun _ Hm0). exists (sm_without_roots m'). split_and!; [|done..| |].
    + unfold set_manifest_key. rewrite String.eqb_refl. exact Hh.
    + intros i Hi. simpl. rewrite bmap_get_insert. by destruct (String.eqb_spec i (rc_id root)).
    + rewrite Hrt. intros es0 Ht0. rewrite (Htree _ _ _ Ht Ht0). exists rt', d. split; [|exact Ht'].
      simpl. rewrite bmap_get_insert. by rewrite String.eqb_refl.
Qed.

Record forget_ok (w : PruneWorld) : Prop := {
  fk_store : forget_inv (uw_store w);
  fk_ids : NoDup (map se_id (uw_snapshots w));
  fk_rows : Forall (row_readable (uw_store w)) (uw_snapshots w);
}.

(** What holds between two snapshots: those ahead are as they were, those behind are done. *)
Record forget_state (w0 : PruneWorld) (rows : list SnapshotExport) (w : PruneWorld) : Prop := {
  fs_nodup : NoDup rows;
  fs_sub : rows ⊆ uw_snapshots w0;
  fs_extends : extends (uw_store w0) (uw_store w);
  fs_rows : Forall2 (λ s s', same_row s s' ∧ (s ∈ rows → s' = s) ∧ (s ∉ rows → forgotten (uw_store w0) (uw_store w) s s'))
    (uw_snapshots w0) (uw_snapshots w);
}.

Lemma Forall2_map_impl {A B C} (P : A → B → Prop) (Q : A → C → Prop) (f : B → C) l k :
  Forall2 P l k → (∀ x y, x ∈ l → P x y → Q x (f y)) → Forall2 Q l (map f k).
Proof. induction 1 as [|x y l k Hxy _ IH]; intros Himp; constructor; [apply Himp; [left|done]|]. apply IH. intros. apply Himp; [by right|done]. Qed.

Lemma NoDup_ids_inj rows (s x : SnapshotExport) : NoDup (map se_id rows) → s ∈ rows → x ∈ rows → se_id x = se_id s → x = s.
Proof.
  intros Hnd Hs Hx Heq. pose proof (find_snapshot_NoDup rows s Hnd Hs) as H1'. pose proof (find_snapshot_NoDup rows x Hnd Hx) as H2'.
  rewrite Heq in H2'. congruence.
Qed.

Lemma forget_state_step w0 s rows stats m w stats' w' :
  forget_ok w0 → forget_state w0 (s :: rows) w → oc_inv (sw_codec (uw_store w)) → snapshot_manifest_is (uw_store w) s m →
  extends (uw_store w) (uw_store w') → row_outcome w stats s m stats' w' → forget_state w0 rows w'.
Proof.
  intros Hok [Hnd Hsub He Hrows] Hc Hm He' Hout. apply NoDup_cons in Hnd as [Hs Hnd].
  destruct (row_outcome_forgotten (uw_store w0) w stats s m stats' w' He) as (f & Hmap & Hf & Hfs);
    [apply (fk_store _ Hok)|done..|].
  split; [done|set_solver|by etrans|]. rewrite Hmap. eapply Forall2_map_impl; [exact Hrows|].
  intros x y Hx (Hsame & Hahead & Hbehind). destruct (Hf y) as [Hfy Hid].
  assert (Hsy : same_row x (f y)) by (unfold same_row in *; intuition congruence).
  destruct (decide (x = s)) as [->|Hne].
  - assert (y = s) as -> by (apply Hahead; left). split_and!; [done|done|done].
  - assert (f y = y) as ->.
    { apply Hid. rewrite (proj1 Hsame). intros Heq. apply Hne. eapply NoDup_ids_inj; [apply (fk_ids _ Hok)| | |done]; set_solver. }
    split_and!; [done|intros Hin; apply Hahead; by right|]. intros Hin. eapply forgotten_extends; [exact He'|]. apply Hbehind.
    set_solver.
Qed.

(** The whole loop. *)
Lemma forget_history_run w :
  forget_ok w → build_ignore root = Ok ignore → gn_remote (un_gc env) = Ok remote →
  ∀ I : list SnapshotExport → ForgetUnmanagedStats → PruneWorld → Prop,
  (∀ rows, rows ≡ₚ uw_snapshots w → I rows fu_default w) →
  (∀ s rows stats m w1 stats' w', I (s :: rows) stats w1 → forget_state w (s :: rows) w1 →
    snapshot_manifest_is (uw_store w1) s m → sm_snapshot_id m = se_id s →
    oc_inv (sw_codec (uw_store w1)) → row_outcome w1 stats s m stats' w' → I rows stats' w') →
  ∃ stats w', forget_unmanaged_root_history env now root w = (Done stats, w') ∧ forget_inv (uw_store w') ∧
    forget_state w [] w' ∧ I [] stats w'.
Proof.
  intros Hok Hig Hrem I Hinit Hstep. unfold forget_unmanaged_root_history. rewrite Hig, Hrem.
  set (rows := snapshot_manifest_rows w). assert (Hperm : rows ≡ₚ uw_snapshots w) by apply sort_by_perm.
  destruct (forget_rows_ind (λ rows stats w', forget_state w rows w' ∧ I rows stats w') rows fu_default w)
    as (stats & w' & Hrun & Hi & Hst & HI).
  - apply (fk_store _ Hok).
  - rewrite Hperm. apply (fk_rows _ Hok).
  - split; [|by apply Hinit]. split.
    + rewrite Hperm. eapply (NoDup_fmap_1 se_id). apply (fk_ids _ Hok).
    + intros x. by rewrite Hperm.
    + done.
    + apply Forall2_same_length_lookup. split; [done|]. intros i x y Hx Hy. assert (y = x) as -> by congruence.
      split_and!; [done|done|]. intros Hno. exfalso. apply Hno. rewrite Hperm. by eapply list_elem_of_lookup_2.
  - intros s rows' stats m w1 stats' w' [Hst HI] Hc Hm Hid He Hout. split; [by eapply forget_state_step|by eapply Hstep].
  - exists stats, w'. split_and!; [|done..]. do 3 (eapply bind_run; [reflexivity|]). exact Hrun.
Qed.

(** C10. Taking unmanaged records out of the history loses nothing else of a snapshot: when
    the manifests and trees can be read, [forget_unmanaged_root_history] ends, every stored
    object stays, every snapshot keeps its row, its header and the trees of its other roots,
    and the tree of the root reads as exactly those of its entries that are managed. *)
Theorem forget_keeps_managed w :
  forget_ok w → build_ignore root = Ok ignore → gn_remote (un_gc env) = Ok remote →
  ∃ stats w', forget_unmanaged_root_history env now root w = (Done stats, w') ∧
    extends (uw_store w) (uw_store w') ∧
    Forall2 (λ s s', same_row s s' ∧ forgotten (uw_store w) (uw_store w') s s') (uw_snapshots w) (uw_snapshots w').
Proof.
  intros Hok Hig Hrem. destruct (forget_history_run w Hok Hig Hrem (λ _ _ _, True)) as (stats & w' & Hrun & _ & Hst & _); [done..|].
  exists stats, w'. split_and!; [done|apply Hst|]. eapply Forall2_impl; [apply (fs_rows _ _ _ Hst)|].
  intros s s' (Hs & _ & Hf). split; [done|]. apply Hf. set_solver.
Qed.

(** ** The payload index afterwards *)

Definition blob_row (id oid : string) : PayloadRow := {| py_snapshot_id := id; py_kind := "blob"; py_oid := oid |}.
Definition known_kind (row : PayloadRow) : Prop := py_kind row = "blob" ∨ py_kind row = "large".

Lemma elem_of_payload_rows m rows row :
  row ∈ payload_rows_of m rows ↔ row ∈ rows ∧ py_snapshot_id row ≠ sm_snapshot_id m ∨
    ∃ r, r ∈ concat (sm_roots m).*2 ∧ payload_row_of (sm_snapshot_id m) r = Some row.
Proof.
  unfold payload_rows_of.
  assert (Hfold : ∀ new old, row ∈ fold_left insert_payload_row new old ↔ row ∈ old ∨ row ∈ new).
  { clear. induction new as [|x new IH]; intros old; simpl; [set_solver|]. rewrite IH. unfold insert_payload_row.
    destruct (bool_decide_reflect (x ∈ old)); set_solver. }
  rewrite Hfold, elem_of_filter_bool, list_elem_of_omap, negb_true_iff, String.eqb_neq. done.
Qed.

Lemma payload_row_of_Some id r row : payload_row_of id r = Some row → py_snapshot_id row = id ∧ known_kind row ∧
  (∀ oid, row = blob_row id oid → ∃ key, payload_blob_ref (fr_payload r) = Some (oid, key)).
Proof.
  unfold payload_row_of, known_kind. destruct (payload_blob_ref _) as [[o k]|].
  - intros [= <-]. split_and!; [done|by left|]. intros oid [= ->]. by exists k.
  - destruct (payload_large_ref _) as [[[o k] n]|]; [|done]. intros [= <-]. split_and!; [done|by right|]. intros oid [=].
Qed.

(** Only the rows of the table make blobs live, and every table of known rows counts. *)
Lemma payload_rows_exact rows a :
  Forall known_kind rows → ∃ live, fold_left add_payload_row rows (Some a) = Some live ∧
    ∀ oid, oid ∈ live_blobs live → oid ∈ live_blobs a ∨ ∃ row, row ∈ rows ∧ py_kind row = "blob" ∧ py_oid row = oid.
Proof.
  intros Hk. revert a. induction Hk as [|row rows [Hrow|Hrow] _ IH]; intros a; [by exists a; split; [|left]|..];
    cbn [fold_left]; unfold add_payload_row at 2; rewrite Hrow; cbn.
  - destruct (IH {| live_blobs := bset_insert (py_oid row) (live_blobs a); live_large_objects := live_large_objects a;
      live_chunks := live_chunks a |}) as (live & Hf & Hl). exists live. split; [exact Hf|]. intros oid Ho.
    destruct (Hl oid Ho) as [Hin|(row' & Hr & Hkr & Ho')].
    + simpl in Hin. apply elem_of_bset_insert in Hin as [-> |Hin]; [|by left]. right. exists row. split_and!; [left|done|done].
    + right. exists row'. split_and!; [by right|done|done].
  - destruct (IH {| live_blobs := live_blobs a; live_large_objects := bset_insert (py_oid row) (live_large_objects a);
      live_chunks := live_chunks a |}) as (live & Hf & Hl). exists live. split; [exact Hf|]. intros oid Ho.
    destruct (Hl oid Ho) as [Hin|(row' & Hr & Hkr & Ho')]; [by left|]. right. exists row'. split_and!; [by right|done|done].
Qed.

Lemma indexed_exact w :
  Forall known_kind (uw_payloads w) → (∀ s, s ∈ uw_snapshots w → se_id s ∈ uw_indexed w) →
  ∃ live, indexed_live_metadata_references w = Some live ∧
    ∀ oid, oid ∈ live_blobs live → ∃ s, s ∈ uw_snapshots w ∧ blob_row (se_id s) oid ∈ uw_payloads w.
Proof.
  intros Hk Hidx. unfold indexed_live_metadata_references.
  assert (Hall : List.filter (λ id, existsb (String.eqb id) (uw_indexed w)) (map se_id (uw_snapshots w)) = map se_id (uw_snapshots w)).
  { assert (Hi : Forall (λ id, id ∈ uw_indexed w) (map se_id (uw_snapshots w))) by (apply Forall_map, Forall_forall; exact Hidx).
    induction Hi as [|id ids Hid _ IH]; simpl; [done|]. by rewrite (proj2 (existsb_elem id _) Hid), IH. }
  rewrite Hall, Nat.eqb_refl. cbn [negb].
  destruct (payload_rows_exact (List.filter (λ row, existsb (String.eqb (py_snapshot_id row)) (map se_id (uw_snapshots w))) (uw_payloads w)) live_default)
    as (live & -> & Hl).
  { rewrite Forall_forall in Hk |- *. intros row [Hin _]%elem_of_filter_bool. by apply Hk. }
  exists live. split; [done|]. intros oid [Hin|(row & Hin & Hkind & <-)]%Hl; [by apply elem_of_nil in Hin|].
  apply elem_of_filter_bool in Hin as [Hin (s & Hs & Hin')%existsb_elem%list_elem_of_fmap]. exists s. split; [done|].
  destruct row as [id kind oid]. simpl in *. by subst.
Qed.

(** ** Rows of blobs *)

Abbreviation blob_rows := (λ w : PruneWorld, pw_blobs (uw_pack w)).

Lemma keeps_in_prune_store {A} (m : stm StoreWorld A) : keeps blob_rows (in_prune_store m).
Proof. intros w. destruct (m (uw_store w)) as [r s] eqn:Hm. by rewrite (in_prune_store_eq _ _ _ _ Hm). Qed.
Lemma keeps_stm_fold {S A B C} (f : S → C) (step : A → B → stm S A) l : (∀ a x, keeps f (step a x)) → ∀ a, keeps f (stm_fold step a l).
Proof. intros Hs. induction l as [|x l IH]; intros a; cbn [stm_fold]; [apply keeps_ret|]. apply keeps_bind; auto. Qed.

Lemma bind_eq {S A B} (m : stm S A) (k : A → stm S B) s a s1 : m s = (Done a, s1) → stm_bind m k s = k a s1.
Proof. intros Hm. by eapply bind_run. Qed.

(** Once the live objects are known, the rows of the blobs are those that are live. *)
Lemma prune_metadata_blobs w live r w' row :
  gn_remote (un_gc env) = Ok remote → indexed_live_metadata_references w = Some live →
  prune_unreferenced_metadata env w = (r, w') → row ∈ pw_blobs (uw_pack w') → be_oid row ∈ live_blobs live.
Proof.
  intros Hrem Hlive. unfold prune_unreferenced_metadata. rewrite Hrem.
  erewrite (bind_eq (stm_ok _)) by reflexivity. erewrite (bind_eq (stm_get _)) by reflexivity. rewrite Hlive.
  erewrite (bind_eq (stm_ret _)) by reflexivity. erewrite (bind_eq (delete_blobs_not_in _)) by reflexivity. set (w1 := uw_with_pack w _).
  match goal with |- stm_bind ?m ?f _ = _ → _ => set (k := stm_bind m f) end. intros Hk.
  assert (Hkeep : keeps blob_rows k).
  { unfold k, live_chunks_from_remaining_large_objects, prune_stale_pack_indexes.
    repeat first [apply keeps_bind; [|intros ?] | apply keeps_in_prune_store | apply keeps_get | apply keeps_ret
      | apply keeps_stm_fold; intros ? ? | apply keeps_some | done
      | match goal with |- keeps _ (match ?x with _ => _ end) => destruct x end
      | unfold prune_pack_index, rewrite_index | apply keeps_modify; intros ?]. }
  specialize (Hkeep w1). rewrite Hk in Hkeep. simpl in Hkeep. rewrite Hkeep.
  intros Hrow%elem_of_filter_bool. apply bset_contains_true, Hrow.
Qed.

(** ** Blobs of other roots *)

(** A blob that only snapshots about to be rewritten have in the index, and that the root
    does not keep; all manifests are compact and indexed. *)
Record blob_elsewhere (w : PruneWorld) (oid : string) : Prop := {
  be_compact s m : s ∈ uw_snapshots w → snapshot_manifest_is (uw_store w) s m → sm_roots m = [];
  be_indexed s : s ∈ uw_snapshots w → se_id s ∈ uw_indexed w;
  be_kinds : Forall known_kind (uw_payloads w);
  be_unkept s m rt es r key : s ∈ uw_snapshots w → snapshot_manifest_is (uw_store w) s m →
    bmap_get (sm_root_trees m) (rc_id root) = Some rt → tree_at depth (uw_store w) (rs_tree_key rt) es →
    r ∈ (managed_entries root ignore es).*2 → payload_blob_ref (fr_payload r) ≠ Some (oid, key);
  be_forgets s : s ∈ uw_snapshots w → blob_row (se_id s) oid ∈ uw_payloads w →
    ∃ m rt es, snapshot_manifest_is (uw_store w) s m ∧ bmap_get (sm_root_trees m) (rc_id root) = Some rt ∧
      tree_at depth (uw_store w) (rs_tree_key rt) es ∧ managed_entries root ignore es ≠ es;
}.

(** The index between two snapshots. *)
Record index_state (w : PruneWorld) (oid : string) (s0 : SnapshotExport) (rows : list SnapshotExport)
    (stats : ForgetUnmanagedStats) (w1 : PruneWorld) : Prop := {
  is_ahead s : s ∈ rows → blob_row (se_id s) oid ∈ uw_payloads w1 → blob_row (se_id s) oid ∈ uw_payloads w;
  is_behind s : s ∈ uw_snapshots w → s ∉ rows → blob_row (se_id s) oid ∉ uw_payloads w1;
  is_indexed s : s ∈ uw_snapshots w → se_id s ∈ uw_indexed w1;
  is_kinds : Forall known_kind (uw_payloads w1);
  is_records : s0 ∉ rows → (0 < fu_records stats)%nat;
}.

(** A snapshot that is left as it is. *)
Lemma index_skipped w oid s0 s rows stats w1 stats2 w2 :
  index_state w oid s0 (s :: rows) stats w1 → (blob_row (se_id s) oid ∉ uw_payloads w) → blob_row (se_id s0) oid ∈ uw_payloads w →
  uw_payloads w2 = uw_payloads w1 → uw_indexed w2 = uw_indexed w1 → fu_records stats2 = fu_records stats →
  index_state w oid s0 rows stats2 w2.
Proof.
  intros [Hahead Hbehind Hidx Hkinds Hrec] Hno H0' Hp Hi Hr. split.
  - intros x Hx. rewrite Hp. apply Hahead. by right.
  - intros x Hx Hnx. rewrite Hp. destruct (decide (x = s)) as [->|Hne].
    + intros Hin. apply Hno, Hahead; [left|done].
    + apply Hbehind; [done|set_solver].
  - by rewrite Hi.
  - by rewrite Hp.
  - rewrite Hr. intros Hn0. apply Hrec. intros [->|?]%elem_of_cons; done.
Qed.

(** What the step of a snapshot does to the index. *)
Lemma index_step w oid s0 s rows stats m w1 stats' w' :
  forget_ok w → blob_elsewhere w oid → s0 ∈ uw_snapshots w → blob_row (se_id s0) oid ∈ uw_payloads w →
  index_state w oid s0 (s :: rows) stats w1 → forget_state w (s :: rows) w1 →
  snapshot_manifest_is (uw_store w1) s m → sm_snapshot_id m = se_id s → oc_inv (sw_codec (uw_store w1)) →
  row_outcome w1 stats s m stats' w' → index_state w oid s0 rows stats' w'.
Proof.
  intros Hok Hbe Hs0 Hrow0 Hix Hst Hm Hid Hc Hout.
  pose proof (fs_nodup _ _ _ Hst) as [Hnin _]%NoDup_cons. pose proof (fs_extends _ _ _ Hst) as He.
  assert (Hs : s ∈ uw_snapshots w) by (apply (fs_sub _ _ _ Hst); left).
  assert (Hsub : ∀ x, x ∈ rows → x ∈ uw_snapshots w) by (intros x Hx; apply (fs_sub _ _ _ Hst); by right).
  assert (Hm0 : ∀ m0, snapshot_manifest_is (uw_store w) s m0 → m0 = m).
  { intros m0 H'. eapply manifest_is_fun; [exact Hc|exact Hm|by eapply manifest_is_extends]. }
  assert (Htree : ∀ rt es es0, tree_at depth (uw_store w1) (rs_tree_key rt) es → tree_at depth (uw_store w) (rs_tree_key rt) es0 → es0 = es).
  { intros rt es es0 Ht Ht0. eapply (tree_at_fun (uw_store w1)); [exact Hc|exact Ht|by eapply tree_at_extends]. }
  assert (Hmw : snapshot_manifest_is (uw_store w) s m).
  { destruct (proj1 (Forall_forall _ _) (fk_rows _ Hok) s Hs) as (m0 & H' & _). by rewrite <-(Hm0 _ H'). }
  destruct Hout as [c _ Hrt|c rt es _ Hrt Ht Heq|st rt es rt' d n Hrt Ht Hne Hn _ _ es' m' _ _].
  - eapply index_skipped; [exact Hix| |done..]. intros Hin. destruct (be_forgets _ _ Hbe s Hs Hin) as (m0 & rt & es & H' & Hrt' & _).
    rewrite (Hm0 _ H') in Hrt'. congruence.
  - eapply index_skipped; [exact Hix| |done..]. intros Hin. destruct (be_forgets _ _ Hbe s Hs Hin) as (m0 & rt0 & es0 & H' & Hrt' & Ht' & Hne).
    rewrite (Hm0 _ H') in Hrt'. assert (rt0 = rt) as -> by congruence. rewrite (Htree _ _ _ Ht Ht') in Hne. done.
  - assert (Hroots : concat (sm_roots m').*2 = es'.*2).
    { unfold m', sm_with_root. simpl. rewrite (be_compact _ _ Hbe s m Hs Hmw). simpl. by rewrite app_nil_r. }
    assert (Hdiff : ∀ x, x ∈ uw_snapshots w → x ≠ s → se_id x ≠ sm_snapshot_id m').
    { intros x Hx Hxs Heq. apply Hxs. eapply NoDup_ids_inj; [apply (fk_ids _ Hok)|done|done|]. unfold m' in Heq. simpl in Heq. congruence. }
    assert (Hpay : ∀ row, row ∈ uw_payloads (rewritten w1 st (se_id s) m') ↔ row ∈ uw_payloads w1 ∧ py_snapshot_id row ≠ sm_snapshot_id m' ∨
      ∃ r, r ∈ es'.*2 ∧ payload_row_of (sm_snapshot_id m') r = Some row) by (intros row; rewrite <-Hroots; apply elem_of_payload_rows).
    destruct Hix as [Hahead Hbehind Hidx Hkinds Hrec]. split.
    + intros x Hx [[Hin _]|(r & _ & (Hi & _)%payload_row_of_Some)]%Hpay; [by apply Hahead; [right|]|].
      exfalso. apply (Hdiff x (Hsub x Hx)); [set_solver|done].
    + intros x Hx Hnx [[Hin Hxi]|(r & Hr & (Hi & _ & Hb)%payload_row_of_Some)]%Hpay.
      * revert Hin. apply Hbehind; [done|]. intros [->|?]%elem_of_cons; [|done]. apply Hxi. symmetry. exact Hid.
      * destruct (decide (x = s)) as [->|Hxs]; [|by apply (Hdiff x Hx Hxs)].
        destruct (Hb oid) as (key & Hk); [unfold blob_row; f_equal; exact Hi|].
        assert (Ht0 : tree_at depth (uw_store w) (rs_tree_key rt) es).
        { destruct (proj1 (Forall_forall _ _) (fk_rows _ Hok) s Hs) as (m0 & H' & _ & Hroot). rewrite (Hm0 _ H') in Hroot.
          destruct (Hroot rt Hrt) as (es0 & Ht0 & _). by rewrite (Htree _ _ _ Ht Ht0) in Ht0. }
        exact (be_unkept _ _ Hbe s m rt es r key Hs Hmw Hrt Ht0 Hr Hk).
    + intros x Hx. change (se_id x ∈ indexed_with (sm_snapshot_id m') (uw_indexed w1)). unfold indexed_with.
      rewrite elem_of_app, elem_of_filter_bool, negb_true_iff, String.eqb_neq, list_elem_of_singleton.
      destruct (decide (se_id x = sm_snapshot_id m')); [by right|left; split; [by apply Hidx|done]].
    + apply Forall_forall. intros row [[Hin _]|(r & _ & (_ & Hk & _)%payload_row_of_Some)]%Hpay; [|done].
      by apply (proj1 (Forall_forall _ _) Hkinds).
    + intros _. simpl. lia.
Qed.

(** C40. Untracking a path of one root makes [mj] forget where the blobs of every other
    root are.  The manifests of the store omit the records of their roots, so a rewritten
    snapshot is indexed with the records of the root alone and stays marked as indexed;
    when the index knew a blob of another root only from such snapshots, [mj untrack] and
    [mj root set] delete its row, whatever happens later in the call, although the
    snapshot still has the record. *)
Theorem forget_loses_other_roots w oid s0 m0 other rt0 es0 r0 key :
  forget_ok w → build_ignore root = Ok ignore → gn_remote (un_gc env) = Ok remote → blob_elsewhere w oid →
  s0 ∈ uw_snapshots w → blob_row (se_id s0) oid ∈ uw_payloads w →
  snapshot_manifest_is (uw_store w) s0 m0 → other ≠ rc_id root → bmap_get (sm_root_trees m0) other = Some rt0 →
  tree_at depth (uw_store w) (rs_tree_key rt0) es0 → r0 ∈ es0.*2 → payload_blob_ref (fr_payload r0) = Some (oid, key) →
  ∃ stats w1, forget_unmanaged_root_history env now root w = (Done stats, w1) ∧
    (∃ s1 m1, s1 ∈ uw_snapshots w1 ∧ se_id s1 = se_id s0 ∧ snapshot_manifest_is (uw_store w1) s1 m1 ∧
      bmap_get (sm_root_trees m1) other = Some rt0 ∧ tree_at depth (uw_store w1) (rs_tree_key rt0) es0) ∧
    ∀ row, row ∈ pw_blobs (uw_pack (forget_changed_root env false now root w).2) → be_oid row ≠ oid.
Proof.
  intros Hok Hig Hrem Hbe Hs0 Hrow0 Hm0 Hother Hrt0 Ht0 Hr0 Hr0key.
  destruct (forget_history_run w Hok Hig Hrem (index_state w oid s0)) as (stats & w1 & Hrun & _ & Hst & Hix).
  { intros rows Hperm. split; [done|intros s Hs []; by rewrite Hperm|apply Hbe|apply Hbe|]. intros []. by rewrite Hperm. }
  { intros. by eapply index_step. }
  exists stats, w1. split_and!; [done| |].
  - apply list_elem_of_lookup in Hs0 as (i & Hi). destruct (Forall2_lookup_l _ _ _ _ _ (fs_rows _ _ _ Hst) Hi) as (s1 & Hs1 & Hsame & _ & Hf).
    destruct (Hf (not_elem_of_nil _) m0 Hm0) as (m1 & Hm1 & _ & _ & _ & _ & Hroots & _).
    exists s1, m1. split_and!; [by eapply list_elem_of_lookup_2|apply Hsame|done|by rewrite Hroots|].
    eapply tree_at_extends; [apply Hst|done].
  - destruct (indexed_exact w1 (is_kinds _ _ _ _ _ _ Hix)) as (live & Hlive & Hblobs).
    { intros s (i & Hi)%list_elem_of_lookup. destruct (Forall2_lookup_r _ _ _ _ _ (fs_rows _ _ _ Hst) Hi) as (x & Hx & Hsame & _).
      rewrite (proj1 Hsame). apply (is_indexed _ _ _ _ _ _ Hix). by eapply list_elem_of_lookup_2. }
    intros row. unfold forget_changed_root. rewrite (bind_eq _ _ _ _ _ Hrun).
    rewrite (proj2 (Nat.ltb_lt _ _) (is_records _ _ _ _ _ _ Hix (not_elem_of_nil _))).
    unfold stm_bind. destruct (prune_unreferenced_metadata env w1) as [r w2] eqn:Hprune.
    intros Hrow Heq. destruct (Hblobs oid) as (s & (i & Hi)%list_elem_of_lookup & Hin).
    { rewrite <-Heq. eapply prune_metadata_blobs; [exact Hrem|exact Hlive|exact Hprune|]. by destruct r. }
    destruct (Forall2_lookup_r _ _ _ _ _ (fs_rows _ _ _ Hst) Hi) as (x & Hx & Hsame & _).
    rewrite (proj1 Hsame) in Hin. revert Hin. apply (is_behind _ _ _ _ _ _ Hix); [by eapply list_elem_of_lookup_2|apply not_elem_of_nil].
Qed.
End Kept.
