(* ===== verification/ForgetExample.v ===== *)
(** * Forgetting: a concrete store

    One snapshot of two roots, indexed; a path of the first root is untracked.  The store,
    the codec and the documents are those of [GcExample], the rules of paths those of
    [SnapshotExample]. *)

From S2P Require Import Prelude RStr BTree MachInt Core Util Config Policy Large Crypto Store Db Pack Restore LargeStore RemoteObjects Trees ObjectKeys PackStore RestoreJob Gc Prune SnapshotRules SnapshotExample Forget.

Local Open Scope Z_scope.

Module ForgetExample.
Import CryptoExample LargeStoreExample CoreExample PackStoreExample RemoteExample TreesExample GcExample PruneExample.

Definition fg_root : RootConfig := ex_root ["**"] [].
Definition fg_ignore : Gitignore := ignore_lines [].
Definition fg_record (path oid : string) : FileRecord := {|
  fr_root_id := "r"; fr_path := path; fr_kind := "file"; fr_size := 2; fr_mode := 420; fr_modified := None;
  fr_uid := None; fr_gid := None; fr_xattrs := []; fr_payload := Blob oid ("objects/blobs/" +:+ oid) |}.
Definition fg_home : entries_map := map (λ r, (fr_path r, r)) [fg_record "notes/todo.txt" "oa"; fg_record "plan.txt" "ob"].
Definition fg_work : entries_map := map (λ r, (fr_path r, r)) [fg_record "report.txt" "oc"].
Definition fg_tree (id : string) (es : entries_map) : TreeManifest := {|
  tm_version := 1; tm_tree_id := id; tm_root_id := id; tm_created_at := 0; tm_root_node := None;
  tm_subtree_nodes := []; tm_entries := es |}.
Definition fg_home_tree : RootSnapshot := {| rs_tree_id := "t1"; rs_tree_key := "objects/trees/cc/dd"; rs_file_count := 2 |}.
Definition fg_work_tree : RootSnapshot := {| rs_tree_id := "t2"; rs_tree_key := "objects/trees/ee/ff"; rs_file_count := 1 |}.
Definition fg_manifest : SnapshotManifest := gc_manifest [("home", fg_home_tree); ("work", fg_work_tree)] [].

Definition fg_objects : gmap string (list Z) :=
  <["objects/blobs/mm/m" := json_to_vec fg_manifest]>
  (<["objects/trees/cc/dd" := json_to_vec (fg_tree "t1" fg_home)]> {["objects/trees/ee/ff" := json_to_vec (fg_tree "t2" fg_work)]}).
Definition fg_world : PruneWorld := {|
  uw_gc := {|
    gw_pack := {|
      pw_store := sw_with_objects ex_empty fg_objects;
      pw_blobs := map (λ oid, BlobExport_new oid 2 ("objects/blobs/" +:+ oid)) ["oa"; "ob"; "oc"];
      pw_packs := ∅; pw_payloads := ["oa"; "ob"; "oc"]; pw_ops := [];
      pw_current := Some "snap-1"; pw_reader := None; pw_tick := 0 |};
    gw_snapshots := [gc_row] |};
  uw_refs := []; uw_roots := ["home"; "work"]; uw_pins := []; uw_indexed := ["snap-1"];
  uw_payloads := map (blob_row "snap-1") ["oa"; "ob"; "oc"] |}.

Lemma fg_manifest_is : snapshot_manifest_is (uw_store fg_world) gc_row fg_manifest.
Proof. apply (gc_holds (T := SnapshotManifest)); reflexivity. Qed.
Lemma fg_home_at d : tree_at d (uw_store fg_world) "objects/trees/cc/dd" fg_home.
Proof. exists (fg_tree "t1" fg_home). split; [|done]. apply gc_holds; reflexivity. Qed.
Lemma fg_work_at d : tree_at d (uw_store fg_world) "objects/trees/ee/ff" fg_work.
Proof. exists (fg_tree "t2" fg_work). split; [|done]. apply gc_holds; reflexivity. Qed.

(** Keys derived from hashes are none of those in the store. *)
Lemma fg_hashed base b : base ∈ [objects_base; trees_base; tree_nodes_base] → fg_objects !! object_key_of base (blake3_hex b) = None.
Proof.
  intros Hb. unfold fg_objects.
  apply elem_of_cons in Hb as [->|Hb]; [|apply elem_of_cons in Hb as [->| ->%list_elem_of_singleton]];
    rewrite !lookup_insert_ne, lookup_singleton_ne by discriminate; reflexivity.
Qed.

Lemma fg_inv : forget_inv (uw_store fg_world).
Proof.
  split; [split; [apply ex_key_inv|..]|]; intros v enc Hk; exfalso; revert Hk;
    change (sw_objects (uw_store fg_world)) with fg_objects; unfold manifest_key_of; rewrite fg_hashed; (done || set_solver).
Qed.

Lemma fg_by_path es : es = fg_home ∨ es = fg_work → by_path es.
Proof. intros [-> | ->]; (split; [repeat constructor|by repeat constructor]). Qed.

Lemma fg_ok : forget_ok prune_env fg_root fg_world.
Proof.
  split; [apply fg_inv|by apply NoDup_singleton|]. apply Forall_singleton. exists fg_manifest.
  split_and!; [apply fg_manifest_is|done|]. intros rt [= <-]. exists fg_home.
  split; [apply fg_home_at|apply fg_by_path; by left].
Qed.

Lemma fg_codec : oc_inv (sw_codec (uw_store fg_world)).
Proof. apply ti_codec, fi_trees, fg_inv. Qed.

Lemma fg_manifest_only m : snapshot_manifest_is (uw_store fg_world) gc_row m → m = fg_manifest.
Proof. apply (manifest_is_fun (uw_store fg_world) gc_row fg_manifest m fg_codec fg_manifest_is). Qed.

Lemma fg_home_only es : tree_at 3 (uw_store fg_world) "objects/trees/cc/dd" es → es = fg_home.
Proof. apply (tree_at_fun (uw_store fg_world) fg_codec 3 3), fg_home_at. Qed.

Lemma fg_elsewhere : blob_elsewhere prune_env fg_root fg_ignore fg_world "oc".
Proof.
  split.
  - intros s m ->%list_elem_of_singleton ->%fg_manifest_only. reflexivity.
  - intros s ->%list_elem_of_singleton. left.
  - repeat constructor.
  - intros s m rt es r key ->%list_elem_of_singleton ->%fg_manifest_only [= <-] ->%fg_home_only.
    intros ->%list_elem_of_singleton. discriminate.
  - intros s ->%list_elem_of_singleton _. exists fg_manifest, fg_home_tree, fg_home.
    split_and!; [apply fg_manifest_is|reflexivity|apply fg_home_at|]. vm_compute. discriminate.
Qed.

(** The untracked file is gone from the first root. *)
Lemma forget_keeps_managed_witness :
  ∃ stats w' s' m' rt' d, forget_unmanaged_root_history prune_env (λ _, 0) fg_root fg_world = (Done stats, w') ∧
    uw_snapshots w' = [s'] ∧ snapshot_manifest_is (uw_store w') s' m' ∧
    bmap_get (sm_root_trees m') "home" = Some rt' ∧
    tree_at d (uw_store w') (rs_tree_key rt') [("plan.txt", fg_record "plan.txt" "ob")] ∧
    bmap_get (sm_root_trees m') "work" = Some fg_work_tree.
Proof.
  destruct (forget_keeps_managed (H := ex_codec) prune_env) with (now := λ _ : nat, 0) (remote := @None Remote)
    (root := fg_root) (ignore := fg_ignore) (w := fg_world) as (stats & w' & Hrun & _ & Hrows).
  - intros n. apply ex_safe2. simpl. lia.
  - intros t. apply ex_safe2. simpl. lia.
  - intros m. apply ex_safe2. simpl. lia.
  - apply fg_ok.
  - reflexivity.
  - reflexivity.
  - apply Forall2_cons_inv_l in Hrows as (s' & rest & [_ Hf] & Hnil & Hsn). apply Forall2_nil_inv_l in Hnil as ->.
    destruct (Hf fg_manifest fg_manifest_is) as (m' & Hm' & _ & _ & _ & _ & Hother & Hroot).
    destruct (Hroot fg_home (fg_home_at 3)) as (rt' & d & Hrt' & Ht').
    exists stats, w', s', m', rt', d. split_and!; [exact Hrun|exact Hsn|exact Hm'|exact Hrt'|exact Ht'|].
    apply Hother. discriminate.
Defined.

(** The row of the blob of the second root is deleted with it. *)
Lemma forget_loses_other_roots_witness :
  "oc" ∈ map be_oid (pw_blobs (uw_pack fg_world)) ∧
  ("oc" ∉ map be_oid (pw_blobs (uw_pack (forget_changed_root prune_env false (λ _, 0) fg_root fg_world).2))).
Proof.
  split; [vm_compute; set_solver|].
  destruct (forget_loses_other_roots (H := ex_codec) prune_env) with (now := λ _ : nat, 0) (remote := @None Remote)
    (root := fg_root) (ignore := fg_ignore) (w := fg_world) (oid := "oc") (s0 := gc_row) (m0 := fg_manifest) (other := "work")
    (rt0 := fg_work_tree) (es0 := fg_work) (r0 := fg_record "report.txt" "oc") (key := "objects/blobs/oc")
    as (stats & w' & _ & _ & Hgone).
  - intros n. apply ex_safe2. simpl. lia.
  - intros t. apply ex_safe2. simpl. lia.
  - intros m. apply ex_safe2. simpl. lia.
  - apply fg_ok.
  - reflexivity.
  - reflexivity.
  - apply fg_elsewhere.
  - left.
  - vm_compute. set_solver.
  - apply fg_manifest_is.
  - discriminate.
  - reflexivity.
  - apply fg_work_at.
  - left.
  - reflexivity.
  - intros (row & Heq & Hin)%list_elem_of_fmap. exact (Hgone row Hin (eq_sym Heq)).
Defined.
End ForgetExample.
