(* ===== verification/Roots.v ===== *)
(** * Roots and their settings

    [src/root_state.rs]: the tables of roots and of tracked paths, and the copy of the
    roots in the configuration file, which [open_db] ([src/main.rs]) reads back into the
    table whenever the database is opened; and the commands of [mj root] that change
    them ([src/root_runtime.rs]).  The theorem shows that no command, however it ends,
    leaves settings that cannot be opened, and that the settings a command has reported
    as saved are those found at the next start. *)

From S2P Require Import Prelude RStr BTree MachInt Core Util Config Policy Large Crypto Store Db Pack Restore LargeStore RemoteObjects Trees ObjectKeys LinkFs PackStore RestoreJob Gc Prune SnapshotRules Forget.

Local Open Scope Z_scope.

(** ** Data *)

(** A root as the configuration file has it. *)
Record ConfigRoot := {
  cr_id : string; cr_name : option string; cr_path : string; cr_include : list string; cr_exclude : list string;
  cr_explicit_track : list string; cr_explicit_untrack : list string; cr_follow_symlinks : bool;
  cr_require_mount : bool; cr_status : option string; cr_degraded : option RootDegraded; cr_snapshot_mode : string;
  cr_pre_snapshot : option string; cr_post_snapshot : option string; cr_snapshot_source : option string;
  cr_application_plugin : option string; cr_large : option RootLargeConfig; cr_volatile : option RootVolatileConfig }.

Definition ConfigRoot_from (root : RootConfig) : ConfigRoot := {|
  cr_id := rc_id root; cr_name := Some (rc_name root); cr_path := rc_path root; cr_include := rc_include root;
  cr_exclude := rc_exclude root; cr_explicit_track := rc_explicit_track root;
  cr_explicit_untrack := rc_explicit_untrack root; cr_follow_symlinks := rc_follow_symlinks root;
  cr_require_mount := rc_require_mount root; cr_status := Some (rc_status root); cr_degraded := rc_degraded root;
  cr_snapshot_mode := rc_snapshot_mode root; cr_pre_snapshot := rc_pre_snapshot root;
  cr_post_snapshot := rc_post_snapshot root; cr_snapshot_source := rc_snapshot_source root;
  cr_application_plugin := rc_application_plugin root; cr_large := rc_large root; cr_volatile := rc_volatile root |}.

(** A row of [tracked_paths]; the key is the root and the path. *)
Record TrackedPath := {
  tp_status : string; tp_tracking_source : string; tp_first_seen_at : string; tp_last_seen_at : string;
  tp_untracked_at : option string }.

Definition validate_snapshot_mode (mode : string) : result unit string :=
  let? _ := SnapshotMode_parse mode in Ok tt.
Definition validate_large_chunking (chunking : string) : result unit string := validate_chunking chunking.
Definition default_root_status : string := "active".
Definition default_include : list string := ["**"].

(** The arguments of [mj root add] and [mj root set]; those for large and volatile files
    are in [RootAddArgs] and [RootSetArgs]. *)
Record RootAdd := {
  ad_id : string; ad_path : string; ad_name : option string; ad_include : list string; ad_exclude : list string;
  ad_presets : list string; ad_no_default_excludes : bool; ad_follow_symlinks : bool; ad_require_mount : bool;
  ad_snapshot_mode : string; ad_pre_snapshot : option string; ad_post_snapshot : option string;
  ad_snapshot_source : option string; ad_application_plugin : option string; ad_args : RootAddArgs }.
Record RootSet := {
  st_id : string; st_path : option string; st_name : option string; st_include : list string; st_clear_include : bool;
  st_exclude : list string; st_presets : list string; st_clear_exclude : bool; st_skip_history_rewrite : bool;
  st_follow_symlinks : bool; st_no_follow_symlinks : bool; st_require_mount : bool; st_no_require_mount : bool;
  st_snapshot_mode : option string; st_pre_snapshot : option string; st_clear_pre_snapshot : bool;
  st_post_snapshot : option string; st_clear_post_snapshot : bool; st_snapshot_source : option string;
  st_clear_snapshot_source : bool; st_application_plugin : option string; st_clear_application_plugin : bool;
  st_args : RootSetArgs }.

(** The commands of [mj root] that change something. *)
Inductive RootCommand :=
| RootAddCmd (args : RootAdd)
| RootSetCmd (args : RootSet)
| RootRemove (id : string)
| RootPause (id : string)
| RootResume (id : string)
| RootMarkDeleted (id : string).

(** ** Tracked paths *)

Abbreviation tracked_table := (gmap (string * string) TrackedPath).

Definition TRACKING_SOURCE_SNAPSHOT : string := "snapshot".
Definition TRACKING_SOURCE_EXPLICIT : string := "explicit".
Definition TRACKING_SOURCE_JOURNAL : string := "journal".

Definition mark_path_tracked_with_source (now root_id path source : string) (rows : tracked_table) : tracked_table :=
  <[(root_id, path) := match rows !! (root_id, path) with
    | None => {| tp_status := "tracked"; tp_tracking_source := source; tp_first_seen_at := now; tp_last_seen_at := now;
                 tp_untracked_at := None |}
    | Some row => {| tp_status := "tracked";
                     tp_tracking_source := if (tp_tracking_source row =? "explicit")%string then tp_tracking_source row
                                           else if (source =? "snapshot")%string then tp_tracking_source row else source;
                     tp_first_seen_at := tp_first_seen_at row; tp_last_seen_at := now; tp_untracked_at := None |}
    end]> rows.

Definition mark_path_tracked (now root_id path : string) := mark_path_tracked_with_source now root_id path TRACKING_SOURCE_SNAPSHOT.
Definition mark_path_explicitly_tracked (now root_id path : string) :=
  mark_path_tracked_with_source now root_id path TRACKING_SOURCE_EXPLICIT.
Definition mark_path_journal_tracked (now root_id path : string) :=
  mark_path_tracked_with_source now root_id path TRACKING_SOURCE_JOURNAL.

Definition mark_path_untracked (now root_id path : string) (rows : tracked_table) : tracked_table :=
  <[(root_id, path) := {| tp_status := "untracked"; tp_tracking_source := "explicit";
      tp_first_seen_at := match rows !! (root_id, path) with Some row => tp_first_seen_at row | None => now end;
      tp_last_seen_at := now; tp_untracked_at := Some now |}]> rows.

(** [select path from tracked_paths where root_id=?1 and ...] into a [BTreeSet] *)
Definition select_paths (keep : TrackedPath → bool) (root_id : string) (rows : tracked_table) : list string :=
  bset_of_list (map (λ kv, kv.1.2) (List.filter (λ kv, (kv.1.1 =? root_id)%string && keep kv.2) (map_to_list rows))).

Definition tracked_paths_for_root := select_paths (λ row, (tp_status row =? "tracked")%string).
Definition untracked_paths_for_root := select_paths (λ row, (tp_status row =? "untracked")%string).
Definition all_tracked_paths := tracked_paths_for_root.

Definition tombstone_tracked_paths_for_root (root : RootConfig) (rows : tracked_table) : list string :=
  let paths := select_paths (λ row, (tp_status row =? "tracked")%string
    && ((tp_tracking_source row =? "explicit")%string || (tp_tracking_source row =? "journal")%string)) (rc_id root) rows in
  let tracked := tracked_paths_for_root (rc_id root) rows in
  fold_left (λ paths explicit, if bset_contains tracked explicit then bset_insert explicit paths else paths)
    (rc_explicit_track root) paths.

Section Roots.
Context `{!ObjectCodec, !Chrono, !Blake3, !Zstd, !Serde TreeNodeManifest, !Serde TreeManifest, !Serde PackIndex,
          !Serde LargeManifest, !Serde SnapshotManifest, !Serde entries_map, !Serde (string * string * entries_map * nodes_map),
          !ManifestValue, !ValueRead, !WalkDir, !GlobSet, !IgnoreCrate}.

(** ** State *)

(** The store and its tables; the rows of [roots] by identifier, the tracked paths, and
    the roots of the configuration file. *)
Record RootsWorld := {
  rw_prune : PruneWorld;
  rw_roots : list (string * RootConfig);
  rw_tracked : tracked_table;
  rw_config : list ConfigRoot;
}.
Definition rw_with_prune (w : RootsWorld) p : RootsWorld :=
  {| rw_prune := p; rw_roots := rw_roots w; rw_tracked := rw_tracked w; rw_config := rw_config w |}.
Definition uw_with_roots (w : PruneWorld) r : PruneWorld :=
  {| uw_gc := uw_gc w; uw_refs := uw_refs w; uw_roots := r; uw_pins := uw_pins w; uw_indexed := uw_indexed w;
     uw_payloads := uw_payloads w |}.
(** [uw_roots] are the identifiers of the table. *)
Definition rw_with_roots (w : RootsWorld) (r : list (string * RootConfig)) : RootsWorld :=
  {| rw_prune := uw_with_roots (rw_prune w) r.*1; rw_roots := r; rw_tracked := rw_tracked w; rw_config := rw_config w |}.
Definition rw_with_tracked (w : RootsWorld) t : RootsWorld :=
  {| rw_prune := rw_prune w; rw_roots := rw_roots w; rw_tracked := t; rw_config := rw_config w |}.
Definition rw_with_config (w : RootsWorld) c : RootsWorld :=
  {| rw_prune := rw_prune w; rw_roots := rw_roots w; rw_tracked := rw_tracked w; rw_config := c |}.

(** The surroundings: those of pruning, clocks, the working directory, what is on disk,
    the directory of the configuration file, and whether that can be read and written. *)
Record RootsEnv := {
  on_prune : PruneEnv;
  on_now : nat → DateTime;
  on_clock : nat → string;
  on_cwd : result string string;
  on_exists : string → bool;
  on_is_dir : string → bool;
  on_config_dir : string;
  on_config_read : result unit string;
  on_config_write : result unit string;
}.
Context (env : RootsEnv).

Abbreviation roots_m := (stm RootsWorld).

Definition in_prune {A} (m : stm PruneWorld A) : roots_m A := λ w,
  let '(r, p) := m (rw_prune w) in (r, rw_with_prune w p).
Definition in_pack {A} (m : stm PackWorld A) : roots_m A := in_prune (in_gc (in_gc_pack m)).

Definition absolutize (path : string) : result string string :=
  if path_is_absolute path then Ok path else let? cwd := on_cwd env in Ok (path_join cwd path).

(** ** The table and the configuration file *)

Definition roots (w : RootsWorld) : list RootConfig := (rw_roots w).*2.
Definition root_by_id_optional (id : string) (w : RootsWorld) : option RootConfig := bmap_get (rw_roots w) id.
Definition root_by_id (id : string) : roots_m RootConfig :=
  let* root := stm_get (root_by_id_optional id) in stm_some ("unknown root: " +:+ id) root.

Definition config_relative_path (path : string) : string :=
  if path_is_absolute path then path else path_join (on_config_dir env) path.

Definition to_root_config (self : ConfigRoot) (existing : option RootConfig) : result RootConfig string :=
  let? _ := validate_snapshot_mode (cr_snapshot_mode self) in
  let? _ := match cr_large self ≫= rl_default_chunking with
            | Some chunking => validate_large_chunking chunking | None => Ok tt end in
  let? _ := match cr_volatile self with
            | Some volatile =>
              let? _ := validate_volatile_mode (rv_mode volatile) in
              match rv_patterns volatile with
              | [] => Err ("root " +:+ cr_id self +:+ " volatile policy requires at least one pattern")
              | _ => Ok tt
              end
            | None => Ok tt end in
  let snapshot_source := config_relative_path <$> cr_snapshot_source self in
  if bool_decide (is_Some snapshot_source) && negb (cr_snapshot_mode self =? "transactional")%string
  then Err ("root " +:+ cr_id self +:+ " snapshot_source requires snapshot_mode transactional") else
  Ok {| rc_id := cr_id self; rc_name := default (cr_id self) (cr_name self);
        rc_path := config_relative_path (cr_path self); rc_include := cr_include self; rc_exclude := cr_exclude self;
        rc_explicit_track := cr_explicit_track self; rc_explicit_untrack := cr_explicit_untrack self;
        rc_follow_symlinks := cr_follow_symlinks self; rc_require_mount := cr_require_mount self;
        rc_status := match cr_status self with
                     | Some status => status
                     | None => default default_root_status (rc_status <$> existing) end;
        rc_degraded := match cr_degraded self with
                       | Some degraded => Some degraded
                       | None => existing ≫= rc_degraded end;
        rc_snapshot_mode := cr_snapshot_mode self; rc_pre_snapshot := cr_pre_snapshot self;
        rc_post_snapshot := cr_post_snapshot self; rc_snapshot_source := snapshot_source;
        rc_application_plugin := cr_application_plugin self; rc_large := cr_large self;
        rc_volatile := cr_volatile self |}.

(** [insert ... on conflict(id) do update] *)
Definition upsert_root (root : RootConfig) (w : RootsWorld) : RootsWorld :=
  rw_with_roots w (bmap_insert (rc_id root) root (rw_roots w)).

Fixpoint sync_config_roots (config_roots : list ConfigRoot) : roots_m unit :=
  match config_roots with
  | [] => stm_ret tt
  | config_root :: rest =>
    let* existing := stm_get (root_by_id_optional (cr_id config_root)) in
    let* root := stm_ok (to_root_config config_root existing) in
    let* _ := stm_modify (upsert_root root) in
    sync_config_roots rest
  end.

Definition read_config : roots_m (list ConfigRoot) :=
  let* _ := stm_ok (on_config_read env) in stm_get rw_config.

Definition sync_roots_to_config : roots_m unit :=
  let* _ := read_config in
  let* rows := stm_get roots in
  let* _ := stm_ok (on_config_write env) in
  stm_modify (λ w, rw_with_config w (map ConfigRoot_from rows)).

(** The configuration file is there once [mj init] was run. *)
Definition open_db : roots_m unit :=
  let* config := read_config in sync_config_roots config.

(** [update roots set data_json=?2 where id=?1] *)
Definition save_root (root : RootConfig) (w : RootsWorld) : RootsWorld :=
  rw_with_roots w (map (λ kv, if (kv.1 =? rc_id root)%string then (kv.1, root) else kv) (rw_roots w)).

Definition rc_with_status (root : RootConfig) (status : string) (degraded : option RootDegraded) : RootConfig := {|
  rc_id := rc_id root; rc_name := rc_name root; rc_path := rc_path root;
  rc_include := rc_include root; rc_exclude := rc_exclude root;
  rc_explicit_track := rc_explicit_track root; rc_explicit_untrack := rc_explicit_untrack root;
  rc_follow_symlinks := rc_follow_symlinks root; rc_require_mount := rc_require_mount root;
  rc_status := status; rc_degraded := degraded;
  rc_snapshot_mode := rc_snapshot_mode root; rc_pre_snapshot := rc_pre_snapshot root;
  rc_post_snapshot := rc_post_snapshot root; rc_snapshot_source := rc_snapshot_source root;
  rc_application_plugin := rc_application_plugin root; rc_large := rc_large root;
  rc_volatile := rc_volatile root |}.

Definition update_root_status (id status : string) : roots_m unit :=
  let* root := root_by_id id in
  stm_modify (save_root (rc_with_status root status (if (status =? "active")%string then None else rc_degraded root))).

Definition update_root_degraded (id status : string) (degraded : RootDegraded) : roots_m unit :=
  let* root := root_by_id id in
  stm_modify (save_root (rc_with_status root status (Some degraded))).

(** ** [mj root] *)

Definition record_root_op (kind id : string) : roots_m unit := in_pack (record_op_row kind None None (Some id)).

Definition absolutize_opt (path : option string) : result (option string) string :=
  match path with Some p => let? p := absolutize p in Ok (Some p) | None => Ok None end.

Definition source_needs_transactional (source : option string) (mode : string) : bool :=
  bool_decide (is_Some source) && negb (mode =? "transactional")%string.

Definition new_root (args : RootAdd) (path : string) : result RootConfig string :=
  let? _ := validate_snapshot_mode (ad_snapshot_mode args) in
  let? _ := match ra_large_chunking (ad_args args) with
            | Some chunking => validate_large_chunking chunking | None => Ok tt end in
  let? snapshot_source := absolutize_opt (ad_snapshot_source args) in
  if source_needs_transactional snapshot_source (ad_snapshot_mode args)
  then Err "--snapshot-source requires --snapshot-mode transactional" else
  let exclude := (if ad_no_default_excludes args then [] else apply_default_root_excludes []) ++ ad_exclude args in
  let? exclude := apply_root_presets exclude (ad_presets args) in
  let large := root_large_override (ad_args args) in
  let? volatile := root_volatile_override (ad_args args) in
  Ok {| rc_id := ad_id args; rc_name := default (ad_id args) (ad_name args); rc_path := path;
        rc_include := match ad_include args with [] => default_include | include => include end;
        rc_exclude := exclude; rc_explicit_track := []; rc_explicit_untrack := [];
        rc_follow_symlinks := ad_follow_symlinks args; rc_require_mount := ad_require_mount args;
        rc_status := "active"; rc_degraded := None; rc_snapshot_mode := ad_snapshot_mode args;
        rc_pre_snapshot := ad_pre_snapshot args; rc_post_snapshot := ad_post_snapshot args;
        rc_snapshot_source := snapshot_source; rc_application_plugin := ad_application_plugin args;
        rc_large := large; rc_volatile := volatile |}.

Definition root_add (args : RootAdd) : roots_m unit :=
  let* path := stm_ok (absolutize (ad_path args)) in
  if negb (on_exists env path) then stm_fail ("root path does not exist: " +:+ path) else
  let* existing := stm_get (root_by_id_optional (ad_id args)) in
  if bool_decide (is_Some existing)
  then stm_fail ("root already exists: " +:+ ad_id args +:+ "; use `mj root set` to change it") else
  let* root := stm_ok (new_root args path) in
  let* _ := stm_modify (upsert_root root) in
  let* _ := sync_roots_to_config in
  record_root_op "root-added" (rc_id root).

(** A field that is cleared, set, or left. *)
Definition clear_set {A} (clear : bool) (new old : option A) : option A :=
  set_if new (if clear then None else old).

(** A pair of flags of which at most one may be given. *)
Definition set_flag (yes no : bool) (error : string) (old : bool) : result bool string :=
  if yes && no then Err error else Ok (if no then false else if yes then true else old).

Definition changed_root (args : RootSet) (root : RootConfig) : result RootConfig string :=
  let? path := match st_path args with
               | Some path => let? path := absolutize path in
                              if negb (on_exists env path) then Err ("root path does not exist: " +:+ path) else Ok path
               | None => Ok (rc_path root) end in
  let name := default (rc_name root) (st_name args) in
  let include := if st_clear_include args then default_include else rc_include root in
  let include := match st_include args with [] => include | new => new end in
  let exclude := if st_clear_exclude args then [] else rc_exclude root in
  let? exclude_additions := apply_root_presets (st_exclude args) (st_presets args) in
  let exclude := dedup_patterns (exclude ++ exclude_additions) in
  let? follow_symlinks := set_flag (st_follow_symlinks args) (st_no_follow_symlinks args)
    "use either --follow-symlinks or --no-follow-symlinks, not both" (rc_follow_symlinks root) in
  let? require_mount := set_flag (st_require_mount args) (st_no_require_mount args)
    "use either --require-mount or --no-require-mount, not both" (rc_require_mount root) in
  let? snapshot_mode := match st_snapshot_mode args with
                        | Some mode => let? _ := validate_snapshot_mode mode in Ok mode
                        | None => Ok (rc_snapshot_mode root) end in
  let pre_snapshot := clear_set (st_clear_pre_snapshot args) (st_pre_snapshot args) (rc_pre_snapshot root) in
  let post_snapshot := clear_set (st_clear_post_snapshot args) (st_post_snapshot args) (rc_post_snapshot root) in
  let? new_source := absolutize_opt (st_snapshot_source args) in
  let snapshot_source := clear_set (st_clear_snapshot_source args) new_source (rc_snapshot_source root) in
  let application_plugin :=
    clear_set (st_clear_application_plugin args) (st_application_plugin args) (rc_application_plugin root) in
  if source_needs_transactional snapshot_source snapshot_mode
  then Err "--snapshot-source requires snapshot_mode transactional" else
  let root := {| rc_id := rc_id root; rc_name := name; rc_path := path; rc_include := include; rc_exclude := exclude;
    rc_explicit_track := rc_explicit_track root; rc_explicit_untrack := rc_explicit_untrack root;
    rc_follow_symlinks := follow_symlinks; rc_require_mount := require_mount; rc_status := rc_status root;
    rc_degraded := rc_degraded root; rc_snapshot_mode := snapshot_mode; rc_pre_snapshot := pre_snapshot;
    rc_post_snapshot := post_snapshot; rc_snapshot_source := snapshot_source;
    rc_application_plugin := application_plugin; rc_large := rc_large root; rc_volatile := rc_volatile root |} in
  let? root := apply_root_large_set root (st_args args) in
  apply_root_volatile_set root (st_args args).

Definition root_set (args : RootSet) : roots_m unit :=
  let* root := root_by_id (st_id args) in
  let* root := stm_ok (changed_root args root) in
  let* forgotten := (if st_skip_history_rewrite args then stm_ret fu_default
                     else in_prune (forget_unmanaged_root_history (on_prune env) (on_now env) root)) in
  let* _ := stm_modify (save_root root) in
  let* _ := sync_roots_to_config in
  let* _ := (if negb (st_skip_history_rewrite args) && (0 <? fu_records forgotten)%nat
             then let* _ := in_prune (prune_unreferenced_metadata (on_prune env)) in stm_ret tt
             else stm_ret tt) in
  record_root_op "config-change" (rc_id root).

Definition root_remove (id : string) : roots_m unit :=
  let* _ := root_by_id id in
  let* _ := stm_modify (λ w, rw_with_roots w (List.filter (λ kv, negb (kv.1 =? id)%string) (rw_roots w))) in
  let* _ := sync_roots_to_config in
  record_root_op "root-removed" id.

Definition root_status_cmd (id status kind : string) : roots_m unit :=
  let* _ := update_root_status id status in
  let* _ := sync_roots_to_config in
  record_root_op kind id.

Definition root_cmd (command : RootCommand) : roots_m unit :=
  let* _ := open_db in
  match command with
  | RootAddCmd args => root_add args
  | RootSetCmd args => root_set args
  | RootRemove id => root_remove id
  | RootPause id => root_status_cmd id "paused" "root-paused"
  | RootResume id => root_status_cmd id "active" "root-resumed"
  | RootMarkDeleted id => root_status_cmd id "deleted" "root-mark-deleted"
  end.
End Roots.

(** ** Settings that can be opened *)

Definition large_ok (l : option RootLargeConfig) : Prop :=
  ∀ chunking, l ≫= rl_default_chunking = Some chunking → validate_large_chunking chunking = Ok tt.

(** What the configuration accepts, with paths that do not depend on where it is. *)
Record root_ok (root : RootConfig) : Prop := {
  ro_mode : validate_snapshot_mode (rc_snapshot_mode root) = Ok tt;
  ro_large : large_ok (rc_large root);
  ro_volatile : volatile_ok (rc_volatile root);
  ro_path : path_is_absolute (rc_path root) = true;
  ro_source : ∀ p, rc_snapshot_source root = Some p → path_is_absolute p = true ∧ rc_snapshot_mode root = "transactional";
}.

Lemma apply_root_large_set_ok root args root' :
  large_ok (rc_large root) → apply_root_large_set root args = Ok root' → large_ok (rc_large root').
Proof.
  intros Hok. unfold apply_root_large_set. intros ([] & Hv & Hr)%result_bind_Ok.
  assert (Hl : large_ok (if rs_clear_large_policy args then None else rc_large root)) by (by destruct (rs_clear_large_policy args)).
  destruct (negb _); injection Hr as <-; simpl; [done|]. intros chunking. simpl.
  destruct (rs_large_chunking args) as [c|]; simpl; [by intros [= <-]|]. intros Hc. apply Hl.
  destruct (if rs_clear_large_policy args then None else rc_large root); [done|]. simpl in Hc. discriminate.
Qed.

Lemma root_large_override_ok args :
  (∀ c, ra_large_chunking args = Some c → validate_large_chunking c = Ok tt) → large_ok (root_large_override args).
Proof. intros Hc chunking. unfold root_large_override. destruct (_ && _); [done|]. simpl. apply Hc. Qed.

Lemma root_volatile_override_ok args v : root_volatile_override args = Ok v → volatile_ok v.
Proof.
  unfold root_volatile_override. intros ([] & Hm & Hv)%result_bind_Ok. destruct (ra_volatile args) as [|p ps].
  - destruct (negb _); [done|]. by injection Hv as <-.
  - injection Hv as <-. intros c [= <-]. done.
Qed.

Section Settings.
Context `{!ObjectCodec, !Chrono, !Blake3, !Zstd, !Serde TreeNodeManifest, !Serde TreeManifest, !Serde PackIndex,
          !Serde LargeManifest, !Serde SnapshotManifest, !Serde entries_map, !Serde (string * string * entries_map * nodes_map),
          !ManifestValue, !ValueRead, !WalkDir, !GlobSet, !IgnoreCrate}.
Context (env : RootsEnv).
Hypothesis cwd_absolute : ∀ cwd, on_cwd env = Ok cwd → path_is_absolute cwd = true.

Lemma absolutize_ok path p : absolutize env path = Ok p → path_is_absolute p = true.
Proof.
  unfold absolutize. destruct (path_is_absolute path) eqn:Ha; [by intros [= <-]|].
  intros (cwd & Hcwd & Hp)%result_bind_Ok. injection Hp as <-. apply cwd_absolute in Hcwd.
  unfold path_join. rewrite Ha. unfold path_is_absolute in *. apply starts_with_true in Hcwd as [r ->].
  destruct (_ || _); rewrite <-!str_app_assoc; by apply starts_with_true; eexists.
Qed.

Lemma absolutize_opt_ok path source : absolutize_opt env path = Ok source → ∀ p, source = Some p → path_is_absolute p = true.
Proof.
  unfold absolutize_opt. destruct path as [path|]; [|by intros [= <-]]. intros (p & Hp & Hs)%result_bind_Ok.
  injection Hs as <-. intros ? [= <-]. by eapply absolutize_ok.
Qed.

Lemma source_checked source mode : source_needs_transactional source mode = false → ∀ p, source = Some p → mode = "transactional".
Proof.
  unfold source_needs_transactional. intros Hs p ->. rewrite bool_decide_true in Hs by done. simpl in Hs.
  by apply negb_false_iff, String.eqb_eq in Hs.
Qed.

Lemma new_root_ok args path root : path_is_absolute path = true → new_root env args path = Ok root → root_ok root.
Proof.
  intros Hp. unfold new_root. intros ([] & Hm & ([] & Hl & (source & Hs & Hr)%result_bind_Ok)%result_bind_Ok)%result_bind_Ok.
  destruct (source_needs_transactional _ _) eqn:Hc; [done|].
  apply result_bind_Ok in Hr as (exclude & _ & (volatile & Hv & Hr)%result_bind_Ok). injection Hr as <-. split; simpl; [done| |..].
  - apply root_large_override_ok. intros c Hc'. by rewrite Hc' in Hl.
  - by eapply root_volatile_override_ok.
  - done.
  - intros p ->. split; [by eapply absolutize_opt_ok|by eapply source_checked].
Qed.

Lemma apply_root_large_set_fields root args root' : apply_root_large_set root args = Ok root' → root' = rc_with_large root (rc_large root').
Proof. unfold apply_root_large_set. intros ([] & _ & Hr)%result_bind_Ok. destruct (negb _); by injection Hr as <-. Qed.
Lemma apply_root_volatile_set_fields root args root' :
  apply_root_volatile_set root args = Ok root' → root' = rc_with_volatile root (rc_volatile root').
Proof. unfold apply_root_volatile_set. intros (v & _ & Hr)%result_bind_Ok. by injection Hr as <-. Qed.

Lemma changed_root_ok args root root' :
  root_ok root → changed_root env args root = Ok root' → root_ok root' ∧ rc_id root' = rc_id root.
Proof.
  intros [Hm Hl Hv Hp Hs]. unfold changed_root.
  intros (path & Hpath & (add & _ & (fs & _ & (rm & _ & (mode & Hmode & (src & Hsrc & Hr)
    %result_bind_Ok)%result_bind_Ok)%result_bind_Ok)%result_bind_Ok)%result_bind_Ok)%result_bind_Ok.
  destruct (source_needs_transactional _ _) eqn:Hc; [done|]. apply result_bind_Ok in Hr as (root1 & H1' & H2').
  pose proof H1' as Hl1. apply apply_root_large_set_ok in Hl1; [|exact Hl]. apply apply_root_large_set_fields in H1' as E1. rewrite E1 in H2'.
  pose proof H2' as Hv2. apply apply_root_volatile_set_ok in Hv2; [|exact Hv]. apply apply_root_volatile_set_fields in H2' as E2. rewrite E2.
  assert (Hpath' : path_is_absolute path = true).
  { destruct (st_path args) as [p|]; [|by injection Hpath as <-]. apply result_bind_Ok in Hpath as (p' & Hp' & Hif).
    destruct (negb _); [done|]. injection Hif as <-. by eapply absolutize_ok. }
  assert (Hmode' : validate_snapshot_mode mode = Ok tt).
  { destruct (st_snapshot_mode args) as [m|]; [|by injection Hmode as <-]. apply result_bind_Ok in Hmode as ([] & Hok & Hif).
    by injection Hif as <-. }
  split; [|done]. split; simpl; [done|done|done|done|]. intros p Hp'. split; [|by eapply source_checked].
  unfold clear_set, set_if in Hp'. destruct src as [q|].
  - injection Hp' as <-. by eapply absolutize_opt_ok.
  - destruct (st_clear_snapshot_source args); [done|]. by apply Hs in Hp' as [? _].
Qed.

(** ** The state *)

Record roots_valid (w : RootsWorld) : Prop := {
  vs_sorted : bsorted (rw_roots w).*1;
  vs_rows : Forall (λ kv, rc_id kv.2 = kv.1 ∧ root_ok kv.2) (rw_roots w);
  vs_config : Forall (λ c, ∃ root, root_ok root ∧ c = ConfigRoot_from root) (rw_config w);
}.
(** The configuration file has the roots of the table. *)
Definition synced (w : RootsWorld) : Prop := rw_config w = map ConfigRoot_from (roots w).

(** What the configuration file says of a root is read back as it was. *)
Lemma to_root_config_from root existing :
  root_ok root → to_root_config env (ConfigRoot_from root) existing
    = Ok (rc_with_status root (rc_status root) (match rc_degraded root with Some d => Some d | None => existing ≫= rc_degraded end)).
Proof.
  intros [Hm Hl Hv Hp Hs]. unfold to_root_config, ConfigRoot_from. cbn -[is_Some_dec].
  rewrite Hm. cbn [result_bind].
  assert (Hlarge : match rc_large root ≫= rl_default_chunking with Some c => validate_large_chunking c | None => Ok tt end = Ok tt).
  { destruct (rc_large root ≫= _) as [c|] eqn:Hc; [by apply Hl|done]. }
  rewrite Hlarge. cbn [result_bind].
  assert (Hvol : match rc_volatile root with
    | Some v => let? _ := validate_volatile_mode (rv_mode v) in
                match rv_patterns v with [] => Err ("root " +:+ rc_id root +:+ " volatile policy requires at least one pattern") | _ => Ok tt end
    | None => Ok tt end = Ok tt).
  { destruct (rc_volatile root) as [v|] eqn:Hv'; [|done]. destruct (Hv v eq_refl) as [Hne ->]. simpl. by destruct (rv_patterns v). }
  rewrite Hvol. cbn [result_bind].
  assert (Hsrc : config_relative_path env <$> rc_snapshot_source root = rc_snapshot_source root).
  { destruct (rc_snapshot_source root) as [p|] eqn:Hp'; [|done]. simpl. destruct (Hs p eq_refl) as [Ha _].
    unfold config_relative_path. by rewrite Ha. }
  rewrite Hsrc. destruct (bool_decide _ && _) eqn:Hc.
  { exfalso. apply andb_true_iff in Hc as [[p Hp']%bool_decide_eq_true Hne]. destruct (Hs p Hp') as [_ Ht]. by rewrite Ht in Hne. }
  unfold config_relative_path. by rewrite Hp.
Qed.

Lemma root_ok_status root status degraded : root_ok root → root_ok (rc_with_status root status degraded).
Proof. intros []. by split. Qed.

Lemma valid_prune w p : roots_valid w → roots_valid (rw_with_prune w p).
Proof. intros []. by split. Qed.
Lemma synced_prune w p : synced w → synced (rw_with_prune w p).
Proof. done. Qed.

Lemma bmap_insert_same {V} k (v : V) m : bsorted m.*1 → bmap_get m k = Some v → bmap_insert k v m = m.
Proof.
  intros Hs Hg. destruct (bmap_insert_replace k v v m Hs Hg) as (rest & Hm & Hi).
  apply bmap_sorted_unique; [by apply bmap_insert_sorted|done|]. by rewrite Hi, Hm.
Qed.
Lemma elem_of_bmap_insert {V} k (v : V) m kv : kv ∈ bmap_insert k v m → kv = (k, v) ∨ kv ∈ m.
Proof.
  induction m as [|[j x] m IH]; simpl; [by intros ->%list_elem_of_singleton; left|].
  destruct (String.compare k j) eqn:E.
  - apply String.compare_eq_iff in E as ->. intros [->|Hin]%elem_of_cons; [by left|]. right. by right.
  - intros [->|Hin]%elem_of_cons; [by left|by right].
  - intros [->|Hin]%elem_of_cons; [right; left|]. destruct (IH Hin) as [->|?]; [by left|right; by right].
Qed.

Lemma valid_upsert w root : roots_valid w → root_ok root → roots_valid (upsert_root root w).
Proof.
  intros [Hs Hr Hc] Hok. split; [by apply bmap_insert_sorted| |done]. rewrite Forall_forall in Hr |- *.
  intros kv [->|Hin]%elem_of_bmap_insert; [done|by apply Hr].
Qed.

Lemma save_root_keys root w : (rw_roots (save_root root w)).*1 = (rw_roots w).*1.
Proof.
  unfold save_root. cbn [rw_roots rw_with_roots]. induction (rw_roots w) as [|[k r] m IH]; [done|].
  cbn. f_equal; [by destruct (k =? rc_id root)%string|exact IH].
Qed.

Lemma valid_save w root : roots_valid w → root_ok root → roots_valid (save_root root w).
Proof.
  intros [Hs Hr Hc] Hok. split; [by rewrite save_root_keys| |done]. simpl. rewrite Forall_map. eapply Forall_impl; [exact Hr|].
  intros [k r] [Hk Hrok]. simpl in *. destruct (String.eqb_spec k (rc_id root)) as [->|]; by split.
Qed.

Lemma valid_get w id root : roots_valid w → root_by_id_optional id w = Some root → rc_id root = id ∧ root_ok root.
Proof.
  intros [Hs Hr _] Hg. apply bmap_get_elem_of in Hg; [|done]. by apply (proj1 (Forall_forall _ _) Hr) in Hg.
Qed.

(** Opening the database accepts valid settings and keeps those that are in step. *)
Lemma sync_config_run w cs :
  roots_valid w → Forall (λ c, ∃ root, root_ok root ∧ c = ConfigRoot_from root) cs →
  ∃ w', sync_config_roots env cs w = (Done tt, w') ∧ roots_valid w' ∧ rw_config w' = rw_config w ∧
    ((∀ root, root ∈ cs → ∃ r, root = ConfigRoot_from r ∧ root_by_id_optional (rc_id r) w = Some r) → rw_roots w' = rw_roots w).
Proof.
  intros Hv Hcs. revert w Hv. induction Hcs as [|c cs (root & Hok & ->) _ IH]; intros w Hv; [by exists w|].
  set (existing := root_by_id_optional (rc_id root) w).
  set (root' := rc_with_status root (rc_status root) (match rc_degraded root with Some d => Some d | None => existing ≫= rc_degraded end)).
  destruct (IH (upsert_root root' w)) as (w' & Hrun & Hv' & Hc' & Hsame); [by apply valid_upsert, root_ok_status|].
  exists w'. split_and!; [|done|by rewrite Hc'|].
  - simpl. unfold stm_bind, stm_get. change (cr_id (ConfigRoot_from root)) with (rc_id root). fold existing.
    rewrite to_root_config_from by done. exact Hrun.
  - intros Hall. destruct (Hall (ConfigRoot_from root)) as (r & Heq & Hg); [left|].
    assert (r = root) as ->.
    { destruct r, root. unfold ConfigRoot_from in Heq. simpl in Heq. injection Heq as -> -> -> -> -> -> -> -> -> -> -> -> -> -> -> -> -> ->. done. }
    assert (Hroot' : root' = root).
    { unfold root', existing. rewrite Hg. destruct root as [? ? ? ? ? ? ? ? ? ? d]. by destruct d. }
    rewrite Hsame; [simpl; rewrite Hroot'; by apply bmap_insert_same; [apply Hv|]|].
    intros c Hin. destruct (Hall c) as (r & -> & Hr); [by right|]. exists r. split; [done|].
    unfold root_by_id_optional in *. simpl. rewrite Hroot', bmap_insert_same; [done|apply Hv|done].
Qed.

Definition stays_valid {A} (m : stm RootsWorld A) : Prop := triple roots_valid m (λ _, roots_valid) roots_valid.
(** The last steps of a command: the configuration is in step when they are done. *)
Definition ends_synced {A} (m : stm RootsWorld A) : Prop :=
  triple roots_valid m (λ _ w, roots_valid w ∧ synced w) roots_valid.

Lemma stays_bind {A B} (m : stm RootsWorld A) (k : A → stm RootsWorld B) :
  stays_valid m → (∀ a, ends_synced (k a)) → ends_synced (stm_bind m k).
Proof. intros Hm Hk. by eapply triple_bind. Qed.
Lemma stays_lift {A} (o : outcome A string) : stays_valid (stm_lift o).
Proof. intros w r w' Hv [= <- <-]. by destruct o. Qed.
Lemma stays_get {A} (g : RootsWorld → A) : stays_valid (stm_get g).
Proof. by intros w r w' Hv [= <- <-]. Qed.
Lemma stays_in_prune {A} (m : stm PruneWorld A) : stays_valid (in_prune m).
Proof.
  intros w r w' Hv. unfold in_prune. destruct (m (rw_prune w)) as [r0 p]. intros [= <- <-].
  assert (roots_valid (rw_with_prune w p)) by by apply valid_prune. by destruct r0.
Qed.
Lemma fails_synced {A} e : ends_synced (stm_fail (A := A) e).
Proof. by intros w r w' Hv [= <- <-]. Qed.

Lemma record_ends_synced kind id :
  triple (λ w, roots_valid w ∧ synced w) (record_root_op kind id) (λ _ w, roots_valid w ∧ synced w) roots_valid.
Proof. intros w r w' [Hv Hs] [= <- <-]. split; [by apply valid_prune|done]. Qed.

Lemma sync_ends_synced : ends_synced (sync_roots_to_config env).
Proof.
  intros w r w' Hv. unfold sync_roots_to_config, read_config, stm_bind, stm_ok, stm_lift.
  destruct (on_config_read env) as [[]|e]; simpl; [|by intros [= <- <-]].
  destruct (on_config_write env) as [[]|e]; simpl; [|by intros [= <- <-]]. intros [= <- <-]. split; [|done].
  destruct Hv as [Hs Hr Hc]. split; [done..|]. simpl. rewrite Forall_map. unfold roots. rewrite Forall_fmap. eapply Forall_impl; [exact Hr|].
  intros [k root] [_ Hok]. by exists root.
Qed.

(** The table is saved, the configuration written, the operation recorded. *)
Lemma save_sync_record f kind id :
  (∀ w, roots_valid w → roots_valid (f w)) →
  ends_synced (let* _ := stm_modify f in let* _ := sync_roots_to_config env in record_root_op kind id).
Proof.
  intros Hf. apply stays_bind; [intros w r w' Hv [= <- <-]; by apply Hf|]. intros _.
  eapply triple_bind; [apply sync_ends_synced|]. intros ?. apply record_ends_synced.
Qed.

Lemma root_by_id_stays {A} id (k : RootConfig → stm RootsWorld A) :
  (∀ root, rc_id root = id → root_ok root → ends_synced (k root)) → ends_synced (stm_bind (root_by_id id) k).
Proof.
  intros Hk w r w' Hv. unfold root_by_id, stm_bind, stm_get.
  destruct (root_by_id_optional id w) as [root|] eqn:Hg; simpl; [|by intros [= <- <-]].
  destruct (valid_get w id root Hv Hg) as [Hid Hok]. by apply Hk.
Qed.

Lemma open_db_stays : stays_valid (open_db env).
Proof.
  intros w r w' Hv. unfold open_db, read_config, stm_bind, stm_ok, stm_lift.
  destruct (on_config_read env) as [[]|e]; simpl; [|by intros [= <- <-]].
  destruct (sync_config_run w (rw_config w) Hv (vs_config _ Hv)) as (w1 & Hrun & Hv1 & _). rewrite Hrun. by intros [= <- <-].
Qed.

Lemma root_add_synced args : ends_synced (root_add env args).
Proof.
  unfold root_add. intros w r w' Hv. unfold stm_bind at 1, stm_ok, stm_lift.
  destruct (absolutize env (ad_path args)) as [path|e] eqn:Hp; simpl; [|by intros [= <- <-]].
  apply absolutize_ok in Hp. destruct (negb _); [by intros [= <- <-]|]. unfold stm_bind at 1, stm_get.
  destruct (bool_decide _); [by intros [= <- <-]|]. unfold stm_bind at 1.
  destruct (new_root env args path) as [root|e] eqn:Hr; simpl; [|by intros [= <- <-]].
  apply new_root_ok in Hr; [|done]. revert Hv. apply save_sync_record. intros w1 Hv1. by apply valid_upsert.
Qed.

Lemma root_set_synced args : ends_synced (root_set env args).
Proof.
  apply root_by_id_stays. intros root _ Hok. intros w r w' Hv. unfold stm_bind at 1, stm_ok, stm_lift.
  destruct (changed_root env args root) as [root'|e] eqn:Hr; simpl; [|by intros [= <- <-]].
  destruct (changed_root_ok _ _ _ Hok Hr) as [Hok' _]. revert w r w' Hv.
  apply stays_bind; [destruct (st_skip_history_rewrite args); [by intros w r w' Hv [= <- <-]|apply stays_in_prune]|]. intros forgotten.
  apply stays_bind; [intros w r w' Hv [= <- <-]; by apply valid_save|]. intros _.
  eapply triple_bind; [apply sync_ends_synced|]. intros ?.
  apply (triple_bind _ _ _ (λ _ w, roots_valid w ∧ synced w)); [|intros ?; apply record_ends_synced].
  destruct (_ && _); [|by intros w r w' Hv [= <- <-]].
  apply (triple_bind _ _ _ (λ _ w, roots_valid w ∧ synced w)); [|intros ?; by intros w r w' Hv [= <- <-]].
  intros w r w' [Hv Hs]. unfold in_prune. destruct (prune_unreferenced_metadata _ _) as [r0 p]. intros [= <- <-].
  assert (roots_valid (rw_with_prune w p)) by by apply valid_prune. by destruct r0.
Qed.

Lemma root_remove_synced id : ends_synced (root_remove env id).
Proof.
  apply root_by_id_stays. intros _ _ _. apply save_sync_record. intros w [Hs Hr Hc]. split; [| |done]; simpl.
  - clear Hr. induction (rw_roots w) as [|[k r] m IH]; cbn [List.filter fst]; [done|]. apply StronglySorted_cons in Hs as [Hk Hs].
    destruct (k =? id)%string; cbn [negb]; [by apply IH|]. cbn. constructor; [by apply IH|].
    rewrite Forall_forall in Hk |- *. intros x (y & -> & Hy%elem_of_filter_bool)%list_elem_of_fmap. apply Hk, list_elem_of_fmap. exists y. naive_solver.
  - rewrite Forall_forall in Hr |- *. intros kv [Hin _]%elem_of_filter_bool. by apply Hr.
Qed.

Lemma root_status_synced id status kind : ends_synced (root_status_cmd env id status kind).
Proof.
  intros w r w' Hv. unfold root_status_cmd, update_root_status.
  assert (Hassoc : ∀ (k : stm RootsWorld unit), ends_synced k →
    ends_synced (stm_bind (let* root := root_by_id id in
      stm_modify (save_root (rc_with_status root status (if (status =? "active")%string then None else rc_degraded root)))) (λ _, k))).
  { intros k Hk w1 r1 w1' Hv1. unfold root_by_id, stm_bind, stm_get.
    destruct (root_by_id_optional id w1) as [root|] eqn:Hg; simpl; [|by intros [= <- <-]].
    destruct (valid_get _ _ _ Hv1 Hg) as [_ Hok]. apply Hk. by apply valid_save, root_ok_status. }
  revert w r w' Hv. apply Hassoc. eapply triple_bind; [apply sync_ends_synced|]. intros ?. apply record_ends_synced.
Qed.

(** C11. Settings survive: no command of [mj root], however it ends, leaves settings that
    [mj] refuses at its next start, in the table or in the configuration file; and when a
    command has succeeded, opening the database again, which reads the roots back from the
    configuration file, leaves the table of roots as the command saved it. *)
Theorem root_settings_survive command w r w' :
  roots_valid w → root_cmd env command w = (r, w') → on_config_read env = Ok tt →
  roots_valid w' ∧ ∃ w'', open_db env w' = (Done tt, w'') ∧ roots_valid w'' ∧ (r = Done tt → rw_roots w'' = rw_roots w').
Proof.
  intros Hv Hrun Hread.
  assert (Hcmd : ends_synced (root_cmd env command)).
  { apply stays_bind; [apply open_db_stays|]. intros _. destruct command;
      auto using root_add_synced, root_set_synced, root_remove_synced, root_status_synced. }
  specialize (Hcmd w r w' Hv Hrun).
  assert (Hv' : roots_valid w') by (destruct r; naive_solver). split; [done|].
  destruct (sync_config_run w' (rw_config w') Hv' (vs_config _ Hv')) as (w'' & Hopen & Hv'' & _ & Hsame).
  exists w''. split_and!; [|done|].
  - unfold open_db, read_config, stm_bind, stm_ok, stm_lift. rewrite Hread. exact Hopen.
  - intros ->. destruct Hcmd as [_ Hs]. apply Hsame. rewrite Hs. intros c (root & -> & Hin)%list_elem_of_fmap. exists root. split; [done|].
    apply list_elem_of_fmap in Hin as ([k r'] & -> & Hin). destruct (proj1 (Forall_forall _ _) (vs_rows _ Hv') _ Hin) as [Hid _].
    simpl in *. apply bmap_get_elem_of; [apply Hv'|]. by rewrite Hid.
Qed.
End Settings.
