(* ===== verification/Tracking.v ===== *)
(** * Tracking and untracking paths

    [mj track] and [mj untrack], [update_explicit_tracking] of [src/root_runtime.rs]: the
    paths of the command are resolved against the roots, the lists of explicitly tracked
    and untracked paths of each root and the table of tracked paths are changed, what is
    no longer managed is taken out of the stored snapshots ([Forget]), all in one
    transaction, and the configuration file is written ([Roots]). *)

From S2P Require Import Prelude RStr BTree MachInt Core Util Config Policy Large Crypto Store Db Pack Restore LargeStore RemoteObjects Trees ObjectKeys LinkFs PackStore RestoreJob Gc Prune SnapshotRules SnapshotReach Forget Roots.

Local Open Scope Z_scope.

Record PathTrackArgs := {
  pt_root : option string; pt_paths : list string; pt_path_file : option string; pt_stdin : bool; pt_excluded : bool;
  pt_dry_run : bool; pt_summary : bool; pt_quiet : bool; pt_json : bool; pt_continue_on_history_error : bool }.

(** ** Paths *)

(** [str::lines] *)
Definition str_lines (content : string) : list string :=
  let parts := split "010"%char content in
  let parts := match last parts with Some line => if is_empty line then removelast parts else parts | None => parts end in
  map (λ line, match strip_suffix (String "013" "") line with Some l => l | None => line end) parts.

Definition lines_to_paths (content : string) : list string :=
  List.filter (λ line, negb (is_empty line) && negb (starts_with line "#")) (map trim (str_lines content)).

(** The order of paths: component by component. *)
Definition component_rank (c : Component) : nat :=
  match c with RootDir => 0 | CurDir => 1 | ParentDir => 2 | Normal _ => 3 end.
Definition component_compare (a b : Component) : comparison :=
  match a, b with
  | Normal x, Normal y => String.compare x y
  | _, _ => Nat.compare (component_rank a) (component_rank b)
  end.
Fixpoint components_compare (a b : list Component) : comparison :=
  match a, b with
  | [], [] => Eq
  | [], _ :: _ => Lt
  | _ :: _, [] => Gt
  | x :: a', y :: b' => match component_compare x y with Eq => components_compare a' b' | c => c end
  end.
Fixpoint insert_path (p : string) (ps : list string) : list string :=
  match ps with
  | [] => [p]
  | q :: ps' => match components_compare (path_components p) (path_components q) with
                | Gt => q :: insert_path p ps' | _ => p :: ps end
  end.
Definition sort_paths (ps : list string) : list string := fold_right insert_path [] ps.
(** [Vec::dedup]: paths are equal when their components are. *)
Fixpoint dedup_paths (ps : list string) : list string :=
  match ps with
  | [] => []
  | p :: ps' => match dedup_paths ps' with
                | q :: rest => if bool_decide (path_components p = path_components q) then p :: rest else p :: q :: rest
                | [] => [p] end
  end.

(** On the components of the path. *)
Definition normalize_tracking_path (path : list Component) : result string string :=
  if bool_decide (path = []) then Err "cannot track or untrack a root directory itself" else
  let rel := trim_matches is_slash (join "/" (map component_str path)) in
  if is_empty rel || (rel =? ".")%string || existsb (String.eqb "..") (split slash rel)
  then Err ("invalid root-relative path: " +:+ rel) else Ok rel.

(** The match with the most components, the first of those. *)
Fixpoint longest_match (best : option (RootConfig * list Component)) (matches : list (RootConfig * list Component))
    : option (RootConfig * list Component) :=
  match matches with
  | [] => best
  | (root, rel) :: rest =>
    match best with
    | Some (b, _) => if (length (path_components (rc_path b)) <? length (path_components (rc_path root)))%nat
                     then longest_match (Some (root, rel)) rest else longest_match best rest
    | None => longest_match (Some (root, rel)) rest
    end
  end.

(** ** Lists of paths of a root *)

Definition push_pattern (patterns : list string) (path : string) : list string :=
  dedup_patterns (if existsb (String.eqb path) patterns then patterns else patterns ++ [path]).
Definition remove_pattern (patterns : list string) (path : string) : list string :=
  List.filter (λ existing, negb (existing =? path)%string) patterns.
Definition bulk_remove_patterns (patterns paths : list string) : list string :=
  List.filter (λ existing, negb (bset_contains paths existing)) patterns.

Definition rc_with_explicit (root : RootConfig) (track untrack : list string) : RootConfig := {|
  rc_id := rc_id root; rc_name := rc_name root; rc_path := rc_path root;
  rc_include := rc_include root; rc_exclude := rc_exclude root;
  rc_explicit_track := track; rc_explicit_untrack := untrack;
  rc_follow_symlinks := rc_follow_symlinks root; rc_require_mount := rc_require_mount root;
  rc_status := rc_status root; rc_degraded := rc_degraded root;
  rc_snapshot_mode := rc_snapshot_mode root; rc_pre_snapshot := rc_pre_snapshot root;
  rc_post_snapshot := rc_post_snapshot root; rc_snapshot_source := rc_snapshot_source root;
  rc_application_plugin := rc_application_plugin root; rc_large := rc_large root;
  rc_volatile := rc_volatile root |}.

Section Tracking.
Context `{!ObjectCodec, !Chrono, !Blake3, !Zstd, !Serde TreeNodeManifest, !Serde TreeManifest, !Serde PackIndex,
          !Serde LargeManifest, !Serde SnapshotManifest, !Serde entries_map, !Serde (string * string * entries_map * nodes_map),
          !ManifestValue, !ValueRead, !WalkDir, !GlobSet, !IgnoreCrate}.
Context (env : RootsEnv).
(** The files of paths and the standard input. *)
Context (read_to_string : string → result string string) (stdin : result string string).

Abbreviation roots_m := (stm RootsWorld).

Definition prune_redundant_excluded_untrack_patterns (root : RootConfig) : result RootConfig string :=
  match rc_explicit_untrack root with
  | [] => Ok root
  | patterns =>
    let root_without_explicit_untrack := rc_with_explicit root (rc_explicit_track root) [] in
    let? ignore := build_ignore root_without_explicit_untrack in
    Ok (rc_with_explicit root (rc_explicit_track root) (List.filter (λ pattern,
      root_record_is_managed root_without_explicit_untrack ignore pattern (on_is_dir env (path_join (rc_path root) pattern)))
      patterns))
  end.

Definition is_active (root : RootConfig) : bool := (rc_status root =? "active")%string.

Definition collect_path_tracking_inputs (args : PathTrackArgs) (roots : list RootConfig) (tracked : tracked_table)
    : result (list string) string :=
  let? from_file := match pt_path_file args with
                    | Some path_file => let? content := read_to_string path_file in Ok (lines_to_paths content)
                    | None => Ok [] end in
  let? from_stdin := (if pt_stdin args then let? content := stdin in Ok (lines_to_paths content) else Ok []) in
  let? excluded :=
    (if pt_excluded args then
       let root_id := default "" (pt_root args) in
       match List.find (λ root, (rc_id root =? root_id)%string && is_active root) roots with
       | None => Err ("unknown active root: " +:+ root_id)
       | Some root =>
         let? ignore := build_ignore root in
         Ok (List.filter (λ rel, negb (root_record_is_managed root ignore rel (on_is_dir env (path_join (rc_path root) rel))))
              (all_tracked_paths (rc_id root) tracked))
       end
     else Ok []) in
  Ok (dedup_paths (sort_paths (pt_paths args ++ from_file ++ from_stdin ++ excluded))).

Definition resolve_path_tracking_target (roots : list RootConfig) (root_id : option string) (input : string)
    : result (RootConfig * string) string :=
  let candidates := List.filter (λ root, is_active root
    && match root_id with Some id => (id =? rc_id root)%string | None => true end) roots in
  if bool_decide (candidates = []) then Err ("no active root matches " +:+ default "(current path)" root_id) else
  match root_id with
  | Some id =>
    match List.find (λ root, (rc_id root =? id)%string) candidates with
    | None => Err ("unknown root: " +:+ id)
    | Some root =>
      let? rel := (if path_is_absolute input then
                     match strip_components (path_components (rc_path root)) (path_components input) with
                     | Some rel => Ok rel
                     | None => Err ("path " +:+ input +:+ " is not inside root " +:+ rc_id root)
                     end
                   else Ok (path_components input)) in
      let? rel := normalize_tracking_path rel in
      Ok (root, rel)
    end
  | None =>
    let? abs := absolutize env input in
    let matches := omap (λ root, pair root <$> strip_components (path_components (rc_path root)) (path_components abs)) candidates in
    match longest_match None matches with
    | None => Err ("path " +:+ input +:+ " is not inside a configured root; use -r/--root for root-relative paths")
    | Some (root, rel) => let? rel := normalize_tracking_path rel in Ok (root, rel)
    end
  end.

(** ** The paths of a command *)

(** The roots changed so far, the tracked paths, the paths untracked by root, and the
    counts of the summary; [ts_clock] counts the readings of the clock. *)
Record TrackState := {
  ts_changed : list (string * RootConfig);
  ts_tracked : tracked_table;
  ts_untracked : list (string * list string);
  ts_clock : nat;
  ts_would_untrack : nat;
  ts_failed : nat;
}.

Definition track_input (args : PathTrackArgs) (track : bool) (configured_roots : list RootConfig) (st : TrackState)
    (input : string) : TrackState :=
  match resolve_path_tracking_target configured_roots (pt_root args) input with
  | Err _ =>
    {| ts_changed := ts_changed st; ts_tracked := ts_tracked st; ts_untracked := ts_untracked st;
       ts_clock := ts_clock st; ts_would_untrack := ts_would_untrack st; ts_failed := S (ts_failed st) |}
  | Ok (root, rel) =>
    let id := rc_id root in
    let root := default root (bmap_get (ts_changed st) id) in
    let now := on_clock env (ts_clock st) in
    if track then
      {| ts_changed := bmap_insert id (rc_with_explicit root (push_pattern (rc_explicit_track root) rel)
                         (remove_pattern (rc_explicit_untrack root) rel)) (ts_changed st);
         ts_tracked := mark_path_explicitly_tracked now (rc_id root) rel (ts_tracked st); ts_untracked := ts_untracked st;
         ts_clock := S (ts_clock st); ts_would_untrack := ts_would_untrack st; ts_failed := ts_failed st |}
    else if pt_dry_run args then
      {| ts_changed := bmap_insert id root (ts_changed st); ts_tracked := ts_tracked st; ts_untracked := ts_untracked st;
         ts_clock := ts_clock st; ts_would_untrack := S (ts_would_untrack st); ts_failed := ts_failed st |}
    else
      {| ts_changed := bmap_insert id (rc_with_explicit root (remove_pattern (rc_explicit_track root) rel)
                         (if pt_excluded args then rc_explicit_untrack root else push_pattern (rc_explicit_untrack root) rel))
                         (ts_changed st);
         ts_tracked := mark_path_untracked now (rc_id root) rel (ts_tracked st);
         ts_untracked := bmap_insert (rc_id root) (bset_insert rel (default [] (bmap_get (ts_untracked st) (rc_id root))))
                           (ts_untracked st);
         ts_clock := S (ts_clock st); ts_would_untrack := ts_would_untrack st; ts_failed := ts_failed st |}
  end.

Definition bulk_remove_untracked (untracked : list (string * list string)) (changed : list (string * RootConfig))
    : list (string * RootConfig) :=
  map (λ kv, (kv.1, match bmap_get untracked kv.1 with
    | Some paths => rc_with_explicit kv.2 (rc_explicit_track kv.2) (bulk_remove_patterns (rc_explicit_untrack kv.2) paths)
    | None => kv.2 end)) changed.

Fixpoint prune_redundant_patterns (changed : list (string * RootConfig)) : result (list (string * RootConfig)) string :=
  match changed with
  | [] => Ok []
  | (id, root) :: rest =>
    let? root := prune_redundant_excluded_untrack_patterns root in
    let? rest := prune_redundant_patterns rest in
    Ok ((id, root) :: rest)
  end.

Definition tidy_excluded (args : PathTrackArgs) (st : TrackState) : result (list (string * RootConfig)) string :=
  if pt_excluded args && negb (pt_dry_run args)
  then prune_redundant_patterns (bulk_remove_untracked (ts_untracked st) (ts_changed st))
  else Ok (ts_changed st).

(** One changed root: its history, then its row. *)
Definition save_changed (args : PathTrackArgs) (track : bool) (root : RootConfig) : roots_m unit :=
  let* _ := (if track || pt_dry_run args then stm_ret tt
             else in_prune (forget_changed_root (on_prune env) (pt_continue_on_history_error args) (on_now env) root)) in
  if pt_dry_run args then stm_ret tt else stm_modify (save_root root).

Definition rw_rolled_back (before after : RootsWorld) : RootsWorld :=
  {| rw_prune := rolled_back (rw_prune before) (rw_prune after); rw_roots := rw_roots before;
     rw_tracked := rw_tracked before; rw_config := rw_config before |}.
Definition rw_transaction {A} (m : roots_m A) : roots_m A := λ w,
  match m w with
  | (Done a, w') => (Done a, w')
  | (r, w') => (r, rw_rolled_back w w')
  end.

(** The transaction: how many paths could not be resolved. *)
Definition track_transaction (args : PathTrackArgs) (track : bool) (configured_roots : list RootConfig) (inputs : list string)
    : roots_m nat :=
  let* tracked := stm_get rw_tracked in
  let st := fold_left (track_input args track configured_roots) inputs
    {| ts_changed := []; ts_tracked := tracked; ts_untracked := []; ts_clock := 0; ts_would_untrack := 0; ts_failed := 0 |} in
  let* _ := stm_modify (λ w, rw_with_tracked w (ts_tracked st)) in
  let* changed := stm_ok (tidy_excluded args st) in
  let* _ := stm_iter (λ kv, save_changed args track kv.2) changed in
  let* _ := (if pt_dry_run args then stm_ret tt
             else in_pack (record_op_row (if track then "path-tracked" else "path-untracked") None None (pt_root args))) in
  stm_ret (ts_failed st).

Definition update_explicit_tracking (args : PathTrackArgs) (track : bool) : roots_m unit :=
  let* _ := open_db env in
  let* configured_roots := stm_get roots in
  if track && (pt_excluded args || pt_dry_run args || pt_summary args || pt_quiet args || pt_json args)
  then stm_fail "track does not support --excluded, --dry-run, --summary, --quiet, or --json" else
  if pt_excluded args && bool_decide (pt_root args = None) then stm_fail "--excluded requires -r/--root" else
  let* tracked := stm_get rw_tracked in
  let* inputs := stm_ok (collect_path_tracking_inputs args configured_roots tracked) in
  if bool_decide (inputs = []) then (if pt_excluded args then stm_ret tt else stm_fail "no paths supplied") else
  let* failed := (if pt_dry_run args then track_transaction args track configured_roots inputs
                  else let* failed := rw_transaction (track_transaction args track configured_roots inputs) in
                       let* _ := sync_roots_to_config env in
                       stm_ret failed) in
  if (0 <? failed)%nat then stm_fail (nat_str failed +:+ " path operation(s) failed") else stm_ret tt.

Definition track_cmd (args : PathTrackArgs) := update_explicit_tracking args true.
Definition untrack_cmd (args : PathTrackArgs) := update_explicit_tracking args false.
End Tracking.

(** ** What a command leaves *)

(** The paths an entry of a list names: the path and what is below it, for an entry that is
    not blank. *)
Definition names_path (entry p : string) : Prop :=
  let pattern := trim_matches is_slash (trim entry) in let p := trim_matches is_slash (path_to_slash p) in
  pattern ≠ "" ∧ (pattern = p ∨ below pattern p = true).

(** The path is in the list of the command and not in the other. *)
Definition settled (track : bool) (rel : string) (root : RootConfig) : Prop :=
  if track then rel ∈ rc_explicit_track root ∧ rel ∉ rc_explicit_untrack root
  else rel ∈ rc_explicit_untrack root ∧ rel ∉ rc_explicit_track root.
Definition settled_status (track : bool) : string := if track then "tracked" else "untracked".

Lemma elem_of_push_pattern ps p x : x ∈ push_pattern ps p ↔ (x ∈ ps ∨ x = p) ∧ x ≠ "".
Proof.
  unfold push_pattern. rewrite (proj2 (dedup_patterns_spec _)). destruct (existsb (String.eqb p) ps) eqn:Hp.
  - apply existsb_elem in Hp. set_solver.
  - set_solver.
Qed.
Lemma elem_of_remove_pattern ps p x : x ∈ remove_pattern ps p ↔ x ∈ ps ∧ x ≠ p.
Proof. unfold remove_pattern. by rewrite elem_of_filter_bool, negb_true_iff, String.eqb_neq. Qed.

Lemma longest_match_elem best matches root rel :
  longest_match best matches = Some (root, rel) → best = Some (root, rel) ∨ (root, rel) ∈ matches.
Proof.
  revert best. induction matches as [|[r p] matches IH]; intros best; simpl; [by left|].
  destruct best as [[b q]|]; [destruct (_ <? _)%nat|]; intros [Hb|Hin]%IH; (by left) || (right; (by right) || (injection Hb as -> ->; left)).
Qed.

Section Settled.
Context `{!ObjectCodec, !Chrono, !Blake3, !Zstd, !Serde TreeNodeManifest, !Serde TreeManifest, !Serde PackIndex,
          !Serde LargeManifest, !Serde SnapshotManifest, !Serde entries_map, !Serde (string * string * entries_map * nodes_map),
          !ManifestValue, !ValueRead, !WalkDir, !GlobSet, !IgnoreCrate}.

Lemma covers_names ps entry p : entry ∈ ps → names_path entry p → path_list_covers ps p = true.
Proof.
  intros Hin [Hne Hp]. unfold path_list_covers. destruct ps as [|x ps]; [by apply elem_of_nil in Hin|].
  apply existsb_elem_of. exists entry. split; [done|]. apply andb_true_iff. split.
  - destruct (trim_matches is_slash (trim entry)); done.
  - apply orb_true_iff. left. apply orb_true_iff. rewrite String.eqb_eq. exact Hp.
Qed.

(** What the lists of a root decide: an untracked path is not managed, nor anything below
    it; a tracked one is, unless something else in the list untracks it. *)
Lemma settled_managed track rel root ignore p is_dir :
  settled track rel root → names_path rel p → (track = true → explicitly_untracked root p = false) →
  root_record_is_managed root ignore p is_dir = track.
Proof.
  intros Hs Hp Hu. unfold root_record_is_managed. destruct track; destruct Hs as [Hin _].
  - rewrite (Hu eq_refl). unfold explicitly_tracked. by rewrite (covers_names _ _ _ Hin Hp).
  - unfold explicitly_untracked. by rewrite (covers_names _ _ _ Hin Hp).
Qed.

Context (env : RootsEnv) (args : PathTrackArgs) (track : bool).
Hypothesis not_excluded : pt_excluded args = false.
Hypothesis not_dry : pt_dry_run args = false.

Lemma resolve_known rs id input root rel :
  resolve_path_tracking_target env rs id input = Ok (root, rel) → root ∈ rs ∧ rel ≠ "".
Proof.
  assert (Hrel : ∀ p s, normalize_tracking_path p = Ok s → s ≠ "").
  { intros p s. unfold normalize_tracking_path. destruct (bool_decide _); [done|]. destruct (is_empty _) eqn:He; [done|].
    destruct (_ || _); [done|]. intros [= <-] Heq. by rewrite Heq in He. }
  unfold resolve_path_tracking_target. set (f := λ root, _). destruct (bool_decide _); [done|]. destruct id as [id|].
  - destruct (List.find _ _) as [r|] eqn:Hf; [|done]. apply find_some in Hf as [[Hin _]%filter_In _].
    intros (cs & _ & (s & Hs & [= <- <-])%result_bind_Ok)%result_bind_Ok. split; [by apply list_elem_of_In|by eapply Hrel].
  - intros (abs & _ & Hm)%result_bind_Ok. destruct (longest_match _ _) as [[r cs]|] eqn:Hl; [|done].
    apply result_bind_Ok in Hm as (s & Hs & [= <- <-]). split; [|by eapply Hrel].
    apply longest_match_elem in Hl as [[=]|(x & Hx & Hp)%list_elem_of_omap]. destruct (strip_components _ _); [|done].
    injection Hp as -> _. by apply elem_of_filter_bool in Hx as [? _].
Qed.

Context (rs : list RootConfig).
Abbreviation target := (resolve_path_tracking_target env rs (pt_root args)).

(** After the paths [done]: what was found is in its lists and in the table, the changed
    roots differ in their lists only, and nothing else was touched. *)
Record tracked_state (tracked : tracked_table) (seen : list string) (st : TrackState) : Prop := {
  tk_failed : ts_failed st = 0%nat → ∀ input, input ∈ seen → ∃ root rel, target input = Ok (root, rel);
  tk_settled input root rel : input ∈ seen → target input = Ok (root, rel) →
    (∃ r, bmap_get (ts_changed st) (rc_id root) = Some r ∧ settled track rel r) ∧
    tp_status <$> ts_tracked st !! (rc_id root, rel) = Some (settled_status track);
  tk_sorted : bsorted (ts_changed st).*1;
  tk_changed id r : bmap_get (ts_changed st) id = Some r → ∃ r0 t u, r0 ∈ rs ∧ rc_id r0 = id ∧ r = rc_with_explicit r0 t u;
  tk_named id : is_Some (bmap_get (ts_changed st) id) → ∃ input root rel, input ∈ seen ∧ target input = Ok (root, rel) ∧ rc_id root = id;
  tk_rest id p : (∀ input root, input ∈ seen → target input = Ok (root, p) → rc_id root ≠ id) →
    ts_tracked st !! (id, p) = tracked !! (id, p);
}.

(** The root with one more path in its lists. *)
Definition with_path (r : RootConfig) (p : string) : RootConfig :=
  if track then rc_with_explicit r (push_pattern (rc_explicit_track r) p) (remove_pattern (rc_explicit_untrack r) p)
  else rc_with_explicit r (remove_pattern (rc_explicit_track r) p) (push_pattern (rc_explicit_untrack r) p).

(** One more path of a root keeps what was settled. *)
Lemma settled_more rel p r : p ≠ "" → rel ≠ "" → settled track rel r ∨ rel = p → settled track rel (with_path r p).
Proof.
  unfold settled, with_path. intros Hp Hr Hs. destruct track; simpl; rewrite elem_of_push_pattern, elem_of_remove_pattern; naive_solver.
Qed.

Lemma track_input_found st input root rel :
  target input = Ok (root, rel) → (∀ r, bmap_get (ts_changed st) (rc_id root) = Some r → rc_id r = rc_id root) →
  let st' := track_input env args track rs st input in ∃ row, tp_status row = settled_status track ∧
    ts_changed st' = bmap_insert (rc_id root) (with_path (default root (bmap_get (ts_changed st) (rc_id root))) rel) (ts_changed st) ∧
    ts_tracked st' = <[(rc_id root, rel) := row]> (ts_tracked st) ∧ ts_failed st' = ts_failed st.
Proof.
  intros Ht Hid. cbv zeta. unfold track_input, with_path. rewrite Ht, not_dry, not_excluded.
  assert (Hd : rc_id (default root (bmap_get (ts_changed st) (rc_id root))) = rc_id root).
  { destruct (bmap_get _ _) as [r|]; [by apply Hid|done]. }
  destruct track; cbn [ts_changed ts_tracked ts_failed]; rewrite Hd; eexists; (split; [|split; [done|split; [reflexivity|done]]]); [|done].
  by destruct (ts_tracked st !! _).
Qed.

Lemma track_input_unknown st input e :
  target input = Err e → let st' := track_input env args track rs st input in
    ts_changed st' = ts_changed st ∧ ts_tracked st' = ts_tracked st ∧ ts_failed st' = S (ts_failed st).
Proof. intros Ht. unfold track_input. by rewrite Ht. Qed.

Lemma tracked_state_step tracked seen st input :
  tracked_state tracked seen st → tracked_state tracked (seen ++ [input]) (track_input env args track rs st input).
Proof.
  intros [Hf Hset Hsort Hch Hn Hrest]. destruct (target input) as [[root rel]|e] eqn:Ht.
  - destruct (track_input_found st input root rel Ht) as (row & Hrow & Ec & Etr & Ef).
    { intros r (r0 & t & u & _ & Hid & ->)%Hch. exact Hid. }
    destruct (resolve_known _ _ _ _ _ Ht) as [Hroot Hrel]. set (r0 := default root _) in Ec.
    split; rewrite ?Ec, ?Etr, ?Ef.
    + intros Hz i [Hi| ->%list_elem_of_singleton]%elem_of_app; [by apply Hf|by eauto].
    + intros i ri reli Hi Hti. pose proof (resolve_known _ _ _ _ _ Hti) as [_ Hreli]. split.
      * rewrite bmap_get_insert. destruct (String.eqb_spec (rc_id ri) (rc_id root)) as [Heq|Hne].
        { eexists. split; [done|]. apply settled_more; [done|done|].
          apply elem_of_app in Hi as [Hi| ->%list_elem_of_singleton]; [|right; congruence].
          destruct (Hset _ _ _ Hi Hti) as [(r & Hg & Hs) _]. left. unfold r0. by rewrite <-Heq, Hg. }
        apply elem_of_app in Hi as [Hi| ->%list_elem_of_singleton]; [by apply (Hset _ _ _ Hi Hti)|congruence].
      * destruct (decide ((rc_id ri, reli) = (rc_id root, rel))) as [->|Hne]; [by rewrite lookup_insert_eq; simpl; f_equal|].
        rewrite lookup_insert_ne by done.
        apply elem_of_app in Hi as [Hi| ->%list_elem_of_singleton]; [by apply (Hset _ _ _ Hi Hti)|congruence].
    + by apply bmap_insert_sorted.
    + intros id r. rewrite bmap_get_insert. destruct (String.eqb_spec id (rc_id root)) as [->|]; [|by apply Hch].
      intros [= <-]. unfold r0, with_path. destruct (bmap_get (ts_changed st) (rc_id root)) as [r|] eqn:Hg.
      * destruct (Hch _ _ Hg) as (r1 & t & u & Hin & Hid & ->). destruct track; by eexists r1, _, _.
      * destruct track; by eexists root, _, _.
    + intros id. rewrite bmap_get_insert. destruct (String.eqb_spec id (rc_id root)) as [->|]; intros Hs.
      * exists input, root, rel. set_solver.
      * destruct (Hn id Hs) as (i & ri & reli & ? & ? & ?). exists i, ri, reli. set_solver.
    + intros id p Hno. rewrite lookup_insert_ne; [apply Hrest; intros; eapply Hno; [|done]; set_solver|].
      intros [= <- <-]. by eapply Hno; [|exact Ht|]; [set_solver|].
  - destruct (track_input_unknown st input e Ht) as (Ec & Etr & Ef). split; rewrite ?Ec, ?Etr, ?Ef; [done| |done|done| |].
    + intros i ri reli [Hi| ->%list_elem_of_singleton]%elem_of_app Hti; [by apply (Hset _ _ _ Hi Hti)|congruence].
    + intros id Hs. destruct (Hn id Hs) as (i & ri & reli & ? & ? & ?). exists i, ri, reli. set_solver.
    + intros id p Hno. apply Hrest. intros. eapply Hno; [|done]. set_solver.
Qed.

Lemma tracked_state_all tracked inputs :
  tracked_state tracked inputs (fold_left (track_input env args track rs) inputs
    {| ts_changed := []; ts_tracked := tracked; ts_untracked := []; ts_clock := 0; ts_would_untrack := 0; ts_failed := 0 |}).
Proof.
  assert (Hgo : ∀ rest seen st, tracked_state tracked seen st →
    tracked_state tracked (seen ++ rest) (fold_left (track_input env args track rs) rest st)).
  { induction rest as [|i rest IH]; intros seen st Hst; simpl; [by rewrite app_nil_r|].
    rewrite cons_middle, app_assoc. by apply IH, tracked_state_step. }
  apply (Hgo inputs []). split; simpl; [set_solver|set_solver|constructor|done|by intros id [r [=]]|done].
Qed.

(** ** Saving *)

Lemma bmap_get_save root w id :
  root_by_id_optional id (save_root root w) = if (id =? rc_id root)%string
    then (λ _, root) <$> root_by_id_optional id w else root_by_id_optional id w.
Proof.
  unfold root_by_id_optional, save_root. cbn [rw_roots rw_with_roots]. induction (rw_roots w) as [|[k r] m IH]; [by destruct (_ =? _)%string|].
  cbn [map fst]. destruct (String.eqb_spec k (rc_id root)) as [->|Hk]; cbn [bmap_get].
  - by destruct (String.eqb_spec id (rc_id root)) as [->|].
  - destruct (String.eqb_spec id k) as [->|]; [by apply String.eqb_neq in Hk as ->|exact IH].
Qed.

(** What the history does to a root is not seen in the tables of roots and paths. *)
Lemma save_changed_run root w r w' :
  save_changed env args track root w = (r, w') → r = Done tt →
  ∃ p, w' = save_root root (rw_with_prune w p).
Proof.
  unfold save_changed. rewrite not_dry, orb_false_r. intros Hrun ->. apply stm_bind_Done in Hrun as ([] & w1 & H1' & [= <-]).
  destruct track; [injection H1' as <-; exists (rw_prune w); by destruct w|]. unfold in_prune in H1'.
  destruct (forget_changed_root _ _ _ _ _) as [r0 p]. injection H1' as -> <-. by exists p.
Qed.

Lemma root_ok_explicit root t u : root_ok root → root_ok (rc_with_explicit root t u).
Proof. intros []. by split. Qed.

Lemma save_all_run changed w w' :
  bsorted changed.*1 → (∀ id r, (id, r) ∈ changed → rc_id r = id ∧ root_ok r) → roots_valid w →
  stm_iter (λ kv, save_changed env args track kv.2) changed w = (Done tt, w') →
  roots_valid w' ∧ rw_tracked w' = rw_tracked w ∧
  ∀ id, root_by_id_optional id w' = match bmap_get changed id with
    | Some r => (λ _, r) <$> root_by_id_optional id w | None => root_by_id_optional id w end.
Proof.
  revert w. induction changed as [|[k r] changed IH]; intros w Hs Hall Hv; [by intros [= <-]|].
  apply StronglySorted_cons in Hs as [Hk Hs]. cbn [stm_iter]. intros ([] & w1 & Hone & Hrest)%stm_bind_Done.
  destruct (save_changed_run _ _ _ _ Hone eq_refl) as (p & ->). destruct (Hall k r) as [<- Hok]; [left|].
  assert (Hall' : ∀ id r', (id, r') ∈ changed → rc_id r' = id ∧ root_ok r') by (intros; apply Hall; by right).
  destruct (IH _ Hs Hall' (valid_save _ _ (valid_prune _ p Hv) Hok) Hrest) as (Hv' & Htr & Hget).
  split_and!; [done|done|]. intros id. rewrite Hget, bmap_get_save. cbn [bmap_get].
  change (root_by_id_optional id (rw_with_prune w p)) with (root_by_id_optional id w).
  destruct (String.eqb_spec id (rc_id r)) as [->|]; [|done]. destruct (bmap_get changed (rc_id r)) eqn:Hg; [|done].
  apply bmap_get_elem_of in Hg; [|done]. exfalso. rewrite Forall_forall in Hk.
  apply (irreflexivity slt (rc_id r)), Hk, list_elem_of_fmap. by eexists (_, _).
Qed.

Lemma root_listed w root : roots_valid w → root ∈ roots w → root_by_id_optional (rc_id root) w = Some root ∧ root_ok root.
Proof.
  intros Hv ([k r] & -> & Hin)%list_elem_of_fmap. simpl. destruct (proj1 (Forall_forall _ _) (vs_rows _ Hv) _ Hin) as [Hid Hok].
  simpl in *. split; [|done]. apply bmap_get_elem_of; [apply Hv|by rewrite Hid].
Qed.

(** What the transaction leaves. *)
Record tracked_roots (w0 : RootsWorld) (inputs : list string) (w' : RootsWorld) : Prop := {
  tr_valid : roots_valid w';
  tr_settled input root rel : input ∈ inputs → target input = Ok (root, rel) →
    ∃ root', root_by_id_optional (rc_id root) w' = Some root' ∧ settled track rel root' ∧
      tp_status <$> rw_tracked w' !! (rc_id root, rel) = Some (settled_status track);
  tr_lists id : match root_by_id_optional id w0 with
    | Some r => ∃ t u, root_by_id_optional id w' = Some (rc_with_explicit r t u)
    | None => root_by_id_optional id w' = None end;
  tr_others id : (∀ input root rel, input ∈ inputs → target input = Ok (root, rel) → rc_id root ≠ id) →
    root_by_id_optional id w' = root_by_id_optional id w0;
  tr_paths id p : (∀ input root, input ∈ inputs → target input = Ok (root, p) → rc_id root ≠ id) →
    rw_tracked w' !! (id, p) = rw_tracked w0 !! (id, p);
}.

Lemma track_transaction_run inputs w0 failed w' :
  roots_valid w0 → rs = roots w0 → track_transaction env args track rs inputs w0 = (Done failed, w') →
  tracked_roots w0 inputs w' ∧ (failed = 0%nat → ∀ input, input ∈ inputs → ∃ root rel, target input = Ok (root, rel)).
Proof.
  intros Hv Hrs. unfold track_transaction. rewrite not_dry. intros (tr & w1 & [= <- <-] & Hrun)%stm_bind_Done.
  set (st := fold_left _ _ _) in Hrun. pose proof (tracked_state_all (rw_tracked w0) inputs) as Hst. fold st in Hst.
  apply stm_bind_Done in Hrun as ([] & w1 & [= <-] & Hrun). unfold tidy_excluded in Hrun. rewrite not_excluded in Hrun.
  apply stm_bind_Done in Hrun as (changed & w2 & [= <- <-] & Hrun). apply stm_bind_Done in Hrun as ([] & w3 & Hsave & Hrun).
  apply stm_bind_Done in Hrun as ([] & w4 & [= <-] & [= <- <-]).
  destruct Hst as [Hf Hset Hsort Hch Hn Hrest]. split; [|exact Hf].
  destruct (save_all_run (ts_changed st) (rw_with_tracked w0 (ts_tracked st)) w3 Hsort) as (Hv' & Htr & Hget); [| |exact Hsave|].
  { intros id r Hin%bmap_get_elem_of; [|done]. destruct (Hch _ _ Hin) as (r0 & t & u & Hr0 & Hid & ->). split; [done|].
    apply root_ok_explicit. rewrite Hrs in Hr0. by apply (root_listed w0). }
  { destruct Hv. by split. }
  change (∀ id, root_by_id_optional id w3 = match bmap_get (ts_changed st) id with
    | Some r => (λ _, r) <$> root_by_id_optional id w0 | None => root_by_id_optional id w0 end) in Hget.
  change (rw_tracked w3 = ts_tracked st) in Htr.
  assert (Hrow : ∀ id r, bmap_get (ts_changed st) id = Some r → ∃ r0 t u, root_by_id_optional id w0 = Some r0 ∧ r = rc_with_explicit r0 t u).
  { intros id r Hg. destruct (Hch _ _ Hg) as (r0 & t & u & Hr0 & <- & ->). rewrite Hrs in Hr0. exists r0, t, u. split; [|done].
    by apply root_listed. }
  split; [by apply valid_prune|..].
  - intros input root rel Hin Ht. destruct (Hset _ _ _ Hin Ht) as [(r & Hg & Hs) Hp]. exists r. split_and!; [|done|].
    + destruct (Hrow _ _ Hg) as (r0 & t & u & Hr0 & _). etrans; [apply Hget|]. by rewrite Hg, Hr0.
    + change (tp_status <$> rw_tracked w3 !! (rc_id root, rel) = Some (settled_status track)). by rewrite Htr.
  - intros id. change (match root_by_id_optional id w0 with
      | Some r => ∃ t u, root_by_id_optional id w3 = Some (rc_with_explicit r t u) | None => root_by_id_optional id w3 = None end).
    rewrite Hget. destruct (bmap_get (ts_changed st) id) as [r|] eqn:Hg.
    + destruct (Hrow _ _ Hg) as (r0 & t & u & -> & ->). by exists t, u.
    + destruct (root_by_id_optional id w0) as [r|]; [|done]. exists (rc_explicit_track r), (rc_explicit_untrack r). by destruct r.
  - intros id Hno. etrans; [apply Hget|]. destruct (bmap_get (ts_changed st) id) as [r|] eqn:Hg; [|done].
    destruct (Hn id) as (i & root & rel & Hi & Ht & Hid); [by rewrite Hg|]. by destruct (Hno _ _ _ Hi Ht).
  - intros id p Hno. change (rw_tracked w3 !! (id, p) = rw_tracked w0 !! (id, p)). rewrite Htr. by apply Hrest.
Qed.
End Settled.

Section Commands.
Context `{!ObjectCodec, !Chrono, !Blake3, !Zstd, !Serde TreeNodeManifest, !Serde TreeManifest, !Serde PackIndex,
          !Serde LargeManifest, !Serde SnapshotManifest, !Serde entries_map, !Serde (string * string * entries_map * nodes_map),
          !ManifestValue, !ValueRead, !WalkDir, !GlobSet, !IgnoreCrate}.
Context (env : RootsEnv) (read_to_string : string → result string string) (stdin : result string string).

(** C12. What was asked is what is kept: when [mj track] or [mj untrack], not a dry run and
    without [--excluded], reports success, every path of the command was found in a root, that
    root has the path in the list of the command and not in the other, the table of paths says
    so, and the paths that the entry in the list names as text, itself and what is below it,
    are managed after [track] (where nothing else in the list untracks them) and not managed
    after [untrack]; an entry such as [./a] names no path a scan meets. The settings of the roots are
    otherwise as they were, the settings of other roots and the rows of other paths are
    untouched, and the configuration file has the same settings. (What [untrack] does to the
    history is the subject of [forget_keeps_managed] and [forget_loses_other_roots].) *)
Theorem tracking_settles args track w w' :
  roots_valid w → pt_excluded args = false → pt_dry_run args = false →
  update_explicit_tracking env read_to_string stdin args track w = (Done tt, w') →
  ∃ w0 inputs, let target := resolve_path_tracking_target env (roots w0) (pt_root args) in
    open_db env w = (Done tt, w0) ∧ collect_path_tracking_inputs env read_to_string stdin args (roots w0) (rw_tracked w0) = Ok inputs ∧
    synced w' ∧ tracked_roots env args track (roots w0) w0 inputs w' ∧
    ∀ input, input ∈ inputs → ∃ root rel root', target input = Ok (root, rel) ∧
      root_by_id_optional (rc_id root) w' = Some root' ∧
      ∀ ignore p is_dir, names_path rel p → (track = true → explicitly_untracked root' p = false) →
        root_record_is_managed root' ignore p is_dir = track.
Proof.
  intros Hv Hx Hd. unfold update_explicit_tracking. intros ([] & w0 & Hopen & Hrun)%stm_bind_Done.
  pose proof (open_db_stays _ _ _ _ Hv Hopen) as Hv0. simpl in Hv0. apply stm_bind_Done in Hrun as (rs & w1 & [= <- <-] & Hrun).
  destruct (track && _); [done|]. rewrite Hx, Hd in Hrun. cbn [andb] in Hrun. apply stm_bind_Done in Hrun as (tr & w1 & [= <- <-] & Hrun).
  apply stm_bind_Done in Hrun as (inputs & w1 & [Hin ->]%stm_ok_Done & Hrun). destruct (bool_decide _); [done|].
  apply stm_bind_Done in Hrun as (failed & w2 & Hrun & Hend). destruct (Nat.ltb_spec 0 failed) as [|Hz]; [done|]. injection Hend as <-.
  apply stm_bind_Done in Hrun as (failed' & w1 & Htx & Hrun). apply stm_bind_Done in Hrun as ([] & w3 & Hsync & [= -> <-]).
  unfold rw_transaction in Htx. destruct (track_transaction _ _ _ _ _ w0) as [[n|e|] wt] eqn:Ht; [|done..].
  injection Htx as -> ->. destruct (track_transaction_run env args track Hx Hd (roots w0) inputs w0 failed w1 Hv0 eq_refl Ht) as [Hout Hall].
  pose proof (sync_ends_synced _ _ _ _ (tr_valid _ _ _ _ _ _ _ Hout) Hsync) as [Hv3 Hs3].
  assert (Hsame : ∃ c, w3 = rw_with_config w1 c).
  { unfold sync_roots_to_config in Hsync. apply stm_bind_Done in Hsync as (c & w4 & Hread & Hsync).
    apply stm_bind_Done in Hread as ([] & w5 & [_ ->]%stm_ok_Done & [= <- <-]). apply stm_bind_Done in Hsync as (rows & w5 & [= <- <-] & Hsync).
    apply stm_bind_Done in Hsync as ([] & w5 & [_ ->]%stm_ok_Done & [= <-]). by eexists. }
  assert (Hout3 : tracked_roots env args track (roots w0) w0 inputs w3).
  { destruct Hsame as [c ->]. destruct Hout. by split. }
  exists w0, inputs. cbv zeta. split_and!; [done..|]. intros input Hi.
  destruct (Hall ltac:(lia) _ Hi) as (root & rel & Htgt). destruct (tr_settled _ _ _ _ _ _ _ Hout3 _ _ _ Hi Htgt) as (root' & Hg & Hset & _).
  exists root, rel, root'. split_and!; [done..|]. intros ignore p is_dir. by apply settled_managed.
Qed.
End Commands.
