(* ===== verification/TrackingExample.v ===== *)
(** * Roots and tracked paths: a concrete state

    The store of [ForgetExample] with two roots, of which the settings are in the
    configuration file. *)

From S2P Require Import Prelude RStr BTree MachInt Core Util Config Policy Large Crypto Store Db Pack Restore LargeStore RemoteObjects Trees ObjectKeys LinkFs PackStore RestoreJob Gc Prune SnapshotRules SnapshotExample Forget ForgetExample Roots Tracking.

Local Open Scope Z_scope.

Module TrackingExample.
Import CryptoExample LargeStoreExample CoreExample PackStoreExample RemoteExample TreesExample GcExample PruneExample ForgetExample.

Definition tx_root (id path : string) (track untrack : list string) : RootConfig := {|
  rc_id := id; rc_name := id; rc_path := path; rc_include := ["**"]; rc_exclude := [];
  rc_explicit_track := track; rc_explicit_untrack := untrack; rc_follow_symlinks := false;
  rc_require_mount := false; rc_status := "active"; rc_degraded := None; rc_snapshot_mode := "default";
  rc_pre_snapshot := None; rc_post_snapshot := None; rc_snapshot_source := None;
  rc_application_plugin := None; rc_large := None; rc_volatile := None |}.
Definition tx_roots : list RootConfig := [tx_root "home" "/home" [] []; tx_root "work" "/work" [] []].
Definition tx_world : RootsWorld := {|
  rw_prune := fg_world; rw_roots := map (λ r, (rc_id r, r)) tx_roots; rw_tracked := ∅;
  rw_config := map ConfigRoot_from tx_roots |}.
Definition tx_env : RootsEnv := {|
  on_prune := prune_env; on_now := λ _, 0; on_clock := λ _, "now"; on_cwd := Ok "/home"; on_exists := λ _, true;
  on_is_dir := λ _, false; on_config_dir := "/etc/mj"; on_config_read := Ok tt; on_config_write := Ok tt |}.

Lemma tx_root_ok id path track untrack : path_is_absolute path = true → root_ok (tx_root id path track untrack).
Proof. intros Hp. split; [reflexivity|by intros c|by intros c|exact Hp|done]. Qed.

Lemma tx_valid : roots_valid tx_world.
Proof.
  split.
  - change (bsorted ["home"; "work"]). repeat constructor.
  - apply Forall_cons. split; [by split; [|apply tx_root_ok]|]. apply Forall_singleton. by split; [|apply tx_root_ok].
  - apply Forall_cons. split; [|apply Forall_singleton]; (eexists; split; [|reflexivity]; by apply tx_root_ok).
Qed.

Lemma root_settings_survive_witness :
  ∃ w' w'', root_cmd tx_env (RootPause "home") tx_world = (Done tt, w') ∧ open_db tx_env w' = (Done tt, w'') ∧
    rc_status <$> root_by_id_optional "home" w'' = Some "paused".
Proof.
  eexists. destruct (root_settings_survive (H := ex_codec) tx_env) with (command := RootPause "home") (w := tx_world)
    (r := @Done unit string tt) (w' := (root_cmd tx_env (RootPause "home") tx_world).2) as (_ & w'' & Hopen & _ & Hsame).
  - intros cwd [= <-]. reflexivity.
  - exact tx_valid.
  - reflexivity.
  - reflexivity.
  - exists w''. split; [reflexivity|]. split; [exact Hopen|]. unfold root_by_id_optional. rewrite (Hsame eq_refl). reflexivity.
Defined.

Definition tx_args (paths : list string) : PathTrackArgs := {|
  pt_root := Some "home"; pt_paths := paths; pt_path_file := None; pt_stdin := false; pt_excluded := false;
  pt_dry_run := false; pt_summary := false; pt_quiet := false; pt_json := false; pt_continue_on_history_error := false |}.
Abbreviation tx_untrack paths :=
  (update_explicit_tracking tx_env (λ _, Err "no file") (Err "no input") (tx_args paths) false tx_world).

Lemma tx_untrack_done : tx_untrack ["old"] = (Done tt, (tx_untrack ["old"]).2).
Proof.
  assert (Hr : (tx_untrack ["old"]).1 = Done tt) by (vm_compute; reflexivity).
  destruct (tx_untrack ["old"]). simpl in Hr. by subst.
Qed.

Lemma tracking_settles_witness :
  ∃ w' root', tx_untrack ["old"] = (Done tt, w') ∧ root_by_id_optional "home" w' = Some root' ∧
    ∀ ignore is_dir, root_record_is_managed root' ignore "old/notes.txt" is_dir = false.
Proof.
  destruct (tracking_settles _ _ _ (tx_args ["old"]) _ _ _ tx_valid eq_refl eq_refl tx_untrack_done) as (w0 & inputs & Hopen & Hin & _ & _ & Hall).
  eexists. injection Hopen as <-. injection Hin as <-. destruct (Hall "old") as (root & rel & root' & Htgt & Hg & Hm); [left|].
  injection Htgt as <- <-. exists root'. split; [exact tx_untrack_done|]. split; [exact Hg|].
  intros ignore is_dir. apply Hm; [|done]. split; [done|]. right. reflexivity.
Defined.

(** A path given as ["./a"] is kept as it is and then names no file. *)
Example curdir_pattern_covers_nothing :
  normalize_tracking_path (path_components "./a") = Ok "./a" ∧ path_list_covers ["./a"] "a" = false.
Proof. split; reflexivity. Qed.
End TrackingExample.
