(* ===== verification/Pipeline.v ===== *)
(** * The pipelined restore of a large file

    [write_large_chunks_atomic_pipelined] of [src/main.rs]: worker threads take
    chunk indices from a shared counter, read the chunks and send them through a
    bounded channel; the writer puts them back in order in a temporary file, which is
    renamed into place at the end.  The threads are a step relation: any interleaving of
    the workers and the writer is a run.  Every call of the writer may fail. *)

From S2P Require Import Prelude.

(** What the calls of the writer return: the look at the destination and the creation of
    the temporary file, [write_all] of each chunk (a failure after some bytes, with its
    error), and [sync_all], the rename and the sync of the directory. *)
Record WriterCalls := {
  wc_open : result unit string;
  wc_write : nat → option (nat * string);
  wc_sync : result unit string;
  wc_rename : result unit string;
  wc_sync_dir : result unit string;
}.

Section Pipeline.
(** The number of chunks, and what reading (and decoding) chunk [i] gives. *)
Context (n : nat) (read : nat → result (list Z) string) (calls : WriterCalls).
(** What is at the destination before. *)
Context (dest : option (list Z)).

(** A message of the channel. *)
Abbreviation message := (result (nat * list Z) string).

(** Where a worker is: before the lock, reading its chunk, blocked in [send], gone. *)
Inductive worker := WIdle | WReading (i : nat) | WSending (i : nat) (m : message) | WDone.

(** The writer: before it has a temporary file, in its receive loop, before the sync, the
    rename and the sync of the directory, or done with the result of [write_atomic_with]. *)
Inductive writer := WrStart | WrRunning | WrSync | WrRename | WrSyncDir | WrOk | WrFailed (e : string).

(** The closure still has the receiving end of the channel. *)
Definition receiving (w : writer) : bool := match w with WrStart | WrRunning => true | _ => false end.

Record pstate := {
  p_next : nat;
  p_workers : list worker;
  p_chan : list message;
  p_pending : gmap nat (list Z);
  p_next_write : nat;
  p_written : list Z;
  p_writer : writer;
  p_dest : option (list Z);
}.

(** [while let Some(bytes) = pending.remove(&next_write)], with the error of a write. *)
Fixpoint drain (fuel : nat) (pending : gmap nat (list Z)) (next_write : nat) (written : list Z)
    : gmap nat (list Z) * nat * list Z * option string :=
  match fuel with
  | O => (pending, next_write, written, None)
  | S fuel' =>
    match pending !! next_write with
    | Some bytes =>
      match wc_write calls next_write with
      | None => drain fuel' (delete next_write pending) (S next_write) (written ++ bytes)
      | Some (k, e) => (delete next_write pending, next_write, written ++ take k bytes, Some e)
      end
    | None => (pending, next_write, written, None)
    end
  end.

(** The writer handles one message. *)
Definition receive (m : message) (chan : list message) (s : pstate) : pstate :=
  match m with
  | Err e => {| p_next := p_next s; p_workers := p_workers s; p_chan := chan;
                p_pending := p_pending s; p_next_write := p_next_write s;
                p_written := p_written s; p_writer := WrFailed e; p_dest := p_dest s |}
  | Ok (i, bytes) =>
    let pending := <[i := bytes]> (p_pending s) in
    let '(pending', nw, written, error) := drain (size pending) pending (p_next_write s) (p_written s) in
    {| p_next := p_next s; p_workers := p_workers s; p_chan := chan;
       p_pending := pending'; p_next_write := nw; p_written := written;
       p_writer := match error with Some e => WrFailed e | None => p_writer s end; p_dest := p_dest s |}
  end.

Definition with_worker (s : pstate) (k : nat) (w : worker) : pstate :=
  {| p_next := p_next s; p_workers := <[k := w]> (p_workers s); p_chan := p_chan s;
     p_pending := p_pending s; p_next_write := p_next_write s; p_written := p_written s;
     p_writer := p_writer s; p_dest := p_dest s |}.

Definition with_chan (s : pstate) (c : list message) : pstate :=
  {| p_next := p_next s; p_workers := p_workers s; p_chan := c;
     p_pending := p_pending s; p_next_write := p_next_write s; p_written := p_written s;
     p_writer := p_writer s; p_dest := p_dest s |}.

Definition with_next (s : pstate) (i : nat) : pstate :=
  {| p_next := i; p_workers := p_workers s; p_chan := p_chan s;
     p_pending := p_pending s; p_next_write := p_next_write s; p_written := p_written s;
     p_writer := p_writer s; p_dest := p_dest s |}.

Definition with_writer (s : pstate) (w : writer) : pstate :=
  {| p_next := p_next s; p_workers := p_workers s; p_chan := p_chan s;
     p_pending := p_pending s; p_next_write := p_next_write s; p_written := p_written s;
     p_writer := w; p_dest := p_dest s |}.

Definition with_dest (s : pstate) (d : option (list Z)) : pstate :=
  {| p_next := p_next s; p_workers := p_workers s; p_chan := p_chan s;
     p_pending := p_pending s; p_next_write := p_next_write s; p_written := p_written s;
     p_writer := p_writer s; p_dest := d |}.

(** The writer goes on when its call succeeds. *)
Definition after (call : result unit string) (next : writer) : writer :=
  match call with Ok _ => next | Err e => WrFailed e end.

(** [parallelism.saturating_mul(2).max(1)] *)
Definition capacity (s : pstate) : nat := Nat.max (length (p_workers s) * 2) 1.

Definition result_message (i : nat) : message :=
  match read i with Ok b => Ok (i, b) | Err e => Err e end.

Inductive step (s : pstate) : pstate → Prop :=
| step_take k :
    p_workers s !! k = Some WIdle → p_next s < n →
    step s (with_next (with_worker s k (WReading (p_next s))) (S (p_next s)))
| step_exit k :
    p_workers s !! k = Some WIdle → n <= p_next s → step s (with_worker s k WDone)
| step_read k i :
    p_workers s !! k = Some (WReading i) → step s (with_worker s k (WSending i (result_message i)))
| step_send k i m :
    p_workers s !! k = Some (WSending i m) → receiving (p_writer s) = true → length (p_chan s) < capacity s →
    step s (with_chan (with_worker s k (match m with Ok _ => WIdle | Err _ => WDone end)) (p_chan s ++ [m]))
| step_send_closed k i m :
    p_workers s !! k = Some (WSending i m) → receiving (p_writer s) = false → step s (with_worker s k WDone)
| step_open :
    p_writer s = WrStart → step s (with_writer s (after (wc_open calls) WrRunning))
| step_recv m chan :
    p_writer s = WrRunning → p_chan s = m :: chan → step s (receive m chan s)
| step_close :
    p_writer s = WrRunning → p_chan s = [] → Forall (λ w, w = WDone) (p_workers s) →
    step s (with_writer s (if p_next_write s =? n then WrSync
                           else WrFailed "large restore wrote too few chunk(s)"))
| step_sync :
    p_writer s = WrSync → step s (with_writer s (after (wc_sync calls) WrRename))
| step_rename :
    p_writer s = WrRename →
    step s (with_writer (match wc_rename calls with Ok _ => with_dest s (Some (p_written s)) | Err _ => s end)
              (after (wc_rename calls) WrSyncDir))
| step_sync_dir :
    p_writer s = WrSyncDir → step s (with_writer s (after (wc_sync_dir calls) WrOk)).

Definition initial (parallelism : nat) : pstate := {|
  p_next := 0; p_workers := replicate parallelism WIdle; p_chan := []; p_pending := ∅;
  p_next_write := 0; p_written := []; p_writer := WrStart; p_dest := dest |}.

(** The writer has returned and every worker is joined. *)
Definition finished (s : pstate) : Prop :=
  (p_writer s = WrOk ∨ ∃ e, p_writer s = WrFailed e) ∧ Forall (λ w, w = WDone) (p_workers s).

(** ** Invariant *)

Definition chunk_bytes (i : nat) : list Z := match read i with Ok b => b | Err _ => [] end.
Definition prefix_bytes (k : nat) : list Z := concat (chunk_bytes <$> seq 0 k).

Definition message_ok (m : message) : Prop :=
  match m with
  | Ok (i, b) => read i = Ok b ∧ i < n
  | Err e => ∃ i, i < n ∧ read i = Err e
  end.

Definition worker_ok (next : nat) (w : worker) : Prop :=
  match w with
  | WReading i => i < next
  | WSending i m => i < next ∧ m = result_message i
  | _ => True
  end.

(** Chunk [i] has been written, waits in the buffer or in the channel, or a worker has it. *)
Definition accounted (s : pstate) (i : nat) : Prop :=
  i < p_next_write s ∨ is_Some (p_pending s !! i) ∨ (∃ b, Ok (i, b) ∈ p_chan s) ∨
  WReading i ∈ p_workers s ∨ (∃ m, WSending i m ∈ p_workers s).

Definition error_queued (s : pstate) : Prop := ∃ e, Err e ∈ p_chan s.

(** The errors [write_atomic_with] can return. *)
Definition cause (e : string) : Prop :=
  wc_open calls = Err e ∨ (∃ i, i < n ∧ read i = Err e) ∨ (∃ i k, i < n ∧ wc_write calls i = Some (k, e)) ∨
  wc_sync calls = Err e ∨ wc_rename calls = Err e ∨ wc_sync_dir calls = Err e.

(** The closure has returned [Ok]. *)
Definition written_out (w : writer) : bool :=
  match w with WrSync | WrRename | WrSyncDir | WrOk => true | _ => false end.
Definition renamed (w : writer) : bool := match w with WrSyncDir | WrOk => true | _ => false end.

Record pinv (s : pstate) : Prop := {
  pi_next : p_next s <= n;
  pi_workers : Forall (worker_ok (p_next s)) (p_workers s);
  pi_nonempty : p_workers s ≠ [];
  pi_chan : Forall (λ m, message_ok m) (p_chan s);
  pi_pending i b : p_pending s !! i = Some b → read i = Ok b ∧ i < n;
  pi_written : ∃ k, p_written s = prefix_bytes (p_next_write s) ++ take k (chunk_bytes (p_next_write s));
  pi_whole : receiving (p_writer s) || written_out (p_writer s) = true → p_written s = prefix_bytes (p_next_write s);
  pi_written_ok i : i < p_next_write s → i < n ∧ ∃ b, read i = Ok b;
  pi_running : receiving (p_writer s) = true →
    p_pending s !! p_next_write s = None ∧
    (error_queued s ∨ ((∀ i, i < p_next s → accounted s i) ∧ (WDone ∈ p_workers s → p_next s = n)));
  pi_ok : written_out (p_writer s) = true → p_next_write s = n;
  pi_dest : p_dest s = dest ∨ p_dest s = Some (prefix_bytes n) ∧ p_next_write s = n;
  pi_renamed : renamed (p_writer s) = true → p_dest s = Some (prefix_bytes n);
  pi_failed e : p_writer s = WrFailed e → cause e;
}.

Lemma prefix_bytes_S k : prefix_bytes (S k) = prefix_bytes k ++ chunk_bytes k.
Proof.
  unfold prefix_bytes. rewrite seq_S, fmap_app, concat_app. simpl. by rewrite app_nil_r.
Qed.

Lemma drain_spec fuel pending nw written p' nw' written' error :
  size pending <= fuel →
  (∀ i b, pending !! i = Some b → read i = Ok b ∧ i < n) →
  written = prefix_bytes nw → (∀ i, i < nw → i < n ∧ ∃ b, read i = Ok b) →
  drain fuel pending nw written = (p', nw', written', error) →
  (∀ i b, p' !! i = Some b → read i = Ok b ∧ i < n) ∧ (∀ i, i < nw' → i < n ∧ ∃ b, read i = Ok b) ∧
  match error with
  | None => written' = prefix_bytes nw' ∧ p' !! nw' = None ∧
            (∀ i, i < nw ∨ is_Some (pending !! i) → i < nw' ∨ is_Some (p' !! i))
  | Some e => ∃ k, nw' < n ∧ wc_write calls nw' = Some (k, e) ∧ written' = prefix_bytes nw' ++ take k (chunk_bytes nw')
  end.
Proof.
  revert pending nw written; induction fuel as [|fuel IH]; intros pending nw written Hsize Hp Hw Hok; simpl.
  - assert (pending = ∅) as -> by (apply map_size_empty_inv; lia).
    intros [= <- <- <- <-]. split_and!; [done..|by rewrite lookup_empty|done].
  - destruct (pending !! nw) as [b|] eqn:Hnw; [|by intros [= <- <- <- <-]].
    destruct (Hp _ _ Hnw) as [Hread Hlt].
    assert (Hdel : ∀ i b', delete nw pending !! i = Some b' → read i = Ok b' ∧ i < n)
      by (intros i b' [_ Hi]%lookup_delete_Some; by apply Hp).
    destruct (wc_write calls nw) as [[k e]|] eqn:Hwrite; intros Hd.
    { injection Hd as <- <- <- <-. split_and!; [done..|]. exists k. split_and!; [done..|]. unfold chunk_bytes. by rewrite Hread, Hw. }
    apply IH in Hd as (H1 & H2 & H3); [| |done| |].
    + split_and!; [done..|]. destruct error as [e|]; [done|]. destruct H3 as (H3 & H4 & H5). split_and!; [done..|].
      intros i Hi. apply H5. destruct (decide (i = nw)) as [->|Hne]; [left; lia|].
      destruct Hi as [Hi|Hi]; [left; lia|right; by rewrite lookup_delete_ne].
    + rewrite map_size_delete, Hnw. simpl. lia.
    + rewrite Hw, prefix_bytes_S. unfold chunk_bytes. by rewrite Hread.
    + intros i Hi. destruct (decide (i = nw)) as [->|]; [eauto|apply Hok; lia].
Qed.

Lemma drain_mono fuel pending nw written p' nw' written' error :
  drain fuel pending nw written = (p', nw', written', error) → nw <= nw'.
Proof.
  revert pending nw written; induction fuel as [|fuel IH]; intros pending nw written; simpl; [by intros [= <- <- <- <-]|].
  destruct (pending !! nw); [|by intros [= <- <- <- <-]]. destruct (wc_write calls nw) as [[k e]|]; [by intros [= <- <- <- <-]|].
  intros ?%IH. lia.
Qed.

Lemma elem_of_update {A} (l : list A) k x y old :
  l !! k = Some old → x ∈ l → x ≠ old → x ∈ <[k := y]> l.
Proof.
  intros Hk [j Hj]%list_elem_of_lookup Hne. apply list_elem_of_lookup. exists j.
  rewrite list_lookup_insert_ne; [done|]. intros ->. congruence.
Qed.

Lemma elem_of_update_new {A} (l : list A) k y old : l !! k = Some old → y ∈ <[k := y]> l.
Proof.
  intros Hk. apply list_elem_of_lookup. exists k. apply list_lookup_insert_eq.
  by eapply lookup_lt_Some.
Qed.

Lemma elem_of_update_inv {A} (l : list A) k x y : x ∈ <[k := y]> l → x = y ∨ x ∈ l.
Proof.
  intros [j Hj]%list_elem_of_lookup. apply list_lookup_insert_Some in Hj as [(-> & -> & _)|[_ Hj]]; [by left|].
  right. by eapply list_elem_of_lookup_2.
Qed.

Lemma insert_nonempty {A} (l : list A) k y : l ≠ [] → <[k := y]> l ≠ [].
Proof. destruct l, k; done. Qed.

Lemma workers_update next l k w :
  Forall (worker_ok next) l → worker_ok next w → Forall (worker_ok next) (<[k := w]> l).
Proof. intros. by apply Forall_insert. Qed.

Lemma worker_ok_mono next next' w : next <= next' → worker_ok next w → worker_ok next' w.
Proof. destruct w; simpl; intros; [done|lia| |done]. destruct_and!; split; [lia|done]. Qed.

(** What a worker update keeps accounted: everything but the old worker's chunk. *)
Lemma accounted_update s k old w i :
  p_workers s !! k = Some old → accounted s i →
  (old = WReading i ∨ (∃ m, old = WSending i m) → accounted (with_worker s k w) i) →
  accounted (with_worker s k w) i.
Proof.
  intros Hk Hacc Hold. destruct Hacc as [?|[?|[?|[Hw|[m Hw]]]]]; unfold accounted; simpl; auto.
  - destruct old as [|j|j m|]; try (do 3 right; left; by eapply elem_of_update).
    destruct (decide (j = i)) as [->|Hne]; [by apply Hold; left|].
    do 3 right. left. eapply elem_of_update; [done..|congruence].
  - destruct old as [|j|j m'|]; try (do 4 right; exists m; by eapply elem_of_update).
    destruct (decide (j = i)) as [->|Hne]; [by apply Hold; right; exists m'|].
    do 4 right. exists m. eapply elem_of_update; [done..|congruence].
Qed.

Lemma step_take_pinv s k :
  pinv s → p_workers s !! k = Some WIdle → p_next s < n →
  pinv (with_next (with_worker s k (WReading (p_next s))) (S (p_next s))).
Proof.
  intros [] Hk Hlt. split; simpl; try done.
  - apply workers_update; [|simpl; lia]. eapply Forall_impl; [done|]. intros w. apply worker_ok_mono. lia.
  - by apply insert_nonempty.
  - intros Hr. destruct (pi_running0 Hr) as [? [He|[Hacc Hd]]]; split; [done|by left|done|]. right. split.
    + intros i Hi. destruct (decide (i = p_next s)) as [->|Hne].
      * do 3 right. left. by eapply elem_of_update_new.
      * apply (accounted_update s k WIdle); [done|apply Hacc; lia|]. by intros [?|[??]].
    + intros Hin. apply elem_of_update_inv in Hin as [?|Hin]; [done|]. apply Hd in Hin. lia.
Qed.

Lemma step_exit_pinv s k :
  pinv s → p_workers s !! k = Some WIdle → n <= p_next s → pinv (with_worker s k WDone).
Proof.
  intros [] Hk Hge. split; simpl; try done.
  - by apply workers_update.
  - by apply insert_nonempty.
  - intros Hr. destruct (pi_running0 Hr) as [? [He|[Hacc Hd]]]; split; [done|by left|done|]. right. split.
    + intros i Hi. apply (accounted_update s k WIdle); [done|by apply Hacc|]. by intros [?|[??]].
    + intros _. lia.
Qed.

Lemma step_read_pinv s k i :
  pinv s → p_workers s !! k = Some (WReading i) → pinv (with_worker s k (WSending i (result_message i))).
Proof.
  intros [] Hk. pose proof (Forall_lookup_1 _ _ _ _ pi_workers0 Hk) as Hi. simpl in Hi.
  split; simpl; try done.
  - by apply workers_update.
  - by apply insert_nonempty.
  - intros Hr. destruct (pi_running0 Hr) as [? [He|[Hacc Hd]]]; split; [done|by left|done|]. right. split.
    + intros j Hj. apply (accounted_update s k (WReading i)); [done|by apply Hacc|].
      intros [[= ->]|[??]]; [|done]. do 4 right. eexists. by eapply elem_of_update_new.
    + intros Hin. apply elem_of_update_inv in Hin as [?|Hin]; [done|auto].
Qed.

Lemma result_message_ok i : i < n → message_ok (result_message i).
Proof. intros Hi. unfold result_message. destruct (read i) eqn:?; simpl; eauto. Qed.

Lemma step_send_pinv s k i m :
  pinv s → p_workers s !! k = Some (WSending i m) →
  pinv (with_chan (with_worker s k (match m with Ok _ => WIdle | Err _ => WDone end)) (p_chan s ++ [m])).
Proof.
  intros [] Hk. pose proof (Forall_lookup_1 _ _ _ _ pi_workers0 Hk) as [Hi ->].
  split; simpl; try done.
  - apply workers_update; [done|]. by destruct (result_message i).
  - by apply insert_nonempty.
  - apply Forall_app. split; [done|]. constructor; [|done]. apply result_message_ok. lia.
  - intros Hr. destruct (pi_running0 Hr) as [? Hor]; split; [done|].
    destruct (result_message i) as [[j b]|e] eqn:Hm.
    2:{ left. exists e. simpl. apply elem_of_app. right. by constructor. }
    destruct Hor as [[e He]|[Hacc Hd]]; [left; exists e; simpl; apply elem_of_app; by left|]. right.
    assert (j = i) as -> by (unfold result_message in Hm; destruct (read i); congruence).
    split.
    + intros l Hl. destruct (decide (l = i)) as [->|Hne].
      { do 2 right. left. exists b. simpl. apply elem_of_app. right. by constructor. }
      destruct (Hacc l Hl) as [?|[?|[[b' ?]|Hw]]]; unfold accounted; simpl; auto.
      { do 2 right. left. exists b'. apply elem_of_app. by left. }
      do 3 right. destruct Hw as [Hw|[m' Hw]]; [left|right; exists m'];
        (eapply elem_of_update; [done..|congruence]).
    + intros Hin. apply elem_of_update_inv in Hin as [?|Hin]; [done|auto].
Qed.

Lemma step_recv_pinv s m chan :
  pinv s → p_writer s = WrRunning → p_chan s = m :: chan → pinv (receive m chan s).
Proof.
  intros [] Hrun Hch. rewrite Hch in pi_chan0. apply Forall_cons_1 in pi_chan0 as [Hm Hchan]. rewrite Hrun in *. specialize (pi_whole0 eq_refl).
  assert (Hdest : p_dest s = dest ∨ p_dest s = Some (prefix_bytes n)) by naive_solver.
  destruct m as [[i b]|e]; unfold receive.
  2:{ simpl in Hm. split; simpl; try done. intros e' [= <-]. by right; left. }
  destruct Hm as [Hread Hi].
  destruct (drain _ _ _ _) as [[[p' nw'] written'] error] eqn:Hd.
  destruct (pi_running0 eq_refl) as [Hnone Hor].
  pose proof Hd as Hd0. apply drain_spec in Hd as (H1 & H2 & H3); [|done| |done|done].
  2:{ intros j b'. destruct (decide (j = i)) as [->|]; intros; simplify_map_eq; [done|auto]. }
  assert (Hmono : p_next_write s <= nw') by (by eapply drain_mono).
  assert (Hdest' : p_dest s = dest ∨ p_dest s = Some (prefix_bytes n) ∧ nw' = n).
  { destruct pi_dest0 as [?|[? Heq]]; [by left|]. right. split; [done|]. destruct (decide (nw' = n)); [done|].
    destruct (H2 n); lia. }
  destruct error as [e|].
  { destruct H3 as (k & Hlt & Hw & ->). split; simpl; try done; [by eexists|]. intros e' [= <-]. right; right; left. by exists nw', k. }
  destruct H3 as (-> & H4 & H5). split; simpl; rewrite ?Hrun; try done; [by exists 0; rewrite take_0, app_nil_r|].
  intros _. split; [done|].
  destruct Hor as [[e He]|[Hacc Hdone]].
  { left. exists e. simpl. rewrite Hch in He. apply elem_of_cons in He as [?|He]; [done|exact He]. }
  right. split; [|done]. intros j Hj. specialize (H5 j). unfold accounted; simpl.
  destruct (decide (j = i)) as [->|Hne]; [rewrite lookup_insert_eq in H5; destruct H5 as [?|?]; [by right; eexists|auto..]|].
  rewrite lookup_insert_ne in H5 by done.
  destruct (Hacc j Hj) as [?|[?|[[b' Hb']|?]]]; [destruct H5; auto..| |auto].
  rewrite Hch in Hb'. apply elem_of_cons in Hb' as [?|Hb']; [congruence|]. do 2 right. left. by exists b'.
Qed.

Lemma step_close_pinv s :
  pinv s → p_writer s = WrRunning → p_chan s = [] → Forall (λ w, w = WDone) (p_workers s) →
  p_next_write s = n.
Proof.
  intros [] Hrun Hch Hdone. rewrite Hrun in *. destruct (pi_running0 eq_refl) as [Hnone [[e He]|[Hacc Hall]]].
  { rewrite Hch in He. by apply not_elem_of_nil in He. }
  assert (Hnext : p_next s = n).
  { apply Hall. destruct (p_workers s) as [|w ws]; [done|].
    apply Forall_cons_1 in Hdone as [-> _]. by constructor. }
  destruct (decide (n <= p_next_write s)) as [Hge|Hlt].
  - destruct (decide (p_next_write s = n)); [done|]. destruct (pi_written_ok0 n); lia.
  - destruct (Hacc (p_next_write s)) as [?|[[??]|[[b Hb]|Hw]]]; [lia|lia|congruence| |].
    + rewrite Hch in Hb. by apply not_elem_of_nil in Hb.
    + rewrite Forall_forall in Hdone. by destruct Hw as [Hw|[m Hw]]; apply Hdone in Hw.
Qed.

(** A call of the writer around its loop. *)
Lemma after_pinv s call next :
  pinv s → receiving (p_writer s) || written_out (p_writer s) = true → (∀ e, call = Err e → cause e) →
  (receiving next = true → receiving (p_writer s) = true) → (∀ e, next ≠ WrFailed e) →
  (written_out next = true → p_next_write s = n) → (renamed next = true → p_dest s = Some (prefix_bytes n)) →
  pinv (with_writer s (after call next)).
Proof.
  intros [] Hw He Hr Hf Hn Hd. specialize (pi_whole0 Hw). destruct call as [[]|e]; simpl.
  - split; simpl; try done; [by auto|by intros e ?%Hf].
  - split; simpl; try done. intros e' [= <-]. by apply He.
Qed.

Lemma step_pinv s s' : pinv s → step s s' → pinv s'.
Proof.
  intros Hinv [k|k|k i|k i m|k i m|Hw|m chan|Hw|Hw|Hw|Hw].
  - by apply step_take_pinv.
  - by apply step_exit_pinv.
  - by apply step_read_pinv.
  - by eapply step_send_pinv.
  - destruct Hinv. split; simpl; try done; [by apply workers_update|by apply insert_nonempty|congruence].
  - apply after_pinv; rewrite ?Hw; try done. intros e ?. by left.
  - by apply step_recv_pinv.
  - assert (Hn : p_next_write s = n) by (by apply step_close_pinv).
    rewrite Hn, Nat.eqb_refl. apply (after_pinv s (Ok tt)); rewrite ?Hw; done.
  - pose proof (pi_ok _ Hinv) as Hok. rewrite Hw in Hok. apply after_pinv; rewrite ?Hw; try done.
    intros e ?. by do 3 right; left.
  - pose proof (pi_ok _ Hinv) as Hok. pose proof (pi_whole _ Hinv) as Hwh. rewrite Hw in Hok, Hwh.
    specialize (Hok eq_refl). specialize (Hwh eq_refl). destruct (wc_rename calls) as [[]|e] eqn:Hc.
    + apply (after_pinv (with_dest s (Some (p_written s))) (Ok tt)); simpl; rewrite ?Hw; try done; [|by rewrite Hwh, Hok].
      destruct Hinv. split; simpl; try done; rewrite ?Hw; try done. right. by rewrite Hwh, Hok.
    + apply (after_pinv s (Err e) WrSync); rewrite ?Hw; try done. intros e' [= <-]. by do 4 right; left.
  - pose proof (pi_ok _ Hinv) as Hok. pose proof (pi_renamed _ Hinv) as Hd. rewrite Hw in Hok, Hd.
    apply after_pinv; rewrite ?Hw; try done. intros e ?. by do 5 right.
Qed.

Lemma initial_pinv P : 1 <= P → pinv (initial P).
Proof.
  intros HP. split; simpl; try done.
  - lia.
  - by apply Forall_replicate.
  - destruct P; [lia|done].
  - by exists 0.
  - intros i Hi. lia.
  - intros _. split; [by rewrite lookup_empty|]. right. split; [intros; lia|].
    intros Hin. apply elem_of_replicate in Hin as [? _]. done.
  - by left.
Qed.

Lemma reachable_pinv P s : 1 <= P → rtc step (initial P) s → pinv s.
Proof.
  intros HP Hr. apply (initial_pinv P) in HP. revert HP.
  induction Hr as [|x y z Hxy _ IH]; [done|]. intros Hx. apply IH. by eapply step_pinv.
Qed.

(** ** Termination and progress *)

Definition worker_weight (w : worker) : nat :=
  match w with WDone => 0 | WIdle => 1 | WSending _ _ => 3 | WReading _ => 4 end.

Definition writer_weight (w : writer) : nat :=
  match w with WrStart => 5 | WrRunning => 4 | WrSync => 3 | WrRename => 2 | WrSyncDir => 1 | _ => 0 end.

Definition measure (s : pstate) : nat :=
  4 * (n - p_next s) + sum_list (worker_weight <$> p_workers s) + length (p_chan s) +
  writer_weight (p_writer s).

Lemma weight_update l k old w :
  l !! k = Some old →
  sum_list (worker_weight <$> <[k := w]> l) + worker_weight old =
  sum_list (worker_weight <$> l) + worker_weight w.
Proof.
  revert k; induction l as [|x l IH]; intros [|k] Hk; simplify_eq/=; [lia|].
  apply IH in Hk. csimpl. lia.
Qed.

Lemma after_weight call next : writer_weight (after call next) <= writer_weight next.
Proof. destruct call; simpl; lia. Qed.

Lemma step_measure s s' : step s s' → measure s' < measure s.
Proof.
  unfold measure. intros [k Hk|k Hk|k i Hk|k i m Hk|k i m Hk|Hr|m chan Hr Hc|Hr Hc _|Hr|Hr|Hr]; simpl;
    try (pose proof (weight_update _ _ _ WDone Hk) as Hw; simpl in Hw; lia);
    try (rewrite Hr; match goal with |- context [after ?c ?w] => pose proof (after_weight c w) as Hw end; simpl in *; lia).
  - pose proof (weight_update _ _ _ (WReading (p_next s)) Hk) as Hw. simpl in Hw. lia.
  - pose proof (weight_update _ _ _ (WSending i (result_message i)) Hk) as Hw. simpl in Hw. lia.
  - rewrite length_app. simpl.
    pose proof (weight_update _ _ _ (match m with Ok _ => WIdle | Err _ => WDone end) Hk) as Hw.
    destruct m; simpl in Hw; lia.
  - rewrite Hc. destruct m as [[i b]|e]; simpl; [|rewrite Hr; simpl; lia].
    destruct (drain _ _ _ _) as [[[p' nw'] wr'] error]. simpl. rewrite Hr. destruct error; simpl; lia.
  - rewrite Hr, Hc. destruct (_ =? _); simpl; lia.
  - rewrite Hr. destruct (wc_rename calls); simpl; lia.
Qed.

Lemma all_done_dec l : Forall (λ w, w = WDone) l ∨ ∃ k w, l !! k = Some w ∧ w ≠ WDone.
Proof.
  induction l as [|w l IH]; [left; constructor|].
  destruct w; try (right; exists 0; eexists; split; [reflexivity|done]).
  destruct IH as [?|(k & w & ? & ?)]; [left; by constructor|]. right. by exists (S k), w.
Qed.

Lemma progress s : finished s ∨ ∃ s', step s s'.
Proof.
  destruct (p_writer s) eqn:Hr;
    try solve [right; eexists; first [by apply step_open|by apply step_sync|by apply step_rename|by apply step_sync_dir]];
    (destruct (all_done_dec (p_workers s)) as [Hall|(k & w & Hk & Hw)];
      [|right; destruct w as [|i|i m|]; [| | |done]; try solve [eexists; by eapply step_read];
        try (destruct (decide (p_next s < n)); eexists; [by eapply step_take|eapply step_exit; [done|lia]])]).
  - right. destruct (p_chan s) as [|m chan] eqn:Hc; eexists; [by apply step_close|by apply step_recv].
  - destruct (p_chan s) as [|m' chan] eqn:Hc; eexists; [|by apply step_recv].
    eapply step_send; [done|by rewrite Hr|]. rewrite Hc. unfold capacity. simpl. lia.
  - left. split; [by left|done].
  - eexists. eapply step_send_closed; [done|by rewrite Hr].
  - left. split; [right; by eexists|done].
  - eexists. eapply step_send_closed; [done|by rewrite Hr].
Qed.

(** C22. However the threads of a pipelined restore interleave and whatever call of the
    writer fails: the destination is as it was or has the whole file, and the whole file once
    the restore has returned [Ok]; what was written is at every moment the first chunks in
    the order of their indices and perhaps a part of the next; and an error is that of a chunk
    that could not be read or of a call of the writer that failed: the "wrote fewer chunks"
    error is unreachable.  (A worker is assumed not to panic.) *)
Theorem pipeline_result P s :
  1 <= P → rtc step (initial P) s →
  (p_writer s = WrOk → p_dest s = Some (prefix_bytes n)) ∧
  (p_dest s = dest ∨ p_dest s = Some (prefix_bytes n) ∧ ∀ i, i < n → ∃ b, read i = Ok b) ∧
  (∃ k, p_written s = prefix_bytes (p_next_write s) ++ take k (chunk_bytes (p_next_write s))) ∧
  (∀ i, i < p_next_write s → i < n ∧ ∃ b, read i = Ok b) ∧
  (∀ e, p_writer s = WrFailed e → cause e).
Proof.
  intros HP Hr. destruct (reachable_pinv P s HP Hr). split_and!; [|..|done|done|done].
  - intros Hok. apply pi_renamed0. by rewrite Hok.
  - destruct pi_dest0 as [?|[? Heq]]; [by left|]. right. split; [done|]. intros i Hi. apply pi_written_ok0. lia.
Qed.

(** C30. The pipeline neither deadlocks nor runs forever, whatever read or call of the
    writer fails: a state with threads left can always make a step (senders blocked on the
    bounded channel are released when the writer gives up), no run from the start with [P]
    workers is longer than [4 n + P + 5] steps, and when every chunk reads well and no call
    of the writer fails the state where nothing moves any more has the whole file in place. *)
Theorem pipeline_terminates P s k :
  1 <= P → nsteps step k (initial P) s →
  k <= 4 * n + P + 5 ∧ (finished s ∨ ∃ s', step s s') ∧
  ((∀ s', ¬ step s s') → (∀ e, ¬ cause e) → p_writer s = WrOk ∧ p_dest s = Some (prefix_bytes n)).
Proof.
  intros HP Hs.
  assert (Hm : k + measure s <= measure (initial P)).
  { clear HP. induction Hs as [|k x y z Hxy _ IH]; [lia|]. apply step_measure in Hxy. lia. }
  assert (Hi : measure (initial P) = 4 * n + P + 5).
  { unfold measure, initial. simpl. rewrite fmap_replicate, sum_list_replicate. simpl. lia. }
  split; [lia|]. split; [apply progress|]. intros Hstuck Hgood.
  assert (Hr : rtc step (initial P) s) by (apply rtc_nsteps; by exists k).
  destruct (progress s) as [[[Hw|[e Hw]] _]|[s' Hs']]; [| |by apply Hstuck in Hs'];
    destruct (reachable_pinv P s HP Hr).
  - split; [done|]. apply pi_renamed0. by rewrite Hw.
  - by destruct (Hgood e (pi_failed0 e Hw)).
Qed.

End Pipeline.

(** ** A concrete run *)

Definition ex_read (i : nat) : result (list Z) string := Ok [Z.of_nat i; 9%Z].

Definition ex_calls : WriterCalls := {|
  wc_open := Ok tt; wc_write := λ _, None; wc_sync := Ok tt; wc_rename := Ok tt; wc_sync_dir := Ok tt |}.

(** One worker, one chunk: open, take, read, send, receive, exit, close, sync, rename, sync. *)
Definition ex_end : pstate := {|
  p_next := 1; p_workers := [WDone]; p_chan := []; p_pending := ∅; p_next_write := 1;
  p_written := [0%Z; 9%Z]; p_writer := WrOk; p_dest := Some [0%Z; 9%Z] |}.

Abbreviation ex_step := (step 1 ex_read ex_calls).

Lemma ex_run : nsteps ex_step 10 (initial None 1) ex_end.
Proof.
  eapply nsteps_l; [apply step_open; reflexivity|].
  eapply nsteps_l; [apply (step_take 1 ex_read ex_calls _ 0); [reflexivity|simpl; lia]|].
  eapply nsteps_l; [apply (step_read 1 ex_read ex_calls _ 0 0); reflexivity|].
  eapply nsteps_l; [apply (step_send 1 ex_read ex_calls _ 0 0 (Ok (0, [0%Z; 9%Z]))); [reflexivity..|simpl; unfold capacity; simpl; lia]|].
  eapply nsteps_l; [apply (step_recv 1 ex_read ex_calls _ (Ok (0, [0%Z; 9%Z])) []); reflexivity|].
  eapply nsteps_l; [apply (step_exit 1 ex_read ex_calls _ 0); [reflexivity|vm_compute; lia]|].
  eapply nsteps_l; [apply step_close; [reflexivity|reflexivity|vm_compute; by repeat constructor]|].
  eapply nsteps_l; [apply step_sync; reflexivity|].
  eapply nsteps_l; [apply step_rename; reflexivity|].
  eapply nsteps_l; [apply step_sync_dir; reflexivity|].
  match goal with |- nsteps _ _ ?x _ => replace x with ex_end by (vm_compute; reflexivity) end.
  constructor.
Qed.

(** The same with a disk that is full after one byte. *)
Definition ex_full : WriterCalls := {|
  wc_open := Ok tt; wc_write := λ _, Some (1, "disk full"); wc_sync := Ok tt; wc_rename := Ok tt; wc_sync_dir := Ok tt |}.
Definition ex_stopped : pstate := {|
  p_next := 1; p_workers := [WIdle]; p_chan := []; p_pending := ∅; p_next_write := 0;
  p_written := [0%Z]; p_writer := WrFailed "disk full"; p_dest := Some [7%Z] |}.

Lemma ex_full_run : rtc (step 1 ex_read ex_full) (initial (Some [7%Z]) 1) ex_stopped.
Proof.
  eapply rtc_l; [apply step_open; reflexivity|].
  eapply rtc_l; [apply (step_take 1 ex_read ex_full _ 0); [reflexivity|simpl; lia]|].
  eapply rtc_l; [apply (step_read 1 ex_read ex_full _ 0 0); reflexivity|].
  eapply rtc_l; [apply (step_send 1 ex_read ex_full _ 0 0 (Ok (0, [0%Z; 9%Z]))); [reflexivity..|simpl; unfold capacity; simpl; lia]|].
  eapply rtc_l; [apply (step_recv 1 ex_read ex_full _ (Ok (0, [0%Z; 9%Z])) []); reflexivity|].
  match goal with |- rtc _ ?x _ => replace x with ex_stopped by (vm_compute; reflexivity) end.
  constructor.
Qed.

Lemma pipeline_result_witness :
  (p_writer ex_end = WrOk ∧ p_dest ex_end = Some (prefix_bytes ex_read 1)) ∧ cause 1 ex_read ex_full "disk full".
Proof.
  split.
  - split; [reflexivity|]. apply (pipeline_result 1 ex_read ex_calls None 1 ex_end); [lia| |reflexivity].
    apply rtc_nsteps. exists 10. exact ex_run.
  - apply (pipeline_result 1 ex_read ex_full (Some [7%Z]) 1 ex_stopped); [lia|exact ex_full_run|reflexivity].
Defined.

Lemma pipeline_terminates_witness :
  10 <= 4 * 1 + 1 + 5 ∧ (finished ex_end ∨ ∃ s', ex_step ex_end s').
Proof.
  destruct (pipeline_terminates 1 ex_read ex_calls None 1 ex_end 10) as (H1 & H2 & _); [lia|exact ex_run|].
  split; [exact H1|exact H2].
Defined.
